(* ===== verification/_CoqProject ===== *)
-Q . S2P
Prelude.v
Scalars.v
Session.v
Text.v
Authority.v
Operation.v
RecoveryTable.v
Reconciler.v
Hierarchy.v
Capacity.v
FairCapacity.v
Artifact.v
Json.v
Tool.v
StoreApi.v
StoreWire.v
Approval.v
ApprovalFlow.v
Template.v
Message.v
OperationApi.v
ToolApi.v
EffectApi.v
AuthorityApi.v
SqliteDb.v
SqliteSession.v
SessionLedger.v
Ownership.v
SqliteMailbox.v
Tables.v
SqliteOperation.v
SqliteLaunch.v
SqliteEffect.v
SqliteTool.v
SqliteResolve.v
MailboxLedger.v
Footprint.v
JournalFootprint.v
OperationLedger.v
OperationMail.v
Participants.v
Launches.v
JournalLedger.v
Kernel.v
Scenario.v
Mailbox.v
Fencing.v
Operations.v
Retirement.v
JournalScene.v
Effects.v
Program.v
Services.v
Delivery.v
SqliteCapacity.v
CapacityLedger.v
CapacityCalls.v
CapacityHistory.v
SqliteArtifact.v
ArtifactLedger.v
ArtifactHistory.v
ArtifactRetention.v
SqliteAuthority.v
AuthorityLedger.v
AuthorityHistory.v
