(* ===== verification/Prelude.v ===== *)
(** * A verification of Navigator, a durable coordination kernel

    Navigator coordinates long-running work of participants (agents) that run in
    drivers.  Every decision is made durable first: a session is owned by one host at
    a time through a lease with a fencing epoch, every mutation is a request with an
    identity and a semantic digest that is recorded with its result, and after a
    restart a reconciler classifies what was in flight before anything is done again.

    ** The parts and how they interact

    The consumer talks to core services (crates/navigator-core), which call stores
    through the traits of crates/navigator-store-api; the only durable implementation
    is crates/navigator-store-sqlite.  All of them share the values of
    crates/navigator-domain.  Crates outside this development: navigator-local (the
    process that hosts the services), navigator-supervisor (Unix processes), the
    driver and consumer protocols (framing of generated messages), the conformance
    suites (tests), and the Python and TypeScript packages.

    ** Files: the values

    - Prelude: results with errors, machine integers, lists and their sorting as Rust's
      [sort_by_key], labelled traces, the tactics and the hint database [nav].
    - Scalars: domain/src/{identity,revision,bounded,error,clock}.rs.  The class
      [Validated] is the promise of a validating newtype.
    - Session: domain/src/session.rs (timestamps, compatibility manifests, session
      snapshots, events).
    - Text: what Rust's [trim] and [is_control] do on UTF-8 text.
    - Authority: domain/src/{authority,digest}.rs (profiles, the five ceilings, grants,
      semantic digests).
    - Operation: domain/src/operation.rs, the reference model and trace checker of
      conformance/src/lib.rs, and the store's transition helpers.
    - RecoveryTable: domain/src/recovery.rs and the store's normalization of durable
      states; Reconciler: core/src/recovery.rs over the class [RecoveryBackend].
    - Hierarchy: the routing functions of core/src/hierarchy.rs.
    - Capacity: store-api/src/resource_limits.rs; FairCapacity: the permit semaphore of
      core/src/first_operation.rs as an interleaving of tasks.
    - Artifact, Json, Tool: domain/src/artifact.rs and domain/src/tool.rs.
    - Approval: domain/src/approval.rs and the commands of store-api/src/approval.rs;
      ApprovalFlow: what the approval handlers do to the rows of one approval.
    - Template: domain/src/template.rs; Message: domain/src/message.rs.

    ** Files: the store

    - StoreApi, OperationApi: the commands of store-api/src/lib.rs with their digests,
      sessions and mailbox in the first, launches, participants and operations in the
      second; ToolApi, EffectApi: store-api/src/tool.rs and effect_journal.rs;
      StoreWire: how store-sqlite writes errors, leases and scalars.
    - SqliteDb: the tables [Db], a transaction as a function of the tables that may
      fail, the append of an event and the record of a request; Tables: lemmas on
      tables as lists of rows.
    - SqliteSession, SqliteMailbox, SqliteOperation, SqliteLaunch: the whole handlers of
      [impl SessionStore], [impl MailboxStore], [impl OperationStore] and
      [impl InstanceStore] for [SqliteStore] (crates/navigator-store-sqlite/src/store.rs)
      as transactions over [Db]; SqliteEffect, SqliteTool, SqliteResolve: those of
      [impl EffectJournalStore] and [impl ToolStore].
    - SessionLedger, MailboxLedger, OperationLedger, OperationMail, Participants,
      Launches: the contract of each handler, proved once with a weakest-precondition
      calculus ([wp]) on transactions; Footprint, JournalFootprint: which tables a
      handler writes; JournalLedger: the automaton of an effect and what each handler
      of the journal and of tools does to it, with the request that causes it.
    - Ownership: the session handlers alone as a transition system.
    - Kernel: all the handlers together as one transition system ([kernel_step]) with
      the invariant of its reachable states; Scenario: a concrete history of eighteen
      requests that the witnesses evaluate; JournalScene: one with effects.
    - Fencing, Mailbox, Operations, Retirement, Effects: the theorems over all histories
      of the kernel.
    - SqliteCapacity: the handlers of [impl CapacityStore], what opening a database does
      to the capacity tables, and the checks of their rows at start-up
      (store-sqlite/src/database.rs), over the tables [Capacities] that stand beside
      [Db]; CapacityLedger, CapacityCalls: their invariant and the contract of each
      handler ([cwp]); CapacityHistory: the theorems over histories that interleave
      capacity calls with the kernel.
    - SqliteArtifact: the commands of store-api/src/artifact.rs and the handlers of
      [impl ArtifactStore]; ArtifactLedger: the row of an artifact and the contract of
      each handler; ArtifactHistory, ArtifactRetention: the theorems over histories that
      interleave them with capacity calls and the kernel.
    - AuthorityApi: store-api/src/authority.rs; SqliteAuthority: the handlers of
      [impl AuthorityStore]; AuthorityLedger: what they and the requests of the kernel do
      to policies and grants; AuthorityHistory: the theorems over histories of both.

    ** Files: the services above the store

    - Program: asynchronous code as a tree of calls ([Prog]) whose answers come from
      outside, the steps of one thread and a bound on its calls.
    - Services: core/src/lib.rs (the admission gate, the ownership supervisor with its
      renewal worker, shutdown, and the thin clients of a session) as threads that
      interleave at every access to the state they share.
    - Delivery: core/src/delivery.rs, the drive of one mailbox, run against the
      mailbox handlers as one more actor of [kernel_step].

    ** What the theorems show

    - Sessions and ownership (Ownership, Fencing): epochs of a session's leases strictly
      increase; an owner whose lease was replaced or seen to be expired can never again
      change anything through any handler; an acquisition never overlaps a live lease;
      a request is decided once and replayed with the same answer, and its identity
      cannot be reused for anything else; the event log is gap-free, in time order, and
      ends at the session's revision; a closed session never changes; no history makes
      the store report its own rows as corrupt.
    - Mailbox (Mailbox): one attempt at a time per recipient, in order of sequence, with
      exact accounting of messages and bytes, and a life cycle of every message over
      every history; a late report of an unknown acceptance blocks a mailbox for good.
    - Operations, participants and launches (Operations): at most one unfinished
      operation per participant, the life cycle of each operation, its fencing, the
      durability of its input, participants as trees, the history of launches.
    - Capacity (CapacityHistory): every counter is the sum of the reservations behind it
      and within its limit, no handler finds its rows corrupt, the checks at start-up
      keep accepting the rows, and a live subscription lease ends only by its release;
      a global reservation of subscriptions breaks this, and the code accepts it.
    - Artifacts (ArtifactHistory, ArtifactRetention): the content of an artifact never
      changes and it only moves from available to deleted to erased, by the owner of its
      session and erased only after its retention; what is published and reserved stays
      within the limits of the session, but erasing an artifact frees nothing; the
      retention sweep is exact.
    - Authority (AuthorityHistory): policies stay within their ceilings and grants within
      policies; an effect is allowed only to the owner and within all ceilings; a grant
      that was used up or revoked allows nothing again; what a child created with
      authority may do, its parent could delegate.  Creating such a child skips the
      configured limits ([authorized_child_ignores_limits]).
    - Effects (Effects): the life cycle of an entry of the journal, which can always be
      read; an effect is started at most once plus once per authorized retry, only by
      its owner, and leaves the uncertain phase only by an authorized decision.
    - Services (Services): once the gate is closed no permit passes and no call reaches
      the store, under any interleaving; the state shared by ticks, clients and shutdown
      keeps its invariant; the renewal worker ends; a status may outlive the loss of
      ownership it should report.
    - Delivery (Delivery): a message is handed to its driver at most once per attempt
      and at most [MAX_DELIVERY_ATTEMPTS] times over every history, whatever the driver
      answers and however drives overlap; what a drive reports is what is stored; a
      drive ends.
    - Retirement (Retirement): messages an ended operation leaves still hold capacity,
      and an operation with two open messages that would both be dead-lettered cannot
      end.
    - Meaning of requests (StoreApi, Authority, Session, Template): equal digests mean
      equal commands, manifests and inputs, or an explicit SHA-256 collision; task
      inputs are validated and stored exactly.
    - Authority (Authority): authorization is exactly coverage by five ceilings and a
      bound, active grant; nothing widens it.
    - Approvals (Approval, ApprovalFlow): resources are canonical; a grant is for
      exactly what was asked and never over-used; a settled approval is final.
    - Operation states (Operation): the domain state machine, the store's table and the
      conformance model agree on every command sequence; terminal states absorb.
    - Recovery (RecoveryTable, Reconciler): possibly effective work is never called
      safe; the epoch is acquired and the classification recorded before any action,
      and actions respect the uncertainty and cleanup barriers, for every backend.
    - Hierarchy, capacity, tools: routing always answers and finds the nearest common
      ancestor; the fair queue is a bounded family of FIFO queues without overtaking;
      permits are conserved (and one reachable loss of a permit is exhibited); schema
      validation of a registered tool decides conformance; canonical JSON is stable.

    ** Parameters, bounds and fuel

    Code outside the repository is a class: [Sha256] (the hash), [TimeLib] and
    [TimeArith] (the calendar library), [Json] and [JsonRaw] (parsing and printing),
    [UuidText], and the trait [RecoveryBackend]; the driver may answer a delivery with
    anything, and the trait [DeliveryContextFactory] is assumed to give request
    identities not used before (a premise of [store_answers]); laws are separate classes
    ([TimeLaws], [TimeArithLaws], [JsonLaws], [JsonRawLaws]) with a concrete instance
    each.  Integers are [Z] with the checks of the code at their widths.

    Fuel: the two ancestor loops get the number of known participants plus two and a
    theorem shows it never runs out; the release loop gets the number of queued
    senders, each iteration removing one; binary search gets the length of the list;
    the JSON schema and JSON depth functions count down from 33 where the code counts
    up to 32, so exhaustion is the code's own depth error.  Programs need no fuel: a
    drive is shown to make at most 20 calls, and the renewal worker at most 28 more
    steps of its own once the gate is closed.

    ** Not modelled

    Redaction in debug output, metrics, the SQL text itself (a statement is its effect
    on the tables), connection set-up and migrations.  Of the SQLite store: the
    hierarchy, recovery and projection transactions; of an approval handler, its ledger,
    relayed message and audit event; the reads [load_due_session_delivery_work] and
    [read_request]; of an artifact, its blob.  The creation of a child with authority is
    modelled whole, but is not a step of the kernel: the theorems about participants,
    operations and mailboxes speak of the histories without it.  What
    the hierarchy and approval handlers may do to the tables of the kernel is in
    [kernel_step] as the steps [ks_relay], [ks_retire] and [ks_other].
    The services of core/src/hierarchy.rs and the worker loop of
    core/src/first_operation.rs, which call those transactions, wait for them. *)
From Stdlib Require Export ZArith Lia String Ascii.
From stdpp Require Export base decidable option list strings gmap sorting.

Declare Scope nav_scope.
Delimit Scope nav_scope with nav.
Global Open Scope Z_scope.
Global Open Scope nav_scope.

(** ** Rust's [Result] as an error monad *)

Inductive result (E A : Type) : Type :=
| Ok (a : A)
| Err (e : E).
Arguments Ok {E A} a.
Arguments Err {E A} e.

#[global] Instance result_eq_dec {E A} `{EqDecision E} `{EqDecision A} :
  EqDecision (result E A).
Proof. solve_decision. Defined.

#[global] Instance result_ret {E} : MRet (result E) := fun A a => Ok a.

#[global] Instance result_bind {E} : MBind (result E) := fun A B f m =>
  match m with Ok a => f a | Err e => Err e end.

#[global] Instance result_fmap {E} : FMap (result E) := fun A B f m =>
  match m with Ok a => Ok (f a) | Err e => Err e end.

(** [Result::map_err]. *)
Definition map_err {E F A} (f : E -> F) (m : result E A) : result F A :=
  match m with Ok a => Ok a | Err e => Err (f e) end.

(** [Option::ok_or]. *)
Definition ok_or {E A} (e : E) (o : option A) : result E A :=
  match o with Some a => Ok a | None => Err e end.

Definition is_ok {E A} (m : result E A) : bool :=
  match m with Ok _ => true | Err _ => false end.

(** [iter().map(f).collect::<Result<Vec<_>, _>>()]: the first error wins. *)
Fixpoint collect {E A B} (f : A -> result E B) (l : list A) : result E (list B) :=
  match l with
  | [] => Ok []
  | x :: l => y ← f x; ys ← collect f l; Ok (y :: ys)
  end.

Lemma bind_Ok {E A B} (m : result E A) (f : A -> result E B) b :
  m ≫= f = Ok b <-> exists a, m = Ok a /\ f a = Ok b.
Proof. destruct m; cbn; naive_solver. Qed.

Lemma bind_of_Ok {E A B} a (f : A -> result E B) : Ok a ≫= f = f a.
Proof. done. Qed.

Lemma bind_Err {E A B} (m : result E A) (f : A -> result E B) e :
  m ≫= f = Err e <-> m = Err e \/ exists a, m = Ok a /\ f a = Err e.
Proof. destruct m; cbn; naive_solver. Qed.

Lemma map_err_Ok {E F A} (f : E -> F) (m : result E A) a :
  map_err f m = Ok a <-> m = Ok a.
Proof. destruct m; cbn; naive_solver. Qed.

Lemma ok_or_Ok {E A} (e : E) (o : option A) a : ok_or e o = Ok a <-> o = Some a.
Proof. destruct o; cbn; naive_solver. Qed.

Lemma collect_Ok {E A B} (f : A -> result E B) l ys :
  collect f l = Ok ys <-> Forall2 (fun x y => f x = Ok y) l ys.
Proof.
  revert ys; induction l as [|x l IH]; intros ys; cbn.
  - split; [intros [= <-]; constructor | by inversion 1].
  - rewrite bind_Ok; split.
    + intros (y & Hy & (ys' & Hys & [= <-])%bind_Ok); constructor; [done | by apply IH].
    + inversion 1 as [|? y ? ys' Hy Hys]; subst. exists y; split; [done|].
      apply bind_Ok. exists ys'. split; [by apply IH | done].
Qed.

Lemma collect_length {E A B} (f : A -> result E B) l ys :
  collect f l = Ok ys -> length ys = length l.
Proof. intros H%collect_Ok. symmetry. by eapply Forall2_length. Qed.

Lemma Forall2_impl_elem {A B} (P Q : A -> B -> Prop) l k :
  Forall2 P l k -> (forall x y, x ∈ l -> P x y -> Q x y) -> Forall2 Q l k.
Proof.
  induction 1 as [|x y l k Hxy _ IH]; intros HPQ; constructor.
  - apply HPQ; [apply list_elem_of_here | done].
  - apply IH. intros x' y' Hin. apply HPQ. by apply list_elem_of_further.
Qed.

(** A sub-table has distinct keys. *)
Lemma NoDup_keys_filter {K A} (P : K * A -> Prop) `{!forall x, Decision (P x)} (l : list (K * A)) :
  NoDup l.*1 -> NoDup (filter P l).*1.
Proof.
  induction l as [|[k a] l IH]; [done|]. cbn [fmap list_fmap fst]. intros [Hn Hl]%NoDup_cons.
  rewrite filter_cons. case_decide; [|by apply IH]. cbn [fmap list_fmap fst]. apply NoDup_cons. split; [|by apply IH].
  intros ([k' a'] & -> & [_ Hin]%list_elem_of_filter)%list_elem_of_fmap. apply Hn.
  by apply (list_elem_of_fmap_2 fst _ (k', a')).
Qed.
(** [iter().find(..)]: the first element that satisfies the predicate. *)
Lemma find_first {A} (p : A -> bool) l x : List.find p l = Some x ->
  p x = true /\ exists i, l !! i = Some x /\ forall j y, (j < i)%nat -> l !! j = Some y -> p y = false.
Proof.
  induction l as [|a l IH]; cbn; [done|]. destruct (p a) eqn:Ea.
  - intros [= <-]. split; [done|]. exists 0%nat. split; [done|]. lia.
  - intros (Hx & i & Hi & Hf)%IH. split; [done|]. exists (S i). split; [done|].
    intros [|j] y Hj Hy; [by injection Hy as <-|]. apply (Hf j); [lia|done].
Qed.
Lemma find_none_elem {A} (p : A -> bool) l x : List.find p l = None -> x ∈ l -> p x = false.
Proof. intros Hf Hx. apply (List.find_none _ _ Hf). by apply list_elem_of_In. Qed.
Lemma existsb_false {A} (p : A -> bool) l x : existsb p l = false -> x ∈ l -> p x = false.
Proof.
  intros He Hx. destruct (p x) eqn:E; [|done]. assert (existsb p l = true) by
    (apply existsb_exists; exists x; split; [by apply list_elem_of_In|done]). congruence.
Qed.

(** ** Fixed-width integers *)

Definition u16_max : Z := 65535.
Definition u32_max : Z := 4294967295.
Definition u64_max : Z := 18446744073709551615.
Definition i64_min : Z := -9223372036854775808.
Definition i64_max : Z := 9223372036854775807.

(** [u64::checked_add]. *)
Definition checked_add_u64 (a b : Z) : option Z :=
  if a + b <=? u64_max then Some (a + b) else None.

(** [usize::len] of strings and vectors, as an integer. *)
Definition slen (s : string) : Z := Z.of_nat (String.length s).
Definition llen {A} (l : list A) : Z := Z.of_nat (length l).

Lemma llen_nonneg {A} (l : list A) : 0 <= llen l.
Proof. unfold llen; lia. Qed.
Lemma slen_nonneg s : 0 <= slen s.
Proof. unfold slen; lia. Qed.
Lemma llen_nil_iff {A} (l : list A) : llen l = 0 <-> l = [].
Proof. destruct l; unfold llen; cbn; split; intros; [done| done | lia | done]. Qed.

(** ** Tactics *)

(** Split a boolean guard of a hypothesis or the goal into propositions. *)
Ltac bool_norm :=
  repeat match goal with
  | H : (_ && _)%bool = true |- _ => apply andb_true_iff in H as [? ?]
  | H : (_ || _)%bool = false |- _ => apply orb_false_iff in H as [? ?]
  | H : negb _ = true |- _ => apply negb_true_iff in H
  | H : negb _ = false |- _ => apply negb_false_iff in H
  | H : bool_decide _ = true |- _ => apply bool_decide_eq_true in H
  | H : bool_decide _ = false |- _ => apply bool_decide_eq_false in H
  | H : (_ <? _) = true |- _ => apply Z.ltb_lt in H
  | H : (_ <? _) = false |- _ => apply Z.ltb_ge in H
  | H : (_ <=? _) = true |- _ => apply Z.leb_le in H
  | H : (_ <=? _) = false |- _ => apply Z.leb_gt in H
  | H : (_ =? _) = true |- _ => apply Z.eqb_eq in H
  | H : (_ =? _) = false |- _ => apply Z.eqb_neq in H
  end.

(** Case split on the condition of the first [if] of the goal or of [H]. *)
Tactic Notation "case_if" "as" ident(E) :=
  match goal with
  | |- context [if ?b then _ else _] => destruct b eqn:E
  end.
Tactic Notation "case_if_in" hyp(H) "as" ident(E) :=
  match type of H with
  | context [if ?b then _ else _] => destruct b eqn:E
  end.

(** Walk an equation [m = Ok v] backwards through binds, guards and matches. *)
Ltac inv_result :=
  repeat match goal with
  | H : Ok _ = Ok _ |- _ => injection H as H; subst
  | H : Err _ = Err _ |- _ => injection H as H; subst
  | H : Ok _ = Err _ |- _ => discriminate H
  | H : Err _ = Ok _ |- _ => discriminate H
  | H : _ ≫= _ = Ok _ |- _ => apply bind_Ok in H as (? & ? & H)
  | H : map_err _ _ = Ok _ |- _ => apply map_err_Ok in H
  | H : ok_or _ _ = Ok _ |- _ => apply ok_or_Ok in H
  | H : (if ?b then _ else _) = Ok _ |- _ => let E := fresh "E" in destruct b eqn:E; try discriminate H
  end; bool_norm.

(** ** Hint databases

    [nav] collects the inversion and preservation lemmas that the component
    files prove about their operations. *)
Create HintDb nav.
#[export] Hint Resolve llen_nonneg slen_nonneg : nav.

(** ** Lists sorted by a key

    Rust's [sort_by_key] / [sort_by] followed by [windows(2).any(..)] is how the
    code normalizes a list and rejects duplicates.  Keys are compared through an
    injection into a type with a total order given by [ltb]. *)

(** [l.windows(2).any(|p| key(p[0]) == key(p[1]))]. *)
Fixpoint adjacent_dup {A K} `{EqDecision K} (key : A -> K) (l : list A) : bool :=
  match l with
  | x :: ((y :: _) as tl) => bool_decide (key x = key y) || adjacent_dup key tl
  | _ => false
  end.

Lemma StronglySorted_lookup_lt {A} (R : A -> A -> Prop) l i j x y :
  StronglySorted R l -> l !! i = Some x -> l !! j = Some y -> (i < j)%nat -> R x y.
Proof.
  intros Hs; revert i j. induction Hs as [|a l Hs IH Ha]; intros i j Hx Hy Hij; [done|].
  destruct j as [|j]; [lia|]. cbn in Hy. destruct i as [|i]; cbn in Hx; simplify_eq.
  - rewrite Forall_forall in Ha. apply Ha. by eapply list_elem_of_lookup_2.
  - apply (IH i j); auto with lia.
Qed.

Section sorted_by_key.
Context {A K : Type} `{EqDecision K} (key : A -> K) (le : K -> K -> Prop).
Context `{!PartialOrder le} `{!Total le} `{!RelDecision le}.

Definition key_le (x y : A) : Prop := le (key x) (key y).

#[local] Instance key_le_dec : RelDecision key_le.
Proof. intros x y. unfold key_le. apply _. Defined.
#[local] Instance key_le_total : Total key_le.
Proof. intros x y. unfold key_le. apply (total le). Qed.
#[local] Instance key_le_trans : Transitive key_le.
Proof. intros x y z. unfold key_le. apply transitivity. Qed.

(** The sort itself; its result is only ever used when keys are unique, so the
    stability of Rust's sort does not show. *)
Definition sort_by_key (l : list A) : list A := merge_sort key_le l.

Lemma sort_by_key_perm l : sort_by_key l ≡ₚ l.
Proof. apply merge_sort_Permutation. Qed.

Lemma sort_by_key_length l : length (sort_by_key l) = length l.
Proof. by rewrite sort_by_key_perm. Qed.

Lemma sort_by_key_sorted l : StronglySorted key_le (sort_by_key l).
Proof. apply StronglySorted_merge_sort; apply _. Qed.

Lemma adjacent_dup_sorted l :
  StronglySorted key_le l -> (adjacent_dup key l = false <-> NoDup (key <$> l)).
Proof.
  induction l as [|x l IH]; intros Hs; [split; [constructor | done]|].
  apply StronglySorted_inv in Hs as [Hs Hx]. specialize (IH Hs).
  rewrite fmap_cons, NoDup_cons, <-IH.
  destruct l as [|y l]; [set_solver|].
  cbn [adjacent_dup]. rewrite orb_false_iff, bool_decide_eq_false.
  split; [intros [Hne ->]; split; [|done] | intros [Hnin ->]; split; [set_solver|done]].
  intros (z & Hz & Hin)%list_elem_of_fmap. apply elem_of_cons in Hin as [->|Hin]; [done|].
  apply Forall_cons in Hx as [Hxy Hx]. rewrite Forall_forall in Hx.
  apply StronglySorted_inv in Hs as [_ Hy]. rewrite Forall_forall in Hy.
  specialize (Hx _ Hin); specialize (Hy _ Hin). unfold key_le in *.
  apply Hne, (anti_symm le); [done|]. by rewrite Hz.
Qed.

Lemma sort_by_key_dup l : adjacent_dup key (sort_by_key l) = false <-> NoDup (key <$> l).
Proof.
  rewrite adjacent_dup_sorted by apply sort_by_key_sorted. by rewrite sort_by_key_perm.
Qed.

Lemma sorted_unique l1 l2 :
  l1 ≡ₚ l2 -> NoDup (key <$> l1) ->
  StronglySorted key_le l1 -> StronglySorted key_le l2 -> l1 = l2.
Proof.
  revert l2; induction l1 as [|x l1 IH]; intros l2 Hp Hnd H1 H2.
  { by apply Permutation_nil_l in Hp. }
  destruct l2 as [|y l2]; [by apply Permutation_nil_r in Hp|].
  assert (x = y) as ->.
  { assert (Hx : x ∈ y :: l2) by (rewrite <-Hp; set_solver).
    assert (Hy : y ∈ x :: l1) by (rewrite Hp; set_solver).
    apply elem_of_cons in Hx as [->|Hx]; [done|].
    apply elem_of_cons in Hy as [->|Hy]; [done|].
    apply StronglySorted_inv in H1 as [_ H1]; apply StronglySorted_inv in H2 as [_ H2].
    rewrite Forall_forall in H1, H2. specialize (H1 _ Hy); specialize (H2 _ Hx).
    unfold key_le in *. rewrite fmap_cons in Hnd. apply NoDup_cons in Hnd as [Hnd _].
    destruct Hnd. apply list_elem_of_fmap. exists y. split; [|done]. by apply (anti_symm le). }
  f_equal. apply Permutation_cons_inv in Hp. rewrite fmap_cons in Hnd.
  apply NoDup_cons in Hnd as [_ Hnd].
  apply StronglySorted_inv in H1 as [H1 _]; apply StronglySorted_inv in H2 as [H2 _]. by apply IH.
Qed.

(** Sorting forgets the order of the input when the keys are unique. *)
Lemma sort_by_key_canonical l1 l2 :
  l1 ≡ₚ l2 -> NoDup (key <$> l1) -> sort_by_key l1 = sort_by_key l2.
Proof.
  intros Hp Hnd. apply sorted_unique; eauto using sort_by_key_sorted.
  - by rewrite !sort_by_key_perm.
  - by rewrite sort_by_key_perm.
Qed.
End sorted_by_key.

(** ** Transition sequences *)

Section star.
Context {S L : Type} (step : S -> L -> S -> Prop).

(** [trace s ls s'] : the labelled steps [ls] lead from [s] to [s']. *)
Inductive trace : S -> list L -> S -> Prop :=
| trace_nil s : trace s [] s
| trace_cons s l s' ls s'' : step s l s' -> trace s' ls s'' -> trace s (l :: ls) s''.

Lemma trace_app s ls s' ls' s'' : trace s ls s' -> trace s' ls' s'' -> trace s (ls ++ ls') s''.
Proof. induction 1; cbn; eauto using trace. Qed.

Lemma trace_app_inv s ls ls' s'' : trace s (ls ++ ls') s'' -> exists s', trace s ls s' /\ trace s' ls' s''.
Proof.
  revert s; induction ls as [|l ls IH]; intros s Ht; [exists s; split; [constructor|done]|].
  inversion Ht as [|? ? s1 ? ? Hst Ht']; subst. destruct (IH _ Ht') as (s' & ? & ?).
  exists s'. split; [by econstructor | done].
Qed.

(** The step at a position, with what comes before and after it. *)
Lemma trace_lookup s ls s' i l : trace s ls s' -> ls !! i = Some l ->
  exists s1 s2, trace s (take i ls) s1 /\ step s1 l s2 /\ trace s2 (drop (Datatypes.S i) ls) s'.
Proof.
  intros Ht Hl. rewrite <-(take_drop_middle ls i l Hl) in Ht.
  apply trace_app_inv in Ht as (s1 & H1 & H2). inversion H2 as [|? ? s2 ? ? Hst Ht']; subst. eauto.
Qed.

(** An inductive invariant holds along every sequence. *)
Lemma trace_invariant (I : S -> Prop) :
  (forall s l s', I s -> step s l s' -> I s') -> forall s ls s', trace s ls s' -> I s -> I s'.
Proof. intros Hpres s ls s' Ht. induction Ht; eauto. Qed.
End star.
