(* ===== verification/Scalars.v ===== *)
(** * Scalars: identities, monotonic counters, bounded values, deadlines, errors

    Models crates/navigator-domain/src/{identity,revision,bounded,clock,error}.rs.
    Every newtype keeps the raw value and is built only through its validating
    constructor; [Deserialize] implementations decode the raw value and call that
    constructor, so they are modelled as the same function on the decoded value.
    The interface [Validated] states what such a newtype promises: decoding
    accepts exactly the well-formed values, keeps them unchanged, and a stored
    value decodes back to itself. *)
From S2P Require Import Prelude.

(** ** The contract of a validated newtype *)

Class Validated (W T E : Type) := {
  validate : W -> result E T;
  wire : T -> W;
  wf : T -> Prop;
}.

Class ValidatedLaws (W T E : Type) `{!Validated W T E} := {
  validate_sound : forall w t, validate w = Ok t -> wf t /\ wire t = w;
  validate_complete : forall t, wf t -> validate (wire t) = Ok t;
}.

Section validated.
Context {W T E : Type} `{ValidatedLaws W T E}.

Lemma validate_Ok_iff w t : validate w = Ok t <-> wf t /\ wire t = w.
Proof. split; [apply validate_sound | intros [Hwf <-]; by apply validate_complete]. Qed.

Lemma validate_roundtrip w t : validate w = Ok t -> validate (wire t) = Ok t.
Proof. intros [Hwf _]%validate_sound. by apply validate_complete. Qed.

Lemma wire_inj t1 t2 : wf t1 -> wf t2 -> wire t1 = wire t2 -> t1 = t2.
Proof.
  intros H1%validate_complete H2%validate_complete Heq. rewrite Heq in H1. congruence.
Qed.
End validated.

(** ** Identities (identity.rs) *)

(** One constructor per invocation of the [id_type!] macro. *)
Inductive IdKind :=
| KSession | KHost | KParticipant | KInstance | KTemplate | KArtifact
| KToolInvocation | KToolRegistration | KToolProvider | KToolConnection
| KToolDispatch | KToolCancellation | KGrant | KApprovalRequest | KDriver
| KLaunchAttempt | KOperation | KMessage | KDeliveryAttempt | KEvent
| KRequest | KCorrelation | KEnvelope.

(** A [Uuid] is its 128-bit value; the derived order of [Uuid] compares the
    big-endian bytes, which is the order of the values. *)
Definition Uuid := Z.
Definition Uuid_is_nil (u : Uuid) : bool := u =? 0.
Definition Uuid_wf (u : Uuid) : Prop := 0 <= u < 2 ^ 128.

Inductive InvalidIdentity := MkInvalidIdentity.

Record Id (k : IdKind) := MkId { as_uuid : Uuid }.
Arguments MkId {k} _.
Arguments as_uuid {k} _.

Abbreviation SessionId := (Id KSession).
Abbreviation HostId := (Id KHost).
Abbreviation ParticipantId := (Id KParticipant).
Abbreviation InstanceId := (Id KInstance).
Abbreviation TemplateId := (Id KTemplate).
Abbreviation ArtifactId := (Id KArtifact).
Abbreviation ToolInvocationId := (Id KToolInvocation).
Abbreviation GrantId := (Id KGrant).
Abbreviation ApprovalRequestId := (Id KApprovalRequest).
Abbreviation DriverId := (Id KDriver).
Abbreviation LaunchAttemptId := (Id KLaunchAttempt).
Abbreviation OperationId := (Id KOperation).
Abbreviation MessageId := (Id KMessage).
Abbreviation DeliveryAttemptId := (Id KDeliveryAttempt).
Abbreviation EventId := (Id KEvent).
Abbreviation RequestId := (Id KRequest).

#[global] Instance Id_eq_dec k : EqDecision (Id k).
Proof. solve_decision. Defined.

#[global] Instance Id_countable k : Countable (Id k).
Proof.
  refine (inj_countable' as_uuid MkId _). by intros [].
Defined.

Definition Id_le {k} (a b : Id k) : Prop := as_uuid a <= as_uuid b.
Definition Id_ltb {k} (a b : Id k) : bool := as_uuid a <? as_uuid b.

#[global] Instance Id_le_dec k : RelDecision (@Id_le k).
Proof. intros a b. unfold Id_le. apply _. Defined.
#[global] Instance Id_le_total k : Total (@Id_le k).
Proof. intros a b. unfold Id_le. lia. Qed.
#[global] Instance Id_le_po k : PartialOrder (@Id_le k).
Proof.
  repeat split.
  - intros a. unfold Id_le. lia.
  - intros a b c. unfold Id_le. lia.
  - intros [a] [b]. unfold Id_le; cbn. intros. f_equal. lia.
Qed.

Definition from_uuid {k} (value : Uuid) : result InvalidIdentity (Id k) :=
  if Uuid_is_nil value then Err MkInvalidIdentity else Ok (MkId value).

(** [trait IdentitySource]: a stateful supply of identifiers. *)
Class IdentitySource (S : Type) := next_uuid : S -> Uuid * S.

Definition generate {k S} `{!IdentitySource S} (source : S) :
    result InvalidIdentity (Id k) * S :=
  let '(u, source) := next_uuid source in (from_uuid u, source).

Definition Id_wf {k} (i : Id k) : Prop := as_uuid i <> 0.

#[global] Instance Id_validated k : Validated Uuid (Id k) InvalidIdentity :=
  {| validate := from_uuid; wire := as_uuid; wf := Id_wf |}.

#[global] Instance Id_laws k : ValidatedLaws Uuid (Id k) InvalidIdentity.
Proof.
  split; unfold validate, wire, wf, Id_validated, from_uuid, Id_wf, Uuid_is_nil.
  - intros w t H. inv_result. done.
  - intros [u] H; cbn in *. case_if as E; bool_norm; done.
Qed.

(** ** Monotonic counters (revision.rs) *)

Record Revision := MkRevision { Revision_get : Z }.
Record FencingEpoch := MkFencingEpoch { FencingEpoch_get : Z }.
Inductive ZeroMonotonicValue := MkZeroMonotonicValue.

#[global] Instance Revision_eq_dec : EqDecision Revision.
Proof. solve_decision. Defined.
#[global] Instance FencingEpoch_eq_dec : EqDecision FencingEpoch.
Proof. solve_decision. Defined.

Definition Revision_new (value : Z) : result ZeroMonotonicValue Revision :=
  if value =? 0 then Err MkZeroMonotonicValue else Ok (MkRevision value).

Definition Revision_initial : Revision := MkRevision 1.

Definition Revision_next (r : Revision) : option Revision :=
  match checked_add_u64 (Revision_get r) 1 with
  | Some value => Some (MkRevision value)
  | None => None
  end.

Definition FencingEpoch_new (value : Z) : result ZeroMonotonicValue FencingEpoch :=
  if value =? 0 then Err MkZeroMonotonicValue else Ok (MkFencingEpoch value).

Definition FencingEpoch_is_current (self current : FencingEpoch) : bool :=
  FencingEpoch_get self =? FencingEpoch_get current.

Definition Revision_wf (r : Revision) : Prop := 0 < Revision_get r <= u64_max.

Lemma Revision_initial_wf : Revision_wf Revision_initial.
Proof. by unfold Revision_wf, u64_max; cbn. Qed.

Lemma Revision_next_Some r r' :
  Revision_next r = Some r' <->
  Revision_get r' = Revision_get r + 1 /\ Revision_get r + 1 <= u64_max.
Proof.
  unfold Revision_next, checked_add_u64. case_if as E; bool_norm.
  - split; [intros [= <-]; done | intros [H1 _]; destruct r'; cbn in *; by subst].
  - split; [done | lia].
Qed.

Lemma Revision_next_None r : Revision_next r = None <-> u64_max < Revision_get r + 1.
Proof.
  unfold Revision_next, checked_add_u64. case_if as E; bool_norm; split; intros; [done | lia | lia | done].
Qed.

Lemma Revision_next_wf r r' : Revision_wf r -> Revision_next r = Some r' -> Revision_wf r'.
Proof. unfold Revision_wf. intros ? [-> ?]%Revision_next_Some. lia. Qed.

Lemma FencingEpoch_is_current_iff a b : FencingEpoch_is_current a b = true <-> a = b.
Proof.
  unfold FencingEpoch_is_current. rewrite Z.eqb_eq. destruct a, b; cbn. naive_solver.
Qed.
#[export] Hint Resolve Revision_initial_wf Revision_next_wf : nav.

#[global] Instance Revision_validated : Validated Z Revision ZeroMonotonicValue :=
  {| validate := Revision_new; wire := Revision_get; wf r := Revision_get r <> 0 |}.
#[global] Instance Revision_laws : ValidatedLaws Z Revision ZeroMonotonicValue.
Proof.
  split; unfold validate, wire, wf, Revision_validated, Revision_new.
  - intros w t H. inv_result. done.
  - intros [u] H; cbn in *. case_if as E; bool_norm; done.
Qed.

#[global] Instance FencingEpoch_validated : Validated Z FencingEpoch ZeroMonotonicValue :=
  {| validate := FencingEpoch_new; wire := FencingEpoch_get; wf r := FencingEpoch_get r <> 0 |}.
#[global] Instance FencingEpoch_laws : ValidatedLaws Z FencingEpoch ZeroMonotonicValue.
Proof.
  split; unfold validate, wire, wf, FencingEpoch_validated, FencingEpoch_new.
  - intros w t H. inv_result. done.
  - intros [u] H; cbn in *. case_if as E; bool_norm; done.
Qed.

(** Applying [Revision::next] [n] times, stopping at the first [None]. *)
Fixpoint revision_after (n : nat) (r : Revision) : option Revision :=
  match n with
  | O => Some r
  | S n => match Revision_next r with Some r => revision_after n r | None => None end
  end.

(** ** Bounded text and bytes (bounded.rs) *)

Inductive BoundError := Empty | TooLarge | NotFuture | TooFarInFuture | InvalidTimestamp.

#[global] Instance BoundError_eq_dec : EqDecision BoundError.
Proof. solve_decision. Defined.

(** A byte is its value in [0, 256); vectors of bytes are lists. *)
Definition byte_wf (b : Z) : Prop := 0 <= b < 256.
Abbreviation bytes := (list Z).

Record BoundedText (MAX : Z) := MkBoundedText { as_str : string }.
Arguments MkBoundedText {MAX} _.
Arguments as_str {MAX} _.

Record BoundedBytes (MAX : Z) := MkBoundedBytes { as_slice : bytes }.
Arguments MkBoundedBytes {MAX} _.
Arguments as_slice {MAX} _.

#[global] Instance BoundedText_eq_dec M : EqDecision (BoundedText M).
Proof. solve_decision. Defined.
#[global] Instance BoundedBytes_eq_dec M : EqDecision (BoundedBytes M).
Proof. solve_decision. Defined.
#[global] Instance BoundedText_countable M : Countable (BoundedText M).
Proof. refine (inj_countable' as_str MkBoundedText _). by intros []. Defined.

Definition BoundedText_new {MAX : Z} (value : string) : result BoundError (BoundedText MAX) :=
  if bool_decide (value = EmptyString) then Err Empty
  else if MAX <? slen value then Err TooLarge
  else Ok (MkBoundedText value).

Definition BoundedBytes_new {MAX : Z} (value : bytes) : result BoundError (BoundedBytes MAX) :=
  if MAX <? llen value then Err TooLarge else Ok (MkBoundedBytes value).

#[global] Instance BoundedText_validated M : Validated string (BoundedText M) BoundError :=
  {| validate := BoundedText_new; wire := as_str;
     wf t := as_str t <> EmptyString /\ slen (as_str t) <= M |}.
#[global] Instance BoundedText_laws M : ValidatedLaws string (BoundedText M) BoundError.
Proof.
  split; unfold validate, wire, wf, BoundedText_validated, BoundedText_new.
  - intros w t H. inv_result. done.
  - intros [u] [Hne Hlen]; cbn in *. rewrite bool_decide_false by done.
    case_if as E; bool_norm; [lia|done].
Qed.

#[global] Instance BoundedBytes_validated M : Validated bytes (BoundedBytes M) BoundError :=
  {| validate := BoundedBytes_new; wire := as_slice; wf t := llen (as_slice t) <= M |}.
#[global] Instance BoundedBytes_laws M : ValidatedLaws bytes (BoundedBytes M) BoundError.
Proof.
  split; unfold validate, wire, wf, BoundedBytes_validated, BoundedBytes_new.
  - intros w t H. inv_result. done.
  - intros [u] Hlen; cbn in *. case_if as E; bool_norm; [lia|done].
Qed.

(** ** The [time] crate

    Calendar arithmetic is a library: the operations the code calls are the
    fields of [TimeLib] and what it relies on is [TimeLaws]. *)

Definition NANOS : Z := 1000000000.

Class TimeLib := {
  OffsetDateTime : Type;
  from_unix_timestamp : Z -> option OffsetDateTime;
  replace_nanosecond : OffsetDateTime -> Z -> option OffsetDateTime;
  unix_timestamp : OffsetDateTime -> Z;
  nanosecond : OffsetDateTime -> Z;
}.

Class TimeLaws `{!TimeLib} := {
  from_unix_fields : forall s d, from_unix_timestamp s = Some d ->
    unix_timestamp d = s /\ nanosecond d = 0;
  from_unix_representable : forall d, is_Some (from_unix_timestamp (unix_timestamp d));
  replace_fields : forall d n d', replace_nanosecond d n = Some d' ->
    unix_timestamp d' = unix_timestamp d /\ nanosecond d' = n;
  replace_in_range : forall d n, is_Some (replace_nanosecond d n) <-> 0 <= n < NANOS;
  nanosecond_range : forall d, 0 <= nanosecond d < NANOS;
}.

(** Date-times compare and subtract as instants, in nanoseconds. *)
Definition instant `{!TimeLib} (d : OffsetDateTime) : Z := unix_timestamp d * NANOS + nanosecond d.

(** An instance: seconds and nanoseconds, years -9999 to 9999. *)
Definition UTC_MIN : Z := -377705116800.
Definition UTC_MAX : Z := 253402300799.

Record UtcTime := MkUtc { utc_seconds : Z; utc_nanos : Z }.
Definition utc_in_range (s : Z) : bool := (UTC_MIN <=? s) && (s <=? UTC_MAX).
Record Utc := { utc_time : UtcTime;
  utc_ok : utc_in_range (utc_seconds utc_time) && (0 <=? utc_nanos utc_time)
           && (utc_nanos utc_time <? NANOS) = true }.

Definition utc_make (s n : Z) : option Utc :=
  match decide (utc_in_range s && (0 <=? n) && (n <? NANOS) = true) with
  | left H => Some {| utc_time := MkUtc s n; utc_ok := H |}
  | right _ => None
  end.

#[global] Instance UtcLib : TimeLib := {|
  OffsetDateTime := Utc;
  from_unix_timestamp s := utc_make s 0;
  replace_nanosecond d n := utc_make (utc_seconds (utc_time d)) n;
  unix_timestamp d := utc_seconds (utc_time d);
  nanosecond d := utc_nanos (utc_time d);
|}.

Lemma utc_make_Some s n d : utc_make s n = Some d ->
  utc_seconds (utc_time d) = s /\ utc_nanos (utc_time d) = n.
Proof. unfold utc_make. case_match; [intros [= <-]; done | done]. Qed.

Lemma utc_make_is_Some s n :
  is_Some (utc_make s n) <-> utc_in_range s = true /\ 0 <= n < NANOS.
Proof.
  assert (Hiff : utc_in_range s && (0 <=? n) && (n <? NANOS) = true <->
                 utc_in_range s = true /\ 0 <= n < NANOS).
  { rewrite !andb_true_iff, Z.leb_le, Z.ltb_lt. tauto. }
  unfold utc_make. destruct (decide _) as [H|H]; rewrite <-Hiff.
  - split; [done | by eexists].
  - split; [by intros [? ?] | done].
Qed.

#[global] Instance UtcLaws : @TimeLaws UtcLib.
Proof.
  split; cbn.
  - intros s d. apply utc_make_Some.
  - intros [[s n] Hok]; cbn. apply utc_make_is_Some. unfold NANOS.
    apply andb_true_iff in Hok as [[? ?]%andb_true_iff ?]. cbn in *. split; [done | lia].
  - intros d n d'. apply utc_make_Some.
  - intros [[s m] Hok] n; cbn. rewrite utc_make_is_Some.
    apply andb_true_iff in Hok as [[? ?]%andb_true_iff ?]. cbn in *. tauto.
  - intros [[s m] Hok]; cbn in *. bool_norm. done.
Qed.

(** ** Deadlines (bounded.rs) *)

Section deadline.
Context `{!TimeLib}.

Record Deadline := MkDeadline { Deadline_value : OffsetDateTime }.
Record DeadlineWire := MkDeadlineWire { dw_unix_seconds : Z; dw_nanoseconds : Z }.

(** [max_future] is a [time::Duration] in nanoseconds. *)
Definition Deadline_new (value now : OffsetDateTime) (max_future : Z) :
    result BoundError Deadline :=
  if instant value <=? instant now then Err NotFuture
  else if max_future <? instant value - instant now then Err TooFarInFuture
  else Ok (MkDeadline value).

Definition DeadlineWire_new (unix_seconds nanoseconds : Z) : result BoundError DeadlineWire :=
  if 1000000000 <=? nanoseconds then Err InvalidTimestamp
  else Ok (MkDeadlineWire unix_seconds nanoseconds).

Definition DeadlineWire_value (w : DeadlineWire) : result BoundError OffsetDateTime :=
  ok_or InvalidTimestamp
    (from_unix_timestamp (dw_unix_seconds w) ≫= fun value =>
     replace_nanosecond value (dw_nanoseconds w)).

Definition DeadlineWire_validate (w : DeadlineWire) (now : OffsetDateTime) (max_future : Z) :
    result BoundError Deadline :=
  value ← DeadlineWire_value w; Deadline_new value now max_future.

(** [impl Serialize for Deadline]. *)
Definition Deadline_serialize (d : Deadline) : DeadlineWire :=
  MkDeadlineWire (unix_timestamp (Deadline_value d)) (nanosecond (Deadline_value d)).

Lemma Deadline_new_Ok value now max_future d :
  Deadline_new value now max_future = Ok d <->
  d = MkDeadline value /\ instant now < instant value <= instant now + max_future.
Proof.
  unfold Deadline_new. case_if as E1; bool_norm; [split; [done | lia]|].
  case_if as E2; bool_norm; [split; [done | lia]|].
  split; [intros [= <-]; split; [done | lia] | by intros [-> _]].
Qed.
End deadline.

Section deadline_laws.
Context `{TimeLaws}.

Lemma wire_value_fields s n d :
  ok_or InvalidTimestamp (from_unix_timestamp s ≫= fun value => replace_nanosecond value n) = Ok d ->
  unix_timestamp d = s /\ nanosecond d = n.
Proof.
  rewrite ok_or_Ok. intros (d0 & [<- _]%from_unix_fields & H2)%bind_Some.
  by apply replace_fields in H2.
Qed.

Lemma wire_value_total d :
  exists d', from_unix_timestamp (unix_timestamp d) ≫= (fun value => replace_nanosecond value (nanosecond d)) = Some d'.
Proof.
  destruct (from_unix_representable d) as [d0 Hd0]. rewrite Hd0. cbn.
  destruct (proj2 (replace_in_range d0 (nanosecond d)) (nanosecond_range d)) as [d' Hd']. eauto.
Qed.
End deadline_laws.

(** ** Public errors (error.rs) *)

Inductive ErrorCode :=
| Validation | Authentication | Authorization | Conflict | Capacity | Timeout
| Unavailable | Unsupported | Incompatible | Cancelled_code | UncertainEffect
| CleanupRequired_code | CorruptedState | Internal.

Definition MAX_ERROR_MESSAGE_BYTES : Z := 1024.
Inductive InvalidErrorMessage := MkInvalidErrorMessage.

Record ErrorInfo := MkErrorInfo {
  ei_code : ErrorCode;
  ei_message : string;
  ei_retryable : bool;
}.

Definition ErrorInfo_new (code : ErrorCode) (message : string) (retryable : bool) :
    result InvalidErrorMessage ErrorInfo :=
  if bool_decide (message = EmptyString) || (MAX_ERROR_MESSAGE_BYTES <? slen message)
  then Err MkInvalidErrorMessage
  else Ok (MkErrorInfo code message retryable).

#[global] Instance ErrorInfo_validated :
    Validated (ErrorCode * string * bool) ErrorInfo InvalidErrorMessage :=
  {| validate := fun '(c, m, r) => ErrorInfo_new c m r;
     wire i := (ei_code i, ei_message i, ei_retryable i);
     wf i := ei_message i <> EmptyString /\ slen (ei_message i) <= MAX_ERROR_MESSAGE_BYTES |}.
#[global] Instance ErrorInfo_laws :
  ValidatedLaws (ErrorCode * string * bool) ErrorInfo InvalidErrorMessage.
Proof.
  split; unfold validate, wire, wf, ErrorInfo_validated, ErrorInfo_new.
  - intros [[c m] r] t H. inv_result. done.
  - intros [c m r] [? ?]; cbn in *. rewrite bool_decide_false by done. cbn.
    case_if as E; bool_norm; [lia|done].
Qed.

Lemma revision_after_spec n r :
  Revision_wf r ->
  revision_after n r =
    if Revision_get r + Z.of_nat n <=? u64_max
    then Some (MkRevision (Revision_get r + Z.of_nat n)) else None.
Proof.
  revert r; induction n as [|n IH]; intros r Hwf; cbn [revision_after].
  - unfold Revision_wf in Hwf. rewrite Z.add_0_r. case_if as E; bool_norm; [by destruct r | lia].
  - destruct (Revision_next r) as [r'|] eqn:E.
    + rewrite IH by eauto with nav. apply Revision_next_Some in E as [-> _].
      replace (Revision_get r + 1 + Z.of_nat n) with (Revision_get r + Z.of_nat (S n)) by lia. done.
    + apply Revision_next_None in E. case_if as E'; bool_norm; [lia | done].
Qed.

(** ** Properties *)

(** Revisions never wrap and never repeat: starting from [Revision::initial],
    [n] calls of [Revision::next] give exactly revision [n + 1] as long as that
    fits a [u64], and from then on every further call reports exhaustion. *)
Theorem revision_never_wraps (n : nat) :
  revision_after n Revision_initial =
    if 1 + Z.of_nat n <=? u64_max then Some (MkRevision (1 + Z.of_nat n)) else None.
Proof. apply (revision_after_spec n Revision_initial Revision_initial_wf). Qed.

(** A deadline survives its wire form: whatever [Deadline::new] accepts at
    [now], serializing it and validating the wire value at the same [now] and
    window accepts a deadline at the same instant. *)
Theorem deadline_wire_roundtrip `{TimeLaws} value now max_future d :
  Deadline_new value now max_future = Ok d ->
  exists d', DeadlineWire_validate (Deadline_serialize d) now max_future = Ok d' /\
    instant (Deadline_value d') = instant (Deadline_value d).
Proof.
  intros [-> Hwin]%Deadline_new_Ok.
  unfold DeadlineWire_validate, DeadlineWire_value, Deadline_serialize; cbn.
  destruct (wire_value_total value) as [d' Hd']. rewrite Hd'.
  assert (Hf : unix_timestamp d' = unix_timestamp value /\ nanosecond d' = nanosecond value).
  { apply wire_value_fields. by rewrite Hd'. }
  assert (Hi : instant d' = instant value) by (unfold instant; by destruct Hf as [-> ->]).
  exists (MkDeadline d'). split; [|done]. cbn. apply Deadline_new_Ok. split; [done | lia].
Qed.

Definition utc_at (s n : Z) (H : utc_in_range s && (0 <=? n) && (n <? NANOS) = true) : Utc :=
  {| utc_time := MkUtc s n; utc_ok := H |}.

Lemma deadline_wire_roundtrip_witness :
  exists d', DeadlineWire_validate
      (Deadline_serialize (MkDeadline (utc_at 1767229200 5 eq_refl)))
      (utc_at 1767225600 0 eq_refl) (7200 * NANOS) = Ok d' /\
    instant (Deadline_value d') = 1767229200 * NANOS + 5.
Proof.
  exact (@deadline_wire_roundtrip UtcLib UtcLaws (utc_at 1767229200 5 eq_refl) (utc_at 1767225600 0 eq_refl) (7200 * NANOS) (MkDeadline (utc_at 1767229200 5 eq_refl)) eq_refl).
Defined.
