(* ===== verification/Session.v ===== *)
(** * Session: timestamps, compatibility manifests, session snapshots and events

    Models crates/navigator-domain/src/session.rs.  [Timestamp] carries the
    lexicographic order Rust derives; the manifest keeps its templates sorted by
    identity and digests a canonical byte string; [SessionSnapshot::close] is the
    only mutation of a session snapshot. *)
From S2P Require Import Prelude Scalars.

(** SHA-256 is a library function on byte strings. *)
Class Sha256 := sha256 : bytes -> bytes.

Inductive SessionDomainError :=
| InvalidCompatibilityManifest | ZeroEventPosition | ZeroEventSchemaVersion
| SInvalidTimestamp | TimestampRegression | AlreadyClosed | RevisionExhausted
| InvalidClosedRevision.

#[global] Instance SessionDomainError_eq_dec : EqDecision SessionDomainError.
Proof. solve_decision. Defined.

(** ** Byte encodings *)

(** [to_be_bytes] of an [n]-byte unsigned integer. *)
Fixpoint be_bytes (n : nat) (v : Z) : bytes :=
  match n with
  | O => []
  | S n => (v / 256 ^ Z.of_nat n) mod 256 :: be_bytes n v
  end.

(** A byte-string literal. *)
Definition bytes_of_string (s : string) : bytes :=
  (fun c => Z.of_nat (nat_of_ascii c)) <$> String.list_ascii_of_string s.

Lemma be_bytes_length n v : length (be_bytes n v) = n.
Proof. induction n; cbn; congruence. Qed.

Lemma be_bytes_inj n v w :
  0 <= v < 256 ^ Z.of_nat n -> 0 <= w < 256 ^ Z.of_nat n -> be_bytes n v = be_bytes n w -> v = w.
Proof.
  intros Hv Hw Heq.
  assert (Hgen : forall m, be_bytes m v = be_bytes m w ->
    v mod 256 ^ Z.of_nat m = w mod 256 ^ Z.of_nat m).
  { intros m. induction m as [|m IH]; intros H; [by rewrite !Z.mod_1_r|].
    cbn [be_bytes] in H. injection H as Hd Ht. specialize (IH Ht).
    rewrite Nat2Z.inj_succ, Z.pow_succ_r, Z.mul_comm by lia.
    rewrite !(Z.rem_mul_r _ (256 ^ Z.of_nat m) 256) by (try apply Z.pow_nonzero; lia).
    by rewrite IH, Hd. }
  specialize (Hgen n Heq). by rewrite !Z.mod_small in Hgen.
Qed.

(** ** Compatibility identities *)

Record CompatibilityIdentity := MkCompat { Compat_as_bytes : bytes }.

#[global] Instance Compat_eq_dec : EqDecision CompatibilityIdentity.
Proof. solve_decision. Defined.

Definition Compat_digest `{!Sha256} (canonical_compatibility_input : bytes) : CompatibilityIdentity :=
  MkCompat (sha256 (bytes_of_string "navigator.compatibility.v1" ++ [0]
                    ++ canonical_compatibility_input)).

(** The array type [[u8; 32]]. *)
Definition Compat_wf (c : CompatibilityIdentity) : Prop := length (Compat_as_bytes c) = 32%nat.

Record TemplateCompatibilityBinding := MkBinding {
  tb_template_id : TemplateId;
  tb_compatibility : CompatibilityIdentity;
}.

#[global] Instance Binding_eq_dec : EqDecision TemplateCompatibilityBinding.
Proof. solve_decision. Defined.

Definition Binding_wf (b : TemplateCompatibilityBinding) : Prop :=
  Uuid_wf (as_uuid (tb_template_id b)) /\ Compat_wf (tb_compatibility b).

Record SessionCompatibilityManifest := MkManifest {
  m_configuration_identity : CompatibilityIdentity;
  m_templates : list TemplateCompatibilityBinding;
  m_compatibility : CompatibilityIdentity;
}.

Definition MAX_SESSION_TEMPLATES : Z := 128.

Definition binding_bytes (b : TemplateCompatibilityBinding) : bytes :=
  be_bytes 16 (as_uuid (tb_template_id b)) ++ Compat_as_bytes (tb_compatibility b).

(** The canonical input digested by [SessionCompatibilityManifest::new]. *)
Definition manifest_canonical (configuration : CompatibilityIdentity)
    (templates : list TemplateCompatibilityBinding) : bytes :=
  bytes_of_string "navigator.session.compatibility-manifest.v1" ++ [0]
  ++ Compat_as_bytes configuration
  ++ be_bytes 8 (llen templates)
  ++ concat (binding_bytes <$> templates).

Definition Manifest_new `{!Sha256} (configuration_identity : CompatibilityIdentity)
    (templates : list TemplateCompatibilityBinding) :
    result SessionDomainError SessionCompatibilityManifest :=
  let templates := sort_by_key tb_template_id Id_le templates in
  if bool_decide (templates = []) || (MAX_SESSION_TEMPLATES <? llen templates)
     || adjacent_dup tb_template_id templates
  then Err InvalidCompatibilityManifest
  else
    let canonical := manifest_canonical configuration_identity templates in
    Ok (MkManifest configuration_identity templates (Compat_digest canonical)).

(** The standard library's binary search: [size] halves until one candidate is
    left.  [cmp] is the order of an element relative to the target. *)
Fixpoint bsearch_base {A} (cmp : A -> comparison) (l : list A) (fuel base size : nat) : nat :=
  match fuel with
  | O => base
  | S fuel =>
      if (size <=? 1)%nat then base else
      let half := (size / 2)%nat in
      let mid := (base + half)%nat in
      let base := match l !! mid with
                  | Some x => match cmp x with Gt => base | _ => mid end
                  | None => base
                  end in
      bsearch_base cmp l fuel base (size - half)%nat
  end.

Definition binary_search_by {A} (cmp : A -> comparison) (l : list A) : option nat :=
  let i := bsearch_base cmp l (length l) 0 (length l) in
  match l !! i with
  | Some x => match cmp x with Eq => Some i | _ => None end
  | None => None
  end.

Definition Manifest_contains (m : SessionCompatibilityManifest) (template_id : TemplateId)
    (compatibility : CompatibilityIdentity) : bool :=
  match binary_search_by
          (fun b => Z.compare (as_uuid (tb_template_id b)) (as_uuid template_id)) (m_templates m) with
  | Some index =>
      match m_templates m !! index with
      | Some b => bool_decide (tb_compatibility b = compatibility)
      | None => false
      end
  | None => false
  end.

(** *** Binary search finds the element of a strictly sorted list *)

Section binary_search.
Context {A : Type} (key : A -> Z) (target : Z) (l : list A).
Hypothesis Hsorted : forall i j x y,
  l !! i = Some x -> l !! j = Some y -> (i < j)%nat -> key x < key y.
Let cmp (x : A) := Z.compare (key x) target.

Lemma bsearch_base_finds fuel base size i x :
  (size <= fuel + 1)%nat -> (base <= i < base + size)%nat -> (base + size <= length l)%nat ->
  l !! i = Some x -> key x = target -> bsearch_base cmp l fuel base size = i.
Proof.
  revert base size; induction fuel as [|fuel IH]; intros base size Hfuel Hi Hlen Hx Hkey.
  { cbn; lia. }
  cbn [bsearch_base]. destruct (Nat.leb_spec size 1) as [Hs|Hs]; [lia|].
  pose proof (Nat.div_mod_eq size 2) as Hdm. pose proof (Nat.mod_upper_bound size 2 ltac:(lia)).
  set (half := (size / 2)%nat) in *.
  destruct (lookup_lt_is_Some_2 l (base + half)) as [y Hy]; [lia|]. rewrite Hy.
  change (cmp y) with (Z.compare (key y) target). destruct (Z.compare_spec (key y) target) as [Heq|Hlt|Hgt].
  - assert (i = base + half)%nat as ->; [|apply IH; eauto; lia].
    destruct (Nat.lt_total i (base + half)) as [Hl|[->|Hl]]; [|done|].
    + pose proof (Hsorted _ _ _ _ Hx Hy Hl). lia.
    + pose proof (Hsorted _ _ _ _ Hy Hx Hl). lia.
  - apply IH; eauto; [lia| |lia].
    destruct (Nat.lt_ge_cases i (base + half)) as [Hl|]; [|lia].
    pose proof (Hsorted _ _ _ _ Hx Hy Hl). lia.
  - apply IH; eauto; [lia| |lia].
    destruct (Nat.lt_ge_cases i (base + half)) as [|Hl]; [lia|].
    destruct (decide (i = base + half)%nat) as [->|]; [simplify_eq; lia|].
    assert (Hl' : (base + half < i)%nat) by lia.
    pose proof (Hsorted _ _ _ _ Hy Hx Hl'). lia.
Qed.

Lemma binary_search_by_Some i :
  binary_search_by cmp l = Some i <-> exists x, l !! i = Some x /\ key x = target.
Proof.
  unfold binary_search_by. split.
  - case_match eqn:Hl; [|done]. case_match eqn:Hc; [|done..]. intros [= <-].
    eexists; split; [done|]. by apply Z.compare_eq in Hc.
  - intros (x & Hx & Hkey). pose proof (lookup_lt_Some _ _ _ Hx).
    rewrite (bsearch_base_finds _ _ _ i x) by (done || lia). rewrite Hx.
    unfold cmp. by rewrite Hkey, Z.compare_refl.
Qed.
End binary_search.

(** *** Manifest lemmas *)

Section manifest.
Context `{!Sha256}.

Lemma Manifest_new_Ok conf ts m :
  Manifest_new conf ts = Ok m <->
  let ts' := sort_by_key tb_template_id Id_le ts in
  m = MkManifest conf ts' (Compat_digest (manifest_canonical conf ts')) /\
  ts <> [] /\ llen ts <= MAX_SESSION_TEMPLATES /\ NoDup (tb_template_id <$> ts).
Proof.
  unfold Manifest_new; cbn. set (ts' := sort_by_key _ _ _).
  assert (Hlen : length ts' = length ts) by apply sort_by_key_length.
  assert (Hnil : ts' = [] <-> ts = []) by (rewrite <-!length_zero_iff_nil; lia).
  rewrite <-(sort_by_key_dup tb_template_id Id_le ts). fold ts'. unfold llen. rewrite <-Hlen.
  case_if as E.
  - split; [done|]. intros (_ & Hne & Hmax & Hnd).
    rewrite <-Hnil in Hne. rewrite Hnd, bool_decide_false in E by done.
    cbn in E. rewrite orb_false_r in E. unfold llen in E. bool_norm. lia.
  - unfold llen in E. bool_norm. rewrite Hnil in *. naive_solver.
Qed.

Lemma Manifest_new_sorted conf ts m :
  Manifest_new conf ts = Ok m ->
  forall i j x y, m_templates m !! i = Some x -> m_templates m !! j = Some y -> (i < j)%nat ->
    as_uuid (tb_template_id x) < as_uuid (tb_template_id y).
Proof.
  intros (-> & _ & _ & Hnd)%Manifest_new_Ok i j x y Hx Hy Hij. cbn in *.
  rewrite <-(sort_by_key_perm tb_template_id Id_le) in Hnd.
  pose proof (sort_by_key_sorted tb_template_id Id_le ts) as Hs.
  pose proof (StronglySorted_lookup_lt _ _ _ _ _ _ Hs Hx Hy Hij) as Hle.
  assert (tb_template_id x <> tb_template_id y) as Hne.
  { intros Heq. assert (i = j); [|lia]. eapply (NoDup_lookup _ _ _ (tb_template_id x) Hnd);
      rewrite list_lookup_fmap; [by rewrite Hx | rewrite Hy; cbn; by rewrite Heq]. }
  unfold key_le, Id_le in Hle. destruct x as [[x] ?], y as [[y] ?]; cbn in *.
  assert (x <> y) by congruence. lia.
Qed.
End manifest.

Lemma binding_bytes_length b : Binding_wf b -> length (binding_bytes b) = 48%nat.
Proof.
  intros [_ Hc]. unfold binding_bytes. rewrite length_app, be_bytes_length, Hc. done.
Qed.

Lemma binding_bytes_inj b1 b2 :
  Binding_wf b1 -> Binding_wf b2 -> binding_bytes b1 = binding_bytes b2 -> b1 = b2.
Proof.
  unfold binding_bytes. intros [Hu1 _] [Hu2 _] [Hid Hc]%app_inj_1; [|by rewrite !be_bytes_length].
  apply be_bytes_inj in Hid; [|done..].
  destruct b1 as [[u1] [c1]], b2 as [[u2] [c2]]; cbn in *. congruence.
Qed.

Lemma bindings_bytes_inj l1 l2 :
  Forall Binding_wf l1 -> Forall Binding_wf l2 ->
  length l1 = length l2 -> concat (binding_bytes <$> l1) = concat (binding_bytes <$> l2) -> l1 = l2.
Proof.
  revert l2; induction l1 as [|b1 l1 IH]; intros [|b2 l2] H1 H2 Hlen Heq; [done..|].
  apply Forall_cons in H1 as [Hb1 H1]; apply Forall_cons in H2 as [Hb2 H2].
  rewrite !fmap_cons in Heq. cbn [concat] in Heq. cbn in Hlen.
  apply app_inj_1 in Heq as [Hb Hl]; [|by rewrite !binding_bytes_length].
  f_equal; [by apply binding_bytes_inj | apply IH; auto; lia].
Qed.

(** The canonical encoding determines the configuration and the bindings. *)
Lemma manifest_canonical_inj c1 l1 c2 l2 :
  Compat_wf c1 -> Compat_wf c2 -> Forall Binding_wf l1 -> Forall Binding_wf l2 ->
  llen l1 <= MAX_SESSION_TEMPLATES -> llen l2 <= MAX_SESSION_TEMPLATES ->
  manifest_canonical c1 l1 = manifest_canonical c2 l2 -> c1 = c2 /\ l1 = l2.
Proof.
  unfold MAX_SESSION_TEMPLATES, Compat_wf. intros Hc1 Hc2 Hl1 Hl2 Hn1 Hn2 Heq.
  unfold manifest_canonical in Heq. do 2 apply app_inv_head in Heq.
  apply app_inj_1 in Heq as [Hc Heq]; [|by rewrite Hc1, Hc2].
  apply app_inj_1 in Heq as [Hn Heq]; [|by rewrite !be_bytes_length].
  pose proof (llen_nonneg l1). pose proof (llen_nonneg l2).
  apply be_bytes_inj in Hn; [|change (256 ^ Z.of_nat 8) with 18446744073709551616; lia..].
  unfold llen in Hn. split; [destruct c1, c2; cbn in *; congruence|].
  apply bindings_bytes_inj; auto; lia.
Qed.

(** ** Positions, versions, keys and payloads *)

Definition MAX_CONSUMER_KEY_BYTES : Z := 256.
Definition MAX_EVENT_TYPE_BYTES : Z := 128.
Definition MAX_EVENT_DATA_BYTES : Z := 65536.

Abbreviation ConsumerKey := (BoundedText MAX_CONSUMER_KEY_BYTES).
Abbreviation EventType := (BoundedText MAX_EVENT_TYPE_BYTES).
Abbreviation RedactedEventData := (BoundedBytes MAX_EVENT_DATA_BYTES).

Definition ConsumerKey_new (value : string) : result BoundError ConsumerKey := BoundedText_new value.
Definition EventType_new (value : string) : result BoundError EventType := BoundedText_new value.
Definition RedactedEventData_new (value : bytes) : result BoundError RedactedEventData :=
  BoundedBytes_new value.

Inductive SessionStatus := Open | Closed.
#[global] Instance SessionStatus_eq_dec : EqDecision SessionStatus.
Proof. solve_decision. Defined.

Record EventPosition := MkEventPosition { EventPosition_get : Z }.
Record EventSchemaVersion := MkEventSchemaVersion { EventSchemaVersion_get : Z }.
#[global] Instance EventPosition_eq_dec : EqDecision EventPosition.
Proof. solve_decision. Defined.

Definition EventPosition_new (value : Z) : result SessionDomainError EventPosition :=
  if value =? 0 then Err ZeroEventPosition else Ok (MkEventPosition value).
Definition EventPosition_initial : EventPosition := MkEventPosition 1.
Definition EventPosition_next (p : EventPosition) : option EventPosition :=
  match checked_add_u64 (EventPosition_get p) 1 with
  | Some value => Some (MkEventPosition value)
  | None => None
  end.
Definition EventSchemaVersion_new (value : Z) : result SessionDomainError EventSchemaVersion :=
  if value =? 0 then Err ZeroEventSchemaVersion else Ok (MkEventSchemaVersion value).
Definition EventSchemaVersion_V1 : EventSchemaVersion := MkEventSchemaVersion 1.

(** ** Timestamps *)

Record Timestamp := MkTimestamp { unix_seconds : Z; nanoseconds : Z }.
#[global] Instance Timestamp_eq_dec : EqDecision Timestamp.
Proof. solve_decision. Defined.

(** The derived [Ord]: seconds first, then nanoseconds. *)
Definition Timestamp_ltb (a b : Timestamp) : bool :=
  (unix_seconds a <? unix_seconds b) ||
  ((unix_seconds a =? unix_seconds b) && (nanoseconds a <? nanoseconds b)).
Definition Timestamp_leb (a b : Timestamp) : bool := negb (Timestamp_ltb b a).

Definition Timestamp_lt (a b : Timestamp) : Prop :=
  unix_seconds a < unix_seconds b \/
  (unix_seconds a = unix_seconds b /\ nanoseconds a < nanoseconds b).
Definition Timestamp_le (a b : Timestamp) : Prop := Timestamp_lt a b \/ a = b.

Lemma Timestamp_ltb_lt a b : Timestamp_ltb a b = true <-> Timestamp_lt a b.
Proof.
  unfold Timestamp_ltb, Timestamp_lt.
  rewrite orb_true_iff, andb_true_iff, !Z.ltb_lt, Z.eqb_eq. done.
Qed.
Lemma Timestamp_ltb_ge a b : Timestamp_ltb a b = false <-> Timestamp_le b a.
Proof.
  rewrite <-not_true_iff_false, Timestamp_ltb_lt. unfold Timestamp_le, Timestamp_lt.
  destruct a as [s n], b as [s' n']; cbn. split.
  - intros H. destruct (decide (s = s')) as [->|]; [|left; left; lia].
    destruct (decide (n = n')) as [->|]; [by right | left; right; lia].
  - intros [[?|?]|[= -> ->]]; lia.
Qed.
Lemma Timestamp_leb_le a b : Timestamp_leb a b = true <-> Timestamp_le a b.
Proof. unfold Timestamp_leb. by rewrite negb_true_iff, Timestamp_ltb_ge. Qed.
Lemma Timestamp_leb_gt a b : Timestamp_leb a b = false <-> Timestamp_lt b a.
Proof. unfold Timestamp_leb. by rewrite negb_false_iff, Timestamp_ltb_lt. Qed.

Ltac ts_unfold := unfold Timestamp_le, Timestamp_lt in *.
(** Decide an order goal between timestamps. *)
Ltac ts_lia :=
  ts_unfold; repeat match goal with t : Timestamp |- _ => destruct t end; cbn in *;
  repeat match goal with
  | H : _ \/ _ |- _ => destruct H
  | H : _ /\ _ |- _ => destruct H
  | H : MkTimestamp _ _ = MkTimestamp _ _ |- _ => injection H as H; subst
  end; try (exfalso; lia); try lia;
  try (left; lia); try (right; f_equal; lia).

Lemma Timestamp_le_trans a b c : Timestamp_le a b -> Timestamp_le b c -> Timestamp_le a c.
Proof. intros. ts_lia. Qed.
Lemma Timestamp_lt_le_trans a b c : Timestamp_lt a b -> Timestamp_le b c -> Timestamp_lt a c.
Proof. intros. ts_lia. Qed.
Lemma Timestamp_le_lt_trans a b c : Timestamp_le a b -> Timestamp_lt b c -> Timestamp_lt a c.
Proof. intros. ts_lia. Qed.
Lemma Timestamp_lt_irrefl a : ~ Timestamp_lt a a.
Proof. intros ?. ts_lia. Qed.
Lemma Timestamp_le_refl a : Timestamp_le a a.
Proof. by right. Qed.
#[export] Hint Resolve Timestamp_le_trans Timestamp_le_refl Timestamp_lt_le_trans
  Timestamp_le_lt_trans : nav.

(** Turn boolean timestamp comparisons into propositions. *)
Ltac ts_norm :=
  repeat match goal with
  | H : Timestamp_ltb _ _ = true |- _ => apply Timestamp_ltb_lt in H
  | H : Timestamp_ltb _ _ = false |- _ => apply Timestamp_ltb_ge in H
  | H : Timestamp_leb _ _ = true |- _ => apply Timestamp_leb_le in H
  | H : Timestamp_leb _ _ = false |- _ => apply Timestamp_leb_gt in H
  end.

Section timestamp.
Context `{!TimeLib}.

Definition Timestamp_new (unix_seconds nanoseconds : Z) : result SessionDomainError Timestamp :=
  if 1000000000 <=? nanoseconds then Err SInvalidTimestamp else
  _ ← ok_or SInvalidTimestamp
        (from_unix_timestamp unix_seconds ≫= fun value => replace_nanosecond value nanoseconds);
  Ok (MkTimestamp unix_seconds nanoseconds).

Definition Timestamp_from_datetime (value : OffsetDateTime) : Timestamp :=
  MkTimestamp (unix_timestamp value) (nanosecond value).

Definition Timestamp_to_datetime (t : Timestamp) : result SessionDomainError OffsetDateTime :=
  ok_or SInvalidTimestamp
    (from_unix_timestamp (unix_seconds t) ≫= fun value => replace_nanosecond value (nanoseconds t)).
End timestamp.

(** ** Session snapshots *)

Record SessionSnapshot := MkSessionSnapshot {
  ss_id : SessionId;
  ss_consumer_key : ConsumerKey;
  ss_compatibility : CompatibilityIdentity;
  ss_status : SessionStatus;
  ss_revision : Revision;
  ss_created_at : Timestamp;
  ss_updated_at : Timestamp;
}.
#[global] Instance SessionSnapshot_eq_dec : EqDecision SessionSnapshot.
Proof. solve_decision. Defined.

Definition SessionSnapshot_new (id : SessionId) (consumer_key : ConsumerKey)
    (compatibility : CompatibilityIdentity) (status : SessionStatus) (revision : Revision)
    (created_at updated_at : Timestamp) : result SessionDomainError SessionSnapshot :=
  if Timestamp_ltb updated_at created_at then Err TimestampRegression
  else if bool_decide (status = Closed) && bool_decide (revision = Revision_initial)
  then Err InvalidClosedRevision
  else Ok (MkSessionSnapshot id consumer_key compatibility status revision created_at updated_at).

(** [&mut self]: the snapshot after the call, and the result. *)
Definition SessionSnapshot_close (self : SessionSnapshot) (at_ : Timestamp) :
    SessionSnapshot * result SessionDomainError unit :=
  if bool_decide (ss_status self = Closed) then (self, Err AlreadyClosed)
  else if Timestamp_ltb at_ (ss_updated_at self) then (self, Err TimestampRegression)
  else match Revision_next (ss_revision self) with
       | None => (self, Err RevisionExhausted)
       | Some revision =>
           (MkSessionSnapshot (ss_id self) (ss_consumer_key self) (ss_compatibility self) Closed
              revision (ss_created_at self) at_, Ok tt)
       end.

(** [impl Deserialize for SessionSnapshot]: the decoded fields go through [new]. *)
Definition SessionSnapshot_deserialize (w : SessionSnapshot) :
    result SessionDomainError SessionSnapshot :=
  SessionSnapshot_new (ss_id w) (ss_consumer_key w) (ss_compatibility w) (ss_status w)
    (ss_revision w) (ss_created_at w) (ss_updated_at w).

Definition SessionSnapshot_wf (s : SessionSnapshot) : Prop :=
  Timestamp_le (ss_created_at s) (ss_updated_at s) /\
  ~ (ss_status s = Closed /\ ss_revision s = Revision_initial).

#[global] Instance SessionSnapshot_validated :
    Validated SessionSnapshot SessionSnapshot SessionDomainError :=
  {| validate := SessionSnapshot_deserialize; wire := id; wf := SessionSnapshot_wf |}.
#[global] Instance SessionSnapshot_laws :
  ValidatedLaws SessionSnapshot SessionSnapshot SessionDomainError.
Proof.
  split; unfold validate, wire, wf, SessionSnapshot_validated, SessionSnapshot_deserialize,
    SessionSnapshot_new, SessionSnapshot_wf.
  - intros w t H. case_if_in H as E; [done|]. ts_norm.
    case_if_in H as E'; [done|]. injection H as <-. cbn. split; [|by destruct w].
    split; [done|]. apply andb_false_iff in E'. rewrite !bool_decide_eq_false in E'. tauto.
  - intros t [Ht Hc]. unfold id. apply Timestamp_ltb_ge in Ht. rewrite Ht.
    case_if as E; [bool_norm; tauto | by destruct t].
Qed.

Inductive OwnershipSnapshot :=
| Unowned
| Owned (host_id : HostId) (epoch : FencingEpoch) (expires_at : Timestamp).

Record SessionEvent := MkSessionEvent {
  se_id : EventId;
  se_session_id : SessionId;
  se_position : EventPosition;
  se_revision : Revision;
  se_event_type : EventType;
  se_schema_version : EventSchemaVersion;
  se_related_request_id : option RequestId;
  se_data : RedactedEventData;
  se_occurred_at : Timestamp;
}.

(** [impl Deserialize for SessionEvent]: the raw fields of [Wire], each decoded
    by its own validating constructor in declaration order. *)
Record SessionEventRaw := MkSessionEventRaw {
  ser_id : Uuid; ser_session_id : Uuid; ser_position : Z; ser_revision : Z;
  ser_event_type : string; ser_schema_version : Z; ser_related_request_id : option Uuid;
  ser_data : bytes; ser_unix_seconds : Z; ser_nanoseconds : Z;
}.

Inductive DecodeError :=
| DeIdentity | DeMonotonic | DeBound (e : BoundError) | DeSession (e : SessionDomainError).

Definition decode_optional {A} (f : Uuid -> result InvalidIdentity A) (o : option Uuid) :
    result InvalidIdentity (option A) :=
  match o with None => Ok None | Some u => Some <$> f u end.

Definition SessionEvent_deserialize `{!TimeLib} (w : SessionEventRaw) :
    result DecodeError SessionEvent :=
  id ← map_err (fun _ => DeIdentity) (from_uuid (ser_id w));
  session_id ← map_err (fun _ => DeIdentity) (from_uuid (ser_session_id w));
  position ← map_err DeSession (EventPosition_new (ser_position w));
  revision ← map_err (fun _ => DeMonotonic) (Revision_new (ser_revision w));
  event_type ← map_err DeBound (EventType_new (ser_event_type w));
  schema_version ← map_err DeSession (EventSchemaVersion_new (ser_schema_version w));
  related ← map_err (fun _ => DeIdentity) (decode_optional from_uuid (ser_related_request_id w));
  data ← map_err DeBound (RedactedEventData_new (ser_data w));
  occurred_at ← map_err DeSession (Timestamp_new (ser_unix_seconds w) (ser_nanoseconds w));
  Ok (MkSessionEvent id session_id position revision event_type schema_version related data occurred_at).

(** Successive close attempts on one snapshot, with every result. *)
Fixpoint close_all (s : SessionSnapshot) (ats : list Timestamp) :
    SessionSnapshot * list (result SessionDomainError unit) :=
  match ats with
  | [] => (s, [])
  | at_ :: ats =>
      let '(s, r) := SessionSnapshot_close s at_ in
      let '(s, rs) := close_all s ats in (s, r :: rs)
  end.

Lemma close_cases s at_ s' r :
  SessionSnapshot_close s at_ = (s', r) ->
  (exists e, r = Err e /\ s' = s) \/
  (r = Ok tt /\ ss_status s = Open /\ Timestamp_le (ss_updated_at s) at_ /\
   Revision_next (ss_revision s) = Some (ss_revision s') /\
   s' = MkSessionSnapshot (ss_id s) (ss_consumer_key s) (ss_compatibility s) Closed
          (ss_revision s') (ss_created_at s) at_).
Proof.
  unfold SessionSnapshot_close. case_if as E1; [naive_solver|].
  case_if as E2; [naive_solver|]. ts_norm. bool_norm.
  destruct (Revision_next _) eqn:Hr; intros [= <- <-]; [|naive_solver].
  right. repeat split; auto. by destruct (ss_status s).
Qed.

Lemma close_wf s at_ s' r :
  SessionSnapshot_close s at_ = (s', r) ->
  SessionSnapshot_wf s -> Revision_wf (ss_revision s) ->
  SessionSnapshot_wf s' /\ Revision_wf (ss_revision s').
Proof.
  intros [(e & -> & ->)|(-> & Hst & Hat & Hr & Hs')]%close_cases [Ht Hc] Hrev; [done|].
  pose proof (Revision_next_wf _ _ Hrev Hr) as Hrev'. rewrite Hs'; cbn. split; [|done].
  split; cbn; [by eauto with nav|]. intros [_ Heq]. rewrite Heq in Hr.
  apply Revision_next_Some in Hr as [Hr _]. unfold Revision_wf in Hrev. cbn in Hr. lia.
Qed.

Lemma close_all_closed s ats :
  ss_status s = Closed -> close_all s ats = (s, replicate (length ats) (Err AlreadyClosed)).
Proof.
  intros Hs. induction ats as [|a ats IH]; [done|].
  cbn. unfold SessionSnapshot_close. rewrite bool_decide_true by done. by rewrite IH.
Qed.

(** ** Properties *)

(** Manifest construction accepts exactly the non-empty lists of at most 128
    bindings with pairwise distinct template identities. *)
Theorem manifest_accepts_exactly `{!Sha256} conf ts :
  is_ok (Manifest_new conf ts) = true <->
  ts <> [] /\ llen ts <= 128 /\ NoDup (tb_template_id <$> ts).
Proof.
  destruct (Manifest_new conf ts) as [m|e] eqn:E.
  - apply Manifest_new_Ok in E as (_ & ? & ? & ?). done.
  - split; [done|]. intros (H1 & H2 & H3).
    assert (Hok : Manifest_new conf ts = Ok (MkManifest conf (sort_by_key tb_template_id Id_le ts)
      (Compat_digest (manifest_canonical conf (sort_by_key tb_template_id Id_le ts))))).
    { by apply Manifest_new_Ok. }
    congruence.
Qed.

(** The manifest is canonical: the order in which a consumer lists its
    template bindings changes neither acceptance nor the resulting manifest. *)
Theorem manifest_order_insensitive `{!Sha256} conf ts1 ts2 :
  ts1 ≡ₚ ts2 -> Manifest_new conf ts1 = Manifest_new conf ts2.
Proof.
  intros Hp. unfold Manifest_new.
  destruct (decide (NoDup (tb_template_id <$> ts1))) as [Hnd|Hnd].
  { by rewrite (sort_by_key_canonical tb_template_id Id_le ts1 ts2). }
  assert (Hdup : forall ts, ts ≡ₚ ts1 ->
    adjacent_dup tb_template_id (sort_by_key tb_template_id Id_le ts) = true).
  { intros ts Hts. apply not_false_iff_true. intros Hdup%sort_by_key_dup; [|apply _..].
    by rewrite Hts in Hdup. }
  rewrite !Hdup by done. by rewrite !orb_true_r.
Qed.

Lemma manifest_order_insensitive_witness :
  let H : Sha256 := fun b => b in
  let b1 := MkBinding (MkId 11) (MkCompat (replicate 32 1)) in
  let b2 := MkBinding (MkId 12) (MkCompat (replicate 32 2)) in
  Manifest_new (MkCompat (replicate 32 9)) [b2; b1] = Manifest_new (MkCompat (replicate 32 9)) [b1; b2].
Proof. intros H b1 b2. apply manifest_order_insensitive. constructor. Defined.

(** The byte string SHA-256 is applied to for a manifest. *)
Definition manifest_preimage (m : SessionCompatibilityManifest) : bytes :=
  bytes_of_string "navigator.compatibility.v1" ++ [0]
  ++ manifest_canonical (m_configuration_identity m) (m_templates m).

(** The compatibility digest binds the whole manifest: two accepted manifests
    with the same digest are equal, unless their own two encodings are a SHA-256
    collision. *)
Theorem manifest_digest_binds `{!Sha256} c1 ts1 m1 c2 ts2 m2 :
  Compat_wf c1 -> Compat_wf c2 -> Forall Binding_wf ts1 -> Forall Binding_wf ts2 ->
  Manifest_new c1 ts1 = Ok m1 -> Manifest_new c2 ts2 = Ok m2 ->
  m_compatibility m1 = m_compatibility m2 ->
  m1 = m2 \/ (manifest_preimage m1 <> manifest_preimage m2 /\
              sha256 (manifest_preimage m1) = sha256 (manifest_preimage m2)).
Proof.
  intros Hc1 Hc2 Hf1 Hf2 (-> & _ & Hl1 & _)%Manifest_new_Ok (-> & _ & Hl2 & _)%Manifest_new_Ok.
  cbn. intros [= Heq]. destruct (decide (manifest_preimage
    (MkManifest c1 (sort_by_key tb_template_id Id_le ts1) (MkCompat [])) =
    manifest_preimage (MkManifest c2 (sort_by_key tb_template_id Id_le ts2) (MkCompat []))))
    as [Hpre|Hpre]; [left|by right].
  unfold manifest_preimage in Hpre; cbn [m_configuration_identity m_templates] in Hpre.
  do 2 apply app_inv_head in Hpre.
  apply manifest_canonical_inj in Hpre as [-> ->]; auto.
  1,2: by rewrite sort_by_key_perm.
  all: unfold llen; by rewrite sort_by_key_length.
Qed.

Lemma manifest_digest_binds_witness :
  let H : Sha256 := fun b => b in
  let b1 := MkBinding (MkId 11) (MkCompat (replicate 32 1)) in
  let b2 := MkBinding (MkId 12) (MkCompat (replicate 32 2)) in
  let c := MkCompat (replicate 32 9) in
  let m := MkManifest c [b1; b2] (Compat_digest (manifest_canonical c [b1; b2])) in
  m = m \/ (manifest_preimage m <> manifest_preimage m /\
            sha256 (manifest_preimage m) = sha256 (manifest_preimage m)).
Proof.
  intros H b1 b2 c m.
  apply (manifest_digest_binds c [b1; b2] m c [b2; b1] m);
    first [ reflexivity | repeat constructor; vm_compute; (discriminate || reflexivity) ].
Defined.

(** Membership by binary search is exact: for an accepted manifest,
    [contains] answers true exactly for the bindings the consumer supplied. *)
Theorem manifest_contains_exact `{!Sha256} conf ts m t c :
  Manifest_new conf ts = Ok m ->
  (Manifest_contains m t c = true <-> MkBinding t c ∈ ts).
Proof.
  intros Hnew. pose proof (Manifest_new_sorted _ _ _ Hnew) as Hs.
  assert (Hperm : m_templates m ≡ₚ ts).
  { apply Manifest_new_Ok in Hnew as [-> _]. apply sort_by_key_perm. }
  rewrite <-Hperm. unfold Manifest_contains.
  pose proof (binary_search_by_Some (fun b => as_uuid (tb_template_id b)) (as_uuid t) _ Hs) as Hbs.
  destruct (binary_search_by _ _) as [i|] eqn:E.
  - destruct (proj1 (Hbs i) eq_refl) as ([u c'] & Hi & Hk); cbn in Hk.
    assert (u = t) as -> by (destruct u, t; cbn in *; congruence).
    rewrite Hi. cbn. rewrite bool_decide_eq_true. split.
    + intros ->. by eapply list_elem_of_lookup_2.
    + intros [j Hj]%list_elem_of_lookup_1. assert (Some i = Some j) as [= <-].
      { apply (Hbs j). by exists (MkBinding t c). }
      rewrite Hi in Hj. by injection Hj.
  - split; [done|]. intros [j Hj]%list_elem_of_lookup_1.
    assert (None = Some j) as [=]. apply (Hbs j). by exists (MkBinding t c).
Qed.

Lemma manifest_contains_exact_witness :
  let H : Sha256 := fun b => b in
  let b1 := MkBinding (MkId 11) (MkCompat (replicate 32 1)) in
  let b2 := MkBinding (MkId 12) (MkCompat (replicate 32 2)) in
  let c := MkCompat (replicate 32 9) in
  let m := MkManifest c [b1; b2] (Compat_digest (manifest_canonical c [b1; b2])) in
  Manifest_contains m (MkId 12) (MkCompat (replicate 32 2)) = true <-> b2 ∈ [b2; b1].
Proof.
  intros H b1 b2 c m. apply (manifest_contains_exact c [b2; b1] m). reflexivity.
Defined.

(** Closing is monotone and irreversible.  Over any sequence of close
    attempts on a valid session, the snapshot stays valid, its identity, consumer
    key, compatibility and creation time never change, at most one attempt
    succeeds, and the snapshot changes only then: the revision advances by exactly
    one, the status becomes [Closed] and the update time does not move backwards. *)
Theorem session_closes_at_most_once s ats s' rs :
  SessionSnapshot_wf s -> Revision_wf (ss_revision s) ->
  close_all s ats = (s', rs) ->
  SessionSnapshot_wf s' /\
  (ss_id s', ss_consumer_key s', ss_compatibility s', ss_created_at s') =
  (ss_id s, ss_consumer_key s, ss_compatibility s, ss_created_at s) /\
  ((Forall (fun r => is_ok r = false) rs /\ s' = s) \/
   (exists rs1 rs2, rs = rs1 ++ Ok tt :: rs2 /\
      Forall (fun r => is_ok r = false) rs1 /\ Forall (fun r => r = Err AlreadyClosed) rs2 /\
      ss_status s = Open /\ ss_status s' = Closed /\
      Revision_get (ss_revision s') = Revision_get (ss_revision s) + 1 /\
      Timestamp_le (ss_updated_at s) (ss_updated_at s'))).
Proof.
  revert s s' rs; induction ats as [|a ats IH]; intros s s' rs Hwf Hrev.
  { intros [= <- <-]. split_and!; auto. }
  cbn. destruct (SessionSnapshot_close s a) as [s1 r] eqn:Hc.
  destruct (close_wf _ _ _ _ Hc Hwf Hrev) as [Hwf1 Hrev1].
  destruct (close_all s1 ats) as [s2 rs2] eqn:Hall. intros [= <- <-].
  destruct (close_cases _ _ _ _ Hc) as [(e & -> & ->)|(-> & Hst & Hat & Hn & Hs1)].
  - destruct (IH _ _ _ Hwf Hrev Hall) as (? & ? & [[? ->]|(l1 & l2 & -> & ? & ?)]);
      (split_and!; [done | done |]); [left | right; exists (Err e :: l1), l2];
      naive_solver.
  - rewrite close_all_closed in Hall by (by rewrite Hs1). injection Hall as <- <-.
    split_and!; [done | by rewrite Hs1 |]. right. exists [], (replicate (length ats) (Err AlreadyClosed)).
    apply Revision_next_Some in Hn as [Hn _]. rewrite Hs1; cbn.
    split_and!; auto using Forall_replicate.
Qed.

Lemma session_closes_at_most_once_witness :
  let s := MkSessionSnapshot (MkId 1) (MkBoundedText "consumer-a") (MkCompat (replicate 32 7))
             Open Revision_initial (MkTimestamp 100 0) (MkTimestamp 100 0) in
  let s' := MkSessionSnapshot (MkId 1) (MkBoundedText "consumer-a") (MkCompat (replicate 32 7))
             Closed (MkRevision 2) (MkTimestamp 100 0) (MkTimestamp 101 0) in
  SessionSnapshot_wf s'.
Proof.
  intros s s'.
  apply (session_closes_at_most_once s [MkTimestamp 99 0; MkTimestamp 101 0; MkTimestamp 102 0] s'
    [Err TimestampRegression; Ok tt; Err AlreadyClosed]).
  - split; [by right | by intros [? _]].
  - by vm_compute.
  - reflexivity.
Defined.

(** Timestamps and date-times convert without loss: every timestamp the
    constructor accepts converts to a date-time that reads back as the same
    timestamp, and every date-time's timestamp is accepted by the constructor. *)
Theorem timestamp_datetime_roundtrip `{TimeLaws} :
  (forall s n t, Timestamp_new s n = Ok t ->
     exists d, Timestamp_to_datetime t = Ok d /\ Timestamp_from_datetime d = t) /\
  (forall d, Timestamp_new (unix_seconds (Timestamp_from_datetime d))
                           (nanoseconds (Timestamp_from_datetime d)) = Ok (Timestamp_from_datetime d)).
Proof.
  split.
  - intros s n t Hnew. unfold Timestamp_new in Hnew. case_if_in Hnew as E; [done|].
    apply bind_Ok in Hnew as (d & Hd & [= <-]). exists d. unfold Timestamp_to_datetime; cbn.
    split; [done|]. rewrite ok_or_Ok in Hd.
    destruct (wire_value_fields s n d) as [H1 H2]; [by rewrite Hd|].
    unfold Timestamp_from_datetime. by rewrite H1, H2.
  - intros d. unfold Timestamp_new, Timestamp_from_datetime; cbn.
    pose proof (nanosecond_range d) as Hr. unfold NANOS in Hr.
    case_if as E; bool_norm; [lia|]. by destruct (wire_value_total d) as [d' ->].
Qed.

Lemma timestamp_datetime_roundtrip_witness :
  exists d : @OffsetDateTime UtcLib,
    Timestamp_to_datetime (MkTimestamp 100 5) = Ok d /\ Timestamp_from_datetime d = MkTimestamp 100 5.
Proof.
  apply (proj1 (@timestamp_datetime_roundtrip UtcLib UtcLaws) 100 5). reflexivity.
Defined.
