(* ===== verification/Text.v ===== *)
(** * Text: the characters of a Rust string

    A [String] is its UTF-8 bytes, and [len] counts them.  The standard library's
    [chars], [trim] and [char::is_control] work on the decoded characters; they are
    modelled on code points, with Unicode's White_Space set and the two control
    blocks (C0, DEL and C1). *)
From S2P Require Import Prelude Scalars Session.

(** Decoding of well-formed UTF-8, which Rust guarantees of every [str]: the
    leading byte gives the length; a truncated tail decodes to its bytes. *)
Fixpoint utf8_chars (b : list Z) : list Z :=
  match b with
  | [] => []
  | b0 :: t0 =>
      if b0 <? 128 then b0 :: utf8_chars t0
      else match t0 with
      | [] => [b0]
      | b1 :: t1 =>
          if b0 <? 224 then ((b0 - 192) * 64 + (b1 - 128)) :: utf8_chars t1
          else match t1 with
          | [] => [b0; b1]
          | b2 :: t2 =>
              if b0 <? 240
              then ((b0 - 224) * 4096 + (b1 - 128) * 64 + (b2 - 128)) :: utf8_chars t2
              else match t2 with
              | [] => [b0; b1; b2]
              | b3 :: t3 =>
                  ((b0 - 240) * 262144 + (b1 - 128) * 4096 + (b2 - 128) * 64 + (b3 - 128))
                  :: utf8_chars t3
              end
          end
      end
  end.

(** [str::chars]. *)
Definition chars (s : string) : list Z := utf8_chars (bytes_of_string s).

(** [char::is_whitespace]: the Unicode property White_Space. *)
Definition is_whitespace (c : Z) : bool :=
  ((9 <=? c) && (c <=? 13)) || (c =? 32) || (c =? 133) || (c =? 160) || (c =? 5760)
  || ((8192 <=? c) && (c <=? 8202)) || (c =? 8232) || (c =? 8233) || (c =? 8239)
  || (c =? 8287) || (c =? 12288).

(** [char::is_control]: the general category Cc. *)
Definition is_control (c : Z) : bool := (c <=? 31) || ((127 <=? c) && (c <=? 159)).

Fixpoint trim_start (l : list Z) : list Z :=
  match l with
  | c :: t => if is_whitespace c then trim_start t else l
  | [] => []
  end.

(** [str::trim], on characters. *)
Definition trim (l : list Z) : list Z := rev (trim_start (rev (trim_start l))).

Lemma trim_start_nil l : trim_start l = [] <-> Forall (fun c => is_whitespace c = true) l.
Proof.
  induction l as [|c l IH]; cbn; [by split|]. rewrite Forall_cons. case_match; naive_solver.
Qed.

Lemma trim_start_Forall (P : Z -> Prop) l : Forall P l -> Forall P (trim_start l).
Proof.
  induction l as [|c l IH]; cbn; [done|]. rewrite Forall_cons. intros [? ?].
  case_match; [by apply IH | by constructor].
Qed.

Lemma trim_nil l : trim l = [] <-> Forall (fun c => is_whitespace c = true) l.
Proof.
  unfold trim. split.
  - intros H. assert (H' : trim_start (rev (trim_start l)) = []).
    { rewrite <-(rev_involutive (trim_start _)), H. done. }
    apply trim_start_nil in H'. apply Forall_rev in H'. rewrite rev_involutive in H'.
    destruct (trim_start l) as [|c t] eqn:E; [by apply trim_start_nil|].
    exfalso. apply Forall_cons in H' as [Hc _]. clear H.
    induction l as [|d l IH]; cbn in E; [done|]. destruct (is_whitespace d) eqn:Hd; [by apply IH|].
    simplify_eq. congruence.
  - intros H. assert (trim_start l = []) as -> by (by apply trim_start_nil). done.
Qed.

(** [value.trim().is_empty()]. *)
Definition blank (s : string) : bool := bool_decide (trim (chars s) = []).

Lemma blank_iff s : blank s = true <-> Forall (fun c => is_whitespace c = true) (chars s).
Proof. unfold blank. by rewrite bool_decide_eq_true, trim_nil. Qed.
