(* ===== verification/Authority.v ===== *)
(** * Authority: capabilities, profiles, ceilings and grants

    Models crates/navigator-domain/src/{authority,digest}.rs.  A request is
    authorized only when every one of five ceilings permits it; a grant narrows
    further and never widens.  Sets ([BTreeSet]) are finite sets.  The semantic
    digest of digest.rs is modelled here because it is keyed by a capability. *)
From S2P Require Import Prelude Scalars Session.

(** ** Capabilities *)

Definition byte_of (c : ascii) : Z := Z.of_nat (nat_of_ascii c).
Definition is_ascii_lowercase (c : ascii) : bool := (97 <=? byte_of c) && (byte_of c <=? 122).
Definition is_ascii_uppercase (c : ascii) : bool := (65 <=? byte_of c) && (byte_of c <=? 90).
Definition is_ascii_digit (c : ascii) : bool := (48 <=? byte_of c) && (byte_of c <=? 57).
Definition is_dot_dash_underscore (c : ascii) : bool :=
  (byte_of c =? 46) || (byte_of c =? 45) || (byte_of c =? 95).

Definition string_all (p : ascii -> bool) (s : string) : bool :=
  forallb p (String.list_ascii_of_string s).

Record Capability := MkCapability { Capability_as_str : string }.
#[global] Instance Capability_eq_dec : EqDecision Capability.
Proof. solve_decision. Defined.
#[global] Instance Capability_countable : Countable Capability.
Proof. refine (inj_countable' Capability_as_str MkCapability _). by intros []. Defined.

Definition capability_byte (c : ascii) : bool :=
  is_ascii_lowercase c || is_ascii_digit c || is_dot_dash_underscore c.

Definition Capability_new (value : string) : result string Capability :=
  if bool_decide (value = EmptyString) || (128 <? slen value)
     || negb (string_all capability_byte value)
  then Err "capability must be a bounded lowercase identifier"%string
  else Ok (MkCapability value).

Definition Capability_wf (c : Capability) : Prop :=
  Capability_as_str c <> EmptyString /\ slen (Capability_as_str c) <= 128 /\
  string_all capability_byte (Capability_as_str c) = true.

#[global] Instance Capability_validated : Validated string Capability string :=
  {| validate := Capability_new; wire := Capability_as_str; wf := Capability_wf |}.
#[global] Instance Capability_laws : ValidatedLaws string Capability string.
Proof.
  split; unfold validate, wire, wf, Capability_validated, Capability_new, Capability_wf.
  - intros w t H. case_if_in H as E; [done|]. injection H as <-. bool_norm. done.
  - intros [s] (Hne & Hlen & Hall); cbn in *. rewrite Hall, bool_decide_false by done.
    case_if as E; [|done]. rewrite orb_false_r in E. cbn in E. bool_norm. lia.
Qed.

(** ** Plain authority sets *)

Record Authority := MkAuthority { authority_set : gset Capability }.

Definition Authority_new (capabilities : list Capability) : Authority :=
  MkAuthority (list_to_set capabilities).
Definition Authority_intersect (self ceiling : Authority) : Authority :=
  MkAuthority (authority_set self ∩ authority_set ceiling).
Definition Authority_contains (self : Authority) (c : Capability) : bool :=
  bool_decide (c ∈ authority_set self).
Definition Authority_len (self : Authority) : Z := Z.of_nat (size (authority_set self)).

(** ** Scoped capabilities and profiles *)

Inductive ResourceScope :=
| ScopeSession (id : SessionId)
| ScopeParticipant (id : ParticipantId)
| ScopeOperation (id : OperationId)
| ScopeArtifact (id : ArtifactId).
#[global] Instance ResourceScope_eq_dec : EqDecision ResourceScope.
Proof. solve_decision. Defined.
#[global] Instance ResourceScope_countable : Countable ResourceScope.
Proof.
  refine (inj_countable'
    (fun r => match r with
       | ScopeSession i => inl (inl i) | ScopeParticipant i => inl (inr i)
       | ScopeOperation i => inr (inl i) | ScopeArtifact i => inr (inr i) end)
    (fun x => match x with
       | inl (inl i) => ScopeSession i | inl (inr i) => ScopeParticipant i
       | inr (inl i) => ScopeOperation i | inr (inr i) => ScopeArtifact i end) _).
  by intros [].
Defined.

Record ScopedCapability := MkScoped { sc_capability : Capability; sc_resource : ResourceScope }.
#[global] Instance ScopedCapability_eq_dec : EqDecision ScopedCapability.
Proof. solve_decision. Defined.
#[global] Instance ScopedCapability_countable : Countable ScopedCapability.
Proof.
  refine (inj_countable' (fun s => (sc_capability s, sc_resource s))
            (fun p => MkScoped p.1 p.2) _). by intros [].
Defined.

Definition MAX_AUTHORITY_RULES : Z := 256.

Inductive AuthorityError := TooManyRules | DuplicateRule | Denied.
#[global] Instance AuthorityError_eq_dec : EqDecision AuthorityError.
Proof. solve_decision. Defined.

Record AuthorityProfile := MkProfile {
  ap_active : gset ScopedCapability;
  ap_delegable : gset ScopedCapability;
}.
#[global] Instance AuthorityProfile_eq_dec : EqDecision AuthorityProfile.
Proof. solve_decision. Defined.

Definition AuthorityProfile_default : AuthorityProfile := MkProfile ∅ ∅.

Definition AuthorityProfile_new (active_values delegable_values : list ScopedCapability) :
    result AuthorityError AuthorityProfile :=
  let active : gset ScopedCapability := list_to_set active_values in
  let delegable : gset ScopedCapability := list_to_set delegable_values in
  if negb (Z.of_nat (size active) =? llen active_values)
     || negb (Z.of_nat (size delegable) =? llen delegable_values) then Err DuplicateRule
  else if (MAX_AUTHORITY_RULES <? Z.of_nat (size active))
          || (MAX_AUTHORITY_RULES <? Z.of_nat (size delegable)) then Err TooManyRules
  else Ok (MkProfile active delegable).

Definition session_parent (requested : ScopedCapability) (session_id : SessionId) : ScopedCapability :=
  MkScoped (sc_capability requested)
    (match sc_resource requested with
     | ScopeOperation _ => ScopeSession session_id
     | _ => sc_resource requested
     end).

Definition permits_delegation (p : AuthorityProfile) (requested : ScopedCapability) : bool :=
  bool_decide (requested ∈ ap_delegable p).
Definition permits_active_effect (p : AuthorityProfile) (requested : ScopedCapability)
    (session_id : SessionId) : bool :=
  bool_decide (requested ∈ ap_active p)
  || bool_decide (session_parent requested session_id ∈ ap_active p).
Definition permits_effect_delegation (p : AuthorityProfile) (requested : ScopedCapability)
    (session_id : SessionId) : bool :=
  bool_decide (requested ∈ ap_delegable p)
  || bool_decide (session_parent requested session_id ∈ ap_delegable p).

(** ** Grants and ceilings *)

Record Grant := MkGrant {
  g_id : GrantId;
  g_session_id : SessionId;
  g_subject : ParticipantId;
  g_authority : ScopedCapability;
  g_expires_at : Timestamp;
  g_revoked : bool;
}.

Definition Grant_is_active (g : Grant) (now : Timestamp) : bool :=
  negb (g_revoked g) && Timestamp_ltb now (g_expires_at g).

Record AuthorityCeilings := MkCeilings {
  c_session : AuthorityProfile;
  c_parent : AuthorityProfile;
  c_template : AuthorityProfile;
  c_relationship : AuthorityProfile;
  c_subject : AuthorityProfile;
}.

Inductive AuthorityOrigin :=
| OSession | OParentDelegation | OTemplate | ORelationship | OSubject | OGrant (id : GrantId).
#[global] Instance AuthorityOrigin_eq_dec : EqDecision AuthorityOrigin.
Proof. solve_decision. Defined.
#[global] Instance AuthorityOrigin_countable : Countable AuthorityOrigin.
Proof.
  refine (inj_countable'
    (fun o => match o with OSession => inl 0%nat | OParentDelegation => inl 1%nat
       | OTemplate => inl 2%nat | ORelationship => inl 3%nat | OSubject => inl 4%nat
       | OGrant i => inr i end)
    (fun x => match x with inl 0%nat => OSession | inl 1%nat => OParentDelegation
       | inl 2%nat => OTemplate | inl 3%nat => ORelationship | inl _ => OSubject
       | inr i => OGrant i end) _).
  by intros [].
Defined.

Record AuthorityDecision := MkDecision {
  ad_authority : ScopedCapability;
  ad_origins : gset AuthorityOrigin;
}.

Definition ceiling_origins : gset AuthorityOrigin :=
  {[OSession; OParentDelegation; OTemplate; ORelationship; OSubject]}.

Definition authorize_child_creation (c : AuthorityCeilings) (requested : ScopedCapability) :
    result AuthorityError AuthorityDecision :=
  if negb (permits_delegation (c_session c) requested)
     || negb (permits_delegation (c_parent c) requested)
     || negb (permits_delegation (c_template c) requested)
     || negb (permits_delegation (c_relationship c) requested)
     || negb (permits_delegation (c_subject c) requested)
  then Err Denied
  else Ok (MkDecision requested ceiling_origins).

Definition authorize_effect (c : AuthorityCeilings) (subject : ParticipantId)
    (session_id : SessionId) (requested : ScopedCapability) (grant : option Grant)
    (now : Timestamp) : result AuthorityError AuthorityDecision :=
  if negb (permits_active_effect (c_session c) requested session_id)
     || negb (permits_effect_delegation (c_parent c) requested session_id)
     || negb (permits_active_effect (c_template c) requested session_id)
     || negb (permits_active_effect (c_relationship c) requested session_id)
     || negb (permits_active_effect (c_subject c) requested session_id)
  then Err Denied
  else
    let origins := ceiling_origins in
    match grant with
    | Some g =>
        if negb (bool_decide (g_session_id g = session_id))
           || negb (bool_decide (g_subject g = subject))
           || negb (bool_decide (g_authority g = requested))
           || negb (Grant_is_active g now)
        then Err Denied
        else Ok (MkDecision requested ({[OGrant (g_id g)]} ∪ origins))
    | None => Ok (MkDecision requested origins)
    end.

(** ** Semantic digests (digest.rs) *)

Record SemanticDigest := MkSemanticDigest { sd_bytes : bytes }.
#[global] Instance SemanticDigest_eq_dec : EqDecision SemanticDigest.
Proof. solve_decision. Defined.

Definition semantic_preimage (action : Capability) (canonical_input : bytes) : bytes :=
  bytes_of_string "navigator.semantic-input.v1" ++ [0]
  ++ bytes_of_string (Capability_as_str action) ++ [0] ++ canonical_input.

Definition SemanticDigest_v1 `{!Sha256} (action : Capability) (canonical_input : bytes) :
    SemanticDigest :=
  MkSemanticDigest (sha256 (semantic_preimage action canonical_input)).

(** ** Specification of the effect rule *)

(** A rule set covers a request exactly, or through the session-wide rule of the
    session the effect runs in when the request names one operation. *)
Definition covers (rules : gset ScopedCapability) (sid : SessionId) (req : ScopedCapability) : Prop :=
  req ∈ rules \/
  exists op, sc_resource req = ScopeOperation op /\
             MkScoped (sc_capability req) (ScopeSession sid) ∈ rules.

Definition grant_binds (g : Grant) (subject : ParticipantId) (sid : SessionId)
    (req : ScopedCapability) (now : Timestamp) : Prop :=
  g_session_id g = sid /\ g_subject g = subject /\ g_authority g = req /\
  g_revoked g = false /\ Timestamp_lt now (g_expires_at g).

Definition effect_allowed (c : AuthorityCeilings) (subject : ParticipantId) (sid : SessionId)
    (req : ScopedCapability) (grant : option Grant) (now : Timestamp) : Prop :=
  covers (ap_active (c_session c)) sid req /\
  covers (ap_delegable (c_parent c)) sid req /\
  covers (ap_active (c_template c)) sid req /\
  covers (ap_active (c_relationship c)) sid req /\
  covers (ap_active (c_subject c)) sid req /\
  (forall g, grant = Some g -> grant_binds g subject sid req now).

Definition effect_origins (grant : option Grant) : gset AuthorityOrigin :=
  match grant with Some g => {[OGrant (g_id g)]} ∪ ceiling_origins | None => ceiling_origins end.

Lemma covers_iff rules sid req :
  bool_decide (req ∈ rules) || bool_decide (session_parent req sid ∈ rules) = true <->
  covers rules sid req.
Proof.
  rewrite orb_true_iff, !bool_decide_eq_true. unfold covers, session_parent.
  destruct req as [cap []]; cbn; naive_solver.
Qed.

Lemma negb_permits_false rules sid req :
  negb (bool_decide (req ∈ rules) || bool_decide (session_parent req sid ∈ rules)) = false <->
  covers rules sid req.
Proof. by rewrite negb_false_iff, covers_iff. Qed.

Lemma Grant_is_active_iff g now :
  Grant_is_active g now = true <-> g_revoked g = false /\ Timestamp_lt now (g_expires_at g).
Proof. unfold Grant_is_active. by rewrite andb_true_iff, negb_true_iff, Timestamp_ltb_lt. Qed.

Lemma authorize_effect_Ok c subject sid req grant now d :
  authorize_effect c subject sid req grant now = Ok d <->
  effect_allowed c subject sid req grant now /\ d = MkDecision req (effect_origins grant).
Proof.
  unfold authorize_effect, permits_active_effect, permits_effect_delegation, effect_allowed.
  rewrite <-!negb_permits_false.
  case_if as E.
  - split; [done|]. intros ((H1 & H2 & H3 & H4 & H5 & _) & _).
    by rewrite H1, H2, H3, H4, H5 in E.
  - rewrite !orb_false_iff in E. destruct E as ((((E1 & E2) & E3) & E4) & E5).
    destruct grant as [g|]; cbn.
    + assert (Hb : negb (bool_decide (g_session_id g = sid))
           || negb (bool_decide (g_subject g = subject))
           || negb (bool_decide (g_authority g = req))
           || negb (Grant_is_active g now) = false <-> grant_binds g subject sid req now).
      { rewrite !orb_false_iff, !negb_false_iff, !bool_decide_eq_true, Grant_is_active_iff.
        unfold grant_binds. tauto. }
      destruct (negb (bool_decide (g_session_id g = sid)) || _ || _ || _).
      * split; [done|]. intros ((_ & _ & _ & _ & _ & Hg) & _).
        specialize (Hg g eq_refl). apply Hb in Hg. done.
      * apply proj1 in Hb. specialize (Hb eq_refl).
        split; [intros [= <-] | intros [_ ->]; done].
        split; [|done]. split_and!; auto. intros ? [= <-]. done.
    + split; [intros [= <-] | intros [_ ->]; done]. split; [|done]. split_and!; auto. done.
Qed.

(** Profile inclusion, and its pointwise extension to ceilings. *)
Definition profile_incl (p q : AuthorityProfile) : Prop :=
  ap_active p ⊆ ap_active q /\ ap_delegable p ⊆ ap_delegable q.
Definition ceilings_incl (c c' : AuthorityCeilings) : Prop :=
  profile_incl (c_session c) (c_session c') /\ profile_incl (c_parent c) (c_parent c') /\
  profile_incl (c_template c) (c_template c') /\
  profile_incl (c_relationship c) (c_relationship c') /\ profile_incl (c_subject c) (c_subject c').

Lemma covers_mono rules rules' sid req :
  rules ⊆ rules' -> covers rules sid req -> covers rules' sid req.
Proof. unfold covers. set_solver. Qed.

Lemma effect_allowed_mono c c' subject sid req grant now :
  ceilings_incl c c' -> effect_allowed c subject sid req grant now ->
  effect_allowed c' subject sid req grant now.
Proof.
  unfold ceilings_incl, profile_incl, effect_allowed. intros. destruct_and!.
  split_and!; eauto using covers_mono.
Qed.

Lemma authorize_child_creation_Ok c req d :
  authorize_child_creation c req = Ok d <->
  (req ∈ ap_delegable (c_session c) /\ req ∈ ap_delegable (c_parent c) /\
   req ∈ ap_delegable (c_template c) /\ req ∈ ap_delegable (c_relationship c) /\
   req ∈ ap_delegable (c_subject c)) /\ d = MkDecision req ceiling_origins.
Proof.
  unfold authorize_child_creation, permits_delegation. case_if as E.
  - split; [done|]. intros ((H1 & H2 & H3 & H4 & H5) & _).
    rewrite !bool_decide_true in E by done. done.
  - rewrite !orb_false_iff, !negb_false_iff, !bool_decide_eq_true in E. naive_solver.
Qed.

(** The authority left after passing through a chain of ceilings. *)
Definition delegate (root : Authority) (chain : list Authority) : Authority :=
  fold_left Authority_intersect chain root.

Lemma delegate_elem c root chain :
  c ∈ authority_set (delegate root chain) <->
  c ∈ authority_set root /\ Forall (fun a => c ∈ authority_set a) chain.
Proof.
  revert root; induction chain as [|a chain IH]; intros root; cbn; [naive_solver|].
  unfold delegate in IH. rewrite IH, Forall_cons; cbn. set_solver.
Qed.

(** ** Digest encoding *)

Lemma ascii_byte_inj a b : byte_of a = byte_of b -> a = b.
Proof.
  unfold byte_of. intros H%Nat2Z.inj.
  rewrite <-(ascii_nat_embedding a), <-(ascii_nat_embedding b). by rewrite H.
Qed.

Lemma bytes_of_string_inj s1 s2 : bytes_of_string s1 = bytes_of_string s2 -> s1 = s2.
Proof.
  unfold bytes_of_string. intros H.
  rewrite <-(string_of_list_ascii_of_string s1), <-(string_of_list_ascii_of_string s2). f_equal.
  revert H. generalize (String.list_ascii_of_string s1) (String.list_ascii_of_string s2).
  intros l1; induction l1 as [|a l1 IH]; intros [|b l2]; cbn; [done..|].
  intros [= Hab Hl]. f_equal; [by apply ascii_byte_inj | by apply IH].
Qed.

Lemma capability_bytes_nonzero c :
  Capability_wf c -> Forall (fun b => b <> 0) (bytes_of_string (Capability_as_str c)).
Proof.
  intros (_ & _ & Hall). unfold bytes_of_string, string_all in *.
  apply Forall_fmap.
  rewrite forallb_forall in Hall. apply Forall_forall. intros a Ha%list_elem_of_In.
  specialize (Hall a Ha). cbn. unfold capability_byte, is_ascii_lowercase, is_ascii_digit,
    is_dot_dash_underscore, byte_of in Hall. lia.
Qed.

(** Two NUL-free prefixes followed by NUL and arbitrary bytes split uniquely. *)
Lemma nul_terminated_inj (p1 p2 r1 r2 : bytes) :
  Forall (fun b => b <> 0) p1 -> Forall (fun b => b <> 0) p2 ->
  p1 ++ [0] ++ r1 = p2 ++ [0] ++ r2 -> p1 = p2 /\ r1 = r2.
Proof.
  revert p2; induction p1 as [|a p1 IH]; intros [|b p2] H1 H2; cbn.
  - by intros [= ->].
  - intros [= <- ?]. by apply Forall_cons in H2 as [? _].
  - intros [= -> ?]. by apply Forall_cons in H1 as [? _].
  - intros [= -> Heq]. apply Forall_cons in H1 as [_ H1], H2 as [_ H2].
    destruct (IH p2 H1 H2 Heq) as [-> ->]. done.
Qed.

Lemma semantic_preimage_inj a1 i1 a2 i2 :
  Capability_wf a1 -> Capability_wf a2 ->
  semantic_preimage a1 i1 = semantic_preimage a2 i2 -> a1 = a2 /\ i1 = i2.
Proof.
  intros H1%capability_bytes_nonzero H2%capability_bytes_nonzero Heq.
  unfold semantic_preimage in Heq. do 2 apply app_inv_head in Heq.
  apply nul_terminated_inj in Heq as [Hs ->]; auto.
  apply bytes_of_string_inj in Hs. destruct a1, a2; cbn in *. by subst.
Qed.

(** [AuthorityProfile::new] counts duplicates through the size of the sets. *)
Lemma size_list_to_set_NoDup (l : list ScopedCapability) :
  Z.of_nat (size (list_to_set l : gset ScopedCapability)) = llen l <-> NoDup l.
Proof.
  unfold llen. split.
  - intros Hsz%Nat2Z.inj. induction l as [|x l IH]; [constructor|].
    assert (Hle : forall l : list ScopedCapability,
      (size (list_to_set l : gset ScopedCapability) <= length l)%nat).
    { intros l'. induction l' as [|y l' IH']; cbn; [by rewrite size_empty|].
      destruct (decide (y ∈ (list_to_set l' : gset ScopedCapability))) as [Hin|Hin].
      - assert ({[y]} ∪ list_to_set l' = (list_to_set l' : gset ScopedCapability)) as -> by set_solver.
        lia.
      - rewrite size_union by set_solver. rewrite size_singleton. lia. }
    specialize (Hle l). cbn in Hsz.
    destruct (decide (x ∈ (list_to_set l : gset ScopedCapability))) as [Hin|Hin].
    + assert ({[x]} ∪ list_to_set l = (list_to_set l : gset ScopedCapability)) as Heq by set_solver.
      rewrite Heq in Hsz. lia.
    + rewrite size_union, size_singleton in Hsz by set_solver.
      constructor; [set_solver | apply IH; lia].
  - intros Hnd. f_equal. by apply size_list_to_set.
Qed.

Lemma AuthorityProfile_new_Ok active delegable p :
  AuthorityProfile_new active delegable = Ok p <->
  NoDup active /\ NoDup delegable /\ llen active <= MAX_AUTHORITY_RULES /\
  llen delegable <= MAX_AUTHORITY_RULES /\
  p = MkProfile (list_to_set active) (list_to_set delegable).
Proof.
  unfold AuthorityProfile_new. rewrite <-!size_list_to_set_NoDup.
  case_if as E1.
  - apply orb_true_iff in E1. rewrite !negb_true_iff, !Z.eqb_neq in E1. split; [done | naive_solver].
  - bool_norm. case_if as E2; [apply orb_true_iff in E2; rewrite !Z.ltb_lt in E2 | bool_norm].
    + split; [done|]. intros (_ & _ & ? & ? & _). lia.
    + split; [intros [= <-]; split_and!; auto; lia | naive_solver].
Qed.

(** ** Properties *)

(** The effect rule is exact.  [authorize_effect] succeeds precisely when the
    session, the parent's delegable set, the template, the relationship and the
    subject each cover the request (directly, or through the session-wide rule for
    an operation-scoped request), and any presented grant is bound to this session,
    subject and exact request, is not revoked and has not expired; the decision
    then names exactly the consulted ceilings and the grant.  The only error is
    [Denied]. *)
Theorem effect_authorization_exact c subject sid req grant now :
  (forall d, authorize_effect c subject sid req grant now = Ok d <->
     effect_allowed c subject sid req grant now /\ d = MkDecision req (effect_origins grant)) /\
  (forall e, authorize_effect c subject sid req grant now = Err e <->
     ~ effect_allowed c subject sid req grant now /\ e = Denied).
Proof.
  split; [intros d; apply authorize_effect_Ok|]. intros e.
  destruct (authorize_effect c subject sid req grant now) as [d|e'] eqn:E.
  - apply authorize_effect_Ok in E as [H _]. naive_solver.
  - assert (He : e' = Denied) by (revert E; unfold authorize_effect; repeat case_match; congruence).
    subst e'. split; [intros [= <-]; split; [|done] | by intros [_ ->]]. intros Hall.
    assert (Hok : authorize_effect c subject sid req grant now = Ok (MkDecision req (effect_origins grant))).
    { by apply authorize_effect_Ok. }
    congruence.
Qed.

(** Authority never escalates.  Whatever is allowed under some ceilings, with
    or without a grant, is allowed under every wider set of ceilings without any
    grant: narrowing a ceiling or presenting a grant can only remove permissions.
    The same holds for creating a child. *)
Theorem authority_never_escalates c c' subject sid req grant now :
  ceilings_incl c c' ->
  (is_ok (authorize_effect c subject sid req grant now) = true ->
   authorize_effect c' subject sid req None now = Ok (MkDecision req ceiling_origins)) /\
  (is_ok (authorize_child_creation c req) = true ->
   authorize_child_creation c' req = Ok (MkDecision req ceiling_origins)).
Proof.
  intros Hincl. split.
  - destruct (authorize_effect c _ _ _ _ _) as [d|] eqn:E; [intros _ | done].
    apply authorize_effect_Ok in E as [Hall _]. apply authorize_effect_Ok. split; [|done].
    apply (effect_allowed_mono c c') in Hall; [|done]. unfold effect_allowed in *. naive_solver.
  - destruct (authorize_child_creation c req) as [d|] eqn:E; [intros _ | done].
    apply authorize_child_creation_Ok in E as [Hall _]. apply authorize_child_creation_Ok.
    split; [|done]. unfold ceilings_incl, profile_incl in Hincl. set_solver.
Qed.

Lemma authority_never_escalates_witness :
  let req := MkScoped (MkCapability "artifact.write") (ScopeOperation (MkId 5)) in
  let wide := MkScoped (MkCapability "artifact.write") (ScopeSession (MkId 1)) in
  let p := MkProfile {[wide]} {[wide]} in
  let c := MkCeilings p p p p p in
  let g := MkGrant (MkId 9) (MkId 1) (MkId 3) req (MkTimestamp 50 0) false in
  authorize_effect c (MkId 3) (MkId 1) req None (MkTimestamp 49 0) = Ok (MkDecision req ceiling_origins).
Proof.
  intros req wide p c g.
  apply (authority_never_escalates c c (MkId 3) (MkId 1) req (Some g) (MkTimestamp 49 0)).
  - repeat split; done.
  - vm_compute. reflexivity.
Defined.

(** Delegated authority is the intersection along the chain: after any number
    of delegation steps a capability survives exactly when the root and every
    ceiling on the way hold it, so the set never grows. *)
Theorem delegation_only_narrows root chain cap :
  Authority_contains (delegate root chain) cap =
    Authority_contains root cap && forallb (fun a => Authority_contains a cap) chain /\
  Authority_len (delegate root chain) <= Authority_len root.
Proof.
  split.
  - apply eq_true_iff_eq. rewrite andb_true_iff, forallb_forall. unfold Authority_contains.
    rewrite !bool_decide_eq_true, delegate_elem, Forall_forall.
    setoid_rewrite bool_decide_eq_true. setoid_rewrite list_elem_of_In. done.
  - unfold Authority_len. apply inj_le, subseteq_size. intros x [Hx _]%delegate_elem. done.
Qed.

(** The semantic digest binds both the action and the canonical input: two
    well-formed actions with equal digests have equal actions and inputs, unless
    their two encodings are a SHA-256 collision. *)
Theorem semantic_digest_binds `{!Sha256} a1 i1 a2 i2 :
  Capability_wf a1 -> Capability_wf a2 ->
  SemanticDigest_v1 a1 i1 = SemanticDigest_v1 a2 i2 ->
  (a1 = a2 /\ i1 = i2) \/
  (semantic_preimage a1 i1 <> semantic_preimage a2 i2 /\
   sha256 (semantic_preimage a1 i1) = sha256 (semantic_preimage a2 i2)).
Proof.
  intros H1 H2 [= Heq].
  destruct (decide (semantic_preimage a1 i1 = semantic_preimage a2 i2)) as [Hp|Hp]; [left|by right].
  by apply semantic_preimage_inj.
Qed.

Lemma semantic_digest_binds_witness :
  let H : Sha256 := fun b => b in
  let a := MkCapability "artifact.write" in
  (a = a /\ [1; 0; 2] = [1; 0; 2]) \/
  (semantic_preimage a [1; 0; 2] <> semantic_preimage a [1; 0; 2] /\
   sha256 (semantic_preimage a [1; 0; 2]) = sha256 (semantic_preimage a [1; 0; 2])).
Proof.
  intros H a. apply (semantic_digest_binds a [1; 0; 2] a [1; 0; 2]);
    first [ reflexivity | repeat split; vm_compute; (discriminate || reflexivity) ].
Defined.

(** A profile is accepted exactly when both rule lists are duplicate-free and
    have at most 256 entries, and it then permits exactly the listed rules. *)
Theorem profile_accepts_exactly active delegable :
  (is_ok (AuthorityProfile_new active delegable) = true <->
   NoDup active /\ NoDup delegable /\ llen active <= 256 /\ llen delegable <= 256) /\
  (forall p, AuthorityProfile_new active delegable = Ok p -> forall rule,
     (permits_delegation p rule = true <-> rule ∈ delegable) /\
     (rule ∈ ap_active p <-> rule ∈ active)).
Proof.
  split.
  - destruct (AuthorityProfile_new active delegable) as [p|e] eqn:E.
    + apply AuthorityProfile_new_Ok in E. naive_solver.
    + split; [done|]. intros (H1 & H2 & H3 & H4).
      assert (Hok : AuthorityProfile_new active delegable =
        Ok (MkProfile (list_to_set active) (list_to_set delegable))).
      { by apply AuthorityProfile_new_Ok. }
      congruence.
  - intros p (_ & _ & _ & _ & ->)%AuthorityProfile_new_Ok rule. unfold permits_delegation; cbn.
    rewrite bool_decide_eq_true. by rewrite !elem_of_list_to_set.
Qed.

Lemma profile_accepts_exactly_witness :
  let r := MkScoped (MkCapability "artifact.write") (ScopeSession (MkId 1)) in
  let q := MkScoped (MkCapability "artifact.read") (ScopeSession (MkId 1)) in
  permits_delegation (MkProfile {[r; q]} {[q]}) q = true <-> q ∈ [q].
Proof.
  intros r q. eapply (profile_accepts_exactly [r; q] [q]). vm_compute. reflexivity.
Defined.
