(* ===== verification/Operation.v ===== *)
(** * Operation: the operation state machine and its three implementations

    Models crates/navigator-domain/src/operation.rs ([Operation::apply]), the
    independent model and trace checker of crates/navigator-conformance/src/lib.rs
    ([model_step], [assert_operation_trace]) and the pure helpers the SQLite store
    uses when it moves an operation (crates/navigator-store-sqlite/src/store.rs:
    [next_operation_state], [valid_terminal_outcome], [terminal_matches_state], the
    state and outcome names). *)
From S2P Require Import Prelude Scalars Session.

(** ** The domain's state machine (operation.rs) *)

Inductive OperationState :=
| OpQueued | OpStarting | OpRunning | OpWaiting | OpCancelling
| OpSucceeded | OpFailed | OpCancelled | OpBlocked | OpUncertain.
#[global] Instance OperationState_eq_dec : EqDecision OperationState.
Proof. solve_decision. Defined.

Definition is_terminal (s : OperationState) : bool :=
  match s with
  | OpSucceeded | OpFailed | OpCancelled | OpBlocked | OpUncertain => true
  | _ => false
  end.

Inductive OperationAction :=
| BeginStart | ReportRunning | Wait | Resume | RequestCancel | ReportSuccess
| ReportFailure | ReportCancelled | ReportBlocked | ReportUncertain | ObserveIdle.
#[global] Instance OperationAction_eq_dec : EqDecision OperationAction.
Proof. solve_decision. Defined.

Record Operation := MkOperation {
  op_id : OperationId;
  op_participant_id : ParticipantId;
  op_request_id : RequestId;
  op_state : OperationState;
}.

Record TransitionError := MkTransitionError {
  te_from : OperationState;
  te_action : OperationAction;
}.

Definition Operation_queued (id : OperationId) (participant_id : ParticipantId)
    (request_id : RequestId) : Operation := MkOperation id participant_id request_id OpQueued.

(** [Operation::apply] mutates in place: the new value and the result. *)
Definition Operation_apply (self : Operation) (action : OperationAction) :
    Operation * result TransitionError unit :=
  let set (next : OperationState) :=
    (MkOperation (op_id self) (op_participant_id self) (op_request_id self) next, Ok tt) in
  match op_state self, action with
  | OpQueued, BeginStart => set OpStarting
  | OpStarting, ReportRunning | OpWaiting, Resume => set OpRunning
  | OpRunning, Wait => set OpWaiting
  | (OpQueued | OpStarting | OpRunning | OpWaiting), RequestCancel => set OpCancelling
  | (OpQueued | OpCancelling), ReportCancelled => set OpCancelled
  | (OpQueued | OpStarting | OpRunning | OpWaiting | OpCancelling), ReportFailure => set OpFailed
  | OpRunning, ReportSuccess => set OpSucceeded
  | (OpRunning | OpWaiting), ReportBlocked => set OpBlocked
  | (OpStarting | OpRunning | OpWaiting | OpCancelling), ReportUncertain => set OpUncertain
  | _, _ => (self, Err (MkTransitionError (op_state self) action))
  end.

(** ** The conformance model (navigator-conformance) *)

Inductive OperationCommand :=
| CBeginStart | CReportRunning | CWait | CResume | CRequestCancel | CReportSuccess
| CReportFailure | CReportCancelled | CReportBlocked | CReportUncertain | CObserveIdle.

Inductive Observation := State (s : OperationState) | Rejected.
#[global] Instance Observation_eq_dec : EqDecision Observation.
Proof. solve_decision. Defined.

Definition model_step (state : OperationState) (command : OperationCommand) : Observation :=
  let next :=
    match state, command with
    | OpQueued, CBeginStart => Some OpStarting
    | OpStarting, CReportRunning | OpWaiting, CResume => Some OpRunning
    | OpRunning, CWait => Some OpWaiting
    | (OpQueued | OpStarting | OpRunning | OpWaiting), CRequestCancel => Some OpCancelling
    | (OpQueued | OpCancelling), CReportCancelled => Some OpCancelled
    | (OpQueued | OpStarting | OpRunning | OpWaiting | OpCancelling), CReportFailure => Some OpFailed
    | OpRunning, CReportSuccess => Some OpSucceeded
    | (OpRunning | OpWaiting), CReportBlocked => Some OpBlocked
    | (OpStarting | OpRunning | OpWaiting | OpCancelling), CReportUncertain => Some OpUncertain
    | _, _ => None
    end in
  match next with Some s => State s | None => Rejected end.

(** What the harness needs of an implementation under test. *)
Class OperationSubject (S : Type) := {
  subject_state : S -> OperationState;
  execute : S -> OperationCommand -> S * Observation;
}.

(** The three ways [assert_operation_trace] reports a mismatch. *)
Inductive TraceMismatch :=
| InitialMismatch | SemanticMismatch (index : nat) | StateMismatch (index : nat).

Section trace_checker.
Context {S : Type} `{!OperationSubject S}.

Fixpoint assert_trace_from (subject : S) (expected : OperationState) (index : nat)
    (commands : list OperationCommand) : S * result TraceMismatch unit :=
  match commands with
  | [] => (subject, Ok tt)
  | command :: commands =>
      let expected_observation := model_step expected command in
      let '(subject, actual) := execute subject command in
      if negb (bool_decide (actual = expected_observation))
      then (subject, Err (SemanticMismatch index))
      else
        let expected := match expected_observation with
                        | State next => next | Rejected => expected end in
        if negb (bool_decide (subject_state subject = expected))
        then (subject, Err (StateMismatch index))
        else assert_trace_from subject expected (1 + index)%nat commands
  end.

Definition assert_operation_trace (subject : S) (commands : list OperationCommand) :
    S * result TraceMismatch unit :=
  if negb (bool_decide (subject_state subject = OpQueued)) then (subject, Err InitialMismatch)
  else assert_trace_from subject OpQueued 0 commands.
End trace_checker.

(** ** The store's helpers (store.rs) *)

Definition next_operation_state (state : OperationState) (action : OperationAction) :
    option OperationState :=
  match state, action with
  | OpQueued, BeginStart => Some OpStarting
  | OpStarting, ReportRunning | OpWaiting, Resume => Some OpRunning
  | OpRunning, Wait => Some OpWaiting
  | (OpQueued | OpStarting | OpRunning | OpWaiting), RequestCancel => Some OpCancelling
  | (OpQueued | OpCancelling), ReportCancelled => Some OpCancelled
  | (OpQueued | OpStarting | OpRunning | OpWaiting | OpCancelling), ReportFailure => Some OpFailed
  | OpRunning, ReportSuccess => Some OpSucceeded
  | (OpRunning | OpWaiting), ReportBlocked => Some OpBlocked
  | (OpStarting | OpRunning | OpWaiting | OpCancelling), ReportUncertain => Some OpUncertain
  | _, _ => None
  end.

Definition MAX_OPERATION_OUTCOME_BYTES : Z := 65536.
Definition MAX_OPERATION_REASON_BYTES : Z := 1024.

Inductive OperationTerminalOutcome :=
| OutSucceeded (result : BoundedBytes MAX_OPERATION_OUTCOME_BYTES)
| OutFailed (code : BoundedText 128) (detail : BoundedText MAX_OPERATION_REASON_BYTES)
| OutCancelled
| OutBlocked (reason : BoundedText MAX_OPERATION_REASON_BYTES)
| OutUncertain (reason : BoundedText MAX_OPERATION_REASON_BYTES).

Inductive PublicOperationOutcome :=
| PubSucceeded | PubFailed | PubCancelled | PubBlocked | PubUncertain.

Definition terminal_matches_state (state : OperationState) (outcome : OperationTerminalOutcome) : bool :=
  match state, outcome with
  | OpSucceeded, OutSucceeded _ | OpFailed, OutFailed _ _ | OpCancelled, OutCancelled
  | OpBlocked, OutBlocked _ | OpUncertain, OutUncertain _ => true
  | _, _ => false
  end.

Definition valid_terminal_outcome (state : OperationState)
    (outcome : option OperationTerminalOutcome) : bool :=
  match state, outcome with
  | OpSucceeded, Some (OutSucceeded _) | OpFailed, Some (OutFailed _ _)
  | OpCancelled, Some OutCancelled | OpBlocked, Some (OutBlocked _)
  | OpUncertain, Some (OutUncertain _) => true
  | _, _ => false
  end || (negb (is_terminal state) && match outcome with None => true | Some _ => false end).

Definition terminal_outcome_name (outcome : OperationTerminalOutcome) : string :=
  match outcome with
  | OutSucceeded _ => "succeeded"
  | OutFailed _ _ => "failed"
  | OutCancelled => "cancelled"
  | OutBlocked _ => "blocked"
  | OutUncertain _ => "uncertain"
  end.

Definition public_terminal_outcome (outcome : OperationTerminalOutcome) : PublicOperationOutcome :=
  match outcome with
  | OutSucceeded _ => PubSucceeded
  | OutFailed _ _ => PubFailed
  | OutCancelled => PubCancelled
  | OutBlocked _ => PubBlocked
  | OutUncertain _ => PubUncertain
  end.

Definition operation_state_name (state : OperationState) : string :=
  match state with
  | OpQueued => "queued" | OpStarting => "starting" | OpRunning => "running"
  | OpWaiting => "waiting" | OpCancelling => "cancelling" | OpSucceeded => "succeeded"
  | OpFailed => "failed" | OpCancelled => "cancelled" | OpBlocked => "blocked"
  | OpUncertain => "uncertain"
  end.

(** [StoreError::Corrupt] is the only error of the name decoders. *)
Inductive CorruptName := MkCorruptName.

Definition parse_operation_state (value : string) : result CorruptName OperationState :=
  if String.eqb value "queued" then Ok OpQueued
  else if String.eqb value "starting" then Ok OpStarting
  else if String.eqb value "running" then Ok OpRunning
  else if String.eqb value "waiting" then Ok OpWaiting
  else if String.eqb value "cancelling" then Ok OpCancelling
  else if String.eqb value "succeeded" then Ok OpSucceeded
  else if String.eqb value "failed" then Ok OpFailed
  else if String.eqb value "cancelled" then Ok OpCancelled
  else if String.eqb value "blocked" then Ok OpBlocked
  else if String.eqb value "uncertain" then Ok OpUncertain
  else Err MkCorruptName.

Definition operation_event_name (state : OperationState) : string :=
  match state with
  | OpQueued => "operation.queued" | OpStarting => "operation.starting"
  | OpRunning => "operation.running" | OpWaiting => "operation.waiting"
  | OpCancelling => "operation.cancelling" | OpSucceeded => "operation.succeeded"
  | OpFailed => "operation.failed" | OpCancelled => "operation.cancelled"
  | OpBlocked => "operation.blocked" | OpUncertain => "operation.uncertain"
  end.

(** ** Traces *)

(** The command the harness sends for an action of the domain. *)
Definition command_of (a : OperationAction) : OperationCommand :=
  match a with
  | BeginStart => CBeginStart | ReportRunning => CReportRunning | Wait => CWait
  | Resume => CResume | RequestCancel => CRequestCancel | ReportSuccess => CReportSuccess
  | ReportFailure => CReportFailure | ReportCancelled => CReportCancelled
  | ReportBlocked => CReportBlocked | ReportUncertain => CReportUncertain
  | ObserveIdle => CObserveIdle
  end.
Definition action_of (c : OperationCommand) : OperationAction :=
  match c with
  | CBeginStart => BeginStart | CReportRunning => ReportRunning | CWait => Wait
  | CResume => Resume | CRequestCancel => RequestCancel | CReportSuccess => ReportSuccess
  | CReportFailure => ReportFailure | CReportCancelled => ReportCancelled
  | CReportBlocked => ReportBlocked | CReportUncertain => ReportUncertain
  | CObserveIdle => ObserveIdle
  end.

(** The domain's operation as an implementation under test. *)
#[global] Instance Operation_subject : OperationSubject Operation := {|
  subject_state := op_state;
  execute self c :=
    let '(self, r) := Operation_apply self (action_of c) in
    (self, match r with Ok _ => State (op_state self) | Err _ => Rejected end);
|}.

(** The store's row, moved by [next_operation_state], as one too. *)
#[global] Instance Row_subject : OperationSubject OperationState := {|
  subject_state s := s;
  execute s c := match next_operation_state s (action_of c) with
                 | Some next => (next, State next) | None => (s, Rejected) end;
|}.

(** A subject is faithful when each step agrees with the model. *)
Definition faithful_step {S} `{!OperationSubject S} : Prop :=
  forall (s : S) c, let '(s', obs) := execute s c in
    obs = model_step (subject_state s) c /\
    subject_state s' = match obs with State next => next | Rejected => subject_state s end.

Lemma assert_trace_from_faithful {S} `{!OperationSubject S} (s : S) i cs :
  faithful_step (S := S) ->
  (assert_trace_from s (subject_state s) i cs).2 = Ok tt.
Proof.
  intros Hf. revert s i; induction cs as [|c cs IH]; intros s i; cbn; [done|].
  pose proof (Hf s c) as Hs. destruct (execute s c) as [s' obs]. destruct Hs as [-> Hst].
  rewrite bool_decide_true by done. cbn. rewrite <-Hst, bool_decide_true by done. apply IH.
Qed.

Lemma Operation_faithful : faithful_step (S := Operation).
Proof. intros [i p r []] []; cbn; done. Qed.
Lemma Row_faithful : faithful_step (S := OperationState).
Proof. intros [] []; cbn; done. Qed.

(** The operation after a list of actions, and what each call answered. *)
Fixpoint apply_all (op : Operation) (actions : list OperationAction) :
    Operation * list (result TransitionError unit) :=
  match actions with
  | [] => (op, [])
  | a :: actions =>
      let '(op, r) := Operation_apply op a in
      let '(op, rs) := apply_all op actions in (op, r :: rs)
  end.

Lemma Operation_apply_next op a :
  Operation_apply op a =
    match next_operation_state (op_state op) a with
    | Some next => (MkOperation (op_id op) (op_participant_id op) (op_request_id op) next, Ok tt)
    | None => (op, Err (MkTransitionError (op_state op) a))
    end.
Proof. destruct op as [i p r []], a; reflexivity. Qed.

Lemma next_terminal s a : is_terminal s = true -> next_operation_state s a = None.
Proof. by destruct s, a. Qed.

Lemma apply_all_terminal op actions :
  is_terminal (op_state op) = true ->
  apply_all op actions = (op, map (fun a => Err (MkTransitionError (op_state op) a)) actions).
Proof.
  intros Ht. induction actions as [|a actions IH]; [done|].
  cbn. rewrite Operation_apply_next, next_terminal by done. by rewrite IH.
Qed.

(** How far an execution got: the actions that must have been applied, in order,
    for the state to be reachable. *)
Definition required (s : OperationState) : list OperationAction :=
  match s with
  | OpStarting => [BeginStart]
  | OpRunning => [BeginStart; ReportRunning]
  | OpWaiting => [BeginStart; ReportRunning; Wait]
  | OpCancelling => [RequestCancel]
  | OpSucceeded => [BeginStart; ReportRunning; ReportSuccess]
  | OpFailed => [ReportFailure]
  | OpCancelled => [ReportCancelled]
  | OpBlocked => [BeginStart; ReportRunning; ReportBlocked]
  | OpUncertain => [ReportUncertain]
  | OpQueued => []
  end.

Lemma required_step s a s' pre :
  required s `sublist_of` pre -> next_operation_state s a = Some s' ->
  required s' `sublist_of` pre ++ [a].
Proof.
  intros Hpre Hn.
  assert (Hex : exists l, l `sublist_of` required s /\ required s' `sublist_of` l ++ [a]).
  { destruct s, a; cbn in Hn; simplify_eq; cbn;
      first [ exists []; split; [apply sublist_nil_l | cbn; by repeat constructor]
            | exists [BeginStart]; split; [by repeat constructor | cbn; by repeat constructor]
            | exists [BeginStart; ReportRunning]; split; [by repeat constructor | cbn; by repeat constructor] ]. }
  destruct Hex as (l & Hl & Hs'). transitivity (l ++ [a]); [done|].
  apply sublist_app; [by transitivity (required s) | done].
Qed.

Lemma required_reached op actions pre :
  required (op_state op) `sublist_of` pre ->
  required (op_state (apply_all op actions).1) `sublist_of` pre ++ actions.
Proof.
  revert op pre; induction actions as [|a actions IH]; intros op pre Hpre; cbn.
  { by rewrite app_nil_r. }
  rewrite Operation_apply_next. destruct (next_operation_state (op_state op) a) as [s'|] eqn:Hn.
  - specialize (IH (MkOperation (op_id op) (op_participant_id op) (op_request_id op) s') (pre ++ [a])).
    cbn in IH. rewrite <-app_assoc in IH. destruct (apply_all _ actions) as [op' rs]; cbn in *.
    apply IH. by eapply required_step.
  - specialize (IH op (pre ++ [a])). rewrite <-app_assoc in IH.
    destruct (apply_all op actions) as [op' rs]; cbn in *. apply IH.
    transitivity pre; [done|]. by apply sublist_inserts_r.
Qed.

Lemma apply_all_ids op actions :
  let op' := (apply_all op actions).1 in
  (op_id op', op_participant_id op', op_request_id op') =
  (op_id op, op_participant_id op, op_request_id op).
Proof.
  revert op; induction actions as [|a actions IH]; intros op; cbn; [done|].
  rewrite Operation_apply_next. destruct (next_operation_state _ _) as [s'|]; cbn.
  - specialize (IH (MkOperation (op_id op) (op_participant_id op) (op_request_id op) s')).
    by destruct (apply_all _ actions).
  - specialize (IH op). by destruct (apply_all op actions).
Qed.

(** ** Properties *)

(** C31: The three copies of the operation state machine agree on every history:
    for any command sequence, the conformance harness accepts both the domain's
    [Operation::apply] and the store's [next_operation_state] step by step. *)
Theorem operation_implementations_conform id p r commands :
  (assert_operation_trace (Operation_queued id p r) commands).2 = Ok tt /\
  (assert_operation_trace OpQueued commands).2 = Ok tt.
Proof.
  unfold assert_operation_trace; cbn [subject_state Operation_subject Row_subject].
  rewrite !bool_decide_true by done. cbn [negb]. split.
  - exact (assert_trace_from_faithful (Operation_queued id p r) 0 commands Operation_faithful).
  - exact (assert_trace_from_faithful OpQueued 0 commands Row_faithful).
Qed.

(** The life of an operation.  From [Operation::queued], after any history:
    its identity fields are unchanged; the state was reached through the actions it
    requires, in order (success and blocking only after start and running were
    reported); a terminal state rejects every further action and stays; a
    non-terminal state can still be failed; and observing idleness never moves it. *)
Theorem operation_lifecycle id p r actions :
  let op := (apply_all (Operation_queued id p r) actions).1 in
  (op_id op, op_participant_id op, op_request_id op) = (id, p, r) /\
  required (op_state op) `sublist_of` actions /\
  (is_terminal (op_state op) = true -> forall more,
     apply_all op more = (op, map (fun a => Err (MkTransitionError (op_state op) a)) more)) /\
  (is_terminal (op_state op) = false ->
     op_state (Operation_apply op ReportFailure).1 = OpFailed) /\
  (Operation_apply op ObserveIdle).1 = op.
Proof.
  intros op. split_and!.
  - apply (apply_all_ids (Operation_queued id p r) actions).
  - apply (required_reached (Operation_queued id p r) actions []). apply sublist_nil_l.
  - intros Ht more. by apply apply_all_terminal.
  - destruct op as [? ? ? []]; done.
  - destruct op as [? ? ? []]; done.
Qed.

(** The store records an outcome exactly with its state: a state and an
    optional outcome are accepted for writing when a terminal state carries the
    outcome of the same name and a non-terminal state none, which is also what
    loading checks; state names decode back to the state and to nothing else. *)
Theorem terminal_outcome_exact state outcome :
  (valid_terminal_outcome state outcome = true <->
   match outcome with
   | None => is_terminal state = false
   | Some o => terminal_outcome_name o = operation_state_name state
   end) /\
  valid_terminal_outcome state outcome =
    Bool.eqb (is_terminal state) (match outcome with Some _ => true | None => false end)
    && match outcome with Some o => terminal_matches_state state o | None => true end /\
  (forall name, parse_operation_state name = Ok state <-> name = operation_state_name state).
Proof.
  split_and!.
  - destruct state, outcome as [[]|]; cbn; done.
  - destruct state, outcome as [[]|]; reflexivity.
  - intros name. split.
    + unfold parse_operation_state. repeat case_match; intros ?; simplify_eq;
        by apply String.eqb_eq.
    + intros ->. by destruct state.
Qed.
