(* ===== verification/RecoveryTable.v ===== *)
(** * RecoveryTable: effect proofs, uncertainty resolutions and the recovery table

    Models crates/navigator-domain/src/recovery.rs and the store's normalization of
    durable states into it (crates/navigator-store-sqlite/src/store.rs:
    [recovery_launch_state], [recovery_operation_state], [recovery_effect_state]). *)
From S2P Require Import Prelude Scalars Session Text Operation.

(** ** Effect proofs *)

Definition MAX_EFFECT_PROOF_BYTES : Z := 16384.
Definition MAX_RESOLUTION_REASON_BYTES : Z := 1024.

Inductive EffectProofError := ZeroDigest | EmptyEvidence | DigestMismatch.
Inductive EffectProofKind := ExternalCommit | IdempotencyReceipt | EffectAbsent.
#[global] Instance EffectProofKind_eq_dec : EqDecision EffectProofKind.
Proof. solve_decision. Defined.

Record EffectProof := MkEffectProof {
  ep_kind : EffectProofKind;
  ep_digest : bytes;
  ep_evidence : BoundedBytes MAX_EFFECT_PROOF_BYTES;
}.

Record EffectProofWire := MkEffectProofWire {
  epw_kind : EffectProofKind;
  epw_digest : bytes;
  epw_evidence : BoundedBytes MAX_EFFECT_PROOF_BYTES;
}.

Section proofs.
Context `{!Sha256}.

Definition EffectProof_new (kind : EffectProofKind) (digest : bytes)
    (evidence : BoundedBytes MAX_EFFECT_PROOF_BYTES) : result EffectProofError EffectProof :=
  if forallb (fun b => b =? 0) digest then Err ZeroDigest
  else if bool_decide (as_slice evidence = []) then Err EmptyEvidence
  else if negb (bool_decide (digest = sha256 (as_slice evidence))) then Err DigestMismatch
  else Ok (MkEffectProof kind digest evidence).

Definition EffectProof_try_from (value : EffectProofWire) : result EffectProofError EffectProof :=
  EffectProof_new (epw_kind value) (epw_digest value) (epw_evidence value).
Definition EffectProofWire_from (value : EffectProof) : EffectProofWire :=
  MkEffectProofWire (ep_kind value) (ep_digest value) (ep_evidence value).

(** A proof holds non-empty evidence and its non-zero SHA-256. *)
Definition EffectProof_wf (p : EffectProof) : Prop :=
  as_slice (ep_evidence p) <> [] /\ ep_digest p = sha256 (as_slice (ep_evidence p)) /\
  ~ Forall (fun b => b = 0) (ep_digest p).

#[global] Instance EffectProof_validated : Validated EffectProofWire EffectProof EffectProofError :=
  {| validate := EffectProof_try_from; wire := EffectProofWire_from; wf := EffectProof_wf |}.

Lemma forallb_zero (l : bytes) : forallb (fun b => b =? 0) l = true <-> Forall (fun b => b = 0) l.
Proof.
  rewrite forallb_forall, Forall_forall. setoid_rewrite list_elem_of_In.
  setoid_rewrite Z.eqb_eq. done.
Qed.

#[global] Instance EffectProof_laws : ValidatedLaws EffectProofWire EffectProof EffectProofError.
Proof.
  split; unfold validate, wire, wf, EffectProof_validated, EffectProof_try_from,
    EffectProof_new, EffectProof_wf.
  - intros [k d e] t Hv; cbn in Hv.
    case_if_in Hv as E1; [done|]. case_if_in Hv as E2; [done|]. case_if_in Hv as E3; [done|].
    injection Hv as <-. bool_norm. cbn. split_and!; [done..| |done].
    rewrite <-forallb_zero, E1. done.
  - intros [k d e] (Hne & Hd & Hz); cbn in *.
    case_if as E1; [by apply forallb_zero in E1|].
    rewrite (bool_decide_false (as_slice e = [])) by done.
    by rewrite bool_decide_true.
Qed.
End proofs.

Inductive UncertaintyResolution :=
| ConfirmCompleted (proof : EffectProof)
| DoNotRetry
| RetryWithEffectProof (proof : EffectProof).

Record ResolveUncertaintyDecision := MkResolve {
  ru_session_id : SessionId;
  ru_operation_id : OperationId;
  ru_reason : BoundedText MAX_RESOLUTION_REASON_BYTES;
  ru_resolution : UncertaintyResolution;
}.

Inductive EmptyResolutionReason := MkEmptyResolutionReason.

Definition ResolveUncertaintyDecision_new (session_id : SessionId) (operation_id : OperationId)
    (reason : BoundedText MAX_RESOLUTION_REASON_BYTES) (resolution : UncertaintyResolution) :
    result EmptyResolutionReason ResolveUncertaintyDecision :=
  if blank (as_str reason) then Err MkEmptyResolutionReason
  else Ok (MkResolve session_id operation_id reason resolution).

(** ** The recovery table *)

Inductive EffectClass := ReadOnly | Idempotent | Transactional | NonIdempotent | UnknownClass.
Inductive EffectPhase := PhaseReserved | PhaseStarted | PhaseCompleted.
#[global] Instance EffectClass_eq_dec : EqDecision EffectClass.
Proof. solve_decision. Defined.

Inductive RecoveryClass :=
| SafeToContinue | SafeToRedeliver | ExternallyAlive | EffectUncertain | CleanupRequired | Terminal.
#[global] Instance RecoveryClass_eq_dec : EqDecision RecoveryClass.
Proof. solve_decision. Defined.

Inductive RecoveryState :=
| SessionOpen | ParticipantRegistered
| InstancePrepared | InstanceAttached | InstanceReady | InstanceStopping
| InstanceCleanupRequired | InstanceStopped
| OperationQueued | OperationStarting | OperationRunning | OperationWaiting
| OperationCancelling | OperationTerminal
| MessageQueued | MessageRetryScheduled | MessageRetryDeferred | MessageLeased
| MessageLeaseActive | MessageAcceptancePending | MessageAcceptanceUnknown
| MessageAccepted | MessageUncertain | MessageDeadLetter
| EffectReserved | EffectStartedRetryable | EffectStartedUnsafe | EffectCompleted.
#[global] Instance RecoveryState_eq_dec : EqDecision RecoveryState.
Proof. solve_decision. Defined.

Inductive LiveObservation :=
| NotApplicable | NotInspected | Absent | SameAuthenticatedInstance
| SameUnauthenticatedInstance | DifferentInstance | Unreachable.
#[global] Instance LiveObservation_eq_dec : EqDecision LiveObservation.
Proof. solve_decision. Defined.

Inductive RecoveryAction :=
| Continue | RedeliverExactMessage | ReconnectExactInstance | ScheduleExistingOperation
| CleanupVerifiedResource | AwaitResolution | NoAction.
#[global] Instance RecoveryAction_eq_dec : EqDecision RecoveryAction.
Proof. solve_decision. Defined.

Inductive RecoveryReason :=
| DurableWorkNotStarted | ExactMessageIsDeduplicated | DeclaredEffectIsRetryable
| ExactAuthenticatedInstanceObserved | ExternalEffectMayHaveOccurred
| StaleVerifiedResourceObserved | DurableOutcomeExists | LiveIdentityCannotBeProven
| EligibilityWindowNotReached.
#[global] Instance RecoveryReason_eq_dec : EqDecision RecoveryReason.
Proof. solve_decision. Defined.

Definition RecoveryReason_as_str (r : RecoveryReason) : string :=
  match r with
  | DurableWorkNotStarted => "durable_work_not_started"
  | ExactMessageIsDeduplicated => "exact_message_is_deduplicated"
  | DeclaredEffectIsRetryable => "declared_effect_is_retryable"
  | ExactAuthenticatedInstanceObserved => "exact_authenticated_instance_observed"
  | ExternalEffectMayHaveOccurred => "external_effect_may_have_occurred"
  | StaleVerifiedResourceObserved => "stale_verified_resource_observed"
  | DurableOutcomeExists => "durable_outcome_exists"
  | LiveIdentityCannotBeProven => "live_identity_cannot_be_proven"
  | EligibilityWindowNotReached => "eligibility_window_not_reached"
  end.

Record RecoveryDecision := MkRecoveryDecision {
  rd_class : RecoveryClass;
  rd_reason : RecoveryReason;
  rd_action : RecoveryAction;
}.
#[global] Instance RecoveryDecision_eq_dec : EqDecision RecoveryDecision.
Proof. solve_decision. Defined.

Inductive RecoveryContradiction :=
| InspectionRequired | UnexpectedLiveObservation | TerminalStateHasLiveWork.
#[global] Instance RecoveryContradiction_eq_dec : EqDecision RecoveryContradiction.
Proof. solve_decision. Defined.

Definition terminal : RecoveryDecision := MkRecoveryDecision Terminal DurableOutcomeExists NoAction.

(** The arms of the source, in order; the pairs of an arm that an earlier arm has
    already taken are left out of it. *)
Definition classify_recovery (state : RecoveryState) (observation : LiveObservation) :
    result RecoveryContradiction RecoveryDecision :=
  match state, observation with
  | (InstanceAttached | InstanceReady), SameAuthenticatedInstance =>
      Ok (MkRecoveryDecision ExternallyAlive ExactAuthenticatedInstanceObserved ReconnectExactInstance)
  | (InstanceStopping | InstanceCleanupRequired),
      (SameAuthenticatedInstance | SameUnauthenticatedInstance) =>
      Ok (MkRecoveryDecision CleanupRequired StaleVerifiedResourceObserved CleanupVerifiedResource)
  | InstancePrepared, Absent =>
      Ok (MkRecoveryDecision SafeToContinue DurableWorkNotStarted Continue)
  | (InstanceAttached | InstanceReady | InstanceStopping | InstanceCleanupRequired), Absent =>
      Ok (MkRecoveryDecision CleanupRequired StaleVerifiedResourceObserved CleanupVerifiedResource)
  | (InstancePrepared | InstanceAttached | InstanceReady | InstanceStopping
     | InstanceCleanupRequired), NotInspected => Err InspectionRequired
  | (InstancePrepared | InstanceAttached | InstanceReady | InstanceStopping
     | InstanceCleanupRequired), (DifferentInstance | Unreachable)
  | (InstancePrepared | InstanceAttached | InstanceReady), SameUnauthenticatedInstance =>
      Ok (MkRecoveryDecision EffectUncertain LiveIdentityCannotBeProven AwaitResolution)
  | InstanceStopped, (SameAuthenticatedInstance | SameUnauthenticatedInstance) =>
      Err TerminalStateHasLiveWork
  | InstanceStopped, (Absent | NotApplicable) => Ok terminal
  | OperationQueued, NotApplicable =>
      Ok (MkRecoveryDecision SafeToContinue DurableWorkNotStarted ScheduleExistingOperation)
  | (OperationStarting | OperationRunning | OperationWaiting | OperationCancelling), NotApplicable =>
      Ok (MkRecoveryDecision EffectUncertain ExternalEffectMayHaveOccurred AwaitResolution)
  | OperationTerminal, NotApplicable => Ok terminal
  | (MessageQueued | MessageRetryScheduled | MessageLeased), NotApplicable =>
      Ok (MkRecoveryDecision SafeToRedeliver ExactMessageIsDeduplicated RedeliverExactMessage)
  | (MessageRetryDeferred | MessageLeaseActive), NotApplicable =>
      Ok (MkRecoveryDecision SafeToContinue EligibilityWindowNotReached Continue)
  | (MessageAcceptancePending | MessageAcceptanceUnknown | MessageUncertain), NotApplicable =>
      Ok (MkRecoveryDecision EffectUncertain ExternalEffectMayHaveOccurred AwaitResolution)
  | (MessageAccepted | MessageDeadLetter), NotApplicable => Ok terminal
  | EffectReserved, NotApplicable =>
      Ok (MkRecoveryDecision SafeToContinue DurableWorkNotStarted Continue)
  | EffectStartedRetryable, NotApplicable =>
      Ok (MkRecoveryDecision SafeToContinue DeclaredEffectIsRetryable Continue)
  | EffectStartedUnsafe, NotApplicable =>
      Ok (MkRecoveryDecision EffectUncertain ExternalEffectMayHaveOccurred AwaitResolution)
  | EffectCompleted, NotApplicable => Ok terminal
  | (SessionOpen | ParticipantRegistered), NotApplicable =>
      Ok (MkRecoveryDecision SafeToContinue DurableWorkNotStarted Continue)
  | _, _ => Err UnexpectedLiveObservation
  end.

(** [RecoveryClass::for_effect]. *)
Definition for_effect (class : EffectClass) (phase : EffectPhase) : RecoveryClass :=
  match phase with
  | PhaseCompleted => Terminal
  | PhaseReserved => SafeToContinue
  | PhaseStarted =>
      match class with
      | ReadOnly | Idempotent => SafeToContinue
      | Transactional | NonIdempotent | UnknownClass => EffectUncertain
      end
  end.

(** ** The store's normalization (store.rs) *)

Inductive LaunchState :=
| LPrepared | LAttached | LReady | LStopping | LStopped | LCleanupRequired.
#[global] Instance LaunchState_eq_dec : EqDecision LaunchState.
Proof. solve_decision. Defined.

Inductive EffectJournalPhase :=
| JReserved | JStarted | JUncertain | JCompleted | JFailed | JRetryAuthorized.
#[global] Instance EffectJournalPhase_eq_dec : EqDecision EffectJournalPhase.
Proof. solve_decision. Defined.

Definition recovery_launch_state (value : LaunchState) : RecoveryState :=
  match value with
  | LPrepared => InstancePrepared
  | LAttached => InstanceAttached
  | LReady => InstanceReady
  | LStopping => InstanceStopping
  | LStopped => InstanceStopped
  | LCleanupRequired => InstanceCleanupRequired
  end.

Definition recovery_operation_state (value : OperationState) : RecoveryState :=
  match value with
  | OpQueued => OperationQueued
  | OpStarting => OperationStarting
  | OpRunning => OperationRunning
  | OpWaiting => OperationWaiting
  | OpCancelling => OperationCancelling
  | _ => OperationTerminal
  end.

Definition recovery_effect_state (value : EffectJournalPhase) (class : EffectClass) : RecoveryState :=
  match value with
  | JReserved => EffectReserved
  | JRetryAuthorized => EffectStartedRetryable
  | JStarted =>
      match class with
      | ReadOnly | Idempotent => EffectStartedRetryable
      | _ => EffectStartedUnsafe
      end
  | JUncertain => EffectStartedUnsafe
  | JCompleted | JFailed => EffectCompleted
  end.

(** The journal phases that [EffectPhase] abstracts. *)
Definition effect_phase_of (value : EffectJournalPhase) : option EffectPhase :=
  match value with
  | JReserved => Some PhaseReserved
  | JStarted => Some PhaseStarted
  | JCompleted | JFailed => Some PhaseCompleted
  | JUncertain | JRetryAuthorized => None
  end.

(** ** Specification *)

(** An action that touches the outside world. *)
Definition external_action (a : RecoveryAction) : bool :=
  match a with
  | RedeliverExactMessage | ReconnectExactInstance | ScheduleExistingOperation
  | CleanupVerifiedResource => true
  | Continue | AwaitResolution | NoAction => false
  end.

(** What durable state and live evidence justify each external action. *)
Definition justified (state : RecoveryState) (obs : LiveObservation) (a : RecoveryAction) : Prop :=
  match a with
  | ScheduleExistingOperation => state = OperationQueued
  | RedeliverExactMessage =>
      state = MessageQueued \/ state = MessageRetryScheduled \/ state = MessageLeased
  | ReconnectExactInstance =>
      obs = SameAuthenticatedInstance /\ (state = InstanceAttached \/ state = InstanceReady)
  | CleanupVerifiedResource =>
      (obs = Absent /\ (state = InstanceAttached \/ state = InstanceReady)) \/
      ((obs = Absent \/ obs = SameAuthenticatedInstance \/ obs = SameUnauthenticatedInstance) /\
       (state = InstanceStopping \/ state = InstanceCleanupRequired))
  | Continue | AwaitResolution | NoAction => True
  end.

(** ** Properties *)

(** Recovery fails closed.  For every durable state and live observation the
    table either reports a contradiction or decides so that: uncertainty always and
    only awaits resolution; a terminal decision acts on nothing; an external action
    is taken only in the states and with the live evidence that justify it; work
    whose external effect may have happened (starting or later operations, messages
    awaiting acceptance, unsafe started effects) and instances whose identity is
    not proven are never called safe; and an instance that was not inspected is
    never classified. *)
Theorem recovery_fails_closed state obs :
  match classify_recovery state obs with
  | Err InspectionRequired => obs = NotInspected
  | Err TerminalStateHasLiveWork => state = InstanceStopped
  | Err UnexpectedLiveObservation => True
  | Ok d =>
      obs <> NotInspected /\
      (rd_class d = EffectUncertain <-> rd_action d = AwaitResolution) /\
      (rd_class d = Terminal <-> rd_action d = NoAction) /\
      justified state obs (rd_action d) /\
      (state ∈ [OperationStarting; OperationRunning; OperationWaiting; OperationCancelling;
                MessageAcceptancePending; MessageAcceptanceUnknown; MessageUncertain;
                EffectStartedUnsafe] \/ obs = DifferentInstance \/ obs = Unreachable ->
       rd_class d = EffectUncertain) /\
      (obs = SameUnauthenticatedInstance ->
       rd_class d = EffectUncertain \/ rd_class d = CleanupRequired)
  end.
Proof. destruct state, obs; cbn; split_and?; try done; (split; done) || set_solver. Qed.

(** The two classifications of effects agree: for every journal phase the
    domain's [EffectPhase] names, the class the table gives the store's normalized
    state is [RecoveryClass::for_effect]; an uncertain journal entry is classified
    uncertain whatever its declared class, and only an explicitly authorized retry
    makes it continue. *)
Theorem effect_classification_agrees phase class :
  (forall p, effect_phase_of phase = Some p ->
     exists d, classify_recovery (recovery_effect_state phase class) NotApplicable = Ok d /\
               rd_class d = for_effect class p) /\
  (phase = JUncertain ->
     classify_recovery (recovery_effect_state phase class) NotApplicable =
     Ok (MkRecoveryDecision EffectUncertain ExternalEffectMayHaveOccurred AwaitResolution)) /\
  (phase = JRetryAuthorized ->
     classify_recovery (recovery_effect_state phase class) NotApplicable =
     Ok (MkRecoveryDecision SafeToContinue DeclaredEffectIsRetryable Continue)).
Proof. destruct phase, class; cbn; naive_solver. Qed.

Lemma effect_classification_agrees_witness :
  exists d, classify_recovery (recovery_effect_state JStarted Transactional) NotApplicable = Ok d /\
            rd_class d = EffectUncertain.
Proof. apply (proj1 (effect_classification_agrees JStarted Transactional) PhaseStarted). reflexivity. Defined.

(** An effect proof is sound evidence: whatever the constructor or the decoder
    accepts holds non-empty evidence whose SHA-256 is the recorded, non-zero
    digest, and re-encoding and decoding it gives the same proof back; all other
    inputs are rejected. *)
Theorem effect_proof_exact `{!Sha256} (w : EffectProofWire) :
  (forall p, EffectProof_try_from w = Ok p <-> EffectProof_wf p /\ EffectProofWire_from p = w) /\
  (forall p, EffectProof_try_from w = Ok p ->
     EffectProof_try_from (EffectProofWire_from p) = Ok p).
Proof.
  split; intros p.
  - exact (validate_Ok_iff (T := EffectProof) w p).
  - exact (validate_roundtrip (T := EffectProof) w p).
Qed.

Lemma effect_proof_exact_witness :
  let H : Sha256 := fun b => b in
  let p := MkEffectProof ExternalCommit [7] (MkBoundedBytes [7]) in
  EffectProof_try_from (EffectProofWire_from p) = Ok p.
Proof.
  intros H p. apply (effect_proof_exact (MkEffectProofWire ExternalCommit [7] (MkBoundedBytes [7]))).
  reflexivity.
Defined.
