(* ===== verification/Reconciler.v ===== *)
(** * Reconciler: recovery of a session after a restart

    Models crates/navigator-core/src/recovery.rs: [Reconciler::classify_only],
    [execute_actions], [reconcile] and [planned_status].  The backend (store and
    drivers) is the trait [RecoveryBackend]: a class whose methods step an
    arbitrary backend state and may fail.  Every call is also appended to a log, so
    that theorems can speak about which calls were made and in which order. *)
From S2P Require Import Prelude Scalars Session Operation RecoveryTable.

Inductive RecoveryEntity :=
| ESession (id : SessionId)
| EParticipant (id : ParticipantId)
| EInstance (id : LaunchAttemptId)
| EOperation (operation_id : OperationId) (input_message_id : MessageId)
| EMessage (id : MessageId)
| EEffect (id : RequestId).
#[global] Instance RecoveryEntity_eq_dec : EqDecision RecoveryEntity.
Proof. solve_decision. Defined.

Record RecoveryCandidate := MkCandidate {
  cand_ordinal : Z;
  cand_session_id : SessionId;
  cand_entity : RecoveryEntity;
  cand_state : RecoveryState;
}.

Record ClassifiedRecovery := MkClassified {
  cl_entity : RecoveryEntity;
  cl_state : RecoveryState;
  cl_observation : LiveObservation;
  cl_decision : RecoveryDecision;
}.
#[global] Instance ClassifiedRecovery_eq_dec : EqDecision ClassifiedRecovery.
Proof. solve_decision. Defined.

(** ** The backend *)

Class RecoveryBackend (St E : Type) := {
  acquire_epoch : SessionId -> RequestId -> St -> St * result E FencingEpoch;
  unfinished : SessionId -> FencingEpoch -> St -> St * result E (list RecoveryCandidate);
  inspect_instance : LaunchAttemptId -> FencingEpoch -> St -> St * result E LiveObservation;
  record_classifications : FencingEpoch -> RequestId -> list ClassifiedRecovery -> St -> St * result E unit;
  schedule_existing_operation : FencingEpoch -> OperationId -> MessageId -> St -> St * result E unit;
  redeliver_exact_message : FencingEpoch -> MessageId -> St -> St * result E bool;
  reconnect_exact_instance : FencingEpoch -> LaunchAttemptId -> St -> St * result E bool;
  cleanup_verified_instance : FencingEpoch -> LaunchAttemptId -> St -> St * result E bool;
}.

Inductive Call :=
| CallAcquire (session_id : SessionId) (request_id : RequestId)
| CallUnfinished (session_id : SessionId) (epoch : FencingEpoch)
| CallInspect (attempt_id : LaunchAttemptId) (epoch : FencingEpoch)
| CallRecord (epoch : FencingEpoch) (request_id : RequestId) (classified : list ClassifiedRecovery)
| CallSchedule (epoch : FencingEpoch) (operation_id : OperationId) (message_id : MessageId)
| CallRedeliver (epoch : FencingEpoch) (message_id : MessageId)
| CallReconnect (epoch : FencingEpoch) (attempt_id : LaunchAttemptId)
| CallCleanup (epoch : FencingEpoch) (attempt_id : LaunchAttemptId).

Inductive ReconcileError (E : Type) :=
| Backend (e : E)
| Contradiction (c : RecoveryContradiction)
| ActionEntityMismatch
| InventoryOrder
| DuplicateEntity
| CrossSessionEntity.
Arguments Backend {E} e.
Arguments Contradiction {E} c.
Arguments ActionEntityMismatch {E}.
Arguments InventoryOrder {E}.
Arguments DuplicateEntity {E}.
Arguments CrossSessionEntity {E}.

Inductive RecoveryExecutionStatus := Executed | NoOp | Pending | BlockedByUncertainty | BlockedByCleanup.
#[global] Instance RecoveryExecutionStatus_eq_dec : EqDecision RecoveryExecutionStatus.
Proof. solve_decision. Defined.

Record RecoveryExecution := MkExecution {
  ex_classification : ClassifiedRecovery;
  ex_status : RecoveryExecutionStatus;
}.

Record Reconciliation := MkReconciliation {
  r_epoch : FencingEpoch;
  r_classifications : list ClassifiedRecovery;
  r_actions : list ClassifiedRecovery;
  r_executions : list RecoveryExecution;
}.

Record RecoveryRunIds := MkRunIds {
  ownership_request_id : RequestId;
  classification_request_id : RequestId;
}.

(** ** Effects: backend state, call log and errors *)

Record World (St : Type) := MkWorld { w_backend : St; w_calls : list Call }.
Arguments MkWorld {St} _ _.
Arguments w_backend {St} _.
Arguments w_calls {St} _.

Definition Run (St E A : Type) : Type := World St -> World St * result (ReconcileError E) A.
#[global] Instance Run_ret St E : MRet (Run St E) := fun A a w => (w, Ok a).
#[global] Instance Run_bind St E : MBind (Run St E) := fun A B f m w =>
  let '(w, r) := m w in
  match r with Ok a => f a w | Err e => (w, Err e) end.

Definition fail {St E A} (e : ReconcileError E) : Run St E A := fun w => (w, Err e).

(** A backend call: logged, and its error wrapped by [ReconcileError::Backend]. *)
Definition call {St E A} (c : Call) (f : St -> St * result E A) : Run St E A := fun w =>
  let '(s, r) := f (w_backend w) in (MkWorld s (w_calls w ++ [c]), map_err Backend r).

(** ** The reconciler *)

Definition planned_status (item : ClassifiedRecovery) (has_uncertainty has_cleanup : bool) :
    RecoveryExecutionStatus :=
  match rd_action (cl_decision item) with
  | NoAction | Continue => NoOp
  | AwaitResolution => Pending
  | action =>
      if has_uncertainty then BlockedByUncertainty
      else match action with
           | ScheduleExistingOperation | RedeliverExactMessage | ReconnectExactInstance =>
               if has_cleanup then BlockedByCleanup else Pending
           | _ => Pending
           end
  end.

Definition has_class (class : RecoveryClass) (classified : list ClassifiedRecovery) : bool :=
  existsb (fun item => bool_decide (rd_class (cl_decision item) = class)) classified.

Section reconciler.
Context {St E : Type} `{!RecoveryBackend St E}.

(** The validation loop over the inventory. *)
Fixpoint check_inventory (session_id : SessionId) (seen : list RecoveryEntity) (previous : Z)
    (candidates : list RecoveryCandidate) : result (ReconcileError E) unit :=
  match candidates with
  | [] => Ok tt
  | candidate :: candidates =>
      if negb (bool_decide (cand_session_id candidate = session_id)) then Err CrossSessionEntity
      else if (cand_ordinal candidate =? 0) || (cand_ordinal candidate <=? previous)
      then Err InventoryOrder
      else if bool_decide (cand_entity candidate ∈ seen) then Err DuplicateEntity
      else check_inventory session_id (cand_entity candidate :: seen) (cand_ordinal candidate) candidates
  end.

(** The classification loop. *)
Fixpoint classify_all (epoch : FencingEpoch) (candidates : list RecoveryCandidate) :
    Run St E (list ClassifiedRecovery) :=
  match candidates with
  | [] => mret []
  | candidate :: candidates =>
      observation ← match cand_entity candidate with
                    | EInstance attempt_id =>
                        call (CallInspect attempt_id epoch) (inspect_instance attempt_id epoch)
                    | _ => mret NotApplicable
                    end;
      decision ← (fun w => (w, map_err Contradiction (classify_recovery (cand_state candidate) observation)));
      rest ← classify_all epoch candidates;
      mret (MkClassified (cand_entity candidate) (cand_state candidate) observation decision :: rest)
  end.

Definition acquire_only (session_id : SessionId) (request_id : RequestId) : Run St E FencingEpoch :=
  call (CallAcquire session_id request_id) (acquire_epoch session_id request_id).

Definition classify_only (session_id : SessionId) (ids : RecoveryRunIds) : Run St E Reconciliation :=
  epoch ← call (CallAcquire session_id (ownership_request_id ids))
            (acquire_epoch session_id (ownership_request_id ids));
  candidates ← call (CallUnfinished session_id epoch) (unfinished session_id epoch);
  _ ← (fun w => (w, check_inventory session_id [] 0 candidates));
  classified ← classify_all epoch candidates;
  _ ← call (CallRecord epoch (classification_request_id ids) classified)
        (record_classifications epoch (classification_request_id ids) classified);
  let has_uncertainty := has_class EffectUncertain classified in
  let has_cleanup := has_class CleanupRequired classified in
  let actions := filter (fun item =>
    rd_action (cl_decision item) <> NoAction /\ rd_action (cl_decision item) <> AwaitResolution)
    classified in
  let executions := (fun item =>
    MkExecution item (planned_status item has_uncertainty has_cleanup)) <$> classified in
  mret (MkReconciliation epoch classified actions executions).

(** One iteration of [execute_actions] for a pending item: whether it ran. *)
Definition execute_item (epoch : FencingEpoch) (item : ClassifiedRecovery) : Run St E bool :=
  match rd_action (cl_decision item), cl_entity item with
  | ScheduleExistingOperation, EOperation operation_id input_message_id =>
      _ ← call (CallSchedule epoch operation_id input_message_id)
            (schedule_existing_operation epoch operation_id input_message_id);
      mret true
  | RedeliverExactMessage, EMessage message_id =>
      call (CallRedeliver epoch message_id) (redeliver_exact_message epoch message_id)
  | ReconnectExactInstance, EInstance attempt_id =>
      call (CallReconnect epoch attempt_id) (reconnect_exact_instance epoch attempt_id)
  | CleanupVerifiedResource, EInstance attempt_id =>
      call (CallCleanup epoch attempt_id) (cleanup_verified_instance epoch attempt_id)
  | (Continue | NoAction), _ => mret true
  | AwaitResolution, _ => mret false
  | _, _ => fail ActionEntityMismatch
  end.

(** The loop updates the executions in place: on an error the updated prefix
    remains, which the first component returns. *)
Fixpoint execute_all (epoch : FencingEpoch) (executions : list RecoveryExecution) (w : World St) :
    World St * (list RecoveryExecution * result (ReconcileError E) unit) :=
  match executions with
  | [] => (w, ([], Ok tt))
  | e :: rest =>
      if negb (bool_decide (ex_status e = Pending)) then
        let '(w, (rest, r)) := execute_all epoch rest w in (w, (e :: rest, r))
      else
        match execute_item epoch (ex_classification e) w with
        | (w, Err err) => (w, (e :: rest, Err err))
        | (w, Ok executed) =>
            let e := MkExecution (ex_classification e) (if executed then Executed else Pending) in
            let '(w, (rest, r)) := execute_all epoch rest w in (w, (e :: rest, r))
        end
  end.

Definition execute_actions (rec : Reconciliation) (w : World St) :
    World St * (Reconciliation * result (ReconcileError E) unit) :=
  let '(w, (es, r)) := execute_all (r_epoch rec) (r_executions rec) w in
  (w, (MkReconciliation (r_epoch rec) (r_classifications rec) (r_actions rec) es, r)).

(** [execute_actions(&mut reconciliation).await?; Ok(reconciliation)]. *)
Definition executed (rec : Reconciliation) : Run St E Reconciliation := fun w =>
  match execute_actions rec w with
  | (w, (rec, Ok _)) => (w, Ok rec)
  | (w, (_, Err e)) => (w, Err e)
  end.

Definition reconcile (session_id : SessionId) (ids : RecoveryRunIds) : Run St E Reconciliation :=
  reconciliation ← classify_only session_id ids; executed reconciliation.

Definition schedule_exact_operation (epoch : FencingEpoch) (operation_id : OperationId)
    (input_message_id : MessageId) : Run St E unit :=
  call (CallSchedule epoch operation_id input_message_id)
    (schedule_existing_operation epoch operation_id input_message_id).
End reconciler.

(** ** Specification *)

(** The call an item's action makes. *)
Definition item_call (epoch : FencingEpoch) (item : ClassifiedRecovery) : option Call :=
  match rd_action (cl_decision item), cl_entity item with
  | ScheduleExistingOperation, EOperation o m => Some (CallSchedule epoch o m)
  | RedeliverExactMessage, EMessage m => Some (CallRedeliver epoch m)
  | ReconnectExactInstance, EInstance a => Some (CallReconnect epoch a)
  | CleanupVerifiedResource, EInstance a => Some (CallCleanup epoch a)
  | _, _ => None
  end.

Definition inspect_call (epoch : FencingEpoch) (c : RecoveryCandidate) : option Call :=
  match cand_entity c with EInstance a => Some (CallInspect a epoch) | _ => None end.

Definition is_cleanup (item : ClassifiedRecovery) : Prop :=
  rd_action (cl_decision item) = CleanupVerifiedResource.
#[global] Instance is_cleanup_dec item : Decision (is_cleanup item).
Proof. unfold is_cleanup. apply _. Defined.
#[global] Typeclasses Opaque is_cleanup.

(** The safety barriers: nothing while anything is uncertain, only cleanup while
    anything needs cleanup. *)
Definition allowed_calls (epoch : FencingEpoch) (cls : list ClassifiedRecovery) : list Call :=
  if has_class EffectUncertain cls then []
  else if has_class CleanupRequired cls then omap (item_call epoch) (filter is_cleanup cls)
  else omap (item_call epoch) cls.

(** [k] is the classification of the candidate [c]. *)
Definition classifies (c : RecoveryCandidate) (k : ClassifiedRecovery) : Prop :=
  cl_entity k = cand_entity c /\ cl_state k = cand_state c /\
  classify_recovery (cl_state k) (cl_observation k) = Ok (cl_decision k) /\
  (cl_observation k <> NotApplicable -> exists a, cl_entity k = EInstance a).

(** An inventory in stable order: one session, positive increasing ordinals, no
    entity twice. *)
Definition inventory_ok (session_id : SessionId) (cands : list RecoveryCandidate) : Prop :=
  Forall (fun c => cand_session_id c = session_id) cands /\
  StronglySorted Z.lt (0 :: (cand_ordinal <$> cands)) /\
  NoDup (cand_entity <$> cands).

(** The states a store reports for each kind of entity. *)
Definition typed (c : RecoveryCandidate) : Prop :=
  match cand_entity c with
  | ESession _ => cand_state c = SessionOpen
  | EParticipant _ => cand_state c = ParticipantRegistered
  | EInstance _ => exists s, cand_state c = recovery_launch_state s
  | EOperation _ _ => exists s, cand_state c = recovery_operation_state s
  | EMessage _ => cand_state c ∈ [MessageQueued; MessageRetryScheduled; MessageRetryDeferred;
      MessageLeased; MessageLeaseActive; MessageAcceptancePending; MessageAcceptanceUnknown;
      MessageAccepted; MessageUncertain; MessageDeadLetter]
  | EEffect _ => exists p k, cand_state c = recovery_effect_state p k
  end.

(** ** Lemmas *)

Section reconciler_lemmas.
Context {St E : Type} `{!RecoveryBackend St E}.

Lemma call_spec {A} c (f : St -> St * result E A) w w' (r : result (ReconcileError E) A) :
  call c f w = (w', r) ->
  w_calls w' = w_calls w ++ [c] /\ (forall e, r = Err e -> exists b, e = Backend b).
Proof.
  unfold call. destruct (f (w_backend w)) as [s [a|b]]; intros [= <- <-]; cbn; naive_solver.
Qed.

Lemma check_inventory_spec sid seen prev cands :
  0 <= prev ->
  check_inventory (E := E) sid seen prev cands = Ok tt <->
  Forall (fun c => cand_session_id c = sid) cands /\
  StronglySorted Z.lt (prev :: (cand_ordinal <$> cands)) /\
  NoDup (cand_entity <$> cands) /\ (forall c, c ∈ cands -> cand_entity c ∉ seen).
Proof.
  revert seen prev; induction cands as [|c cands IH]; intros seen prev Hprev; cbn [check_inventory].
  { split; [intros _ | done]. split_and!; [constructor | repeat constructor | constructor | set_solver]. }
  rewrite fmap_cons, fmap_cons, Forall_cons, NoDup_cons.
  case_if as E1; bool_norm; [naive_solver|].
  case_if as E2.
  { split; [done|]. intros (_ & [_ Hs%Forall_cons_1]%StronglySorted_inv & _).
    apply orb_true_iff in E2. rewrite Z.eqb_eq, Z.leb_le in E2. lia. }
  bool_norm. case_if as E3; bool_norm; [set_solver|].
  rewrite IH by lia. split.
  - intros (? & Hs & ? & Hd). split_and!; auto.
    + constructor; [done|]. constructor; [lia|]. apply StronglySorted_inv in Hs as [_ Hs].
      eapply Forall_impl; [exact Hs|]. cbn. lia.
    + intros (c' & Heq & Hin)%list_elem_of_fmap. specialize (Hd c' Hin). set_solver.
    + intros c' [->|Hin]%elem_of_cons; [done|]. specialize (Hd c' Hin). set_solver.
  - intros ([_ ?] & [Hs _]%StronglySorted_inv & [Hn ?] & Hd). split_and!; auto.
    intros c' Hin. pose proof (Hd c'). rewrite elem_of_cons.
    intros [Heq|?]; [|set_solver]. apply Hn. rewrite <-Heq. by apply list_elem_of_fmap_2.
Qed.

Lemma check_inventory_err sid seen prev cands :
  check_inventory (E := E) sid seen prev cands <> Err ActionEntityMismatch.
Proof.
  revert seen prev; induction cands as [|c cands IH]; intros seen prev; cbn; [done|].
  by repeat case_match.
Qed.

Lemma classify_all_spec epoch cands (w w' : World St) (r : result (ReconcileError E) _) :
  classify_all epoch cands w = (w', r) ->
  exists calls, w_calls w' = w_calls w ++ calls /\
    calls `prefix_of` omap (inspect_call epoch) cands /\
    match r with
    | Ok cls => calls = omap (inspect_call epoch) cands /\ Forall2 classifies cands cls
    | Err e => (exists b, e = Backend b) \/ (exists x, e = Contradiction x)
    end.
Proof.
  revert w w' r; induction cands as [|c cands IH]; intros w w' r; cbn [classify_all].
  { intros [= <- <-]. exists []. rewrite app_nil_r. split_and!; [done | by apply prefix_nil | done | constructor]. }
  unfold mbind, Run_bind, mret, Run_ret.
  set (m := match cand_entity c with EInstance _ => _ | _ => _ end).
  assert (Hm : forall wi ri, m w = (wi, ri) ->
    w_calls wi = w_calls w ++ option_list (inspect_call epoch c) /\
    match ri with
    | Ok obs => obs <> NotApplicable -> exists a, cand_entity c = EInstance a
    | Err e => exists b, e = Backend b
    end).
  { intros wi ri. subst m. unfold inspect_call, mret, Run_ret.
    destruct (cand_entity c) eqn:He;
      try (intros [= <- <-]; cbn; rewrite app_nil_r; split; [done | by intros []]).
    intros [Hc Herr]%call_spec. split; [done|]. destruct ri as [obs|e]; [eauto | by apply Herr]. }
  destruct (m w) as [wi [obs|e]] eqn:Hmw; destruct (Hm _ _ eq_refl) as [Hci Hri].
  - destruct (classify_recovery (cand_state c) obs) as [d|x] eqn:Hd; cbn [map_err].
    + destruct (classify_all epoch cands wi) as [w2 r2] eqn:Hall.
      destruct (IH _ _ _ Hall) as (calls & Hc2 & Hpre & Hr2).
      assert (Hcalls : w_calls w2 = w_calls w ++ (option_list (inspect_call epoch c) ++ calls)).
      { by rewrite Hc2, Hci, app_assoc. }
      assert (Homap : omap (inspect_call epoch) (c :: cands) =
        option_list (inspect_call epoch c) ++ omap (inspect_call epoch) cands).
      { cbn. by destruct (inspect_call epoch c). }
      destruct r2 as [cls|e]; intros [= <- <-]; eexists; (split; [exact Hcalls|]); rewrite Homap.
      * destruct Hr2 as [-> Hf]. split_and!; [by apply prefix_app | done |].
        constructor; [|done]. split_and!; auto.
      * split; [by apply prefix_app | done].
    + intros [= <- <-]. exists (option_list (inspect_call epoch c)). split; [done|].
      split; [|eauto]. cbn. destruct (inspect_call epoch c); cbn; [|by apply prefix_nil].
      by apply prefix_cons, prefix_nil.
  - intros [= <- <-]. exists (option_list (inspect_call epoch c)). split; [done|].
    split; [|eauto]. cbn. destruct (inspect_call epoch c); cbn; [|by apply prefix_nil].
    by apply prefix_cons, prefix_nil.
Qed.

(** An action whose entity is of another kind. *)
Definition mismatched (item : ClassifiedRecovery) : Prop :=
  external_action (rd_action (cl_decision item)) = true /\
  forall epoch, item_call epoch item = None.

Lemma execute_item_spec epoch item (w w' : World St) (r : result (ReconcileError E) bool) :
  execute_item epoch item w = (w', r) ->
  w_calls w' = w_calls w ++ option_list (item_call epoch item) /\
  match r with
  | Ok true => rd_action (cl_decision item) <> AwaitResolution /\
      (external_action (rd_action (cl_decision item)) = true -> is_Some (item_call epoch item))
  | Ok false => True
  | Err e => (exists b, e = Backend b) \/ mismatched item
  end.
Proof.
  unfold execute_item, item_call, mismatched, item_call, mret, Run_ret, fail, mbind, Run_bind.
  destruct (rd_action (cl_decision item)) eqn:Ha, (cl_entity item) eqn:He;
    try (intros [= <- <-]; cbn; rewrite app_nil_r; split; [done | by auto]).
  all: try (intros [Hc Herr]%call_spec; split; [done | destruct r as [[]|e]; eauto]).
  destruct (call _ _ w) as [w1 r1] eqn:Hcall. apply call_spec in Hcall as [Hc Herr].
  destruct r1 as [[]|e]; intros [= <- <-]; split; eauto.
Qed.

Definition exec_call (epoch : FencingEpoch) (e : RecoveryExecution) : option Call :=
  if bool_decide (ex_status e = Pending) then item_call epoch (ex_classification e) else None.

(** How one execution may end in a run that succeeds. *)
Definition settled (epoch : FencingEpoch) (e e' : RecoveryExecution) : Prop :=
  ex_classification e' = ex_classification e /\
  (ex_status e <> Pending -> e' = e) /\
  (ex_status e = Pending -> ex_status e' = Executed \/ ex_status e' = Pending) /\
  (ex_status e = Pending -> ex_status e' = Executed ->
   rd_action (cl_decision (ex_classification e)) <> AwaitResolution /\
   (external_action (rd_action (cl_decision (ex_classification e))) = true ->
    is_Some (exec_call epoch e))).

Lemma omap_cons_app {A B} (f : A -> option B) x l :
  omap f (x :: l) = option_list (f x) ++ omap f l.
Proof. cbn. by destruct (f x). Qed.

Lemma execute_all_spec epoch es (w w' : World St) es' (r : result (ReconcileError E) unit) :
  execute_all epoch es w = (w', (es', r)) ->
  exists calls, w_calls w' = w_calls w ++ calls /\
    calls `prefix_of` omap (exec_call epoch) es /\
    match r with
    | Ok _ => calls = omap (exec_call epoch) es /\ Forall2 (settled epoch) es es'
    | Err e => (exists b, e = Backend b) \/ Exists (fun x => mismatched (ex_classification x)) es
    end.
Proof.
  revert w w' es' r; induction es as [|e es IH]; intros w w' es' r; cbn [execute_all].
  { intros [= <- <- <-]. exists []. rewrite app_nil_r. repeat split; [by apply prefix_nil | constructor]. }
  rewrite omap_cons_app. destruct (bool_decide (ex_status e = Pending)) eqn:Hp; cbn [negb].
  - assert (Hec : exec_call epoch e = item_call epoch (ex_classification e)).
    { unfold exec_call. by rewrite Hp. }
    rewrite Hec. destruct (execute_item epoch (ex_classification e) w) as [w1 r1] eqn:Hi.
    apply execute_item_spec in Hi as [Hc1 Hr1]. destruct r1 as [b|err].
    + destruct (execute_all epoch es w1) as [w2 [es2 r2]] eqn:Hall.
      destruct (IH _ _ _ _ Hall) as (calls & Hc2 & Hpre & Hr2).
      intros [= <- <- <-]. exists (option_list (item_call epoch (ex_classification e)) ++ calls).
      rewrite Hc2, Hc1, app_assoc. split; [done|]. split; [by apply prefix_app|].
      destruct r2 as [[]|err]; [|destruct Hr2; [by left | right; by apply Exists_cons_tl]].
      destruct Hr2 as [-> Hf]. split; [done|]. constructor; [|done].
      apply bool_decide_eq_true in Hp.
      split_and!; cbn; [done | done | destruct b; auto | intros _ Hb; destruct b; [|done]].
      rewrite Hec. done.
    + intros [= <- <- <-]. exists (option_list (item_call epoch (ex_classification e))).
      split; [done|]. split; [by apply prefix_app_r|].
      destruct Hr1; [by left | right; by apply Exists_cons_hd].
  - assert (Hec : exec_call epoch e = None) by (unfold exec_call; by rewrite Hp).
    rewrite Hec. destruct (execute_all epoch es w) as [w2 [es2 r2]] eqn:Hall.
    destruct (IH _ _ _ _ Hall) as (calls & Hc2 & Hpre & Hr2).
    intros [= <- <- <-]. exists calls. split_and!; [done | done |].
    destruct r2 as [[]|err]; [|destruct Hr2; [by left | right; by apply Exists_cons_tl]].
    destruct Hr2 as [-> Hf]. split; [done|]. constructor; [|done].
    apply bool_decide_eq_false in Hp. split_and!; done.
Qed.

Lemma planned_call epoch item u c :
  exec_call epoch (MkExecution item (planned_status item u c)) =
    if u then None
    else if c then (if decide (is_cleanup item) then item_call epoch item else None)
    else item_call epoch item.
Proof.
  unfold exec_call, planned_status; cbn [ex_status ex_classification].
  destruct (decide (is_cleanup item)) as [Hc|Hc]; unfold is_cleanup in Hc;
    unfold item_call; destruct (rd_action (cl_decision item)), u, c; done.
Qed.

(** The planned executions call exactly what the barriers allow. *)
Lemma planned_calls epoch cls :
  omap (exec_call epoch)
    ((fun item => MkExecution item
        (planned_status item (has_class EffectUncertain cls) (has_class CleanupRequired cls))) <$> cls)
  = allowed_calls epoch cls.
Proof.
  unfold allowed_calls. generalize (has_class EffectUncertain cls) as u.
  generalize (has_class CleanupRequired cls) as c. intros c u.
  induction cls as [|k cls IH]; [by destruct u, c|].
  rewrite fmap_cons, omap_cons_app, IH, planned_call.
  destruct u, c; [done..| |by rewrite omap_cons_app].
  rewrite filter_cons. destruct (decide (is_cleanup k)); [by rewrite omap_cons_app | done].
Qed.

(** Calls that only read or record, under one epoch. *)
Definition quiet (epoch : FencingEpoch) (c : Call) : Prop :=
  match c with
  | CallUnfinished _ e | CallInspect _ e | CallRecord e _ _ => e = epoch
  | _ => False
  end.

Lemma inspect_calls_quiet epoch cands l :
  l `prefix_of` omap (inspect_call epoch) cands -> Forall (quiet epoch) l.
Proof.
  intros [k Hk]. assert (Hall : Forall (quiet epoch) (omap (inspect_call epoch) cands)).
  { apply Forall_forall. intros c (x & _ & Hx)%list_elem_of_omap. unfold inspect_call in Hx.
    destruct (cand_entity x); simplify_eq. done. }
  rewrite Hk in Hall. by apply Forall_app in Hall as [? _].
Qed.

(** What a classification run returns for a recorded classification. *)
Definition planned (epoch : FencingEpoch) (cls : list ClassifiedRecovery) : Reconciliation :=
  MkReconciliation epoch cls
    (filter (fun item =>
       rd_action (cl_decision item) <> NoAction /\ rd_action (cl_decision item) <> AwaitResolution) cls)
    ((fun item => MkExecution item
       (planned_status item (has_class EffectUncertain cls) (has_class CleanupRequired cls))) <$> cls).

Definition recorded_calls (sid : SessionId) (cid : RequestId) epoch cands cls : list Call :=
  CallUnfinished sid epoch :: omap (inspect_call epoch) cands ++ [CallRecord epoch cid cls].

Lemma classify_only_spec sid ids (w w' : World St) (r : result (ReconcileError E) _) :
  classify_only sid ids w = (w', r) ->
  exists calls, w_calls w' = w_calls w ++ CallAcquire sid (ownership_request_id ids) :: calls /\
  match r with
  | Ok rec => exists epoch cands cls,
      calls = recorded_calls sid (classification_request_id ids) epoch cands cls /\
      inventory_ok sid cands /\ Forall2 classifies cands cls /\ rec = planned epoch cls /\
      exists s, (unfinished sid epoch s).2 = Ok cands
  | Err e => e <> ActionEntityMismatch /\ exists epoch, Forall (quiet epoch) calls
  end.
Proof.
  unfold classify_only, mbind, Run_bind, mret, Run_ret.
  destruct (call (CallAcquire _ _) _ w) as [w1 [epoch|e1]] eqn:H1; apply call_spec in H1 as [Hc1 He1].
  2:{ intros [= <- <-]. exists []. destruct (He1 _ eq_refl) as [b ->]. split_and!; [done..|].
      exists (MkFencingEpoch 1). constructor. }
  destruct (call (CallUnfinished _ _) _ w1) as [w2 [cands|e2]] eqn:H2.
  2:{ apply call_spec in H2 as [Hc2 He2]. intros [= <- <-]. exists [CallUnfinished sid epoch].
      destruct (He2 _ eq_refl) as [b ->]. rewrite Hc2, Hc1, <-app_assoc. split_and!; [done..|].
      exists epoch. by repeat constructor. }
  assert (Hunf : exists s, (unfinished sid epoch s).2 = Ok cands).
  { unfold call in H2. exists (w_backend w1).
    destruct (unfinished sid epoch (w_backend w1)) as [? [?|?]]; cbn in *; by simplify_eq. }
  apply call_spec in H2 as [Hc2 _].
  assert (Hpre : w_calls w2 = w_calls w ++ [CallAcquire sid (ownership_request_id ids); CallUnfinished sid epoch]).
  { by rewrite Hc2, Hc1, <-app_assoc. }
  destruct (check_inventory sid [] 0 cands) as [[]|e3] eqn:H3.
  2:{ intros [= <- <-]. exists [CallUnfinished sid epoch]. rewrite Hpre.
      split_and!; [done| |exists epoch; by repeat constructor]. intros ->. by apply check_inventory_err in H3. }
  assert (Hinv : inventory_ok sid cands).
  { apply check_inventory_spec in H3 as (? & ? & ? & _); [done | lia]. }
  destruct (classify_all epoch cands w2) as [w3 r3] eqn:H4.
  apply classify_all_spec in H4 as (calls & Hc3 & Hq & Hr3).
  destruct r3 as [cls|e3].
  2:{ intros [= <- <-]. exists (CallUnfinished sid epoch :: calls). rewrite Hc3, Hpre, <-app_assoc.
      split_and!; [done | by destruct Hr3 as [[? ->]|[? ->]] |].
      exists epoch. constructor; [done | by eapply inspect_calls_quiet]. }
  destruct Hr3 as [-> Hf].
  destruct (call (CallRecord _ _ _) _ w3) as [w4 r4] eqn:H5. apply call_spec in H5 as [Hc4 He4].
  assert (Hcalls : w_calls w4 = w_calls w ++ CallAcquire sid (ownership_request_id ids)
     :: recorded_calls sid (classification_request_id ids) epoch cands cls).
  { unfold recorded_calls. rewrite Hc4, Hc3, Hpre, <-!app_assoc. done. }
  destruct r4 as [u|e4]; intros [= <- <-]; (eexists; split; [exact Hcalls|]).
  - exists epoch, cands, cls. split_and!; done.
  - destruct (He4 _ eq_refl) as [b ->]. split; [done|]. exists epoch. unfold recorded_calls.
    constructor; [done|]. apply Forall_app. split; [by eapply inspect_calls_quiet | by repeat constructor].
Qed.

Lemma typed_not_mismatched c k : typed c -> classifies c k -> ~ mismatched k.
Proof.
  intros Ht (He & Hs & Hc & Hobs) [Hext Hnone]. specialize (Hnone (MkFencingEpoch 1)).
  unfold typed in Ht. rewrite <-He, <-Hs in Ht. clear He Hs.
  destruct k as [ent st obs d]; cbn in *. unfold item_call in Hnone; cbn in Hnone.
  assert (Hna : obs = NotApplicable \/ exists a, ent = EInstance a).
  { destruct (decide (obs = NotApplicable)); [by left | right; by apply Hobs]. }
  destruct ent; try (destruct Hna as [->|[? ?]]; [|done]).
  - subst. cbn in Hc. by simplify_eq.
  - subst. cbn in Hc. by simplify_eq.
  - destruct Ht as [l ->]. destruct l, obs; cbn in Hc; simplify_eq; cbn in *; done.
  - destruct Ht as [l ->]. destruct l; cbn in Hc; simplify_eq; cbn in *; done.
  - destruct st; cbn in Hc; simplify_eq; cbn in *; try done; set_solver.
  - destruct Ht as (p & k & ->). destruct p, k; cbn in Hc; simplify_eq; cbn in *; done.
Qed.
End reconciler_lemmas.

(** ** Properties *)

(** How an item may end in a successful run: blocked by the barriers, untouched
    when nothing has to be done, and executed only when its call was made. *)
Definition final_status (cls : list ClassifiedRecovery) (epoch : FencingEpoch)
    (k : ClassifiedRecovery) (e : RecoveryExecution) : Prop :=
  ex_classification e = k /\
  let a := rd_action (cl_decision k) in
  (a = NoAction \/ a = Continue -> ex_status e = NoOp) /\
  (a = AwaitResolution -> ex_status e = Pending) /\
  (external_action a = true ->
     if has_class EffectUncertain cls then ex_status e = BlockedByUncertainty
     else if has_class CleanupRequired cls && negb (bool_decide (a = CleanupVerifiedResource))
     then ex_status e = BlockedByCleanup
     else ex_status e = Pending \/
          (ex_status e = Executed /\ exists c, item_call epoch k = Some c /\ c ∈ allowed_calls epoch cls)).

Lemma planned_status_cases k u c :
  let a := rd_action (cl_decision k) in
  (a = NoAction \/ a = Continue -> planned_status k u c = NoOp) /\
  (a = AwaitResolution -> planned_status k u c = Pending) /\
  (external_action a = true -> planned_status k u c =
     if u then BlockedByUncertainty
     else if c && negb (bool_decide (a = CleanupVerifiedResource)) then BlockedByCleanup
     else Pending).
Proof.
  intros a. unfold planned_status. fold a.
  destruct a, u, c; cbn; naive_solver.
Qed.

Lemma allowed_calls_elem epoch cls k c :
  k ∈ cls -> item_call epoch k = Some c -> has_class EffectUncertain cls = false ->
  has_class CleanupRequired cls = false \/ is_cleanup k -> c ∈ allowed_calls epoch cls.
Proof.
  intros Hk Hic Hu Hcl. unfold allowed_calls. rewrite Hu.
  destruct (has_class CleanupRequired cls); apply list_elem_of_omap; exists k; split; auto.
  apply list_elem_of_filter. by destruct Hcl.
Qed.

Lemma final_status_of_settled cls epoch k e :
  k ∈ cls ->
  settled epoch (MkExecution k
    (planned_status k (has_class EffectUncertain cls) (has_class CleanupRequired cls))) e ->
  final_status cls epoch k e.
Proof.
  intros Hk (Hc & Hsame & Hpend & Hcall).
  destruct (planned_status_cases k (has_class EffectUncertain cls) (has_class CleanupRequired cls))
    as (P1 & P2 & P3).
  revert Hsame Hpend Hcall. unfold exec_call. cbn [ex_status ex_classification].
  set (p := planned_status k _ _) in *. intros Hsame Hpend Hcall.
  assert (Hst : p <> Pending -> ex_status e = p) by (intros Hp; by rewrite (Hsame Hp)).
  split; [done|]. split_and!.
  - intros Ha%P1. rewrite Hst; congruence.
  - intros Ha. destruct (Hpend (P2 Ha)) as [He|]; [|done]. by destruct (Hcall (P2 Ha) He) as [[] _].
  - intros Ha. specialize (P3 Ha).
    destruct (has_class EffectUncertain cls) eqn:Hu; [rewrite Hst; congruence|].
    destruct (has_class CleanupRequired cls && _) eqn:Hcl; [rewrite Hst; congruence|].
    destruct (Hpend P3) as [He|]; [right; split; [done|] | by left].
    destruct (Hcall P3 He) as [_ Hsome]. specialize (Hsome Ha). rewrite bool_decide_true in Hsome by done.
    destruct Hsome as [c Hic]. exists c. split; [done|]. eapply allowed_calls_elem; eauto.
    apply andb_false_iff in Hcl as [?|Hcl]; [by left | right]. by bool_norm.
Qed.

(** C28: Recovery is fenced, recorded first and stopped by its safety barriers,
    whatever the backend does.  The first call of [reconcile] acquires the epoch;
    a run that ends before its classification is recorded fails and has made only
    read and record calls under that epoch; otherwise the calls are, in order, one
    inventory read, one inspection per instance, one record of the complete
    classification of a well-ordered single-session inventory, and then a prefix of
    the calls the barriers allow: none while any item is uncertain, cleanups only
    while any needs cleanup.  A successful run made all allowed calls and reports
    each item's status accordingly. *)
Theorem reconcile_fenced_recorded_and_barred `{!RecoveryBackend St E} sid ids (w : World St) :
  let '(w', r) := reconcile (E := E) sid ids w in
  exists calls,
  w_calls w' = w_calls w ++ CallAcquire sid (ownership_request_id ids) :: calls /\
  ((is_ok r = false /\ exists epoch, Forall (quiet epoch) calls) \/
   exists epoch cands cls rest,
     calls = CallUnfinished sid epoch :: omap (inspect_call epoch) cands
             ++ CallRecord epoch (classification_request_id ids) cls :: rest /\
     inventory_ok sid cands /\ Forall2 classifies cands cls /\
     rest `prefix_of` allowed_calls epoch cls /\
     (forall rec, r = Ok rec ->
        rest = allowed_calls epoch cls /\ r_epoch rec = epoch /\ r_classifications rec = cls /\
        Forall2 (final_status cls epoch) cls (r_executions rec))).
Proof.
  unfold reconcile, mbind, Run_bind.
  destruct (classify_only sid ids w) as [w1 r1] eqn:H1.
  apply classify_only_spec in H1 as (calls & Hc1 & Hr1). destruct r1 as [rec|e1].
  2:{ exists calls. split; [done|]. left. split; [done | by destruct Hr1]. }
  destruct Hr1 as (epoch & cands & cls & -> & Hinv & Hf & -> & _).
  unfold executed, execute_actions, planned; cbn [r_epoch r_executions r_classifications r_actions].
  destruct (execute_all epoch _ w1) as [w2 [es r2]] eqn:H2.
  apply execute_all_spec in H2 as (rest & Hc2 & Hpre & Hr2). rewrite planned_calls in Hpre, Hr2.
  assert (Hcalls : w_calls w2 = w_calls w ++ CallAcquire sid (ownership_request_id ids)
    :: CallUnfinished sid epoch :: omap (inspect_call epoch) cands
       ++ CallRecord epoch (classification_request_id ids) cls :: rest).
  { rewrite Hc2, Hc1. unfold recorded_calls. cbn. by rewrite <-!app_assoc; cbn; rewrite <-!app_assoc. }
  destruct r2 as [[]|e2]; cbn; (eexists; split; [exact Hcalls|]); right;
    exists epoch, cands, cls, rest; (split_and!; [done..|]); [|done].
  intros rec [= <-]; cbn. destruct Hr2 as [-> Hes]. split_and!; [done..|].
  rewrite Forall2_fmap_l in Hes. eapply Forall2_impl_elem; [exact Hes|].
  intros k e Hk Hs. by eapply final_status_of_settled.
Qed.

(** Actions always match their entities when the inventory does: if the store
    reports for each entity a state of its own kind, no run fails with
    [ActionEntityMismatch]; so a failed recovery is a backend error, a
    contradiction or a malformed inventory. *)
Theorem typed_inventory_never_mismatches `{!RecoveryBackend St E} sid ids (w : World St) :
  (forall epoch s cands, (unfinished (E := E) sid epoch s).2 = Ok cands -> Forall typed cands) ->
  (reconcile (E := E) sid ids w).2 <> Err ActionEntityMismatch.
Proof.
  intros Htyped. unfold reconcile, mbind, Run_bind.
  destruct (classify_only sid ids w) as [w1 r1] eqn:H1.
  apply classify_only_spec in H1 as (calls & _ & Hr1). destruct r1 as [rec|e1]; [|cbn; naive_solver].
  destruct Hr1 as (epoch & cands & cls & -> & _ & Hf & -> & s & Hs). specialize (Htyped _ _ _ Hs).
  unfold executed, execute_actions, planned; cbn [r_epoch r_executions].
  destruct (execute_all epoch _ w1) as [w2 [es r2]] eqn:H2.
  apply execute_all_spec in H2 as (rest & _ & _ & Hr2). destruct r2 as [[]|e2]; cbn; [done|].
  destruct Hr2 as [[b ->]|Hex]; [done|]. exfalso.
  apply Exists_exists in Hex as (x & (k & -> & Hk)%list_elem_of_fmap & Hm). cbn in Hm.
  apply list_elem_of_lookup_1 in Hk as [i Hi].
  destruct (Forall2_lookup_r _ _ _ _ _ Hf Hi) as (c & Hc & Hck).
  eapply typed_not_mismatched; [|exact Hck|exact Hm]. by eapply Forall_lookup_1.
Qed.

(** A backend for the witness: one queued operation, every call succeeds. *)
Definition demo_backend : RecoveryBackend unit unit := {|
  acquire_epoch _ _ s := (s, Ok (MkFencingEpoch 2));
  unfinished sid _ s := (s, Ok [MkCandidate 1 sid (ESession sid) SessionOpen;
                                MkCandidate 2 sid (EOperation (MkId 7) (MkId 8)) OperationQueued]);
  inspect_instance _ _ s := (s, Ok Absent);
  record_classifications _ _ _ s := (s, Ok tt);
  schedule_existing_operation _ _ _ s := (s, Ok tt);
  redeliver_exact_message _ _ s := (s, Ok true);
  reconnect_exact_instance _ _ s := (s, Ok true);
  cleanup_verified_instance _ _ s := (s, Ok true);
|}.

Lemma typed_inventory_never_mismatches_witness :
  (@reconcile unit unit demo_backend (MkId 1) (MkRunIds (MkId 3) (MkId 4)) (MkWorld tt [])).2
  <> Err ActionEntityMismatch.
Proof.
  apply (@typed_inventory_never_mismatches unit unit demo_backend (MkId 1)
           (MkRunIds (MkId 3) (MkId 4)) (MkWorld tt [])).
  intros epoch s cands. cbn. intros [= <-]. repeat constructor. by exists OpQueued.
Defined.

(** The demo run schedules the queued operation after recording. *)
Example demo_reconcile_calls :
  w_calls (@reconcile unit unit demo_backend (MkId 1) (MkRunIds (MkId 3) (MkId 4)) (MkWorld tt [])).1 =
  [CallAcquire (MkId 1) (MkId 3); CallUnfinished (MkId 1) (MkFencingEpoch 2);
   CallRecord (MkFencingEpoch 2) (MkId 4)
     [MkClassified (ESession (MkId 1)) SessionOpen NotApplicable
        (MkRecoveryDecision SafeToContinue DurableWorkNotStarted Continue);
      MkClassified (EOperation (MkId 7) (MkId 8)) OperationQueued NotApplicable
        (MkRecoveryDecision SafeToContinue DurableWorkNotStarted ScheduleExistingOperation)];
   CallSchedule (MkFencingEpoch 2) (MkId 7) (MkId 8)].
Proof. reflexivity. Qed.
