(* ===== verification/Hierarchy.v ===== *)
(** * Hierarchy: routing in the participant tree

    Models the routing functions of crates/navigator-core/src/hierarchy.rs:
    [direct_route], [policy_route], [ancestor_set], [ensure_same_session].  A
    [BTreeMap] by participant is a finite map; the two [loop]s are written with
    fuel, [None] meaning that the fuel ran out, and the theorems show that the fuel
    used (one more than the number of known participants plus one) never does. *)
From S2P Require Import Prelude Scalars Session.

Record ParticipantSnapshot := MkParticipant {
  p_session_id : SessionId;
  p_participant_id : ParticipantId;
  p_parent_participant_id : option ParticipantId;
  p_depth : Z;
  p_template_id : TemplateId;
  p_template_compatibility : CompatibilityIdentity;
  p_revision : Revision;
}.

Inductive HierarchyRoute :=
| SelfTarget | DirectParent | DirectChild | ViaCommonAncestor (id : ParticipantId).

Inductive HierarchyRouteError := CrossSession | InvalidTopology | DirectCrossTreeForbidden.

Definition ensure_same_session (left right : SessionId) : result HierarchyRouteError unit :=
  if bool_decide (left = right) then Ok tt else Err CrossSession.

Definition direct_route (caller target : ParticipantSnapshot) :
    result HierarchyRouteError HierarchyRoute :=
  _ ← ensure_same_session (p_session_id caller) (p_session_id target);
  if bool_decide (p_participant_id caller = p_participant_id target) then Ok SelfTarget
  else if bool_decide (p_parent_participant_id caller = Some (p_participant_id target))
  then Ok DirectParent
  else if bool_decide (p_parent_participant_id target = Some (p_participant_id caller))
  then Ok DirectChild
  else Err DirectCrossTreeForbidden.

Abbreviation topology := (gmap ParticipantId ParticipantSnapshot).

(** [participants.iter().map(|p| (p.participant_id, p)).collect()]: a later entry
    replaces an earlier one. *)
Definition by_id_of (participants : list ParticipantSnapshot) : topology :=
  fold_left (fun m p => <[p_participant_id p := p]> m) participants ∅.

Fixpoint ancestor_loop (fuel : nat) (by_id : topology) (cursor : ParticipantId)
    (acc : gset ParticipantId) : option (result HierarchyRouteError (gset ParticipantId)) :=
  match fuel with
  | O => None
  | S fuel =>
      if bool_decide (cursor ∈ acc) then Some (Err InvalidTopology)
      else
        let acc := {[cursor]} ∪ acc in
        match by_id !! cursor with
        | None => Some (Err InvalidTopology)
        | Some snapshot =>
            match p_parent_participant_id snapshot with
            | None => Some (Ok acc)
            | Some parent => ancestor_loop fuel by_id parent acc
            end
        end
  end.

Definition route_fuel (by_id : topology) : nat := S (S (size by_id)).

Definition ancestor_set (participant : ParticipantId) (by_id : topology) :
    option (result HierarchyRouteError (gset ParticipantId)) :=
  ancestor_loop (route_fuel by_id) by_id participant ∅.

Fixpoint common_loop (fuel : nat) (by_id : topology) (caller_ancestors : gset ParticipantId)
    (cursor : ParticipantId) (visited : gset ParticipantId) :
    option (result HierarchyRouteError HierarchyRoute) :=
  match fuel with
  | O => None
  | S fuel =>
      if bool_decide (cursor ∈ visited) then Some (Err InvalidTopology)
      else
        let visited := {[cursor]} ∪ visited in
        if bool_decide (cursor ∈ caller_ancestors) then Some (Ok (ViaCommonAncestor cursor))
        else
          match by_id !! cursor with
          | None => Some (Err InvalidTopology)
          | Some participant =>
              match p_parent_participant_id participant with
              | None => Some (Err InvalidTopology)
              | Some parent => common_loop fuel by_id caller_ancestors parent visited
              end
          end
  end.

Definition policy_route (caller target : ParticipantId)
    (participants : list ParticipantSnapshot) : option (result HierarchyRouteError HierarchyRoute) :=
  let by_id := by_id_of participants in
  match by_id !! caller, by_id !! target with
  | Some caller, Some target =>
      match ancestor_set (p_participant_id caller) by_id with
      | Some (Ok caller_ancestors) =>
          match ancestor_set (p_participant_id target) by_id with
          | Some (Ok _) =>
              match direct_route caller target with
              | Ok route => Some (Ok route)
              | Err _ =>
                  match ensure_same_session (p_session_id caller) (p_session_id target) with
                  | Err e => Some (Err e)
                  | Ok _ =>
                      common_loop (route_fuel by_id) by_id caller_ancestors
                        (p_participant_id target) ∅
                  end
              end
          | Some (Err e) => Some (Err e)
          | None => None
          end
      | Some (Err e) => Some (Err e)
      | None => None
      end
  | _, _ => Some (Err InvalidTopology)
  end.

(** ** Ancestor chains *)

(** [chain m x l]: following parents from [x] visits [l] and ends at a root. *)
Inductive chain (m : topology) : ParticipantId -> list ParticipantId -> Prop :=
| chain_root x p :
    m !! x = Some p -> p_parent_participant_id p = None -> chain m x [x]
| chain_step x p y l :
    m !! x = Some p -> p_parent_participant_id p = Some y -> chain m y l -> chain m x (x :: l).

Section chains.
Context (m : topology).

Lemma chain_det x l1 l2 : chain m x l1 -> chain m x l2 -> l1 = l2.
Proof.
  intros H1; revert l2; induction H1 as [x p Hp Hr|x p y l Hp Hr _ IH]; intros l2 H2;
    inversion H2; simplify_eq; [done|]. f_equal. by apply IH.
Qed.

Lemma chain_head x l : chain m x l -> exists t, l = x :: t.
Proof. inversion 1; eauto. Qed.

Lemma chain_known x l : chain m x l -> forall y, y ∈ l -> is_Some (m !! y).
Proof. induction 1; intros z; set_solver. Qed.

(** Every ancestor's chain is a suffix. *)
Lemma chain_suffix x l a : chain m x l -> a ∈ l -> exists la, chain m a la /\ la `suffix_of` l.
Proof.
  induction 1 as [x p Hp Hr|x p y l Hp Hr Hc IH]; intros Ha.
  - apply list_elem_of_singleton in Ha as ->. exists [x]. split; [by eapply chain_root | done].
  - apply elem_of_cons in Ha as [->|Ha].
    + exists (x :: l). split; [by eapply chain_step | done].
    + destruct (IH Ha) as (la & ? & ?). exists la. split; [done | by apply suffix_cons_r].
Qed.

Lemma chain_NoDup x l : chain m x l -> NoDup l.
Proof.
  induction 1 as [x p Hp Hr|x p y l Hp Hr Hc IH]; [apply NoDup_singleton|].
  constructor; [|done]. intros Hin. destruct (chain_suffix _ _ _ Hc Hin) as (lx & Hlx & Hsuf).
  assert (Heq : lx = x :: l) by (eapply chain_det; [exact Hlx | by eapply chain_step]).
  apply suffix_length in Hsuf. rewrite Heq in Hsuf. cbn in Hsuf. lia.
Qed.

Lemma chain_length x l : chain m x l -> (length l <= size m)%nat.
Proof.
  intros Hc. rewrite <-size_dom. rewrite <-(size_list_to_set (C := gset ParticipantId) l)
    by (by eapply chain_NoDup). apply subseteq_size. intros y Hy%elem_of_list_to_set.
  apply elem_of_dom. by eapply chain_known.
Qed.

Lemma ancestor_loop_complete fuel x l acc :
  chain m x l -> (length l <= fuel)%nat -> (forall y, y ∈ l -> y ∉ acc) ->
  ancestor_loop fuel m x acc = Some (Ok (list_to_set l ∪ acc)).
Proof.
  intros Hc; revert fuel acc; induction Hc as [x p Hp Hr|x p y l Hp Hr Hc IH];
    intros [|fuel] acc Hf Hacc; cbn in Hf; try lia; cbn [ancestor_loop];
    (rewrite bool_decide_false by set_solver); rewrite Hp, Hr.
  - do 2 f_equal. set_solver.
  - pose proof (chain_NoDup x (x :: l) (chain_step m x p y l Hp Hr Hc)) as Hnd.
    apply NoDup_cons in Hnd as [Hx _]. rewrite IH; [|lia|set_solver]. do 2 f_equal. set_solver.
Qed.

Lemma ancestor_loop_sound fuel x acc S :
  ancestor_loop fuel m x acc = Some (Ok S) -> exists l, chain m x l.
Proof.
  revert x acc; induction fuel as [|fuel IH]; intros x acc; cbn [ancestor_loop]; [done|].
  case_match; [done|]. destruct (m !! x) as [p|] eqn:Hp; [|done].
  destruct (p_parent_participant_id p) as [y|] eqn:Hr.
  - intros [l Hl]%IH. exists (x :: l). by eapply chain_step.
  - intros _. exists [x]. by eapply chain_root.
Qed.

Lemma ancestor_loop_errs fuel x acc e :
  ancestor_loop fuel m x acc = Some (Err e) -> e = InvalidTopology.
Proof.
  revert x acc; induction fuel as [|fuel IH]; intros x acc; cbn [ancestor_loop]; [done|].
  repeat case_match; naive_solver.
Qed.

Lemma ancestor_loop_fuel fuel x acc :
  acc ⊆ dom m -> (size m < fuel + size acc)%nat -> is_Some (ancestor_loop fuel m x acc).
Proof.
  revert x acc; induction fuel as [|fuel IH]; intros x acc Hsub Hf.
  { apply subseteq_size in Hsub. rewrite size_dom in Hsub. lia. }
  cbn [ancestor_loop]. destruct (bool_decide_reflect (x ∈ acc)) as [|Hx]; [by eexists|].
  destruct (m !! x) as [p|] eqn:Hp; [|by eexists].
  destruct (p_parent_participant_id p) as [y|]; [|by eexists].
  apply IH.
  - assert (x ∈ dom m) by (by apply elem_of_dom_2 in Hp). set_solver.
  - rewrite size_union by set_solver. rewrite size_singleton. lia.
Qed.

Lemma ancestor_set_spec x :
  (forall l, chain m x l -> ancestor_set x m = Some (Ok (list_to_set l))) /\
  (~ (exists l, chain m x l) -> ancestor_set x m = Some (Err InvalidTopology)).
Proof.
  unfold ancestor_set, route_fuel. split.
  - intros l Hl. rewrite (ancestor_loop_complete _ x l ∅ Hl); [do 2 f_equal; set_solver| |set_solver].
    apply chain_length in Hl. lia.
  - intros Hno. destruct (ancestor_loop_fuel (S (S (size m))) x ∅) as [r Hr]; [set_solver | lia |].
    rewrite Hr. destruct r as [S|e]; [by apply ancestor_loop_sound in Hr|].
    by apply ancestor_loop_errs in Hr as ->.
Qed.

Lemma common_loop_chain fuel x l S acc :
  chain m x l -> (length l <= fuel)%nat -> (forall y, y ∈ l -> y ∉ acc) ->
  common_loop fuel m S x acc =
    Some (match list_find (fun y => y ∈ S) l with
          | Some (_, a) => Ok (ViaCommonAncestor a)
          | None => Err InvalidTopology
          end).
Proof.
  intros Hc; revert fuel acc; induction Hc as [x p Hp Hr|x p y l Hp Hr Hc IH];
    intros [|fuel] acc Hf Hacc; cbn in Hf; try lia; cbn [common_loop list_find];
    (rewrite bool_decide_false by set_solver); rewrite Hp, Hr.
  - destruct (decide (x ∈ S)); [by rewrite bool_decide_true | by rewrite bool_decide_false].
  - destruct (decide (x ∈ S)); [by rewrite bool_decide_true | rewrite bool_decide_false by done].
    pose proof (chain_NoDup x (x :: l) (chain_step m x p y l Hp Hr Hc)) as Hnd.
    apply NoDup_cons in Hnd as [Hx _]. rewrite IH; [|lia|set_solver].
    by destruct (list_find _ l) as [[? ?]|].
Qed.
End chains.

(** ** Routes over chains *)

Lemma by_id_of_key ps k p : by_id_of ps !! k = Some p -> p_participant_id p = k.
Proof.
  unfold by_id_of. assert (Hgen : forall m : topology,
    (forall k p, m !! k = Some p -> p_participant_id p = k) ->
    fold_left (fun m p => <[p_participant_id p := p]> m) ps m !! k = Some p -> p_participant_id p = k).
  { induction ps as [|q ps IH]; intros m Hm; cbn; [apply Hm|]. apply IH.
    intros k' p' [[<- <-]|[_ ?]]%lookup_insert_Some; auto. }
  apply Hgen. intros k' p'. by rewrite lookup_empty.
Qed.

Lemma chain_drop m x l i a : chain m x l -> l !! i = Some a -> chain m a (drop i l).
Proof.
  intros Hc; revert i; induction Hc as [x p Hp Hr|x p y l Hp Hr Hc IH]; intros [|i] Hi; cbn in *;
    simplify_eq; eauto using chain.
Qed.

(** The first element of a chain that lies in [S] is below every other one. *)
Lemma first_common_nearest m t lt S i a la b :
  chain m t lt -> list_find (fun y => y ∈ S) lt = Some (i, a) -> chain m a la ->
  b ∈ lt -> b ∈ (S : gset ParticipantId) -> b ∈ la.
Proof.
  intros Hc (Ha & _ & Hfirst)%list_find_Some Hla [k Hk]%list_elem_of_lookup_1 HbS.
  assert (la = drop i lt) as -> by (eapply chain_det; [exact Hla | by eapply chain_drop]).
  apply list_elem_of_lookup. exists (k - i)%nat. rewrite lookup_drop.
  destruct (decide (k < i)%nat) as [Hlt|]; [by destruct (Hfirst k b Hk Hlt)|].
  by replace (i + (k - i))%nat with k by lia.
Qed.

(** The route between two participants with known chains. *)
Definition route_spec (pc pt : ParticipantSnapshot) (lc lt : list ParticipantId) :
    result HierarchyRouteError HierarchyRoute :=
  if bool_decide (p_session_id pc = p_session_id pt) then
    if bool_decide (p_participant_id pc = p_participant_id pt) then Ok SelfTarget
    else if bool_decide (p_parent_participant_id pc = Some (p_participant_id pt)) then Ok DirectParent
    else if bool_decide (p_parent_participant_id pt = Some (p_participant_id pc)) then Ok DirectChild
    else match list_find (fun y => y ∈ lc) lt with
         | Some (_, a) => Ok (ViaCommonAncestor a)
         | None => Err InvalidTopology
         end
  else Err CrossSession.

Lemma list_find_set (lc lt : list ParticipantId) :
  list_find (fun y => y ∈ (list_to_set lc : gset ParticipantId)) lt = list_find (fun y => y ∈ lc) lt.
Proof.
  induction lt as [|y lt IH]; [done|]. cbn. rewrite IH.
  destruct (decide (y ∈ _)) as [H1|H1], (decide (y ∈ lc)) as [H2|H2];
    rewrite elem_of_list_to_set in H1; done.
Qed.

Lemma policy_route_chains c t ps pc pt lc lt :
  by_id_of ps !! c = Some pc -> by_id_of ps !! t = Some pt ->
  chain (by_id_of ps) c lc -> chain (by_id_of ps) t lt ->
  policy_route c t ps = Some (route_spec pc pt lc lt).
Proof.
  intros Hpc Hpt Hlc Hlt. unfold policy_route. rewrite Hpc, Hpt.
  rewrite (by_id_of_key _ _ _ Hpc), (by_id_of_key _ _ _ Hpt).
  rewrite (proj1 (ancestor_set_spec _ c) lc Hlc), (proj1 (ancestor_set_spec _ t) lt Hlt).
  unfold route_spec, direct_route, ensure_same_session.
  rewrite (by_id_of_key _ _ _ Hpc), (by_id_of_key _ _ _ Hpt).
  unfold mbind, result_bind.
  destruct (bool_decide (p_session_id pc = p_session_id pt)); [|done].
  destruct (bool_decide (c = t)); [done|].
  destruct (bool_decide (p_parent_participant_id pc = Some t)); [done|].
  destruct (bool_decide (p_parent_participant_id pt = Some c)); [done|].
  rewrite (common_loop_chain _ _ t lt); [| done | | set_solver].
  - by rewrite list_find_set.
  - apply chain_length in Hlt. unfold route_fuel. lia.
Qed.

Lemma chain_is_Some m x l : chain m x l -> is_Some (m !! x).
Proof. inversion 1; eauto. Qed.

Lemma policy_route_invalid c t ps :
  ~ (exists lc lt, chain (by_id_of ps) c lc /\ chain (by_id_of ps) t lt) ->
  policy_route c t ps = Some (Err InvalidTopology).
Proof.
  intros Hno. unfold policy_route.
  destruct (by_id_of ps !! c) as [pc|] eqn:Hpc; [|done].
  destruct (by_id_of ps !! t) as [pt|] eqn:Hpt; [|done].
  rewrite (by_id_of_key _ _ _ Hpc), (by_id_of_key _ _ _ Hpt).
  destruct (ancestor_loop_fuel (by_id_of ps) (route_fuel (by_id_of ps)) c ∅) as [rc Hrc];
    [set_solver | unfold route_fuel; lia |].
  destruct (ancestor_loop_fuel (by_id_of ps) (route_fuel (by_id_of ps)) t ∅) as [rt Hrt];
    [set_solver | unfold route_fuel; lia |].
  unfold ancestor_set. rewrite Hrc, Hrt.
  destruct rc as [Sc|e]; [|by apply ancestor_loop_errs in Hrc as ->].
  destruct rt as [St|e]; [|by apply ancestor_loop_errs in Hrt as ->].
  apply ancestor_loop_sound in Hrc as [lc ?], Hrt as [lt ?]. destruct Hno. eauto.
Qed.

(** What a route through an ancestor says about the two chains. *)
Lemma via_inv c t ps a :
  policy_route c t ps = Some (Ok (ViaCommonAncestor a)) ->
  exists pc pt lc lt i, by_id_of ps !! c = Some pc /\ by_id_of ps !! t = Some pt /\
    chain (by_id_of ps) c lc /\ chain (by_id_of ps) t lt /\
    list_find (fun y => y ∈ (list_to_set lc : gset ParticipantId)) lt = Some (i, a) /\
    p_session_id pc = p_session_id pt /\ p_participant_id pc <> p_participant_id pt /\
    p_parent_participant_id pc <> Some (p_participant_id pt) /\
    p_parent_participant_id pt <> Some (p_participant_id pc).
Proof.
  intros Hr.
  destruct (ancestor_loop_fuel (by_id_of ps) (route_fuel (by_id_of ps)) c ∅) as [rc Hrc];
    [set_solver | unfold route_fuel; lia |].
  destruct (ancestor_loop_fuel (by_id_of ps) (route_fuel (by_id_of ps)) t ∅) as [rt Hrt];
    [set_solver | unfold route_fuel; lia |].
  pose proof Hr as Hr'. unfold policy_route in Hr.
  destruct (by_id_of ps !! c) as [pc|] eqn:Hpc; [|done].
  destruct (by_id_of ps !! t) as [pt|] eqn:Hpt; [|done].
  rewrite (by_id_of_key _ _ _ Hpc), (by_id_of_key _ _ _ Hpt) in Hr. unfold ancestor_set in Hr.
  rewrite Hrc, Hrt in Hr. destruct rc as [Sc|]; [|done]. destruct rt as [St|]; [|done].
  apply ancestor_loop_sound in Hrc as [lc Hlc], Hrt as [lt Hlt].
  rewrite (policy_route_chains c t ps pc pt lc lt) in Hr' by done. injection Hr' as Hr'.
  unfold route_spec in Hr'. rewrite <-list_find_set in Hr'.
  repeat (case_bool_decide; try done).
  destruct (list_find _ lt) as [[i a']|] eqn:Hfind; [|done]. injection Hr' as ->.
  exists pc, pt, lc, lt, i. split_and!; done.
Qed.

(** ** Properties *)

(** Policy routing is total and exact.  [policy_route] always returns.  When
    the parent chains of both participants reach a root, the route is self, direct
    parent or direct child inside one session, otherwise the first participant on
    the target's chain that is on the caller's, and an error when the sessions
    differ or the trees are disjoint; when a chain is broken or cyclic the topology
    is rejected. *)
Theorem policy_route_exact c t ps :
  (forall pc pt lc lt,
     by_id_of ps !! c = Some pc -> by_id_of ps !! t = Some pt ->
     chain (by_id_of ps) c lc -> chain (by_id_of ps) t lt ->
     policy_route c t ps = Some (route_spec pc pt lc lt)) /\
  (~ (exists lc lt, chain (by_id_of ps) c lc /\ chain (by_id_of ps) t lt) ->
     policy_route c t ps = Some (Err InvalidTopology)).
Proof. split; [intros; by apply policy_route_chains | apply policy_route_invalid]. Qed.

(** Four participants: a root, two children, one grandchild. *)
Definition demo_participant (id : Z) (parent : option Z) : ParticipantSnapshot :=
  MkParticipant (MkId 1) (MkId id) (MkId <$> parent) 0 (MkId 9) (MkCompat []) Revision_initial.
Definition demo_tree : list ParticipantSnapshot :=
  [demo_participant 10 None; demo_participant 11 (Some 10); demo_participant 12 (Some 10);
   demo_participant 13 (Some 12)].

Lemma policy_route_exact_witness :
  policy_route (MkId 11) (MkId 13) demo_tree =
  Some (route_spec (demo_participant 11 (Some 10)) (demo_participant 13 (Some 12))
          [MkId 11; MkId 10] [MkId 13; MkId 12; MkId 10]).
Proof.
  apply (proj1 (policy_route_exact (MkId 11) (MkId 13) demo_tree)); [reflexivity..| |].
  - eapply chain_step; [reflexivity..|]. by eapply chain_root.
  - eapply chain_step; [reflexivity..|]. eapply chain_step; [reflexivity..|]. by eapply chain_root.
Defined.

(** The mediating participant is the nearest common ancestor, in both
    directions: if the route from [c] to [t] goes through [a], the common ancestors
    of [c] and [t] are exactly [a] and its ancestors, and the route from [t] to [c]
    goes through the same [a]. *)
Theorem common_ancestor_nearest c t ps a :
  policy_route c t ps = Some (Ok (ViaCommonAncestor a)) ->
  (exists lc lt la, chain (by_id_of ps) c lc /\ chain (by_id_of ps) t lt /\
     chain (by_id_of ps) a la /\ forall b, b ∈ lc /\ b ∈ lt <-> b ∈ la) /\
  policy_route t c ps = Some (Ok (ViaCommonAncestor a)).
Proof.
  intros (pc & pt & lc & lt & i & Hpc & Hpt & Hlc & Hlt & Hfind & Hs & Hne & Hp1 & Hp2)%via_inv.
  pose proof Hfind as (Hai & HaS & _)%list_find_Some. rewrite elem_of_list_to_set in HaS.
  pose proof (list_elem_of_lookup_2 _ _ _ Hai) as Hat.
  destruct (chain_suffix _ _ _ _ Hlt Hat) as (la & Hla & Hsuf_t).
  destruct (chain_suffix _ _ _ _ Hlc HaS) as (la' & Hla' & Hsuf_c).
  rewrite <-(chain_det _ _ _ _ Hla Hla') in Hsuf_c. clear la' Hla'.
  assert (Hboth : forall b, b ∈ lc /\ b ∈ lt <-> b ∈ la).
  { intros b. split.
    - intros [Hbc Hbt]. eapply first_common_nearest; [exact Hlt | exact Hfind | done | done | set_solver].
    - destruct Hsuf_t as [k1 ->], Hsuf_c as [k2 ->]. set_solver. }
  split; [by eauto 10|].
  rewrite (policy_route_chains t c ps pt pc lt lc) by done. unfold route_spec.
  rewrite bool_decide_true, !bool_decide_false by done. rewrite <-list_find_set.
  destruct (list_find _ lc) as [[j b]|] eqn:Hf2.
  - do 3 f_equal. pose proof Hf2 as (Hbj & HbS & _)%list_find_Some. rewrite elem_of_list_to_set in HbS.
    pose proof (list_elem_of_lookup_2 _ _ _ Hbj) as Hbc.
    destruct (chain_suffix _ _ _ _ Hlc Hbc) as (lb & Hlb & _).
    assert (Hab : a ∈ lb).
    { eapply first_common_nearest; [exact Hlc | exact Hf2 | done | done | set_solver]. }
    assert (Hba : b ∈ la) by (by apply Hboth).
    destruct (chain_suffix _ _ _ _ Hlb Hab) as (l1 & Hl1 & [k1 Hk1]).
    destruct (chain_suffix _ _ _ _ Hla Hba) as (l2 & Hl2 & [k2 Hk2]).
    rewrite (chain_det _ _ _ _ Hl1 Hla) in Hk1. rewrite (chain_det _ _ _ _ Hl2 Hlb) in Hk2.
    assert (k1 = []) as ->.
    { apply length_zero_iff_nil. apply (f_equal length) in Hk1, Hk2. rewrite length_app in Hk1, Hk2. lia. }
    cbn in Hk1. apply chain_head in Hla as [? ->], Hlb as [? ->]. by injection Hk1.
  - exfalso. eapply list_find_None in Hf2. rewrite Forall_forall in Hf2.
    apply (Hf2 a HaS). set_solver.
Qed.

Lemma common_ancestor_nearest_witness :
  policy_route (MkId 13) (MkId 11) demo_tree = Some (Ok (ViaCommonAncestor (MkId 10))).
Proof. apply (common_ancestor_nearest (MkId 11) (MkId 13) demo_tree (MkId 10)). reflexivity. Defined.
