(* ===== verification/Capacity.v ===== *)
(** * Capacity: limit profiles and the bounded fair queue

    Models the pure part of crates/navigator-store-api/src/resource_limits.rs:
    [LimitProfile], [FairScheduler] and [FairQueue].  A [BTreeMap] is a finite map,
    whose keys are listed and then sorted where the code sorts them. *)
From S2P Require Import Prelude Scalars Session.

(** ** Limit profiles *)

Inductive CapacityResource :=
| Participants | ActiveOperations | QueuedOperations | Messages | MessageBytes | Artifacts
| ArtifactBytes | PendingRequests | Subscriptions | Retries | RetainedEvents.
#[global] Instance CapacityResource_eq_dec : EqDecision CapacityResource.
Proof. solve_decision. Defined.

Definition CapacityResource_ALL : list CapacityResource :=
  [Participants; ActiveOperations; QueuedOperations; Messages; MessageBytes; Artifacts;
   ArtifactBytes; PendingRequests; Subscriptions; Retries; RetainedEvents].

Definition resource_index (r : CapacityResource) : nat :=
  match r with
  | Participants => 0 | ActiveOperations => 1 | QueuedOperations => 2 | Messages => 3
  | MessageBytes => 4 | Artifacts => 5 | ArtifactBytes => 6 | PendingRequests => 7
  | Subscriptions => 8 | Retries => 9 | RetainedEvents => 10
  end%nat.
#[global] Instance CapacityResource_countable : Countable CapacityResource.
Proof.
  refine (inj_countable resource_index (fun n => CapacityResource_ALL !! n) _). by intros [].
Defined.

Definition CapacityResource_as_str (r : CapacityResource) : string :=
  match r with
  | Participants => "participants"
  | ActiveOperations => "active_operations"
  | QueuedOperations => "queued_operations"
  | Messages => "messages"
  | MessageBytes => "message_bytes"
  | Artifacts => "artifacts"
  | ArtifactBytes => "artifact_bytes"
  | PendingRequests => "pending_requests"
  | Subscriptions => "subscriptions"
  | Retries => "retries"
  | RetainedEvents => "retained_events"
  end.

Inductive LimitProfileError := OutOfRange | SessionExceedsGlobal.

Record ResourceLimit := MkLimit { per_session : Z; global : Z }.

Record LimitProfile := MkLimitProfile { limits : gmap CapacityResource ResourceLimit }.

Definition hard_ceiling (resource : CapacityResource) : ResourceLimit :=
  match resource with
  | Participants | ActiveOperations => MkLimit 4096 65536
  | QueuedOperations | Artifacts | PendingRequests | Retries => MkLimit 65536 1048576
  | Messages => MkLimit 262144 4194304
  | MessageBytes => MkLimit (Z.shiftl 1 34) (Z.shiftl 1 38)
  | ArtifactBytes => MkLimit (Z.shiftl 1 40) (Z.shiftl 1 44)
  | Subscriptions => MkLimit 1024 16384
  | RetainedEvents => MkLimit 4194304 67108864
  end.

Definition default_session (resource : CapacityResource) : Z :=
  match resource with
  | Participants => 1024
  | ActiveOperations => 256
  | QueuedOperations | Artifacts | PendingRequests | Retries => 4096
  | Messages => 65536
  | MessageBytes => 256 * 1024 * 1024
  | ArtifactBytes => 4 * 1024 * 1024 * 1024
  | Subscriptions => 32
  | RetainedEvents => 262144
  end.

Definition default_global (resource : CapacityResource) : Z := default_session resource * 16.

Definition LimitProfile_default : LimitProfile :=
  MkLimitProfile (fold_left (fun limits resource =>
    let ceiling := hard_ceiling resource in
    <[resource := MkLimit (default_session resource) (Z.min (default_global resource) (global ceiling))]>
      limits) CapacityResource_ALL ∅).

Fixpoint LimitProfile_extend (profile : gmap CapacityResource ResourceLimit)
    (ls : list (CapacityResource * ResourceLimit)) : result LimitProfileError LimitProfile :=
  match ls with
  | [] => Ok (MkLimitProfile profile)
  | (resource, limit) :: ls =>
      let ceiling := hard_ceiling resource in
      if (per_session limit =? 0) || (global limit =? 0)
         || (global limit <? per_session limit)
         || (per_session ceiling <? per_session limit)
         || (global ceiling <? global limit)
      then Err (if global limit <? per_session limit then SessionExceedsGlobal else OutOfRange)
      else LimitProfile_extend (<[resource := limit]> profile) ls
  end.

Definition LimitProfile_new (ls : list (CapacityResource * ResourceLimit)) :
    result LimitProfileError LimitProfile :=
  LimitProfile_extend (limits LimitProfile_default) ls.

(** Indexing a map panics on a missing key: [None]. *)
Definition LimitProfile_get (p : LimitProfile) (r : CapacityResource) : option ResourceLimit :=
  limits p !! r.

(** ** The scheduler and the queue *)

Record FairScheduler := MkScheduler { cursor : option ParticipantId }.

(** [Vec::dedup]: drops consecutive repeats. *)
Fixpoint dedup {A} `{EqDecision A} (l : list A) : list A :=
  match l with
  | x :: ((y :: _) as tl) => if bool_decide (x = y) then dedup tl else x :: dedup tl
  | _ => l
  end.

Definition sorted_ids (eligible : list ParticipantId) : list ParticipantId :=
  dedup (merge_sort Id_le eligible).

Definition select (self : FairScheduler) (eligible : list ParticipantId) :
    FairScheduler * option ParticipantId :=
  let campaigns := sorted_ids eligible in
  let selected :=
    match cursor self with
    | None => head campaigns
    | Some cursor =>
        match List.find (fun candidate => Id_ltb cursor candidate) campaigns with
        | Some candidate => Some candidate
        | None => head campaigns
        end
    end in
  (MkScheduler selected, selected).

Inductive FairQueueError := FairQueueCapacity.

Record FairQueue (T : Type) := MkFairQueue {
  queues : gmap ParticipantId (list T);
  scheduler : FairScheduler;
  fq_len : Z;
  fq_limit : Z;
}.
Arguments MkFairQueue {T} _ _ _ _.
Arguments queues {T} _.
Arguments scheduler {T} _.
Arguments fq_len {T} _.
Arguments fq_limit {T} _.

Section fair_queue.
Context {T : Type}.

Definition FairQueue_new (limit : Z) : result FairQueueError (FairQueue T) :=
  if limit =? 0 then Err FairQueueCapacity else Ok (MkFairQueue ∅ (MkScheduler None) 0 limit).

Definition push (self : FairQueue T) (campaign : ParticipantId) (value : T) :
    FairQueue T * result FairQueueError unit :=
  if fq_len self =? fq_limit self then (self, Err FairQueueCapacity)
  else (MkFairQueue (<[campaign := default [] (queues self !! campaign) ++ [value]]> (queues self))
          (scheduler self) (fq_len self + 1) (fq_limit self), Ok tt).

Definition keys (m : gmap ParticipantId (list T)) : list ParticipantId := (map_to_list m).*1.

Definition pop (self : FairQueue T) : FairQueue T * option (ParticipantId * T) :=
  let '(sched, selected) := select (scheduler self) (keys (queues self)) in
  let self := MkFairQueue (queues self) sched (fq_len self) (fq_limit self) in
  match selected with
  | None => (self, None)
  | Some campaign =>
      match queues self !! campaign with
      | None => (self, None)
      | Some [] => (self, None)
      | Some (value :: queue) =>
          let qs := if bool_decide (queue = []) then delete campaign (queues self)
                    else <[campaign := queue]> (queues self) in
          (MkFairQueue qs sched (fq_len self - 1) (fq_limit self), Some (campaign, value))
      end
  end.

Definition cancel_campaign (self : FairQueue T) (campaign : ParticipantId) : FairQueue T * Z :=
  let released := match queues self !! campaign with Some queue => llen queue | None => 0 end in
  (MkFairQueue (delete campaign (queues self)) (scheduler self) (fq_len self - released) (fq_limit self),
   released).
End fair_queue.
Arguments push : simpl never.
Arguments pop : simpl never.
Arguments cancel_campaign : simpl never.

(** ** Lemmas: selection *)

Definition Id_lt {k} (a b : Id k) : Prop := as_uuid a < as_uuid b.

Lemma Id_ltb_lt {k} (a b : Id k) : Id_ltb a b = true <-> Id_lt a b.
Proof. unfold Id_ltb, Id_lt. apply Z.ltb_lt. Qed.
Lemma Id_ltb_ge {k} (a b : Id k) : Id_ltb a b = false <-> Id_le b a.
Proof. unfold Id_ltb, Id_le. apply Z.ltb_ge. Qed.
Lemma Id_lt_of_le {k} (a b : Id k) : Id_le a b -> a <> b -> Id_lt a b.
Proof.
  unfold Id_le, Id_lt. destruct a as [a], b as [b]; cbn. intros Hle Hne.
  assert (a <> b) by congruence. lia.
Qed.

Lemma elem_dedup {A} `{EqDecision A} (x : A) l : x ∈ dedup l <-> x ∈ l.
Proof.
  induction l as [|y l IH]; [done|]. destruct l as [|z l]; [done|].
  cbn [dedup]. case_bool_decide as Hyz; [subst; rewrite IH; set_solver|].
  rewrite elem_of_cons, IH, (elem_of_cons (z :: l)). done.
Qed.

Lemma dedup_cons2 {A} `{EqDecision A} (x y : A) l :
  dedup (x :: y :: l) = if bool_decide (x = y) then dedup (y :: l) else x :: dedup (y :: l).
Proof. done. Qed.

Lemma dedup_sorted {k} (l : list (Id k)) : StronglySorted Id_le l -> StronglySorted Id_lt (dedup l).
Proof.
  induction l as [|y l IH]; intros Hs; [constructor|]. apply StronglySorted_inv in Hs as [Hs Hy].
  destruct l as [|z l]; [by repeat constructor|]. rewrite dedup_cons2.
  case_bool_decide as Hyz; [by apply IH|]. constructor; [by apply IH|].
  apply Forall_forall. intros x Hx. rewrite elem_dedup in Hx. rewrite Forall_forall in Hy. apply Id_lt_of_le; [by apply Hy|].
  intros <-. apply elem_of_cons in Hx as [->|Hx]; [done|].
  apply StronglySorted_inv in Hs as [_ Hz]. rewrite Forall_forall in Hz. specialize (Hz _ Hx).
  assert (Hyz' : Id_le y z) by (apply Hy; set_solver). apply Hyz. by apply (anti_symm Id_le).
Qed.

Lemma sorted_ids_elem x el : x ∈ sorted_ids el <-> x ∈ el.
Proof. unfold sorted_ids. by rewrite elem_dedup, merge_sort_Permutation. Qed.
Lemma sorted_ids_sorted el : StronglySorted Id_lt (sorted_ids el).
Proof. apply dedup_sorted, StronglySorted_merge_sort; apply _. Qed.

(** The next campaign after the cursor, cyclically. *)
Definition next_after (k : option ParticipantId) (el : list ParticipantId) (x : ParticipantId) : Prop :=
  x ∈ el /\
  match k with
  | None => forall y, y ∈ el -> Id_le x y
  | Some c => (Id_lt c x /\ forall y, y ∈ el -> Id_lt c y -> Id_le x y) \/
              ((forall y, y ∈ el -> Id_le y c) /\ forall y, y ∈ el -> Id_le x y)
  end.

Lemma sorted_head_least (l : list ParticipantId) x :
  StronglySorted Id_lt l -> head l = Some x -> forall y, y ∈ l -> Id_le x y.
Proof.
  intros Hs Hh y Hy. destruct l as [|z l]; [done|]. injection Hh as ->.
  apply StronglySorted_inv in Hs as [_ Hz]. rewrite Forall_forall in Hz.
  apply elem_of_cons in Hy as [->|Hy]; [unfold Id_le; lia|]. specialize (Hz _ Hy).
  unfold Id_le, Id_lt in *. lia.
Qed.

Lemma sorted_find_least (p : ParticipantId -> bool) l x :
  StronglySorted Id_lt l -> List.find p l = Some x ->
  x ∈ l /\ p x = true /\ forall y, y ∈ l -> p y = true -> Id_le x y.
Proof.
  induction l as [|z l IH]; intros Hs Hf; [done|]. cbn in Hf.
  apply StronglySorted_inv in Hs as [Hs Hz]. rewrite Forall_forall in Hz.
  destruct (p z) eqn:Hpz.
  - injection Hf as ->. split_and!; [set_solver | done |].
    intros y [->|Hy]%elem_of_cons _; [unfold Id_le; lia|]. specialize (Hz _ Hy).
    unfold Id_le, Id_lt in *. lia.
  - destruct (IH Hs Hf) as (Hin & Hp & Hmin). split_and!; [set_solver | done |].
    intros y [->|Hy]%elem_of_cons Hpy; [congruence | by apply Hmin].
Qed.

Lemma head_elem {A} (l : list A) x : head l = Some x -> x ∈ l.
Proof. destruct l; cbn; [done|]. intros [= ->]. apply list_elem_of_here. Qed.

Lemma select_Some s el s' x :
  select s el = (s', Some x) -> next_after (cursor s) el x /\ cursor s' = Some x.
Proof.
  unfold select, next_after. pose proof (sorted_ids_sorted el) as Hs.
  assert (Hel : forall y, y ∈ el <-> y ∈ sorted_ids el) by (intros y; by rewrite sorted_ids_elem).
  set (l := sorted_ids el) in *.
  assert (Hleast : forall z, head l = Some z -> z ∈ el /\ forall y, y ∈ el -> Id_le z y).
  { intros z Hz. split; [by apply Hel, head_elem|]. intros y Hy%Hel. by eapply sorted_head_least. }
  destruct (cursor s) as [c|].
  - destruct (List.find _ l) as [z|] eqn:Hf; intros [= <- Hx].
    + subst z. apply sorted_find_least in Hf as (Hin & Hp & Hmin); [|done].
      rewrite Id_ltb_lt in Hp. split; [|done]. split; [by apply Hel|]. left. split; [done|].
      intros y Hy%Hel Hcy. apply Hmin; [done | by apply Id_ltb_lt].
    + split; [|done]. destruct (Hleast _ Hx). split; [done|]. right. split; [|done].
      intros y Hy%Hel. apply Id_ltb_ge. apply (find_none _ _ Hf). by apply list_elem_of_In.
  - intros [= <- Hx]. split; [|done]. by apply Hleast.
Qed.

Lemma select_None s el s' : select s el = (s', None) -> el = [].
Proof.
  unfold select. set (l := sorted_ids el). intros H.
  assert (Hl : head l = None).
  { destruct (cursor s) as [c|]; [destruct (List.find _ l)|]; by simplify_eq. }
  destruct el as [|z el]; [done|].
  assert (Hz : z ∈ l) by (apply sorted_ids_elem; set_solver).
  destruct l; [by apply elem_of_nil in Hz | done].
Qed.

(** ** Lemmas: the queue *)

Section fair_queue_lemmas.
Context {T : Type}.
Implicit Types (q : FairQueue T) (m : gmap ParticipantId (list T)).

Definition total m : Z := map_fold (fun _ l n => llen l + n) 0 m.

Lemma total_empty : total ∅ = 0.
Proof. unfold total. by rewrite map_fold_empty. Qed.

Lemma total_delete m c l : m !! c = Some l -> total m = llen l + total (delete c m).
Proof. intros Hc. unfold total.
  apply (map_fold_delete_L (fun _ l n => llen l + n) 0 c l m); [intros; lia | done].
Qed.

Lemma total_insert m c l :
  total (<[c := l]> m) = llen l + total m - llen (default [] (m !! c)).
Proof.
  rewrite (total_delete (<[c := l]> m) c l) by (by rewrite lookup_insert_eq).
  rewrite delete_insert_eq. destruct (m !! c) as [l'|] eqn:Hc; cbn.
  - rewrite (total_delete m c l' Hc). lia.
  - rewrite delete_id by done. cbn. unfold llen at 3. cbn. lia.
Qed.

Lemma total_nonneg m : 0 <= total m.
Proof.
  induction m as [|c l m Hc IH] using map_ind; [by rewrite total_empty|].
  rewrite total_insert, Hc. cbn. pose proof (llen_nonneg l). unfold llen at 2. cbn. lia.
Qed.

(** The queue's invariant: the length is the number of stored items and within
    the limit, and no campaign keeps an empty queue. *)
Definition fq_inv q : Prop :=
  0 < fq_limit q /\ fq_len q = total (queues q) /\ fq_len q <= fq_limit q /\
  forall c l, queues q !! c = Some l -> l <> [].

Lemma FairQueue_new_inv limit q : 0 <= limit -> FairQueue_new limit = Ok q -> fq_inv q.
Proof.
  unfold FairQueue_new. intros Hl H. case_if_in H as E; [done|]. bool_norm. injection H as <-.
  unfold fq_inv; cbn [fq_limit fq_len queues]. rewrite total_empty.
  split_and!; [lia | done | lia|]. intros c l. by rewrite lookup_empty.
Qed.

Lemma push_inv q c v q' r : push q c v = (q', r) -> fq_inv q -> fq_inv q'.
Proof.
  unfold push, fq_inv. intros H (Hlim & Hlen & Hle & Hne). case_if_in H as E; injection H as <- <-; [done|].
  bool_norm. cbn. split_and!; [done| |lia|].
  - rewrite total_insert, Hlen. unfold llen at 1 2. rewrite length_app. cbn. unfold llen. lia.
  - intros c' l [[<- <-]|[_ ?]]%lookup_insert_Some; [by destruct (default [] _) | eauto].
Qed.

Lemma keys_elem m c : c ∈ keys m <-> is_Some (m !! c).
Proof.
  unfold keys. rewrite list_elem_of_fmap. split.
  - intros ([c' l] & -> & Hin%elem_of_map_to_list). cbn. eauto.
  - intros [l Hl]. exists (c, l). split; [done | by apply elem_of_map_to_list].
Qed.

(** What a pop does, on a queue that satisfies the invariant. *)
Lemma pop_spec q q' o :
  pop q = (q', o) -> fq_inv q ->
  (o = None /\ queues q = ∅ /\ queues q' = ∅ /\ fq_inv q') \/
  (exists c v l, o = Some (c, v) /\ queues q !! c = Some (v :: l) /\
     next_after (cursor (scheduler q)) (keys (queues q)) c /\
     queues q' = (if bool_decide (l = []) then delete c (queues q) else <[c := l]> (queues q)) /\
     cursor (scheduler q') = Some c /\ fq_len q' = fq_len q - 1 /\ fq_inv q').
Proof.
  unfold pop. destruct (select (scheduler q) (keys (queues q))) as [s' [c|]] eqn:Hsel.
  - apply select_Some in Hsel as [Hnext Hcur]. cbn [queues].
    intros Hp (Hlim & Hlen & Hle & Hne). right.
    destruct (proj1 (keys_elem (queues q) c)) as [l Hl]; [by destruct Hnext|].
    rewrite Hl in Hp. destruct l as [|v l]; [by destruct (Hne _ _ Hl)|]. injection Hp as <- <-.
    exists c, v, l. cbn [scheduler fq_len]. split_and!; [done..|].
    unfold fq_inv; cbn [fq_limit fq_len queues]. split_and!; [done| |lia|].
    + rewrite Hlen. case_bool_decide as Hnil.
      * rewrite (total_delete _ _ _ Hl). subst l. unfold llen. cbn. lia.
      * rewrite total_insert, Hl. cbn. unfold llen. cbn. lia.
    + intros c' l'. case_bool_decide as Hnil.
      * intros [_ ?]%lookup_delete_Some. eauto.
      * intros [[<- <-]|[_ ?]]%lookup_insert_Some; eauto.
  - intros [= <- <-] (Hlim & Hlen & Hle & Hne). left. apply select_None in Hsel.
    assert (Hq : queues q = ∅).
    { apply map_eq. intros c. rewrite lookup_empty. destruct (queues q !! c) as [l|] eqn:Hc; [|done].
      assert (Hin : c ∈ keys (queues q)) by (apply keys_elem; eauto).
      rewrite Hsel in Hin. by apply elem_of_nil in Hin. }
    split_and!; [done..|]. cbn. repeat split; cbn; done.
Qed.

Lemma cancel_inv q c q' n :
  cancel_campaign q c = (q', n) -> fq_inv q ->
  fq_inv q' /\ queues q' = delete c (queues q) /\ n = llen (default [] (queues q !! c)) /\
  fq_len q' = fq_len q - n.
Proof.
  unfold cancel_campaign. intros [= <- <-] (Hlim & Hlen & Hle & Hne).
  assert (Hd : total (delete c (queues q)) = total (queues q) - llen (default [] (queues q !! c))).
  { destruct (queues q !! c) as [l|] eqn:Hc; cbn.
    - rewrite (total_delete _ _ _ Hc). lia.
    - rewrite delete_id by done. unfold llen. cbn. lia. }
  assert (Hn : match queues q !! c with Some queue => llen queue | None => 0 end =
               llen (default [] (queues q !! c))) by (by destruct (queues q !! c)).
  rewrite Hn. split_and!; [|done..]. split_and!; cbn; [done | by rewrite Hd, Hlen | |].
  - pose proof (llen_nonneg (default [] (queues q !! c))). lia.
  - intros c' l [_ ?]%lookup_delete_Some. eauto.
Qed.
End fair_queue_lemmas.

(** ** Runs of a queue *)

Inductive QueueOp (T : Type) := DoPush (c : ParticipantId) (v : T) | DoPop | DoCancel (c : ParticipantId).
Arguments DoPush {T} c v.
Arguments DoPop {T}.
Arguments DoCancel {T} c.

Inductive QueueEvent (T : Type) :=
| Pushed (c : ParticipantId) (v : T)
| Refused (c : ParticipantId) (v : T)
| Popped (c : ParticipantId) (v : T)
| PoppedNone
| CancelledItems (c : ParticipantId) (n : Z).
Arguments Pushed {T} c v.
Arguments Refused {T} c v.
Arguments Popped {T} c v.
Arguments PoppedNone {T}.
Arguments CancelledItems {T} c n.

Section runs.
Context {T : Type}.

Definition fq_step (q : FairQueue T) (op : QueueOp T) : FairQueue T * QueueEvent T :=
  match op with
  | DoPush c v => let '(q, r) := push q c v in
                  (q, match r with Ok _ => Pushed c v | Err _ => Refused c v end)
  | DoPop => let '(q, o) := pop q in
             (q, match o with Some (c, v) => Popped c v | None => PoppedNone end)
  | DoCancel c => let '(q, n) := cancel_campaign q c in (q, CancelledItems c n)
  end.

Fixpoint fq_run (q : FairQueue T) (ops : list (QueueOp T)) : FairQueue T * list (QueueEvent T) :=
  match ops with
  | [] => (q, [])
  | op :: ops => let '(q, e) := fq_step q op in
                 let '(q, es) := fq_run q ops in (q, e :: es)
  end.

Definition pushed_of (c : ParticipantId) (e : QueueEvent T) : option T :=
  match e with Pushed c' v => if decide (c' = c) then Some v else None | _ => None end.
Definition popped_of (c : ParticipantId) (e : QueueEvent T) : option T :=
  match e with Popped c' v => if decide (c' = c) then Some v else None | _ => None end.

Definition queue_of (q : FairQueue T) (c : ParticipantId) : list T := default [] (queues q !! c).

Lemma fq_step_inv q op : fq_inv q -> fq_inv (fq_step q op).1.
Proof.
  intros Hq. destruct op as [c v| |c]; cbn.
  - destruct (push q c v) eqn:E. by eapply push_inv.
  - destruct (pop q) eqn:E. apply pop_spec in E; [|done]. cbn.
    destruct E as [(_ & _ & _ & ?)|(? & ? & ? & _ & _ & _ & _ & _ & _ & ?)]; done.
  - destruct (cancel_campaign q c) eqn:E. by eapply cancel_inv.
Qed.

Lemma fq_run_inv q ops : fq_inv q -> fq_inv (fq_run q ops).1.
Proof.
  revert q; induction ops as [|op ops IH]; intros q Hq; cbn; [done|].
  pose proof (fq_step_inv q op Hq) as H1. destruct (fq_step q op) as [q1 e]. cbn in H1.
  specialize (IH q1 H1). by destruct (fq_run q1 ops).
Qed.

(** One step keeps, for each campaign, what was popped before what is queued. *)
Lemma fq_step_fifo q op c :
  fq_inv q -> op <> DoCancel c ->
  let '(q', e) := fq_step q op in
  option_list (popped_of c e) ++ queue_of q' c = queue_of q c ++ option_list (pushed_of c e).
Proof.
  intros Hq Hop. unfold queue_of. destruct op as [c0 v| |c0]; cbn.
  - unfold push. case_if as E; cbn; [by rewrite app_nil_r|].
    destruct (decide (c0 = c)) as [->|Hne]; [by rewrite lookup_insert_eq|].
    by rewrite lookup_insert_ne, app_nil_r by done.
  - destruct (pop q) as [q' o] eqn:E. apply pop_spec in E as
      [(-> & Hq0 & Hq1 & _)|(c0 & v & l & -> & Hl & _ & Hq' & _)]; [| |done].
    + cbn. by rewrite Hq0, Hq1, lookup_empty.
    + cbn. rewrite Hq'. destruct (decide (c0 = c)) as [->|Hne].
      * rewrite Hl. cbn. rewrite app_nil_r.
        case_bool_decide as Hnil; [rewrite lookup_delete_eq; by subst | by rewrite lookup_insert_eq].
      * cbn. rewrite app_nil_r. case_bool_decide; [by rewrite lookup_delete_ne | by rewrite lookup_insert_ne].
  - unfold cancel_campaign; cbn. rewrite app_nil_r. by rewrite lookup_delete_ne by congruence.
Qed.

Lemma fq_run_fifo q ops c :
  fq_inv q -> DoCancel c ∉ ops ->
  let '(q', es) := fq_run q ops in
  omap (popped_of c) es ++ queue_of q' c = queue_of q c ++ omap (pushed_of c) es.
Proof.
  revert q; induction ops as [|op ops IH]; intros q Hq Hops; cbn; [by rewrite app_nil_r|].
  pose proof (fq_step_inv q op Hq) as H1.
  pose proof (fq_step_fifo q op c Hq ltac:(set_solver)) as H2.
  destruct (fq_step q op) as [q1 e]. cbn in H1. specialize (IH q1 H1 ltac:(set_solver)).
  destruct (fq_run q1 ops) as [q' es].
  assert (Hc : forall (f : QueueEvent T -> option T), omap f (e :: es) = option_list (f e) ++ omap f es).
  { intros f. cbn. by destruct (f e). }
  change (match popped_of c e with Some y => y :: omap (popped_of c) es | None => omap (popped_of c) es end)
    with (omap (popped_of c) (e :: es)).
  change (match pushed_of c e with Some y => y :: omap (pushed_of c) es | None => omap (pushed_of c) es end)
    with (omap (pushed_of c) (e :: es)).
  rewrite !Hc, <-app_assoc, IH, app_assoc, H2, <-app_assoc. done.
Qed.

(** [k] lies on the cyclic arc from [d] up to but not including [c]. *)
Definition arc (d k c : ParticipantId) : Prop :=
  (Id_lt d c /\ Id_le d k /\ Id_lt k c) \/ (Id_lt c d /\ (Id_le d k \/ Id_lt k c)).

(** While [c] waits, the cursor stays on the arc from [d] to [c] and [d] itself is
    not selected. *)
Lemma next_after_arc d k c el x :
  arc d k c -> c ∈ el -> next_after (Some k) el x -> x = c \/ (x <> d /\ arc d x c).
Proof.
  unfold arc, Id_lt, Id_le. intros Harc Hc [_ Hx].
  destruct (decide (x = c)) as [|Hne]; [by left | right].
  assert (Hxc : as_uuid x <> as_uuid c) by (destruct x, c; cbn in *; congruence).
  assert (Hgoal : as_uuid x <> as_uuid d /\
    ((as_uuid d < as_uuid c /\ as_uuid d <= as_uuid x /\ as_uuid x < as_uuid c) \/
     (as_uuid c < as_uuid d /\ (as_uuid d <= as_uuid x \/ as_uuid x < as_uuid c)))).
  { unfold Id_lt, Id_le in Hx. destruct Hx as [[Hkx Hmin]|[Hall Hmin]].
    - specialize (Hmin c Hc). lia.
    - specialize (Hall c Hc). specialize (Hmin c Hc). lia. }
  destruct Hgoal as [? ?]. split; [intros ->; lia | done].
Qed.

Lemma no_overtaking_run q ops c d :
  fq_inv q -> is_Some (queues q !! c) -> DoCancel c ∉ ops ->
  (exists k, cursor (scheduler q) = Some k /\ arc d k c) ->
  (forall v, Popped c v ∉ (fq_run q ops).2) -> forall v, Popped d v ∉ (fq_run q ops).2.
Proof.
  revert q; induction ops as [|op ops IH]; intros q Hq Hc Hops (k & Hk & Harc) Hnc v; cbn in *;
    [set_solver|].
  pose proof (fq_step_inv q op Hq) as H1. specialize (IH (fq_step q op).1 H1).
  destruct (fq_step q op) as [q1 e] eqn:Hstep. cbn in IH, H1.
  destruct (fq_run q1 ops) as [q' es]. cbn in *.
  assert (Hes : is_Some (queues q1 !! c) /\ (exists k, cursor (scheduler q1) = Some k /\ arc d k c)
                /\ forall v, e <> Popped d v).
  2:{ destruct Hes as (HA & HB & HC). rewrite elem_of_cons. intros [He|Hin]; [by eapply HC|].
      eapply IH; [done | set_solver | done | | exact Hin]. intros v'. specialize (Hnc v'). set_solver. }
  destruct op as [c0 v0| |c0]; cbn in Hstep.
  - unfold push in Hstep. case_if_in Hstep as Ef; injection Hstep as <- <-; [by eauto|]. cbn.
    split_and!; [|by eauto|done].
    destruct (decide (c0 = c)) as [->|]; [rewrite lookup_insert_eq; eauto | by rewrite lookup_insert_ne].
  - destruct (pop q) as [q2 o] eqn:Hpop. apply pop_spec in Hpop as
      [(_ & Hq0 & _)|(x & w & l & -> & Hl & Hnext & Hq' & Hcur & _)]; [| |done].
    + rewrite Hq0, lookup_empty in Hc. by destruct Hc.
    + injection Hstep as <- <-. rewrite Hk in Hnext.
      destruct (next_after_arc _ _ _ _ _ Harc (proj2 (keys_elem _ c) Hc) Hnext) as [->|[Hxd Harc']].
      { specialize (Hnc w). set_solver. }
      assert (Hxc : x <> c) by (intros ->; specialize (Hnc w); set_solver).
      split_and!; [|by eauto|congruence]. rewrite Hq'.
      case_bool_decide; [by rewrite lookup_delete_ne | by rewrite lookup_insert_ne].
  - unfold cancel_campaign in Hstep. injection Hstep as <- <-. cbn. rewrite lookup_delete_ne by set_solver. split_and!; [by auto|by eauto|done].
Qed.
End runs.

(** ** Lemmas: limit profiles *)

Definition u64_limit (l : ResourceLimit) : Prop := 0 <= per_session l /\ 0 <= global l.

Definition within (r : CapacityResource) (l : ResourceLimit) : Prop :=
  0 < per_session l <= per_session (hard_ceiling r) /\
  per_session l <= global l <= global (hard_ceiling r).

(** The limit configured last for a resource, else the given one. *)
Definition configured (ls : list (CapacityResource * ResourceLimit)) (r : CapacityResource)
    (d : ResourceLimit) : ResourceLimit :=
  fold_left (fun acc e => if decide (e.1 = r) then e.2 else acc) ls d.

Definition default_limit (r : CapacityResource) : ResourceLimit :=
  MkLimit (default_session r) (Z.min (default_global r) (global (hard_ceiling r))).

Lemma default_lookup r : limits LimitProfile_default !! r = Some (default_limit r).
Proof. by destruct r. Qed.

Lemma default_within r : within r (default_limit r).
Proof. destruct r; vm_compute; repeat split; discriminate. Qed.

Lemma LimitProfile_extend_Ok m ls p :
  Forall (fun e => u64_limit e.2) ls ->
  LimitProfile_extend m ls = Ok p <->
  Forall (fun e => within e.1 e.2) ls /\
  limits p = fold_left (fun m e => <[e.1 := e.2]> m) ls m.
Proof.
  revert m; induction ls as [|[r l] ls IH]; intros m Hu; cbn [LimitProfile_extend fold_left].
  { split; [by intros [= <-] | intros [_ <-]; by destruct p]. }
  apply Forall_cons in Hu as [[Hu1 Hu2] Hu]. rewrite Forall_cons. cbn in Hu1, Hu2 |- *.
  unfold within at 1. case_if as E.
  - split; [done|]. intros ((? & ?) & _). rewrite !orb_true_iff, !Z.eqb_eq, !Z.ltb_lt in E. lia.
  - bool_norm. rewrite IH by done. split; [intros [? ?]; split_and!; auto; lia | tauto].
Qed.

Lemma fold_insert_lookup ls (m : gmap CapacityResource ResourceLimit) r d :
  m !! r = Some d ->
  fold_left (fun m e => <[e.1 := e.2]> m) ls m !! r = Some (configured ls r d).
Proof.
  unfold configured. revert m d; induction ls as [|[r' l] ls IH]; intros m d Hm; cbn; [done|].
  destruct (decide (r' = r)) as [->|].
  - apply IH. by rewrite lookup_insert_eq.
  - apply IH. by rewrite lookup_insert_ne.
Qed.

Lemma configured_within ls r d :
  Forall (fun e => within e.1 e.2) ls -> within r d -> within r (configured ls r d).
Proof.
  unfold configured. revert d; induction ls as [|[r' l] ls IH]; intros d Hf Hd; cbn; [done|].
  apply Forall_cons in Hf as [Hl Hf]. apply IH; [done|]. destruct (decide (r' = r)) as [->|]; done.
Qed.

(** ** Properties *)

(** A limit profile never exceeds the safety ceilings: construction accepts
    exactly the overrides that are positive, ordered (session within global) and
    within the ceilings, and the accepted profile then answers for every resource
    (lookup cannot panic) with the last override, or else the default, itself within
    the ceilings. *)
Theorem limit_profile_within_ceilings ls :
  Forall (fun e => u64_limit e.2) ls ->
  (is_ok (LimitProfile_new ls) = true <-> Forall (fun e => within e.1 e.2) ls) /\
  (forall p, LimitProfile_new ls = Ok p -> forall r,
     LimitProfile_get p r = Some (configured ls r (default_limit r)) /\
     within r (configured ls r (default_limit r))).
Proof.
  intros Hu. unfold LimitProfile_new. split.
  - destruct (LimitProfile_extend _ ls) as [p|e] eqn:E.
    + apply LimitProfile_extend_Ok in E as [? _]; done.
    + split; [done|]. intros Hf.
      assert (Hok : LimitProfile_extend (limits LimitProfile_default) ls =
        Ok (MkLimitProfile (fold_left (fun m e => <[e.1 := e.2]> m) ls (limits LimitProfile_default)))).
      { by apply LimitProfile_extend_Ok. }
      congruence.
  - intros p [Hf Hp]%LimitProfile_extend_Ok r; [|done]. unfold LimitProfile_get. rewrite Hp.
    split; [apply fold_insert_lookup, default_lookup | apply configured_within; [done | apply default_within]].
Qed.

Lemma limit_profile_within_ceilings_witness :
  is_ok (LimitProfile_new [(Messages, MkLimit 10 20); (Messages, MkLimit 5 9)]) = true <->
  Forall (fun e => within e.1 e.2) [(Messages, MkLimit 10 20); (Messages, MkLimit 5 9)].
Proof.
  apply (limit_profile_within_ceilings [(Messages, MkLimit 10 20); (Messages, MkLimit 5 9)]).
  repeat constructor; discriminate.
Defined.

(** C40: The fair queue is a bounded family of FIFO queues.  After any sequence of
    pushes, pops and cancellations its length is the number of stored items and
    within the limit, no campaign holds an empty queue, and for every campaign that
    was not cancelled the items popped, followed by those still queued, are exactly
    the items queued before followed by those accepted, in order. *)
Theorem fair_queue_bounded_fifo {T} limit (q : FairQueue T) ops :
  0 <= limit -> FairQueue_new limit = Ok q ->
  let '(q', es) := fq_run q ops in
  fq_inv q' /\
  (forall c, DoCancel c ∉ ops -> omap (popped_of c) es ++ queue_of q' c = omap (pushed_of c) es) /\
  ((pop q').2 = None <-> fq_len q' = 0).
Proof.
  intros Hl Hnew. pose proof (FairQueue_new_inv limit q Hl Hnew) as Hinv.
  pose proof (fq_run_inv q ops Hinv) as Hinv'.
  pose proof (fun c => fq_run_fifo q ops c Hinv) as Hfifo.
  destruct (fq_run q ops) as [q' es]. cbn in Hinv'. split_and!; [done| |].
  - intros c Hc. rewrite (Hfifo c Hc). unfold queue_of, FairQueue_new in *.
    case_if_in Hnew as E; [done|]. injection Hnew as <-. cbn. by rewrite lookup_empty.
  - destruct (pop q') as [q2 o] eqn:Hp. pose proof Hinv' as (_ & Hlen & _).
    apply pop_spec in Hp as [(-> & Hq & _)|(c & v & l & -> & Hc & _)]; [| |done]; cbn.
    + rewrite Hlen, Hq, total_empty. done.
    + split; [done|]. rewrite Hlen, (total_delete _ _ _ Hc).
      pose proof (total_nonneg (delete c (queues q'))). unfold llen. cbn. lia.
Qed.

Lemma fair_queue_bounded_fifo_witness :
  let q := MkFairQueue (T := Z) ∅ (MkScheduler None) 0 2 in
  let '(q', es) := fq_run q [DoPush (MkId 1) 7; DoPush (MkId 1) 8; DoPush (MkId 2) 9; DoPop] in
  fq_inv q' /\
  (forall c, DoCancel c ∉ [DoPush (MkId 1) 7; DoPush (MkId 1) 8; DoPush (MkId 2) 9; DoPop] ->
     omap (popped_of c) es ++ queue_of q' c = omap (pushed_of c) es) /\
  ((pop q').2 = None <-> fq_len q' = 0).
Proof.
  intros q. apply (fair_queue_bounded_fifo 2 q); [lia | reflexivity].
Defined.

(** C38: No campaign is overtaken twice.  Once a pop has served campaign [d] while
    another campaign [c] is waiting, [d] is not served again before [c] is served
    or cancelled, whatever is pushed, popped or cancelled in between. *)
Theorem fair_queue_no_overtaking {T} (q q1 : FairQueue T) (c d : ParticipantId) v ops :
  fq_inv q -> pop q = (q1, Some (d, v)) -> c <> d -> is_Some (queues q1 !! c) ->
  DoCancel c ∉ ops ->
  (exists v', Popped d v' ∈ (fq_run q1 ops).2) -> exists w, Popped c w ∈ (fq_run q1 ops).2.
Proof.
  intros Hq Hpop Hne Hc Hops (v' & Hd).
  apply pop_spec in Hpop as [(? & _)|(? & ? & l & [= <- <-] & _ & _ & _ & Hcur & _ & Hq1)]; [done| |done].
  assert (Harc : arc d d c).
  { assert (as_uuid c <> as_uuid d) by (destruct c, d; cbn in *; congruence).
    unfold arc, Id_lt, Id_le. lia. }
  assert (Hdec : (exists w, Popped c w ∈ (fq_run q1 ops).2) \/ forall w, Popped c w ∉ (fq_run q1 ops).2).
  { generalize (fq_run q1 ops).2 as es. intros es. induction es as [|e es IH]; [right; set_solver|].
    destruct IH as [[w Hw]|IH]; [left; exists w; set_solver|].
    destruct e as [| |c' w| |]; try (right; set_solver).
    destruct (decide (c' = c)) as [->|]; [left; exists w; set_solver | right; set_solver]. }
  destruct Hdec as [|Hno]; [done|]. exfalso.
  by apply (no_overtaking_run q1 ops c d Hq1 Hc Hops (ex_intro _ d (conj Hcur Harc)) Hno v').
Qed.

(** Campaign 1 has two items, campaign 2 one; 1 has just been served. *)
Lemma fair_queue_no_overtaking_witness :
  let q := MkFairQueue {[ MkId 1 := [7; 8]; MkId 2 := [9] ]} (MkScheduler None) 3 5 in
  exists w, Popped (MkId 2) w ∈ (fq_run (pop q).1 [DoPop; DoPop]).2.
Proof.
  intros q. apply (fair_queue_no_overtaking q (pop q).1 (MkId 2) (MkId 1) 7 [DoPop; DoPop]).
  - repeat split; [done..|]. intros c l. unfold q. cbn [queues]. intros [[_ <-]|[_ [_ <-]%lookup_singleton_Some]]%lookup_insert_Some; done.
  - vm_compute. reflexivity.
  - discriminate.
  - vm_compute. eauto.
  - set_solver.
  - exists 8. vm_compute. right. left.
Defined.
