(* ===== verification/FairCapacity.v ===== *)
(** * FairCapacity: the worker permits of the first-operation service

    Models [FairCapacity] and [FairCapacityPermit] of
    crates/navigator-core/src/first_operation.rs (lines 237-311).  Workers acquire a
    permit before they run; a waiter holds a oneshot channel, [release] sends to the
    next campaign's oldest waiter, and a send fails when the waiter's receiver has
    been dropped.  The mutex makes [acquire]'s synchronous part and [release] atomic;
    what can happen between them is the step function [fc_step]: a waiter's future
    may be dropped before it is granted, and also after it was granted but before it
    runs again (task abortion).

    [release]'s loop removes one sender per iteration, so the number of queued
    senders is enough fuel ([release_loop_fuel]). *)
From S2P Require Import Prelude Scalars Session Capacity.

Abbreviation waiter := nat.

Record FairCapacityState := MkFC {
  capacity : Z;
  active : Z;
  last_served : option ParticipantId;
  waiting : gmap ParticipantId (list waiter);
}.

(** [FairCapacity::new] panics on zero. *)
Definition FairCapacity_new (capacity : Z) : option FairCapacityState :=
  if capacity <=? 0 then None else Some (MkFC capacity 0 None ∅).

(** The state together with the channel ends it shares with the waiters: receivers
    already dropped, waiters that were sent their grant but have not resumed, the
    permits alive, grants lost, and the next channel. *)
Record FCWorld := MkFCWorld {
  fc : FairCapacityState;
  dropped : gset waiter;
  granted : gset waiter;
  permits : Z;
  lost : Z;
  next_waiter : waiter;
}.

(** The synchronous part of [acquire]: a permit at once, or a queued sender. *)
Definition acquire (w : FCWorld) (campaign : ParticipantId) : FCWorld :=
  let state := fc w in
  if (active state <? capacity state) && bool_decide (waiting state = ∅) then
    MkFCWorld (MkFC (capacity state) (active state + 1) (last_served state) (waiting state))
      (dropped w) (granted w) (permits w + 1) (lost w) (next_waiter w)
  else
    let queue := default [] (waiting state !! campaign) ++ [next_waiter w] in
    MkFCWorld (MkFC (capacity state) (active state) (last_served state)
                 (<[campaign := queue]> (waiting state)))
      (dropped w) (granted w) (permits w) (lost w) (S (next_waiter w)).

Definition next_campaign (state : FairCapacityState) : option ParticipantId :=
  let ks := merge_sort Id_le (keys (waiting state)) in
  match List.find (fun key => match last_served state with
                              | None => true | Some last => Id_ltb last key end) ks with
  | Some key => Some key
  | None => head ks
  end.

(** One iteration of the loop of [release]: pops a sender and tries to send. *)
Definition release_one (w : FCWorld) : FCWorld :=
  let state := fc w in
  match next_campaign state with
  | None => w
  | Some next =>
      let queue := default [] (waiting state !! next) in
      let waiting' := if bool_decide (tail queue = []) then delete next (waiting state)
                      else <[next := tail queue]> (waiting state) in
      match head queue with
      | Some sender =>
          if bool_decide (sender ∈ dropped w) then
            MkFCWorld (MkFC (capacity state) (active state) (last_served state) waiting')
              (dropped w) (granted w) (permits w) (lost w) (next_waiter w)
          else
            MkFCWorld (MkFC (capacity state) (active state + 1) (Some next) waiting')
              (dropped w) ({[sender]} ∪ granted w) (permits w) (lost w) (next_waiter w)
      | None =>
          MkFCWorld (MkFC (capacity state) (active state) (last_served state) waiting')
            (dropped w) (granted w) (permits w) (lost w) (next_waiter w)
      end
  end.

Fixpoint release_loop (fuel : nat) (w : FCWorld) : FCWorld :=
  match fuel with
  | O => w
  | S fuel =>
      let state := fc w in
      if (active state <? capacity state) && negb (bool_decide (waiting state = ∅))
      then release_loop fuel (release_one w) else w
  end.

(** [release]: [active] saturates at zero, then grants are handed on. *)
Definition release (w : FCWorld) : FCWorld :=
  let state := fc w in
  let w := MkFCWorld (MkFC (capacity state) (Z.max 0 (active state - 1)) (last_served state)
                        (waiting state)) (dropped w) (granted w) (permits w) (lost w) (next_waiter w) in
  release_loop (Z.to_nat (total (waiting state))) w.

Inductive FCLabel :=
| Acquire (campaign : ParticipantId)
| AbortWaiting (w : waiter)      (* the future is dropped before a grant *)
| ResumeGranted (w : waiter)     (* the granted future runs and builds its permit *)
| AbortGranted (w : waiter)      (* the granted future is dropped before it runs *)
| DropPermit.                    (* [Drop for FairCapacityPermit] *)

Definition is_queued (w : FCWorld) (x : waiter) : Prop :=
  exists c l, waiting (fc w) !! c = Some l /\ x ∈ l.

(** The steps of the workers and the runtime. *)
Inductive fc_step : FCWorld -> FCLabel -> FCWorld -> Prop :=
| step_acquire w c : fc_step w (Acquire c) (acquire w c)
| step_abort_waiting w x :
    is_queued w x ->
    fc_step w (AbortWaiting x)
      (MkFCWorld (fc w) ({[x]} ∪ dropped w) (granted w) (permits w) (lost w) (next_waiter w))
| step_resume w x :
    x ∈ granted w ->
    fc_step w (ResumeGranted x)
      (MkFCWorld (fc w) (dropped w) (granted w ∖ {[x]}) (permits w + 1) (lost w) (next_waiter w))
| step_abort_granted w x :
    x ∈ granted w ->
    fc_step w (AbortGranted x)
      (MkFCWorld (fc w) (dropped w) (granted w ∖ {[x]}) (permits w) (lost w + 1) (next_waiter w))
| step_drop w :
    0 < permits w ->
    fc_step w DropPermit
      (release (MkFCWorld (fc w) (dropped w) (granted w) (permits w - 1) (lost w) (next_waiter w))).

Definition fc_init (state : FairCapacityState) : FCWorld := MkFCWorld state ∅ ∅ 0 0 0.

(** ** Invariant *)

Definition no_empty (m : gmap ParticipantId (list waiter)) : Prop :=
  forall c l, m !! c = Some l -> l <> [].

(** What holds between steps and inside the loop of [release]. *)
Definition fc_base (w : FCWorld) : Prop :=
  0 < capacity (fc w) /\ active (fc w) <= capacity (fc w) /\ 0 <= permits w /\ 0 <= lost w /\
  active (fc w) = permits w + Z.of_nat (size (granted w)) + lost w /\
  no_empty (waiting (fc w)) /\
  (forall x, x ∈ granted w -> (x < next_waiter w)%nat) /\
  (forall c l, waiting (fc w) !! c = Some l ->
     NoDup l /\ forall x, x ∈ l -> (x < next_waiter w)%nat /\ x ∉ granted w) /\
  (forall c1 c2 l1 l2 x, waiting (fc w) !! c1 = Some l1 -> waiting (fc w) !! c2 = Some l2 ->
     x ∈ l1 -> x ∈ l2 -> c1 = c2).

(** Permits are handed on: somebody waits only when all capacity is in use. *)
Definition fc_inv (w : FCWorld) : Prop :=
  fc_base w /\ (waiting (fc w) <> ∅ -> active (fc w) = capacity (fc w)).

Lemma merge_sort_elem (x : ParticipantId) l : x ∈ merge_sort Id_le l <-> x ∈ l.
Proof. by rewrite (merge_sort_Permutation Id_le l). Qed.

Lemma next_campaign_Some state :
  waiting state <> ∅ ->
  exists c l, next_campaign state = Some c /\ waiting state !! c = Some l.
Proof.
  intros Hne. unfold next_campaign. set (ks := merge_sort Id_le (keys (waiting state))).
  assert (Hks : forall c, c ∈ ks -> exists l, waiting state !! c = Some l).
  { intros c Hc. unfold ks in Hc. rewrite merge_sort_elem in Hc. apply keys_elem in Hc as [l Hl]. eauto. }
  destruct (List.find _ ks) as [c|] eqn:Hf.
  - apply find_some in Hf as [Hin _]. apply list_elem_of_In in Hin.
    destruct (Hks c Hin) as [l Hl]. eauto.
  - destruct (head ks) as [c|] eqn:Hh.
    + destruct (Hks c (head_elem _ _ Hh)) as [l Hl]. eauto.
    + destruct Hne. apply map_eq. intros c. rewrite lookup_empty.
      destruct (waiting state !! c) as [l|] eqn:Hl; [|done].
      assert (Hin : c ∈ ks) by (unfold ks; rewrite merge_sort_elem; apply keys_elem; eauto).
      destruct ks; [by apply elem_of_nil in Hin | done].
Qed.

(** Removing the oldest sender of a campaign. *)
Definition pop_waiter (m : gmap ParticipantId (list waiter)) (c : ParticipantId) (l : list waiter) :
    gmap ParticipantId (list waiter) :=
  if bool_decide (l = []) then delete c m else <[c := l]> m.

Lemma pop_waiter_lookup m c l c' l' :
  pop_waiter m c l !! c' = Some l' ->
  (c' = c /\ l' = l /\ l <> []) \/ (c' <> c /\ m !! c' = Some l').
Proof.
  unfold pop_waiter. case_bool_decide.
  - intros [? ?]%lookup_delete_Some. naive_solver.
  - intros [[<- <-]|[? ?]]%lookup_insert_Some; naive_solver.
Qed.

Lemma pop_waiter_total m c x l :
  m !! c = Some (x :: l) -> total (pop_waiter m c l) = total m - 1.
Proof.
  intros Hc. unfold pop_waiter. case_bool_decide as Hnil.
  - rewrite (total_delete _ _ _ Hc). subst. unfold llen. cbn. lia.
  - rewrite total_insert, Hc. cbn. unfold llen. cbn. lia.
Qed.

(** The queue part of the invariant survives removing the oldest sender, and the
    removed sender is nowhere else. *)
Lemma pop_waiter_queues m c x l (n : nat) (g : gset waiter) :
  m !! c = Some (x :: l) ->
  (forall c l, m !! c = Some l -> NoDup l /\ forall x, x ∈ l -> (x < n)%nat /\ x ∉ g) ->
  (forall c1 c2 l1 l2 y, m !! c1 = Some l1 -> m !! c2 = Some l2 -> y ∈ l1 -> y ∈ l2 -> c1 = c2) ->
  (forall c' l', pop_waiter m c l !! c' = Some l' ->
     NoDup l' /\ forall y, y ∈ l' -> (y < n)%nat /\ (y ∉ g) /\ (y <> x)) /\
  (forall c1 c2 l1 l2 y, pop_waiter m c l !! c1 = Some l1 -> pop_waiter m c l !! c2 = Some l2 ->
     y ∈ l1 -> y ∈ l2 -> c1 = c2).
Proof.
  intros Hc Hq Hd.
  assert (Hsub : forall c' l', pop_waiter m c l !! c' = Some l' ->
    exists l0, m !! c' = Some l0 /\ forall y, y ∈ l' -> y ∈ l0).
  { intros c' l' [(-> & -> & _)|[? ?]]%pop_waiter_lookup; eexists; (split; [done|]); set_solver. }
  split.
  - intros c' l' Hl'. pose proof (Hq _ _ Hc) as [Hnd Hx]. apply NoDup_cons in Hnd as [Hnx Hnd].
    apply pop_waiter_lookup in Hl' as [(-> & -> & _)|[Hne Hm]].
    + split; [done|]. intros y Hy. destruct (Hx y); [set_solver|]. split_and!; auto. by intros ->.
    + destruct (Hq _ _ Hm) as [Hnd' Hy']. split; [done|]. intros y Hy. destruct (Hy' y Hy).
      split_and!; auto. intros ->. apply Hne. by apply (Hd c' c l' (x :: l) x Hm Hc Hy), list_elem_of_here.
  - intros c1 c2 l1 l2 y (m1 & H1 & S1)%Hsub (m2 & H2 & S2)%Hsub Hy1 Hy2.
    apply (Hd c1 c2 m1 m2 y H1 H2); [by apply S1 | by apply S2].
Qed.

Lemma release_one_base w :
  fc_base w -> active (fc w) < capacity (fc w) -> waiting (fc w) <> ∅ ->
  fc_base (release_one w) /\ total (waiting (fc (release_one w))) = total (waiting (fc w)) - 1 /\
  (capacity (fc (release_one w)), permits (release_one w), lost (release_one w)) =
  (capacity (fc w), permits w, lost w).
Proof.
  intros (Hcap & Hact & Hper & Hlost & Hsum & Hne & Hg & Hq & Hd) Hlt Hw.
  destruct (next_campaign_Some (fc w) Hw) as (c & l & Hnext & Hl).
  unfold release_one. rewrite Hnext, Hl. cbn [default].
  destruct l as [|x l]; [by destruct (Hne _ _ Hl)|]. cbn [from_option id head tail].
  change (if bool_decide (l = []) then delete c (waiting (fc w)) else <[c:=l]> (waiting (fc w)))
    with (pop_waiter (waiting (fc w)) c l).
  destruct (pop_waiter_queues _ c x l (next_waiter w) (granted w) Hl Hq Hd) as (Hq' & Hd').
  pose proof (pop_waiter_total _ _ _ _ Hl) as Htot.
  assert (Hne' : no_empty (pop_waiter (waiting (fc w)) c l)).
  { intros c' l' [(_ & -> & ?)|[_ ?]]%pop_waiter_lookup; [done | eauto]. }
  assert (Hx : (x < next_waiter w)%nat /\ x ∉ granted w) by (apply (Hq _ _ Hl); set_solver).
  case_if as E; cbn; (split; [|split; [done | done]]); unfold fc_base; cbn.
  - split_and!; [done..| | done]. intros c' l' Hl'. destruct (Hq' _ _ Hl') as [? Hy]. split; [done|].
    intros y Hyl. by destruct (Hy y Hyl) as (? & ? & _).
  - split_and!; [done | lia | done | done | | done | | | done].
    + rewrite size_union by set_solver. rewrite size_singleton. lia.
    + intros y. rewrite elem_of_union, elem_of_singleton. intros [->|?]; [tauto | auto].
    + intros c' l' Hl'. destruct (Hq' _ _ Hl') as [? Hy]. split; [done|]. intros y Hyl.
      destruct (Hy y Hyl) as (? & ? & ?). split; [done | set_solver].
Qed.

Lemma total_zero (m : gmap ParticipantId (list waiter)) : no_empty m -> total m <= 0 -> m = ∅.
Proof.
  intros Hne Ht. apply map_eq. intros c. rewrite lookup_empty.
  destruct (m !! c) as [l|] eqn:Hl; [|done]. rewrite (total_delete _ _ _ Hl) in Ht.
  pose proof (total_nonneg (delete c m)). destruct l; [by destruct (Hne _ _ Hl)|].
  unfold llen in Ht. cbn in Ht. lia.
Qed.

(** The fuel is enough: the loop ends because its condition fails. *)
Lemma release_loop_fuel fuel w :
  fc_base w -> total (waiting (fc w)) <= Z.of_nat fuel ->
  fc_inv (release_loop fuel w) /\
  (capacity (fc (release_loop fuel w)), permits (release_loop fuel w), lost (release_loop fuel w)) =
  (capacity (fc w), permits w, lost w).
Proof.
  revert w; induction fuel as [|fuel IH]; intros w Hb Ht.
  - cbn. split; [|done]. split; [done|]. intros Hne. destruct Hne. apply total_zero; [by apply Hb | lia].
  - cbn [release_loop]. case_if as E.
    + bool_norm. destruct (release_one_base w Hb) as (Hb1 & Ht1 & Heq); [done..|].
      destruct (IH (release_one w) Hb1) as [Hinv Heq']; [lia|]. split; [done | congruence].
    + split; [|done]. split; [done|]. intros Hne. rewrite bool_decide_false in E by done.
      rewrite andb_true_r in E. bool_norm. pose proof Hb as (_ & ? & _). lia.
Qed.

Lemma acquire_inv w c : fc_inv w ->
  fc_inv (acquire w c) /\ lost (acquire w c) = lost w /\ capacity (fc (acquire w c)) = capacity (fc w).
Proof.
  intros [(Hcap & Hact & Hper & Hlost & Hsum & Hne & Hg & Hq & Hd) Hfull].
  unfold acquire. case_if as E; (split; [|done]); split; unfold fc_base; cbn.
  - bool_norm. split_and!; try done; lia.
  - bool_norm. done.
  - set (n := next_waiter w) in *.
    assert (Hold : forall c' l', waiting (fc w) !! c' = Some l' -> n ∉ l').
    { intros c' l' Hl' Hn. destruct (Hq _ _ Hl') as [_ Hx]. specialize (Hx _ Hn). lia. }
    assert (Hng : n ∉ granted w) by (intros Hn; specialize (Hg _ Hn); lia).
    assert (Hin : forall y, y ∈ default [] (waiting (fc w) !! c) ++ [n] ->
      y = n \/ exists l0, waiting (fc w) !! c = Some l0 /\ y ∈ l0).
    { intros y [Hy|Hy%list_elem_of_singleton]%elem_of_app; [right | by left].
      destruct (waiting (fc w) !! c) as [l0|]; cbn in Hy; [eauto | by apply elem_of_nil in Hy]. }
    split_and!; [done..| | | |].
    + intros c' l' [[<- <-]|[_ ?]]%lookup_insert_Some; [by destruct (default [] _) | eauto].
    + intros x Hx. specialize (Hg _ Hx). lia.
    + intros c' l' [[<- <-]|[_ Hl']]%lookup_insert_Some.
      * split.
        -- destruct (waiting (fc w) !! c) as [l0|] eqn:Hl0; cbn; [|apply NoDup_singleton].
           apply NoDup_app. split_and!; [by apply (Hq _ _ Hl0) | | apply NoDup_singleton].
           intros y Hy ->%list_elem_of_singleton. by apply (Hold _ _ Hl0).
        -- intros y [->|(l0 & Hl0 & Hy)]%Hin; [split; [lia | done]|].
           destruct (Hq _ _ Hl0) as [_ Hx]. specialize (Hx _ Hy). split; [lia | tauto].
      * destruct (Hq _ _ Hl') as [Hnd Hx]. split; [done|]. intros y Hy. specialize (Hx _ Hy).
        split; [lia | tauto].
    + intros c1 c2 l1 l2 y [[<- <-]|[_ H1]]%lookup_insert_Some [[<- <-]|[_ H2]]%lookup_insert_Some Hy1 Hy2;
        [done| | |eauto].
      * apply Hin in Hy1 as [->|(l0 & Hl0 & Hy1)]; [by destruct (Hold _ _ H2) | eauto].
      * apply Hin in Hy2 as [->|(l0 & Hl0 & Hy2)]; [by destruct (Hold _ _ H1) | eauto].
  - intros _. apply andb_false_iff in E as [E|E]; bool_norm; [lia | auto].
Qed.

Lemma size_remove (x : waiter) (g : gset waiter) :
  x ∈ g -> Z.of_nat (size g) = 1 + Z.of_nat (size (g ∖ {[x]})).
Proof.
  intros Hx. rewrite (union_difference_singleton_L x g) at 1 by done.
  rewrite size_union by set_solver. rewrite size_singleton. lia.
Qed.

Lemma queues_shrink (m : gmap ParticipantId (list waiter)) (n : nat) (g : gset waiter) x :
  (forall c l, m !! c = Some l -> NoDup l /\ forall y, y ∈ l -> (y < n)%nat /\ y ∉ g) ->
  forall c l, m !! c = Some l -> NoDup l /\ forall y, y ∈ l -> (y < n)%nat /\ y ∉ g ∖ {[x]}.
Proof. intros Hq c l Hl. destruct (Hq _ _ Hl) as [? Hy]. set_solver. Qed.

Definition lost_by (l : FCLabel) : Z := match l with AbortGranted _ => 1 | _ => 0 end.

Lemma fc_step_inv w l w' :
  fc_inv w -> fc_step w l w' ->
  fc_inv w' /\ lost w' = lost w + lost_by l /\ capacity (fc w') = capacity (fc w).
Proof.
  intros Hinv Hstep. destruct Hstep as [w c|w x Hx|w x Hx|w x Hx|w Hp]; cbn [lost_by].
  { destruct (acquire_inv w c Hinv) as (? & -> & ->). split_and!; [done | lia | done]. }
  all: destruct Hinv as [(Hcap & Hact & Hper & Hlost & Hsum & Hne & Hg & Hq & Hd) Hfull].
  - split_and!; [|cbn; lia | done]. split; [|done]. unfold fc_base; cbn. split_and!; done.
  - pose proof (size_remove x (granted w) Hx). split_and!; [|cbn; lia | done].
    split; [|done]. unfold fc_base; cbn. split_and!; try done; [lia | lia | set_solver |].
    by apply queues_shrink.
  - pose proof (size_remove x (granted w) Hx). split_and!; [|cbn; lia | done].
    split; [|done]. unfold fc_base; cbn. split_and!; try done; [lia | lia | set_solver |].
    by apply queues_shrink.
  - unfold release; cbn.
    destruct (release_loop_fuel (Z.to_nat (total (waiting (fc w))))
      (MkFCWorld (MkFC (capacity (fc w)) (Z.max 0 (active (fc w) - 1)) (last_served (fc w)) (waiting (fc w)))
         (dropped w) (granted w) (permits w - 1) (lost w) (next_waiter w))) as [Hi Heq].
    + unfold fc_base; cbn. split_and!; done || lia.
    + cbn. pose proof (total_nonneg (waiting (fc w))). lia.
    + cbn in Heq. injection Heq as ? ? ?. split_and!; [done | lia | done].
Qed.

Lemma fc_trace_inv w ls w' :
  trace fc_step w ls w' -> fc_inv w ->
  fc_inv w' /\ lost w' = lost w + fold_right (fun l n => lost_by l + n) 0 ls /\
  capacity (fc w') = capacity (fc w).
Proof.
  induction 1 as [w|w l w1 ls w2 Hs _ IH]; intros Hinv; cbn; [split_and!; [done | lia | done]|].
  destruct (fc_step_inv _ _ _ Hinv Hs) as (Hi & Hl & Hc). destruct (IH Hi) as (? & ? & ?).
  split_and!; [done | lia | congruence].
Qed.

Lemma fc_init_inv cap s : FairCapacity_new cap = Some s -> fc_inv (fc_init s).
Proof.
  unfold FairCapacity_new. intros H. case_if_in H as E; [done|]. bool_norm. injection H as <-.
  split; [|done]. unfold fc_base, fc_init; cbn. split_and!; try done; try lia.
  all: intros *; rewrite lookup_empty; done.
Qed.

(** ** Properties *)

(** Permits are conserved.  In every state reachable from a fresh capacity, the
    permits alive, the grants under way and the grants whose waiter was aborted
    after being granted add up to [active], which never exceeds the capacity; and
    somebody is left waiting only while all the rest of the capacity is in use.  In
    particular, as long as no granted waiter is aborted, at most [capacity] workers
    run and no permit is ever idle while a worker waits. *)
Theorem fair_capacity_conserved cap s ls w :
  FairCapacity_new cap = Some s -> trace fc_step (fc_init s) ls w ->
  let aborted := fold_right (fun l n => lost_by l + n) 0 ls in
  permits w + Z.of_nat (size (granted w)) + aborted = active (fc w) /\
  active (fc w) <= cap /\ 0 <= permits w /\
  (waiting (fc w) <> ∅ -> permits w + Z.of_nat (size (granted w)) = cap - aborted).
Proof.
  intros Hnew Ht aborted.
  destruct (fc_trace_inv _ _ _ Ht (fc_init_inv _ _ Hnew)) as
    ([(_ & Hact & Hper & _ & Hsum & _) Hfull] & Hlost & Hcap).
  cbn in Hlost. fold aborted in Hlost.
  assert (Hc : capacity (fc w) = cap).
  { rewrite Hcap. unfold FairCapacity_new in Hnew. case_if_in Hnew as E; [done|]. by injection Hnew as <-. }
  split_and!; [lia | lia | done |]. intros Hw. specialize (Hfull Hw). lia.
Qed.

Lemma zero_removed : ({[0%nat]} : gset waiter) ∖ {[0%nat]} = ∅.
Proof. apply set_eq. set_solver. Qed.

(** One permit; a second worker waits, is granted on release and resumes. *)
Lemma fair_capacity_conserved_witness :
  let w := MkFCWorld (MkFC 1 1 (Some (MkId 5)) ∅) ∅ ∅ 1 0 1 in
  permits w + Z.of_nat (size (granted w)) + 0 = active (fc w).
Proof.
  intros w. refine (proj1 (fair_capacity_conserved 1 (MkFC 1 0 None ∅)
    [Acquire (MkId 4); Acquire (MkId 5); DropPermit; ResumeGranted 0%nat] w _ _)); [reflexivity|].
  eapply trace_cons; [constructor|]. eapply trace_cons; [constructor|].
  eapply trace_cons; [constructor; reflexivity|]. eapply trace_cons; [|apply trace_nil].
  match goal with |- fc_step ?a _ _ =>
    assert (a = MkFCWorld (MkFC 1 1 (Some (MkId 5)) ∅) ∅ {[0%nat]} 0 0 1) as -> by (vm_compute; reflexivity) end.
  pose proof (step_resume (MkFCWorld (MkFC 1 1 (Some (MkId 5)) ∅) ∅ {[0%nat]} 0 0 1) 0%nat
    ltac:(set_solver)) as Hs. cbn in Hs. rewrite zero_removed in Hs. exact Hs.
Defined.

(** Aborting a granted waiter loses its permit for good.  With capacity one,
    there is a reachable state (a worker runs, another waits, the first finishes,
    the second is aborted before it resumes) in which no permit is alive and none
    under way, yet the capacity counts as used, and from which no continuation ever
    grants a permit again. *)
Theorem abort_after_grant_loses_capacity :
  exists s ls w, FairCapacity_new 1 = Some s /\ trace fc_step (fc_init s) ls w /\
    permits w = 0 /\ granted w = ∅ /\ waiting (fc w) = ∅ /\ active (fc w) = 1 /\
    forall ls' w', trace fc_step w ls' w' -> permits w' = 0 /\ granted w' = ∅.
Proof.
  exists (MkFC 1 0 None ∅), [Acquire (MkId 4); Acquire (MkId 5); DropPermit; AbortGranted 0%nat].
  exists (MkFCWorld (MkFC 1 1 (Some (MkId 5)) ∅) ∅ ∅ 0 1 1).
  split_and!; try reflexivity.
  - eapply trace_cons; [constructor|]. eapply trace_cons; [constructor|].
    eapply trace_cons; [constructor; done|].
    eapply trace_cons; [|apply trace_nil].
    match goal with |- fc_step ?a _ _ =>
      assert (a = MkFCWorld (MkFC 1 1 (Some (MkId 5)) ∅) ∅ {[0%nat]} 0 0 1) as -> by (vm_compute; reflexivity) end.
    pose proof (step_abort_granted (MkFCWorld (MkFC 1 1 (Some (MkId 5)) ∅) ∅ {[0%nat]} 0 0 1) 0%nat
      ltac:(set_solver)) as Hs. cbn in Hs. rewrite zero_removed in Hs. exact Hs.
  - intros ls' w' Ht.
    assert (Hdead : active (fc w') = capacity (fc w') /\ permits w' = 0 /\ granted w' = ∅); [|tauto].
    refine (trace_invariant fc_step
      (fun w => active (fc w) = capacity (fc w) /\ permits w = 0 /\ granted w = ∅) _ _ _ _ Ht _); [|done].
    intros w1 l w2 (Ha & Hp & Hg) Hs. destruct Hs as [w c|w x Hx|w x Hx|w x Hx|w Hpos].
    + unfold acquire. rewrite Ha, Z.ltb_irrefl. done.
    + done.
    + set_solver.
    + set_solver.
    + lia.
Qed.
