(* ===== verification/Artifact.v ===== *)
(** * Artifact: immutable artifact references and stored snapshots

    Models crates/navigator-domain/src/artifact.rs.  A locator is a relative path
    below the artifact root; [structurally_valid] is the check that every stored
    snapshot passes before its locator is used. *)
From S2P Require Import Prelude Scalars Session.

Definition MAX_ARTIFACT_BYTES : Z := 64 * 1024 * 1024.
Definition MAX_MEDIA_TYPE_BYTES : Z := 255.

Record ArtifactDigest := MkArtifactDigest { artifact_digest_bytes : bytes }.
#[global] Instance ArtifactDigest_eq_dec : EqDecision ArtifactDigest.
Proof. solve_decision. Defined.

Inductive ArtifactState := Available | LogicallyDeleted | PhysicallyErased.
#[global] Instance ArtifactState_eq_dec : EqDecision ArtifactState.
Proof. solve_decision. Defined.

Record ArtifactRef := MkArtifactRef {
  ar_artifact_id : ArtifactId;
  ar_session_id : SessionId;
  ar_creator_participant_id : ParticipantId;
  ar_creator_operation_id : OperationId;
  ar_media_type : BoundedText MAX_MEDIA_TYPE_BYTES;
  ar_size : Z;
  ar_digest : ArtifactDigest;
}.
#[global] Instance ArtifactRef_eq_dec : EqDecision ArtifactRef.
Proof. solve_decision. Defined.

Record ArtifactRefWire := MkArtifactRefWire {
  arw_artifact_id : ArtifactId;
  arw_session_id : SessionId;
  arw_creator_participant_id : ParticipantId;
  arw_creator_operation_id : OperationId;
  arw_media_type : BoundedText MAX_MEDIA_TYPE_BYTES;
  arw_size : Z;
  arw_digest : ArtifactDigest;
}.

Inductive ArtifactRefError := ArtifactTooLarge.

Definition ArtifactRef_new artifact_id session_id creator_participant_id creator_operation_id
    media_type (size : Z) digest : result ArtifactRefError ArtifactRef :=
  if MAX_ARTIFACT_BYTES <? size then Err ArtifactTooLarge
  else Ok (MkArtifactRef artifact_id session_id creator_participant_id creator_operation_id
             media_type size digest).

Definition ArtifactRef_try_from (v : ArtifactRefWire) : result ArtifactRefError ArtifactRef :=
  ArtifactRef_new (arw_artifact_id v) (arw_session_id v) (arw_creator_participant_id v)
    (arw_creator_operation_id v) (arw_media_type v) (arw_size v) (arw_digest v).

Definition ArtifactRefWire_from (v : ArtifactRef) : ArtifactRefWire :=
  MkArtifactRefWire (ar_artifact_id v) (ar_session_id v) (ar_creator_participant_id v)
    (ar_creator_operation_id v) (ar_media_type v) (ar_size v) (ar_digest v).

#[global] Instance ArtifactRef_validated : Validated ArtifactRefWire ArtifactRef ArtifactRefError :=
  {| validate := ArtifactRef_try_from; wire := ArtifactRefWire_from;
     wf r := ar_size r <= MAX_ARTIFACT_BYTES |}.
#[global] Instance ArtifactRef_laws : ValidatedLaws ArtifactRefWire ArtifactRef ArtifactRefError.
Proof.
  split; unfold validate, wire, wf, ArtifactRef_validated, ArtifactRef_try_from, ArtifactRef_new.
  - intros [] t Hv; cbn in *. inv_result. done.
  - intros [] Hsz; cbn in *. case_if as E; bool_norm; [lia | done].
Qed.

Record ArtifactSnapshot := MkArtifactSnapshot {
  as_artifact_id : ArtifactId;
  as_session_id : SessionId;
  as_creator_participant_id : ParticipantId;
  as_creator_operation_id : OperationId;
  as_media_type : BoundedText MAX_MEDIA_TYPE_BYTES;
  as_size : Z;
  as_digest : ArtifactDigest;
  as_locator : string;
  as_state : ArtifactState;
  as_revision : Revision;
  as_retention_until : Timestamp;
  as_created_at : Timestamp;
  as_deleted_at : option Timestamp;
}.

(** [str::split('/')]: one piece more than there are separators. *)
Fixpoint split_slash (s : string) : list string :=
  match s with
  | EmptyString => [EmptyString]
  | String c s =>
      if Ascii.eqb c "/"%char then EmptyString :: split_slash s
      else match split_slash s with
           | piece :: pieces => String c piece :: pieces
           | [] => [String c EmptyString]
           end
  end.

Definition starts_with_slash (s : string) : bool :=
  match s with String c _ => Ascii.eqb c "/"%char | EmptyString => false end.

Definition bad_part (part : string) : bool :=
  bool_decide (part = EmptyString) || String.eqb part "." || String.eqb part "..".

Definition structurally_valid (a : ArtifactSnapshot) : bool :=
  (as_size a <=? MAX_ARTIFACT_BYTES)
  && negb (bool_decide (as_locator a = EmptyString))
  && negb (starts_with_slash (as_locator a))
  && negb (existsb bad_part (split_slash (as_locator a)))
  && match as_state a with
     | Available => match as_deleted_at a with None => true | Some _ => false end
     | LogicallyDeleted | PhysicallyErased =>
         match as_deleted_at a with Some _ => true | None => false end
     end.

(** ** Path resolution

    What a file system does with a relative path: each piece is a step from the
    directory reached so far, [..] goes up and [.] or an empty piece stays. *)
Fixpoint resolve (dir : list string) (pieces : list string) : list string :=
  match pieces with
  | [] => dir
  | p :: pieces =>
      resolve (if String.eqb p ".." then tail dir
               else if bool_decide (p = EmptyString) || String.eqb p "." then dir
               else p :: dir) pieces
  end.

Lemma resolve_below dir pieces :
  existsb bad_part pieces = false -> resolve dir pieces = rev pieces ++ dir.
Proof.
  revert dir; induction pieces as [|p pieces IH]; intros dir H; [done|].
  cbn in H. apply orb_false_iff in H as [Hp H]. unfold bad_part in Hp.
  apply orb_false_iff in Hp as [[H1 H2]%orb_false_iff H3]. cbn [resolve rev].
  rewrite H1, H2, H3. cbn. rewrite IH, <-app_assoc by done. done.
Qed.

(** A snapshot that passes the check is stored strictly below the root, at the
    directory its locator spells. *)
Lemma locator_below_root a root :
  structurally_valid a = true ->
  exists path, path <> [] /\ resolve root (split_slash (as_locator a)) = path ++ root.
Proof.
  unfold structurally_valid. intros H. bool_norm. exists (rev (split_slash (as_locator a))).
  split; [|by apply resolve_below].
  intros Hnil. apply (f_equal (@length string)) in Hnil. rewrite length_rev in Hnil.
  destruct (as_locator a) as [|c s]; [done|]. cbn in Hnil.
  destruct (Ascii.eqb c "/"); [done|]. by destruct (split_slash s).
Qed.
