(* ===== verification/Json.v ===== *)
(** * Json: values and their canonical form

    Models serde_json's [Value] as the code uses it and [canonicalize]
    of crates/navigator-domain/src/tool.rs.  An object is its list of entries; the crate is built
    without [preserve_order], so an object is a [BTreeMap]: entries come in key
    order and no key occurs twice ([value_wf]).  Parsing and printing belong to the
    library and are the class [Json]. *)
From S2P Require Import Prelude Scalars Session.

(** [serde_json::Number]: an unsigned, a negative, or a finite float (its bits). *)
Inductive Number := PosInt (n : Z) | NegInt (n : Z) | Float (bits : Z).

#[local] Set Warnings "-register-all".
Inductive Value :=
| VNull
| VBool (b : bool)
| VNumber (n : Number)
| VString (s : string)
| VArray (l : list Value)
| VObject (entries : list (string * Value)).

(** Induction that reaches the elements of arrays and objects. *)
Section value_ind.
Variable P : Value -> Prop.
Hypothesis HNull : P VNull.
Hypothesis HBool : forall b, P (VBool b).
Hypothesis HNumber : forall n, P (VNumber n).
Hypothesis HString : forall s, P (VString s).
Hypothesis HArray : forall l, Forall P l -> P (VArray l).
Hypothesis HObject : forall o, Forall (fun e => P e.2) o -> P (VObject o).

Fixpoint value_ind' (v : Value) : P v :=
  match v with
  | VNull => HNull
  | VBool b => HBool b
  | VNumber n => HNumber n
  | VString s => HString s
  | VArray l => HArray l ((fix go l : Forall P l := match l with
      | [] => Forall_nil_2 P
      | x :: l => Forall_cons_2 P x l (value_ind' x) (go l) end) l)
  | VObject o => HObject o ((fix go o : Forall (fun e => P e.2) o := match o with
      | [] => Forall_nil_2 _
      | (k, x) :: o => Forall_cons_2 _ (k, x) o (value_ind' x) (go o) end) o)
  end.
End value_ind.

(** Lookup in an object's entries ([Map::get]). *)
Fixpoint obj_get (key : string) (o : list (string * Value)) : option Value :=
  match o with
  | [] => None
  | (k, v) :: o => if String.eqb k key then Some v else obj_get key o
  end.

Definition as_object (v : Value) : option (list (string * Value)) :=
  match v with VObject o => Some o | _ => None end.
Definition as_array (v : Value) : option (list Value) :=
  match v with VArray l => Some l | _ => None end.
Definition value_as_str (v : Value) : option string :=
  match v with VString s => Some s | _ => None end.
(** [as_i64().is_some() || as_u64().is_some()]: an unsigned value above [i64::MAX]
    is only a [u64], a negative one only an [i64]; a float is neither. *)
Definition is_integer (v : Value) : bool :=
  match v with VNumber (PosInt _ | NegInt _) => true | _ => false end.
Definition is_number (v : Value) : bool := match v with VNumber _ => true | _ => false end.
Definition is_boolean (v : Value) : bool := match v with VBool _ => true | _ => false end.

(** ** Canonical form *)

(** [BTreeMap] collection of entries, later ones replacing earlier ones with the
    same key. *)
Fixpoint btree_insert (k : string) (v : Value) (o : list (string * Value)) : list (string * Value) :=
  match o with
  | [] => [(k, v)]
  | (k', v') :: o =>
      if String.eqb k k' then (k, v) :: o
      else if String.ltb k k' then (k, v) :: (k', v') :: o
      else (k', v') :: btree_insert k v o
  end.
Definition btree_collect (o : list (string * Value)) : list (string * Value) :=
  fold_left (fun acc e => btree_insert e.1 e.2 acc) o [].

Fixpoint canonicalize (v : Value) : Value :=
  match v with
  | VArray l => VArray (map canonicalize l)
  | VObject o => VObject (btree_collect (map (fun e => (e.1, canonicalize e.2)) o))
  | scalar => scalar
  end.

(** The invariant of every [Value] the library builds. *)
Definition keys_sorted (o : list (string * Value)) : Prop :=
  StronglySorted (fun a b => String.ltb a.1 b.1 = true) o.

Inductive value_wf : Value -> Prop :=
| wf_null : value_wf VNull
| wf_bool b : value_wf (VBool b)
| wf_number n : value_wf (VNumber n)
| wf_string s : value_wf (VString s)
| wf_array l : Forall value_wf l -> value_wf (VArray l)
| wf_object o : keys_sorted o -> Forall (fun e => value_wf e.2) o -> value_wf (VObject o).

(** Values without floating-point numbers: those print and parse exactly. *)
Inductive float_free : Value -> Prop :=
| ff_null : float_free VNull
| ff_bool b : float_free (VBool b)
| ff_pos n : float_free (VNumber (PosInt n))
| ff_neg n : float_free (VNumber (NegInt n))
| ff_string s : float_free (VString s)
| ff_array l : Forall float_free l -> float_free (VArray l)
| ff_object o : Forall (fun e => float_free e.2) o -> float_free (VObject o).

(** ** The library *)

Class Json := {
  from_slice : bytes -> option Value;
  to_vec : Value -> bytes;
}.

Class JsonLaws `{!Json} := {
  (** Parsing builds maps. *)
  from_slice_wf : forall b v, from_slice b = Some v -> value_wf v;
  (** Printing a parsed value and parsing it again gives the value back, as long as
      it holds no float (exact float round trips need an option the crate does not
      enable). *)
  from_slice_to_vec : forall b v, from_slice b = Some v -> float_free v ->
    from_slice (to_vec v) = Some v;
}.

(** How the library prints an identity. *)
Class UuidText := uuid_text : Uuid -> string.

(** How the derived serializers print identities, options, integers and bytes. *)
Definition json_id `{!UuidText} {k} (i : Id k) : Value := VString (uuid_text (as_uuid i)).
Definition json_option {A} (f : A -> Value) (o : option A) : Value :=
  match o with Some a => f a | None => VNull end.
Definition json_u64 (n : Z) : Value := VNumber (PosInt n).
Definition json_bytes (b : bytes) : Value := VArray (json_u64 <$> b).
Definition json_i64 (n : Z) : Value := VNumber (if n <? 0 then NegInt n else PosInt n).

(** ** Lemmas *)

Lemma string_ltb_irrefl s : String.ltb s s = false.
Proof.
  unfold String.ltb. pose proof (String.compare_antisym s s) as Ha. by destruct (String.compare s s).
Qed.

Lemma btree_insert_last k v o :
  Forall (fun e => String.ltb e.1 k = true) o -> btree_insert k v o = o ++ [(k, v)].
Proof.
  induction o as [|[k' v'] o IH]; [done|]. intros [Hk Ho]%Forall_cons. cbn in Hk |- *.
  destruct (String.eqb_spec k k') as [<-|Hne]; [by rewrite string_ltb_irrefl in Hk|].
  assert (String.ltb k k' = false) as ->.
  { unfold String.ltb in *. rewrite String.compare_antisym.
    destruct (String.compare k' k); done. }
  by rewrite IH.
Qed.

Lemma btree_collect_sorted o : keys_sorted o -> btree_collect o = o.
Proof.
  intros Hs. unfold btree_collect.
  assert (Hgen : forall acc, keys_sorted (acc ++ o) ->
    fold_left (fun acc e => btree_insert e.1 e.2 acc) o acc = acc ++ o).
  { clear Hs. induction o as [|[k v] o IH]; intros acc Hs; cbn; [by rewrite app_nil_r|].
    rewrite btree_insert_last.
    - rewrite IH; [by rewrite <-app_assoc | by rewrite <-app_assoc].
    - apply Forall_forall. intros e He. unfold keys_sorted in Hs.
      apply list_elem_of_lookup_1 in He as [i Hi]. pose proof (lookup_lt_Some _ _ _ Hi).
      apply (StronglySorted_lookup_lt _ _ i (length acc) e (k, v) Hs); [by apply lookup_app_l_Some | | done].
      rewrite lookup_app_r, Nat.sub_diag by lia. done. }
  by apply Hgen.
Qed.

(** On the library's values canonicalization changes nothing. *)
Lemma canonicalize_wf v : value_wf v -> canonicalize v = v.
Proof.
  induction v as [| | | |l IH|o IH] using value_ind'; intros Hwf; inversion Hwf as [| | | |? Hl|? Hk Ho]; subst; cbn; try done.
  - f_equal. rewrite <-(map_id l) at 2. apply map_ext_in. intros x Hx%list_elem_of_In.
    rewrite Forall_forall in IH, Hl. by apply IH, Hl.
  - f_equal. assert (map (fun e => (e.1, canonicalize e.2)) o = o) as ->.
    { rewrite <-(map_id o) at 2. apply map_ext_in. intros [k x] Hx%list_elem_of_In.
      rewrite Forall_forall in IH, Ho. cbn. f_equal. by apply (IH _ Hx), (Ho _ Hx). }
    by apply btree_collect_sorted.
Qed.
