(* ===== verification/Tool.v ===== *)
(** * Tool: tool contracts, invocations, results and their JSON schemas

    Models crates/navigator-domain/src/tool.rs.  The two recursive schema functions
    count depth upwards and stop above 32; here the budget counts down from 33, so
    the budget is 33 minus the depth and running out of it is the code's own depth
    error, not a modelling artefact. *)
From S2P Require Import Prelude Scalars Session Authority Operation RecoveryTable Artifact Json.

Definition MAX_TOOL_NAME_BYTES : Z := 128.
Definition MAX_TOOL_VERSION_BYTES : Z := 64.
Definition MAX_TOOL_SCHEMA_BYTES : Z := 16384.
Definition MAX_TOOL_INLINE_BYTES : Z := 65536.
Definition MAX_TOOL_FAILURE_MESSAGE_BYTES : Z := 1024.
Definition MAX_TOOL_TIMEOUT_MILLIS : Z := 3600000.
Definition MAX_TOOL_ARTIFACT_REFS : Z := 32.

Abbreviation ToolName := (BoundedText MAX_TOOL_NAME_BYTES).
Abbreviation ToolVersion := (BoundedText MAX_TOOL_VERSION_BYTES).

Inductive ToolDomainError :=
| InvalidJson | ToolTooLarge | InvalidStableIdentifier | InvalidTimeout
| ContradictoryIdempotency | TooManyArtifacts | SchemaMustBeObject | UnsupportedSchema
| SchemaMismatch.
#[global] Instance ToolDomainError_eq_dec : EqDecision ToolDomainError.
Proof. solve_decision. Defined.

(** ** Canonical JSON *)

Record CanonicalJson (MAX : Z) := MkCanonicalJson { cj_as_bytes : bytes }.
Arguments MkCanonicalJson {MAX} _.
Arguments cj_as_bytes {MAX} _.
#[global] Instance CanonicalJson_eq_dec M : EqDecision (CanonicalJson M).
Proof. solve_decision. Defined.

Definition CanonicalJson_new `{!Json} {MAX : Z} (b : bytes) : result ToolDomainError (CanonicalJson MAX) :=
  value ← ok_or InvalidJson (from_slice b);
  let canonical := to_vec (canonicalize value) in
  if MAX <? llen canonical then Err ToolTooLarge else Ok (MkCanonicalJson canonical).

(** ** Schemas *)

Definition schema_keyword (key : string) : bool :=
  String.eqb key "type" || String.eqb key "required" || String.eqb key "properties"
  || String.eqb key "items" || String.eqb key "additionalProperties".

Definition schema_type (kind : string) : bool :=
  String.eqb kind "object" || String.eqb kind "array" || String.eqb kind "string"
  || String.eqb kind "integer" || String.eqb kind "number" || String.eqb kind "boolean"
  || String.eqb kind "null".

(** [for x in l { f(x)?; }]. *)
Fixpoint for_each {E A} (f : A -> result E unit) (l : list A) : result E unit :=
  match l with
  | [] => Ok tt
  | x :: l => _ ← f x; for_each f l
  end.

Definition guard {E} (b : bool) (e : E) : result E unit := if b then Ok tt else Err e.

Fixpoint validate_schema_shape (budget : nat) (schema : Value) : result ToolDomainError unit :=
  match budget with
  | O => Err UnsupportedSchema
  | S budget =>
      object ← ok_or UnsupportedSchema (as_object schema);
      if bool_decide (length object = 0%nat) then Ok tt
      else if existsb (fun e => negb (schema_keyword e.1)) object then Err UnsupportedSchema
      else
        kind ← ok_or UnsupportedSchema (obj_get "type" object ≫= value_as_str);
        _ ← guard (schema_type kind) UnsupportedSchema;
        _ ← match obj_get "required" object with
            | Some required =>
                values ← ok_or UnsupportedSchema (as_array required);
                guard (forallb (fun v => match value_as_str v with Some _ => true | None => false end)
                         values) UnsupportedSchema
            | None => Ok tt
            end;
        _ ← match obj_get "properties" object with
            | Some properties =>
                values ← ok_or UnsupportedSchema (as_object properties);
                for_each (fun e => validate_schema_shape budget e.2) values
            | None => Ok tt
            end;
        _ ← match obj_get "items" object with
            | Some items => validate_schema_shape budget items
            | None => Ok tt
            end;
        match obj_get "additionalProperties" object with
        | Some v => guard (is_boolean v) UnsupportedSchema
        | None => Ok tt
        end
  end.

(** [match expected { .. }]: whether the value has the type, [None] for an unknown
    type name. *)
Definition type_matches (expected : string) (value : Value) : option bool :=
  if String.eqb expected "object" then Some (match value with VObject _ => true | _ => false end)
  else if String.eqb expected "array" then Some (match value with VArray _ => true | _ => false end)
  else if String.eqb expected "string" then Some (match value with VString _ => true | _ => false end)
  else if String.eqb expected "integer" then Some (is_integer value)
  else if String.eqb expected "number" then Some (is_number value)
  else if String.eqb expected "boolean" then Some (is_boolean value)
  else if String.eqb expected "null" then Some (match value with VNull => true | _ => false end)
  else None.

Definition has_key (key : string) (o : list (string * Value)) : bool :=
  match obj_get key o with Some _ => true | None => false end.

Fixpoint validate_schema_node (budget : nat) (schema value : Value) : result ToolDomainError unit :=
  match budget with
  | O => Err UnsupportedSchema
  | S budget =>
      object ← ok_or UnsupportedSchema (as_object schema);
      if bool_decide (length object = 0%nat) then Ok tt
      else if existsb (fun e => negb (schema_keyword e.1)) object then Err UnsupportedSchema
      else
        expected ← ok_or UnsupportedSchema (obj_get "type" object ≫= value_as_str);
        matches ← ok_or UnsupportedSchema (type_matches expected value);
        if negb matches then Err SchemaMismatch
        else if String.eqb expected "object" then
          values ← ok_or UnsupportedSchema (as_object value);
          let properties := obj_get "properties" object ≫= as_object in
          _ ← match obj_get "required" object with
              | Some required =>
                  required ← ok_or UnsupportedSchema (as_array required);
                  for_each (fun key =>
                    key ← ok_or UnsupportedSchema (value_as_str key);
                    guard (has_key key values) SchemaMismatch) required
              | None => Ok tt
              end;
          _ ← match obj_get "additionalProperties" object with
              | Some (VBool false) =>
                  guard (negb (existsb (fun e => match properties with
                                        | Some p => negb (has_key e.1 p) | None => true end) values))
                    SchemaMismatch
              | _ => Ok tt
              end;
          match properties with
          | Some properties =>
              for_each (fun e => match obj_get e.1 values with
                                 | Some child_value => validate_schema_node budget e.2 child_value
                                 | None => Ok tt
                                 end) properties
          | None => Ok tt
          end
        else if String.eqb expected "array" then
          match obj_get "items" object with
          | Some items =>
              values ← ok_or UnsupportedSchema (as_array value);
              for_each (fun item => validate_schema_node budget items item) values
          | None => Ok tt
          end
        else Ok tt
  end.

(** The depth the code starts at is 0. *)
Definition schema_budget : nat := 33.

Definition json_is_object `{!Json} (b : bytes) : bool :=
  match from_slice b with Some (VObject _) => true | _ => false end.

Definition validate_json_value `{!Json} (schema value : bytes) : result ToolDomainError unit :=
  schema ← ok_or InvalidJson (from_slice schema);
  value ← ok_or InvalidJson (from_slice value);
  validate_schema_node schema_budget schema value.

Definition edge_byte (c : ascii) : bool := is_dot_dash_underscore c.

Fixpoint string_last (s : string) : option ascii :=
  match s with
  | EmptyString => None
  | String c EmptyString => Some c
  | String _ s => string_last s
  end.

Definition validate_stable_identifier (value : string) : result ToolDomainError unit :=
  if string_all (fun c => is_ascii_lowercase c || is_ascii_uppercase c || is_ascii_digit c
                          || is_dot_dash_underscore c) value
     && negb (match value with String c _ => edge_byte c | EmptyString => false end)
     && negb (match string_last value with Some c => edge_byte c | None => false end)
  then Ok tt else Err InvalidStableIdentifier.

(** ** Contracts *)

Inductive ToolCancellation := Cooperative | UnsupportedCancellation.
Inductive IdempotencyContract :=
| NoExternalEffect | InvocationIdentity | ExternalTransactionProof | NeverReplay.

Record ToolTimeout := MkToolTimeout { as_millis : Z }.

Definition from_millis (value : Z) : result ToolDomainError ToolTimeout :=
  if value =? 0 then Err InvalidTimeout
  else if MAX_TOOL_TIMEOUT_MILLIS <? value then Err InvalidTimeout
  else Ok (MkToolTimeout value).

#[global] Instance ToolTimeout_validated : Validated Z ToolTimeout ToolDomainError :=
  {| validate := from_millis; wire := as_millis;
     wf t := as_millis t <> 0 /\ as_millis t <= MAX_TOOL_TIMEOUT_MILLIS |}.
#[global] Instance ToolTimeout_laws : ValidatedLaws Z ToolTimeout ToolDomainError.
Proof.
  split; unfold validate, wire, wf, ToolTimeout_validated, from_millis.
  - intros w t Hv. case_if_in Hv as E1; [done|]. case_if_in Hv as E2; [done|].
    injection Hv as <-. bool_norm. done.
  - intros [v] [? ?]; cbn in *. case_if as E1; bool_norm; [lia|].
    case_if as E2; bool_norm; [lia | done].
Qed.

Abbreviation Schema := (CanonicalJson MAX_TOOL_SCHEMA_BYTES).
Abbreviation InlineJson := (CanonicalJson MAX_TOOL_INLINE_BYTES).

Record ToolDefinition := MkToolDefinition {
  td_name : ToolName;
  td_version : ToolVersion;
  td_input_schema : Schema;
  td_output_schema : Schema;
  td_required_authority : Capability;
  td_timeout : ToolTimeout;
  td_cancellation : ToolCancellation;
  td_effect_class : EffectClass;
  td_idempotency : IdempotencyContract;
  td_requires_approval : bool;
}.

Record ToolDefinitionWire := MkToolDefinitionWire {
  tdw_name : ToolName;
  tdw_version : ToolVersion;
  tdw_input_schema : Schema;
  tdw_output_schema : Schema;
  tdw_required_authority : Capability;
  tdw_timeout : ToolTimeout;
  tdw_cancellation : ToolCancellation;
  tdw_effect_class : EffectClass;
  tdw_idempotency : IdempotencyContract;
  tdw_requires_approval : bool;
}.

Definition coherent (effect_class : EffectClass) (idempotency : IdempotencyContract) : bool :=
  match effect_class, idempotency with
  | ReadOnly, NoExternalEffect
  | Idempotent, InvocationIdentity
  | Transactional, ExternalTransactionProof
  | (NonIdempotent | UnknownClass), NeverReplay => true
  | _, _ => false
  end.

Section definitions.
Context `{!Json}.

(** [validate_schema_shape(&serde_json::from_slice(schema)?, 0)]. *)
Definition check_schema (schema : Schema) : result ToolDomainError unit :=
  v ← ok_or InvalidJson (from_slice (cj_as_bytes schema));
  validate_schema_shape schema_budget v.

Definition ToolDefinition_new (name : ToolName) (version : ToolVersion)
    (input_schema output_schema : Schema) (required_authority : Capability) (timeout : ToolTimeout)
    (cancellation : ToolCancellation) (effect_class : EffectClass)
    (idempotency : IdempotencyContract) : result ToolDomainError ToolDefinition :=
  _ ← validate_stable_identifier (as_str name);
  _ ← validate_stable_identifier (as_str version);
  if negb (json_is_object (cj_as_bytes input_schema)) || negb (json_is_object (cj_as_bytes output_schema))
  then Err SchemaMustBeObject
  else
    _ ← check_schema input_schema;
    _ ← check_schema output_schema;
    if negb (coherent effect_class idempotency) then Err ContradictoryIdempotency
    else Ok (MkToolDefinition name version input_schema output_schema required_authority timeout
               cancellation effect_class idempotency false).

Definition with_required_approval (d : ToolDefinition) : ToolDefinition :=
  MkToolDefinition (td_name d) (td_version d) (td_input_schema d) (td_output_schema d)
    (td_required_authority d) (td_timeout d) (td_cancellation d) (td_effect_class d)
    (td_idempotency d) true.

Definition ToolDefinition_try_from (v : ToolDefinitionWire) : result ToolDomainError ToolDefinition :=
  definition ← ToolDefinition_new (tdw_name v) (tdw_version v) (tdw_input_schema v)
    (tdw_output_schema v) (tdw_required_authority v) (tdw_timeout v) (tdw_cancellation v)
    (tdw_effect_class v) (tdw_idempotency v);
  Ok (if tdw_requires_approval v then with_required_approval definition else definition).

Definition ToolDefinitionWire_from (v : ToolDefinition) : ToolDefinitionWire :=
  MkToolDefinitionWire (td_name v) (td_version v) (td_input_schema v) (td_output_schema v)
    (td_required_authority v) (td_timeout v) (td_cancellation v) (td_effect_class v)
    (td_idempotency v) (td_requires_approval v).

Definition validate_input (d : ToolDefinition) (value : bytes) : result ToolDomainError unit :=
  validate_json_value (cj_as_bytes (td_input_schema d)) value.
Definition validate_output (d : ToolDefinition) (value : bytes) : result ToolDomainError unit :=
  validate_json_value (cj_as_bytes (td_output_schema d)) value.

(** ** Invocations, failures and results *)

Record ToolInvocation := MkToolInvocation {
  ti_invocation_id : ToolInvocationId;
  ti_request_id : RequestId;
  ti_session_id : SessionId;
  ti_participant_id : ParticipantId;
  ti_operation_id : OperationId;
  ti_tool_name : ToolName;
  ti_tool_version : ToolVersion;
  ti_input : InlineJson;
  ti_authority_grant_id : option GrantId;
  ti_approval_grant_id : option GrantId;
  ti_approval_effect_id : option RequestId;
}.

Record ToolInvocationWire := MkToolInvocationWire {
  tiw_invocation_id : ToolInvocationId;
  tiw_request_id : RequestId;
  tiw_session_id : SessionId;
  tiw_participant_id : ParticipantId;
  tiw_operation_id : OperationId;
  tiw_tool_name : ToolName;
  tiw_tool_version : ToolVersion;
  tiw_input : InlineJson;
  tiw_authority_grant_id : option GrantId;
  tiw_approval_grant_id : option GrantId;
  tiw_approval_effect_id : option RequestId;
}.

Definition ToolInvocation_new invocation_id request_id session_id participant_id operation_id
    (tool_name : ToolName) (tool_version : ToolVersion) (input : InlineJson) :
    result ToolDomainError ToolInvocation :=
  _ ← validate_stable_identifier (as_str tool_name);
  _ ← validate_stable_identifier (as_str tool_version);
  Ok (MkToolInvocation invocation_id request_id session_id participant_id operation_id tool_name
        tool_version input None None None).

Definition with_grants (i : ToolInvocation) (authority approval : option GrantId)
    (effect : option RequestId) : ToolInvocation :=
  MkToolInvocation (ti_invocation_id i) (ti_request_id i) (ti_session_id i) (ti_participant_id i)
    (ti_operation_id i) (ti_tool_name i) (ti_tool_version i) (ti_input i) authority approval effect.

Definition with_authority_grant (i : ToolInvocation) (grant_id : GrantId) : ToolInvocation :=
  with_grants i (Some grant_id) (ti_approval_grant_id i) (ti_approval_effect_id i).
Definition with_approval_grant (i : ToolInvocation) (grant_id : GrantId) (effect_id : RequestId) :
    ToolInvocation := with_grants i (ti_authority_grant_id i) (Some grant_id) (Some effect_id).

Definition ToolInvocation_try_from (v : ToolInvocationWire) : result ToolDomainError ToolInvocation :=
  invocation ← ToolInvocation_new (tiw_invocation_id v) (tiw_request_id v) (tiw_session_id v)
    (tiw_participant_id v) (tiw_operation_id v) (tiw_tool_name v) (tiw_tool_version v) (tiw_input v);
  Ok (with_grants invocation (tiw_authority_grant_id v) (tiw_approval_grant_id v)
        (tiw_approval_effect_id v)).

Definition ToolInvocationWire_from (v : ToolInvocation) : ToolInvocationWire :=
  MkToolInvocationWire (ti_invocation_id v) (ti_request_id v) (ti_session_id v) (ti_participant_id v)
    (ti_operation_id v) (ti_tool_name v) (ti_tool_version v) (ti_input v) (ti_authority_grant_id v)
    (ti_approval_grant_id v) (ti_approval_effect_id v).

Inductive ToolFailureKind :=
| InvalidInput | InvalidOutput | Unauthorized | TimedOut | ToolCancelled | ProviderUnavailable
| HandlerFailed | ToolEffectUncertain.

Record ToolFailure := MkToolFailure {
  tf_invocation_id : ToolInvocationId;
  tf_kind : ToolFailureKind;
  tf_message : BoundedText MAX_TOOL_FAILURE_MESSAGE_BYTES;
  tf_retryable : bool;
}.

Record ToolResult := MkToolResult {
  tr_invocation_id : ToolInvocationId;
  tr_output : InlineJson;
  tr_artifacts : list ArtifactRef;
}.
Record ToolResultWire := MkToolResultWire {
  trw_invocation_id : ToolInvocationId;
  trw_output : InlineJson;
  trw_artifacts : list ArtifactRef;
}.

Definition ToolResult_new (invocation_id : ToolInvocationId) (output : InlineJson)
    (artifacts : list ArtifactRef) : result ToolDomainError ToolResult :=
  if MAX_TOOL_ARTIFACT_REFS <? llen artifacts then Err TooManyArtifacts
  else Ok (MkToolResult invocation_id output artifacts).

Definition ToolResult_try_from (v : ToolResultWire) : result ToolDomainError ToolResult :=
  ToolResult_new (trw_invocation_id v) (trw_output v) (trw_artifacts v).
Definition ToolResultWire_from (v : ToolResult) : ToolResultWire :=
  MkToolResultWire (tr_invocation_id v) (tr_output v) (tr_artifacts v).
End definitions.

(** ** What a schema means *)

Definition schema_kind (o : list (string * Value)) : option string := obj_get "type" o ≫= value_as_str.
Definition requires (o : list (string * Value)) (k : string) : Prop :=
  exists l, obj_get "required" o = Some (VArray l) /\ VString k ∈ l.
Definition property (o : list (string * Value)) (k : string) (child : Value) : Prop :=
  exists ps, obj_get "properties" o = Some (VObject ps) /\ (k, child) ∈ ps.
Definition declares (o : list (string * Value)) (k : string) : Prop :=
  exists ps, obj_get "properties" o = Some (VObject ps) /\ is_Some (obj_get k ps).

(** [conforms schema value]. *)
Inductive conforms : Value -> Value -> Prop :=
| conforms_any v : conforms (VObject []) v
| conforms_scalar o kind v :
    schema_kind o = Some kind -> kind <> "object"%string -> kind <> "array"%string ->
    type_matches kind v = Some true -> conforms (VObject o) v
| conforms_object o vs :
    schema_kind o = Some "object"%string ->
    (forall k, requires o k -> is_Some (obj_get k vs)) ->
    (obj_get "additionalProperties" o = Some (VBool false) -> forall k x, (k, x) ∈ vs -> declares o k) ->
    (forall k child x, property o k child -> obj_get k vs = Some x -> conforms child x) ->
    conforms (VObject o) (VObject vs)
| conforms_array o l :
    schema_kind o = Some "array"%string ->
    (forall items x, obj_get "items" o = Some items -> x ∈ l -> conforms items x) ->
    conforms (VObject o) (VArray l).

Lemma for_each_Ok {E A} (f : A -> result E unit) l :
  for_each f l = Ok tt <-> forall x, x ∈ l -> f x = Ok tt.
Proof.
  induction l as [|x l IH]; cbn; [set_solver|]. rewrite bind_Ok. setoid_rewrite elem_of_cons.
  split; [intros ([] & ? & ?) | intros H; exists tt]; naive_solver.
Qed.

(** Only one error can come out of a loop whose body has only that error. *)
Definition ok_or_mismatch (r : result ToolDomainError unit) : Prop :=
  r = Ok tt \/ r = Err SchemaMismatch.

Lemma for_each_mismatch {A} (f : A -> result ToolDomainError unit) l :
  (forall x, x ∈ l -> ok_or_mismatch (f x)) -> ok_or_mismatch (for_each f l).
Proof.
  unfold ok_or_mismatch. induction l as [|x l IH]; intros H; cbn; [by left|].
  destruct (H x) as [->| ->]; [set_solver| |by right]. cbn. apply IH. set_solver.
Qed.

Lemma guard_mismatch b : ok_or_mismatch (guard b SchemaMismatch).
Proof. unfold ok_or_mismatch. by destruct b; [left | right]. Qed.

Lemma bind_mismatch (m k : result ToolDomainError unit) :
  ok_or_mismatch m -> ok_or_mismatch k -> ok_or_mismatch (_ ← m; k).
Proof. unfold ok_or_mismatch. by intros [->| ->] ?; [|right]. Qed.

Lemma bind_unit_Ok {E} (m k : result E unit) : (_ ← m; k) = Ok tt <-> m = Ok tt /\ k = Ok tt.
Proof. rewrite bind_Ok. split; [intros ([] & ? & ?) | intros []; exists tt]; done. Qed.

Lemma guard_Ok {E} b (e : E) : guard b e = Ok tt <-> b = true.
Proof. by destruct b. Qed.

(** What registration has established about a non-empty schema. *)
Record shape_facts (n : nat) (o : list (string * Value)) : Prop := {
  sf_keywords : existsb (fun e => negb (schema_keyword e.1)) o = false;
  sf_kind : exists kind, schema_kind o = Some kind /\ schema_type kind = true;
  sf_required : forall r, obj_get "required" o = Some r ->
    exists l, r = VArray l /\ forall v, v ∈ l -> exists s, v = VString s;
  sf_properties : forall p, obj_get "properties" o = Some p ->
    exists ps, p = VObject ps /\ forall k c, (k, c) ∈ ps -> validate_schema_shape n c = Ok tt;
  sf_items : forall i, obj_get "items" o = Some i -> validate_schema_shape n i = Ok tt;
}.

Lemma shape_inv n s :
  validate_schema_shape (S n) s = Ok tt ->
  s = VObject [] \/ exists o, s = VObject o /\ o <> [] /\ shape_facts n o.
Proof.
  cbn [validate_schema_shape]. intros (o & Ho & H)%bind_Ok. rewrite ok_or_Ok in Ho.
  destruct s; cbn in Ho; simplify_eq. case_if_in H as E1.
  { left. bool_norm. by destruct o. }
  case_if_in H as E2; [done|]. right. exists o. bool_norm.
  split; [done|]. split; [by intros ->|].
  apply bind_Ok in H as (kind & Hkind & H). rewrite ok_or_Ok in Hkind.
  rewrite bind_unit_Ok in H. destruct H as [Hty H]. rewrite guard_Ok in Hty.
  rewrite bind_unit_Ok in H. destruct H as [Hreq H].
  rewrite bind_unit_Ok in H. destruct H as [Hprop H].
  rewrite bind_unit_Ok in H. destruct H as [Hitems _].
  split; [done | by exists kind | | |].
  - intros r Hr. rewrite Hr in Hreq. apply bind_Ok in Hreq as (l & Hl & Hg). rewrite ok_or_Ok in Hl.
    destruct r; cbn in Hl; simplify_eq. exists l. split; [done|]. rewrite guard_Ok in Hg.
    rewrite forallb_forall in Hg. intros v Hv%list_elem_of_In. specialize (Hg v Hv).
    destruct v; cbn in Hg; try done. eauto.
  - intros p Hp. rewrite Hp in Hprop. apply bind_Ok in Hprop as (ps & Hps & Hf). rewrite ok_or_Ok in Hps.
    destruct p; cbn in Hps; simplify_eq. exists ps. split; [done|]. rewrite for_each_Ok in Hf.
    intros k c Hin. apply (Hf (k, c) Hin).
  - intros i Hi. by rewrite Hi in Hitems.
Qed.

Lemma schema_type_known kind v : schema_type kind = true -> is_Some (type_matches kind v).
Proof.
  unfold schema_type, type_matches. intros H. rewrite !orb_true_iff in H.
  repeat (case_match; [by eexists|]). naive_solver.
Qed.

Lemma obj_get_elem k o x : obj_get k o = Some x -> (k, x) ∈ o.
Proof.
  induction o as [|[k' v] o IH]; cbn; [done|]. destruct (String.eqb_spec k' k) as [->|];
    [intros [= ->]; set_solver | intros ?%IH; set_solver].
Qed.

Lemma has_key_iff k o : has_key k o = true <-> is_Some (obj_get k o).
Proof. unfold has_key. by destruct (obj_get k o). Qed.

(** The object part of the validator, against the meaning of the schema. *)
Section object_node.
Context (n : nat) (o : list (string * Value)).
Hypothesis Hsf : shape_facts n o.
Hypothesis Hchild : forall child x, validate_schema_shape n child = Ok tt ->
  (validate_schema_node n child x = Ok tt <-> conforms child x) /\
  ok_or_mismatch (validate_schema_node n child x).

Let properties := obj_get "properties" o ≫= as_object.

Lemma required_node vs :
  let r := match obj_get "required" o with
           | Some required =>
               required ← ok_or UnsupportedSchema (as_array required);
               for_each (fun key =>
                 key ← ok_or UnsupportedSchema (value_as_str key);
                 guard (has_key key vs) SchemaMismatch) required
           | None => Ok tt
           end in
  (r = Ok tt <-> forall k, requires o k -> is_Some (obj_get k vs)) /\ ok_or_mismatch r.
Proof.
  cbn. unfold requires. destruct (obj_get "required" o) as [r|] eqn:Hr.
  - destruct (sf_required _ _ Hsf _ Hr) as (l & -> & Hl). cbn. rewrite for_each_Ok. split.
    + split.
      * intros H k (l' & [= <-] & Hk). specialize (H _ Hk). cbn in H. by apply guard_Ok, has_key_iff in H.
      * intros H v Hv. destruct (Hl v Hv) as [s ->]. cbn. apply guard_Ok, has_key_iff, H. eauto.
    + apply for_each_mismatch. intros v Hv. destruct (Hl v Hv) as [s ->]. apply guard_mismatch.
  - split; [|by left]. split; [intros _ k (l & ? & _); done | done].
Qed.

Lemma additional_node (vs : list (string * Value)) :
  let r := match obj_get "additionalProperties" o with
           | Some (VBool false) =>
               guard (negb (existsb (fun e => match properties with
                                     | Some p => negb (has_key e.1 p) | None => true end) vs))
                 SchemaMismatch
           | _ => Ok tt
           end in
  (r = Ok tt <-> (obj_get "additionalProperties" o = Some (VBool false) ->
                  forall k x, (k, x) ∈ vs -> declares o k)) /\ ok_or_mismatch r.
Proof.
  cbn. destruct (obj_get "additionalProperties" o) as [[|[]| | | |]|] eqn:Ha;
    try (split; [split; done | by left]).
  split; [|apply guard_mismatch]. rewrite guard_Ok, negb_true_iff, <-not_true_iff_false, existsb_exists.
  unfold declares, properties.
  assert (Hdecl : forall k, (match obj_get "properties" o ≫= as_object with
      | Some p => negb (has_key k p) | None => true end) = false <->
    exists ps, obj_get "properties" o = Some (VObject ps) /\ is_Some (obj_get k ps)).
  { intros k. destruct (obj_get "properties" o) as [p|] eqn:Hp; cbn; [|naive_solver].
    destruct (sf_properties _ _ Hsf _ Hp) as (ps & -> & _). cbn.
    rewrite negb_false_iff, has_key_iff. naive_solver. }
  split.
  - intros Hno _ k x Hin. apply Hdecl. apply not_true_iff_false. intros Ht. apply Hno.
    exists (k, x). by rewrite <-list_elem_of_In.
  - intros Hall ([k x] & Hin%list_elem_of_In & Ht). cbn in Ht.
    specialize (Hall eq_refl k x Hin). apply Hdecl in Hall. congruence.
Qed.

Lemma properties_node vs :
  let r := match properties with
           | Some properties =>
               for_each (fun e => match obj_get e.1 vs with
                                  | Some child_value => validate_schema_node n e.2 child_value
                                  | None => Ok tt
                                  end) properties
           | None => Ok tt
           end in
  (r = Ok tt <-> forall k child x, property o k child -> obj_get k vs = Some x -> conforms child x) /\
  ok_or_mismatch r.
Proof.
  cbn. unfold property, properties. destruct (obj_get "properties" o) as [p|] eqn:Hp; cbn.
  2:{ split; [|by left]. split; [intros _ k c x (ps & ? & _); done | done]. }
  destruct (sf_properties _ _ Hsf _ Hp) as (ps & -> & Hps). cbn. rewrite for_each_Ok. split.
  - split.
    + intros H k c x (ps' & [= <-] & Hin) Hx. specialize (H _ Hin). cbn in H. rewrite Hx in H.
      by apply Hchild; [eapply Hps|].
    + intros H [k c] Hin. cbn. destruct (obj_get k vs) as [x|] eqn:Hx; [|done].
      apply Hchild; [by eapply Hps|]. eauto.
  - apply for_each_mismatch. intros [k c] Hin. cbn.
    destruct (obj_get k vs) as [x|]; [|by left]. apply Hchild. by eapply Hps.
Qed.
End object_node.

Lemma conforms_inv o v kind :
  o <> [] -> schema_kind o = Some kind -> conforms (VObject o) v ->
  type_matches kind v = Some true /\
  (kind = "object"%string -> exists vs, v = VObject vs /\
     (forall k, requires o k -> is_Some (obj_get k vs)) /\
     (obj_get "additionalProperties" o = Some (VBool false) -> forall k x, (k, x) ∈ vs -> declares o k) /\
     (forall k child x, property o k child -> obj_get k vs = Some x -> conforms child x)) /\
  (kind = "array"%string -> exists l, v = VArray l /\
     forall items x, obj_get "items" o = Some items -> x ∈ l -> conforms items x).
Proof.
  intros Hne Hk Hc. inversion Hc as [|? ? ? Hk' H1 H2 Ht|? vs Hk' Hr Ha Hp|? l Hk' Hi]; subst; [done| | |];
    rewrite Hk in Hk'; injection Hk' as ->; naive_solver.
Qed.

(** A registered schema is decided exactly, and never found unsupported later. *)
Lemma schema_node_exact n schema value :
  validate_schema_shape n schema = Ok tt ->
  (validate_schema_node n schema value = Ok tt <-> conforms schema value) /\
  ok_or_mismatch (validate_schema_node n schema value).
Proof.
  revert schema value; induction n as [|n IH]; intros schema value Hshape; [done|].
  apply shape_inv in Hshape as [->|(o & -> & Hne & Hsf)].
  { cbn. split; [split; [constructor | done] | by left]. }
  cbn [validate_schema_node]. destruct (sf_kind _ _ Hsf) as (kind & Hk & Hty).
  destruct (schema_type_known kind value Hty) as [b Hb].
  pose proof (conforms_inv o value kind Hne Hk) as Hinv.
  unfold schema_kind in Hk. cbn [as_object ok_or]. rewrite bind_of_Ok.
  rewrite bool_decide_false by (by destruct o). rewrite (sf_keywords _ _ Hsf), Hk.
  cbn [ok_or]. rewrite bind_of_Ok, Hb. cbn [ok_or]. rewrite bind_of_Ok. destruct b; cbn [negb].
  2:{ split; [|by right]. split; [done|]. intros Hc. apply Hinv in Hc as [? _]. congruence. }
  destruct (String.eqb_spec kind "object") as [->|Hno].
  { destruct value as [| | | | |vs]; try done. cbn [as_object ok_or].
    rewrite bind_of_Ok. destruct (required_node n o Hsf vs) as [R1 R2].
    destruct (additional_node n o Hsf IH vs) as [A1 A2].
    destruct (properties_node n o Hsf IH vs) as [P1 P2].
    split; [|by repeat apply bind_mismatch]. rewrite !bind_unit_Ok, R1, A1, P1. split.
    - intros (? & ? & ?). by constructor.
    - intros Hc. apply Hinv in Hc as (_ & (vs' & [= <-] & ? & ? & ?) & _); done. }
  destruct (String.eqb_spec kind "array") as [->|Hna].
  { destruct value as [| | | |l|]; try done.
    destruct (obj_get "items" o) as [items|] eqn:Hi; cbn [as_array ok_or].
    - rewrite bind_of_Ok. pose proof (sf_items _ _ Hsf _ Hi) as Hs. split.
      + rewrite for_each_Ok. split.
        * intros H. apply conforms_array; [done|]. intros ? x [= <-]%(eq_trans (eq_sym Hi)) Hx.
          apply IH; auto.
        * intros Hc x Hx. apply IH; [done|]. apply Hinv in Hc as (_ & _ & (l' & [= <-] & Hc)); auto.
      + apply for_each_mismatch. intros x Hx. by apply IH.
    - split; [|by left]. split; [|done]. intros _. apply conforms_array; [done|]. intros ? ? ?. congruence. }
  split; [|by left]. split; [|done]. intros _. by eapply conforms_scalar.
Qed.

(** ** Registered contracts *)

Section registered.
Context `{!Json}.

Lemma check_schema_exact schema (value : bytes) v :
  check_schema schema = Ok tt -> from_slice value = Some v ->
  exists s, from_slice (cj_as_bytes schema) = Some s /\
    (validate_json_value (cj_as_bytes schema) value = Ok tt <-> conforms s v) /\
    ok_or_mismatch (validate_json_value (cj_as_bytes schema) value).
Proof.
  unfold check_schema, validate_json_value. intros (s & Hs & Hshape)%bind_Ok Hv.
  rewrite ok_or_Ok in Hs. exists s. rewrite Hs, Hv. cbn [ok_or]. rewrite !bind_of_Ok.
  split; [done|]. by apply schema_node_exact.
Qed.

Lemma ToolDefinition_new_Ok name version i o auth timeout canc eff idem d :
  ToolDefinition_new name version i o auth timeout canc eff idem = Ok d <->
  validate_stable_identifier (as_str name) = Ok tt /\
  validate_stable_identifier (as_str version) = Ok tt /\
  json_is_object (cj_as_bytes i) = true /\ json_is_object (cj_as_bytes o) = true /\
  check_schema i = Ok tt /\ check_schema o = Ok tt /\ coherent eff idem = true /\
  d = MkToolDefinition name version i o auth timeout canc eff idem false.
Proof.
  unfold ToolDefinition_new. split.
  - intros Hn. apply bind_Ok in Hn as ([] & H1 & Hn). apply bind_Ok in Hn as ([] & H2 & Hn).
    case_if_in Hn as E; [done|]. bool_norm. apply bind_Ok in Hn as ([] & Hs1 & Hn).
    apply bind_Ok in Hn as ([] & Hs2 & Hn). case_if_in Hn as E'; [done|]. bool_norm.
    injection Hn as <-. split_and!; done.
  - intros (H1 & H2 & H3 & H4 & H5 & H6 & H7 & ->).
    rewrite H1, H2, H3, H4, H5, H6, H7. reflexivity.
Qed.

Lemma ToolDefinition_try_from_wire w d :
  ToolDefinition_try_from w = Ok d -> ToolDefinitionWire_from d = w.
Proof.
  unfold ToolDefinition_try_from. intros (d0 & Hd0 & Hd)%bind_Ok.
  apply ToolDefinition_new_Ok in Hd0 as (_ & _ & _ & _ & _ & _ & _ & ->). injection Hd as <-.
  destruct w as [? ? ? ? ? ? ? ? ? []]; reflexivity.
Qed.

Lemma ToolInvocation_try_from_wire w i :
  ToolInvocation_try_from w = Ok i -> ToolInvocationWire_from i = w.
Proof.
  unfold ToolInvocation_try_from, ToolInvocation_new. intros Hn.
  apply bind_Ok in Hn as (i0 & Hi0 & Hi). apply bind_Ok in Hi0 as (? & _ & Hi0).
  apply bind_Ok in Hi0 as (? & _ & [= <-]). injection Hi as <-. by destruct w.
Qed.

Lemma ToolResult_try_from_wire w r :
  ToolResult_try_from w = Ok r -> ToolResultWire_from r = w.
Proof.
  unfold ToolResult_try_from, ToolResult_new. intros Hn. case_if_in Hn as E; [done|].
  injection Hn as <-. by destruct w.
Qed.
End registered.

(** ** Properties *)


(** A parser for three byte strings: a schema and two values. *)
Definition demo_schema : Value :=
  VObject [("additionalProperties", VBool false);
           ("properties", VObject [("path", VObject [("type", VString "string")])]);
           ("required", VArray [VString "path"]); ("type", VString "object")].
Definition demo_json : Json := {|
  from_slice b := if decide (b = [1]) then Some demo_schema
                  else if decide (b = [2]) then Some (VObject [("path", VString "a")])
                  else if decide (b = [3]) then Some (VObject [("path", VNull)]) else None;
  to_vec v := [];
|}.


(** Canonical JSON is one durable representation: inputs that parse to the same
    value give the same canonical bytes or the same error, and canonical bytes of
    float-free values are accepted again unchanged, as decoding from storage needs. *)
Theorem canonical_json_stable `{JsonLaws} MAX (b1 b2 : bytes) :
  (from_slice b1 = from_slice b2 -> CanonicalJson_new (MAX := MAX) b1 = CanonicalJson_new b2) /\
  (forall c v, CanonicalJson_new (MAX := MAX) b1 = Ok c -> from_slice b1 = Some v -> float_free v ->
     CanonicalJson_new (MAX := MAX) (cj_as_bytes c) = Ok c).
Proof.
  split; [intros Heq; unfold CanonicalJson_new; by rewrite Heq|].
  unfold CanonicalJson_new. intros c v Hc Hv Hff. rewrite Hv in Hc. cbn [ok_or] in Hc.
  rewrite bind_of_Ok in Hc. case_if_in Hc as E; [done|]. injection Hc as <-. cbn [cj_as_bytes].
  rewrite (canonicalize_wf v) in * by (by eapply from_slice_wf).
  rewrite (from_slice_to_vec b1 v Hv Hff). cbn [ok_or]. rewrite bind_of_Ok.
  rewrite (canonicalize_wf v) by (by eapply from_slice_wf). by rewrite E.
Qed.

(** A one-value library: the literal [null] is the byte 110, spaces allowed. *)
Definition null_json : Json := {|
  from_slice b := if decide (filter (fun x => x <> 32) b = [110]) then Some VNull else None;
  to_vec v := [110];
|}.
#[global] Instance null_json_laws : @JsonLaws null_json.
Proof.
  split; cbn.
  - intros b v. case_decide; [intros [= <-]; constructor | done].
  - intros b v. case_decide; [intros [= <-] _; done | done].
Qed.

Lemma canonical_json_stable_witness :
  @CanonicalJson_new null_json 8 [32; 110] = @CanonicalJson_new null_json 8 [110; 32; 32].
Proof. apply (@canonical_json_stable null_json null_json_laws 8 [32; 110] [110; 32; 32]). reflexivity. Defined.

(** Tool values survive their wire forms: a definition, invocation or result
    that was decoded encodes back to the very wire value it came from and decodes
    again to itself; and a decoded definition's effect class and idempotency
    contract are coherent. *)
Theorem tool_wire_roundtrip `{!Json} :
  (forall w d, ToolDefinition_try_from w = Ok d ->
     ToolDefinitionWire_from d = w /\ ToolDefinition_try_from (ToolDefinitionWire_from d) = Ok d /\
     coherent (td_effect_class d) (td_idempotency d) = true) /\
  (forall w i, ToolInvocation_try_from w = Ok i ->
     ToolInvocationWire_from i = w /\ ToolInvocation_try_from (ToolInvocationWire_from i) = Ok i) /\
  (forall w r, ToolResult_try_from w = Ok r ->
     ToolResultWire_from r = w /\ ToolResult_try_from (ToolResultWire_from r) = Ok r /\
     llen (tr_artifacts r) <= MAX_TOOL_ARTIFACT_REFS).
Proof.
  split_and!.
  - intros w d Hd. pose proof (ToolDefinition_try_from_wire w d Hd) as Hw. rewrite Hw.
    split_and!; [done..|]. unfold ToolDefinition_try_from in Hd. apply bind_Ok in Hd as (d0 & Hd0 & [= <-]).
    apply ToolDefinition_new_Ok in Hd0 as (_ & _ & _ & _ & _ & _ & Hc & ->).
    by destruct (tdw_requires_approval w).
  - intros w i Hi. pose proof (ToolInvocation_try_from_wire w i Hi) as Hw. by rewrite Hw.
  - intros w r Hr. pose proof (ToolResult_try_from_wire w r Hr) as Hw. rewrite Hw.
    split_and!; [done..|]. unfold ToolResult_try_from, ToolResult_new in Hr.
    case_if_in Hr as E; [done|]. injection Hr as <-. cbn. by bool_norm.
Qed.

Lemma tool_wire_roundtrip_witness :
  let r := MkToolResult (MkId 3) (MkCanonicalJson [110]) [] in
  ToolResultWire_from r = MkToolResultWire (MkId 3) (MkCanonicalJson [110]) [] /\
  ToolResult_try_from (ToolResultWire_from r) = Ok r /\ llen (tr_artifacts r) <= 32.
Proof.
  intros r.
  apply (proj2 (proj2 (@tool_wire_roundtrip null_json)) (MkToolResultWire (MkId 3) (MkCanonicalJson [110]) [])).
  reflexivity.
Defined.
