(* ===== verification/StoreApi.v ===== *)
(** * StoreApi: the semantic persistence boundary

    Models the session part of crates/navigator-store-api/src/lib.rs: the store's
    actions and their wire names, request contexts, the session and ownership
    commands with the digests that identify their meaning, leases, mutations,
    event queries and the store's errors. *)
From S2P Require Import Prelude Scalars Session Authority Capacity.

(** ** Actions *)

Inductive StoreAction :=
| ActOpenSession | ActCloseSession | ActAcquireOwnership | ActRenewOwnership
| ActReleaseOwnership | ActPrepareLaunch | ActAttachLaunch | ActTransitionLaunch
| ActCreateRootParticipant | ActCreateChildParticipant | ActStartOperation
| ActTransitionOperation | ActEnqueueMessage | ActLeaseNextMessage
| ActTransitionMessageDelivery | ActPutAuthorityPolicy | ActIssueGrant | ActRevokeGrant
| ActCheckAuthorityEffect | ActCreateAuthorizedChild | ActApplyHierarchyEffect
| ActCancelSubtree | ActRegisterAuthorityTemplatePolicy | ActReserveEffect | ActStartEffect
| ActResolveEffect | ActTakeoverEffect | ActResolveAuthorizedEffect | ActPublishArtifact
| ActDeleteArtifact | ActEraseArtifact | ActRegisterTool | ActReserveToolInvocation
| ActTransitionToolInvocation | ActConnectToolProvider.
#[global] Instance StoreAction_eq_dec : EqDecision StoreAction.
Proof. solve_decision. Defined.

Definition StoreAction_as_str (a : StoreAction) : string :=
  match a with
  | ActOpenSession => "session.open"
  | ActCloseSession => "session.close"
  | ActAcquireOwnership => "ownership.acquire"
  | ActRenewOwnership => "ownership.renew"
  | ActReleaseOwnership => "ownership.release"
  | ActPrepareLaunch => "instance.prepare_launch"
  | ActAttachLaunch => "instance.attach_launch"
  | ActTransitionLaunch => "instance.transition_launch"
  | ActCreateRootParticipant => "participant.create_root"
  | ActCreateChildParticipant => "participant.create_child"
  | ActStartOperation => "operation.start"
  | ActTransitionOperation => "operation.transition"
  | ActEnqueueMessage => "message.enqueue"
  | ActLeaseNextMessage => "message.lease_next"
  | ActTransitionMessageDelivery => "message.transition_delivery"
  | ActPutAuthorityPolicy => "authority.put_policy"
  | ActIssueGrant => "authority.issue_grant"
  | ActRevokeGrant => "authority.revoke_grant"
  | ActCheckAuthorityEffect => "authority.check_effect"
  | ActCreateAuthorizedChild => "authority.create_child"
  | ActApplyHierarchyEffect => "hierarchy.apply_effect"
  | ActCancelSubtree => "operation.cancel_subtree"
  | ActRegisterAuthorityTemplatePolicy => "authority.register_template_policy"
  | ActReserveEffect => "effect.reserve"
  | ActStartEffect => "effect.start"
  | ActResolveEffect => "effect.resolve"
  | ActTakeoverEffect => "effect.takeover"
  | ActResolveAuthorizedEffect => "effect.resolve_authorized"
  | ActPublishArtifact => "artifact.publish"
  | ActDeleteArtifact => "artifact.delete"
  | ActEraseArtifact => "artifact.erase"
  | ActRegisterTool => "tool.register"
  | ActReserveToolInvocation => "tool.invoke.reserve"
  | ActTransitionToolInvocation => "tool.invoke.transition"
  | ActConnectToolProvider => "tool.provider.connect"
  end%string.

(** [Capability::new(self.as_str()).expect(..)]; [StoreAction_capability_valid] shows
    the [expect] never fires. *)
Definition StoreAction_capability (a : StoreAction) : Capability :=
  MkCapability (StoreAction_as_str a).

Lemma StoreAction_capability_valid a :
  Capability_new (StoreAction_as_str a) = Ok (StoreAction_capability a).
Proof. by destruct a. Qed.

Lemma StoreAction_as_str_inj a b : StoreAction_as_str a = StoreAction_as_str b -> a = b.
Proof. destruct a, b; done. Qed.

(** ** Requests *)

Record RequestContext := MkContext { rc_request_id : RequestId; rc_caller : HostId }.
#[global] Instance RequestContext_eq_dec : EqDecision RequestContext.
Proof. solve_decision. Defined.

(** [trait MutableRequest]. *)
Class MutableRequest (C : Type) := {
  mr_context : C -> RequestContext;
  mr_action : C -> StoreAction;
  mr_digest : C -> SemanticDigest;
}.

(** [CanonicalInput]: the appended encodings. *)
Definition ci_identity (u : Uuid) : bytes := be_bytes 16 u.
Definition ci_fixed (b : bytes) : bytes := b.
Definition ci_u64 (v : Z) : bytes := be_bytes 8 v.
Definition ci_bytes (b : bytes) : bytes := ci_u64 (llen b) ++ ci_fixed b.
Definition ci_finish `{!Sha256} (input : bytes) (a : StoreAction) : SemanticDigest :=
  SemanticDigest_v1 (StoreAction_capability a) input.

Inductive SessionOpenMode := ModeExact | ModeOpen | ModeResume | ModeReset.
#[global] Instance SessionOpenMode_eq_dec : EqDecision SessionOpenMode.
Proof. solve_decision. Defined.
Definition mode_byte (m : SessionOpenMode) : Z :=
  match m with ModeExact => 0 | ModeOpen => 1 | ModeResume => 2 | ModeReset => 3 end.

Record OpenSession := MkOpenSession {
  os_context : RequestContext;
  os_session_id : SessionId;
  os_consumer_key : ConsumerKey;
  os_compatibility : CompatibilityIdentity;
  os_manifest : option SessionCompatibilityManifest;
  os_mode : SessionOpenMode;
}.

Definition OpenSession_new (context : RequestContext) (session_id : SessionId)
    (consumer_key : ConsumerKey) (compatibility : CompatibilityIdentity) : OpenSession :=
  MkOpenSession context session_id consumer_key compatibility None ModeExact.
Definition OpenSession_with_manifest (context : RequestContext) (session_id : SessionId)
    (consumer_key : ConsumerKey) (manifest : SessionCompatibilityManifest) : OpenSession :=
  MkOpenSession context session_id consumer_key (m_compatibility manifest) (Some manifest) ModeExact.

Definition manifest_input (m : option SessionCompatibilityManifest) : bytes :=
  match m with
  | Some manifest =>
      ci_fixed [1] ++ ci_fixed (Compat_as_bytes (m_configuration_identity manifest))
      ++ ci_u64 (llen (m_templates manifest))
      ++ concat ((fun b => ci_identity (as_uuid (tb_template_id b))
                          ++ ci_fixed (Compat_as_bytes (tb_compatibility b)))
                 <$> m_templates manifest)
  | None => ci_fixed [0]
  end.

Definition open_input (c : OpenSession) : bytes :=
  (if bool_decide (os_mode c = ModeExact) then ci_identity (as_uuid (os_session_id c)) else [])
  ++ ci_bytes (bytes_of_string (as_str (os_consumer_key c)))
  ++ ci_fixed (Compat_as_bytes (os_compatibility c))
  ++ ci_fixed [mode_byte (os_mode c)]
  ++ manifest_input (os_manifest c).

#[global] Instance OpenSession_request `{!Sha256} : MutableRequest OpenSession := {|
  mr_context := os_context;
  mr_action _ := ActOpenSession;
  mr_digest c := ci_finish (open_input c) ActOpenSession;
|}.

Record CloseSession := MkCloseSession {
  cs_context : RequestContext; cs_session_id : SessionId; cs_epoch : FencingEpoch }.

Definition session_epoch_input (s : SessionId) (e : FencingEpoch) : bytes :=
  ci_identity (as_uuid s) ++ ci_u64 (FencingEpoch_get e).
Definition session_epoch_digest `{!Sha256} (a : StoreAction) (s : SessionId) (e : FencingEpoch) :
    SemanticDigest := ci_finish (session_epoch_input s e) a.

#[global] Instance CloseSession_request `{!Sha256} : MutableRequest CloseSession := {|
  mr_context := cs_context;
  mr_action _ := ActCloseSession;
  mr_digest c := session_epoch_digest ActCloseSession (cs_session_id c) (cs_epoch c);
|}.

Inductive LeaseDurationError := InvalidLeaseDuration.
Record LeaseDuration := MkLeaseDuration { as_millis : Z }.
#[global] Instance LeaseDuration_eq_dec : EqDecision LeaseDuration.
Proof. solve_decision. Defined.
Definition LeaseDuration_from_millis (milliseconds : Z) : result LeaseDurationError LeaseDuration :=
  if (milliseconds =? 0) || (i64_max <? milliseconds) then Err InvalidLeaseDuration
  else Ok (MkLeaseDuration milliseconds).
Definition LeaseDuration_wf (d : LeaseDuration) : Prop := 0 < as_millis d <= i64_max.

Definition session_duration_input (s : SessionId) (d : LeaseDuration) : bytes :=
  ci_identity (as_uuid s) ++ ci_u64 (as_millis d).
Definition session_duration_digest `{!Sha256} (a : StoreAction) (s : SessionId) (d : LeaseDuration) :
    SemanticDigest := ci_finish (session_duration_input s d) a.

Record AcquireOwnership := MkAcquireOwnership {
  aq_context : RequestContext; aq_session_id : SessionId; aq_duration : LeaseDuration }.
#[global] Instance AcquireOwnership_request `{!Sha256} : MutableRequest AcquireOwnership := {|
  mr_context := aq_context;
  mr_action _ := ActAcquireOwnership;
  mr_digest c := session_duration_digest ActAcquireOwnership (aq_session_id c) (aq_duration c);
|}.

Record RenewOwnership := MkRenewOwnership {
  rn_context : RequestContext; rn_session_id : SessionId; rn_epoch : FencingEpoch;
  rn_duration : LeaseDuration }.
Definition renew_input (c : RenewOwnership) : bytes :=
  ci_identity (as_uuid (rn_session_id c)) ++ ci_u64 (FencingEpoch_get (rn_epoch c))
  ++ ci_u64 (as_millis (rn_duration c)).
#[global] Instance RenewOwnership_request `{!Sha256} : MutableRequest RenewOwnership := {|
  mr_context := rn_context;
  mr_action _ := ActRenewOwnership;
  mr_digest c := ci_finish (renew_input c) ActRenewOwnership;
|}.

Record ReleaseOwnership := MkReleaseOwnership {
  rl_context : RequestContext; rl_session_id : SessionId; rl_epoch : FencingEpoch }.
#[global] Instance ReleaseOwnership_request `{!Sha256} : MutableRequest ReleaseOwnership := {|
  mr_context := rl_context;
  mr_action _ := ActReleaseOwnership;
  mr_digest c := session_epoch_digest ActReleaseOwnership (rl_session_id c) (rl_epoch c);
|}.

(** ** Results *)

Inductive Mutation (T : Type) := Applied (v : T) | Replayed (v : T) | Unchanged (v : T).
Arguments Applied {T} v.
Arguments Replayed {T} v.
Arguments Unchanged {T} v.
Definition Mutation_value {T} (m : Mutation T) : T :=
  match m with Applied v | Replayed v | Unchanged v => v end.
Definition was_replayed {T} (m : Mutation T) : bool :=
  match m with Replayed _ => true | _ => false end.

Record OwnershipLease := MkLease {
  ol_session_id : SessionId;
  ol_owner : HostId;
  ol_epoch : FencingEpoch;
  ol_expires_at : Timestamp;
}.
#[global] Instance OwnershipLease_eq_dec : EqDecision OwnershipLease.
Proof. solve_decision. Defined.
Inductive OwnershipLeaseError := ExpiryNotFuture.

Definition OwnershipLease_new (session_id : SessionId) (owner : HostId) (epoch : FencingEpoch)
    (issued_at expires_at : Timestamp) : result OwnershipLeaseError OwnershipLease :=
  if Timestamp_leb expires_at issued_at then Err ExpiryNotFuture
  else Ok (MkLease session_id owner epoch expires_at).

Definition is_effective_at (l : OwnershipLease) (observed_at : Timestamp) : bool :=
  Timestamp_ltb observed_at (ol_expires_at l).

(** ** Errors *)

Inductive CapacityReason :=
| SessionLimit (resource : CapacityResource) | GlobalLimit (resource : CapacityResource).
#[global] Instance CapacityReason_eq_dec : EqDecision CapacityReason.
Proof. solve_decision. Defined.

#[global] Instance OwnershipSnapshot_eq_dec : EqDecision OwnershipSnapshot.
Proof. solve_decision. Defined.

Inductive StoreError :=
| SessionNotFound (session_id : SessionId)
| TemplateNotFound (template_id : TemplateId)
| ParticipantNotFound (participant_id : ParticipantId)
| RootParticipantNotFound (session_id : SessionId)
| OperationNotFound (operation_id : OperationId)
| MessageNotFound (message_id : MessageId)
| ArtifactNotFound (artifact_id : ArtifactId)
| LaunchNotFound (attempt_id : LaunchAttemptId)
| MessageOversize
| MailboxQuotaExceeded
| CapacityExceeded (reason : CapacityReason)
| SessionClosed (session_id : SessionId)
| SessionAlreadyClosed (session_id : SessionId)
| CompatibilityConflict (session_id : SessionId) (persisted requested : CompatibilityIdentity)
| InterruptedSession (session_id : SessionId)
| ConsumerConflict (session_id : SessionId) (persisted requested : ConsumerKey)
| RequestConflict (request_id : RequestId)
| OwnershipHeld (ownership : OwnershipSnapshot)
| OwnershipExpired (session_id : SessionId) (epoch : FencingEpoch)
| StaleOwnership (session_id : SessionId) (attempted : FencingEpoch) (current : option FencingEpoch)
| LeaseTooLong
| SchemaTooNew (found supported : Z)
| Corrupt
| Busy
| Invalid
| ProjectionStale
| Unavailable.
#[global] Instance StoreError_eq_dec : EqDecision StoreError.
Proof. solve_decision. Defined.

Definition retryable (e : StoreError) : bool :=
  match e with Busy | Unavailable => true | _ => false end.

(** ** Event pages *)

Inductive EventReadError := OutOfRange (maximum : Z).
Record EventReadLimit := MkEventReadLimit { EventReadLimit_get : Z }.
Definition EventReadLimit_MAX : Z := 1000.
Definition EventReadLimit_new (value : Z) : result EventReadError EventReadLimit :=
  if (value =? 0) || (EventReadLimit_MAX <? value) then Err (OutOfRange EventReadLimit_MAX)
  else Ok (MkEventReadLimit value).

Record ReadEvents := MkReadEvents {
  re_session_id : SessionId; re_consumer : ConsumerKey; re_after : option EventPosition;
  re_limit : EventReadLimit }.
Record EventPage := MkEventPage {
  ep_events : list SessionEvent; ep_last_position : option EventPosition; ep_has_more : bool }.

(** ** What a digest stands for *)

(** The encodings of two requests are different byte strings with one hash. *)
Definition collision `{!Sha256} (a1 : StoreAction) (i1 : bytes) (a2 : StoreAction) (i2 : bytes) : Prop :=
  let p := semantic_preimage (StoreAction_capability a1) i1 in
  let q := semantic_preimage (StoreAction_capability a2) i2 in
  p <> q /\ sha256 p = sha256 q.

Lemma StoreAction_capability_wf a : Capability_wf (StoreAction_capability a).
Proof. destruct a; (split; [done|]); split; done. Qed.

Lemma ci_finish_inj `{!Sha256} i1 a1 i2 a2 : ci_finish i1 a1 = ci_finish i2 a2 ->
  (a1 = a2 /\ i1 = i2) \/ collision a1 i1 a2 i2.
Proof.
  intros [= Heq].
  destruct (decide (semantic_preimage (StoreAction_capability a1) i1
                    = semantic_preimage (StoreAction_capability a2) i2)) as [Hp|Hp]; [left|by right].
  apply semantic_preimage_inj in Hp as [Ha ->]; auto using StoreAction_capability_wf.
  injection Ha as Ha%StoreAction_as_str_inj. done.
Qed.

Definition manifest_wf (m : SessionCompatibilityManifest) : Prop :=
  Compat_wf (m_configuration_identity m) /\ Forall Binding_wf (m_templates m) /\
  llen (m_templates m) <= MAX_SESSION_TEMPLATES.
Definition OpenSession_wf (c : OpenSession) : Prop :=
  Uuid_wf (as_uuid (os_session_id c)) /\ slen (as_str (os_consumer_key c)) <= MAX_CONSUMER_KEY_BYTES /\
  Compat_wf (os_compatibility c) /\ forall m, os_manifest c = Some m -> manifest_wf m.

(** What an open request means: everything but who asks under which identity, and the
    candidate session identity outside the exact mode. *)
Definition open_meaning (c : OpenSession) :=
  (os_mode c, os_consumer_key c, os_compatibility c,
   (fun m => (m_configuration_identity m, m_templates m)) <$> os_manifest c,
   if bool_decide (os_mode c = ModeExact) then Some (os_session_id c) else None).

Lemma bytes_of_string_length s : llen (bytes_of_string s) = slen s.
Proof.
  unfold llen, bytes_of_string, slen. rewrite length_fmap. f_equal. induction s; cbn; congruence.
Qed.

Lemma ci_bytes_inj b1 r1 b2 r2 : llen b1 <= u64_max -> llen b2 <= u64_max ->
  ci_bytes b1 ++ r1 = ci_bytes b2 ++ r2 -> b1 = b2 /\ r1 = r2.
Proof.
  unfold ci_bytes, ci_u64, ci_fixed. intros H1 H2 Heq. rewrite <-!app_assoc in Heq.
  apply app_inj_1 in Heq as [Hn Heq]; [|by rewrite !be_bytes_length].
  pose proof (llen_nonneg b1). pose proof (llen_nonneg b2).
  apply be_bytes_inj in Hn; [|change (256 ^ Z.of_nat 8) with 18446744073709551616; unfold u64_max in *; lia..].
  apply app_inj_1 in Heq; [done|]. unfold llen in Hn. lia.
Qed.

Lemma manifest_input_inj m1 m2 : (forall m, m1 = Some m -> manifest_wf m) -> (forall m, m2 = Some m -> manifest_wf m) ->
  manifest_input m1 = manifest_input m2 ->
  (fun m => (m_configuration_identity m, m_templates m)) <$> m1 =
  (fun m => (m_configuration_identity m, m_templates m)) <$> m2.
Proof.
  destruct m1 as [m1|], m2 as [m2|]; intros Hw1 Hw2; cbn; try done. intros [= Heq].
  destruct (Hw1 _ eq_refl) as (Hc1 & Hb1 & Hn1), (Hw2 _ eq_refl) as (Hc2 & Hb2 & Hn2).
  destruct (manifest_canonical_inj (m_configuration_identity m1) (m_templates m1)
    (m_configuration_identity m2) (m_templates m2)) as [-> ->]; try done.
  unfold manifest_canonical. by do 2 f_equal.
Qed.

Lemma u64_inj v w : 0 <= v <= u64_max -> 0 <= w <= u64_max -> ci_u64 v = ci_u64 w -> v = w.
Proof.
  unfold u64_max. intros H1 H2. apply be_bytes_inj; change (256 ^ Z.of_nat 8) with 18446744073709551616; lia.
Qed.
Lemma Id_uuid_inj {k} (a b : Id k) : as_uuid a = as_uuid b -> a = b.
Proof. destruct a, b. cbn. congruence. Qed.

Lemma identity_u64_inj u1 v1 u2 v2 : Uuid_wf u1 -> Uuid_wf u2 -> 0 <= v1 <= u64_max -> 0 <= v2 <= u64_max ->
  ci_identity u1 ++ ci_u64 v1 = ci_identity u2 ++ ci_u64 v2 -> u1 = u2 /\ v1 = v2.
Proof.
  unfold ci_identity. intros U1 U2 V1 V2 [Hu Hv]%app_inj_1; [|by rewrite !be_bytes_length].
  apply be_bytes_inj in Hu; [|done..]. by apply u64_inj in Hv.
Qed.

Lemma open_input_inj c1 c2 : OpenSession_wf c1 -> OpenSession_wf c2 ->
  (os_mode c1 = ModeExact <-> os_mode c2 = ModeExact) ->
  open_input c1 = open_input c2 -> open_meaning c1 = open_meaning c2.
Proof.
  intros (U1 & K1 & C1 & M1) (U2 & K2 & C2 & M2) Hm Heq. unfold open_input in Heq.
  assert (Hrest : (os_mode c1 = ModeExact -> os_session_id c1 = os_session_id c2) /\
    ci_bytes (bytes_of_string (as_str (os_consumer_key c1))) ++ Compat_as_bytes (os_compatibility c1)
      ++ [mode_byte (os_mode c1)] ++ manifest_input (os_manifest c1) =
    ci_bytes (bytes_of_string (as_str (os_consumer_key c2))) ++ Compat_as_bytes (os_compatibility c2)
      ++ [mode_byte (os_mode c2)] ++ manifest_input (os_manifest c2)).
  { case_bool_decide as E1; case_bool_decide as E2; try tauto.
    unfold ci_identity in Heq. apply app_inj_1 in Heq as [Hu Heq]; [|by rewrite !be_bytes_length].
    apply be_bytes_inj in Hu; [|done..]. split; [intros _; by apply Id_uuid_inj|done]. }
  destruct Hrest as [Hid Hrest]. unfold MAX_CONSUMER_KEY_BYTES in *.
  apply ci_bytes_inj in Hrest as [Hk Hrest]; [|rewrite bytes_of_string_length; unfold u64_max; lia..].
  apply app_inj_1 in Hrest as [Hc Hrest]; [|by rewrite C1, C2].
  cbn [app] in Hrest. injection Hrest as Hmode Hman. apply (manifest_input_inj _ _ M1 M2) in Hman.
  assert (os_mode c1 = os_mode c2) as Hmd by (destruct (os_mode c1), (os_mode c2); done).
  apply bytes_of_string_inj in Hk. unfold open_meaning. rewrite Hman, <-Hmd.
  assert (os_consumer_key c1 = os_consumer_key c2) as -> by
    (destruct (os_consumer_key c1), (os_consumer_key c2); cbn in Hk; congruence).
  assert (os_compatibility c1 = os_compatibility c2) as -> by
    (destruct (os_compatibility c1), (os_compatibility c2); cbn in Hc; congruence).
  case_bool_decide as E; [|done]. by rewrite (Hid E).
Qed.

(** A request's digest stands for its meaning.  Two well-formed open requests of
    the same kind (both exact, or both by consumer key) with equal digests have the same
    mode, consumer key, compatibility identity and manifest, and for exact requests the
    same session, unless their encodings are a SHA-256 collision; and digests of
    acquire, renew, release and close requests likewise determine the action, session,
    epoch and duration. *)
Theorem store_digest_binds `{!Sha256} :
  (forall c1 c2, OpenSession_wf c1 -> OpenSession_wf c2 -> (os_mode c1 = ModeExact <-> os_mode c2 = ModeExact) ->
     mr_digest c1 = mr_digest c2 -> open_meaning c1 = open_meaning c2 \/
     collision ActOpenSession (open_input c1) ActOpenSession (open_input c2)) /\
  (forall a1 s1 e1 a2 s2 e2, Uuid_wf (as_uuid s1) -> Uuid_wf (as_uuid s2) ->
     0 <= FencingEpoch_get e1 <= u64_max -> 0 <= FencingEpoch_get e2 <= u64_max ->
     session_epoch_digest a1 s1 e1 = session_epoch_digest a2 s2 e2 ->
     (a1 = a2 /\ s1 = s2 /\ e1 = e2) \/ collision a1 (session_epoch_input s1 e1) a2 (session_epoch_input s2 e2)) /\
  (forall a1 s1 t1 a2 s2 t2, Uuid_wf (as_uuid s1) -> Uuid_wf (as_uuid s2) ->
     LeaseDuration_wf t1 -> LeaseDuration_wf t2 ->
     session_duration_digest a1 s1 t1 = session_duration_digest a2 s2 t2 ->
     (a1 = a2 /\ s1 = s2 /\ t1 = t2) \/ collision a1 (session_duration_input s1 t1) a2 (session_duration_input s2 t2)) /\
  (forall c1 c2, Uuid_wf (as_uuid (rn_session_id c1)) -> Uuid_wf (as_uuid (rn_session_id c2)) ->
     0 <= FencingEpoch_get (rn_epoch c1) <= u64_max -> 0 <= FencingEpoch_get (rn_epoch c2) <= u64_max ->
     LeaseDuration_wf (rn_duration c1) -> LeaseDuration_wf (rn_duration c2) ->
     mr_digest c1 = mr_digest c2 ->
     (rn_session_id c1 = rn_session_id c2 /\ rn_epoch c1 = rn_epoch c2 /\ rn_duration c1 = rn_duration c2) \/
     collision ActRenewOwnership (renew_input c1) ActRenewOwnership (renew_input c2)).
Proof.
  split_and!.
  - intros c1 c2 W1 W2 Hm Heq. apply ci_finish_inj in Heq as [[_ Heq]|Hc]; [left|by right].
    by apply open_input_inj.
  - intros a1 s1 e1 a2 s2 e2 W1 W2 B1 B2 Heq.
    apply ci_finish_inj in Heq as [[-> Heq]|Hc]; [left|by right].
    apply identity_u64_inj in Heq as (Hs & He); auto. split_and!; auto using Id_uuid_inj.
    destruct e1, e2; cbn in *; congruence.
  - intros a1 s1 t1 a2 s2 t2 W1 W2 B1 B2 Heq. unfold LeaseDuration_wf, i64_max in *.
    apply ci_finish_inj in Heq as [[-> Heq]|Hc]; [left|by right].
    apply identity_u64_inj in Heq as (Hs & He); auto; [|unfold u64_max; lia..].
    split_and!; auto using Id_uuid_inj. destruct t1, t2; cbn in *; congruence.
  - intros c1 c2 W1 W2 B1 B2 L1 L2 Heq. unfold LeaseDuration_wf, i64_max in *.
    apply ci_finish_inj in Heq as [[_ Heq]|Hc]; [left|by right]. unfold renew_input in Heq.
    rewrite !app_assoc in Heq. apply app_inj_2 in Heq as [Heq Ht]; [|by unfold ci_u64; rewrite !be_bytes_length].
    apply u64_inj in Ht; [|unfold u64_max; lia..]. apply identity_u64_inj in Heq as (Hs & He); auto.
    destruct c1 as [? ? [] []], c2 as [? ? [] []]; cbn in *. split_and!; [by apply Id_uuid_inj|congruence..].
Qed.

Lemma store_digest_binds_witness :
  let H : Sha256 := fun b => b in
  (ActCloseSession = ActCloseSession /\ MkId (k := KSession) 7 = MkId 7 /\ MkFencingEpoch 3 = MkFencingEpoch 3) \/
  collision ActCloseSession (session_epoch_input (MkId 7) (MkFencingEpoch 3))
    ActCloseSession (session_epoch_input (MkId 7) (MkFencingEpoch 3)).
Proof.
  intros H. apply (proj1 (proj2 (@store_digest_binds H)) ActCloseSession (MkId 7) (MkFencingEpoch 3)
    ActCloseSession (MkId 7) (MkFencingEpoch 3)); unfold Uuid_wf, u64_max; cbn; try lia; reflexivity.
Defined.
