(* ===== verification/StoreWire.v ===== *)
(** * StoreWire: how the SQLite store encodes errors, leases and scalars

    Models the conversions of crates/navigator-store-sqlite/src/store.rs between the
    values of the store's interface and what its tables hold: the recorded failure
    ([FailureWire]), the recorded lease ([LeaseWire]), stored action names
    ([parse_action]) and the integer and timestamp columns. *)
From S2P Require Import Prelude Scalars Session Authority Capacity StoreApi.

(** ** Recorded failures *)

Inductive FailureWire :=
| FwSessionNotFound (session_id : SessionId)
| FwTemplateNotFound (template_id : TemplateId)
| FwParticipantNotFound (participant_id : ParticipantId)
| FwRootParticipantNotFound (session_id : SessionId)
| FwOperationNotFound (operation_id : OperationId)
| FwSessionClosed (session_id : SessionId)
| FwAlreadyClosed (session_id : SessionId)
| FwCompatibilityConflict (session_id : SessionId) (persisted requested : CompatibilityIdentity)
| FwInterruptedSession (session_id : SessionId)
| FwConsumerConflict (session_id : SessionId) (persisted requested : ConsumerKey)
| FwRequestConflict (request_id : RequestId)
| FwOwnershipHeld (ownership : OwnershipSnapshot)
| FwOwnershipExpired (session_id : SessionId) (epoch : FencingEpoch)
| FwStaleOwnership (session_id : SessionId) (attempted : FencingEpoch) (current : option FencingEpoch)
| FwLeaseTooLong
| FwSchemaTooNew (found supported : Z)
| FwCorrupt
| FwBusy
| FwInvalid
| FwMessageNotFound (message_id : MessageId)
| FwArtifactNotFound (artifact_id : ArtifactId)
| FwLaunchNotFound (attempt_id : LaunchAttemptId)
| FwMessageOversize
| FwMailboxQuotaExceeded
| FwCapacityExceeded (reason : CapacityReason)
| FwProjectionStale
| FwUnavailable.

Definition FailureWire_from (error : StoreError) : FailureWire :=
  match error with
  | SessionNotFound s => FwSessionNotFound s
  | TemplateNotFound t => FwTemplateNotFound t
  | ParticipantNotFound p => FwParticipantNotFound p
  | RootParticipantNotFound s => FwRootParticipantNotFound s
  | MessageNotFound m => FwMessageNotFound m
  | ArtifactNotFound a => FwArtifactNotFound a
  | LaunchNotFound a => FwLaunchNotFound a
  | MessageOversize => FwMessageOversize
  | MailboxQuotaExceeded => FwMailboxQuotaExceeded
  | CapacityExceeded reason => FwCapacityExceeded reason
  | OperationNotFound o => FwOperationNotFound o
  | SessionClosed s => FwSessionClosed s
  | SessionAlreadyClosed s => FwAlreadyClosed s
  | CompatibilityConflict s persisted requested => FwCompatibilityConflict s persisted requested
  | InterruptedSession s => FwInterruptedSession s
  | ConsumerConflict s persisted requested => FwConsumerConflict s persisted requested
  | RequestConflict r => FwRequestConflict r
  | OwnershipHeld o => FwOwnershipHeld o
  | OwnershipExpired s e => FwOwnershipExpired s e
  | StaleOwnership s attempted current => FwStaleOwnership s attempted current
  | LeaseTooLong => FwLeaseTooLong
  | SchemaTooNew found supported => FwSchemaTooNew found supported
  | Corrupt => FwCorrupt
  | Busy => FwBusy
  | Invalid => FwInvalid
  | ProjectionStale => FwProjectionStale
  | Unavailable => FwUnavailable
  end.

Definition StoreError_from (error : FailureWire) : StoreError :=
  match error with
  | FwSessionNotFound s => SessionNotFound s
  | FwTemplateNotFound t => TemplateNotFound t
  | FwParticipantNotFound p => ParticipantNotFound p
  | FwRootParticipantNotFound s => RootParticipantNotFound s
  | FwOperationNotFound o => OperationNotFound o
  | FwMessageNotFound m => MessageNotFound m
  | FwArtifactNotFound a => ArtifactNotFound a
  | FwLaunchNotFound a => LaunchNotFound a
  | FwMessageOversize => MessageOversize
  | FwMailboxQuotaExceeded => MailboxQuotaExceeded
  | FwCapacityExceeded reason => CapacityExceeded reason
  | FwSessionClosed s => SessionClosed s
  | FwAlreadyClosed s => SessionAlreadyClosed s
  | FwCompatibilityConflict s persisted requested => CompatibilityConflict s persisted requested
  | FwInterruptedSession s => InterruptedSession s
  | FwConsumerConflict s persisted requested => ConsumerConflict s persisted requested
  | FwRequestConflict r => RequestConflict r
  | FwOwnershipHeld o => OwnershipHeld o
  | FwOwnershipExpired s e => OwnershipExpired s e
  | FwStaleOwnership s attempted current => StaleOwnership s attempted current
  | FwLeaseTooLong => LeaseTooLong
  | FwSchemaTooNew found supported => SchemaTooNew found supported
  | FwCorrupt => Corrupt
  | FwBusy => Busy
  | FwInvalid => Invalid
  | FwProjectionStale => ProjectionStale
  | FwUnavailable => Unavailable
  end.

(** A replayed failure is the failure that was recorded. *)
Lemma StoreError_from_wire e : StoreError_from (FailureWire_from e) = e.
Proof. by destruct e. Qed.

(** ** Stored action names *)

Definition parse_action (value : string) : result StoreError StoreAction :=
  let named s := String.eqb value s in
  if named "session.open"%string then Ok ActOpenSession
  else if named "session.close"%string then Ok ActCloseSession
  else if named "ownership.acquire"%string then Ok ActAcquireOwnership
  else if named "ownership.renew"%string then Ok ActRenewOwnership
  else if named "ownership.release"%string then Ok ActReleaseOwnership
  else if named "instance.prepare_launch"%string then Ok ActPrepareLaunch
  else if named "instance.attach_launch"%string then Ok ActAttachLaunch
  else if named "instance.transition_launch"%string then Ok ActTransitionLaunch
  else if named "participant.create_root"%string then Ok ActCreateRootParticipant
  else if named "participant.create_child"%string then Ok ActCreateChildParticipant
  else if named "operation.start"%string then Ok ActStartOperation
  else if named "operation.transition"%string then Ok ActTransitionOperation
  else if named "message.enqueue"%string then Ok ActEnqueueMessage
  else if named "message.lease_next"%string then Ok ActLeaseNextMessage
  else if named "message.transition_delivery"%string then Ok ActTransitionMessageDelivery
  else if named "authority.put_policy"%string then Ok ActPutAuthorityPolicy
  else if named "authority.issue_grant"%string then Ok ActIssueGrant
  else if named "authority.revoke_grant"%string then Ok ActRevokeGrant
  else if named "authority.check_effect"%string then Ok ActCheckAuthorityEffect
  else if named "authority.create_child"%string then Ok ActCreateAuthorizedChild
  else if named "hierarchy.apply_effect"%string then Ok ActApplyHierarchyEffect
  else if named "authority.register_template_policy"%string then Ok ActRegisterAuthorityTemplatePolicy
  else Err Corrupt.

(** ** Scalar columns *)

(** [u64::try_from] of a column and [i64::try_from] of a value to bind. *)
Definition to_u64 (value : Z) : result StoreError Z := if 0 <=? value then Ok value else Err Corrupt.
Definition to_i64 (value : Z) : result StoreError Z :=
  if value <=? i64_max then Ok value else Err Corrupt.
(** [u32::try_from] of a nanosecond column. *)
Definition to_u32 (value : Z) : result StoreError Z :=
  if (0 <=? value) && (value <=? u32_max) then Ok value else Err Corrupt.

Definition decode_revision (value : Z) : result StoreError Revision :=
  v ← to_u64 value; map_err (fun _ => Corrupt) (Revision_new v).
Definition decode_epoch (value : Z) : result StoreError FencingEpoch :=
  v ← to_u64 value; map_err (fun _ => Corrupt) (FencingEpoch_new v).

Section timestamps.
Context `{!TimeLib}.

Definition decode_timestamp (seconds nanos : Z) : result StoreError Timestamp :=
  n ← to_u32 nanos; map_err (fun _ => Corrupt) (Timestamp_new seconds n).

Definition timestamp_before (seconds nanos : Z) : result StoreError Timestamp :=
  if 0 <? nanos then map_err (fun _ => Corrupt) (Timestamp_new seconds (nanos - 1))
  else s ← (if i64_min <=? seconds - 1 then Ok (seconds - 1) else Err Corrupt);
       map_err (fun _ => Corrupt) (Timestamp_new s 999999999).

(** ** Recorded leases *)

Record LeaseWire := MkLeaseWire {
  lw_session_id : Uuid;
  lw_owner : Uuid;
  lw_epoch : Z;
  lw_issued_seconds : Z;
  lw_issued_nanos : Z;
  lw_expires_seconds : Z;
  lw_expires_nanos : Z;
}.

Definition LeaseWire_from_lease (lease : OwnershipLease) (issued_at : Timestamp) : LeaseWire :=
  MkLeaseWire (as_uuid (ol_session_id lease)) (as_uuid (ol_owner lease))
    (FencingEpoch_get (ol_epoch lease)) (unix_seconds issued_at) (nanoseconds issued_at)
    (unix_seconds (ol_expires_at lease)) (nanoseconds (ol_expires_at lease)).

Definition LeaseWire_into_lease (w : LeaseWire) : result StoreError OwnershipLease :=
  session_id ← map_err (fun _ => Corrupt) (from_uuid (lw_session_id w));
  owner ← map_err (fun _ => Corrupt) (from_uuid (lw_owner w));
  epoch ← map_err (fun _ => Corrupt) (FencingEpoch_new (lw_epoch w));
  issued ← map_err (fun _ => Corrupt) (Timestamp_new (lw_issued_seconds w) (lw_issued_nanos w));
  expires ← map_err (fun _ => Corrupt) (Timestamp_new (lw_expires_seconds w) (lw_expires_nanos w));
  map_err (fun _ => Corrupt) (OwnershipLease_new session_id owner epoch issued expires).

(** A timestamp the calendar can represent, as every clock reading is. *)
Definition Timestamp_wf (t : Timestamp) : Prop := exists d, t = Timestamp_from_datetime d.
End timestamps.

(** ** Properties *)

(** The actions [parse_action] has no name for. *)
Definition unparsed_actions : list StoreAction :=
  [ActCancelSubtree; ActReserveEffect; ActStartEffect; ActResolveEffect; ActTakeoverEffect;
   ActResolveAuthorizedEffect; ActPublishArtifact; ActDeleteArtifact; ActEraseArtifact; ActRegisterTool;
   ActReserveToolInvocation; ActTransitionToolInvocation; ActConnectToolProvider].

(** Stored action names and actions correspond, with a gap.  Parsing a stored name
    never gives a wrong action, and inverts the action's own name for 22 of the 35
    actions; the names of the other 13 are reported as corrupt.  Six of these are names
    the store itself records in the request ledger (cancelling a subtree, publishing,
    deleting and erasing artifacts, registering tools, connecting tool providers), so
    reading such a request back fails. *)
Theorem stored_action_names :
  (forall s a, parse_action s = Ok a -> s = StoreAction_as_str a) /\
  (forall a, parse_action (StoreAction_as_str a) = if decide (a ∈ unparsed_actions) then Err Corrupt else Ok a).
Proof.
  split.
  - intros s a. unfold parse_action.
    repeat match goal with
    | |- (if String.eqb s ?n then _ else _) = _ -> _ =>
        destruct (String.eqb_spec s n) as [->|_]; [by intros [= <-]|]
    end. done.
  - by intros [].
Qed.
