(* ===== verification/Approval.v ===== *)
(** * Approval: approval requests, grants and effect intents

    Models crates/navigator-domain/src/approval.rs and the commands of
    crates/navigator-store-api/src/approval.rs: the canonical resource an approval is
    about, the lifecycle invariants of the three durable values (their [validate],
    which decoding from storage runs too), and the checks of every command against
    them.  The JSON text parser is the class [JsonRaw]; the visitor that rejects
    duplicate keys while it builds the map is the source's own and is modelled. *)
From S2P Require Import Prelude Scalars Session Authority Text Json StoreApi StoreWire.

Definition MAX_APPROVAL_RESOURCE_BYTES : Z := 16384.
Definition MAX_APPROVAL_SUMMARY_BYTES : Z := 1024.
Definition MAX_APPROVAL_USES : Z := 1024.
Definition MAX_JSON_DEPTH : Z := 32.

Inductive ApprovalDomainError :=
| InvalidResource | InvalidSummary | InvalidRequest | InvalidGrant | InvalidEffect.
#[global] Instance ApprovalDomainError_eq_dec : EqDecision ApprovalDomainError.
Proof. solve_decision. Defined.

(** ** Resources *)

(** The text as the parser presents it to a visitor: entries of an object in source
    order, repeated keys included. *)
Class JsonRaw := {
  raw_from_slice : bytes -> option Value;
  raw_to_vec : Value -> bytes;
}.

(** The map a [Visitor::visit_map] call fills, entry by entry. *)
Fixpoint unique_value (v : Value) : option Value :=
  match v with
  | VArray l => (fix seq l acc := match l with
      | [] => Some (VArray acc)
      | x :: l => match unique_value x with
                  | Some y => seq l (acc ++ [y])
                  | None => None end end) l []
  | VObject o => (fix entries o acc := match o with
      | [] => Some (VObject acc)
      | (k, x) :: o => match unique_value x with
          | Some y => match obj_get k acc with
                      | Some _ => None
                      | None => entries o (btree_insert k y acc) end
          | None => None end end) o []
  | scalar => Some scalar
  end.

(** [depth] counts up to 32 in the code; the budget counts down from 33. *)
Fixpoint valid_json (budget : nat) (v : Value) : bool :=
  match budget with
  | O => false
  | S budget =>
      match v with
      | VNull | VBool _ | VString _ => true
      | VNumber n => match n with PosInt _ | NegInt _ => true | Float _ => false end
      | VArray l => forallb (valid_json budget) l
      | VObject o => forallb (fun e => valid_json budget e.2) o
      end
  end.

Record ApprovalResource := MkApprovalResource { ar_as_bytes : bytes }.
#[global] Instance ApprovalResource_eq_dec : EqDecision ApprovalResource.
Proof. solve_decision. Defined.

Definition is_object (v : Value) : bool := match v with VObject _ => true | _ => false end.

Definition ApprovalResource_new `{!JsonRaw} (b : bytes) :
    result ApprovalDomainError ApprovalResource :=
  if (llen b =? 0) || (MAX_APPROVAL_RESOURCE_BYTES <? llen b) then Err InvalidResource else
  value ← ok_or InvalidResource (raw_from_slice b ≫= unique_value);
  if negb (is_object value) || negb (valid_json 33 value) then Err InvalidResource else
  let canonical := raw_to_vec value in
  if MAX_APPROVAL_RESOURCE_BYTES <? llen canonical then Err InvalidResource
  else Ok (MkApprovalResource canonical).

Definition ApprovalResource_digest `{!Sha256} (r : ApprovalResource) : SemanticDigest :=
  SemanticDigest_v1 (MkCapability "approval.resource.v1") (ar_as_bytes r).

(** ** Summaries *)

Record ApprovalSummary := MkApprovalSummary { asum_as_str : string }.
#[global] Instance ApprovalSummary_eq_dec : EqDecision ApprovalSummary.
Proof. solve_decision. Defined.

Definition ApprovalSummary_new (value : string) : result ApprovalDomainError ApprovalSummary :=
  if blank value || (MAX_APPROVAL_SUMMARY_BYTES <? slen value) || existsb is_control (chars value)
  then Err InvalidSummary else Ok (MkApprovalSummary value).

(** ** Requests *)

Inductive ApprovalStatus :=
| ApPending | ApGranted | ApConsumed | ApDenied | ApExpired | ApRevoked.
#[global] Instance ApprovalStatus_eq_dec : EqDecision ApprovalStatus.
Proof. solve_decision. Defined.
Inductive ApprovalDecisionSource := TrustedConsumer.
#[global] Instance ApprovalDecisionSource_eq_dec : EqDecision ApprovalDecisionSource.
Proof. solve_decision. Defined.

Record ApprovalRequest := MkApprovalRequest {
  rq_id : ApprovalRequestId;
  rq_session_id : SessionId;
  rq_requester_id : ParticipantId;
  rq_operation_id : OperationId;
  rq_source_message_id : MessageId;
  rq_source_delivery_attempt_id : DeliveryAttemptId;
  rq_coordinator_id : ParticipantId;
  rq_capability : Capability;
  rq_resource : ApprovalResource;
  rq_summary : ApprovalSummary;
  rq_status : ApprovalStatus;
  rq_expires_at : Timestamp;
  rq_grant_id : option GrantId;
  rq_decision_source : option ApprovalDecisionSource;
  rq_created_at : Timestamp;
  rq_decided_at : option Timestamp;
  rq_revision : Revision;
}.
#[global] Instance ApprovalRequest_eq_dec : EqDecision ApprovalRequest.
Proof. solve_decision. Defined.

Definition is_some {A} (o : option A) : bool := match o with Some _ => true | None => false end.
Definition is_none {A} (o : option A) : bool := negb (is_some o).
(** [Option::is_none_or]. *)
Definition is_none_or {A} (o : option A) (p : A -> bool) : bool :=
  match o with Some a => p a | None => true end.

Definition lifecycle_fields (r : ApprovalRequest) : bool :=
  match rq_status r with
  | ApPending | ApExpired =>
      is_none (rq_grant_id r) && is_none (rq_decision_source r) && is_none (rq_decided_at r)
  | ApDenied =>
      is_none (rq_grant_id r) && is_some (rq_decision_source r) && is_some (rq_decided_at r)
  | ApGranted | ApConsumed | ApRevoked =>
      is_some (rq_grant_id r) && is_some (rq_decision_source r) && is_some (rq_decided_at r)
  end.

Definition ApprovalRequest_validate (r : ApprovalRequest) : result ApprovalDomainError ApprovalRequest :=
  if lifecycle_fields r
     && Timestamp_ltb (rq_created_at r) (rq_expires_at r)
     && is_none_or (rq_decided_at r) (fun at_ =>
          Timestamp_leb (rq_created_at r) at_ && Timestamp_ltb at_ (rq_expires_at r))
  then Ok r else Err InvalidRequest.

(** ** Grants *)

Record ApprovalGrant := MkApprovalGrant {
  gr_id : GrantId;
  gr_request_id : ApprovalRequestId;
  gr_session_id : SessionId;
  gr_subject_id : ParticipantId;
  gr_operation_id : OperationId;
  gr_capability : Capability;
  gr_resource_hash : SemanticDigest;
  gr_issued_by : ApprovalDecisionSource;
  gr_max_uses : Z;
  gr_used_count : Z;
  gr_expires_at : Timestamp;
  gr_revoked_at : option Timestamp;
  gr_created_at : Timestamp;
  gr_revision : Revision;
}.
#[global] Instance ApprovalGrant_eq_dec : EqDecision ApprovalGrant.
Proof. solve_decision. Defined.

Definition ApprovalGrant_validate (g : ApprovalGrant) : result ApprovalDomainError ApprovalGrant :=
  if (0 <? gr_max_uses g) && (gr_max_uses g <=? MAX_APPROVAL_USES)
     && (gr_used_count g <=? gr_max_uses g)
     && Timestamp_ltb (gr_created_at g) (gr_expires_at g)
     && is_none_or (gr_revoked_at g) (fun at_ => Timestamp_leb (gr_created_at g) at_)
  then Ok g else Err InvalidGrant.

Definition is_usable_at (g : ApprovalGrant) (now : Timestamp) : bool :=
  is_none (gr_revoked_at g) && Timestamp_ltb now (gr_expires_at g)
  && (gr_used_count g <? gr_max_uses g) && (0 <? gr_max_uses g)
  && (gr_max_uses g <=? MAX_APPROVAL_USES).

(** ** Effect intents *)

Inductive ApprovalEffectPhase := EpReserved | EpSucceeded | EpFailed | EpUncertain.
#[global] Instance ApprovalEffectPhase_eq_dec : EqDecision ApprovalEffectPhase.
Proof. solve_decision. Defined.
Inductive TerminalApprovalEffectPhase := TSucceeded | TFailed | TUncertain.
Definition ApprovalEffectPhase_from (p : TerminalApprovalEffectPhase) : ApprovalEffectPhase :=
  match p with TSucceeded => EpSucceeded | TFailed => EpFailed | TUncertain => EpUncertain end.

Record ApprovalEffectIntent := MkApprovalEffectIntent {
  ei_effect_id : RequestId;
  ei_session_id : SessionId;
  ei_grant_id : GrantId;
  ei_subject_id : ParticipantId;
  ei_operation_id : OperationId;
  ei_capability : Capability;
  ei_resource_hash : SemanticDigest;
  ei_phase : ApprovalEffectPhase;
  ei_created_at : Timestamp;
  ei_finished_at : option Timestamp;
  ei_revision : Revision;
}.
#[global] Instance ApprovalEffectIntent_eq_dec : EqDecision ApprovalEffectIntent.
Proof. solve_decision. Defined.

Definition ApprovalEffectIntent_validate (e : ApprovalEffectIntent) :
    result ApprovalDomainError ApprovalEffectIntent :=
  let phase := Bool.eqb (bool_decide (ei_phase e = EpReserved)) (is_none (ei_finished_at e)) in
  if phase && is_none_or (ei_finished_at e) (fun at_ => Timestamp_leb (ei_created_at e) at_)
  then Ok e else Err InvalidEffect.

(** ** Commands (navigator-store-api) *)

Record ApproveRequest := MkApproveRequest {
  apr_context : RequestContext;
  apr_session_id : SessionId;
  apr_owner_epoch : FencingEpoch;
  apr_approval_id : ApprovalRequestId;
  apr_expected_revision : Revision;
  apr_grant_id : GrantId;
  apr_grant_expires_at : Timestamp;
  apr_max_uses : Z;
}.
Record DenyRequest := MkDenyRequest {
  den_context : RequestContext;
  den_session_id : SessionId;
  den_owner_epoch : FencingEpoch;
  den_approval_id : ApprovalRequestId;
  den_expected_revision : Revision;
}.
Record ExpireApproval := MkExpireApproval {
  exa_context : RequestContext;
  exa_session_id : SessionId;
  exa_owner_epoch : FencingEpoch;
  exa_approval_id : ApprovalRequestId;
  exa_expected_revision : Revision;
}.
Record RevokeApprovalGrant := MkRevokeApprovalGrant {
  rev_context : RequestContext;
  rev_session_id : SessionId;
  rev_owner_epoch : FencingEpoch;
  rev_grant_id : GrantId;
  rev_expected_revision : Revision;
}.
Record ConsumeApprovalGrant := MkConsumeApprovalGrant {
  con_context : RequestContext;
  con_session_id : SessionId;
  con_owner_epoch : FencingEpoch;
  con_grant_id : GrantId;
  con_expected_revision : Revision;
  con_effect_id : RequestId;
  con_subject_id : ParticipantId;
  con_operation_id : OperationId;
  con_capability : Capability;
  con_resource_hash : SemanticDigest;
}.
Record FinishApprovalEffect := MkFinishApprovalEffect {
  fin_context : RequestContext;
  fin_session_id : SessionId;
  fin_owner_epoch : FencingEpoch;
  fin_effect_id : RequestId;
  fin_expected_revision : Revision;
  fin_phase : TerminalApprovalEffectPhase;
}.

Definition eqb {A} `{EqDecision A} (x y : A) : bool := bool_decide (x = y).
Definition neqb {A} `{EqDecision A} (x y : A) : bool := negb (eqb x y).

Definition ApproveRequest_validate_against (c : ApproveRequest) (r : ApprovalRequest) (now : Timestamp) :
    result StoreError unit :=
  if neqb (rq_id r) (apr_approval_id c) || neqb (rq_session_id r) (apr_session_id c)
     || neqb (rq_status r) ApPending || neqb (rq_revision r) (apr_expected_revision c)
     || Timestamp_leb (rq_expires_at r) now
     || Timestamp_ltb (rq_expires_at r) (apr_grant_expires_at c)
     || Timestamp_leb (apr_grant_expires_at c) now
     || (apr_max_uses c =? 0) || (MAX_APPROVAL_USES <? apr_max_uses c)
  then Err Invalid else Ok tt.

Definition DenyRequest_validate_against (c : DenyRequest) (r : ApprovalRequest) (now : Timestamp) :
    result StoreError unit :=
  if eqb (rq_id r) (den_approval_id c) && eqb (rq_session_id r) (den_session_id c)
     && eqb (rq_status r) ApPending && eqb (rq_revision r) (den_expected_revision c)
     && Timestamp_ltb now (rq_expires_at r)
  then Ok tt else Err Invalid.

Definition ExpireApproval_validate_against (c : ExpireApproval) (r : ApprovalRequest) (now : Timestamp) :
    result StoreError unit :=
  if eqb (rq_id r) (exa_approval_id c) && eqb (rq_session_id r) (exa_session_id c)
     && eqb (rq_revision r) (exa_expected_revision c) && Timestamp_leb (rq_expires_at r) now
     && eqb (rq_status r) ApPending
  then Ok tt else Err Invalid.

Section commands.
Context {SH : Sha256}.

Definition RevokeApprovalGrant_validate_against (c : RevokeApprovalGrant) (r : ApprovalRequest)
    (g : ApprovalGrant) (now : Timestamp) : result StoreError unit :=
  if eqb (gr_id g) (rev_grant_id c) && eqb (gr_session_id g) (rev_session_id c)
     && eqb (gr_request_id g) (rq_id r) && eqb (rq_session_id r) (rev_session_id c)
     && eqb (rq_grant_id r) (Some (gr_id g)) && eqb (rq_status r) ApGranted
     && eqb (rq_requester_id r) (gr_subject_id g) && eqb (rq_operation_id r) (gr_operation_id g)
     && eqb (rq_capability r) (gr_capability g)
     && eqb (ApprovalResource_digest (rq_resource r)) (gr_resource_hash g)
     && eqb (gr_revision g) (rev_expected_revision c) && is_none (gr_revoked_at g)
     && (gr_used_count g <? gr_max_uses g) && Timestamp_ltb now (gr_expires_at g)
  then Ok tt else Err Invalid.

Definition ConsumeApprovalGrant_validate_against (c : ConsumeApprovalGrant) (g : ApprovalGrant)
    (r : ApprovalRequest) (now : Timestamp) : result StoreError ApprovalStatus :=
  if eqb (gr_id g) (con_grant_id c) && eqb (gr_session_id g) (con_session_id c)
     && eqb (gr_request_id g) (rq_id r) && eqb (rq_session_id r) (con_session_id c)
     && eqb (rq_grant_id r) (Some (gr_id g)) && eqb (rq_requester_id r) (gr_subject_id g)
     && eqb (rq_operation_id r) (gr_operation_id g) && eqb (rq_capability r) (gr_capability g)
     && eqb (ApprovalResource_digest (rq_resource r)) (gr_resource_hash g)
     && eqb (rq_status r) ApGranted && eqb (gr_subject_id g) (con_subject_id c)
     && eqb (gr_operation_id g) (con_operation_id c) && eqb (gr_capability g) (con_capability c)
     && eqb (gr_resource_hash g) (con_resource_hash c)
     && eqb (gr_revision g) (con_expected_revision c) && is_usable_at g now
  then Ok (if gr_used_count g + 1 =? gr_max_uses g then ApConsumed else ApGranted)
  else Err Invalid.

Definition FinishApprovalEffect_validate_against (c : FinishApprovalEffect) (e : ApprovalEffectIntent) :
    result StoreError unit :=
  if eqb (ei_effect_id e) (fin_effect_id c) && eqb (ei_session_id e) (fin_session_id c)
     && eqb (ei_revision e) (fin_expected_revision c) && eqb (ei_phase e) EpReserved
     && is_none (ei_finished_at e)
  then Ok tt else Err Invalid.

Record ApprovedRequest := MkApproved { ad_request : ApprovalRequest; ad_grant : ApprovalGrant }.

(** [decided_at.expect(..)] is only reached when the request validates as granted,
    where it is present. *)
Definition ApprovedRequest_validate (a : ApprovedRequest) : result StoreError ApprovedRequest :=
  let r := ad_request a in
  let g := ad_grant a in
  if is_ok (ApprovalRequest_validate r) && is_ok (ApprovalGrant_validate g)
     && eqb (rq_status r) ApGranted && eqb (rq_grant_id r) (Some (gr_id g))
     && eqb (gr_request_id g) (rq_id r) && eqb (gr_session_id g) (rq_session_id r)
     && eqb (gr_subject_id g) (rq_requester_id r) && eqb (gr_operation_id g) (rq_operation_id r)
     && eqb (gr_capability g) (rq_capability r)
     && eqb (gr_resource_hash g) (ApprovalResource_digest (rq_resource r))
     && (0 <? gr_max_uses g) && Timestamp_leb (gr_expires_at g) (rq_expires_at r)
     && eqb (Some (gr_created_at g)) (rq_decided_at r) && eqb (gr_issued_by g) TrustedConsumer
  then Ok a else Err Invalid.

Record ConsumedApprovalGrant := MkConsumed { cg_grant : ApprovalGrant; cg_effect : ApprovalEffectIntent }.

Definition ConsumedApprovalGrant_validate (c : ConsumedApprovalGrant) :
    result StoreError ConsumedApprovalGrant :=
  let g := cg_grant c in
  let e := cg_effect c in
  if is_ok (ApprovalGrant_validate g) && is_ok (ApprovalEffectIntent_validate e)
     && (0 <? gr_used_count g) && eqb (ei_session_id e) (gr_session_id g)
     && eqb (ei_grant_id e) (gr_id g) && eqb (ei_subject_id e) (gr_subject_id g)
     && eqb (ei_operation_id e) (gr_operation_id g) && eqb (ei_capability e) (gr_capability g)
     && eqb (ei_resource_hash e) (gr_resource_hash g) && eqb (ei_phase e) EpReserved
  then Ok c else Err Invalid.
End commands.

(** ** Resources are canonical *)

(** No object of the text repeats a key. *)
#[local] Set Warnings "-register-all".
Inductive dup_free : Value -> Prop :=
| df_null : dup_free VNull
| df_bool b : dup_free (VBool b)
| df_number n : dup_free (VNumber n)
| df_string s : dup_free (VString s)
| df_array l : Forall dup_free l -> dup_free (VArray l)
| df_object o : NoDup o.*1 -> Forall (fun e => dup_free e.2) o -> dup_free (VObject o).

(** What the code relies on of the JSON library: the empty text is not JSON, and a
    value it built and printed (no floats, no repeated keys) parses back to itself. *)
Class JsonRawLaws `{JR : JsonRaw} := {
  raw_empty : raw_from_slice [] = None;
  raw_roundtrip : forall b r v, raw_from_slice b = Some r -> unique_value r = Some v -> float_free v ->
    raw_from_slice (raw_to_vec v) = Some v;
}.

Definition array_loop := fix seq (l acc : list Value) : option Value := match l with
  | [] => Some (VArray acc)
  | x :: l => match unique_value x with Some y => seq l (acc ++ [y]) | None => None end end.
Definition entries_loop := fix entries (o acc : list (string * Value)) : option Value := match o with
  | [] => Some (VObject acc)
  | (k, x) :: o => match unique_value x with
      | Some y => match obj_get k acc with Some _ => None | None => entries o (btree_insert k y acc) end
      | None => None end end.
Lemma unique_array l : unique_value (VArray l) = array_loop l [].
Proof. reflexivity. Qed.
Lemma unique_object o : unique_value (VObject o) = entries_loop o [].
Proof. reflexivity. Qed.

Lemma ascii_compare_eq a b : Ascii.compare a b = Eq -> a = b.
Proof. apply Ascii.compare_eq_iff. Qed.
Lemma ascii_compare_trans a b c : Ascii.compare a b = Lt -> Ascii.compare b c = Lt -> Ascii.compare a c = Lt.
Proof. unfold Ascii.compare. rewrite !N.compare_lt_iff. lia. Qed.

Lemma string_ltb_trans a b c : String.ltb a b = true -> String.ltb b c = true -> String.ltb a c = true.
Proof.
  unfold String.ltb. revert b c. induction a as [|x a IH]; intros [|y b] [|z c]; cbn; try done.
  destruct (Ascii.compare x y) eqn:E1, (Ascii.compare y z) eqn:E2; try done; intros H1 H2.
  - apply ascii_compare_eq in E1 as ->, E2 as ->. assert (Ascii.compare z z = Eq) as -> by (unfold Ascii.compare; apply N.compare_refl).
    by apply (IH b c).
  - apply ascii_compare_eq in E1 as ->. by rewrite E2.
  - apply ascii_compare_eq in E2 as ->. by rewrite E1.
  - by rewrite (ascii_compare_trans _ _ _ E1 E2).
Qed.

Lemma string_ltb_total a b : a <> b -> String.ltb a b = false -> String.ltb b a = true.
Proof.
  unfold String.ltb. intros Hne. rewrite (String.compare_antisym b a).
  destruct (String.compare a b) eqn:E; cbn; try done. by apply String.compare_eq_iff in E.
Qed.

Lemma btree_insert_keys k v o x : x ∈ (btree_insert k v o).*1 <-> x = k \/ x ∈ o.*1.
Proof.
  induction o as [|[k' v'] o IH]; cbn; [set_solver|].
  destruct (String.eqb_spec k k') as [<-|Hne]; cbn; [set_solver|].
  case_match; cbn; [set_solver|]. rewrite elem_of_cons, IH. set_solver.
Qed.

Lemma keys_sorted_cons e o :
  keys_sorted (e :: o) <-> keys_sorted o /\ forall k, k ∈ o.*1 -> String.ltb e.1 k = true.
Proof.
  unfold keys_sorted. split.
  - intros [Hs He]%StronglySorted_inv. split; [done|]. intros k (x & -> & Hx)%list_elem_of_fmap.
    rewrite Forall_forall in He. by apply He.
  - intros [Hs He]. constructor; [done|]. apply Forall_forall. intros x Hx. apply He.
    apply list_elem_of_fmap. eauto.
Qed.

Lemma btree_insert_sorted k v o : keys_sorted o -> k ∉ o.*1 -> keys_sorted (btree_insert k v o).
Proof.
  induction o as [|[k' v'] o IH]; intros Hs Hk; [repeat constructor|]. cbn.
  apply keys_sorted_cons in Hs as [Hs Hlt]. cbn in Hlt.
  destruct (String.eqb_spec k k') as [->|Hne]; [set_solver|]. case_match eqn:E.
  - apply keys_sorted_cons. split; [by apply keys_sorted_cons|]. cbn.
    intros x [->|Hx]%elem_of_cons; [done|]. eapply string_ltb_trans; [exact E|by apply Hlt].
  - apply keys_sorted_cons. split; [apply IH; set_solver|]. cbn. intros x [->|Hx]%btree_insert_keys; [|by apply Hlt].
    by apply string_ltb_total.
Qed.

Lemma obj_get_None k o : obj_get k o = None <-> k ∉ o.*1.
Proof.
  induction o as [|[k' v] o IH]; cbn; [set_solver|].
  destruct (String.eqb_spec k' k) as [->|Hne]; [set_solver|]. rewrite IH. set_solver.
Qed.

Lemma btree_insert_Forall (P : string * Value -> Prop) k v o :
  P (k, v) -> Forall P o -> Forall P (btree_insert k v o).
Proof.
  intros Hk. induction 1 as [|[k' v'] o Hx Ho IH]; cbn; [by repeat constructor|].
  case_match; [by constructor|]. case_match; repeat constructor; done.
Qed.

(** The visitor builds maps. *)
Lemma unique_value_wf v : forall v', unique_value v = Some v' -> value_wf v'.
Proof.
  induction v as [|b|n|s|l IH|o IH] using value_ind'; intros v' Hv;
    try (injection Hv as <-; by constructor).
  - rewrite unique_array in Hv.
    assert (Hgen : forall acc, Forall value_wf acc -> array_loop l acc = Some v' -> value_wf v').
    { clear Hv. induction IH as [|x l Hx _ IHl]; intros acc Hacc Hv; cbn in Hv.
      - injection Hv as <-. by constructor.
      - destruct (unique_value x) as [y|] eqn:Ey; [|done]. apply (IHl _) in Hv; [done|].
        apply Forall_app. split; [done|]. constructor; [by apply Hx|constructor]. }
    by apply (Hgen []).
  - rewrite unique_object in Hv.
    assert (Hgen : forall acc, keys_sorted acc -> Forall (fun e => value_wf e.2) acc ->
      entries_loop o acc = Some v' -> value_wf v').
    { clear Hv. induction IH as [|[k x] o Hx _ IHo]; intros acc Hs Hacc Hv; cbn in Hv.
      - injection Hv as <-. by constructor.
      - destruct (unique_value x) as [y|] eqn:Ey; [|done]. destruct (obj_get k acc) eqn:Ek; [done|].
        apply obj_get_None in Ek. apply IHo in Hv; [done|by apply btree_insert_sorted|].
        apply btree_insert_Forall; [by apply Hx|done]. }
    apply (Hgen []); [constructor|constructor|done].
Qed.

(** Without repeated keys the visitor's value is the text's canonical form. *)
Lemma unique_value_dup_free v : dup_free v -> unique_value v = Some (canonicalize v).
Proof.
  induction v as [|b|n|s|l IH|o IH] using value_ind'; intros Hd; try reflexivity;
    inversion Hd as [| | | |? Hl|? Hk Ho]; subst.
  - rewrite unique_array. cbn [canonicalize].
    assert (Hgen : forall acc, array_loop l acc = Some (VArray (acc ++ map canonicalize l))).
    { clear Hd. induction IH as [|x l Hx _ IHl]; intros acc; cbn; [by rewrite app_nil_r|].
      apply Forall_cons in Hl as [Hdx Hl]. rewrite (Hx Hdx), (IHl Hl). by rewrite <-app_assoc. }
    apply Hgen.
  - rewrite unique_object. cbn [canonicalize]. unfold btree_collect.
    assert (Hgen : forall acc, (forall k, k ∈ o.*1 -> k ∉ acc.*1) ->
      entries_loop o acc = Some (VObject (fold_left (fun a e => btree_insert e.1 e.2 a)
        (map (fun e => (e.1, canonicalize e.2)) o) acc))).
    { clear Hd. induction IH as [|[k x] o Hx _ IHo]; intros acc Hacc; cbn; [done|].
      apply Forall_cons in Ho as [Hdx Ho]. cbn in Hdx, Hx. rewrite (Hx Hdx). cbn in Hk.
      apply NoDup_cons in Hk as [Hkn Hk].
      assert (obj_get k acc = None) as -> by (apply obj_get_None, Hacc; set_solver).
      rewrite (IHo Hk Ho); [done|]. intros k' Hk' [->|Hin]%btree_insert_keys; [done|].
      apply (Hacc k'); [set_solver|done]. }
    apply Hgen. set_solver.
Qed.

Lemma unique_value_Some v : forall v', unique_value v = Some v' -> dup_free v.
Proof.
  induction v as [|b|n|s|l IH|o IH] using value_ind'; intros v' Hv; try constructor.
  - rewrite unique_array in Hv. revert Hv. generalize (@nil Value) as acc.
    induction IH as [|x l Hx _ IHl]; intros acc Hv; [constructor|]. cbn in Hv.
    destruct (unique_value x) as [y|] eqn:Ey; [|done]. constructor; [by eapply Hx|by eapply IHl].
  - rewrite unique_object in Hv.
    assert (Hgen : forall acc, entries_loop o acc = Some v' ->
      NoDup o.*1 /\ forall k, k ∈ o.*1 -> k ∉ acc.*1); [|by apply (Hgen [])].
    { clear Hv. induction IH as [|[k x] o Hx _ IHo]; intros acc Hv; [split; [constructor|set_solver]|].
      cbn in Hv. destruct (unique_value x) as [y|] eqn:Ey; [|done]. destruct (obj_get k acc) eqn:Ek; [done|].
      apply obj_get_None in Ek. destruct (IHo _ Hv) as [Hnd Hdis]. cbn. split.
      - apply NoDup_cons. split; [|done]. intros Hin. apply (Hdis k Hin), btree_insert_keys. by left.
      - intros k' [->|Hin]%elem_of_cons; [done|]. intros Hacc. apply (Hdis k' Hin), btree_insert_keys. by right. }
  - rewrite unique_object in Hv. revert Hv. generalize (@nil (string * Value)) as acc.
    induction IH as [|[k x] o Hx _ IHo]; intros acc Hv; [constructor|]. cbn in Hv.
    destruct (unique_value x) as [y|] eqn:Ey; [|done]. destruct (obj_get k acc); [done|].
    constructor; [by eapply Hx|by eapply IHo].
Qed.

Lemma value_wf_dup_free v : value_wf v -> dup_free v.
Proof.
  induction v as [|b|n|s|l IH|o IH] using value_ind'; intros Hw; inversion Hw as [| | | |? Hl|? Hk Ho]; subst;
    constructor.
  - rewrite Forall_forall in *. eauto.
  - clear -Hk. induction o as [|e o IHo]; [constructor|]. apply keys_sorted_cons in Hk as [Hk Hlt]. cbn.
    apply NoDup_cons. split; [|by apply IHo]. intros Hin. specialize (Hlt _ Hin). by rewrite string_ltb_irrefl in Hlt.
  - rewrite Forall_forall in *. eauto.
Qed.

Lemma unique_value_fixed v : value_wf v -> unique_value v = Some v.
Proof.
  intros Hw. rewrite (unique_value_dup_free _ (value_wf_dup_free _ Hw)). by rewrite canonicalize_wf.
Qed.

Lemma valid_json_float_free n : forall v, valid_json n v = true -> float_free v.
Proof.
  induction n as [|n IH]; [done|]. intros [|b|[x|x|x]|s|l|o] Hv; cbn in Hv; try done; constructor;
    rewrite forallb_forall in Hv; apply Forall_forall; intros x Hx; by apply IH, Hv, list_elem_of_In.
Qed.

(** An approval's resource is canonical.  A resource is accepted only if its text
    repeats no key at any level and holds no float; what is kept is the printed
    canonical form of the text, so texts that differ only in key order or spacing name
    the same resource and have the same digest; and the kept bytes are accepted again
    unchanged, as reading a stored approval back requires. *)
Theorem approval_resource_canonical `{JsonRawLaws} `{!Sha256} (b : bytes) (r : ApprovalResource) :
  ApprovalResource_new b = Ok r ->
  (exists v, raw_from_slice b = Some v /\ dup_free v /\ float_free (canonicalize v) /\
     ar_as_bytes r = raw_to_vec (canonicalize v)) /\
  ApprovalResource_new (ar_as_bytes r) = Ok r /\ llen (ar_as_bytes r) <= MAX_APPROVAL_RESOURCE_BYTES /\
  forall b' v v' r', raw_from_slice b = Some v -> raw_from_slice b' = Some v' ->
    canonicalize v = canonicalize v' -> ApprovalResource_new b' = Ok r' ->
    r' = r /\ ApprovalResource_digest r' = ApprovalResource_digest r.
Proof.
  intros Hn. assert (Hinv : forall b r, ApprovalResource_new b = Ok r -> exists v,
    raw_from_slice b = Some v /\ unique_value v = Some (canonicalize v) /\ dup_free v /\
    is_object (canonicalize v) = true /\ valid_json 33 (canonicalize v) = true /\
    ar_as_bytes r = raw_to_vec (canonicalize v) /\ llen (ar_as_bytes r) <= MAX_APPROVAL_RESOURCE_BYTES).
  { clear. intros b r Hn. unfold ApprovalResource_new in Hn. case_if_in Hn as E; [done|].
    apply bind_Ok in Hn as (u & Hu & Hn). rewrite ok_or_Ok in Hu. apply bind_Some in Hu as (v & Hv & Hu).
    pose proof (unique_value_Some _ _ Hu) as Hd. pose proof (unique_value_dup_free _ Hd) as Hu'.
    rewrite Hu in Hu'. injection Hu' as ->. case_if_in Hn as E2; [done|]. case_if_in Hn as E3; [done|].
    injection Hn as <-. bool_norm. exists v. split_and!; done. }
  destruct (Hinv _ _ Hn) as (v & Hv & Hu & Hd & Hob & Hvj & Hby & Hlen).
  pose proof (valid_json_float_free _ _ Hvj) as Hff.
  pose proof (raw_roundtrip _ _ _ Hv Hu Hff) as Hrt. split_and!.
  - eauto 6.
  - unfold ApprovalResource_new at 1. rewrite Hby in Hlen |- *.
    destruct (raw_to_vec (canonicalize v)) as [|x l] eqn:Eb; [by rewrite raw_empty in Hrt|].
    case_if as E; [apply orb_true_iff in E as [E|E]; bool_norm; [unfold llen in E; cbn in E|]; lia|].
    rewrite Hrt. cbn [mbind option_bind]. rewrite (unique_value_fixed (canonicalize v)) by (by eapply unique_value_wf).
    cbn [ok_or]. rewrite bind_of_Ok, Hob, Hvj. cbn [negb orb]. rewrite Eb.
    apply Z.ltb_ge in Hlen. rewrite Hlen. f_equal. destruct r. cbn [ar_as_bytes] in Hby. congruence.
  - done.
  - intros b' v0 v' r' Hv0 Hv' Heq Hn'. destruct (Hinv _ _ Hn') as (v1 & Hv1 & _ & _ & _ & _ & Hby' & _).
    simplify_eq. assert (r' = r) as ->; [|done]. destruct r, r'. cbn [ar_as_bytes] in Hby, Hby'. congruence.
Qed.

(** A library that knows the text [{}], spaces allowed. *)
Definition braces_json : JsonRaw := {|
  raw_from_slice b := if decide (filter (fun x => x <> 32) b = [123; 125]) then Some (VObject []) else None;
  raw_to_vec v := [123; 125];
|}.
#[global] Instance braces_json_laws : @JsonRawLaws braces_json.
Proof.
  split; cbn; [done|]. intros b r v. case_decide; [intros [= <-] [= <-] _; done | done].
Qed.

Lemma approval_resource_canonical_witness :
  @ApprovalResource_new braces_json [32; 123; 32; 125] = Ok (MkApprovalResource [123; 125]) /\
  @ApprovalResource_new braces_json [123; 125] = Ok (MkApprovalResource [123; 125]).
Proof.
  split; [reflexivity|].
  destruct (@approval_resource_canonical braces_json braces_json_laws (fun b => b) [32; 123; 32; 125]
    (MkApprovalResource [123; 125]) eq_refl) as (_ & H & _). exact H.
Defined.
