(* ===== verification/ApprovalFlow.v ===== *)
(** * ApprovalFlow: the life of one approval

    Models what the handlers of [impl ApprovalStore for SqliteStore]
    (crates/navigator-store-sqlite/src/store.rs) do to the rows of one approval once
    the call is authorized: the request, its grant and the effects reserved under it.
    [now] is the store's time for the call, [live] whether the operation is running or
    waiting, [free] whether the new identity (of a grant or an effect) is unused.
    Each [.._rows] definition is the part of its handler between the authorization and
    the bookkeeping: the checks, the new rows and their errors.  The bookkeeping around
    it (replay from [approval_mutations], [approval_authorize], the relayed decision
    message and the audit event) touches none of the rows and is not modelled. *)
From S2P Require Import Prelude Scalars Session Authority Text Json StoreApi StoreWire Approval.

Record ApprovalRows := MkRows {
  ar_request : ApprovalRequest;
  ar_grant : option ApprovalGrant;
  ar_effects : list ApprovalEffectIntent;
}.

Definition require (b : bool) : result StoreError unit := if b then Ok tt else Err Invalid.
Definition next_revision (r : Revision) : result StoreError Revision := ok_or Invalid (Revision_next r).
(** [i64::try_from(revision)] of the [UPDATE] statements. *)
Definition bindable (r : Revision) : result StoreError unit := require (Revision_get r <=? i64_max).

Definition set_request (r : ApprovalRequest) (status : ApprovalStatus) (grant : option GrantId)
    (source : option ApprovalDecisionSource) (decided : option Timestamp) (revision : Revision) :
    ApprovalRequest :=
  MkApprovalRequest (rq_id r) (rq_session_id r) (rq_requester_id r) (rq_operation_id r)
    (rq_source_message_id r) (rq_source_delivery_attempt_id r) (rq_coordinator_id r) (rq_capability r)
    (rq_resource r) (rq_summary r) status (rq_expires_at r) grant source (rq_created_at r) decided revision.
Definition set_status (r : ApprovalRequest) (status : ApprovalStatus) (revision : Revision) : ApprovalRequest :=
  set_request r status (rq_grant_id r) (rq_decision_source r) (rq_decided_at r) revision.
Definition set_grant (g : ApprovalGrant) (used : Z) (revoked : option Timestamp) (revision : Revision) :
    ApprovalGrant :=
  MkApprovalGrant (gr_id g) (gr_request_id g) (gr_session_id g) (gr_subject_id g) (gr_operation_id g)
    (gr_capability g) (gr_resource_hash g) (gr_issued_by g) (gr_max_uses g) used (gr_expires_at g)
    revoked (gr_created_at g) revision.

Section flow.
Context {SH : Sha256}.

Definition approve_request_rows (c : ApproveRequest) (now : Timestamp) (live free : bool) (rows : ApprovalRows) :
    result StoreError (ApprovedRequest * ApprovalRows) :=
  let r := ar_request rows in
  _ ← ApproveRequest_validate_against c r now;
  _ ← require live;
  _ ← require free;
  grant ← map_err (fun _ => Invalid) (ApprovalGrant_validate
    (MkApprovalGrant (apr_grant_id c) (rq_id r) (rq_session_id r) (rq_requester_id r) (rq_operation_id r)
       (rq_capability r) (ApprovalResource_digest (rq_resource r)) TrustedConsumer (apr_max_uses c) 0
       (apr_grant_expires_at c) None now Revision_initial));
  revision ← next_revision (rq_revision r);
  let r := set_request r ApGranted (Some (gr_id grant)) (Some TrustedConsumer) (Some now) revision in
  out ← ApprovedRequest_validate (MkApproved r grant);
  _ ← bindable revision;
  Ok (out, MkRows r (Some grant) (ar_effects rows)).

(** The rows part of [approval_decide_terminal], for denial and expiry. *)
Definition approval_decide_terminal_rows (session : SessionId) (expected : Revision) (status : ApprovalStatus)
    (now : Timestamp) (live : bool) (rows : ApprovalRows) : result StoreError (ApprovalRequest * ApprovalRows) :=
  let r := ar_request rows in
  _ ← require (eqb (rq_session_id r) session && eqb (rq_revision r) expected && eqb (rq_status r) ApPending);
  decided ← (if eqb status ApExpired
             then _ ← require (Timestamp_leb (rq_expires_at r) now);
                  Ok (rq_decision_source r, rq_decided_at r)
             else _ ← require (Timestamp_ltb now (rq_expires_at r));
                  _ ← require live;
                  Ok (Some TrustedConsumer, Some now));
  revision ← next_revision (rq_revision r);
  r ← map_err (fun _ => Invalid) (ApprovalRequest_validate
        (set_request r status (rq_grant_id r) decided.1 decided.2 revision));
  _ ← bindable revision;
  Ok (r, MkRows r (ar_grant rows) (ar_effects rows)).

Definition deny_request_rows (c : DenyRequest) (now : Timestamp) (live : bool) (rows : ApprovalRows) :=
  approval_decide_terminal_rows (den_session_id c) (den_expected_revision c) ApDenied now live rows.
Definition expire_approval_rows (c : ExpireApproval) (now : Timestamp) (live : bool) (rows : ApprovalRows) :=
  approval_decide_terminal_rows (exa_session_id c) (exa_expected_revision c) ApExpired now live rows.

Definition revoke_approval_grant_rows (c : RevokeApprovalGrant) (now : Timestamp) (rows : ApprovalRows) :
    result StoreError (ApprovalGrant * ApprovalRows) :=
  let r := ar_request rows in
  g ← ok_or Invalid (ar_grant rows);
  _ ← RevokeApprovalGrant_validate_against c r g now;
  g_revision ← next_revision (gr_revision g);
  let g := set_grant g (gr_used_count g) (Some now) g_revision in
  r_revision ← next_revision (rq_revision r);
  let r := set_status r ApRevoked r_revision in
  _ ← bindable g_revision;
  _ ← bindable r_revision;
  Ok (g, MkRows r (Some g) (ar_effects rows)).

Definition consume_approval_grant_rows (c : ConsumeApprovalGrant) (now : Timestamp) (live free : bool)
    (rows : ApprovalRows) : result StoreError (ConsumedApprovalGrant * ApprovalRows) :=
  let r := ar_request rows in
  g ← ok_or Invalid (ar_grant rows);
  next ← ConsumeApprovalGrant_validate_against c g r now;
  _ ← require live;
  _ ← (if free then Ok tt else Err (RequestConflict (con_effect_id c)));
  used ← (if gr_used_count g + 1 <=? u32_max then Ok (gr_used_count g + 1) else Err Invalid);
  g_revision ← next_revision (gr_revision g);
  let g := set_grant g used (gr_revoked_at g) g_revision in
  r ← (if eqb next ApConsumed
       then r_revision ← next_revision (rq_revision r);
            _ ← bindable r_revision;
            Ok (set_status r next r_revision)
       else Ok r);
  e ← map_err (fun _ => Invalid) (ApprovalEffectIntent_validate
    (MkApprovalEffectIntent (con_effect_id c) (con_session_id c) (gr_id g) (con_subject_id c)
       (con_operation_id c) (con_capability c) (con_resource_hash c) EpReserved now None Revision_initial));
  _ ← bindable g_revision;
  out ← ConsumedApprovalGrant_validate (MkConsumed g e);
  Ok (out, MkRows r (Some g) (ar_effects rows ++ [e])).

Definition set_effect (e : ApprovalEffectIntent) (phase : ApprovalEffectPhase) (finished : option Timestamp)
    (revision : Revision) : ApprovalEffectIntent :=
  MkApprovalEffectIntent (ei_effect_id e) (ei_session_id e) (ei_grant_id e) (ei_subject_id e)
    (ei_operation_id e) (ei_capability e) (ei_resource_hash e) phase (ei_created_at e) finished revision.

(** The effect is found by its identity. *)
Definition find_effect (id : RequestId) (l : list ApprovalEffectIntent) :
    option (nat * ApprovalEffectIntent) := list_find (fun e => ei_effect_id e = id) l.

Definition finish_approval_effect_rows (c : FinishApprovalEffect) (now : Timestamp) (rows : ApprovalRows) :
    result StoreError (ApprovalEffectIntent * ApprovalRows) :=
  found ← ok_or Invalid (find_effect (fin_effect_id c) (ar_effects rows));
  let e := found.2 in
  _ ← FinishApprovalEffect_validate_against c e;
  revision ← next_revision (ei_revision e);
  e ← map_err (fun _ => Invalid) (ApprovalEffectIntent_validate
        (set_effect e (ApprovalEffectPhase_from (fin_phase c)) (Some now) revision));
  _ ← bindable revision;
  Ok (e, MkRows (ar_request rows) (ar_grant rows) (<[found.1 := e]> (ar_effects rows))).

(** ** The state of an approval over time *)

(** The steps of one approval: the clock floor of its session advances to the store's
    time of each call; a call that fails changes nothing but the clock. *)
Inductive ApprovalOp := OpApprove | OpDeny | OpExpire | OpRevoke | OpConsume | OpFinish | OpRefused.

Definition later (floor observed : Timestamp) : Timestamp :=
  if Timestamp_ltb observed floor then floor else observed.

Inductive ap_step : Timestamp * ApprovalRows -> ApprovalOp -> Timestamp * ApprovalRows -> Prop :=
| as_approve f o c live free rows out rows' :
    approve_request_rows c (later f o) live free rows = Ok (out, rows') ->
    ap_step (f, rows) OpApprove (later f o, rows')
| as_deny f o c live rows out rows' :
    deny_request_rows c (later f o) live rows = Ok (out, rows') -> ap_step (f, rows) OpDeny (later f o, rows')
| as_expire f o c live rows out rows' :
    expire_approval_rows c (later f o) live rows = Ok (out, rows') -> ap_step (f, rows) OpExpire (later f o, rows')
| as_revoke f o c rows out rows' :
    revoke_approval_grant_rows c (later f o) rows = Ok (out, rows') -> ap_step (f, rows) OpRevoke (later f o, rows')
| as_consume f o c live free rows out rows' :
    consume_approval_grant_rows c (later f o) live free rows = Ok (out, rows') ->
    ap_step (f, rows) OpConsume (later f o, rows')
| as_finish f o c rows out rows' :
    finish_approval_effect_rows c (later f o) rows = Ok (out, rows') -> ap_step (f, rows) OpFinish (later f o, rows')
| as_refused f o rows : ap_step (f, rows) OpRefused (later f o, rows).

Lemma later_ge f o : Timestamp_le f (later f o).
Proof. unfold later. destruct (Timestamp_ltb o f) eqn:E; [apply Timestamp_le_refl|]. by ts_norm. Qed.

(** The grant is for exactly what was requested. *)
Definition binds (r : ApprovalRequest) (g : ApprovalGrant) : Prop :=
  rq_grant_id r = Some (gr_id g) /\ gr_request_id g = rq_id r /\ gr_session_id g = rq_session_id r /\
  gr_subject_id g = rq_requester_id r /\ gr_operation_id g = rq_operation_id r /\
  gr_capability g = rq_capability r /\ gr_resource_hash g = ApprovalResource_digest (rq_resource r).

(** A reserved effect is within its grant: for the same subject, operation, capability
    and resource, and at a time the grant could be used. *)
Definition effect_within (f : Timestamp) (g : ApprovalGrant) (e : ApprovalEffectIntent) : Prop :=
  ApprovalEffectIntent_validate e = Ok e /\
  ei_session_id e = gr_session_id g /\ ei_grant_id e = gr_id g /\ ei_subject_id e = gr_subject_id g /\
  ei_operation_id e = gr_operation_id g /\ ei_capability e = gr_capability g /\
  ei_resource_hash e = gr_resource_hash g /\
  Timestamp_le (gr_created_at g) (ei_created_at e) /\ Timestamp_lt (ei_created_at e) (gr_expires_at g) /\
  Timestamp_le (ei_created_at e) f /\
  (forall t, gr_revoked_at g = Some t -> Timestamp_le (ei_created_at e) t).

Definition status_agrees (r : ApprovalRequest) (g : ApprovalGrant) : Prop :=
  match rq_status r with
  | ApGranted => gr_revoked_at g = None /\ gr_used_count g < gr_max_uses g
  | ApConsumed => gr_revoked_at g = None /\ gr_used_count g = gr_max_uses g
  | ApRevoked => is_Some (gr_revoked_at g) /\ gr_used_count g < gr_max_uses g
  | _ => False
  end.

Record grant_ok (f : Timestamp) (r : ApprovalRequest) (g : ApprovalGrant)
    (effects : list ApprovalEffectIntent) : Prop := {
  go_valid : ApprovalGrant_validate g = Ok g;
  go_binds : binds r g;
  go_created : Timestamp_le (gr_created_at g) f;
  go_expires : Timestamp_le (gr_expires_at g) (rq_expires_at r);
  go_used : gr_used_count g = llen effects;
  go_status : status_agrees r g;
  go_effects : Forall (effect_within f g) effects;
}.

Record rows_ok (s : Timestamp * ApprovalRows) : Prop := {
  ro_valid : ApprovalRequest_validate (ar_request s.2) = Ok (ar_request s.2);
  ro_created : Timestamp_le (rq_created_at (ar_request s.2)) s.1;
  ro_grant : match ar_grant s.2 with
    | None => ar_effects s.2 = [] /\
        (rq_status (ar_request s.2) = ApPending \/ rq_status (ar_request s.2) = ApDenied \/
         rq_status (ar_request s.2) = ApExpired)
    | Some g => grant_ok s.1 (ar_request s.2) g (ar_effects s.2)
    end;
}.

Ltac ap_norm := unfold neqb, eqb, is_none in *; bool_norm; ts_norm.

Lemma rows_ok_later f o rows : rows_ok (f, rows) -> rows_ok (later f o, rows).
Proof.
  intros [Hv Hc Hg]. pose proof (later_ge f o) as Hle. constructor; cbn in *; [done|eauto with nav|].
  destruct (ar_grant rows) as [g|]; [|done]. destruct Hg as [? ? ? ? ? ? He]. constructor; auto; [eauto with nav|].
  eapply Forall_impl; [exact He|]. intros e (?&?&?&?&?&?&?&?&?&?&?). split_and!; auto. eauto with nav.
Qed.

Lemma request_validate_Ok r r' : ApprovalRequest_validate r = Ok r' -> r' = r.
Proof. unfold ApprovalRequest_validate. intros H. by inv_result. Qed.
Lemma grant_validate_Ok g g' : ApprovalGrant_validate g = Ok g' -> g' = g.
Proof. unfold ApprovalGrant_validate. intros H. by inv_result. Qed.
Lemma effect_validate_Ok e e' : ApprovalEffectIntent_validate e = Ok e' -> e' = e.
Proof. unfold ApprovalEffectIntent_validate. intros H. by inv_result. Qed.
Lemma is_ok_validate {E A} (f : A -> result E A) x : (forall y, f x = Ok y -> y = x) ->
  is_ok (f x) = true -> f x = Ok x.
Proof. intros Hf. destruct (f x) as [y|]; [|done]. by rewrite (Hf y). Qed.


Lemma approve_checks c r now u : ApproveRequest_validate_against c r now = Ok u ->
  rq_status r = ApPending /\ Timestamp_lt now (rq_expires_at r) /\
  Timestamp_le (apr_grant_expires_at c) (rq_expires_at r).
Proof.
  unfold ApproveRequest_validate_against. intros H. case_if_in H as E; [discriminate H|]. ap_norm. done.
Qed.

Lemma consume_checks c g r now st : ConsumeApprovalGrant_validate_against c g r now = Ok st ->
  rq_status r = ApGranted /\ gr_session_id g = con_session_id c /\ gr_subject_id g = con_subject_id c /\
  gr_operation_id g = con_operation_id c /\ gr_capability g = con_capability c /\
  gr_resource_hash g = con_resource_hash c /\ Timestamp_lt now (gr_expires_at g) /\
  gr_used_count g < gr_max_uses g /\
  st = (if gr_used_count g + 1 =? gr_max_uses g then ApConsumed else ApGranted).
Proof.
  unfold ConsumeApprovalGrant_validate_against, is_usable_at. intros H. case_if_in H as E; [|discriminate H].
  injection H as <-. ap_norm. done.
Qed.

Lemma revoke_checks c r g now u : RevokeApprovalGrant_validate_against c r g now = Ok u ->
  rq_status r = ApGranted /\ gr_used_count g < gr_max_uses g /\ Timestamp_lt now (gr_expires_at g).
Proof.
  unfold RevokeApprovalGrant_validate_against. intros H. case_if_in H as E; [|discriminate H]. ap_norm. done.
Qed.

(** The validity of a request and of a grant, as facts. *)
Lemma request_valid r : ApprovalRequest_validate r = Ok r <->
  lifecycle_fields r = true /\ Timestamp_lt (rq_created_at r) (rq_expires_at r) /\
  (forall t, rq_decided_at r = Some t ->
     Timestamp_le (rq_created_at r) t /\ Timestamp_lt t (rq_expires_at r)).
Proof.
  unfold ApprovalRequest_validate, is_none_or. split.
  - intros H. case_if_in H as E; [|discriminate H]. bool_norm; ts_norm. split_and!; [done..|].
    intros t Ht. rewrite Ht in *. bool_norm; ts_norm. done.
  - intros (-> & Hc & Hd). apply Timestamp_ltb_lt in Hc. rewrite Hc.
    destruct (rq_decided_at r) as [t|]; [|done].
    destruct (Hd t eq_refl) as [H1%Timestamp_leb_le H2%Timestamp_ltb_lt]. by rewrite H1, H2.
Qed.

Lemma grant_valid g : ApprovalGrant_validate g = Ok g <->
  0 < gr_max_uses g <= MAX_APPROVAL_USES /\ gr_used_count g <= gr_max_uses g /\
  Timestamp_lt (gr_created_at g) (gr_expires_at g) /\
  (forall t, gr_revoked_at g = Some t -> Timestamp_le (gr_created_at g) t).
Proof.
  unfold ApprovalGrant_validate, is_none_or. split.
  - intros H. case_if_in H as E; [|discriminate H]. bool_norm; ts_norm. split_and!; [done..|].
    intros t Ht. rewrite Ht in *. by ts_norm.
  - intros ((H1 & H2) & H3 & H4%Timestamp_ltb_lt & H5). apply Z.ltb_lt in H1. apply Z.leb_le in H2, H3.
    rewrite H1, H2, H3, H4. destruct (gr_revoked_at g) as [t|]; [|done]. cbn.
    specialize (H5 t eq_refl). apply Timestamp_leb_le in H5. by rewrite H5.
Qed.

Lemma pending_no_grant f rows : rows_ok (f, rows) -> rq_status (ar_request rows) = ApPending ->
  ar_grant rows = None /\ ar_effects rows = [].
Proof.
  intros [_ _ Hg] Hst. cbn in *. destruct (ar_grant rows) as [g|]; [|by destruct Hg].
  pose proof (go_status _ _ _ _ Hg) as Hs. unfold status_agrees in Hs. by rewrite Hst in Hs.
Qed.

Lemma approve_ok f c live free rows out rows' :
  rows_ok (f, rows) -> approve_request_rows c f live free rows = Ok (out, rows') -> rows_ok (f, rows').
Proof.
  intros Hok H. unfold approve_request_rows in H.
  apply bind_Ok in H as (u & Hval & H). apply bind_Ok in H as (u1 & _ & H). apply bind_Ok in H as (u2 & _ & H).
  apply bind_Ok in H as (g & Hgr & H). apply map_err_Ok in Hgr. pose proof (grant_validate_Ok _ _ Hgr) as ->.
  apply bind_Ok in H as (rev & _ & H). apply bind_Ok in H as (o & _ & H). apply bind_Ok in H as (u3 & _ & H).
  injection H as _ <-. destruct (approve_checks _ _ _ _ Hval) as (Hst & Hlt & Hle).
  destruct (pending_no_grant _ _ Hok Hst) as [_ Heff]. destruct Hok as [Hv Hc _]; cbn in *.
  apply request_valid in Hv as (_ & Hce & _).
  constructor; cbn.
  - apply request_valid; cbn. split_and!; try done. by intros t [= <-].
  - done.
  - rewrite Heff. constructor; cbn; try done; [apply Timestamp_le_refl|].
    apply grant_valid in Hgr as (Hmax & _). by destruct Hmax.
Qed.

Lemma decide_ok f session expected status live rows out rows' :
  status = ApDenied \/ status = ApExpired -> rows_ok (f, rows) ->
  approval_decide_terminal_rows session expected status f live rows = Ok (out, rows') -> rows_ok (f, rows').
Proof.
  intros Hstat Hok H. unfold approval_decide_terminal_rows in H.
  apply bind_Ok in H as (u & Hval & H). unfold require in Hval. case_if_in Hval as E; [|discriminate Hval].
  ap_norm. apply bind_Ok in H as (dec & _ & H). apply bind_Ok in H as (rev & _ & H).
  apply bind_Ok in H as (r & Hr & H). apply map_err_Ok in Hr. pose proof (request_validate_Ok _ _ Hr) as ->.
  apply bind_Ok in H as (u3 & _ & H). injection H as _ <-.
  match goal with Hst : rq_status _ = ApPending |- _ => destruct (pending_no_grant _ _ Hok Hst) as [Hng Heff] end.
  destruct Hok as [Hv Hc _]; cbn in *. constructor; cbn; [done..|]. rewrite Hng. split; [done|]. tauto.
Qed.

Lemma revoke_ok f c rows out rows' :
  rows_ok (f, rows) -> revoke_approval_grant_rows c f rows = Ok (out, rows') -> rows_ok (f, rows').
Proof.
  intros [Hv Hc Hg] H. unfold revoke_approval_grant_rows in H. cbn in Hv, Hc, Hg.
  apply bind_Ok in H as (g & Hgr & H). rewrite ok_or_Ok in Hgr. rewrite Hgr in Hg.
  apply bind_Ok in H as (u & Hval & H). destruct (revoke_checks _ _ _ _ _ Hval) as (Hst & Hus & _).
  apply bind_Ok in H as (r1 & _ & H). apply bind_Ok in H as (r2 & _ & H). apply bind_Ok in H as (u1 & _ & H).
  apply bind_Ok in H as (u2 & _ & H). injection H as _ <-. destruct Hg as [Hgv Hb Hgc Hge Hu Hs He].
  apply request_valid in Hv as (Hlf & Hce & Hdec). unfold lifecycle_fields in Hlf. rewrite Hst in Hlf.
  apply grant_valid in Hgv as (Hm & _ & Hcx & _). constructor; cbn.
  - apply request_valid; cbn. by split_and!.
  - done.
  - constructor; cbn; try done.
    + apply grant_valid; cbn. split_and!; try lia; [done|]. by intros t [= <-].
    + eapply Forall_impl; [exact He|]. intros e (?&?&?&?&?&?&?&?&?&?&?). split_and!; auto.
      by intros t [= <-].
Qed.

Lemma consume_ok f c live free rows out rows' :
  rows_ok (f, rows) -> consume_approval_grant_rows c f live free rows = Ok (out, rows') -> rows_ok (f, rows').
Proof.
  intros [Hv Hc Hg] H. unfold consume_approval_grant_rows in H. cbn in Hv, Hc, Hg.
  apply bind_Ok in H as (g & Hgr & H). rewrite ok_or_Ok in Hgr. rewrite Hgr in Hg.
  apply bind_Ok in H as (st & Hval & H).
  destruct (consume_checks _ _ _ _ _ Hval) as (Hst & Hs1 & Hs2 & Hs3 & Hs4 & Hs5 & Hexp & Hus & Hnext).
  apply bind_Ok in H as (u1 & _ & H). apply bind_Ok in H as (u2 & _ & H).
  apply bind_Ok in H as (used & Hused & H). case_if_in Hused as Eu; [|discriminate Hused]. injection Hused as <-.
  apply bind_Ok in H as (r1 & _ & H). apply bind_Ok in H as (r & Hr & H).
  apply bind_Ok in H as (e & Hev & H). apply map_err_Ok in Hev. pose proof (effect_validate_Ok _ _ Hev) as ->.
  apply bind_Ok in H as (u3 & _ & H). apply bind_Ok in H as (o & _ & H). injection H as _ <-.
  destruct Hg as [Hgv Hb Hgc Hge Hu Hs He]. unfold status_agrees in Hs. rewrite Hst in Hs. destruct Hs as [Hrv _].
  apply grant_valid in Hgv as (Hm & _ & Hcx & Hrev).
  assert (Hreq : ApprovalRequest_validate r = Ok r /\ rq_created_at r = rq_created_at (ar_request rows) /\
    rq_expires_at r = rq_expires_at (ar_request rows) /\ binds r g /\ rq_status r = st).
  { unfold eqb in Hr. case_bool_decide as Hcon.
    - apply bind_Ok in Hr as (r2 & _ & Hr). apply bind_Ok in Hr as (u4 & _ & Hr). injection Hr as <-.
      rewrite Hcon. split_and!; try done. apply request_valid in Hv as (Hlf & Hce & Hdec).
      unfold lifecycle_fields in Hlf. rewrite Hst in Hlf. by apply request_valid; cbn.
    - injection Hr as <-. split_and!; try done. rewrite Hst, Hnext. rewrite Hnext in Hcon. by case_match. }
  destruct Hreq as (Hrv' & Hrc & Hre & Hrb & Hrs). constructor; cbn; rewrite ?Hrc; [done..|].
  constructor; cbn; rewrite ?Hre; try done.
  - apply grant_valid; cbn. split_and!; try lia; done.
  - unfold llen in *. rewrite length_app. cbn. lia.
  - unfold status_agrees; cbn. rewrite Hrs, Hnext. case_if as E; bool_norm; (split; [done|lia]).
  - apply Forall_app. split; [exact He|]. constructor; [|constructor]. unfold effect_within; cbn.
    split_and!; try done; [apply Timestamp_le_refl|]. intros t Ht. congruence.
Qed.

Lemma finish_ok f c rows out rows' :
  rows_ok (f, rows) -> finish_approval_effect_rows c f rows = Ok (out, rows') -> rows_ok (f, rows').
Proof.
  intros [Hv Hc Hg] H. unfold finish_approval_effect_rows in H. cbn in Hv, Hc, Hg.
  apply bind_Ok in H as ([i e] & Hfind & H). rewrite ok_or_Ok in Hfind. cbn [fst snd] in H.
  apply bind_Ok in H as (u & _ & H). apply bind_Ok in H as (rev & _ & H).
  apply bind_Ok in H as (e' & He' & H). apply map_err_Ok in He'. pose proof (effect_validate_Ok _ _ He') as ->.
  apply bind_Ok in H as (u1 & _ & H). injection H as _ <-.
  apply list_find_Some in Hfind as (Hi & _ & _).
  constructor; cbn; [done..|]. destruct (ar_grant rows) as [g|].
  - destruct Hg as [Hgv Hb Hgc Hge Hu Hs He]. constructor; try done.
    + rewrite Hu. unfold llen. by rewrite length_insert.
    + apply Forall_insert; [done|]. rewrite Forall_lookup in He. destruct (He i e Hi) as (_ & Hw).
      split; [exact He'|]. exact Hw.
  - destruct Hg as [Heff _]. by rewrite Heff in Hi.
Qed.

Lemma ap_step_ok s op s' : rows_ok s -> ap_step s op s' -> rows_ok s'.
Proof.
  intros Hok Hst. destruct Hst as [f o c live free rows out rows' H|f o c live rows out rows' H|
    f o c live rows out rows' H|f o c rows out rows' H|f o c live free rows out rows' H|
    f o c rows out rows' H|f o rows]; apply (rows_ok_later _ o) in Hok.
  - by eapply approve_ok.
  - exact (decide_ok _ _ _ _ _ _ _ _ (or_introl eq_refl) Hok H).
  - unfold expire_approval_rows in H. exact (decide_ok _ _ _ _ _ _ _ _ (or_intror eq_refl) Hok H).
  - by eapply revoke_ok.
  - by eapply consume_ok.
  - by eapply finish_ok.
  - done.
Qed.

(** ** Finality *)

Definition terminal_status (st : ApprovalStatus) : Prop :=
  st = ApDenied \/ st = ApExpired \/ st = ApRevoked \/ st = ApConsumed.

(** What a decided approval can no longer change: the request, the grant, and which
    effects were reserved. *)
Definition settled (s : Timestamp * ApprovalRows) :
    ApprovalRequest * option ApprovalGrant * list (RequestId * Timestamp) :=
  (ar_request s.2, ar_grant s.2, (fun e => (ei_effect_id e, ei_created_at e)) <$> ar_effects s.2).

Lemma ap_step_settled s op s' : terminal_status (rq_status (ar_request s.2)) -> ap_step s op s' ->
  settled s' = settled s.
Proof.
  intros Ht Hst. destruct Hst as [f o c live free rows out rows' H|f o c live rows out rows' H|
    f o c live rows out rows' H|f o c rows out rows' H|f o c live free rows out rows' H|
    f o c rows out rows' H|f o rows]; cbn [snd] in Ht.
  - apply bind_Ok in H as (u & Hval & _). apply approve_checks in Hval as (Hs & _). rewrite Hs in Ht.
    by destruct Ht as [|[|[|]]].
  - apply bind_Ok in H as (u & Hval & _). unfold require in Hval. case_if_in Hval as E; [|done]. ap_norm.
    unfold terminal_status in Ht. naive_solver congruence.
  - apply bind_Ok in H as (u & Hval & _). unfold require in Hval. case_if_in Hval as E; [|done]. ap_norm.
    unfold terminal_status in Ht. naive_solver congruence.
  - apply bind_Ok in H as (g & _ & H). apply bind_Ok in H as (u & Hval & _).
    apply revoke_checks in Hval as (Hs & _). rewrite Hs in Ht. by destruct Ht as [|[|[|]]].
  - apply bind_Ok in H as (g & _ & H). apply bind_Ok in H as (u & Hval & _).
    apply consume_checks in Hval as (Hs & _). rewrite Hs in Ht. by destruct Ht as [|[|[|]]].
  - unfold finish_approval_effect_rows in H. apply bind_Ok in H as ([i e] & Hfind & H).
    rewrite ok_or_Ok in Hfind. cbn [fst snd] in H.
    apply bind_Ok in H as (u & _ & H). apply bind_Ok in H as (rev & _ & H).
    apply bind_Ok in H as (e' & He' & H). apply map_err_Ok in He'. pose proof (effect_validate_Ok _ _ He') as ->.
    apply bind_Ok in H as (u1 & _ & H). injection H as _ <-. apply list_find_Some in Hfind as (Hi & _ & _).
    unfold settled; cbn. f_equal. rewrite list_fmap_insert. cbn. apply list_insert_id.
    by rewrite list_lookup_fmap, Hi.
  - done.
Qed.

(** ** Properties *)

(** The request [request_approval] creates. *)
Definition fresh_rows (s : Timestamp * ApprovalRows) : Prop :=
  rq_status (ar_request s.2) = ApPending /\ ApprovalRequest_validate (ar_request s.2) = Ok (ar_request s.2) /\
  rq_created_at (ar_request s.2) = s.1 /\ ar_grant s.2 = None /\ ar_effects s.2 = [].

(** C29: An approval is never over-used.  In every sequence of decisions, uses,
    revocations, expiries and completions of an approval, at any clock readings: the
    request and the grant always satisfy their lifecycle rules (so they decode again);
    the grant covers exactly the requested subject, operation, capability and resource;
    the effects reserved under it number exactly its use count, at most its limit and
    never more than 1024; each was reserved for the granted subject, operation,
    capability and resource, before the grant expired and not after it was revoked. *)
Theorem approval_never_overused s ls s' :
  trace ap_step s ls s' -> fresh_rows s ->
  rows_ok s' /\ forall g, ar_grant s'.2 = Some g ->
    llen (ar_effects s'.2) = gr_used_count g /\ gr_used_count g <= gr_max_uses g <= MAX_APPROVAL_USES.
Proof.
  intros Ht (Hst & Hv & Hc & Hg & He).
  assert (Hok : rows_ok s').
  { apply (trace_invariant ap_step rows_ok (fun s l s' => ap_step_ok s l s') _ _ _ Ht).
    constructor; [done| |]; [rewrite Hc; apply Timestamp_le_refl|]. rewrite Hg. auto. }
  split; [done|]. intros g Hg'. pose proof (ro_grant _ Hok) as Hgo. rewrite Hg' in Hgo.
  destruct Hgo as [Hgv _ _ _ Hu _ _]. apply grant_valid in Hgv as ((_ & ?) & ? & _). by split.
Qed.

(** A settled approval stays settled: once a request is denied, expired, revoked or
    fully consumed, no later call changes the request or the grant, or reserves another
    effect; effects already reserved can only be finished. *)
Theorem settled_approval_is_final s ls s' :
  trace ap_step s ls s' -> terminal_status (rq_status (ar_request s.2)) -> settled s' = settled s.
Proof.
  intros Ht Hst. assert (H : settled s' = settled s /\ terminal_status (rq_status (ar_request s'.2))).
  { induction Ht as [s|s l s1 ls s2 Hstep _ IH]; [done|].
    pose proof (ap_step_settled _ _ _ Hst Hstep) as Heq.
    assert (ar_request s1.2 = ar_request s.2) as Hr by (unfold settled in Heq; congruence).
    rewrite <-Hr in Hst. destruct (IH Hst) as [-> ?]. done. }
  by destruct H.
Qed.
End flow.

(** ** A concrete approval: requested at 100, approved for one use, used at 120 *)

Definition demo_sha : Sha256 := fun b => b.
Definition demo_ts (s : Z) : Timestamp := MkTimestamp s 0.
Definition demo_resource : ApprovalResource := MkApprovalResource (bytes_of_string "{}").
Definition demo_hash : SemanticDigest := @ApprovalResource_digest demo_sha demo_resource.
Definition demo_request : ApprovalRequest :=
  MkApprovalRequest (MkId 1) (MkId 2) (MkId 3) (MkId 4) (MkId 5) (MkId 6) (MkId 7)
    (MkCapability "fs.write") demo_resource (MkApprovalSummary "write the file") ApPending (demo_ts 200)
    None None (demo_ts 100) None Revision_initial.
Definition demo_initial : ApprovalRows := MkRows demo_request None [].
Definition demo_approve : ApproveRequest :=
  MkApproveRequest (MkContext (MkId 11) (MkId 12)) (MkId 2) (MkFencingEpoch 1) (MkId 1) Revision_initial
    (MkId 13) (demo_ts 150) 1.
Definition demo_consume : ConsumeApprovalGrant :=
  MkConsumeApprovalGrant (MkContext (MkId 14) (MkId 12)) (MkId 2) (MkFencingEpoch 1) (MkId 13)
    Revision_initial (MkId 15) (MkId 3) (MkId 4) (MkCapability "fs.write") demo_hash.
Definition demo_granted : ApprovalRows :=
  match @approve_request_rows demo_sha demo_approve (demo_ts 110) true true demo_initial with
  | Ok (_, rows) => rows | Err _ => demo_initial end.
Definition demo_used : ApprovalRows :=
  match @consume_approval_grant_rows demo_sha demo_consume (demo_ts 120) true true demo_granted with
  | Ok (_, rows) => rows | Err _ => demo_initial end.

Lemma demo_flow : exists out1 out2,
  @approve_request_rows demo_sha demo_approve (demo_ts 110) true true demo_initial = Ok (out1, demo_granted) /\
  @consume_approval_grant_rows demo_sha demo_consume (demo_ts 120) true true demo_granted = Ok (out2, demo_used) /\
  rq_status (ar_request demo_used) = ApConsumed.
Proof. vm_compute. eexists _, _. split_and!; reflexivity. Qed.

Lemma demo_flow_trace :
  trace (@ap_step demo_sha) (demo_ts 100, demo_initial) [OpApprove; OpConsume] (demo_ts 120, demo_used).
Proof.
  destruct demo_flow as (out1 & out2 & H1 & H2 & _). econstructor.
  { apply (as_approve (demo_ts 100) (demo_ts 110) demo_approve true true demo_initial out1 demo_granted). exact H1. }
  econstructor; [|constructor].
  apply (as_consume (demo_ts 110) (demo_ts 120) demo_consume true true demo_granted out2 demo_used). exact H2.
Qed.

Lemma demo_used_grant : exists g, ar_grant demo_used = Some g.
Proof. vm_compute. by eexists. Qed.

Definition demo_finish : FinishApprovalEffect :=
  MkFinishApprovalEffect (MkContext (MkId 16) (MkId 12)) (MkId 2) (MkFencingEpoch 1) (MkId 15)
    Revision_initial TSucceeded.
Definition demo_finished : ApprovalRows :=
  match finish_approval_effect_rows demo_finish (demo_ts 140) demo_used with
  | Ok (_, rows) => rows | Err _ => demo_initial end.

Lemma demo_finish_trace :
  trace (@ap_step demo_sha) (demo_ts 120, demo_used) [OpRefused; OpFinish] (demo_ts 140, demo_finished).
Proof.
  assert (H : exists out, finish_approval_effect_rows demo_finish (demo_ts 140) demo_used = Ok (out, demo_finished)).
  { vm_compute. by eexists. }
  destruct H as [out H]. econstructor; [apply (as_refused (demo_ts 120) (demo_ts 130))|].
  econstructor; [|constructor]. exact (as_finish (demo_ts 130) (demo_ts 140) demo_finish demo_used out _ H).
Qed.

Lemma approval_never_overused_witness : exists g, ar_grant demo_used = Some g /\
  llen (ar_effects demo_used) = gr_used_count g /\ gr_used_count g <= gr_max_uses g <= 1024.
Proof.
  destruct (@approval_never_overused demo_sha (demo_ts 100, demo_initial) [OpApprove; OpConsume]
    (demo_ts 120, demo_used) demo_flow_trace) as [_ H].
  - unfold fresh_rows. split_and!; reflexivity.
  - destruct demo_used_grant as [g Hg]. exists g. split; [exact Hg | exact (H g Hg)].
Defined.

Lemma settled_approval_is_final_witness :
  settled (demo_ts 140, demo_finished) = settled (demo_ts 120, demo_used).
Proof.
  apply (@settled_approval_is_final demo_sha _ _ _ demo_finish_trace).
  destruct demo_flow as (_ & _ & _ & _ & Hs). cbn [snd]. rewrite Hs. unfold terminal_status. tauto.
Defined.
