(* ===== verification/Template.v ===== *)
(** * Template: participant templates and their task inputs

    Models crates/navigator-domain/src/template.rs: the bounded parts of a template,
    the identity derived from its content, the schema that task inputs are checked
    against, the registration record and its decoding, and the launch binding of a
    root participant.  A [BTreeMap] or [BTreeSet] of texts is a finite map or set of
    strings, sorted where it is printed. *)
From S2P Require Import Prelude Scalars Session Authority Json StoreApi Approval.

Definition MAX_DRIVER_CAPABILITIES : Z := 32.
Definition MAX_CAPABILITY_PARAMETERS : Z := 16.
Definition MAX_INPUT_FIELDS : Z := 32.
Definition MAX_INPUT_BYTES : Z := 64 * 1024.
Definition MAX_TRUSTED_CONFIGURATION_BYTES : Z := 64 * 1024.
Definition MAX_ROLE_BYTES : Z := 128.
Definition MAX_FIELD_NAME_BYTES : Z := 64.
Definition MAX_PARAMETER_BYTES : Z := 256.
Definition MAX_PARTICIPANT_MEMORY_BYTES : Z := 2 ^ 40.
Definition MAX_PARTICIPANT_CPU_MILLIS : Z := 86400000.
Definition MAX_TEMPLATE_SECRETS : Z := 32.

Inductive TemplateDomainError :=
| TeBound (e : BoundError) | ZeroCapabilityVersion | TooManyCapabilityParameters | DuplicateCapabilityParameter
| TooManyDriverCapabilities | DuplicateDriverCapability | InvalidFieldBound | TooManyInputFields
| DuplicateInputField | InputTooLarge | InvalidTaskInput | UnknownInputField | MissingInputField | InputFieldType
| InvalidResourceBounds | Canonicalization | CompatibilityMismatch | TooManySecrets | DuplicateSecretName.

Abbreviation FieldName := (BoundedText MAX_FIELD_NAME_BYTES).
Abbreviation ParameterText := (BoundedText MAX_PARAMETER_BYTES).

(** ** Collecting into bounded maps *)

(** [for (k, v) in values { if insert(k, v).is_some() {..} if len() > max {..} }]. *)
Fixpoint collect_bounded {E A} (duplicate too_many : E) (maximum : Z) (m : gmap string A)
    (values : list (string * A)) : result E (gmap string A) :=
  match values with
  | [] => Ok m
  | (k, v) :: values =>
      let m' := <[k := v]> m in
      if is_some (m !! k) then Err duplicate
      else if maximum <? Z.of_nat (size m') then Err too_many
      else collect_bounded duplicate too_many maximum m' values
  end.

(** The value is [Secret<BoundedBytes<MAX_PARAMETER_BYTES>>]. *)
Record TemplateSecrets := MkTemplateSecrets { ts_values : gmap string (BoundedBytes MAX_PARAMETER_BYTES) }.
Definition TemplateSecrets_new (values : list (FieldName * BoundedBytes MAX_PARAMETER_BYTES)) :
    result TemplateDomainError TemplateSecrets :=
  collected ← collect_bounded DuplicateSecretName TooManySecrets MAX_TEMPLATE_SECRETS ∅
    ((fun e => (as_str e.1, e.2)) <$> values);
  Ok (MkTemplateSecrets collected).
Definition TemplateSecrets_get (s : TemplateSecrets) (name : FieldName) : option (BoundedBytes MAX_PARAMETER_BYTES) :=
  ts_values s !! as_str name.

(** ** Driver requirements *)

Record DriverCapabilityRequirement := MkCapabilityRequirement {
  dr_capability : Capability;
  dr_minimum_version : Z;
  dr_parameters : gmap string ParameterText;
}.
#[global] Instance DriverCapabilityRequirement_eq_dec : EqDecision DriverCapabilityRequirement.
Proof. solve_decision. Defined.

Definition DriverCapabilityRequirement_new (capability : Capability) (minimum_version : Z)
    (parameters : list (FieldName * ParameterText)) : result TemplateDomainError DriverCapabilityRequirement :=
  if minimum_version =? 0 then Err ZeroCapabilityVersion else
  collected ← collect_bounded DuplicateCapabilityParameter TooManyCapabilityParameters MAX_CAPABILITY_PARAMETERS ∅
    ((fun e => (as_str e.1, e.2)) <$> parameters);
  Ok (MkCapabilityRequirement capability minimum_version collected).

Record DriverRequirement := MkDriverRequirement {
  dq_driver_id : DriverId;
  dq_capabilities : list DriverCapabilityRequirement;
}.
#[global] Instance DriverRequirement_eq_dec : EqDecision DriverRequirement.
Proof. solve_decision. Defined.

Definition capability_name (c : DriverCapabilityRequirement) : string := Capability_as_str (dr_capability c).

Definition DriverRequirement_new (driver_id : DriverId) (capabilities : list DriverCapabilityRequirement) :
    result TemplateDomainError DriverRequirement :=
  if MAX_DRIVER_CAPABILITIES <? llen capabilities then Err TooManyDriverCapabilities else
  let capabilities := sort_by_key capability_name String.le capabilities in
  if adjacent_dup capability_name capabilities then Err DuplicateDriverCapability
  else Ok (MkDriverRequirement driver_id capabilities).

(** One offered capability meets one required capability. *)
Definition meets (required actual : DriverCapabilityRequirement) : bool :=
  bool_decide (dr_capability actual = dr_capability required)
  && (dr_minimum_version required <=? dr_minimum_version actual)
  && forallb (fun e => bool_decide (dr_parameters actual !! e.1 = Some e.2)) (map_to_list (dr_parameters required)).

Definition is_satisfied_by (self : DriverRequirement) (offered_driver_id : DriverId)
    (offered : list DriverCapabilityRequirement) : bool :=
  let names : gset string := list_to_set (capability_name <$> offered) in
  let unique := Z.of_nat (size names) =? llen offered in
  unique && bool_decide (offered_driver_id = dq_driver_id self)
  && forallb (fun required => existsb (meets required) offered) (dq_capabilities self).

(** ** Input schemas *)

Inductive InputKind := InString | InInteger | InBoolean.
#[global] Instance InputKind_eq_dec : EqDecision InputKind.
Proof. solve_decision. Defined.

Record InputField := MkInputField {
  if_name : FieldName;
  if_kind : InputKind;
  if_required : bool;
  if_max_string_bytes : option Z;
}.
#[global] Instance InputField_eq_dec : EqDecision InputField.
Proof. solve_decision. Defined.

Definition InputField_new (name : FieldName) (kind : InputKind) (required : bool) (max_string_bytes : option Z) :
    result TemplateDomainError InputField :=
  match kind, max_string_bytes with
  | InString, Some n =>
      if (1 <=? n) && (n <=? MAX_INPUT_BYTES) then Ok (MkInputField name kind required max_string_bytes)
      else Err InvalidFieldBound
  | _, None => Ok (MkInputField name kind required max_string_bytes)
  | _, _ => Err InvalidFieldBound
  end.

Record InputSchema := MkInputSchema { is_fields : list InputField }.
#[global] Instance InputSchema_eq_dec : EqDecision InputSchema.
Proof. solve_decision. Defined.

Definition field_name (f : InputField) : string := as_str (if_name f).

Definition InputSchema_new (fields : list InputField) : result TemplateDomainError InputSchema :=
  if MAX_INPUT_FIELDS <? llen fields then Err TooManyInputFields else
  let fields := sort_by_key field_name String.le fields in
  if adjacent_dup field_name fields then Err DuplicateInputField else Ok (MkInputSchema fields).

(** [Value::as_i64]. *)
Definition value_as_i64 (v : Value) : option Z :=
  match v with
  | VNumber (PosInt n) => if n <=? i64_max then Some n else None
  | VNumber (NegInt n) => Some n
  | _ => None
  end.
Definition value_as_bool (v : Value) : option bool := match v with VBool b => Some b | _ => None end.

Definition field_accepts (f : InputField) (v : Value) : bool :=
  match if_kind f with
  | InString => match value_as_str v with
                | Some s => match if_max_string_bytes f with Some maximum => slen s <=? maximum | None => true end
                | None => false end
  | InInteger => is_some (value_as_i64 v)
  | InBoolean => is_some (value_as_bool v)
  end.
Definition validate_field (f : InputField) (v : Value) : result TemplateDomainError unit :=
  if field_accepts f v then Ok tt else Err InputFieldType.

(** [UniqueObject]'s visitor: the entries in source order, a repeated key refused; the
    values are ordinary [Value]s, whose own repeated keys the library merges. *)
Fixpoint unique_entries (o : list (string * Value)) (acc : list (string * Value)) : option (list (string * Value)) :=
  match o with
  | [] => Some acc
  | (k, x) :: o => match obj_get k acc with
                   | Some _ => None
                   | None => unique_entries o (btree_insert k (canonicalize x) acc) end
  end.
Definition UniqueObject_deserialize (v : Value) : option (list (string * Value)) :=
  match v with VObject o => unique_entries o [] | _ => None end.

Fixpoint validate_fields (fields : list InputField) (object : list (string * Value)) :
    result TemplateDomainError unit :=
  match fields with
  | [] => Ok tt
  | f :: fields =>
      match obj_get (field_name f) object with
      | None => if if_required f then Err MissingInputField else validate_fields fields object
      | Some v => _ ← validate_field f v; validate_fields fields object
      end
  end.

Record ValidatedTaskInput := MkTaskInput { vti_bytes : BoundedBytes MAX_INPUT_BYTES }.
#[global] Instance ValidatedTaskInput_eq_dec : EqDecision ValidatedTaskInput.
Proof. solve_decision. Defined.
Definition TaskInput_as_bytes (i : ValidatedTaskInput) : bytes := as_slice (vti_bytes i).

Section input.
Context {JR : JsonRaw}.

Definition InputSchema_validate (self : InputSchema) (input : bytes) :
    result TemplateDomainError ValidatedTaskInput :=
  if MAX_INPUT_BYTES <? llen input then Err InputTooLarge else
  object ← ok_or InvalidTaskInput (raw_from_slice input ≫= UniqueObject_deserialize);
  if llen (is_fields self) <? llen object then Err UnknownInputField else
  let allowed : gset string := list_to_set (field_name <$> is_fields self) in
  if existsb (fun e => negb (bool_decide (e.1 ∈ allowed))) object then Err UnknownInputField else
  _ ← validate_fields (is_fields self) object;
  bounded ← map_err TeBound (BoundedBytes_new (raw_to_vec (VObject object)));
  Ok (MkTaskInput bounded).
End input.

(** ** Trusted configuration and resources *)

Record TrustedConfiguration := MkTrusted {
  tc_base_instructions : BoundedText MAX_TRUSTED_CONFIGURATION_BYTES;
  tc_secret_names : gset string;
}.
#[global] Instance TrustedConfiguration_eq_dec : EqDecision TrustedConfiguration.
Proof. solve_decision. Defined.

Fixpoint collect_names (names : list FieldName) (acc : gset string) : result TemplateDomainError (gset string) :=
  match names with
  | [] => Ok acc
  | n :: names =>
      if bool_decide (as_str n ∈ acc) then Err DuplicateSecretName
      else let acc := {[as_str n]} ∪ acc in
           if MAX_TEMPLATE_SECRETS <? Z.of_nat (size acc) then Err TooManySecrets else collect_names names acc
  end.
Definition TrustedConfiguration_new (base_instructions : BoundedText MAX_TRUSTED_CONFIGURATION_BYTES)
    (secret_names : list FieldName) : result TemplateDomainError TrustedConfiguration :=
  collected ← collect_names secret_names ∅;
  Ok (MkTrusted base_instructions collected).

Record ResourceBounds := MkResourceBounds {
  rb_memory_bytes : Z;
  rb_cpu_millis : Z;
  rb_max_concurrent_operations : Z;
}.
#[global] Instance ResourceBounds_eq_dec : EqDecision ResourceBounds.
Proof. solve_decision. Defined.

Definition ResourceBounds_new (memory_bytes cpu_millis max_concurrent_operations : Z) :
    result TemplateDomainError ResourceBounds :=
  if (memory_bytes =? 0) || (MAX_PARTICIPANT_MEMORY_BYTES <? memory_bytes)
     || (cpu_millis =? 0) || (MAX_PARTICIPANT_CPU_MILLIS <? cpu_millis)
     || negb (max_concurrent_operations =? 1)
  then Err InvalidResourceBounds
  else Ok (MkResourceBounds memory_bytes cpu_millis max_concurrent_operations).

(** ** Printing *)

(** The order of the sets of rules: by capability, then by kind and identity of the
    resource. *)
Definition scope_rank (r : ResourceScope) : Z * Uuid :=
  match r with
  | ScopeSession i => (0, as_uuid i) | ScopeParticipant i => (1, as_uuid i)
  | ScopeOperation i => (2, as_uuid i) | ScopeArtifact i => (3, as_uuid i)
  end.
Definition scoped_le (a b : ScopedCapability) : Prop :=
  let ca := Capability_as_str (sc_capability a) in
  let cb := Capability_as_str (sc_capability b) in
  let ra := scope_rank (sc_resource a) in
  let rb := scope_rank (sc_resource b) in
  (ca <> cb /\ String.le ca cb) \/
  (ca = cb /\ (ra.1 < rb.1 \/ (ra.1 = rb.1 /\ ra.2 <= rb.2))).
#[global] Instance scoped_le_dec : RelDecision scoped_le.
Proof. intros a b. unfold scoped_le. apply _. Defined.

Section print.
Context {UT : UuidText}.

Definition scope_json (r : ResourceScope) : Value :=
  let entry {k} (kind : string) (i : Id k) := VObject [("kind"%string, VString kind); ("id"%string, json_id i)] in
  match r with
  | ScopeSession i => entry "session"%string i
  | ScopeParticipant i => entry "participant"%string i
  | ScopeOperation i => entry "operation"%string i
  | ScopeArtifact i => entry "artifact"%string i
  end.
Definition scoped_json (s : ScopedCapability) : Value :=
  VObject [("capability", VString (Capability_as_str (sc_capability s))); ("resource", scope_json (sc_resource s))]%string.
Definition rules_json (s : gset ScopedCapability) : Value := VArray (scoped_json <$> merge_sort scoped_le (elements s)).
Definition profile_json (p : AuthorityProfile) : Value :=
  VObject [("active", rules_json (ap_active p)); ("delegable", rules_json (ap_delegable p))]%string.

Definition capability_requirement_json (c : DriverCapabilityRequirement) : Value :=
  VObject [("capability", VString (capability_name c)); ("minimum_version", json_u64 (dr_minimum_version c));
           ("parameters", VObject ((fun e => (e.1, VString (as_str e.2))) <$>
              sort_by_key fst String.le (map_to_list (dr_parameters c))))]%string.
Definition driver_json (d : DriverRequirement) : Value :=
  VObject [("driver_id", json_id (dq_driver_id d));
           ("capabilities", VArray (capability_requirement_json <$> dq_capabilities d))]%string.
Definition trusted_json (t : TrustedConfiguration) : Value :=
  VObject [("base_instructions", VString (as_str (tc_base_instructions t)));
           ("secret_names", VArray (VString <$> merge_sort String.le (elements (tc_secret_names t))))]%string.
Definition resources_json (r : ResourceBounds) : Value :=
  VObject [("memory_bytes", json_u64 (rb_memory_bytes r)); ("cpu_millis", json_u64 (rb_cpu_millis r));
           ("max_concurrent_operations", json_u64 (rb_max_concurrent_operations r))]%string.
Definition kind_name (k : InputKind) : string :=
  match k with InString => "string" | InInteger => "integer" | InBoolean => "boolean" end.
Definition field_json (f : InputField) : Value :=
  VObject [("name", VString (field_name f)); ("kind", VString (kind_name (if_kind f)));
           ("required", VBool (if_required f)); ("max_string_bytes", json_option json_u64 (if_max_string_bytes f))]%string.
Definition schema_json (s : InputSchema) : Value := VArray (field_json <$> is_fields s).
End print.

(** ** Templates *)

Record Template := MkTemplate {
  tp_identity : TemplateId;
  tp_role : BoundedText MAX_ROLE_BYTES;
  tp_driver : DriverRequirement;
  tp_trusted_configuration : TrustedConfiguration;
  tp_resources : ResourceBounds;
  tp_input_schema : InputSchema;
  tp_authority : AuthorityProfile;
  tp_compatibility : CompatibilityIdentity;
}.
#[global] Instance Template_eq_dec : EqDecision Template.
Proof. solve_decision. Defined.

(** [RegisteredTemplateSnapshot], also called [TemplateRecord]: the same fields, not yet
    checked against the identity. *)
Record TemplateRecord := MkTemplateRecord {
  tr_identity : TemplateId;
  tr_role : BoundedText MAX_ROLE_BYTES;
  tr_driver : DriverRequirement;
  tr_trusted_configuration : TrustedConfiguration;
  tr_resources : ResourceBounds;
  tr_input_schema : InputSchema;
  tr_authority : AuthorityProfile;
  tr_compatibility : CompatibilityIdentity;
}.
#[global] Instance TemplateRecord_eq_dec : EqDecision TemplateRecord.
Proof. solve_decision. Defined.

Section template.
Context {SH : Sha256} {JS : Json} {JR : JsonRaw} {UT : UuidText}.

(** The tuple whose bytes identify a template; without authority rules it has no
    authority component. *)
Definition template_canonical (identity : TemplateId) (role : BoundedText MAX_ROLE_BYTES) (driver : DriverRequirement)
    (trusted : TrustedConfiguration) (resources : ResourceBounds) (schema : InputSchema)
    (authority : AuthorityProfile) : bytes :=
  let content := [json_id identity; VString (as_str role); driver_json driver; trusted_json trusted;
                  resources_json resources; schema_json schema] in
  to_vec (VArray (if bool_decide (ap_active authority = ∅) && bool_decide (ap_delegable authority = ∅)
                  then content else content ++ [profile_json authority])).

Definition register_with_authority (template_id : TemplateId) (role : BoundedText MAX_ROLE_BYTES)
    (driver : DriverRequirement) (trusted : TrustedConfiguration) (resources : ResourceBounds)
    (schema : InputSchema) (authority : AuthorityProfile) : Template :=
  MkTemplate template_id role driver trusted resources schema authority
    (Compat_digest (template_canonical template_id role driver trusted resources schema authority)).
Definition register (template_id : TemplateId) (role : BoundedText MAX_ROLE_BYTES) (driver : DriverRequirement)
    (trusted : TrustedConfiguration) (resources : ResourceBounds) (schema : InputSchema) : Template :=
  register_with_authority template_id role driver trusted resources schema AuthorityProfile_default.

Definition restore_registered_with_authority (template_id : TemplateId) (role : BoundedText MAX_ROLE_BYTES)
    (driver : DriverRequirement) (trusted : TrustedConfiguration) (resources : ResourceBounds)
    (schema : InputSchema) (authority : AuthorityProfile) (expected : CompatibilityIdentity) :
    result TemplateDomainError Template :=
  let template := register_with_authority template_id role driver trusted resources schema authority in
  if bool_decide (tp_compatibility template = expected) then Ok template else Err CompatibilityMismatch.
Definition restore_registered (template_id : TemplateId) (role : BoundedText MAX_ROLE_BYTES)
    (driver : DriverRequirement) (trusted : TrustedConfiguration) (resources : ResourceBounds)
    (schema : InputSchema) (expected : CompatibilityIdentity) : result TemplateDomainError Template :=
  restore_registered_with_authority template_id role driver trusted resources schema AuthorityProfile_default expected.

Definition matches_registration (t : Template) (template_id : TemplateId) (compatibility : CompatibilityIdentity) : bool :=
  bool_decide (tp_identity t = template_id) && bool_decide (tp_compatibility t = compatibility).
Definition validate_input (t : Template) (input : bytes) : result TemplateDomainError ValidatedTaskInput :=
  InputSchema_validate (tp_input_schema t) input.

Definition registration_snapshot (t : Template) : TemplateRecord :=
  MkTemplateRecord (tp_identity t) (tp_role t) (tp_driver t) (tp_trusted_configuration t) (tp_resources t)
    (tp_input_schema t) (tp_authority t) (tp_compatibility t).
Definition Template_try_from (r : TemplateRecord) : result TemplateDomainError Template :=
  restore_registered_with_authority (tr_identity r) (tr_role r) (tr_driver r) (tr_trusted_configuration r)
    (tr_resources r) (tr_input_schema r) (tr_authority r) (tr_compatibility r).

(** *** The stored form *)

Record CapabilityWire := MkCapabilityWire {
  cw_capability : Capability;
  cw_minimum_version : Z;
  cw_parameters : list (string * string);
}.
Record InputWire := MkInputWire {
  iw_name : string;
  iw_kind : InputKind;
  iw_required : bool;
  iw_max_string_bytes : option Z;
}.
Record RegistrationWire := MkRegistrationWire {
  rw_identity : TemplateId;
  rw_role : string;
  rw_driver_id : DriverId;
  rw_capabilities : list CapabilityWire;
  rw_base_instructions : string;
  rw_secret_names : list string;
  rw_memory_bytes : Z;
  rw_cpu_millis : Z;
  rw_max_concurrent_operations : Z;
  rw_input_schema : list InputWire;
  rw_authority : AuthorityProfile;
  rw_compatibility : CompatibilityIdentity;
}.

Definition bounded_text {MAX} (s : string) : result TemplateDomainError (BoundedText MAX) :=
  map_err TeBound (BoundedText_new s).
Definition CapabilityWire_validate (w : CapabilityWire) : result TemplateDomainError DriverCapabilityRequirement :=
  parameters ← collect (fun e => k ← bounded_text e.1; v ← bounded_text e.2; Ok (k, v)) (cw_parameters w);
  DriverCapabilityRequirement_new (cw_capability w) (cw_minimum_version w) parameters.
Definition InputWire_validate (w : InputWire) : result TemplateDomainError InputField :=
  name ← bounded_text (iw_name w);
  InputField_new name (iw_kind w) (iw_required w) (iw_max_string_bytes w).

Definition into_template (w : RegistrationWire) : result TemplateDomainError Template :=
  capabilities ← collect CapabilityWire_validate (rw_capabilities w);
  driver ← DriverRequirement_new (rw_driver_id w) capabilities;
  base_instructions ← bounded_text (rw_base_instructions w);
  secret_names ← collect bounded_text (rw_secret_names w);
  trusted ← TrustedConfiguration_new base_instructions secret_names;
  fields ← collect InputWire_validate (rw_input_schema w);
  schema ← InputSchema_new fields;
  role ← bounded_text (rw_role w);
  resources ← ResourceBounds_new (rw_memory_bytes w) (rw_cpu_millis w) (rw_max_concurrent_operations w);
  restore_registered_with_authority (rw_identity w) role driver trusted resources schema (rw_authority w)
    (rw_compatibility w).
(** [Deserialize for RegisteredTemplateSnapshot]. *)
Definition TemplateRecord_deserialize (w : RegistrationWire) : result TemplateDomainError TemplateRecord :=
  t ← into_template w;
  Ok (registration_snapshot t).

(** What the derived [Serialize] writes. *)
Definition capability_wire (c : DriverCapabilityRequirement) : CapabilityWire :=
  MkCapabilityWire (dr_capability c) (dr_minimum_version c)
    ((fun e => (e.1, as_str e.2)) <$> sort_by_key fst String.le (map_to_list (dr_parameters c))).
Definition field_wire (f : InputField) : InputWire :=
  MkInputWire (field_name f) (if_kind f) (if_required f) (if_max_string_bytes f).
Definition TemplateRecord_serialize (r : TemplateRecord) : RegistrationWire :=
  MkRegistrationWire (tr_identity r) (as_str (tr_role r)) (dq_driver_id (tr_driver r))
    (capability_wire <$> dq_capabilities (tr_driver r))
    (as_str (tc_base_instructions (tr_trusted_configuration r)))
    (merge_sort String.le (elements (tc_secret_names (tr_trusted_configuration r))))
    (rb_memory_bytes (tr_resources r)) (rb_cpu_millis (tr_resources r))
    (rb_max_concurrent_operations (tr_resources r))
    (field_wire <$> is_fields (tr_input_schema r)) (tr_authority r) (tr_compatibility r).
End template.

Record TemplatePublicSnapshot := MkTemplatePublic {
  pp_template_id : TemplateId;
  pp_compatibility : CompatibilityIdentity;
  pp_role : BoundedText MAX_ROLE_BYTES;
  pp_driver : DriverRequirement;
  pp_resources : ResourceBounds;
  pp_input_schema : InputSchema;
}.
Definition public_snapshot (t : Template) : TemplatePublicSnapshot :=
  MkTemplatePublic (tp_identity t) (tp_compatibility t) (tp_role t) (tp_driver t) (tp_resources t) (tp_input_schema t).

(** ** Root participants *)

Record LaunchIdentity := MkLaunchIdentity {
  li_session_id : SessionId;
  li_participant_id : ParticipantId;
  li_launch_attempt_id : LaunchAttemptId;
  li_instance_id : InstanceId;
  li_driver_id : DriverId;
  li_ownership_epoch : FencingEpoch;
}.
#[global] Instance LaunchIdentity_eq_dec : EqDecision LaunchIdentity.
Proof. solve_decision. Defined.

Inductive ParticipantDomainError := LaunchIdentityMismatch | CurrentInstanceConflict.

(** [RootParticipant], and the snapshot of it, which has the same fields. *)
Record RootParticipant := MkRootParticipant {
  rp_participant_id : ParticipantId;
  rp_session_id : SessionId;
  rp_template_id : TemplateId;
  rp_template_compatibility : CompatibilityIdentity;
  rp_expected_driver_id : DriverId;
  rp_current_launch : option LaunchIdentity;
}.
Definition RootParticipant_new (participant_id : ParticipantId) (session_id : SessionId) (t : Template) : RootParticipant :=
  MkRootParticipant participant_id session_id (tp_identity t) (tp_compatibility t) (dq_driver_id (tp_driver t)) None.

Definition bind_launch (self : RootParticipant) (current : FencingEpoch) (launch : LaunchIdentity) :
    result ParticipantDomainError RootParticipant :=
  if negb (bool_decide (li_session_id launch = rp_session_id self))
     || negb (bool_decide (li_participant_id launch = rp_participant_id self))
     || negb (bool_decide (li_driver_id launch = rp_expected_driver_id self))
     || negb (FencingEpoch_is_current (li_ownership_epoch launch) current)
  then Err LaunchIdentityMismatch
  else match rp_current_launch self with
       | Some bound => if negb (bool_decide (bound = launch)) then Err CurrentInstanceConflict
                       else Ok (MkRootParticipant (rp_participant_id self) (rp_session_id self) (rp_template_id self)
                                  (rp_template_compatibility self) (rp_expected_driver_id self) (Some launch))
       | None => Ok (MkRootParticipant (rp_participant_id self) (rp_session_id self) (rp_template_id self)
                       (rp_template_compatibility self) (rp_expected_driver_id self) (Some launch))
       end.

(** ** Lemmas about task inputs *)

Definition scalar (v : Value) : bool :=
  match v with VArray _ | VObject _ => false | VNumber (Float _) => false | _ => true end.
Lemma scalar_canonicalize x : scalar (canonicalize x) = true -> canonicalize x = x /\ unique_value x = Some x /\ float_free x.
Proof. destruct x as [|?|[]|?|?|?]; try done; intros _; split_and!; try done; constructor. Qed.
Lemma accepts_scalar f v : field_accepts f v = true -> scalar v = true.
Proof. unfold field_accepts. by destruct (if_kind f), v as [|?|[]|?|?|?]. Qed.

Lemma obj_get_sorted k v o : keys_sorted o -> obj_get k o = Some v <-> (k, v) ∈ o.
Proof.
  induction o as [|[k' v'] o IH]; [by split; [|intros []%not_elem_of_nil]|]. intros Hs.
  apply keys_sorted_cons in Hs as [Hs Hlt]. specialize (IH Hs). cbn in *. rewrite elem_of_cons.
  destruct (String.eqb_spec k' k) as [->|Hne].
  - split; [intros [= ->]; by left|]. intros [[= ->]|Hin]; [done|].
    exfalso. specialize (Hlt k (list_elem_of_fmap_2 fst _ _ Hin)). by rewrite string_ltb_irrefl in Hlt.
  - rewrite IH. split; [by right|]. intros [[= -> ->]|H]; done.
Qed.
Lemma btree_insert_elem k v o e : k ∉ o.*1 -> e ∈ btree_insert k v o <-> e = (k, v) \/ e ∈ o.
Proof.
  induction o as [|[k' v'] o IH]; cbn; intros Hn; [set_solver|].
  destruct (String.eqb_spec k k') as [->|Hne]; [set_solver|]. destruct (String.ltb k k'); [set_solver|].
  rewrite !elem_of_cons, IH by set_solver. tauto.
Qed.

Lemma unique_entries_Some o acc res : unique_entries o acc = Some res -> keys_sorted acc ->
  keys_sorted res /\ forall k v, (k, v) ∈ res <-> (k, v) ∈ acc \/ exists x, (k, x) ∈ o /\ v = canonicalize x.
Proof.
  revert acc. induction o as [|[k x] o IH]; cbn [unique_entries]; intros acc H Hs.
  - injection H as <-. split; [done|]. intros k v. split; [by left|]. intros [?|(x & []%not_elem_of_nil & _)]; done.
  - destruct (obj_get k acc) eqn:Ek; [done|]. apply obj_get_None in Ek.
    apply IH in H as [Hres Hin]; [|by apply btree_insert_sorted]. split; [done|]. intros k' v.
    rewrite Hin, btree_insert_elem by done. setoid_rewrite elem_of_cons. split.
    + intros [[[= -> ->]|?]|(y & ? & ?)]; eauto.
    + intros [?|(y & [[= -> ->]|?] & ->)]; eauto.
Qed.

Lemma unique_entries_value o acc res : Forall (fun e => scalar (canonicalize e.2) = true) o ->
  unique_entries o acc = Some res -> entries_loop o acc = Some (VObject res).
Proof.
  revert acc. induction o as [|[k x] o IH]; cbn [unique_entries entries_loop]; intros acc Ho H; [by injection H as ->|].
  apply Forall_cons in Ho as [Hx Ho]. destruct (scalar_canonicalize x Hx) as (Ex & -> & _). rewrite Ex in H.
  destruct (obj_get k acc); [done|]. by apply IH.
Qed.

Lemma unique_entries_sorted o acc : keys_sorted (acc ++ o) -> Forall (fun e => scalar e.2 = true) o ->
  unique_entries o acc = Some (acc ++ o).
Proof.
  revert acc. induction o as [|[k x] o IH]; cbn [unique_entries]; intros acc Hs Ho; [by rewrite app_nil_r|].
  apply Forall_cons in Ho as [Hx Ho]. cbn in Hx.
  assert (Hlt : Forall (fun e => String.ltb e.1 k = true) acc).
  { apply Forall_forall. intros e He. apply list_elem_of_lookup_1 in He as [i Hi].
    pose proof (lookup_lt_Some _ _ _ Hi). unfold keys_sorted in Hs.
    apply (StronglySorted_lookup_lt _ _ i (length acc) e (k, x) Hs); [by apply lookup_app_l_Some| |done].
    rewrite lookup_app_r, Nat.sub_diag by lia. done. }
  assert (obj_get k acc = None) as ->.
  { apply obj_get_None. intros ([k' y] & -> & Hin)%list_elem_of_fmap. rewrite Forall_forall in Hlt.
    specialize (Hlt _ Hin). cbn in Hlt. by rewrite string_ltb_irrefl in Hlt. }
  assert (canonicalize x = x) as -> by by destruct x.
  rewrite btree_insert_last by done. rewrite IH; rewrite <-?app_assoc; done.
Qed.

Lemma validate_fields_Ok fs o : keys_sorted o -> validate_fields fs o = Ok tt <->
  forall f, f ∈ fs -> (forall v, (field_name f, v) ∈ o -> field_accepts f v = true) /\
    (if_required f = true -> exists v, (field_name f, v) ∈ o).
Proof.
  intros Hs. induction fs as [|f fs IH]; cbn [validate_fields]; [by split; [intros _ f []%not_elem_of_nil|]|].
  setoid_rewrite elem_of_cons. destruct (obj_get (field_name f) o) as [v|] eqn:Ef.
  - apply (obj_get_sorted _ _ _ Hs) in Ef as Hv. unfold validate_field. destruct (field_accepts f v) eqn:Ea; cbn [mbind result_bind].
    + rewrite IH. split; [|auto]. intros H g [->|Hg]; [|auto]. split; [|eauto].
      intros v' Hv'. apply (obj_get_sorted _ _ _ Hs) in Hv'. congruence.
    + split; [done|]. intros H. destruct (H f (or_introl eq_refl)) as [H1 _]. rewrite (H1 _ Hv) in Ea. done.
  - assert (Hno : forall v, (field_name f, v) ∉ o) by (intros v Hv%(obj_get_sorted _ _ _ Hs); congruence).
    destruct (if_required f) eqn:Er.
    + split; [done|]. intros H. destruct (H f (or_introl eq_refl)) as [_ H2]. destruct (H2 Er) as [v Hv]. by destruct (Hno v).
    + rewrite IH. split; [|auto]. intros H g [->|Hg]; [|auto]. split; [by intros v Hv%Hno|congruence].
Qed.

(** What a schema asks of an object: every entry is a field of the schema with a value
    of its kind and within its bound, and every required field is present. *)
Definition input_conforms (s : InputSchema) (o : list (string * Value)) : Prop :=
  (forall k v, (k, v) ∈ o -> exists f, f ∈ is_fields s /\ field_name f = k /\ field_accepts f v = true) /\
  (forall f, f ∈ is_fields s -> if_required f = true -> exists v, (field_name f, v) ∈ o).
Definition schema_wf (s : InputSchema) : Prop := NoDup (field_name <$> is_fields s).

Lemma InputSchema_new_wf fs s : InputSchema_new fs = Ok s -> schema_wf s.
Proof.
  unfold InputSchema_new. intros H. case_if_in H as E; [done|]. case_if_in H as E2; [done|]. injection H as <-.
  unfold schema_wf. cbn [is_fields]. apply adjacent_dup_sorted with (le := String.le); [apply _..| |done].
  apply sort_by_key_sorted; apply _.
Qed.

Lemma same_field s f g : schema_wf s -> f ∈ is_fields s -> g ∈ is_fields s -> field_name f = field_name g -> f = g.
Proof.
  unfold schema_wf. intros Hnd Hf Hg He. apply list_elem_of_lookup_1 in Hf as [i Hi], Hg as [j Hj].
  assert (i = j) as <-; [|congruence]. apply (NoDup_lookup (field_name <$> is_fields s) i j (field_name f) Hnd);
    rewrite list_lookup_fmap, ?Hi, ?Hj; cbn; congruence.
Qed.

(** Distinct keys, all of them fields: no more keys than fields. *)
Lemma conforming_length s o : schema_wf s -> keys_sorted o -> input_conforms s o -> llen o <= llen (is_fields s).
Proof.
  intros Hs Ho [Hk _]. unfold llen. rewrite <-(length_fmap fst o), <-(length_fmap field_name (is_fields s)).
  enough (o.*1 ⊆+ (field_name <$> is_fields s)) as Hsub by (apply submseteq_length in Hsub; lia).
  apply NoDup_submseteq.
  - clear -Ho. induction o as [|e o IH]; [constructor|]. apply keys_sorted_cons in Ho as [Ho Hlt].
    constructor; [|by apply IH]. intros Hin. specialize (Hlt _ Hin). by rewrite string_ltb_irrefl in Hlt.
  - intros k ([k' v] & -> & Hin)%list_elem_of_fmap. destruct (Hk _ _ Hin) as (f & Hf & Hn & _). cbn. subst.
    by apply list_elem_of_fmap_2.
Qed.

Section inputs.
Context {JR : JsonRaw}.

Lemma deserialize_sorted r o : UniqueObject_deserialize r = Some o -> keys_sorted o.
Proof.
  destruct r as [| | | | |e]; try done. cbn. intros H. apply unique_entries_Some in H as [H _]; [done|]. constructor.
Qed.

(** The tests on the keys and the fields together are conformance. *)
Lemma tests_conform s o : schema_wf s -> keys_sorted o ->
  ((llen (is_fields s) <? llen o) = false /\
   existsb (fun e => negb (bool_decide (e.1 ∈ (list_to_set (field_name <$> is_fields s) : gset string)))) o = false /\
   validate_fields (is_fields s) o = Ok tt) <-> input_conforms s o.
Proof.
  intros Hs Ho. rewrite (validate_fields_Ok _ _ Ho). split.
  - intros (_ & Hk & Hf). split; [|intros f Hin; apply (Hf f Hin)]. intros k v Hin.
    pose proof (existsb_false _ _ _ Hk Hin) as Ha. cbn in Ha. apply negb_false_iff, bool_decide_eq_true in Ha.
    apply elem_of_list_to_set in Ha as (f & -> & Hfin)%list_elem_of_fmap. exists f. split_and!; [done..|].
    by apply (Hf f Hfin).
  - intros Hc. split_and!.
    + apply Z.ltb_ge. by apply conforming_length.
    + apply not_true_iff_false. intros ([k v] & Hin & Hn)%existsb_exists. apply list_elem_of_In in Hin.
      destruct (proj1 Hc _ _ Hin) as (f & Hf & <- & _). rewrite bool_decide_eq_true_2 in Hn; [done|].
      cbn. apply elem_of_list_to_set. by apply list_elem_of_fmap_2.
    + intros f Hf. split; [|by apply Hc]. intros v Hin. destruct (proj1 Hc _ _ Hin) as (g & Hg & Hn & Ha).
      by rewrite (same_field s f g Hs Hf Hg (eq_sym Hn)).
Qed.

Lemma validate_Ok s b v : schema_wf s -> InputSchema_validate s b = Ok v <->
  llen b <= MAX_INPUT_BYTES /\ exists r o, raw_from_slice b = Some r /\ UniqueObject_deserialize r = Some o /\
    input_conforms s o /\ TaskInput_as_bytes v = raw_to_vec (VObject o) /\ llen (TaskInput_as_bytes v) <= MAX_INPUT_BYTES.
Proof.
  intros Hs. unfold InputSchema_validate. split.
  - intros H. case_if_in H as E0; [done|]. apply bind_Ok in H as (o & Ho & H). apply ok_or_Ok in Ho.
    destruct (raw_from_slice b) as [r|]; [cbn in Ho|done].
    case_if_in H as E1; [done|]. case_if_in H as E2; [done|]. apply bind_Ok in H as ([] & Hf & H).
    apply bind_Ok in H as (bb & Hb & [= <-]). bool_norm. split; [lia|]. exists r, o. split; [done|]. split; [done|].
    split; [apply tests_conform; eauto using deserialize_sorted; split_and!; [by apply Z.ltb_ge|done..]|].
    unfold BoundedBytes_new in Hb. case_if_in Hb as E3; [done|]. injection Hb as <-. cbn. bool_norm. split; [done|lia].
  - intros (Hb & r & o & Hr & Ho & Hc & Hv & Hl). rewrite (proj2 (Z.ltb_ge _ _) Hb), Hr. cbn [option_bind mbind].
    rewrite Ho. cbn [ok_or mbind result_bind].
    destruct (proj2 (tests_conform s o Hs (deserialize_sorted _ _ Ho)) Hc) as (-> & -> & ->). cbn [mbind result_bind].
    unfold BoundedBytes_new. rewrite <-Hv, (proj2 (Z.ltb_ge _ _) Hl). by destruct v as [[]].
Qed.

Context {JRL : JsonRawLaws}.

(** The accepted form is a fixed point. *)
Lemma validate_stable s b v : schema_wf s -> InputSchema_validate s b = Ok v ->
  InputSchema_validate s (TaskInput_as_bytes v) = Ok v.
Proof.
  intros Hs. rewrite (validate_Ok s b v Hs). intros (Hb & r & o & Hr & Ho & Hc & Hv & Hl).
  pose proof (deserialize_sorted _ _ Ho) as Hsort. destruct r as [| | | | |e]; try discriminate Ho. cbn in Ho.
  assert (Hsc : Forall (fun e => scalar (canonicalize e.2) = true) e).
  { apply Forall_forall. intros [k x] Hin. destruct (unique_entries_Some _ _ _ Ho) as [_ Hel]; [constructor|].
    destruct (proj1 Hc k (canonicalize x)) as (f & _ & _ & Ha); [apply Hel; right; eauto|]. by apply accepts_scalar in Ha. }
  assert (Hsc' : Forall (fun e => scalar e.2 = true) o).
  { apply Forall_forall. intros [k x] Hin. destruct (proj1 Hc _ _ Hin) as (f & _ & _ & Ha). by apply accepts_scalar in Ha. }
  apply validate_Ok; [done|]. split; [done|]. exists (VObject o), o. split_and!; [|by apply (unique_entries_sorted o [])|done..].
  rewrite Hv. apply (raw_roundtrip b (VObject e)); [done|rewrite unique_object; by apply unique_entries_value|].
  constructor. eapply Forall_impl; [exact Hsc'|]. intros [k [|?|[]|?|?|?]]; try done; constructor.
Qed.
(** Bytes that one schema has produced are accepted by another only as they are. *)
Lemma validate_canonical s s' b v v' : schema_wf s -> schema_wf s' -> InputSchema_validate s b = Ok v ->
  InputSchema_validate s' (TaskInput_as_bytes v) = Ok v' -> v' = v.
Proof.
  intros Hs Hs' H H'. apply (validate_stable _ _ _ Hs) in H. apply (validate_Ok _ _ _ Hs) in H as (_ & r & o & Hr & Ho & _ & Hv & _).
  apply (validate_Ok _ _ _ Hs') in H' as (_ & r' & o' & Hr' & Ho' & _ & Hv' & _). rewrite Hr in Hr'. injection Hr' as <-.
  rewrite Ho in Ho'. injection Ho' as <-. unfold TaskInput_as_bytes in *. destruct v as [[]], v' as [[]]. cbn in *. congruence.
Qed.

(** a task input is accepted exactly when it is a bounded JSON object without
    repeated fields that conforms to the schema, and the accepted form is a fixed point:
    it is accepted again, unchanged. *)
Theorem task_input_exact s b v : schema_wf s -> InputSchema_validate s b = Ok v <->
  llen b <= MAX_INPUT_BYTES /\ exists r o, raw_from_slice b = Some r /\ UniqueObject_deserialize r = Some o /\
    input_conforms s o /\ TaskInput_as_bytes v = raw_to_vec (VObject o) /\
    llen (TaskInput_as_bytes v) <= MAX_INPUT_BYTES /\ InputSchema_validate s (TaskInput_as_bytes v) = Ok v.
Proof.
  intros Hs. pose proof (validate_stable s b v Hs) as Hst. rewrite (validate_Ok s b v Hs) in Hst |- *.
  split; [|intros (? & r & o & ? & ? & ? & ? & ? & _); eauto 10].
  intros H. specialize (Hst H). destruct H as (Hb & r & o & Hr & Ho & Hc & Hv & Hl). split; [done|]. exists r, o. by split_and!.
Qed.
End inputs.

Lemma task_input_exact_witness :
  @InputSchema_validate braces_json (MkInputSchema []) [32; 123; 125] = Ok (MkTaskInput (MkBoundedBytes [123; 125])) /\
  @InputSchema_validate braces_json (MkInputSchema []) [123; 125] = Ok (MkTaskInput (MkBoundedBytes [123; 125])).
Proof.
  split; [reflexivity|].
  assert (Hs : schema_wf (MkInputSchema [])) by (apply (InputSchema_new_wf []); reflexivity).
  destruct (proj1 (@task_input_exact braces_json braces_json_laws (MkInputSchema []) [32; 123; 125]
    (MkTaskInput (MkBoundedBytes [123; 125])) Hs) eq_refl) as (_ & r & o & _ & _ & _ & _ & _ & H). exact H.
Defined.
