(* ===== verification/Message.v ===== *)
(** * Message: envelopes, delivery states and the mailbox commands

    Models crates/navigator-domain/src/message.rs and
    crates/navigator-store-api/src/mailbox.rs.  An envelope keeps its JSON encoding,
    whose length is what mailboxes account for; [serde_json::to_vec] writes the fields
    of a struct in their declared order and the tag of an enum first.  The panicking
    constructors ([.expect("closed .. is bounded")]) return the error instead. *)
From S2P Require Import Prelude Scalars Session Authority Json StoreApi Operation Approval.

(** ** Envelopes *)

Definition MAX_VALIDATED_MESSAGE_BYTES : Z := 65536.

Inductive MessageKind :=
| KindOperationInput | KindQuestion | KindOperationOutcome | KindCorrelatedFeedback | KindControl
| KindApprovalDecision.
#[global] Instance MessageKind_eq_dec : EqDecision MessageKind.
Proof. solve_decision. Defined.

Inductive ControlMessageKind := ControlCancel | ControlReminder.
#[global] Instance ControlMessageKind_eq_dec : EqDecision ControlMessageKind.
Proof. solve_decision. Defined.
Inductive FeedbackKind := FeedbackAcknowledged | FeedbackRejected.
#[global] Instance FeedbackKind_eq_dec : EqDecision FeedbackKind.
Proof. solve_decision. Defined.
#[global] Instance PublicOperationOutcome_eq_dec : EqDecision PublicOperationOutcome.
Proof. solve_decision. Defined.

Inductive MessageBody :=
| BodyOperationInput (operation_id : OperationId) (input_digest : bytes)
| BodyCorrelatedFeedback (operation_id : OperationId) (in_reply_to : MessageId) (feedback : FeedbackKind)
| BodyQuestion (operation_id : OperationId) (code : Capability)
| BodyOperationOutcome (operation_id : OperationId) (outcome : PublicOperationOutcome) (result_digest : bytes)
| BodyControl (operation_id : OperationId) (command : ControlMessageKind)
| BodyApprovalDecision (approval_id : ApprovalRequestId) (operation_id : OperationId)
    (status : ApprovalStatus) (grant_id : option GrantId).
#[global] Instance MessageBody_eq_dec : EqDecision MessageBody.
Proof. solve_decision. Defined.

Record ValidatedMessageEnvelope := MkEnvelope {
  env_schema_version : Z;
  env_body : MessageBody;
  env_encoded : BoundedBytes MAX_VALIDATED_MESSAGE_BYTES;
}.
#[global] Instance ValidatedMessageEnvelope_eq_dec : EqDecision ValidatedMessageEnvelope.
Proof. solve_decision. Defined.

Inductive MessageValidationError := UnsupportedSchemaVersion | InvalidPayload.

Definition envelope_as_bytes (e : ValidatedMessageEnvelope) : bytes := as_slice (env_encoded e).

Definition envelope_kind (e : ValidatedMessageEnvelope) : MessageKind :=
  match env_body e with
  | BodyOperationInput _ _ => KindOperationInput
  | BodyQuestion _ _ => KindQuestion
  | BodyOperationOutcome _ _ _ => KindOperationOutcome
  | BodyCorrelatedFeedback _ _ _ => KindCorrelatedFeedback
  | BodyControl _ _ => KindControl
  | BodyApprovalDecision _ _ _ _ => KindApprovalDecision
  end.

(** ** JSON *)

Section json.
Context {JS : Json} {UT : UuidText}.

Definition approval_status_name (s : ApprovalStatus) : string :=
  match s with
  | ApPending => "pending" | ApGranted => "granted" | ApConsumed => "consumed" | ApDenied => "denied"
  | ApExpired => "expired" | ApRevoked => "revoked"
  end.
Definition public_outcome_name (o : PublicOperationOutcome) : string :=
  match o with
  | PubSucceeded => "succeeded" | PubFailed => "failed" | PubCancelled => "cancelled"
  | PubBlocked => "blocked" | PubUncertain => "uncertain"
  end.

Definition body_json (b : MessageBody) : Value :=
  VObject match b with
  | BodyOperationInput op digest =>
      [("kind", VString "operation_input"); ("operation_id", json_id op); ("input_digest", json_bytes digest)]
  | BodyCorrelatedFeedback op reply feedback =>
      [("kind", VString "correlated_feedback"); ("operation_id", json_id op); ("in_reply_to", json_id reply);
       ("feedback", VString match feedback with
                            | FeedbackAcknowledged => "acknowledged" | FeedbackRejected => "rejected" end)]
  | BodyQuestion op code =>
      [("kind", VString "question"); ("operation_id", json_id op); ("code", VString (Capability_as_str code))]
  | BodyOperationOutcome op outcome digest =>
      [("kind", VString "operation_outcome"); ("operation_id", json_id op);
       ("outcome", VString (public_outcome_name outcome)); ("result_digest", json_bytes digest)]
  | BodyControl op command =>
      [("kind", VString "control"); ("operation_id", json_id op);
       ("command", VString match command with ControlCancel => "cancel" | ControlReminder => "reminder" end)]
  | BodyApprovalDecision approval op status grant =>
      [("kind", VString "approval_decision"); ("approval_id", json_id approval); ("operation_id", json_id op);
       ("status", VString (approval_status_name status)); ("grant_id", json_option json_id grant)]
  end%string.

(** [EnvelopeWire], which is also how an envelope serializes inside a snapshot. *)
Definition envelope_wire (schema_version : Z) (body : MessageBody) : Value :=
  VObject [("schema_version"%string, json_u64 schema_version); ("body"%string, body_json body)].

Definition ValidatedMessageEnvelope_new (schema_version : Z) (body : MessageBody) :
    result MessageValidationError ValidatedMessageEnvelope :=
  if negb (schema_version =? 1) then Err UnsupportedSchemaVersion else
  encoded ← map_err (fun _ => InvalidPayload) (BoundedBytes_new (to_vec (envelope_wire schema_version body)));
  Ok (MkEnvelope schema_version body encoded).

Definition operation_input (op : OperationId) (digest : bytes) :=
  ValidatedMessageEnvelope_new 1 (BodyOperationInput op digest).
Definition correlated_feedback (op : OperationId) (reply : MessageId) (feedback : FeedbackKind) :=
  ValidatedMessageEnvelope_new 1 (BodyCorrelatedFeedback op reply feedback).
Definition question (op : OperationId) (code : Capability) :=
  ValidatedMessageEnvelope_new 1 (BodyQuestion op code).
Definition operation_outcome (op : OperationId) (outcome : PublicOperationOutcome) (digest : bytes) :=
  ValidatedMessageEnvelope_new 1 (BodyOperationOutcome op outcome digest).
Definition control (op : OperationId) (command : ControlMessageKind) :=
  ValidatedMessageEnvelope_new 1 (BodyControl op command).
Definition approval_decision (approval : ApprovalRequestId) (op : OperationId) (status : ApprovalStatus)
    (grant : option GrantId) :=
  ValidatedMessageEnvelope_new 1 (BodyApprovalDecision approval op status grant).
End json.

(** ** Delivery states (mailbox.rs) *)

Definition MAX_MAILBOX_QUEUED_BYTES : Z := 4 * 1024 * 1024.
Definition MAX_MAILBOX_QUEUED_MESSAGES : Z := 4096.
Definition MAX_MAILBOX_RESERVED_OUTCOMES : Z := 64.
Definition MAX_MAILBOX_RESERVED_OUTCOME_BYTES : Z := 64 * 1024.
Definition MAX_DELIVERY_ATTEMPTS : Z := 32.
Definition MAX_DELIVERY_REASON_BYTES : Z := 1024.

Inductive MessagePriority := PrControl | PrOrdinary.
#[global] Instance MessagePriority_eq_dec : EqDecision MessagePriority.
Proof. solve_decision. Defined.

Record MessageCorrelation := MkCorrelation {
  mc_operation_id : option OperationId;
  mc_in_reply_to : option MessageId;
}.
#[global] Instance MessageCorrelation_eq_dec : EqDecision MessageCorrelation.
Proof. solve_decision. Defined.

Record DeliveryLease := MkDeliveryLease {
  dl_attempt_id : DeliveryAttemptId;
  dl_owner : HostId;
  dl_ownership_epoch : FencingEpoch;
  dl_driver_ownership_epoch : FencingEpoch;
  dl_driver_launch_attempt_id : LaunchAttemptId;
  dl_instance_id : InstanceId;
  dl_expires_at : Timestamp;
}.
#[global] Instance DeliveryLease_eq_dec : EqDecision DeliveryLease.
Proof. solve_decision. Defined.

Abbreviation DeliveryReason := (BoundedText MAX_DELIVERY_REASON_BYTES).

Inductive MessageDeliveryState :=
| MsQueued
| MsRetryScheduled (not_before : Timestamp)
| MsLeased (lease : DeliveryLease)
| MsAcceptancePending (lease : DeliveryLease)
| MsAcceptanceUnknown (lease : DeliveryLease)
| MsAccepted (attempt_id : DeliveryAttemptId) (proof_digest : bytes) (accepted_at : Timestamp)
| MsUncertain (attempt_id : DeliveryAttemptId) (reason : DeliveryReason)
| MsDeadLetter (reason : DeliveryReason).
#[global] Instance MessageDeliveryState_eq_dec : EqDecision MessageDeliveryState.
Proof. solve_decision. Defined.

Definition delivery_is_terminal (s : MessageDeliveryState) : bool :=
  match s with MsAccepted _ _ _ | MsUncertain _ _ | MsDeadLetter _ => true | _ => false end.

Record MessageSnapshot := MkMessage {
  ms_session_id : SessionId;
  ms_message_id : MessageId;
  ms_source : ParticipantId;
  ms_destination : ParticipantId;
  ms_mailbox_sequence : Z;
  ms_priority : MessagePriority;
  ms_correlation : MessageCorrelation;
  ms_envelope : ValidatedMessageEnvelope;
  ms_attempt_count : Z;
  ms_state : MessageDeliveryState;
  ms_revision : Revision;
  ms_created_at : Timestamp;
  ms_updated_at : Timestamp;
}.
#[global] Instance MessageSnapshot_eq_dec : EqDecision MessageSnapshot.
Proof. solve_decision. Defined.

Definition priority_for (kind : MessageKind) : MessagePriority :=
  match kind with
  | KindOperationInput | KindQuestion => PrOrdinary
  | KindOperationOutcome | KindCorrelatedFeedback | KindControl | KindApprovalDecision => PrControl
  end.

Definition is_structurally_valid (m : MessageSnapshot) : bool :=
  if (ms_mailbox_sequence m =? 0) || (MAX_DELIVERY_ATTEMPTS <? ms_attempt_count m)
     || Timestamp_ltb (ms_updated_at m) (ms_created_at m)
     || negb (bool_decide (ms_priority m = priority_for (envelope_kind (ms_envelope m))))
  then false
  else match ms_state m with
       | MsQueued => ms_attempt_count m =? 0
       | MsRetryScheduled not_before =>
           (0 <? ms_attempt_count m) && Timestamp_leb (ms_updated_at m) not_before
       | MsLeased lease | MsAcceptancePending lease | MsAcceptanceUnknown lease =>
           (0 <? ms_attempt_count m) && Timestamp_ltb (ms_updated_at m) (dl_expires_at lease)
       | MsAccepted _ _ accepted_at =>
           (0 <? ms_attempt_count m) && bool_decide (accepted_at = ms_updated_at m)
       | MsUncertain _ _ => 0 <? ms_attempt_count m
       | MsDeadLetter _ => true
       end.

(** ** Commands *)

(** [std::time::Duration], in nanoseconds. *)
Record Duration := MkDuration { duration_nanos : Z }.
Definition duration_millis (d : Duration) : Z := duration_nanos d `div` 1000000.
(** [.as_millis().try_into().unwrap_or(u64::MAX)]. *)
Definition saturated_millis (d : Duration) : Z := Z.min (duration_millis d) u64_max.

Record EnqueueMessage := MkEnqueue {
  eq_context : RequestContext;
  eq_session_id : SessionId;
  eq_epoch : FencingEpoch;
  eq_message_id : MessageId;
  eq_source : ParticipantId;
  eq_destination : ParticipantId;
  eq_correlation : MessageCorrelation;
  eq_envelope : ValidatedMessageEnvelope;
}.

Definition ci_some {k} (some none : string) (o : option (Id k)) : bytes :=
  match o with
  | Some i => ci_bytes (bytes_of_string some) ++ ci_identity (as_uuid i)
  | None => ci_bytes (bytes_of_string none)
  end.

Definition enqueue_input (c : EnqueueMessage) : bytes :=
  ci_identity (as_uuid (eq_session_id c)) ++ ci_identity (as_uuid (eq_message_id c)) ++
  ci_identity (as_uuid (eq_source c)) ++ ci_identity (as_uuid (eq_destination c)) ++
  ci_bytes (bytes_of_string match priority_for (envelope_kind (eq_envelope c)) with
                            | PrControl => "control" | PrOrdinary => "ordinary" end) ++
  ci_some "operation:some" "operation:none" (mc_operation_id (eq_correlation c)) ++
  ci_some "reply:some" "reply:none" (mc_in_reply_to (eq_correlation c)) ++
  ci_bytes (envelope_as_bytes (eq_envelope c)).
#[global] Instance EnqueueMessage_request `{!Sha256} : MutableRequest EnqueueMessage := {|
  mr_context := eq_context;
  mr_action _ := ActEnqueueMessage;
  mr_digest c := ci_finish (enqueue_input c) ActEnqueueMessage;
|}.

Record LeaseNextMessage := MkLeaseNext {
  ln_context : RequestContext;
  ln_session_id : SessionId;
  ln_epoch : FencingEpoch;
  ln_destination : ParticipantId;
  ln_instance_id : InstanceId;
  ln_driver_launch_attempt_id : LaunchAttemptId;
  ln_proposed_attempt_id : DeliveryAttemptId;
  ln_lease_duration : Duration;
}.
Definition lease_next_input (c : LeaseNextMessage) : bytes :=
  ci_identity (as_uuid (ln_session_id c)) ++ ci_u64 (FencingEpoch_get (ln_epoch c)) ++
  ci_identity (as_uuid (ln_destination c)) ++ ci_identity (as_uuid (ln_instance_id c)) ++
  ci_identity (as_uuid (ln_driver_launch_attempt_id c)) ++ ci_u64 (saturated_millis (ln_lease_duration c)).
#[global] Instance LeaseNextMessage_request `{!Sha256} : MutableRequest LeaseNextMessage := {|
  mr_context := ln_context;
  mr_action _ := ActLeaseNextMessage;
  mr_digest c := ci_finish (lease_next_input c) ActLeaseNextMessage;
|}.

Inductive DeliveryTransition :=
| DtAcceptancePending
| DtAcceptanceUnknown
| DtRetryAfter (delay : Duration)
| DtAccepted (proof_digest : bytes)
| DtUncertain (reason : DeliveryReason)
| DtDeadLetter (reason : DeliveryReason).

Record TransitionMessageDelivery := MkTransition {
  td_context : RequestContext;
  td_session_id : SessionId;
  td_epoch : FencingEpoch;
  td_message_id : MessageId;
  td_attempt_id : DeliveryAttemptId;
  td_expected_revision : Revision;
  td_transition : DeliveryTransition;
}.
Definition transition_input (c : TransitionMessageDelivery) : bytes :=
  ci_identity (as_uuid (td_session_id c)) ++ ci_identity (as_uuid (td_message_id c)) ++
  ci_identity (as_uuid (td_attempt_id c)) ++ ci_u64 (FencingEpoch_get (td_epoch c)) ++
  ci_u64 (Revision_get (td_expected_revision c)) ++
  match td_transition c with
  | DtAcceptancePending => ci_bytes (bytes_of_string "acceptance_pending")
  | DtAcceptanceUnknown => ci_bytes (bytes_of_string "acceptance_unknown")
  | DtRetryAfter delay => ci_bytes (bytes_of_string "retry_after") ++ ci_u64 (saturated_millis delay)
  | DtAccepted proof => ci_bytes (bytes_of_string "accepted") ++ ci_fixed proof
  | DtUncertain reason => ci_bytes (bytes_of_string "uncertain") ++ ci_bytes (bytes_of_string (as_str reason))
  | DtDeadLetter reason =>
      ci_bytes (bytes_of_string "dead_letter") ++ ci_bytes (bytes_of_string (as_str reason))
  end.
#[global] Instance TransitionMessageDelivery_request `{!Sha256} : MutableRequest TransitionMessageDelivery := {|
  mr_context := td_context;
  mr_action _ := ActTransitionMessageDelivery;
  mr_digest c := ci_finish (transition_input c) ActTransitionMessageDelivery;
|}.
