(* ===== verification/OperationApi.v ===== *)
(** * OperationApi: commands on launches, participants and operations

    Models the launch, participant and operation commands of
    crates/navigator-store-api/src/lib.rs, with the canonical input each is identified
    by, and the participant policies of crates/navigator-store-api/src/authority.rs. *)
From S2P Require Import Prelude Scalars Session Authority Operation RecoveryTable Json StoreApi Approval Template Message.

(** ** Launches *)

Definition launch_state_name (s : LaunchState) : string :=
  match s with
  | LPrepared => "prepared" | LAttached => "attached" | LReady => "ready" | LStopping => "stopping"
  | LStopped => "stopped" | LCleanupRequired => "cleanup_required"
  end.

Record ProcessEvidence := MkEvidence {
  pe_process_id : Z;
  pe_process_group_id : Z;
  pe_parent_process_id : Z;
  pe_creation_marker : Z;
  pe_executable_identity : bytes;
}.
#[global] Instance ProcessEvidence_eq_dec : EqDecision ProcessEvidence.
Proof. solve_decision. Defined.

Record LaunchSnapshot := MkLaunch {
  lu_session_id : SessionId;
  lu_ownership_epoch : option FencingEpoch;
  lu_participant_id : ParticipantId;
  lu_driver_id : DriverId;
  lu_driver_configuration_digest : bytes;
  lu_attempt_id : LaunchAttemptId;
  lu_instance_id : option InstanceId;
  lu_state : LaunchState;
  lu_revision : Revision;
  lu_credential_digest : bytes;
  lu_evidence : option ProcessEvidence;
  lu_cleanup_reason : option (BoundedText 1024);
}.
#[global] Instance LaunchSnapshot_eq_dec : EqDecision LaunchSnapshot.
Proof. solve_decision. Defined.

Record PrepareLaunch := MkPrepareLaunch {
  pl_context : RequestContext;
  pl_epoch : FencingEpoch;
  pl_session_id : SessionId;
  pl_participant_id : ParticipantId;
  pl_driver_id : DriverId;
  pl_driver_configuration_digest : bytes;
  pl_attempt_id : LaunchAttemptId;
  pl_credential_digest : bytes;
}.
Definition prepare_launch_input (c : PrepareLaunch) : bytes :=
  ci_identity (as_uuid (pl_session_id c)) ++ ci_identity (as_uuid (pl_participant_id c)) ++
  ci_identity (as_uuid (pl_driver_id c)) ++ ci_fixed (pl_driver_configuration_digest c) ++
  ci_identity (as_uuid (pl_attempt_id c)) ++ ci_u64 (FencingEpoch_get (pl_epoch c)) ++
  ci_fixed (pl_credential_digest c).
#[global] Instance PrepareLaunch_request `{!Sha256} : MutableRequest PrepareLaunch := {|
  mr_context := pl_context;
  mr_action _ := ActPrepareLaunch;
  mr_digest c := ci_finish (prepare_launch_input c) ActPrepareLaunch;
|}.

Record AttachLaunch := MkAttachLaunch {
  al_context : RequestContext;
  al_session_id : SessionId;
  al_epoch : FencingEpoch;
  al_attempt_id : LaunchAttemptId;
  al_expected_revision : Revision;
  al_instance_id : InstanceId;
  al_evidence : ProcessEvidence;
}.
Definition attach_launch_input (c : AttachLaunch) : bytes :=
  ci_identity (as_uuid (al_session_id c)) ++ ci_identity (as_uuid (al_attempt_id c)) ++
  ci_identity (as_uuid (al_instance_id c)) ++ ci_u64 (FencingEpoch_get (al_epoch c)) ++
  ci_u64 (Revision_get (al_expected_revision c)) ++ ci_u64 (pe_process_id (al_evidence c)) ++
  ci_u64 (pe_process_group_id (al_evidence c)) ++ ci_u64 (pe_parent_process_id (al_evidence c)) ++
  ci_u64 (pe_creation_marker (al_evidence c)) ++ ci_fixed (pe_executable_identity (al_evidence c)).
#[global] Instance AttachLaunch_request `{!Sha256} : MutableRequest AttachLaunch := {|
  mr_context := al_context;
  mr_action _ := ActAttachLaunch;
  mr_digest c := ci_finish (attach_launch_input c) ActAttachLaunch;
|}.

Record TransitionLaunch := MkTransitionLaunch {
  tn_context : RequestContext;
  tn_session_id : SessionId;
  tn_epoch : FencingEpoch;
  tn_attempt_id : LaunchAttemptId;
  tn_expected_revision : Revision;
  tn_target : LaunchState;
  tn_cleanup_reason : option (BoundedText 1024);
}.
Definition transition_launch_input (c : TransitionLaunch) : bytes :=
  ci_identity (as_uuid (tn_session_id c)) ++ ci_identity (as_uuid (tn_attempt_id c)) ++
  ci_u64 (FencingEpoch_get (tn_epoch c)) ++ ci_u64 (Revision_get (tn_expected_revision c)) ++
  ci_bytes (bytes_of_string (launch_state_name (tn_target c))) ++
  match tn_cleanup_reason c with Some r => ci_bytes (bytes_of_string (as_str r)) | None => [] end.
#[global] Instance TransitionLaunch_request `{!Sha256} : MutableRequest TransitionLaunch := {|
  mr_context := tn_context;
  mr_action _ := ActTransitionLaunch;
  mr_digest c := ci_finish (transition_launch_input c) ActTransitionLaunch;
|}.

(** ** Participants *)

Record ParticipantSnapshot := MkParticipant {
  ps_session_id : SessionId;
  ps_participant_id : ParticipantId;
  ps_parent_participant_id : option ParticipantId;
  ps_depth : Z;
  ps_template_id : TemplateId;
  ps_template_compatibility : CompatibilityIdentity;
  ps_revision : Revision;
}.
#[global] Instance ParticipantSnapshot_eq_dec : EqDecision ParticipantSnapshot.
Proof. solve_decision. Defined.

Definition MAX_PARTICIPANT_DEPTH : Z := 8.
Definition MAX_DIRECT_CHILDREN : Z := 64.
Definition MAX_SESSION_PARTICIPANTS : Z := 1024.

Record CreateRootParticipant := MkCreateRoot {
  cr_context : RequestContext;
  cr_session_id : SessionId;
  cr_epoch : FencingEpoch;
  cr_participant_id : ParticipantId;
  cr_template_id : TemplateId;
  cr_expected_compatibility : CompatibilityIdentity;
}.
Definition create_root_input (c : CreateRootParticipant) : bytes :=
  ci_identity (as_uuid (cr_session_id c)) ++ ci_identity (as_uuid (cr_template_id c)) ++
  ci_fixed (Compat_as_bytes (cr_expected_compatibility c)).
#[global] Instance CreateRootParticipant_request `{!Sha256} : MutableRequest CreateRootParticipant := {|
  mr_context := cr_context;
  mr_action _ := ActCreateRootParticipant;
  mr_digest c := ci_finish (create_root_input c) ActCreateRootParticipant;
|}.

Record CreateChildParticipant := MkCreateChild {
  cc_context : RequestContext;
  cc_session_id : SessionId;
  cc_epoch : FencingEpoch;
  cc_participant_id : ParticipantId;
  cc_parent_participant_id : ParticipantId;
  cc_template_id : TemplateId;
  cc_expected_compatibility : CompatibilityIdentity;
}.
Definition create_child_input (c : CreateChildParticipant) : bytes :=
  ci_identity (as_uuid (cc_session_id c)) ++ ci_identity (as_uuid (cc_parent_participant_id c)) ++
  ci_identity (as_uuid (cc_template_id c)) ++ ci_fixed (Compat_as_bytes (cc_expected_compatibility c)).
#[global] Instance CreateChildParticipant_request `{!Sha256} : MutableRequest CreateChildParticipant := {|
  mr_context := cc_context;
  mr_action _ := ActCreateChildParticipant;
  mr_digest c := ci_finish (create_child_input c) ActCreateChildParticipant;
|}.

(** ** Operations *)

Record OperationSnapshot := MkOperationSnapshot {
  on_session_id : SessionId;
  on_operation_id : OperationId;
  on_participant_id : ParticipantId;
  on_start_request_id : RequestId;
  on_input_message_id : MessageId;
  on_waiting_on_message_id : option MessageId;
  on_input_digest : bytes;
  on_state : OperationState;
  on_revision : Revision;
  on_terminal_outcome : option OperationTerminalOutcome;
  on_created_at : Timestamp;
  on_updated_at : Timestamp;
}.

Definition MAX_OPERATION_INPUT_BYTES : Z := 65536.

Record StartOperation := MkStartOperation {
  so_context : RequestContext;
  so_session_id : SessionId;
  so_epoch : FencingEpoch;
  so_operation_id : OperationId;
  so_participant_id : ParticipantId;
  so_input_message_id : MessageId;
  so_input : ValidatedTaskInput;
}.
Definition start_operation_input (c : StartOperation) : bytes :=
  ci_identity (as_uuid (so_session_id c)) ++ ci_identity (as_uuid (so_participant_id c)) ++
  ci_bytes (TaskInput_as_bytes (so_input c)).
#[global] Instance StartOperation_request `{!Sha256} : MutableRequest StartOperation := {|
  mr_context := so_context;
  mr_action _ := ActStartOperation;
  mr_digest c := ci_finish (start_operation_input c) ActStartOperation;
|}.

Record TransitionOperation := MkTransitionOperation {
  to_context : RequestContext;
  to_session_id : SessionId;
  to_epoch : FencingEpoch;
  to_operation_id : OperationId;
  to_expected_revision : Revision;
  to_action : OperationAction;
  to_report_message_id : option MessageId;
  to_terminal_outcome : option OperationTerminalOutcome;
}.
Definition operation_action_name (a : OperationAction) : string :=
  match a with
  | BeginStart => "begin_start" | ReportRunning => "report_running" | Wait => "wait" | Resume => "resume"
  | RequestCancel => "request_cancel" | ReportSuccess => "report_success" | ReportFailure => "report_failure"
  | ReportCancelled => "report_cancelled" | ReportBlocked => "report_blocked"
  | ReportUncertain => "report_uncertain" | ObserveIdle => "observe_idle"
  end.
Definition ci_text (s : string) : bytes := ci_bytes (bytes_of_string s).
Definition outcome_input (o : OperationTerminalOutcome) : bytes :=
  match o with
  | OutSucceeded result => ci_text "succeeded" ++ ci_bytes (as_slice result)
  | OutFailed code detail => ci_text "failed" ++ ci_text (as_str code) ++ ci_text (as_str detail)
  | OutCancelled => ci_text "cancelled"
  | OutBlocked reason => ci_text "blocked" ++ ci_text (as_str reason)
  | OutUncertain reason => ci_text "uncertain" ++ ci_text (as_str reason)
  end.
Definition transition_operation_input (c : TransitionOperation) : bytes :=
  ci_identity (as_uuid (to_session_id c)) ++ ci_identity (as_uuid (to_operation_id c)) ++
  ci_u64 (FencingEpoch_get (to_epoch c)) ++ ci_u64 (Revision_get (to_expected_revision c)) ++
  ci_text (operation_action_name (to_action c)) ++
  match to_report_message_id c with Some m => ci_identity (as_uuid m) | None => [] end ++
  match to_terminal_outcome c with Some o => outcome_input o | None => [] end.
#[global] Instance TransitionOperation_request `{!Sha256} : MutableRequest TransitionOperation := {|
  mr_context := to_context;
  mr_action _ := ActTransitionOperation;
  mr_digest c := ci_finish (transition_operation_input c) ActTransitionOperation;
|}.

(** ** Participant policies *)

Record AuthorityPolicySnapshot := MkPolicy {
  py_session_id : SessionId;
  py_participant_id : ParticipantId;
  py_session : AuthorityProfile;
  py_parent : AuthorityProfile;
  py_template : AuthorityProfile;
  py_relationship : AuthorityProfile;
  py_subject : AuthorityProfile;
}.
#[global] Instance AuthorityPolicySnapshot_eq_dec : EqDecision AuthorityPolicySnapshot.
Proof. solve_decision. Defined.
Definition policy_ceilings (p : AuthorityPolicySnapshot) : AuthorityCeilings :=
  MkCeilings (py_session p) (py_parent p) (py_template p) (py_relationship p) (py_subject p).

(** ** Opening a session together with its templates *)

Record RegisterTemplatesAndOpenSession := MkRegisterOpen {
  ro_open : OpenSession;
  ro_templates : list TemplateRecord;
}.

Definition same_binding (b : TemplateCompatibilityBinding) (t : TemplateRecord) : bool :=
  bool_decide (tb_template_id b = tr_identity t) && bool_decide (tb_compatibility b = tr_compatibility t).
Fixpoint adjacent_identities (templates : list TemplateRecord) : bool :=
  match templates with
  | a :: ((b :: _) as rest) => bool_decide (tr_identity a = tr_identity b) || adjacent_identities rest
  | _ => false
  end.

Section register.
Context {SH : Sha256} {JS : Json} {UT : UuidText}.

Definition RegisterTemplatesAndOpenSession_new (open : OpenSession) (templates : list TemplateRecord) :
    result StoreError RegisterTemplatesAndOpenSession :=
  let templates := sort_by_key tr_identity Id_le templates in
  if bool_decide (templates = []) || adjacent_identities templates
     || existsb (fun t => negb (is_ok (Template_try_from t))) templates
  then Err Invalid else
  let exact := match os_manifest open with
    | Some manifest => (llen (m_templates manifest) =? llen templates)
                       && forallb (fun p => same_binding p.1 p.2) (zip (m_templates manifest) templates)
    | None => match templates with
              | [t] => bool_decide (tr_compatibility t = os_compatibility open) | _ => false end
    end in
  if negb exact then Err Invalid else Ok (MkRegisterOpen open templates).

Definition register_open_input (c : RegisterTemplatesAndOpenSession) : bytes :=
  (if bool_decide (os_mode (ro_open c) = ModeExact) then ci_identity (as_uuid (os_session_id (ro_open c))) else [])
  ++ ci_bytes (bytes_of_string (as_str (os_consumer_key (ro_open c))))
  ++ ci_fixed (Compat_as_bytes (os_compatibility (ro_open c)))
  ++ ci_fixed (sd_bytes (mr_digest (ro_open c)))
  ++ ci_u64 (llen (ro_templates c))
  ++ concat ((fun t => ci_identity (as_uuid (tr_identity t)) ++ ci_fixed (Compat_as_bytes (tr_compatibility t)))
       <$> ro_templates c).
#[global] Instance RegisterTemplatesAndOpenSession_request : MutableRequest RegisterTemplatesAndOpenSession := {|
  mr_context c := os_context (ro_open c);
  mr_action _ := ActOpenSession;
  mr_digest c := ci_finish (register_open_input c) ActOpenSession;
|}.
End register.
