(* ===== verification/ToolApi.v ===== *)
(** * ToolApi: commands on tools and their invocations

    Models crates/navigator-store-api/src/tool.rs: registrations, provider connections,
    dispatches, the persisted projection of an invocation, and the four commands with
    the canonical input each is identified by.  The values of
    crates/navigator-domain/src/tool.rs that enter a digest are given as the JSON their
    derived serializers write. *)
From S2P Require Import Prelude Scalars Session Authority RecoveryTable Artifact Json Tool StoreApi Approval Template Message.

Abbreviation ToolRegistrationId := (Id KToolRegistration).
Abbreviation ToolProviderId := (Id KToolProvider).
Abbreviation ToolConnectionId := (Id KToolConnection).
Abbreviation ToolDispatchId := (Id KToolDispatch).
Abbreviation ToolCancellationId := (Id KToolCancellation).

(** ** Decidable equality of the domain's tool values *)

#[global] Instance ToolCancellation_eq_dec : EqDecision ToolCancellation.
Proof. solve_decision. Defined.
#[global] Instance IdempotencyContract_eq_dec : EqDecision IdempotencyContract.
Proof. solve_decision. Defined.
#[global] Instance ToolTimeout_eq_dec : EqDecision ToolTimeout.
Proof. solve_decision. Defined.
#[global] Instance ToolDefinition_eq_dec : EqDecision ToolDefinition.
Proof. solve_decision. Defined.
#[global] Instance ToolInvocation_eq_dec : EqDecision ToolInvocation.
Proof. solve_decision. Defined.
#[global] Instance ToolFailureKind_eq_dec : EqDecision ToolFailureKind.
Proof. solve_decision. Defined.
#[global] Instance ToolFailure_eq_dec : EqDecision ToolFailure.
Proof. solve_decision. Defined.
#[global] Instance ToolResult_eq_dec : EqDecision ToolResult.
Proof. solve_decision. Defined.

(** ** Serialized tool values *)

(** [std::str::from_utf8]: the text whose bytes these are. *)
Definition text_of_bytes (b : bytes) : string := string_of_list_ascii ((fun x => ascii_of_nat (Z.to_nat x)) <$> b).

Definition cancellation_name (c : ToolCancellation) : string :=
  match c with Cooperative => "cooperative" | UnsupportedCancellation => "unsupported" end.
Definition idempotency_name (i : IdempotencyContract) : string :=
  match i with
  | NoExternalEffect => "no_external_effect" | InvocationIdentity => "invocation_identity"
  | ExternalTransactionProof => "external_transaction_proof" | NeverReplay => "never_replay"
  end.
Definition effect_class_name (c : EffectClass) : string :=
  match c with
  | ReadOnly => "read_only" | Idempotent => "idempotent" | Transactional => "transactional"
  | NonIdempotent => "non_idempotent" | UnknownClass => "unknown"
  end.
Definition failure_kind_name (k : ToolFailureKind) : string :=
  match k with
  | InvalidInput => "invalid_input" | InvalidOutput => "invalid_output" | Unauthorized => "unauthorized"
  | TimedOut => "timed_out" | ToolCancelled => "cancelled" | ProviderUnavailable => "provider_unavailable"
  | HandlerFailed => "handler_failed" | ToolEffectUncertain => "effect_uncertain"
  end.

Section json.
Context {UT : UuidText}.
Local Open Scope string_scope.

Definition json_canonical {MAX} (c : CanonicalJson MAX) : Value := VString (text_of_bytes (cj_as_bytes c)).

Definition definition_json (d : ToolDefinition) : Value :=
  VObject
    [("name", VString (as_str (td_name d))); ("version", VString (as_str (td_version d)));
     ("input_schema", json_canonical (td_input_schema d)); ("output_schema", json_canonical (td_output_schema d));
     ("required_authority", VString (Capability_as_str (td_required_authority d)));
     ("timeout", json_u64 (Tool.as_millis (td_timeout d)));
     ("cancellation", VString (cancellation_name (td_cancellation d)));
     ("effect_class", VString (effect_class_name (td_effect_class d)));
     ("idempotency", VString (idempotency_name (td_idempotency d)));
     ("requires_approval", VBool (td_requires_approval d))].

Definition invocation_json (i : ToolInvocation) : Value :=
  VObject
    [("invocation_id", json_id (ti_invocation_id i)); ("request_id", json_id (ti_request_id i));
     ("session_id", json_id (ti_session_id i)); ("participant_id", json_id (ti_participant_id i));
     ("operation_id", json_id (ti_operation_id i)); ("tool_name", VString (as_str (ti_tool_name i)));
     ("tool_version", VString (as_str (ti_tool_version i))); ("input", json_canonical (ti_input i));
     ("authority_grant_id", json_option json_id (ti_authority_grant_id i));
     ("approval_grant_id", json_option json_id (ti_approval_grant_id i));
     ("approval_effect_id", json_option json_id (ti_approval_effect_id i))].

Definition artifact_ref_json (a : ArtifactRef) : Value :=
  VObject
    [("artifact_id", json_id (ar_artifact_id a)); ("session_id", json_id (Artifact.ar_session_id a));
     ("creator_participant_id", json_id (ar_creator_participant_id a));
     ("creator_operation_id", json_id (ar_creator_operation_id a));
     ("media_type", VString (as_str (ar_media_type a))); ("size", json_u64 (ar_size a));
     ("digest", json_bytes (artifact_digest_bytes (Artifact.ar_digest a)))].
Definition result_json (r : ToolResult) : Value :=
  VObject [("invocation_id", json_id (tr_invocation_id r)); ("output", json_canonical (tr_output r));
           ("artifacts", VArray (artifact_ref_json <$> tr_artifacts r))].
Definition failure_json (f : ToolFailure) : Value :=
  VObject [("invocation_id", json_id (tf_invocation_id f)); ("kind", VString (failure_kind_name (tf_kind f)));
           ("message", VString (as_str (tf_message f))); ("retryable", VBool (tf_retryable f))].
End json.

(** ** Registrations *)

Definition MAX_TOOL_REGISTRATIONS : Z := 64.

Record ToolRegistrationSnapshot := MkRegistration {
  rg_registration_id : ToolRegistrationId;
  rg_session_id : SessionId;
  rg_consumer_key : ConsumerKey;
  rg_definition : ToolDefinition;
  rg_revision : Revision;
  rg_registered_at : Timestamp;
}.
#[global] Instance ToolRegistrationSnapshot_eq_dec : EqDecision ToolRegistrationSnapshot.
Proof. solve_decision. Defined.

Record RegisterTool := MkRegisterTool {
  rt_context : RequestContext;
  rt_session_id : SessionId;
  rt_owner_epoch : FencingEpoch;
  rt_consumer_key : ConsumerKey;
  rt_registration_id : ToolRegistrationId;
  rt_definition : ToolDefinition;
}.
Definition register_tool_input {JS : Json} (c : RegisterTool) : bytes :=
  ci_identity (as_uuid (rt_session_id c)) ++ ci_identity (as_uuid (rt_registration_id c)) ++
  ci_u64 (FencingEpoch_get (rt_owner_epoch c)) ++ ci_bytes (bytes_of_string (as_str (rt_consumer_key c))) ++
  ci_bytes (to_vec (definition_json (rt_definition c))).
#[global] Instance RegisterTool_request {SH : Sha256} {JS : Json} : MutableRequest RegisterTool := {|
  mr_context := rt_context;
  mr_action _ := ActRegisterTool;
  mr_digest c := ci_finish (register_tool_input c) ActRegisterTool;
|}.

(** ** Provider connections *)

Record ToolProviderConnectionSnapshot := MkConnection {
  pv_session_id : SessionId;
  pv_consumer_key : ConsumerKey;
  pv_provider_id : ToolProviderId;
  pv_connection_id : ToolConnectionId;
  pv_registration_ids : list ToolRegistrationId;
  pv_generation : Z;
  pv_acknowledged_server_sequence : Z;
  pv_next_server_sequence : Z;
  pv_connected_at : Timestamp;
}.
#[global] Instance ToolProviderConnectionSnapshot_eq_dec : EqDecision ToolProviderConnectionSnapshot.
Proof. solve_decision. Defined.

(** [Vec::dedup]: of each run of equal elements, the first. *)
Fixpoint vec_dedup {A} `{EqDecision A} (l : list A) : list A :=
  match l with
  | a :: ((b :: _) as rest) => if bool_decide (a = b) then vec_dedup rest else a :: vec_dedup rest
  | _ => l
  end.
(** [ids.sort(); ids.dedup()]. *)
Definition sorted_ids {k} (ids : list (Id k)) : list (Id k) := vec_dedup (sort_by_key id Id_le ids).

Definition is_structurally_valid (c : ToolProviderConnectionSnapshot) : bool :=
  (0 <? pv_generation c) && (pv_acknowledged_server_sequence c <? pv_next_server_sequence c)
  && negb (bool_decide (pv_registration_ids c = []))
  && (llen (pv_registration_ids c) <=? MAX_TOOL_REGISTRATIONS)
  && bool_decide (pv_registration_ids c = sorted_ids (pv_registration_ids c)).

Record ConnectToolProvider := MkConnect {
  cp_context : RequestContext;
  cp_session_id : SessionId;
  cp_owner_epoch : FencingEpoch;
  cp_consumer_key : ConsumerKey;
  cp_provider_id : ToolProviderId;
  cp_connection_id : ToolConnectionId;
  cp_after_server_sequence : Z;
  cp_registration_ids : list ToolRegistrationId;
}.
Definition connect_input (c : ConnectToolProvider) : bytes :=
  ci_identity (as_uuid (cp_session_id c)) ++ ci_u64 (FencingEpoch_get (cp_owner_epoch c)) ++
  ci_bytes (bytes_of_string (as_str (cp_consumer_key c))) ++ ci_identity (as_uuid (cp_provider_id c)) ++
  ci_identity (as_uuid (cp_connection_id c)) ++ ci_u64 (cp_after_server_sequence c) ++
  concat ((fun i => ci_identity (as_uuid i)) <$> sort_by_key id Id_le (cp_registration_ids c)).
#[global] Instance ConnectToolProvider_request {SH : Sha256} : MutableRequest ConnectToolProvider := {|
  mr_context := cp_context;
  mr_action _ := ActConnectToolProvider;
  mr_digest c := ci_finish (connect_input c) ActConnectToolProvider;
|}.

(** ** Invocations *)

Record ReserveToolInvocation := MkReserveTool {
  ri_context : RequestContext;
  ri_owner_epoch : FencingEpoch;
  ri_invocation : ToolInvocation;
  ri_dispatch_id : ToolDispatchId;
  ri_provider_id : ToolProviderId;
  ri_registration_id : ToolRegistrationId;
  ri_deadline : Timestamp;
  ri_lease_duration : Duration;
}.
Definition reserve_tool_input {JS : Json} {UT : UuidText} (c : ReserveToolInvocation) : bytes :=
  ci_bytes (to_vec (invocation_json (ri_invocation c))) ++ ci_identity (as_uuid (ri_dispatch_id c)) ++
  ci_identity (as_uuid (ri_provider_id c)) ++ ci_identity (as_uuid (ri_registration_id c)) ++
  ci_fixed (be_bytes 8 (unix_seconds (ri_deadline c) mod 2 ^ 64)) ++ ci_u64 (nanoseconds (ri_deadline c)) ++
  ci_u64 (FencingEpoch_get (ri_owner_epoch c)) ++ ci_u64 (saturated_millis (ri_lease_duration c)).
#[global] Instance ReserveToolInvocation_request {SH : Sha256} {JS : Json} {UT : UuidText} :
  MutableRequest ReserveToolInvocation := {|
  mr_context := ri_context;
  mr_action _ := ActReserveToolInvocation;
  mr_digest c := ci_finish (reserve_tool_input c) ActReserveToolInvocation;
|}.

Inductive ToolTransition :=
| TtStart
| TtComplete (result : ToolResult)
| TtFail (failure : ToolFailure)
| TtMarkUncertain
| TtRequestCancel (cancellation_id : ToolCancellationId).
#[global] Instance ToolTransition_eq_dec : EqDecision ToolTransition.
Proof. solve_decision. Defined.

Definition transition_json {UT : UuidText} (t : ToolTransition) : Value :=
  match t with
  | TtStart => VString "start"
  | TtComplete result => VObject [("complete"%string, result_json result)]
  | TtFail failure => VObject [("fail"%string, failure_json failure)]
  | TtMarkUncertain => VString "mark_uncertain"
  | TtRequestCancel cancellation_id =>
      VObject [("request_cancel"%string, VObject [("cancellation_id"%string, json_id cancellation_id)])]
  end.

Record ToolDispatchSnapshot := MkDispatch {
  dp_dispatch_id : ToolDispatchId;
  dp_provider_id : ToolProviderId;
  dp_server_sequence : Z;
  dp_deadline : Timestamp;
  dp_connection_id : option ToolConnectionId;
  dp_connection_generation : option Z;
  dp_cancellation_id : option ToolCancellationId;
  dp_cancellation_server_sequence : option Z;
  dp_terminal_digest : option SemanticDigest;
}.
#[global] Instance ToolDispatchSnapshot_eq_dec : EqDecision ToolDispatchSnapshot.
Proof. solve_decision. Defined.

Definition structurally_valid (d : ToolDispatchSnapshot) : bool :=
  (0 <? dp_server_sequence d)
  && negb (bool_decide (dp_connection_generation d = Some 0))
  && Bool.eqb (is_some (dp_connection_id d)) (is_some (dp_connection_generation d))
  && Bool.eqb (is_some (dp_cancellation_id d)) (is_some (dp_cancellation_server_sequence d))
  && match dp_cancellation_server_sequence d with Some v => dp_server_sequence d <? v | None => true end.

Record TransitionToolInvocation := MkTransitionTool {
  tt_context : RequestContext;
  tt_invocation_id : ToolInvocationId;
  tt_owner_epoch : FencingEpoch;
  tt_expected_revision : Revision;
  tt_transition : ToolTransition;
  tt_provider_id : ToolProviderId;
  tt_connection_id : ToolConnectionId;
  tt_connection_generation : Z;
  tt_dispatch_id : ToolDispatchId;
  tt_server_sequence : Z;
}.
Definition transition_tool_input {JS : Json} {UT : UuidText} (c : TransitionToolInvocation) : bytes :=
  ci_identity (as_uuid (tt_invocation_id c)) ++ ci_u64 (FencingEpoch_get (tt_owner_epoch c)) ++
  ci_u64 (Revision_get (tt_expected_revision c)) ++ ci_bytes (to_vec (transition_json (tt_transition c))) ++
  ci_identity (as_uuid (tt_provider_id c)) ++ ci_identity (as_uuid (tt_connection_id c)) ++
  ci_u64 (tt_connection_generation c) ++ ci_identity (as_uuid (tt_dispatch_id c)) ++ ci_u64 (tt_server_sequence c).
#[global] Instance TransitionToolInvocation_request {SH : Sha256} {JS : Json} {UT : UuidText} :
  MutableRequest TransitionToolInvocation := {|
  mr_context := tt_context;
  mr_action _ := ActTransitionToolInvocation;
  mr_digest c := ci_finish (transition_tool_input c) ActTransitionToolInvocation;
|}.

Inductive ToolInvocationPhase := TpReserved | TpStarted | TpUncertain | TpCompleted | TpFailed.
#[global] Instance ToolInvocationPhase_eq_dec : EqDecision ToolInvocationPhase.
Proof. solve_decision. Defined.

Inductive ToolTerminal := TtmCompleted (result : ToolResult) | TtmFailed (failure : ToolFailure).
#[global] Instance ToolTerminal_eq_dec : EqDecision ToolTerminal.
Proof. solve_decision. Defined.
Definition tool_terminal_json {UT : UuidText} (t : ToolTerminal) : Value :=
  match t with
  | TtmCompleted result => VObject [("kind"%string, VString "completed"); ("value"%string, result_json result)]
  | TtmFailed failure => VObject [("kind"%string, VString "failed"); ("value"%string, failure_json failure)]
  end.

(** The persisted projection; the columns hold its wire form, which is the same
    fields, and reading one back runs [ToolInvocationSnapshot_new] on them. *)
Record ToolInvocationSnapshot := MkToolSnapshot {
  tv_registration_id : ToolRegistrationId;
  tv_definition : ToolDefinition;
  tv_invocation : ToolInvocation;
  tv_phase : ToolInvocationPhase;
  tv_terminal : option ToolTerminal;
  tv_revision : Revision;
  tv_dispatch : ToolDispatchSnapshot;
}.
#[global] Instance ToolInvocationSnapshot_eq_dec : EqDecision ToolInvocationSnapshot.
Proof. solve_decision. Defined.

Inductive ToolSnapshotError :=
| IdentityMismatch | PhaseTerminalMismatch | DefinitionMismatch | ArtifactCreatorMismatch | InvalidDispatch.

Definition terminal_invocation (t : ToolTerminal) : ToolInvocationId :=
  match t with TtmCompleted r => tr_invocation_id r | TtmFailed f => tf_invocation_id f end.
Definition foreign_artifact (i : ToolInvocation) (a : ArtifactRef) : bool :=
  negb (bool_decide (Artifact.ar_session_id a = ti_session_id i))
  || negb (bool_decide (ar_creator_participant_id a = ti_participant_id i))
  || negb (bool_decide (ar_creator_operation_id a = ti_operation_id i)).
Definition terminal_matches_phase (phase : ToolInvocationPhase) (terminal : option ToolTerminal) : bool :=
  match phase, terminal with
  | (TpReserved | TpStarted | TpUncertain), None => true
  | TpCompleted, Some (TtmCompleted _) => true
  | TpFailed, Some (TtmFailed _) => true
  | _, _ => false
  end.

Definition ToolInvocationSnapshot_new (registration_id : ToolRegistrationId) (definition : ToolDefinition)
    (invocation : ToolInvocation) (phase : ToolInvocationPhase) (terminal : option ToolTerminal)
    (revision : Revision) (dispatch : ToolDispatchSnapshot) : result ToolSnapshotError ToolInvocationSnapshot :=
  if negb (structurally_valid dispatch) then Err InvalidDispatch else
  if match terminal with
     | Some t => negb (bool_decide (terminal_invocation t = ti_invocation_id invocation)) | None => false end
  then Err IdentityMismatch else
  if match terminal with
     | Some (TtmCompleted r) => existsb (foreign_artifact invocation) (tr_artifacts r) | _ => false end
  then Err ArtifactCreatorMismatch else
  if negb (terminal_matches_phase phase terminal) then Err PhaseTerminalMismatch else
  if negb (bool_decide (as_str (td_name definition) = as_str (ti_tool_name invocation)))
     || negb (bool_decide (as_str (td_version definition) = as_str (ti_tool_version invocation)))
  then Err DefinitionMismatch
  else Ok (MkToolSnapshot registration_id definition invocation phase terminal revision dispatch).
Definition ToolInvocationSnapshot_try_from (v : ToolInvocationSnapshot) : result ToolSnapshotError ToolInvocationSnapshot :=
  ToolInvocationSnapshot_new (tv_registration_id v) (tv_definition v) (tv_invocation v) (tv_phase v) (tv_terminal v)
    (tv_revision v) (tv_dispatch v).

(** A projection reads back exactly when its parts fit together. *)
Definition snapshot_wf (v : ToolInvocationSnapshot) : Prop :=
  structurally_valid (tv_dispatch v) = true /\
  (forall t, tv_terminal v = Some t -> terminal_invocation t = ti_invocation_id (tv_invocation v)) /\
  (forall r, tv_terminal v = Some (TtmCompleted r) ->
     existsb (foreign_artifact (tv_invocation v)) (tr_artifacts r) = false) /\
  terminal_matches_phase (tv_phase v) (tv_terminal v) = true /\
  as_str (td_name (tv_definition v)) = as_str (ti_tool_name (tv_invocation v)) /\
  as_str (td_version (tv_definition v)) = as_str (ti_tool_version (tv_invocation v)).
Lemma snapshot_new_Ok rid def inv phase term rev disp v :
  ToolInvocationSnapshot_new rid def inv phase term rev disp = Ok v <->
  v = MkToolSnapshot rid def inv phase term rev disp /\ snapshot_wf v.
Proof.
  unfold ToolInvocationSnapshot_new, snapshot_wf. split.
  - intros H. case_if_in H as E1; [done|]. case_if_in H as E2; [done|]. case_if_in H as E3; [done|].
    case_if_in H as E4; [done|]. case_if_in H as E5; [done|]. injection H as <-. bool_norm. cbn in *.
    split_and!; try done.
    + intros t ->. by bool_norm.
    + by intros r ->.
  - intros (-> & H1 & H2 & H3 & H4 & H5 & H6). cbn in *. rewrite H1, H4, H5, H6, !bool_decide_true by done. cbn [negb orb].
    destruct term as [t|]; [|done]. rewrite (H2 t), bool_decide_true by done. cbn [negb].
    destruct t as [r|f]; [|done]. by rewrite (H3 r).
Qed.
Lemma snapshot_try_from_Ok v : ToolInvocationSnapshot_try_from v = Ok v <-> snapshot_wf v.
Proof. unfold ToolInvocationSnapshot_try_from. rewrite snapshot_new_Ok. destruct v; cbn. naive_solver. Qed.
Lemma snapshot_try_from_eq v v' : ToolInvocationSnapshot_try_from v = Ok v' -> v' = v /\ snapshot_wf v.
Proof. unfold ToolInvocationSnapshot_try_from. intros [-> H]%snapshot_new_Ok. by destruct v. Qed.
