(* ===== verification/EffectApi.v ===== *)
(** * EffectApi: the effect journal's commands

    Models crates/navigator-store-api/src/effect_journal.rs: journal entries and what
    recovery may do with them, the contract that says which proofs resolve an uncertain
    effect, and the commands with the digests that identify them; and the grants and
    decisions of crates/navigator-store-api/src/authority.rs the journal uses. *)
From S2P Require Import Prelude Scalars Session Authority RecoveryTable Json StoreApi Approval Template Message.
From S2P Require Import OperationApi ToolApi.

Definition MAX_EFFECT_RESULT_BYTES : Z := 65536.
Definition MAX_EFFECT_FAILURE_ID_BYTES : Z := 256.

(** ** Resolution contracts *)

Record EffectResolutionContract := MkContract {
  allow_confirm_completed : bool;
  allow_do_not_retry : bool;
  allow_retry_with_proof : bool;
  allowed_proof_kinds : list EffectProofKind;
}.
#[global] Instance EffectResolutionContract_eq_dec : EqDecision EffectResolutionContract.
Proof. solve_decision. Defined.

Definition conservative : EffectResolutionContract := MkContract true true false [ExternalCommit].

Definition proof_kind_rank (k : EffectProofKind) : Z :=
  match k with ExternalCommit => 0 | IdempotencyReceipt => 1 | EffectAbsent => 2 end.
Definition rank_le (a b : Z) : Prop := a <= b.
#[global] Instance rank_le_dec : RelDecision rank_le.
Proof. intros a b. unfold rank_le. apply _. Defined.
Definition is_completion_proof (k : EffectProofKind) : bool :=
  match k with ExternalCommit | IdempotencyReceipt => true | EffectAbsent => false end.
Definition kind_in (k : EffectProofKind) (l : list EffectProofKind) : bool := existsb (fun x => bool_decide (x = k)) l.

Definition contract_is_valid (c : EffectResolutionContract) : bool :=
  let kinds := vec_dedup (sort_by_key proof_kind_rank rank_le (allowed_proof_kinds c)) in
  (allow_confirm_completed c || allow_do_not_retry c || allow_retry_with_proof c)
  && (llen kinds =? llen (allowed_proof_kinds c))
  && (llen kinds <=? 3)
  && (negb (allow_confirm_completed c) || existsb is_completion_proof kinds)
  && (negb (allow_retry_with_proof c) || kind_in EffectAbsent kinds).

Definition allows_completion_proof (c : EffectResolutionContract) (k : EffectProofKind) : bool :=
  allow_confirm_completed c && is_completion_proof k && kind_in k (allowed_proof_kinds c).
Definition allows_retry_proof (c : EffectResolutionContract) (k : EffectProofKind) : bool :=
  allow_retry_with_proof c && bool_decide (k = EffectAbsent) && kind_in k (allowed_proof_kinds c).
Definition allows_confirm_completed (c : EffectResolutionContract) : bool :=
  allow_confirm_completed c && existsb is_completion_proof (allowed_proof_kinds c).
Definition allows_do_not_retry (c : EffectResolutionContract) : bool := allow_do_not_retry c.
Definition allows_retry_with_proof (c : EffectResolutionContract) : bool :=
  allow_retry_with_proof c && kind_in EffectAbsent (allowed_proof_kinds c).

Definition proof_kind_name (k : EffectProofKind) : string :=
  match k with
  | ExternalCommit => "external_commit" | IdempotencyReceipt => "idempotency_receipt"
  | EffectAbsent => "effect_absent"
  end.
Definition contract_json (c : EffectResolutionContract) : Value :=
  VObject
    [("allow_confirm_completed"%string, VBool (allow_confirm_completed c));
     ("allow_do_not_retry"%string, VBool (allow_do_not_retry c));
     ("allow_retry_with_proof"%string, VBool (allow_retry_with_proof c));
     ("allowed_proof_kinds"%string, VArray ((fun k => VString (proof_kind_name k)) <$> allowed_proof_kinds c))].

(** ** Journal entries *)

Inductive EffectTerminal :=
| EtCompleted (v : BoundedBytes MAX_EFFECT_RESULT_BYTES)
| EtFailed (id : BoundedText MAX_EFFECT_FAILURE_ID_BYTES).
#[global] Instance EffectTerminal_eq_dec : EqDecision EffectTerminal.
Proof. solve_decision. Defined.

Record EffectJournalEntry := MkEntry {
  ee_request_id : RequestId;
  ee_session_id : SessionId;
  ee_participant_id : ParticipantId;
  ee_operation_id : OperationId;
  ee_caller : HostId;
  ee_action : Capability;
  ee_semantic_digest : SemanticDigest;
  ee_effect_class : EffectClass;
  ee_resolution_contract : EffectResolutionContract;
  ee_phase : EffectJournalPhase;
  ee_owner_host : HostId;
  ee_owner_epoch : FencingEpoch;
  ee_lease_expires_at : Timestamp;
  ee_terminal : option EffectTerminal;
  ee_revision : Revision;
}.
#[global] Instance EffectJournalEntry_eq_dec : EqDecision EffectJournalEntry.
Proof. solve_decision. Defined.

(** [EffectJournalEntry::recovery_class]: what recovery may conclude from an entry. *)
Definition recovery_class (e : EffectJournalEntry) : RecoveryClass :=
  match ee_phase e with
  | JReserved | JRetryAuthorized => SafeToContinue
  | JStarted => match ee_effect_class e with
                | ReadOnly | Idempotent => SafeToContinue
                | Transactional | NonIdempotent | UnknownClass => EffectUncertain
                end
  | JUncertain => EffectUncertain
  | JCompleted | JFailed => Terminal
  end.

(** The entry's own reading and the store's table give the same class. *)
Lemma recovery_class_agrees e :
  rd_class <$> classify_recovery (recovery_effect_state (ee_phase e) (ee_effect_class e)) NotApplicable
  = Ok (recovery_class e).
Proof. unfold recovery_class. by destruct (ee_phase e), (ee_effect_class e). Qed.

(** ** Commands *)

Record ReserveEffect := MkReserveEffect {
  re_context : RequestContext;
  re_session_id : SessionId;
  re_participant_id : ParticipantId;
  re_operation_id : OperationId;
  re_owner_epoch : FencingEpoch;
  re_action : Capability;
  re_semantic_digest : SemanticDigest;
  re_effect_class : EffectClass;
  re_resolution_contract : EffectResolutionContract;
  re_lease_duration : Duration;
}.

Inductive EffectResolution :=
| ErCompleted (v : BoundedBytes MAX_EFFECT_RESULT_BYTES)
| ErFailed (id : BoundedText MAX_EFFECT_FAILURE_ID_BYTES)
| ErUncertain.
#[global] Instance EffectResolution_eq_dec : EqDecision EffectResolution.
Proof. solve_decision. Defined.

Record EffectTransition := MkEffectTransition {
  et_context : RequestContext;
  et_effect_request_id : RequestId;
  et_owner_epoch : FencingEpoch;
  et_expected_revision : Revision;
  et_resolution : option EffectResolution;
  et_semantic_digest : SemanticDigest;
}.

Record TakeoverEffect := MkTakeover {
  te_context : RequestContext;
  te_effect_request_id : RequestId;
  te_owner_epoch : FencingEpoch;
  te_expected_revision : Revision;
  te_lease_duration : Duration;
  te_semantic_digest : SemanticDigest;
}.

Record ResolveAuthorizedEffect := MkResolveAuthorized {
  ra_context : RequestContext;
  ra_session_id : SessionId;
  ra_owner_epoch : FencingEpoch;
  ra_participant_id : ParticipantId;
  ra_grant_id : GrantId;
  ra_effect_request_id : RequestId;
  ra_expected_effect_revision : Revision;
  ra_decision : ResolveUncertaintyDecision;
  ra_tool_terminal : option ToolTerminal;
}.

Section digests.
Context {SH : Sha256} {JS : Json} {UT : UuidText}.

Definition reserve_input (participant_id : ParticipantId) (operation_id : OperationId)
    (contract : EffectResolutionContract) (canonical_input : bytes) : bytes :=
  to_vec (VArray [json_id participant_id; json_id operation_id; contract_json contract; json_bytes canonical_input]).
Definition ReserveEffect_new (context : RequestContext) (session_id : SessionId) (participant_id : ParticipantId)
    (operation_id : OperationId) (owner_epoch : FencingEpoch) (action : Capability) (canonical_input : bytes)
    (effect_class : EffectClass) (contract : EffectResolutionContract) (lease_duration : Duration) : ReserveEffect :=
  MkReserveEffect context session_id participant_id operation_id owner_epoch action
    (SemanticDigest_v1 action (reserve_input participant_id operation_id contract canonical_input))
    effect_class contract lease_duration.

Definition transition_input (id : RequestId) (epoch : FencingEpoch) (revision : Revision)
    (resolution : option EffectResolution) : bytes :=
  be_bytes 16 (as_uuid id) ++ be_bytes 8 (FencingEpoch_get epoch) ++ be_bytes 8 (Revision_get revision) ++
  match resolution with
  | None => [0]
  | Some ErUncertain => [1]
  | Some (ErCompleted v) => [2] ++ be_bytes 8 (llen (as_slice v)) ++ as_slice v
  | Some (ErFailed v) => [3] ++ be_bytes 8 (llen (bytes_of_string (as_str v))) ++ bytes_of_string (as_str v)
  end.
Definition EffectTransition_build (context : RequestContext) (effect_request_id : RequestId)
    (owner_epoch : FencingEpoch) (expected_revision : Revision) (resolution : option EffectResolution) :
    EffectTransition :=
  let action := MkCapability (if is_some resolution then "effect.resolve" else "effect.start") in
  MkEffectTransition context effect_request_id owner_epoch expected_revision resolution
    (SemanticDigest_v1 action (transition_input effect_request_id owner_epoch expected_revision resolution)).
Definition EffectTransition_start context effect_request_id owner_epoch expected_revision : EffectTransition :=
  EffectTransition_build context effect_request_id owner_epoch expected_revision None.
Definition EffectTransition_resolve context effect_request_id owner_epoch expected_revision
    (resolution : EffectResolution) : EffectTransition :=
  EffectTransition_build context effect_request_id owner_epoch expected_revision (Some resolution).

Definition takeover_input (effect_request_id : RequestId) (owner_epoch : FencingEpoch)
    (expected_revision : Revision) (lease_duration : Duration) : bytes :=
  be_bytes 16 (as_uuid effect_request_id) ++ be_bytes 8 (FencingEpoch_get owner_epoch) ++
  be_bytes 8 (Revision_get expected_revision) ++ be_bytes 8 (saturated_millis lease_duration).
Definition TakeoverEffect_new (context : RequestContext) (effect_request_id : RequestId)
    (owner_epoch : FencingEpoch) (expected_revision : Revision) (lease_duration : Duration) : TakeoverEffect :=
  MkTakeover context effect_request_id owner_epoch expected_revision lease_duration
    (SemanticDigest_v1 (MkCapability "effect.takeover")
       (takeover_input effect_request_id owner_epoch expected_revision lease_duration)).

Definition proof_json (p : EffectProof) : Value :=
  VObject [("kind"%string, VString (proof_kind_name (ep_kind p))); ("digest"%string, json_bytes (ep_digest p));
           ("evidence"%string, json_bytes (as_slice (ep_evidence p)))].
Definition resolution_json (r : UncertaintyResolution) : Value :=
  match r with
  | ConfirmCompleted proof => VObject [("confirm_completed"%string, VObject [("proof"%string, proof_json proof)])]
  | DoNotRetry => VString "do_not_retry"
  | RetryWithEffectProof proof =>
      VObject [("retry_with_effect_proof"%string, VObject [("proof"%string, proof_json proof)])]
  end.
Definition decision_json (d : ResolveUncertaintyDecision) : Value :=
  VObject
    [("session_id"%string, json_id (ru_session_id d)); ("operation_id"%string, json_id (ru_operation_id d));
     ("reason"%string, VString (as_str (ru_reason d))); ("resolution"%string, resolution_json (ru_resolution d))].
Definition resolve_input (c : ResolveAuthorizedEffect) : bytes :=
  ci_bytes (to_vec (VArray
    [json_id (ra_session_id c); json_id (ra_participant_id c); json_id (ra_grant_id c);
     json_id (ra_effect_request_id c); decision_json (ra_decision c);
     json_option tool_terminal_json (ra_tool_terminal c)])).
#[global] Instance ResolveAuthorizedEffect_request : MutableRequest ResolveAuthorizedEffect := {|
  mr_context := ra_context;
  mr_action _ := ActResolveAuthorizedEffect;
  mr_digest c := ci_finish (resolve_input c) ActResolveAuthorizedEffect;
|}.

Definition resolution_proof (r : UncertaintyResolution) : option EffectProof :=
  match r with ConfirmCompleted proof | RetryWithEffectProof proof => Some proof | DoNotRetry => None end.
Definition assertion_digest (c : ResolveAuthorizedEffect) (effect_semantic_digest : SemanticDigest) : SemanticDigest :=
  SemanticDigest_v1 (MkCapability "effect.resolution.assertion.v1")
    (be_bytes 16 (as_uuid (ra_effect_request_id c)) ++ sd_bytes effect_semantic_digest ++
     match resolution_proof (ru_resolution (ra_decision c)) with Some p => ep_digest p | None => [] end).
End digests.

(** ** Grants and decisions *)

#[global] Instance Grant_eq_dec : EqDecision Grant.
Proof. solve_decision. Defined.
Record GrantSnapshot := MkGrantSnapshot {
  gs_grant : Grant;
  gs_single_use : bool;
  gs_consumed_at : option Timestamp;
}.
#[global] Instance GrantSnapshot_eq_dec : EqDecision GrantSnapshot.
Proof. solve_decision. Defined.

Record AuthorityDecisionWire := MkDecisionWire {
  dw_authority : ScopedCapability;
  dw_origins : gset AuthorityOrigin;
}.
Definition AuthorityDecisionWire_from (v : AuthorityDecision) : AuthorityDecisionWire :=
  MkDecisionWire (ad_authority v) (ad_origins v).

Record AuthorizedEffectResolution := MkAuthorizedResolution {
  ax_effect_entry : EffectJournalEntry;
  ax_current_operation : OperationSnapshot;
  ax_audit_event_position : EventPosition;
  ax_authority_decision : AuthorityDecisionWire;
}.
