(* ===== verification/AuthorityApi.v ===== *)
(** * AuthorityApi: the commands of the authority store

    Models crates/navigator-store-api/src/authority.rs: policies of templates and
    participants, grants, checked effects and authorized children, with the digests of
    the commands.  The snapshots of policies, grants and decisions are in OperationApi.v
    and EffectApi.v. *)
From S2P Require Import Prelude Scalars Session Authority Operation Json StoreApi Approval Template Message OperationApi ToolApi EffectApi.

Record AuthorityTemplatePolicy := MkTemplatePolicy {
  ytp_template_id : TemplateId;
  ytp_allowed_parent_templates : gset TemplateId;
  ytp_template : AuthorityProfile;
  ytp_relationship : AuthorityProfile;
  ytp_subject : AuthorityProfile;
}.
#[global] Instance AuthorityTemplatePolicy_eq_dec : EqDecision AuthorityTemplatePolicy.
Proof. solve_decision. Defined.

Record RegisterAuthorityTemplatePolicy := MkRegisterTemplatePolicy {
  rtp_context : RequestContext;
  rtp_session_id : SessionId;
  rtp_epoch : FencingEpoch;
  rtp_policy : AuthorityTemplatePolicy;
}.
Record PutAuthorityPolicy := MkPutPolicy {
  pp_context : RequestContext;
  pp_session_id : SessionId;
  pp_epoch : FencingEpoch;
  pp_policy : AuthorityPolicySnapshot;
}.
Record IssueGrant := MkIssueGrant {
  ig_context : RequestContext;
  ig_session_id : SessionId;
  ig_epoch : FencingEpoch;
  ig_grant : Grant;
  ig_single_use : bool;
}.
Record RevokeGrant := MkRevokeGrant {
  rv_context : RequestContext;
  rv_session_id : SessionId;
  rv_epoch : FencingEpoch;
  rv_grant_id : GrantId;
}.
Record CheckAuthorityEffect := MkCheckEffect {
  ck_context : RequestContext;
  ck_session_id : SessionId;
  ck_epoch : FencingEpoch;
  ck_participant_id : ParticipantId;
  ck_requested : ScopedCapability;
  ck_grant_id : option GrantId;
}.
Inductive AuthorityEffectOutcome :=
| EffectAllowed (decision : AuthorityDecisionWire)
| EffectDenied.
Record CreateAuthorizedChild := MkCreateAuthorized {
  ac_context : RequestContext;
  ac_session_id : SessionId;
  ac_epoch : FencingEpoch;
  ac_parent_participant_id : ParticipantId;
  ac_participant_id : ParticipantId;
  ac_template_id : TemplateId;
  ac_expected_compatibility : CompatibilityIdentity;
  ac_requested : ScopedCapability;
  ac_grant_id : option GrantId;
  ac_operation_id : OperationId;
  ac_input_message_id : MessageId;
  ac_input : ValidatedTaskInput;
}.
Inductive AuthorizedChildOutcome :=
| ChildAllowed (participant : ParticipantSnapshot) (policy : AuthorityPolicySnapshot) (operation : OperationSnapshot)
    (decision : AuthorityDecisionWire)
| ChildDenied.

(** ** Digests *)

Section digests.
Context {SH : Sha256} {JS : Json} {UT : UuidText}.

(** A set of identities prints in their order. *)
Definition ids_json {k} (s : gset (Id k)) : Value := VArray (json_id <$> merge_sort Id_le (elements s)).
Definition template_policy_json (p : AuthorityTemplatePolicy) : Value :=
  VObject [("template_id", json_id (ytp_template_id p));
           ("allowed_parent_templates", ids_json (ytp_allowed_parent_templates p));
           ("template", profile_json (ytp_template p)); ("relationship", profile_json (ytp_relationship p));
           ("subject", profile_json (ytp_subject p))]%string.
Definition policy_json (p : AuthorityPolicySnapshot) : Value :=
  VObject [("session_id", json_id (py_session_id p)); ("participant_id", json_id (py_participant_id p));
           ("session", profile_json (py_session p)); ("parent", profile_json (py_parent p));
           ("template", profile_json (py_template p)); ("relationship", profile_json (py_relationship p));
           ("subject", profile_json (py_subject p))]%string.
Definition grant_json (g : Grant) : Value :=
  VObject [("id", json_id (g_id g)); ("session_id", json_id (g_session_id g)); ("subject", json_id (g_subject g));
           ("authority", scoped_json (g_authority g));
           ("expires_at", VObject [("unix_seconds", json_i64 (unix_seconds (g_expires_at g)));
                                   ("nanoseconds", json_u64 (nanoseconds (g_expires_at g)))]);
           ("revoked", VBool (g_revoked g))]%string.

#[global] Instance RegisterAuthorityTemplatePolicy_request : MutableRequest RegisterAuthorityTemplatePolicy := {|
  mr_context := rtp_context;
  mr_action _ := ActRegisterAuthorityTemplatePolicy;
  mr_digest c := ci_finish (ci_bytes (to_vec (template_policy_json (rtp_policy c)))) ActRegisterAuthorityTemplatePolicy;
|}.
#[global] Instance PutAuthorityPolicy_request : MutableRequest PutAuthorityPolicy := {|
  mr_context := pp_context;
  mr_action _ := ActPutAuthorityPolicy;
  mr_digest c := ci_finish (ci_bytes (to_vec (policy_json (pp_policy c)))) ActPutAuthorityPolicy;
|}.
#[global] Instance IssueGrant_request : MutableRequest IssueGrant := {|
  mr_context := ig_context;
  mr_action _ := ActIssueGrant;
  mr_digest c := ci_finish (ci_bytes (to_vec (VArray [grant_json (ig_grant c); VBool (ig_single_use c)]))) ActIssueGrant;
|}.
#[global] Instance RevokeGrant_request : MutableRequest RevokeGrant := {|
  mr_context := rv_context;
  mr_action _ := ActRevokeGrant;
  mr_digest c := ci_finish (ci_identity (as_uuid (rv_grant_id c))) ActRevokeGrant;
|}.
#[global] Instance CheckAuthorityEffect_request : MutableRequest CheckAuthorityEffect := {|
  mr_context := ck_context;
  mr_action _ := ActCheckAuthorityEffect;
  mr_digest c := ci_finish (ci_bytes (to_vec (VArray
    [json_id (ck_participant_id c); scoped_json (ck_requested c); json_option json_id (ck_grant_id c)]))) ActCheckAuthorityEffect;
|}.
#[global] Instance CreateAuthorizedChild_request : MutableRequest CreateAuthorizedChild := {|
  mr_context := ac_context;
  mr_action _ := ActCreateAuthorizedChild;
  mr_digest c := ci_finish (ci_bytes (to_vec (VArray
    [json_id (ac_parent_participant_id c); json_id (ac_template_id c); json_bytes (Compat_as_bytes (ac_expected_compatibility c));
     scoped_json (ac_requested c); json_option json_id (ac_grant_id c); json_bytes (TaskInput_as_bytes (ac_input c))])))
    ActCreateAuthorizedChild;
|}.
End digests.
