(* ===== verification/SqliteDb.v ===== *)
(** * SqliteDb: the tables of the store and its transactions

    The tables of crates/navigator-store-sqlite/migrations that the modelled handlers
    of crates/navigator-store-sqlite/src/store.rs read and write, and what a handler
    is.  A handler is one immediate transaction, [Tx]: it reads and writes the tables of
    [Db] and ends by committing its result ([Next]), by committing a recorded failure
    ([Finished]), or by an early return that rolls everything back ([Abort]).

    Tables are finite maps keyed by identity; identities print injectively, so the
    text columns are the identities.  Stored results are the wire values whose JSON
    the columns hold, decoded by the checks of their types.  SQLite failures other
    than constraint violations (busy, I/O) abort a handler at any statement; they are
    the aborting rule of the transition systems. *)
From S2P Require Import Prelude Scalars Session Authority Operation RecoveryTable Capacity Artifact Approval Tool StoreApi StoreWire Template Message OperationApi ToolApi EffectApi AuthorityApi.

(** ** Tables *)

Record SessionCols := MkCols {
  sc_consumer_key : string;
  sc_public_consumer_key : string;
  sc_compatibility : bytes;
  sc_revision : Z;
  sc_closed : Z;
  sc_created_at : Timestamp;
  sc_updated_at : Timestamp;
  sc_owner_host_id : option Uuid;
  sc_owner_epoch : option Z;
  sc_owner_expires_at : option Timestamp;
  sc_epoch_high_water : Z;
  sc_time_floor : Timestamp;
  sc_manifest_complete : Z;
  sc_configuration_identity : option bytes;
}.

Record EventRow := MkEventRow {
  er_session_id : SessionId;
  er_position : Z;
  er_event_id : bytes;
  er_revision : Z;
  er_event_type : string;
  er_schema_version : Z;
  er_related_request_id : option RequestId;
  er_data : bytes;
  er_occurred_at : Timestamp;
}.

Inductive StoredEffect := SeApplied | SeUnchanged.
(** The [result] column, by the type of the action's result. *)
Inductive LedgerResult :=
| LrSession (v : SessionSnapshot)
| LrLease (w : LeaseWire)
| LrText (s : string)
| LrMessage (o : option MessageSnapshot)
| LrParticipant (p : ParticipantSnapshot)
| LrOperation (o : OperationSnapshot)
| LrLaunch (l : LaunchSnapshot)
| LrRegistration (r : ToolRegistrationSnapshot)
| LrConnection (c : ToolProviderConnectionSnapshot)
| LrArtifact (a : ArtifactSnapshot)
| LrTemplatePolicy (p : AuthorityTemplatePolicy)
| LrPolicy (p : AuthorityPolicySnapshot)
| LrGrant (g : GrantSnapshot)
| LrAuthority (o : AuthorityEffectOutcome)
| LrAuthorizedChild (o : AuthorizedChildOutcome).
Inductive LedgerOutcome :=
| LoSucceeded (effect : StoredEffect) (r : LedgerResult)
| LoFailed (w : FailureWire).
Record LedgerRow := MkLedgerRow {
  lr_session_id : SessionId;
  lr_caller_host_id : HostId;
  lr_action : string;
  lr_semantic_digest : SemanticDigest;
  lr_outcome : LedgerOutcome;
}.

Record TemplateCols := MkTemplateCols {
  tl_compatibility : CompatibilityIdentity;
  tl_registration : RegistrationWire;
}.

Record ParticipantCols := MkParticipantCols {
  pc_session_id : SessionId;
  pc_parent_participant_id : option ParticipantId;
  pc_template_id : TemplateId;
  pc_template_compatibility : CompatibilityIdentity;
  pc_revision : Z;
  pc_depth : Z;
  pc_cancellation_requested : Z;
}.

Record OperationCols := MkOperationCols {
  oc_session_id : SessionId;
  oc_participant_id : ParticipantId;
  oc_start_request_id : RequestId;
  oc_input_message_id : MessageId;
  oc_waiting_on_message_id : option MessageId;
  oc_input_digest : bytes;
  oc_input_payload : bytes;
  oc_state : string;
  oc_terminal_outcome : option string;
  oc_terminal_payload : option OperationTerminalOutcome;
  oc_revision : Z;
  oc_created_at : Timestamp;
  oc_updated_at : Timestamp;
}.

(** A row of [messages]: its own columns and the snapshot whose JSON it holds. *)
Record MessageRow := MkMessageRow {
  mg_session_id : SessionId;
  mg_source : ParticipantId;
  mg_destination : ParticipantId;
  mg_mailbox_sequence : Z;
  mg_priority : Z;
  mg_snapshot : MessageSnapshot;
}.

Record CounterCols := MkCounter { ct_next_sequence : Z; ct_queued_bytes : Z; ct_queued_messages : Z }.

Record LaunchCols := MkLaunchCols {
  la_session_id : SessionId;
  la_ownership_epoch : option Z;
  la_participant_id : ParticipantId;
  la_driver_id : DriverId;
  la_driver_configuration_digest : bytes;
  la_instance_id : option InstanceId;
  la_state : string;
  la_revision : Z;
  la_credential_digest : bytes;
  la_evidence : option ProcessEvidence;
  la_cleanup_reason : option string;
}.

Record ArtifactCols := MkArtifactCols {
  af_session_id : SessionId;
  af_creator_participant_id : option ParticipantId;
  af_creator_operation_id : option OperationId;
  af_media_type : string;
  af_size : Z;
  af_digest : bytes;
  af_locator : string;
  af_state : string;
  af_revision : Z;
  af_retention_until : Timestamp;
  af_created_at : Timestamp;
  af_deleted_at : option Timestamp;
}.

Record EffectCols := MkEffectCols {
  ef_session_id : SessionId;
  ef_participant_id : ParticipantId;
  ef_operation_id : OperationId;
  ef_caller_host_id : HostId;
  ef_action : string;
  ef_semantic_digest : bytes;
  ef_effect_class : string;
  ef_resolution_contract : EffectResolutionContract;
  ef_phase : string;
  ef_owner_host_id : HostId;
  ef_owner_epoch : Z;
  ef_lease_expires_at : Timestamp;
  ef_terminal : option EffectTerminal;
  ef_revision : Z;
}.
(** The [result] column, by the type of what was recorded. *)
Inductive EffectRecord := EfrEntry (e : EffectJournalEntry) | EfrResolution (r : AuthorizedEffectResolution).
Record EffectMutationRow := MkEffectMutation {
  em_effect_request_id : RequestId;
  em_caller_host_id : HostId;
  em_semantic_digest : bytes;
  em_result : EffectRecord;
}.

Record RegistrationCols := MkRegistrationCols {
  tg_registration_id : ToolRegistrationId;
  tg_consumer_key : string;
  tg_snapshot : ToolRegistrationSnapshot;
}.
Record ConnectionCols := MkConnectionCols {
  cn_connection_id : ToolConnectionId;
  cn_consumer_key : string;
  cn_generation : Z;
  cn_acknowledged_server_sequence : Z;
  cn_next_server_sequence : Z;
  cn_connected_at : Timestamp;
  cn_registrations : list ToolRegistrationId;
}.
Record ToolCols := MkToolCols {
  tc_effect_request_id : RequestId;
  tc_registration_id : ToolRegistrationId;
  tc_dispatch_id : ToolDispatchId;
  tc_provider_id : ToolProviderId;
  tc_server_sequence : Z;
  tc_deadline : Timestamp;
  tc_connection_generation : option Z;
  tc_cancellation_id : option ToolCancellationId;
  tc_cancellation_server_sequence : option Z;
  tc_terminal_digest : option bytes;
  tc_session_id : SessionId;
  tc_participant_id : ParticipantId;
  tc_operation_id : OperationId;
  tc_tool_name : string;
  tc_tool_version : string;
  tc_snapshot : ToolInvocationSnapshot;
}.
Record ToolMutationRow := MkToolMutation {
  tm_invocation_id : ToolInvocationId;
  tm_caller_host_id : HostId;
  tm_semantic_digest : bytes;
  tm_result : ToolInvocationSnapshot;
}.

Record Db := MkDb {
  db_sessions : gmap SessionId SessionCols;
  db_manifests : gmap SessionId (list TemplateCompatibilityBinding);
  db_templates : gmap TemplateId TemplateCols;
  db_events : list EventRow;
  (** The configured row of [capacity_limits] for retained events. *)
  db_event_limits : option (Z * Z);
  db_ledger : gmap RequestId LedgerRow;
  (** The request identities of [approval_mutations] with the effect identities of
      [approval_effect_intents], and the request identities of
      [recovery_classifications]. *)
  db_approval_requests : gset RequestId;
  db_recovery_requests : gset RequestId;
  db_messages : gmap MessageId MessageRow;
  db_counters : gmap ParticipantId CounterCols;
  db_operations : gmap OperationId OperationCols;
  db_participants : gmap ParticipantId ParticipantCols;
  db_policies : gmap ParticipantId AuthorityPolicySnapshot;
  db_launches : gmap LaunchAttemptId LaunchCols;
  db_artifacts : gmap ArtifactId ArtifactCols;
  (** [capacity_session_usage] and [capacity_global_usage]. *)
  db_session_usage : gmap (SessionId * CapacityResource) Z;
  db_global_usage : gmap CapacityResource Z;
  db_grants : gmap GrantId GrantSnapshot;
  db_effects : gmap RequestId EffectCols;
  db_effect_mutations : gmap RequestId EffectMutationRow;
  db_registrations : gmap (SessionId * string * string) RegistrationCols;
  db_connections : gmap (SessionId * ToolProviderId) ConnectionCols;
  db_tools : gmap ToolInvocationId ToolCols;
  db_tool_mutations : gmap RequestId ToolMutationRow;
  db_template_policies : gmap TemplateId AuthorityTemplatePolicy;
}.

(** A request identity that one of the other ledgers holds. *)
Definition other_request (d : Db) (request_id : RequestId) : bool :=
  is_some (db_effects d !! request_id) || is_some (db_effect_mutations d !! request_id)
  || bool_decide (request_id ∈ db_recovery_requests d) || is_some (db_tool_mutations d !! request_id)
  || bool_decide (request_id ∈ db_approval_requests d).

Definition set_sessions (d : Db) (v : gmap SessionId SessionCols) : Db :=
  MkDb
    v (db_manifests d) (db_templates d) (db_events d) (db_event_limits d) (db_ledger d)
    (db_approval_requests d) (db_recovery_requests d) (db_messages d) (db_counters d)
    (db_operations d) (db_participants d) (db_policies d) (db_launches d) (db_artifacts d)
    (db_session_usage d) (db_global_usage d) (db_grants d) (db_effects d) (db_effect_mutations d)
    (db_registrations d) (db_connections d) (db_tools d) (db_tool_mutations d) (db_template_policies d).
Definition set_manifests (d : Db) (v : gmap SessionId (list TemplateCompatibilityBinding)) : Db :=
  MkDb
    (db_sessions d) v (db_templates d) (db_events d) (db_event_limits d) (db_ledger d)
    (db_approval_requests d) (db_recovery_requests d) (db_messages d) (db_counters d)
    (db_operations d) (db_participants d) (db_policies d) (db_launches d) (db_artifacts d)
    (db_session_usage d) (db_global_usage d) (db_grants d) (db_effects d) (db_effect_mutations d)
    (db_registrations d) (db_connections d) (db_tools d) (db_tool_mutations d) (db_template_policies d).
Definition set_templates (d : Db) (v : gmap TemplateId TemplateCols) : Db :=
  MkDb
    (db_sessions d) (db_manifests d) v (db_events d) (db_event_limits d) (db_ledger d)
    (db_approval_requests d) (db_recovery_requests d) (db_messages d) (db_counters d)
    (db_operations d) (db_participants d) (db_policies d) (db_launches d) (db_artifacts d)
    (db_session_usage d) (db_global_usage d) (db_grants d) (db_effects d) (db_effect_mutations d)
    (db_registrations d) (db_connections d) (db_tools d) (db_tool_mutations d) (db_template_policies d).
Definition set_events (d : Db) (v : list EventRow) : Db :=
  MkDb
    (db_sessions d) (db_manifests d) (db_templates d) v (db_event_limits d) (db_ledger d)
    (db_approval_requests d) (db_recovery_requests d) (db_messages d) (db_counters d)
    (db_operations d) (db_participants d) (db_policies d) (db_launches d) (db_artifacts d)
    (db_session_usage d) (db_global_usage d) (db_grants d) (db_effects d) (db_effect_mutations d)
    (db_registrations d) (db_connections d) (db_tools d) (db_tool_mutations d) (db_template_policies d).
Definition set_ledger (d : Db) (v : gmap RequestId LedgerRow) : Db :=
  MkDb
    (db_sessions d) (db_manifests d) (db_templates d) (db_events d) (db_event_limits d) v
    (db_approval_requests d) (db_recovery_requests d) (db_messages d) (db_counters d)
    (db_operations d) (db_participants d) (db_policies d) (db_launches d) (db_artifacts d)
    (db_session_usage d) (db_global_usage d) (db_grants d) (db_effects d) (db_effect_mutations d)
    (db_registrations d) (db_connections d) (db_tools d) (db_tool_mutations d) (db_template_policies d).
Definition set_messages (d : Db) (v : gmap MessageId MessageRow) : Db :=
  MkDb
    (db_sessions d) (db_manifests d) (db_templates d) (db_events d) (db_event_limits d)
    (db_ledger d) (db_approval_requests d) (db_recovery_requests d) v (db_counters d)
    (db_operations d) (db_participants d) (db_policies d) (db_launches d) (db_artifacts d)
    (db_session_usage d) (db_global_usage d) (db_grants d) (db_effects d) (db_effect_mutations d)
    (db_registrations d) (db_connections d) (db_tools d) (db_tool_mutations d) (db_template_policies d).
Definition set_counters (d : Db) (v : gmap ParticipantId CounterCols) : Db :=
  MkDb
    (db_sessions d) (db_manifests d) (db_templates d) (db_events d) (db_event_limits d)
    (db_ledger d) (db_approval_requests d) (db_recovery_requests d) (db_messages d) v
    (db_operations d) (db_participants d) (db_policies d) (db_launches d) (db_artifacts d)
    (db_session_usage d) (db_global_usage d) (db_grants d) (db_effects d) (db_effect_mutations d)
    (db_registrations d) (db_connections d) (db_tools d) (db_tool_mutations d) (db_template_policies d).
Definition set_operations (d : Db) (v : gmap OperationId OperationCols) : Db :=
  MkDb
    (db_sessions d) (db_manifests d) (db_templates d) (db_events d) (db_event_limits d)
    (db_ledger d) (db_approval_requests d) (db_recovery_requests d) (db_messages d) (db_counters d)
    v (db_participants d) (db_policies d) (db_launches d) (db_artifacts d) (db_session_usage d)
    (db_global_usage d) (db_grants d) (db_effects d) (db_effect_mutations d) (db_registrations d)
    (db_connections d) (db_tools d) (db_tool_mutations d) (db_template_policies d).
Definition set_participants (d : Db) (v : gmap ParticipantId ParticipantCols) : Db :=
  MkDb
    (db_sessions d) (db_manifests d) (db_templates d) (db_events d) (db_event_limits d)
    (db_ledger d) (db_approval_requests d) (db_recovery_requests d) (db_messages d) (db_counters d)
    (db_operations d) v (db_policies d) (db_launches d) (db_artifacts d) (db_session_usage d)
    (db_global_usage d) (db_grants d) (db_effects d) (db_effect_mutations d) (db_registrations d)
    (db_connections d) (db_tools d) (db_tool_mutations d) (db_template_policies d).
Definition set_launches (d : Db) (v : gmap LaunchAttemptId LaunchCols) : Db :=
  MkDb
    (db_sessions d) (db_manifests d) (db_templates d) (db_events d) (db_event_limits d)
    (db_ledger d) (db_approval_requests d) (db_recovery_requests d) (db_messages d) (db_counters d)
    (db_operations d) (db_participants d) (db_policies d) v (db_artifacts d) (db_session_usage d)
    (db_global_usage d) (db_grants d) (db_effects d) (db_effect_mutations d) (db_registrations d)
    (db_connections d) (db_tools d) (db_tool_mutations d) (db_template_policies d).
Definition set_artifacts (d : Db) (v : gmap ArtifactId ArtifactCols) : Db :=
  MkDb
    (db_sessions d) (db_manifests d) (db_templates d) (db_events d) (db_event_limits d)
    (db_ledger d) (db_approval_requests d) (db_recovery_requests d) (db_messages d) (db_counters d)
    (db_operations d) (db_participants d) (db_policies d) (db_launches d) v
    (db_session_usage d) (db_global_usage d) (db_grants d) (db_effects d) (db_effect_mutations d)
    (db_registrations d) (db_connections d) (db_tools d) (db_tool_mutations d) (db_template_policies d).
Definition set_grants (d : Db) (v : gmap GrantId GrantSnapshot) : Db :=
  MkDb
    (db_sessions d) (db_manifests d) (db_templates d) (db_events d) (db_event_limits d)
    (db_ledger d) (db_approval_requests d) (db_recovery_requests d) (db_messages d) (db_counters d)
    (db_operations d) (db_participants d) (db_policies d) (db_launches d) (db_artifacts d)
    (db_session_usage d) (db_global_usage d) v (db_effects d) (db_effect_mutations d)
    (db_registrations d) (db_connections d) (db_tools d) (db_tool_mutations d) (db_template_policies d).
Definition set_effects (d : Db) (v : gmap RequestId EffectCols) : Db :=
  MkDb
    (db_sessions d) (db_manifests d) (db_templates d) (db_events d) (db_event_limits d)
    (db_ledger d) (db_approval_requests d) (db_recovery_requests d) (db_messages d) (db_counters d)
    (db_operations d) (db_participants d) (db_policies d) (db_launches d) (db_artifacts d)
    (db_session_usage d) (db_global_usage d) (db_grants d) v (db_effect_mutations d)
    (db_registrations d) (db_connections d) (db_tools d) (db_tool_mutations d) (db_template_policies d).
Definition set_effect_mutations (d : Db) (v : gmap RequestId EffectMutationRow) : Db :=
  MkDb
    (db_sessions d) (db_manifests d) (db_templates d) (db_events d) (db_event_limits d)
    (db_ledger d) (db_approval_requests d) (db_recovery_requests d) (db_messages d) (db_counters d)
    (db_operations d) (db_participants d) (db_policies d) (db_launches d) (db_artifacts d)
    (db_session_usage d) (db_global_usage d) (db_grants d) (db_effects d) v (db_registrations d)
    (db_connections d) (db_tools d) (db_tool_mutations d) (db_template_policies d).
Definition set_registrations (d : Db) (v : gmap (SessionId * string * string) RegistrationCols) : Db :=
  MkDb
    (db_sessions d) (db_manifests d) (db_templates d) (db_events d) (db_event_limits d)
    (db_ledger d) (db_approval_requests d) (db_recovery_requests d) (db_messages d) (db_counters d)
    (db_operations d) (db_participants d) (db_policies d) (db_launches d) (db_artifacts d)
    (db_session_usage d) (db_global_usage d) (db_grants d) (db_effects d) (db_effect_mutations d) v
    (db_connections d) (db_tools d) (db_tool_mutations d) (db_template_policies d).
Definition set_connections (d : Db) (v : gmap (SessionId * ToolProviderId) ConnectionCols) : Db :=
  MkDb
    (db_sessions d) (db_manifests d) (db_templates d) (db_events d) (db_event_limits d)
    (db_ledger d) (db_approval_requests d) (db_recovery_requests d) (db_messages d) (db_counters d)
    (db_operations d) (db_participants d) (db_policies d) (db_launches d) (db_artifacts d)
    (db_session_usage d) (db_global_usage d) (db_grants d) (db_effects d) (db_effect_mutations d)
    (db_registrations d) v (db_tools d) (db_tool_mutations d) (db_template_policies d).
Definition set_tools (d : Db) (v : gmap ToolInvocationId ToolCols) : Db :=
  MkDb
    (db_sessions d) (db_manifests d) (db_templates d) (db_events d) (db_event_limits d)
    (db_ledger d) (db_approval_requests d) (db_recovery_requests d) (db_messages d) (db_counters d)
    (db_operations d) (db_participants d) (db_policies d) (db_launches d) (db_artifacts d)
    (db_session_usage d) (db_global_usage d) (db_grants d) (db_effects d) (db_effect_mutations d)
    (db_registrations d) (db_connections d) v (db_tool_mutations d) (db_template_policies d).
Definition set_tool_mutations (d : Db) (v : gmap RequestId ToolMutationRow) : Db :=
  MkDb
    (db_sessions d) (db_manifests d) (db_templates d) (db_events d) (db_event_limits d)
    (db_ledger d) (db_approval_requests d) (db_recovery_requests d) (db_messages d) (db_counters d)
    (db_operations d) (db_participants d) (db_policies d) (db_launches d) (db_artifacts d)
    (db_session_usage d) (db_global_usage d) (db_grants d) (db_effects d) (db_effect_mutations d)
    (db_registrations d) (db_connections d) (db_tools d) v (db_template_policies d).
Definition set_policies (d : Db) (v : gmap ParticipantId AuthorityPolicySnapshot) : Db :=
  MkDb
    (db_sessions d) (db_manifests d) (db_templates d) (db_events d) (db_event_limits d)
    (db_ledger d) (db_approval_requests d) (db_recovery_requests d) (db_messages d) (db_counters d)
    (db_operations d) (db_participants d) v (db_launches d) (db_artifacts d)
    (db_session_usage d) (db_global_usage d) (db_grants d) (db_effects d) (db_effect_mutations d)
    (db_registrations d) (db_connections d) (db_tools d) (db_tool_mutations d) (db_template_policies d).
Definition set_template_policies (d : Db) (v : gmap TemplateId AuthorityTemplatePolicy) : Db :=
  MkDb
    (db_sessions d) (db_manifests d) (db_templates d) (db_events d) (db_event_limits d)
    (db_ledger d) (db_approval_requests d) (db_recovery_requests d) (db_messages d) (db_counters d)
    (db_operations d) (db_participants d) (db_policies d) (db_launches d) (db_artifacts d)
    (db_session_usage d) (db_global_usage d) (db_grants d) (db_effects d) (db_effect_mutations d)
    (db_registrations d) (db_connections d) (db_tools d) (db_tool_mutations d) v.

(** ** Transactions *)

Inductive TxOut (A : Type) :=
| Next (a : A) (d : Db)
| Abort (e : StoreError)
| Finished (d : Db) (e : StoreError).
Arguments Next {A} a d.
Arguments Abort {A} e.
Arguments Finished {A} d e.

Definition Tx (A : Type) := Db -> TxOut A.
#[global] Instance tx_ret : MRet Tx := fun A a d => Next a d.
#[global] Instance tx_bind : MBind Tx := fun A B f m d =>
  match m d with Next a d' => f a d' | Abort e => Abort e | Finished d' e => Finished d' e end.

(** [?] on a pure result. *)
Definition lift {A} (r : result StoreError A) : Tx A := fun d =>
  match r with Ok a => Next a d | Err e => Abort e end.
Definition abort {A} (e : StoreError) : Tx A := fun _ => Abort e.
Definition get : Tx Db := fun d => Next d d.
Definition put (d : Db) : Tx unit := fun _ => Next tt d.

(** The database and the answer after the transaction ends. *)
Definition run {A} (m : Tx A) (d : Db) : Db * result StoreError A :=
  match m d with Next a d' => (d', Ok a) | Abort e => (d, Err e) | Finished d' e => (d', Err e) end.
