(* ===== verification/SqliteSession.v ===== *)
(** * SqliteSession: sessions, ownership leases, the event log and the request ledger

    Models [impl SessionStore for SqliteStore] of
    crates/navigator-store-sqlite/src/store.rs with the helpers it calls, as
    transactions over the tables of SqliteDb.v. *)
From S2P Require Import Prelude Scalars Session Authority Capacity Json StoreApi StoreWire SqliteDb.

(** Calendar addition ([OffsetDateTime::checked_add] of milliseconds). *)
Class TimeArith `{!TimeLib} := checked_add_millis : OffsetDateTime -> Z -> option OffsetDateTime.

Section store.
Context {TL : TimeLib} {TA : TimeArith} {SH : Sha256} {JS : Json} {UT : UuidText}.
(** [SqliteStore::max_lease_millis]. *)
Variable max_lease_millis : Z.

(** ** Rows *)

Record SessionRow := MkSessionRow {
  sr_snapshot : SessionSnapshot;
  sr_owner : option OwnershipLease;
  sr_epoch_high_water : Z;
  sr_time_floor : Timestamp;
}.

Definition corrupt {E A} (r : result E A) : result StoreError A := map_err (fun _ => Corrupt) r.

Definition decode_ts (t : Timestamp) : result StoreError Timestamp :=
  decode_timestamp (unix_seconds t) (nanoseconds t).

(** The owner columns; a missing expiry or epoch beside an owner is a column of the
    wrong type. *)
Definition decode_owner (session_id : SessionId) (c : SessionCols) :
    result StoreError (option OwnershipLease) :=
  match sc_owner_host_id c with
  | None => Ok None
  | Some host =>
      expires ← ok_or Unavailable (sc_owner_expires_at c);
      owner ← corrupt (from_uuid host);
      raw_epoch ← ok_or Unavailable (sc_owner_epoch c);
      epoch ← decode_epoch raw_epoch;
      nanos ← to_u32 (nanoseconds expires);
      before ← timestamp_before (unix_seconds expires) nanos;
      expires_at ← decode_ts expires;
      Some <$> corrupt (OwnershipLease_new session_id owner epoch before expires_at)
  end.

Definition decode_session (key : SessionId) (c : SessionCols) : result StoreError SessionRow :=
  session_id ← corrupt (from_uuid (as_uuid key));
  consumer_key ← corrupt (ConsumerKey_new (sc_public_consumer_key c));
  compatibility ← (if bool_decide (length (sc_compatibility c) = 32%nat)
                   then Ok (MkCompat (sc_compatibility c)) else Err Corrupt);
  revision ← decode_revision (sc_revision c);
  status ← (if sc_closed c =? 0 then Ok Open
            else if sc_closed c =? 1 then Ok Closed else Err Corrupt);
  created_at ← decode_ts (sc_created_at c);
  updated_at ← decode_ts (sc_updated_at c);
  snapshot ← corrupt (SessionSnapshot_new session_id consumer_key compatibility status revision
                        created_at updated_at);
  owner ← decode_owner session_id c;
  epoch_high_water ← to_u64 (sc_epoch_high_water c);
  if match owner with
     | Some lease => epoch_high_water <? FencingEpoch_get (ol_epoch lease)
     | None => false end
  then Err Corrupt
  else
    time_floor ← decode_ts (sc_time_floor c);
    Ok (MkSessionRow snapshot owner epoch_high_water time_floor).

Definition load_session_in (session_id : SessionId) : Tx (option SessionRow) :=
  d ← get;
  match db_sessions d !! session_id with
  | None => mret None
  | Some c => row ← lift (decode_session session_id c); mret (Some row)
  end.

Definition require_open_session (session_id : SessionId) (action : StoreAction) : Tx SessionRow :=
  loaded ← load_session_in session_id;
  row ← lift (ok_or (SessionNotFound session_id) loaded);
  if bool_decide (ss_status (sr_snapshot row) = Closed)
  then abort (if bool_decide (action = ActCloseSession) then SessionAlreadyClosed session_id
              else SessionClosed session_id)
  else mret row.

Definition ownership_snapshot (l : OwnershipLease) : OwnershipSnapshot :=
  Owned (ol_owner l) (ol_epoch l) (ol_expires_at l).

Definition require_owner (row : SessionRow) (caller : HostId) (attempted : FencingEpoch)
    (observed_at : Timestamp) : result StoreError unit :=
  match sr_owner row with
  | None => Err (StaleOwnership (ss_id (sr_snapshot row)) attempted None)
  | Some owner =>
      if negb (bool_decide (ol_epoch owner = attempted)) || negb (bool_decide (ol_owner owner = caller))
      then Err (StaleOwnership (ss_id (sr_snapshot row)) attempted (Some (ol_epoch owner)))
      else if negb (is_effective_at owner observed_at)
      then Err (OwnershipExpired (ss_id (sr_snapshot row)) attempted)
      else Ok tt
  end.

(** ** Statements *)

Definition Timestamp_max (a b : Timestamp) : Timestamp := if Timestamp_ltb b a then a else b.

(** [UPDATE sessions SET ... WHERE session_id = ? AND <cond>], with the number of
    rows changed. *)
Definition update_session (session_id : SessionId) (cond : SessionCols -> bool)
    (f : SessionCols -> SessionCols) : Tx Z :=
  d ← get;
  match db_sessions d !! session_id with
  | Some c => if cond c then _ ← put (set_sessions d (<[session_id := f c]> (db_sessions d))); mret 1
              else mret 0
  | None => mret 0
  end.

Definition cols_set_floor (t : Timestamp) (c : SessionCols) : SessionCols :=
  MkCols (sc_consumer_key c) (sc_public_consumer_key c) (sc_compatibility c) (sc_revision c)
    (sc_closed c) (sc_created_at c) (sc_updated_at c) (sc_owner_host_id c) (sc_owner_epoch c)
    (sc_owner_expires_at c) (sc_epoch_high_water c) t (sc_manifest_complete c)
    (sc_configuration_identity c).
Definition cols_close (revision : Z) (now : Timestamp) (c : SessionCols) : SessionCols :=
  MkCols (sc_consumer_key c) (sc_public_consumer_key c) (sc_compatibility c) revision
    1 (sc_created_at c) now None (sc_owner_epoch c)
    None (sc_epoch_high_water c) (sc_time_floor c) (sc_manifest_complete c)
    (sc_configuration_identity c).
Definition cols_acquire (owner : Uuid) (epoch : Z) (expires_at : Timestamp) (revision : Z)
    (now : Timestamp) (c : SessionCols) : SessionCols :=
  MkCols (sc_consumer_key c) (sc_public_consumer_key c) (sc_compatibility c) revision
    (sc_closed c) (sc_created_at c) now (Some owner) (Some epoch)
    (Some expires_at) epoch (sc_time_floor c) (sc_manifest_complete c)
    (sc_configuration_identity c).
Definition cols_renew (expires_at : Timestamp) (c : SessionCols) : SessionCols :=
  MkCols (sc_consumer_key c) (sc_public_consumer_key c) (sc_compatibility c) (sc_revision c)
    (sc_closed c) (sc_created_at c) (sc_updated_at c) (sc_owner_host_id c) (sc_owner_epoch c)
    (Some expires_at) (sc_epoch_high_water c) (sc_time_floor c) (sc_manifest_complete c)
    (sc_configuration_identity c).
Definition cols_release (revision : Z) (now : Timestamp) (c : SessionCols) : SessionCols :=
  MkCols (sc_consumer_key c) (sc_public_consumer_key c) (sc_compatibility c) revision
    (sc_closed c) (sc_created_at c) now None (sc_owner_epoch c)
    None (sc_epoch_high_water c) (sc_time_floor c) (sc_manifest_complete c)
    (sc_configuration_identity c).

Definition advance_time_floor (session_id : SessionId) (persisted observed : Timestamp) : Tx Timestamp :=
  let effective := Timestamp_max persisted observed in
  _ ← update_session session_id (fun _ => true) (cols_set_floor effective);
  mret effective.

(** ** The event log *)

(** The identity of an event: sixteen digest bytes with the version and variant bits
    of a random UUID. *)
Definition event_identity (request_id : RequestId) (event_type : string) : bytes :=
  let raw := take 16 (sd_bytes (SemanticDigest_v1 (MkCapability "event.identity.v1")
    (be_bytes 16 (as_uuid request_id) ++ bytes_of_string event_type))) in
  let raw := alter (fun b => Z.lor (Z.land b 15) 64) 6%nat raw in
  alter (fun b => Z.lor (Z.land b 63) 128) 8%nat raw.

Definition session_events (session_id : SessionId) (events : list EventRow) : list EventRow :=
  filter (fun e => er_session_id e = session_id) events.

(** [COALESCE(MAX(position), 0)] and the row that holds it ([ORDER BY position DESC
    LIMIT 1]). *)
Definition max_position (events : list EventRow) : Z :=
  fold_right (fun e m => Z.max (er_position e) m) 0 events.
Definition latest_event (events : list EventRow) : option EventRow :=
  fold_right (fun e best => match best with
    | Some b => if er_position e <? er_position b then Some b else Some e
    | None => Some e end) None events.

Definition append_event_data (request_id : RequestId) (session_id : SessionId) (revision : Revision)
    (event_type : string) (data : bytes) (occurred_at : Timestamp) : Tx unit :=
  d ← get;
  limits ← lift (ok_or Corrupt (db_event_limits d));
  let mine := session_events session_id (db_events d) in
  if limits.1 <=? llen mine
  then abort (CapacityExceeded (SessionLimit RetainedEvents)) else
  if limits.2 <=? llen (db_events d)
  then abort (CapacityExceeded (GlobalLimit RetainedEvents)) else
  previous ← lift (match latest_event mine with
                   | Some e => Some <$> decode_ts (er_occurred_at e)
                   | None => Ok None end);
  let occurred_at := match previous with Some t => Timestamp_max t occurred_at | None => occurred_at end in
  let position := max_position mine + 1 in
  let event_id := event_identity request_id event_type in
  rev ← lift (to_i64 (Revision_get revision));
  (** the unique index and the foreign key *)
  if existsb (fun e => bool_decide (er_event_id e = event_id)) mine
     || bool_decide (db_sessions d !! session_id = None)
  then abort Unavailable
  else put (set_events d (db_events d ++
    [MkEventRow session_id position event_id rev event_type 1 (Some request_id) data occurred_at])).

(** [b"{}"]. *)
Definition append_event (request_id : RequestId) (session_id : SessionId) (revision : Revision)
    (event_type : string) (occurred_at : Timestamp) : Tx unit :=
  append_event_data request_id session_id revision event_type [123; 125] occurred_at.

Definition json_timestamp (t : Timestamp) : Value :=
  VObject [("nanoseconds"%string, VNumber (PosInt (nanoseconds t)));
           ("unix_seconds"%string, VNumber (if unix_seconds t <? 0 then NegInt (unix_seconds t)
                                            else PosInt (unix_seconds t)))].

Definition session_event_payload (s : SessionSnapshot) : bytes :=
  to_vec (VObject
    [("created_at"%string, json_timestamp (ss_created_at s));
     ("revision"%string, VNumber (PosInt (Revision_get (ss_revision s))));
     ("schema_version"%string, VNumber (PosInt 1));
     ("session_id"%string, VString (uuid_text (as_uuid (ss_id s))));
     ("status"%string, VString (match ss_status s with Open => "open" | Closed => "closed" end));
     ("updated_at"%string, json_timestamp (ss_updated_at s))]).

(** ** The request ledger *)

Section requests.
Context {C : Type} {MR : MutableRequest C}.

(** A mutation's stored result, if the same request was already decided; the stored
    failure is the answer again. *)
Definition replay_bytes (c : C) : Tx (option LedgerResult) :=
  d ← get;
  let request_id := rc_request_id (mr_context c) in
  match db_ledger d !! request_id with
  | None =>
      if other_request d request_id then abort (RequestConflict request_id)
      else mret None
  | Some row =>
      if negb (bool_decide (lr_caller_host_id row = rc_caller (mr_context c)))
         || negb (bool_decide (lr_action row = StoreAction_as_str (mr_action c)))
         || negb (bool_decide (lr_semantic_digest row = mr_digest c))
      then abort (RequestConflict request_id)
      else match lr_outcome row with
           | LoFailed w => abort (StoreError_from w)
           | LoSucceeded _ r => mret (Some r)
           end
  end.

Definition insert_ledger (session_id : SessionId) (c : C) (outcome : LedgerOutcome) : Tx unit :=
  d ← get;
  let request_id := rc_request_id (mr_context c) in
  match db_ledger d !! request_id with
  | Some _ => abort Unavailable
  | None => put (set_ledger d (<[request_id := MkLedgerRow session_id (rc_caller (mr_context c))
      (StoreAction_as_str (mr_action c)) (mr_digest c) outcome]> (db_ledger d)))
  end.

Definition record_bytes (session_id : SessionId) (c : C) (effect : StoredEffect) (r : LedgerResult) :
    Tx unit := insert_ledger session_id c (LoSucceeded effect r).
Definition record_failure (session_id : SessionId) (c : C) (error : StoreError) : Tx unit :=
  insert_ledger session_id c (LoFailed (FailureWire_from error)).

(** Record the failure, commit, and answer with it. *)
Definition finish_failure {A} (session_id : SessionId) (c : C) (error : StoreError) : Tx A := fun d =>
  match record_failure session_id c error d with
  | Next _ d' => Finished d' error
  | Abort e => Abort e
  | Finished d' e => Finished d' e
  end.

(** [match m { Ok(v) => v, Err(error) => return Err(finish_failure(..).await?) }]. *)
Definition or_finish {A} (session_id : SessionId) (c : C) (m : Tx A) : Tx A := fun d =>
  match m d with
  | Abort e => finish_failure session_id c e d
  | out => out
  end.

(** [replay_json]: the stored bytes decoded as a session snapshot. *)
Definition replay_json_session (c : C) : Tx (option SessionSnapshot) :=
  stored ← replay_bytes c;
  match stored with
  | None => mret None
  | Some (LrSession w) => v ← lift (corrupt (SessionSnapshot_deserialize w)); mret (Some v)
  | Some _ => abort Corrupt
  end.
End requests.

(** ** Opening *)

Definition validate_open_replay (snapshot : SessionSnapshot) (c : OpenSession) : result StoreError unit :=
  if negb (bool_decide (ss_id snapshot = os_session_id c))
     || negb (bool_decide (ss_consumer_key snapshot = os_consumer_key c))
     || negb (bool_decide (ss_compatibility snapshot = os_compatibility c))
  then Err Corrupt else Ok tt.

Definition validate_session_manifest_in (c : OpenSession) : Tx unit :=
  d ← get;
  let conflict := CompatibilityConflict (os_session_id c) (os_compatibility c) (os_compatibility c) in
  cols ← lift (ok_or Unavailable (db_sessions d !! os_session_id c));
  match os_manifest c with
  | None => if sc_manifest_complete cols =? 0 then mret tt else abort conflict
  | Some manifest =>
      if sc_manifest_complete cols =? 1 then
        let rows := default [] (db_manifests d !! os_session_id c) in
        if negb (llen rows =? llen (m_templates manifest)) then abort conflict
        else if forallb (fun p => bool_decide (tb_template_id p.1 = tb_template_id p.2)
                               && bool_decide (tb_compatibility p.1 = tb_compatibility p.2))
                  (zip rows (m_templates manifest))
        then mret tt else abort conflict
      else abort conflict
  end.

Definition new_session_manifest_is_registered (c : OpenSession) : Tx bool :=
  d ← get;
  match os_manifest c with
  | None => mret true
  | Some manifest =>
      mret (forallb (fun b => bool_decide (tl_compatibility <$> db_templates d !! tb_template_id b = Some (tb_compatibility b)))
              (m_templates manifest))
  end.

Definition storage_key (d : Db) (c : OpenSession) : string :=
  if existsb (fun p => String.eqb (sc_consumer_key p.2) (as_str (os_consumer_key c)))
       (map_to_list (db_sessions d))
  then ("session:" ++ uuid_text (as_uuid (os_session_id c)))%string
  else as_str (os_consumer_key c).

Definition insert_session_row (c : OpenSession) (now : Timestamp) : Tx unit :=
  d ← get;
  let key := storage_key d c in
  (** the primary key, the unique storage key and the unique public key of open sessions *)
  if bool_decide (is_Some (db_sessions d !! os_session_id c))
     || existsb (fun p => String.eqb (sc_consumer_key p.2) key
                       || ((sc_closed p.2 =? 0)
                           && String.eqb (sc_public_consumer_key p.2) (as_str (os_consumer_key c))))
          (map_to_list (db_sessions d))
  then abort Unavailable
  else put (set_sessions d (<[os_session_id c :=
    MkCols key (as_str (os_consumer_key c)) (Compat_as_bytes (os_compatibility c)) 1 0 now now
      None None None 0 now (match os_manifest c with Some _ => 1 | None => 0 end)
      ((fun m => Compat_as_bytes (m_configuration_identity m)) <$> os_manifest c)]> (db_sessions d))).

(** One row per template, in template order: a manifest keeps its templates sorted by
    identity and free of duplicates. *)
Definition insert_session_manifest (c : OpenSession) : Tx unit :=
  match os_manifest c with
  | None => mret tt
  | Some manifest =>
      d ← get; put (set_manifests d (<[os_session_id c := m_templates manifest]> (db_manifests d)))
  end.

Definition open_session (now : Timestamp) (c : OpenSession) : Tx (Mutation SessionSnapshot) :=
  replayed ← replay_json_session c;
  match replayed with
  | Some snapshot =>
      _ ← lift (validate_open_replay snapshot c);
      _ ← validate_session_manifest_in c;
      mret (Replayed snapshot)
  | None =>
  existing ← load_session_in (os_session_id c);
  match existing with
  | Some row =>
      let snapshot := sr_snapshot row in
      if negb (bool_decide (ss_compatibility snapshot = os_compatibility c))
      then finish_failure (os_session_id c) c
             (CompatibilityConflict (os_session_id c) (ss_compatibility snapshot) (os_compatibility c))
      else if negb (bool_decide (ss_consumer_key snapshot = os_consumer_key c))
      then finish_failure (os_session_id c) c
             (ConsumerConflict (os_session_id c) (ss_consumer_key snapshot) (os_consumer_key c))
      else
        _ ← or_finish (os_session_id c) c (validate_session_manifest_in c);
        _ ← record_bytes (os_session_id c) c SeUnchanged (LrSession snapshot);
        mret (Unchanged snapshot)
  | None =>
  registered ← new_session_manifest_is_registered c;
  if negb registered then finish_failure (os_session_id c) c Invalid else
  snapshot ← lift (map_err (fun _ => Invalid) (SessionSnapshot_new (os_session_id c)
    (os_consumer_key c) (os_compatibility c) Open Revision_initial now now));
  _ ← insert_session_row c now;
  _ ← insert_session_manifest c;
  _ ← append_event_data (rc_request_id (os_context c)) (os_session_id c) Revision_initial
        "session.created" (session_event_payload snapshot) now;
  _ ← record_bytes (os_session_id c) c SeApplied (LrSession snapshot);
  mret (Applied snapshot)
  end end.

(** ** Closing and ownership *)

(** [self.expiry(now, duration)]. *)
Definition expiry (now : Timestamp) (duration : LeaseDuration) : result StoreError Timestamp :=
  if max_lease_millis <? as_millis duration then Err LeaseTooLong else
  millis ← (if as_millis duration <=? i64_max then Ok (as_millis duration) else Err LeaseTooLong);
  datetime ← corrupt (Timestamp_to_datetime now);
  value ← ok_or Invalid (checked_add_millis datetime millis);
  Ok (Timestamp_from_datetime value).

Definition validate_lease_replay (lease : OwnershipLease) (w : LeaseWire) (session_id : SessionId)
    (caller : HostId) (epoch : option FencingEpoch) (duration : LeaseDuration) : result StoreError unit :=
  issued_at ← corrupt (Timestamp_new (lw_issued_seconds w) (lw_issued_nanos w));
  expires ← corrupt (Timestamp_to_datetime (ol_expires_at lease));
  issued ← corrupt (Timestamp_to_datetime issued_at);
  let whole_milliseconds := Z.quot (instant expires - instant issued) 1000000 in
  if negb (bool_decide (ol_session_id lease = session_id))
     || negb (bool_decide (ol_owner lease = caller))
     || (match epoch with Some e => negb (bool_decide (ol_epoch lease = e)) | None => false end)
     || negb (whole_milliseconds =? as_millis duration)
  then Err Corrupt else Ok tt.

(** The stored bytes decoded as a lease. *)
Definition decode_lease (r : LedgerResult) : result StoreError (LeaseWire * OwnershipLease) :=
  match r with
  | LrLease w => lease ← LeaseWire_into_lease w; Ok (w, lease)
  | _ => Err Corrupt
  end.

Definition owned_by (caller : HostId) (epoch : Z) (c : SessionCols) : bool :=
  bool_decide (sc_owner_host_id c = Some (as_uuid caller)) && bool_decide (sc_owner_epoch c = Some epoch).

Definition one_row (changed : Z) : Tx unit := if negb (changed =? 1) then abort Corrupt else mret tt.

Definition close_session (observed_at : Timestamp) (c : CloseSession) : Tx (Mutation SessionSnapshot) :=
  replayed ← replay_json_session c;
  match replayed with
  | Some snapshot =>
      if negb (bool_decide (ss_id snapshot = cs_session_id c))
         || negb (bool_decide (ss_status snapshot = Closed))
      then abort Corrupt else mret (Replayed snapshot)
  | None =>
  row ← or_finish (cs_session_id c) c (require_open_session (cs_session_id c) ActCloseSession);
  now ← advance_time_floor (cs_session_id c) (sr_time_floor row) observed_at;
  match require_owner row (rc_caller (cs_context c)) (cs_epoch c) now with
  | Err error => finish_failure (cs_session_id c) c error
  | Ok _ =>
  let '(snapshot, closed) := SessionSnapshot_close (sr_snapshot row) now in
  _ ← lift (map_err (fun _ => Invalid) closed);
  revision ← lift (to_i64 (Revision_get (ss_revision snapshot)));
  epoch ← lift (to_i64 (FencingEpoch_get (cs_epoch c)));
  changed ← update_session (cs_session_id c)
    (fun cols => owned_by (rc_caller (cs_context c)) epoch cols && (sc_closed cols =? 0))
    (cols_close revision now);
  _ ← one_row changed;
  _ ← append_event_data (rc_request_id (cs_context c)) (cs_session_id c) (ss_revision snapshot)
        "session.closed" (session_event_payload snapshot) now;
  _ ← record_bytes (cs_session_id c) c SeApplied (LrSession snapshot);
  mret (Applied snapshot)
  end end.

Definition acquire_ownership (observed_at : Timestamp) (c : AcquireOwnership) :
    Tx (Mutation OwnershipLease) :=
  replayed ← replay_bytes c;
  match replayed with
  | Some stored =>
      decoded ← lift (decode_lease stored);
      _ ← lift (validate_lease_replay decoded.2 decoded.1 (aq_session_id c)
                  (rc_caller (aq_context c)) None (aq_duration c));
      mret (Replayed decoded.2)
  | None =>
  row ← or_finish (aq_session_id c) c (require_open_session (aq_session_id c) ActAcquireOwnership);
  now ← advance_time_floor (aq_session_id c) (sr_time_floor row) observed_at;
  match expiry now (aq_duration c) with
  | Err error => finish_failure (aq_session_id c) c error
  | Ok expires_at =>
  if Timestamp_leb expires_at now then finish_failure (aq_session_id c) c Invalid else
  match sr_owner row with
  | Some owner => if is_effective_at owner now
      then finish_failure (aq_session_id c) c (OwnershipHeld (ownership_snapshot owner))
      else mret tt
  | None => mret tt
  end;;
  epoch ← lift (ok_or Corrupt (checked_add_u64 (sr_epoch_high_water row) 1 ≫= fun v =>
            match FencingEpoch_new v with Ok e => Some e | Err _ => None end));
  revision ← lift (ok_or Corrupt (Revision_next (ss_revision (sr_snapshot row))));
  lease ← lift (map_err (fun _ => Invalid) (OwnershipLease_new (aq_session_id c)
            (rc_caller (aq_context c)) epoch now expires_at));
  epoch_column ← lift (to_i64 (FencingEpoch_get epoch));
  revision_column ← lift (to_i64 (Revision_get revision));
  changed ← update_session (aq_session_id c) (fun _ => true)
    (cols_acquire (as_uuid (ol_owner lease)) epoch_column expires_at revision_column now);
  _ ← one_row changed;
  _ ← append_event (rc_request_id (aq_context c)) (aq_session_id c) revision "ownership.acquired" now;
  _ ← record_bytes (aq_session_id c) c SeApplied (LrLease (LeaseWire_from_lease lease now));
  mret (Applied lease)
  end end.

Definition renew_ownership (observed_at : Timestamp) (c : RenewOwnership) :
    Tx (Mutation OwnershipLease) :=
  replayed ← replay_bytes c;
  match replayed with
  | Some stored =>
      decoded ← lift (decode_lease stored);
      _ ← lift (validate_lease_replay decoded.2 decoded.1 (rn_session_id c)
                  (rc_caller (rn_context c)) (Some (rn_epoch c)) (rn_duration c));
      mret (Replayed decoded.2)
  | None =>
  row ← or_finish (rn_session_id c) c (require_open_session (rn_session_id c) ActRenewOwnership);
  now ← advance_time_floor (rn_session_id c) (sr_time_floor row) observed_at;
  match require_owner row (rc_caller (rn_context c)) (rn_epoch c) now with
  | Err error => finish_failure (rn_session_id c) c error
  | Ok _ =>
  match expiry now (rn_duration c) with
  | Err error => finish_failure (rn_session_id c) c error
  | Ok expires_at =>
  if Timestamp_leb expires_at now then finish_failure (rn_session_id c) c Invalid else
  lease ← lift (map_err (fun _ => Invalid) (OwnershipLease_new (rn_session_id c)
            (rc_caller (rn_context c)) (rn_epoch c) now expires_at));
  epoch ← lift (to_i64 (FencingEpoch_get (rn_epoch c)));
  changed ← update_session (rn_session_id c) (owned_by (rc_caller (rn_context c)) epoch)
    (cols_renew expires_at);
  _ ← one_row changed;
  _ ← record_bytes (rn_session_id c) c SeApplied (LrLease (LeaseWire_from_lease lease now));
  mret (Applied lease)
  end end end.

Definition release_ownership (observed_at : Timestamp) (c : ReleaseOwnership) :
    Tx (Mutation OwnershipSnapshot) :=
  replayed ← replay_bytes c;
  match replayed with
  | Some (LrText "unowned"%string) => mret (Replayed Unowned)
  | Some _ => abort Corrupt
  | None =>
  row ← or_finish (rl_session_id c) c (require_open_session (rl_session_id c) ActReleaseOwnership);
  now ← advance_time_floor (rl_session_id c) (sr_time_floor row) observed_at;
  match require_owner row (rc_caller (rl_context c)) (rl_epoch c) now with
  | Err error => finish_failure (rl_session_id c) c error
  | Ok _ =>
  revision ← lift (ok_or Corrupt (Revision_next (ss_revision (sr_snapshot row))));
  revision_column ← lift (to_i64 (Revision_get revision));
  epoch ← lift (to_i64 (FencingEpoch_get (rl_epoch c)));
  changed ← update_session (rl_session_id c) (owned_by (rc_caller (rl_context c)) epoch)
    (cols_release revision_column now);
  _ ← one_row changed;
  _ ← append_event (rc_request_id (rl_context c)) (rl_session_id c) revision "ownership.released" now;
  _ ← record_bytes (rl_session_id c) c SeApplied (LrText "unowned");
  mret (Applied Unowned)
  end end.

(** ** Reading *)

Definition load_session (session_id : SessionId) : Tx SessionSnapshot :=
  row ← load_session_in session_id;
  lift (ok_or (SessionNotFound session_id) (sr_snapshot <$> row)).

Definition read_ownership (now : Timestamp) (session_id : SessionId) : Tx OwnershipSnapshot :=
  loaded ← load_session_in session_id;
  row ← lift (ok_or (SessionNotFound session_id) loaded);
  let observed_at := Timestamp_max (sr_time_floor row) now in
  mret (match sr_owner row with
        | Some lease => if is_effective_at lease observed_at then ownership_snapshot lease else Unowned
        | None => Unowned
        end).

(** [Uuid::from_bytes], big-endian. *)
Definition uuid_from_bytes (b : bytes) : Uuid := fold_left (fun acc x => acc * 256 + x) b 0.

Definition decode_event (session_id : SessionId) (r : EventRow) : result StoreError SessionEvent :=
  event_id ← corrupt (from_uuid (uuid_from_bytes (er_event_id r)));
  raw_position ← to_u64 (er_position r);
  position ← corrupt (EventPosition_new raw_position);
  revision ← decode_revision (er_revision r);
  event_type ← corrupt (EventType_new (er_event_type r));
  raw_version ← (if (0 <=? er_schema_version r) && (er_schema_version r <=? u16_max)
                 then Ok (er_schema_version r) else Err Corrupt);
  schema_version ← corrupt (EventSchemaVersion_new raw_version);
  data ← corrupt (RedactedEventData_new (er_data r));
  occurred_at ← decode_ts (er_occurred_at r);
  Ok (MkSessionEvent event_id session_id position revision event_type schema_version
        (er_related_request_id r) data occurred_at).

(** [WHERE session_id = ? AND position > ? ORDER BY position LIMIT ?]. *)
Definition position_le (a b : EventRow) : Prop := er_position a <= er_position b.
#[global] Instance position_le_dec : RelDecision position_le.
Proof. intros a b. unfold position_le. apply _. Defined.

Definition select_events (session_id : SessionId) (after limit : Z) (events : list EventRow) :
    list EventRow :=
  take (Z.to_nat limit)
    (merge_sort position_le (filter (fun e => after < er_position e) (session_events session_id events))).

Definition read_events (q : ReadEvents) : Tx EventPage :=
  loaded ← load_session_in (re_session_id q);
  row ← lift (ok_or (SessionNotFound (re_session_id q)) loaded);
  if negb (bool_decide (ss_consumer_key (sr_snapshot row) = re_consumer q)) then abort Invalid else
  d ← get;
  let after := match re_after q with Some p => EventPosition_get p | None => 0 end in
  after_column ← lift (to_i64 after);
  let limit := EventReadLimit_get (re_limit q) in
  let rows := select_events (re_session_id q) after_column (limit + 1) (db_events d) in
  let has_more := limit <? llen rows in
  events ← lift (collect (decode_event (re_session_id q)) (take (Z.to_nat limit) rows));
  mret (MkEventPage events (se_position <$> last events) has_more).
End store.
