(* ===== verification/SessionLedger.v ===== *)
(** * SessionLedger: what one transaction of the session store does

    The commands of SqliteSession.v behind one handler, and the contract every
    transaction implements ([change]): which row it changes and how, the event it
    appends and the ledger entry it leaves, on success, on a recorded failure and on
    replay.  The theorems over all histories are in Ownership.v. *)
From S2P Require Import Prelude Scalars Session Authority Capacity Json StoreApi StoreWire Template Message OperationApi SqliteDb SqliteSession.

(** ** Inverting transactions *)

Lemma tx_bind_Next {A B} (m : Tx A) (f : A -> Tx B) d b d2 :
  (m ≫= f) d = Next b d2 <-> exists a d1, m d = Next a d1 /\ f a d1 = Next b d2.
Proof. unfold mbind, tx_bind. destruct (m d); naive_solver. Qed.
Lemma tx_bind_Finished {A B} (m : Tx A) (f : A -> Tx B) d d2 e :
  (m ≫= f) d = Finished d2 e <->
  m d = Finished d2 e \/ exists a d1, m d = Next a d1 /\ f a d1 = Finished d2 e.
Proof. unfold mbind, tx_bind. destruct (m d); naive_solver. Qed.
Lemma lift_Next {A} (r : result StoreError A) d a d' : lift r d = Next a d' <-> r = Ok a /\ d' = d.
Proof. unfold lift. destruct r; naive_solver. Qed.
Lemma lift_Finished {A} (r : result StoreError A) d d' e : ~ lift r d = Finished d' e.
Proof. unfold lift. by destruct r. Qed.
Lemma mret_Next {A} (a : A) (d : Db) b d' : (mret a : Tx A) d = Next b d' <-> b = a /\ d' = d.
Proof. unfold mret, tx_ret. naive_solver. Qed.
Lemma mret_Finished {A} (a : A) (d : Db) d' e : ~ (mret a : Tx A) d = Finished d' e.
Proof. done. Qed.

(** Walk an equation [m d = Next v d'] or [m d = Finished d' e] backwards. *)
Ltac tx_step H :=
  lazymatch type of H with
  | (_ ≫= _) _ = Next _ _ =>
      let a := fresh "a" in let d1 := fresh "d" in let H1 := fresh "Hm" in
      apply tx_bind_Next in H as (a & d1 & H1 & H); tx_step H1
  | lift _ _ = Next _ _ => apply lift_Next in H as [H ->]
  | mret _ _ = Next _ _ => apply mret_Next in H as [-> ->]
  | get _ = Next _ _ => injection H as <- <-
  | put _ _ = Next _ _ => injection H as <- <-
  | abort _ _ = _ => discriminate H
  | lift _ _ = Finished _ _ => exfalso; exact (lift_Finished _ _ _ _ H)
  | mret _ _ = Finished _ _ => discriminate H
  | get _ = Finished _ _ => discriminate H
  | put _ _ = Finished _ _ => discriminate H
  | _ => idtac
  end.

(** Transactions that never commit a failure themselves. *)
Definition quiet {A} (m : Tx A) : Prop := forall d d' e, ~ m d = Finished d' e.
Lemma quiet_bind {A B} (m : Tx A) (f : A -> Tx B) :
  quiet m -> (forall a, quiet (f a)) -> quiet (m ≫= f).
Proof. intros Hm Hf d d' e [H|(a & d1 & _ & H)]%tx_bind_Finished; [by eapply Hm | by eapply Hf]. Qed.
Lemma quiet_lift {A} (r : result StoreError A) : quiet (lift r).
Proof. intros d d' e. apply lift_Finished. Qed.
Lemma quiet_ret {A} (a : A) : quiet (mret a).
Proof. by intros d d' e. Qed.
Lemma quiet_abort {A} e : quiet (A := A) (abort e).
Proof. by intros d d' e'. Qed.
Lemma quiet_get : quiet get.
Proof. by intros d d' e. Qed.
Lemma quiet_put d : quiet (put d).
Proof. by intros d0 d' e'. Qed.
#[export] Hint Resolve quiet_bind quiet_lift quiet_ret quiet_abort quiet_get quiet_put : nav.
Ltac quiet_tac :=
  repeat (first [ assumption | apply quiet_bind; [|intros ?] | apply quiet_lift | apply quiet_ret
    | apply quiet_abort | apply quiet_get | apply quiet_put | case_match ]).

(** Skip the first, quiet transaction of a sequence that committed a failure. *)
Ltac finish_step H :=
  apply tx_bind_Finished in H as [H|(?a & ?d & ?Hm & H)];
  [exfalso; refine ((_ : quiet _) _ _ _ H); eauto 3 with nav|].

Section store.
Context {TL : TimeLib} {TA : TimeArith} {SH : Sha256} {JS : Json} {UT : UuidText}.
Variable max_lease_millis : Z.

(** ** Helper transactions *)

Lemma quiet_load_session_in sid : quiet (load_session_in sid).
Proof. unfold load_session_in. quiet_tac. Qed.
Lemma quiet_require_open_session sid a : quiet (require_open_session sid a).
Proof.
  unfold require_open_session. apply quiet_bind; [apply quiet_load_session_in|intros ?]. quiet_tac.
Qed.
Lemma quiet_validate_manifest c : quiet (validate_session_manifest_in c).
Proof. unfold validate_session_manifest_in. quiet_tac. Qed.
Lemma quiet_update_session sid cond f : quiet (update_session sid cond f).
Proof. unfold update_session. quiet_tac. Qed.
Lemma quiet_advance sid p o : quiet (advance_time_floor sid p o).
Proof.
  unfold advance_time_floor. apply quiet_bind; [apply quiet_update_session|intros ?]. quiet_tac.
Qed.
Lemma quiet_append r s v t b o : quiet (append_event_data r s v t b o).
Proof. unfold append_event_data. quiet_tac. Qed.
Lemma quiet_one_row n : quiet (one_row n).
Proof. unfold one_row. quiet_tac. Qed.

Lemma load_session_in_Next sid d o d' :
  load_session_in sid d = Next o d' ->
  d' = d /\ match db_sessions d !! sid with
            | None => o = None
            | Some c => exists row, decode_session sid c = Ok row /\ o = Some row end.
Proof.
  unfold load_session_in. intros H. tx_step H. destruct (db_sessions d !! sid) as [c|] eqn:E.
  - tx_step H. tx_step H. eauto.
  - by tx_step H.
Qed.

Lemma require_open_session_Next sid a d row d' :
  require_open_session sid a d = Next row d' ->
  d' = d /\ exists c, db_sessions d !! sid = Some c /\ decode_session sid c = Ok row /\
    ss_status (sr_snapshot row) <> Closed.
Proof.
  unfold require_open_session. intros H. tx_step H. tx_step H.
  apply load_session_in_Next in Hm as [-> Hm]. apply ok_or_Ok in Hm0 as ->.
  case_bool_decide as Hs; [discriminate H|]. tx_step H.
  destruct (db_sessions d !! sid) as [c|]; [|done]. destruct Hm as (r & Hr & [= ->]). eauto.
Qed.

Lemma update_session_Next sid cond f d n d' :
  update_session sid cond f d = Next n d' ->
  match db_sessions d !! sid with
  | Some c => if cond c then n = 1 /\ d' = set_sessions d (<[sid := f c]> (db_sessions d))
              else n = 0 /\ d' = d
  | None => n = 0 /\ d' = d
  end.
Proof.
  unfold update_session. intros H. tx_step H. destruct (db_sessions d !! sid) as [c|] eqn:E.
  - destruct (cond c); [by tx_step H; tx_step H | by tx_step H].
  - by tx_step H.
Qed.

Lemma one_row_Next n d u d' : one_row n d = Next u d' -> n = 1 /\ d' = d.
Proof. unfold one_row. case_if as E; [done|]. intros H. tx_step H. by bool_norm. Qed.

(** An [UPDATE] that changed exactly one row. *)
Lemma update_one_Next {A} sid cond f (k : Tx A) d v d' :
  (changed ← update_session sid cond f; _ ← one_row changed; k) d = Next v d' ->
  exists c, db_sessions d !! sid = Some c /\ cond c = true /\
    k (set_sessions d (<[sid := f c]> (db_sessions d))) = Next v d'.
Proof.
  intros H. tx_step H. tx_step H. apply one_row_Next in Hm0 as [-> ->].
  apply update_session_Next in Hm. destruct (db_sessions d !! sid) as [c|]; [|by destruct Hm].
  destruct (cond c) eqn:Ec; [|by destruct Hm]. destruct Hm as [_ ->]. eauto.
Qed.

Definition advance (sid : SessionId) (t : Timestamp) (d : Db) : Db :=
  match db_sessions d !! sid with
  | Some c => set_sessions d (<[sid := cols_set_floor t c]> (db_sessions d))
  | None => d
  end.

Lemma advance_time_floor_Next sid p o d t d' :
  advance_time_floor sid p o d = Next t d' -> t = Timestamp_max p o /\ d' = advance sid t d.
Proof.
  unfold advance_time_floor, advance. intros H. tx_step H. apply update_session_Next in Hm.
  tx_step H. split; [done|]. destruct (db_sessions d !! sid); by destruct Hm.
Qed.

(** The row [append_event_data] inserts. *)
Definition event_row (d : Db) (rid : RequestId) (sid : SessionId) (rev : Z) (ty : string)
    (data : bytes) (now : Timestamp) : EventRow :=
  let mine := session_events sid (db_events d) in
  MkEventRow sid (max_position mine + 1) (event_identity rid ty) rev ty 1 (Some rid) data
    (match latest_event mine with Some e => Timestamp_max (er_occurred_at e) now | None => now end).

Lemma decode_ts_Ok t t' : decode_ts t = Ok t' -> t' = t.
Proof.
  unfold decode_ts, decode_timestamp, to_u32, Timestamp_new. intros H. inv_result. by destruct t.
Qed.

Lemma append_event_data_Next rid sid rev ty data now d u d' :
  append_event_data rid sid rev ty data now d = Next u d' ->
  Revision_get rev <= i64_max /\
  d' = set_events d (db_events d ++ [event_row d rid sid (Revision_get rev) ty data now]).
Proof.
  unfold append_event_data, event_row. intros H. tx_step H. tx_step H. apply ok_or_Ok in Hm.
  case_if_in H as E1; [discriminate H|]. case_if_in H as E2; [discriminate H|].
  tx_step H. tx_step H. case_if_in H as E3; [discriminate H|]. tx_step H.
  unfold to_i64 in Hm1. inv_result. split; [done|]. f_equal. f_equal.
  destruct (latest_event _) as [e|]; [|injection Hm0 as <-; done].
  destruct (decode_ts (er_occurred_at e)) as [t|] eqn:Et; [|discriminate Hm0].
  injection Hm0 as <-. by apply decode_ts_Ok in Et as ->.
Qed.

Section requests.
Context {C : Type} {MR : MutableRequest C}.

(** The ledger row a decided request leaves. *)
Definition ledger_row (sid : SessionId) (c : C) (o : LedgerOutcome) : LedgerRow :=
  MkLedgerRow sid (rc_caller (mr_context c)) (StoreAction_as_str (mr_action c)) (mr_digest c) o.
Definition request_of (c : C) : RequestId := rc_request_id (mr_context c).
Definition record (sid : SessionId) (c : C) (o : LedgerOutcome) (d : Db) : Db :=
  set_ledger d (<[request_of c := ledger_row sid c o]> (db_ledger d)).

Lemma insert_ledger_Next sid (c : C) o d u d' :
  insert_ledger sid c o d = Next u d' -> db_ledger d !! request_of c = None /\ d' = record sid c o d.
Proof.
  unfold insert_ledger. intros H. tx_step H. fold (request_of c) in H.
  destruct (db_ledger d !! request_of c) eqn:E; [discriminate H|]. by tx_step H.
Qed.

Lemma quiet_insert_ledger sid (c : C) o : quiet (insert_ledger sid c o).
Proof. unfold insert_ledger. quiet_tac. Qed.

Lemma finish_failure_Next {A} sid (c : C) e d (v : A) d' : ~ finish_failure sid c e d = Next v d'.
Proof. unfold finish_failure. by case_match. Qed.

Lemma finish_failure_Finished {A} sid (c : C) e d d' e' :
  finish_failure (A := A) sid c e d = Finished d' e' ->
  e' = e /\ db_ledger d !! request_of c = None /\ d' = record sid c (LoFailed (FailureWire_from e)) d.
Proof.
  unfold finish_failure, record_failure. case_match eqn:E; intros [= <- <-].
  - by apply insert_ledger_Next in E as [? ->].
  - by apply quiet_insert_ledger in E.
Qed.

Lemma or_finish_Next {A} sid (c : C) (m : Tx A) d v d' :
  or_finish sid c m d = Next v d' -> m d = Next v d'.
Proof. unfold or_finish. case_match; [done| |done]. intros Hf. by apply finish_failure_Next in Hf. Qed.

Lemma or_finish_Finished {A} sid (c : C) (m : Tx A) d d' e : quiet m ->
  or_finish sid c m d = Finished d' e ->
  m d = Abort e /\ db_ledger d !! request_of c = None /\
  d' = record sid c (LoFailed (FailureWire_from e)) d.
Proof.
  intros Hq. unfold or_finish. destruct (m d) eqn:E; [done| |by apply Hq in E].
  intros (-> & ? & ->)%finish_failure_Finished. done.
Qed.

Lemma quiet_replay_bytes (c : C) : quiet (replay_bytes c).
Proof. unfold replay_bytes. quiet_tac. Qed.
Lemma quiet_replay_json (c : C) : quiet (replay_json_session c).
Proof.
  unfold replay_json_session. apply quiet_bind; [apply quiet_replay_bytes|intros ?]. quiet_tac.
Qed.

Lemma replay_bytes_Next (c : C) d o d' :
  replay_bytes c d = Next o d' -> d' = d /\
  match o with
  | None => db_ledger d !! request_of c = None /\ other_request d (request_of c) = false
  | Some r => exists row eff, db_ledger d !! request_of c = Some row /\
      lr_caller_host_id row = rc_caller (mr_context c) /\
      lr_action row = StoreAction_as_str (mr_action c) /\
      lr_semantic_digest row = mr_digest c /\ lr_outcome row = LoSucceeded eff r
  end.
Proof.
  unfold replay_bytes. intros H. tx_step H. fold (request_of c) in H.
  destruct (db_ledger d !! request_of c) as [row|] eqn:E.
  - case_if_in H as Ec; [discriminate H|]. bool_norm.
    destruct (lr_outcome row) as [eff r|w] eqn:Eo; [|discriminate H]. tx_step H.
    split; [done|]. by exists row, eff.
  - case_if_in H as Hin; [discriminate H|]. by tx_step H.
Qed.

Lemma replay_json_Next (c : C) d o d' :
  replay_json_session c d = Next o d' -> d' = d /\
  match o with
  | None => db_ledger d !! request_of c = None /\ other_request d (request_of c) = false
  | Some s => exists row eff, db_ledger d !! request_of c = Some row /\
      lr_outcome row = LoSucceeded eff (LrSession s)
  end.
Proof.
  unfold replay_json_session. intros H. tx_step H. apply replay_bytes_Next in Hm as [-> Hm].
  destruct a as [[v| | | | | | | | | | | | | |]|]; [|discriminate H..|by tx_step H].
  tx_step H. tx_step H. split; [done|]. destruct Hm as (row & eff & Hrow & _ & _ & _ & Ho).
  exists row, eff. split; [done|]. unfold corrupt in Hm0. apply map_err_Ok in Hm0.
  pose proof (validate_sound (Validated0 := SessionSnapshot_validated) v a Hm0) as [_ Hw].
  unfold wire, SessionSnapshot_validated, id in Hw. by rewrite Hw.
Qed.
End requests.

(** ** Commands *)

Inductive Command :=
| CmdOpen (c : OpenSession) | CmdClose (c : CloseSession) | CmdAcquire (c : AcquireOwnership)
| CmdRenew (c : RenewOwnership) | CmdRelease (c : ReleaseOwnership).
Inductive Reply :=
| ReplySession (m : Mutation SessionSnapshot)
| ReplyLease (m : Mutation OwnershipLease)
| ReplyOwnership (m : Mutation OwnershipSnapshot).

#[global] Instance Command_request : MutableRequest Command := {|
  mr_context c := match c with
    | CmdOpen c => mr_context c | CmdClose c => mr_context c | CmdAcquire c => mr_context c
    | CmdRenew c => mr_context c | CmdRelease c => mr_context c end;
  mr_action c := match c with
    | CmdOpen c => mr_action c | CmdClose c => mr_action c | CmdAcquire c => mr_action c
    | CmdRenew c => mr_action c | CmdRelease c => mr_action c end;
  mr_digest c := match c with
    | CmdOpen c => mr_digest c | CmdClose c => mr_digest c | CmdAcquire c => mr_digest c
    | CmdRenew c => mr_digest c | CmdRelease c => mr_digest c end;
|}.

Definition command_session (c : Command) : SessionId :=
  match c with
  | CmdOpen c => os_session_id c | CmdClose c => cs_session_id c | CmdAcquire c => aq_session_id c
  | CmdRenew c => rn_session_id c | CmdRelease c => rl_session_id c
  end.
Definition command_caller (c : Command) : HostId := rc_caller (mr_context c).

Definition execute (now : Timestamp) (c : Command) : Tx Reply :=
  match c with
  | CmdOpen c => m ← open_session now c; mret (ReplySession m)
  | CmdClose c => m ← close_session now c; mret (ReplySession m)
  | CmdAcquire c => m ← acquire_ownership max_lease_millis now c; mret (ReplyLease m)
  | CmdRenew c => m ← renew_ownership max_lease_millis now c; mret (ReplyLease m)
  | CmdRelease c => m ← release_ownership now c; mret (ReplyOwnership m)
  end.
Definition handle (now : Timestamp) (c : Command) (d : Db) : Db * result StoreError Reply :=
  run (execute now c) d.

Definition reply_replayed (r : Reply) : bool :=
  match r with
  | ReplySession m => was_replayed m | ReplyLease m => was_replayed m
  | ReplyOwnership m => was_replayed m end.

(** ** The contract of one transaction *)

(** The stored lease: the owner columns of a row. *)
Definition held (c : SessionCols) (h : HostId) (e : FencingEpoch) (t : Timestamp) : Prop :=
  sc_owner_host_id c = Some (as_uuid h) /\ sc_owner_epoch c = Some (FencingEpoch_get e) /\
  sc_owner_expires_at c = Some t.

(** What decoding a row gives: the columns themselves. *)
Definition row_matches (sid : SessionId) (c : SessionCols) (row : SessionRow) : Prop :=
  let s := sr_snapshot row in
  ss_id s = sid /\ as_str (ss_consumer_key s) = sc_public_consumer_key c /\
  Compat_as_bytes (ss_compatibility s) = sc_compatibility c /\
  Revision_get (ss_revision s) = sc_revision c /\ 0 < sc_revision c /\
  sc_closed c = (match ss_status s with Open => 0 | Closed => 1 end) /\
  ss_created_at s = sc_created_at c /\ ss_updated_at s = sc_updated_at c /\
  SessionSnapshot_wf s /\
  match sr_owner row with
  | Some l => ol_session_id l = sid /\ held c (ol_owner l) (ol_epoch l) (ol_expires_at l)
  | None => sc_owner_host_id c = None
  end /\
  sr_epoch_high_water row = sc_epoch_high_water c /\ sr_time_floor row = sc_time_floor c.

Lemma decode_owner_Ok sid c o : decode_owner sid c = Ok o ->
  match o with
  | Some l => ol_session_id l = sid /\ held c (ol_owner l) (ol_epoch l) (ol_expires_at l)
  | None => sc_owner_host_id c = None
  end.
Proof.
  unfold decode_owner, held. destruct (sc_owner_host_id c) as [host|] eqn:Eh; [|by intros [= <-]].
  intros H. destruct (sc_owner_expires_at c) as [ex|] eqn:Ee; [|discriminate H]. cbn [ok_or] in H.
  rewrite bind_of_Ok in H. apply bind_Ok in H as (owner & Ho & H).
  destruct (sc_owner_epoch c) as [re|] eqn:Er; [|discriminate H]. cbn [ok_or] in H.
  rewrite bind_of_Ok in H. apply bind_Ok in H as (epoch & Hep & H).
  apply bind_Ok in H as (n & _ & H). apply bind_Ok in H as (b & _ & H).
  apply bind_Ok in H as (t & Ht & H). apply decode_ts_Ok in Ht as ->.
  unfold corrupt, OwnershipLease_new in *. case_if_in H as E; [discriminate H|].
  injection H as <-. cbn. split; [done|]. split_and!; [| |done].
  - unfold from_uuid in Ho. inv_result. done.
  - unfold decode_epoch, to_u64, FencingEpoch_new in Hep. inv_result. done.
Qed.

Lemma decode_session_Ok sid c row : decode_session sid c = Ok row -> row_matches sid c row.
Proof.
  unfold decode_session. intros H.
  apply bind_Ok in H as (sid' & Hsid & H). apply bind_Ok in H as (key & Hkey & H).
  apply bind_Ok in H as (compat & Hcompat & H). apply bind_Ok in H as (rev & Hrev & H).
  apply bind_Ok in H as (st & Hst & H). apply bind_Ok in H as (cr & Hcr & H).
  apply bind_Ok in H as (up & Hup & H). apply bind_Ok in H as (sn & Hsn & H).
  apply bind_Ok in H as (ow & How & H). apply bind_Ok in H as (hw & Hhw & H).
  case_if_in H as E; [discriminate H|]. apply bind_Ok in H as (fl & Hfl & [= <-]).
  apply decode_ts_Ok in Hcr as ->, Hup as ->, Hfl as ->. apply decode_owner_Ok in How.
  unfold corrupt in *.
  assert (sid' = sid) as -> by (clear -Hsid; unfold from_uuid in Hsid; inv_result; by destruct sid).
  assert (as_str key = sc_public_consumer_key c) by
    (clear -Hkey; unfold ConsumerKey_new, BoundedText_new in Hkey; inv_result; done).
  assert (Compat_as_bytes compat = sc_compatibility c) by (clear -Hcompat; inv_result; done).
  assert (Revision_get rev = sc_revision c /\ 0 < sc_revision c) as [??] by
    (clear -Hrev; unfold decode_revision, to_u64, Revision_new in Hrev; inv_result; cbn; lia).
  assert (hw = sc_epoch_high_water c) as -> by (clear -Hhw; unfold to_u64 in Hhw; inv_result; done).
  assert (sc_closed c = match st with Open => 0 | Closed => 1 end) by (clear -Hst; inv_result; done).
  apply map_err_Ok in Hsn. unfold SessionSnapshot_new in Hsn.
  case_if_in Hsn as E1; [discriminate Hsn|]. case_if_in Hsn as E2; [discriminate Hsn|].
  injection Hsn as <-. unfold row_matches; cbn. ts_norm. split_and!; try done.
  unfold SessionSnapshot_wf; cbn. split; [done|]. intros [-> ->]. by cbn in E2.
Qed.

(** What a successful mutation of an existing session does to its row at the store's
    time [now] (the floor already advanced to it), the event it appends, its answer
    and the answer it records. *)
Inductive row_change (now : Timestamp) (c : SessionCols) :
    Command -> SessionCols -> option (Z * string * bytes) -> Reply -> LedgerResult -> Prop :=
| rc_close q t s :
    held c (rc_caller (cs_context q)) (cs_epoch q) t -> Timestamp_lt now t -> sc_closed c = 0 ->
    sc_revision c + 1 <= i64_max ->
    ss_id s = cs_session_id q -> ss_status s = Closed -> SessionSnapshot_wf s ->
    Timestamp_le (sc_updated_at c) now ->
    row_change now c (CmdClose q) (cols_close (sc_revision c + 1) now c)
      (Some (sc_revision c + 1, "session.closed"%string, session_event_payload s))
      (ReplySession (Applied s)) (LrSession s)
| rc_acquire q t e :
    (forall h e0 t0, held c h e0 t0 -> Timestamp_le t0 now) ->
    expiry max_lease_millis now (aq_duration q) = Ok t -> Timestamp_lt now t ->
    FencingEpoch_get e = sc_epoch_high_water c + 1 ->
    sc_epoch_high_water c + 1 <= i64_max -> sc_revision c + 1 <= i64_max -> sc_closed c = 0 ->
    let lease := MkLease (aq_session_id q) (rc_caller (aq_context q)) e t in
    row_change now c (CmdAcquire q)
      (cols_acquire (as_uuid (rc_caller (aq_context q))) (sc_epoch_high_water c + 1) t
         (sc_revision c + 1) now c)
      (Some (sc_revision c + 1, "ownership.acquired"%string, [123; 125]))
      (ReplyLease (Applied lease)) (LrLease (LeaseWire_from_lease lease now))
| rc_renew q t t' :
    held c (rc_caller (rn_context q)) (rn_epoch q) t -> Timestamp_lt now t ->
    expiry max_lease_millis now (rn_duration q) = Ok t' -> Timestamp_lt now t' -> sc_closed c = 0 ->
    let lease := MkLease (rn_session_id q) (rc_caller (rn_context q)) (rn_epoch q) t' in
    row_change now c (CmdRenew q) (cols_renew t' c) None
      (ReplyLease (Applied lease)) (LrLease (LeaseWire_from_lease lease now))
| rc_release q t :
    held c (rc_caller (rl_context q)) (rl_epoch q) t -> Timestamp_lt now t ->
    sc_revision c + 1 <= i64_max -> sc_closed c = 0 ->
    row_change now c (CmdRelease q) (cols_release (sc_revision c + 1) now c)
      (Some (sc_revision c + 1, "ownership.released"%string, [123; 125]))
      (ReplyOwnership (Applied Unowned)) (LrText "unowned").

Definition log_event (d : Db) (rid : RequestId) (sid : SessionId) (now : Timestamp)
    (ev : option (Z * string * bytes)) : Db :=
  match ev with
  | Some (rev, ty, data) => set_events d (db_events d ++ [event_row d rid sid rev ty data now])
  | None => d
  end.

(** The row [insert_session_row] writes. *)
Definition opened_cols (key : string) (q : OpenSession) (now : Timestamp) : SessionCols :=
  MkCols key (as_str (os_consumer_key q)) (Compat_as_bytes (os_compatibility q)) 1 0 now now
    None None None 0 now (match os_manifest q with Some _ => 1 | None => 0 end)
    ((fun m => Compat_as_bytes (m_configuration_identity m)) <$> os_manifest q).
Definition opened_snapshot (q : OpenSession) (now : Timestamp) : SessionSnapshot :=
  MkSessionSnapshot (os_session_id q) (os_consumer_key q) (os_compatibility q) Open
    Revision_initial now now.
Definition opened_manifests (q : OpenSession) (d : Db) : Db :=
  match os_manifest q with
  | None => d
  | Some m => set_manifests d (<[os_session_id q := m_templates m]> (db_manifests d))
  end.

(** The manifest a command carries is the one recorded for its session. *)
Definition manifest_agrees (d : Db) (q : OpenSession) : Prop :=
  exists c, db_sessions d !! os_session_id q = Some c /\
  match os_manifest q with
  | None => sc_manifest_complete c = 0
  | Some m => sc_manifest_complete c = 1 /\
              default [] (db_manifests d !! os_session_id q) = m_templates m
  end.

(** The whole transaction: nothing (an aborted or replayed call), a recorded failure
    that may have advanced the session's clock floor, an open that found the session,
    a new session, or a change of an existing row; each decided request is entered in
    the ledger once. *)
Inductive change (now : Timestamp) (d : Db) : Command -> Db -> result StoreError Reply -> Prop :=
| ch_none c r : (forall rep, r = Ok rep -> reply_replayed rep = true) -> change now d c d r
| ch_failed c d1 e :
    db_ledger d !! request_of c = None -> other_request d (request_of c) = false ->
    (d1 = d \/ exists cols, db_sessions d !! command_session c = Some cols /\ sc_closed cols = 0 /\
       d1 = advance (command_session c) (Timestamp_max (sc_time_floor cols) now) d) ->
    change now d c (record (command_session c) c (LoFailed (FailureWire_from e)) d1) (Err e)
| ch_unchanged q s :
    db_ledger d !! request_of (CmdOpen q) = None -> other_request d (request_of (CmdOpen q)) = false ->
    ss_id s = os_session_id q -> ss_consumer_key s = os_consumer_key q ->
    ss_compatibility s = os_compatibility q -> SessionSnapshot_wf s -> manifest_agrees d q ->
    change now d (CmdOpen q)
      (record (os_session_id q) (CmdOpen q) (LoSucceeded SeUnchanged (LrSession s)) d)
      (Ok (ReplySession (Unchanged s)))
| ch_opened q key :
    db_ledger d !! request_of (CmdOpen q) = None -> other_request d (request_of (CmdOpen q)) = false ->
    db_sessions d !! os_session_id q = None ->
    let d1 := set_sessions d (<[os_session_id q := opened_cols key q now]> (db_sessions d)) in
    let s := opened_snapshot q now in
    let d2 := log_event (opened_manifests q d1) (request_of (CmdOpen q)) (os_session_id q) now
      (Some (1, "session.created"%string, session_event_payload s)) in
    change now d (CmdOpen q)
      (record (os_session_id q) (CmdOpen q) (LoSucceeded SeApplied (LrSession s)) d2)
      (Ok (ReplySession (Applied s)))
| ch_changed c cols cols' ev r p :
    db_ledger d !! request_of c = None -> other_request d (request_of c) = false ->
    db_sessions d !! command_session c = Some cols ->
    let t := Timestamp_max (sc_time_floor cols) now in
    row_change t (cols_set_floor t cols) c cols' ev r p ->
    let d1 := set_sessions d (<[command_session c := cols']> (db_sessions d)) in
    let d2 := log_event d1 (request_of c) (command_session c) t ev in
    change now d c (record (command_session c) c (LoSucceeded SeApplied p) d2) (Ok r).

(** ** Every handler implements the contract *)

Lemma run_map {A B} (m : Tx A) (f : A -> B) d :
  run (m ≫= fun v => mret (f v)) d =
  match m d with Next v d' => (d', Ok (f v)) | Abort e => (d, Err e) | Finished d' e => (d', Err e) end.
Proof. unfold run, mbind, tx_bind. by destruct (m d). Qed.

Lemma validate_manifest_Next q d u d' :
  validate_session_manifest_in q d = Next u d' -> d' = d /\ manifest_agrees d q.
Proof.
  unfold validate_session_manifest_in, manifest_agrees. intros H. tx_step H. tx_step H.
  apply ok_or_Ok in Hm. rewrite Hm. destruct (os_manifest q) as [m|].
  - case_if_in H as E; [|discriminate H]. case_if_in H as El; [discriminate H|].
    case_if_in H as Ea; [|discriminate H]. tx_step H. split; [done|]. eexists; split; [done|].
    bool_norm. split; [done|]. rewrite forallb_forall in Ea.
    set (rows := default [] _) in *. clearbody rows. unfold llen in El. clear -El Ea.
    revert El Ea. generalize (m_templates m) as ts. induction rows as [|x rows IH]; intros [|y ts] El Ea;
      cbn in El; try lia; [done|].
    specialize (Ea (x, y) (or_introl eq_refl)) as Hxy. cbn in Hxy. bool_norm.
    rewrite (IH ts); [destruct x, y; cbn in *; congruence | lia | intros z Hz; apply Ea; by right].
  - case_if_in H as E; [|discriminate H]. tx_step H. split; [done|]. eexists; split; [done|]. by bool_norm.
Qed.

Lemma insert_session_row_Next q now d u d' :
  insert_session_row q now d = Next u d' ->
  d' = set_sessions d (<[os_session_id q := opened_cols (storage_key d q) q now]> (db_sessions d)).
Proof. unfold insert_session_row. intros H. tx_step H. case_if_in H as E; [discriminate H|]. by tx_step H. Qed.

Lemma insert_manifest_Next q d u d' : insert_session_manifest q d = Next u d' -> d' = opened_manifests q d.
Proof.
  unfold insert_session_manifest, opened_manifests. destruct (os_manifest q); intros H; [|by tx_step H].
  by tx_step H; tx_step H.
Qed.

Lemma new_manifest_Next q d b d' : new_session_manifest_is_registered q d = Next b d' -> d' = d.
Proof.
  unfold new_session_manifest_is_registered. intros H. tx_step H.
  destruct (os_manifest q); by tx_step H.
Qed.
Lemma quiet_new_manifest q : quiet (new_session_manifest_is_registered q).
Proof. unfold new_session_manifest_is_registered. quiet_tac. Qed.
Lemma quiet_insert_session_row q now : quiet (insert_session_row q now).
Proof. unfold insert_session_row. quiet_tac. Qed.
Lemma quiet_insert_manifest q : quiet (insert_session_manifest q).
Proof. unfold insert_session_manifest. quiet_tac. Qed.

#[local] Hint Resolve quiet_load_session_in quiet_require_open_session quiet_validate_manifest
  quiet_update_session quiet_advance quiet_append quiet_one_row quiet_insert_ledger
  quiet_replay_bytes quiet_replay_json quiet_new_manifest quiet_insert_session_row
  quiet_insert_manifest : nav.

Lemma open_session_change now q d :
  change now d (CmdOpen q) (handle now (CmdOpen q) d).1 (handle now (CmdOpen q) d).2.
Proof.
  unfold handle, execute. rewrite run_map.
  destruct (open_session now q d) as [m d'|e|d' e] eqn:E; cbn [fst snd]; [|by apply ch_none|].
  - unfold open_session in E. tx_step E. apply replay_json_Next in Hm as [-> Hm].
    destruct a as [s|].
    { tx_step E. tx_step E. apply validate_manifest_Next in Hm1 as [-> _]. tx_step E.
      apply ch_none. by intros rep [= <-]. }
    destruct Hm as [Hl Ho]. tx_step E. apply load_session_in_Next in Hm as [-> Hs].
    destruct (db_sessions d !! os_session_id q) as [c|] eqn:Ec.
    + destruct Hs as (row & Hrow & ->). apply decode_session_Ok in Hrow as (? & _ & _ & _ & _ & _ & _ & _ & ? & _).
      case_if_in E as E1; [by apply finish_failure_Next in E|].
      case_if_in E as E2; [by apply finish_failure_Next in E|]. bool_norm.
      tx_step E. tx_step E. apply or_finish_Next, validate_manifest_Next in Hm as [-> Hma].
      apply insert_ledger_Next in Hm0 as [_ ->]. tx_step E. by apply ch_unchanged.
    + subst a. tx_step E. apply new_manifest_Next in Hm as ->.
      case_if_in E as E1; [by apply finish_failure_Next in E|].
      tx_step E. tx_step E. tx_step E. tx_step E. tx_step E. apply insert_session_row_Next in Hm0 as ->.
      apply insert_manifest_Next in Hm1 as ->. apply append_event_data_Next in Hm2 as [_ ->].
      apply insert_ledger_Next in Hm3 as [_ ->]. tx_step E.
      assert (a0 = opened_snapshot q now) as ->.
      { apply map_err_Ok in Hm. unfold SessionSnapshot_new in Hm. clear -Hm. by inv_result. }
      by apply (ch_opened now d q (storage_key d q)).
  - unfold open_session in E. finish_step E. apply replay_json_Next in Hm as [-> Hm].
    destruct a as [s|].
    { finish_step E. finish_step E. discriminate E. }
    destruct Hm as [Hl Ho]. finish_step E. apply load_session_in_Next in Hm as [-> Hs].
    destruct a as [row|].
    + case_if_in E as E1.
      { apply finish_failure_Finished in E as (-> & _ & ->). by apply (ch_failed now d (CmdOpen q)); auto. }
      case_if_in E as E2.
      { apply finish_failure_Finished in E as (-> & _ & ->). by apply (ch_failed now d (CmdOpen q)); auto. }
      apply tx_bind_Finished in E as [E|(a & d1 & _ & E)].
      { apply or_finish_Finished in E as (_ & _ & ->); [|apply quiet_validate_manifest].
        by apply (ch_failed now d (CmdOpen q)); auto. }
      finish_step E. discriminate E.
    + finish_step E. apply new_manifest_Next in Hm as ->. case_if_in E as E1.
      { apply finish_failure_Finished in E as (-> & _ & ->). by apply (ch_failed now d (CmdOpen q)); auto. }
      do 5 finish_step E. discriminate E.
Qed.

Lemma require_owner_Ok row caller e now u :
  require_owner row caller e now = Ok u ->
  exists l, sr_owner row = Some l /\ ol_epoch l = e /\ ol_owner l = caller /\
    Timestamp_lt now (ol_expires_at l).
Proof.
  unfold require_owner. destruct (sr_owner row) as [l|]; [|done]. intros H.
  case_if_in H as E; [discriminate H|]. case_if_in H as E2; [discriminate H|]. bool_norm.
  unfold is_effective_at in E2. ts_norm. eauto.
Qed.

Lemma advance_lookup sid t d c :
  db_sessions d !! sid = Some c -> db_sessions (advance sid t d) !! sid = Some (cols_set_floor t c).
Proof. unfold advance. intros ->. cbn. apply lookup_insert_eq. Qed.
Lemma advance_overwrite sid t d x :
  is_Some (db_sessions d !! sid) ->
  set_sessions (advance sid t d) (<[sid := x]> (db_sessions (advance sid t d))) =
  set_sessions d (<[sid := x]> (db_sessions d)).
Proof. unfold advance. intros [c ->]. unfold set_sessions; cbn. by rewrite insert_insert_eq. Qed.

(** The shared prefix of the mutations of an existing session. *)
Section prefix.
Variable c : Command.
Let sid := command_session c.

Lemma prefix_failed now d cols e :
  db_ledger d !! request_of c = None -> other_request d (request_of c) = false ->
  db_sessions d !! sid = Some cols -> sc_closed cols = 0 ->
  change now d c (record sid c (LoFailed (FailureWire_from e))
    (advance sid (Timestamp_max (sc_time_floor cols) now) d)) (Err e).
Proof. intros. apply ch_failed; eauto 6. Qed.

Lemma prefix_changed now d cols cols' ev r p :
  let t := Timestamp_max (sc_time_floor cols) now in
  db_ledger d !! request_of c = None -> other_request d (request_of c) = false ->
  db_sessions d !! sid = Some cols ->
  row_change t (cols_set_floor t cols) c cols' ev r p ->
  change now d c (record sid c (LoSucceeded SeApplied p) (log_event
    (set_sessions (advance sid t d) (<[sid := cols']> (db_sessions (advance sid t d))))
    (request_of c) sid t ev)) (Ok r).
Proof. intros t Hl Ho Hc Hrc. rewrite advance_overwrite by eauto. by eapply ch_changed. Qed.

(** [require_open_session] then [advance_time_floor], with the rest of the handler. *)
Lemma prefix_Next {C A} `{!MutableRequest C} (q : C) act (k : SessionRow -> Timestamp -> Tx A) now d v d' :
  (row ← or_finish sid q (require_open_session sid act);
   t ← advance_time_floor sid (sr_time_floor row) now; k row t) d = Next v d' ->
  exists cols row, let t := Timestamp_max (sc_time_floor cols) now in
    db_sessions d !! sid = Some cols /\ row_matches sid cols row /\ sc_closed cols = 0 /\
    k row t (advance sid t d) = Next v d'.
Proof.
  intros E. tx_step E. apply or_finish_Next, require_open_session_Next in Hm as (-> & cols & Hc & Hrow & Hst).
  tx_step E. apply advance_time_floor_Next in Hm as [-> ->]. apply decode_session_Ok in Hrow as Hm.
  pose proof Hm as (_ & _ & _ & _ & _ & Hcl & _ & _ & _ & _ & _ & Hfl). rewrite Hfl in E.
  exists cols, a. split_and!; try done. rewrite Hcl. by destruct (ss_status (sr_snapshot a)).
Qed.

Lemma prefix_Finished {A} act (k : SessionRow -> Timestamp -> Tx A) now d d' e :
  db_ledger d !! request_of c = None -> other_request d (request_of c) = false ->
  (row ← or_finish sid c (require_open_session sid act);
   t ← advance_time_floor sid (sr_time_floor row) now; k row t) d = Finished d' e ->
  (forall row t d1, k row t d1 = Finished d' e ->
     d' = record sid c (LoFailed (FailureWire_from e)) d1) ->
  change now d c d' (Err e).
Proof.
  intros Hl Ho E Hk. apply tx_bind_Finished in E as [E|(row & d1 & Hm & E)].
  { apply or_finish_Finished in E as (_ & _ & ->); [|apply quiet_require_open_session].
    apply (ch_failed now d c); auto. }
  apply or_finish_Next, require_open_session_Next in Hm as (-> & cols & Hc & Hrow & Hst).
  apply decode_session_Ok in Hrow as (_ & _ & _ & _ & _ & Hcl & _ & _ & _ & _ & _ & Hfl).
  apply tx_bind_Finished in E as [E|(t & d2 & Hm & E)]; [by apply quiet_advance in E|].
  apply advance_time_floor_Next in Hm as [-> ->]. apply Hk in E as ->. rewrite Hfl.
  apply prefix_failed; [done..|]. rewrite Hcl. by destruct (ss_status (sr_snapshot row)).
Qed.
End prefix.

(** A row's decoded owner, seen on the row with its floor advanced. *)
Lemma held_floor c t h e x : held c h e x -> held (cols_set_floor t c) h e x.
Proof. done. Qed.

Lemma close_snapshot s t s' u :
  SessionSnapshot_close s t = (s', Ok u) -> SessionSnapshot_wf s -> 0 < Revision_get (ss_revision s) ->
  ss_id s' = ss_id s /\ ss_status s' = Closed /\
  Revision_get (ss_revision s') = Revision_get (ss_revision s) + 1 /\
  Timestamp_le (ss_updated_at s) t /\ SessionSnapshot_wf s'.
Proof.
  unfold SessionSnapshot_close. intros Es [Hwf _] Hpos. case_if_in Es as E1; [by simplify_eq|].
  case_if_in Es as E2; [by simplify_eq|]. ts_norm.
  destruct (Revision_next (ss_revision s)) as [rv|] eqn:Erv; [|by simplify_eq].
  apply Revision_next_Some in Erv as [Hrv _]. injection Es as <- _. cbn.
  split_and!; try done. split; cbn; [by eauto with nav|]. intros [_ ->]. cbn in Hrv. lia.
Qed.

Lemma close_session_change now q d :
  change now d (CmdClose q) (handle now (CmdClose q) d).1 (handle now (CmdClose q) d).2.
Proof.
  unfold handle, execute. rewrite run_map.
  destruct (close_session now q d) as [m d'|e|d' e] eqn:E; cbn [fst snd]; [|by apply ch_none|].
  - unfold close_session in E. tx_step E. apply replay_json_Next in Hm as [-> Hm].
    destruct a as [s|].
    { case_if_in E as E1; [discriminate E|]. tx_step E. apply ch_none. by intros rep [= <-]. }
    destruct Hm as [Hl Ho]. apply (prefix_Next (CmdClose q)) in E as (c & row & Hc & Hm & Hc0 & E).
    destruct Hm as (Hid & _ & _ & Hrev & Hpos & _ & _ & Hup & Hwf & How & _).
    set (t := Timestamp_max (sc_time_floor c) now) in *. cbn [command_session] in *.
    destruct (require_owner _ _ _ _) as [[]|err] eqn:Er; [|by apply finish_failure_Next in E].
    apply require_owner_Ok in Er as (l & Hl' & He & Hown & Hlt). rewrite Hl' in How.
    destruct How as [_ Hheld]. rewrite He, Hown in Hheld.
    destruct (SessionSnapshot_close (sr_snapshot row) t) as [s cr] eqn:Es.
    tx_step E. apply map_err_Ok in Hm. tx_step E. tx_step E. apply update_one_Next in E as (c' & Hc' & Hcond & E).
    rewrite (advance_lookup _ _ _ _ Hc) in Hc'. injection Hc' as <-.
    tx_step E. tx_step E. apply append_event_data_Next in Hm2 as [_ ->].
    apply insert_ledger_Next in Hm3 as [_ ->]. tx_step E.
    rewrite <-Hrev in Hpos. subst cr. destruct (close_snapshot _ _ _ _ Es Hwf Hpos) as (Hid' & Hcl' & Hrv & Hle & Hwf').
    unfold to_i64 in Hm0. case_if_in Hm0 as E3; [|discriminate Hm0]. injection Hm0 as <-. bool_norm.
    rewrite Hrv, Hrev, Hup in *.
    apply (prefix_changed (CmdClose q) now d c _ (Some (sc_revision c + 1, "session.closed"%string, _)));
      [done..|]. apply (rc_close t (cols_set_floor t c) q (ol_expires_at l) s); cbn;
      first [done | congruence].
  - unfold close_session in E. finish_step E. apply replay_json_Next in Hm as [-> Hm].
    destruct a as [s|]; [case_if_in E as E1; discriminate E|]. destruct Hm as [Hl Ho].
    apply (prefix_Finished (CmdClose q)) in E; [done..|]. clear. intros row t d1 E.
    destruct (require_owner _ _ _ _) as [[]|err] eqn:Er.
    { destruct (SessionSnapshot_close _ _) as [s cr]. do 7 finish_step E. discriminate E. }
    by apply finish_failure_Finished in E as (-> & _ & ->).
Qed.

Lemma acquire_replayed now q d r d' m d'' :
  (decoded ← lift (decode_lease r);
   _ ← lift (validate_lease_replay decoded.2 decoded.1 (aq_session_id q)
               (rc_caller (aq_context q)) None (aq_duration q));
   mret (Replayed decoded.2)) d = Next m d' -> d = d'' ->
  change now d'' (CmdAcquire q) d' (Ok (ReplyLease m)).
Proof. intros E <-. tx_step E. tx_step E. tx_step E. apply ch_none. by intros rep [= <-]. Qed.

Lemma to_i64_Ok v w : to_i64 v = Ok w -> w = v /\ v <= i64_max.
Proof. unfold to_i64. intros H. by inv_result. Qed.
Lemma lease_new_Ok s h e now t l :
  map_err (fun _ : OwnershipLeaseError => Invalid) (OwnershipLease_new s h e now t) = Ok l ->
  l = MkLease s h e t.
Proof. unfold OwnershipLease_new. intros H. by inv_result. Qed.

Lemma acquire_ownership_change now q d :
  change now d (CmdAcquire q) (handle now (CmdAcquire q) d).1 (handle now (CmdAcquire q) d).2.
Proof.
  unfold handle, execute. rewrite run_map.
  destruct (acquire_ownership _ now q d) as [m d'|e|d' e] eqn:E; cbn [fst snd]; [|by apply ch_none|].
  - unfold acquire_ownership in E. tx_step E. apply replay_bytes_Next in Hm as [-> Hm].
    destruct a as [r|]; [by eapply acquire_replayed|].
    destruct Hm as [Hl Ho]. apply (prefix_Next (CmdAcquire q)) in E as (c & row & Hc & Hm & Hc0 & E).
    destruct Hm as (_ & _ & _ & Hrev & Hpos & _ & _ & _ & _ & How & Hhw & _).
    set (t := Timestamp_max (sc_time_floor c) now) in *. cbn [command_session] in *.
    destruct (expiry _ _ _) as [x|err] eqn:Ex; [|by apply finish_failure_Next in E].
    case_if_in E as Ele; [by apply finish_failure_Next in E|]. ts_norm.
    tx_step E. assert (d0 = advance (aq_session_id q) t d /\
      forall h e0 t0, held c h e0 t0 -> Timestamp_le t0 t) as [-> Hfree].
    { destruct (sr_owner row) as [l|].
      - case_if_in Hm as Eff; [by apply finish_failure_Next in Hm|]. tx_step Hm. split; [done|].
        unfold is_effective_at in Eff. ts_norm. destruct How as (_ & _ & _ & Hx).
        intros h e0 t0 (_ & _ & Hx'). congruence.
      - tx_step Hm. split; [done|]. intros h e0 t0 (Hh & _). congruence. }
    tx_step E. tx_step E. tx_step E. tx_step E. tx_step E.
    apply update_one_Next in E as (c' & Hc' & _ & E).
    rewrite (advance_lookup _ _ _ _ Hc) in Hc'. injection Hc' as <-.
    tx_step E. tx_step E. apply append_event_data_Next in Hm5 as [_ ->].
    apply insert_ledger_Next in Hm6 as [_ ->]. tx_step E.
    apply lease_new_Ok in Hm2 as ->. apply to_i64_Ok in Hm3 as [-> ?], Hm4 as [-> ?].
    apply ok_or_Ok in Hm0, Hm1. apply Revision_next_Some in Hm1 as [Hrv _].
    assert (FencingEpoch_get a0 = sc_epoch_high_water c + 1) as Hep.
    { rewrite Hhw in Hm0. unfold checked_add_u64, FencingEpoch_new in Hm0.
      case_if_in Hm0 as E1; [|done]. cbn in Hm0. case_if_in Hm0 as E2; [done|]. by injection Hm0 as <-. }
    rewrite Hrv, Hrev, Hep in *.
    apply (prefix_changed (CmdAcquire q) now d c _ (Some (sc_revision c + 1, "ownership.acquired"%string, _)));
      [done..|]. by apply (rc_acquire t (cols_set_floor t c) q x a0).
  - unfold acquire_ownership in E. finish_step E. apply replay_bytes_Next in Hm as [-> Hm].
    destruct a as [r|]; [do 2 finish_step E; discriminate E|]. destruct Hm as [Hl Ho].
    apply (prefix_Finished (CmdAcquire q)) in E; [done..|]. clear. intros row t d1 E.
    destruct (expiry _ _ _) as [x|err] eqn:Ex; [|by apply finish_failure_Finished in E as (-> & _ & ->)].
    case_if_in E as Ele; [by apply finish_failure_Finished in E as (-> & _ & ->)|].
    apply tx_bind_Finished in E as [E|(u & d2 & _ & E)].
    { destruct (sr_owner row); [|discriminate E]. case_if_in E as Eff; [|discriminate E].
      by apply finish_failure_Finished in E as (-> & _ & ->). }
    do 9 finish_step E. discriminate E.
Qed.

Lemma renew_ownership_change now q d :
  change now d (CmdRenew q) (handle now (CmdRenew q) d).1 (handle now (CmdRenew q) d).2.
Proof.
  unfold handle, execute. rewrite run_map.
  destruct (renew_ownership _ now q d) as [m d'|e|d' e] eqn:E; cbn [fst snd]; [|by apply ch_none|].
  - unfold renew_ownership in E. tx_step E. apply replay_bytes_Next in Hm as [-> Hm].
    destruct a as [r|]; [tx_step E; tx_step E; tx_step E; apply ch_none; by intros rep [= <-]|].
    destruct Hm as [Hl Ho]. apply (prefix_Next (CmdRenew q)) in E as (c & row & Hc & Hm & Hc0 & E).
    destruct Hm as (_ & _ & _ & _ & _ & _ & _ & _ & _ & How & _).
    set (t := Timestamp_max (sc_time_floor c) now) in *. cbn [command_session] in *.
    destruct (require_owner _ _ _ _) as [[]|err] eqn:Er; [|by apply finish_failure_Next in E].
    apply require_owner_Ok in Er as (l & Hl' & He & Hown & Hlt). rewrite Hl' in How.
    destruct How as [_ Hheld]. rewrite He, Hown in Hheld.
    destruct (expiry _ _ _) as [x|err] eqn:Ex; [|by apply finish_failure_Next in E].
    case_if_in E as Ele; [by apply finish_failure_Next in E|]. ts_norm.
    tx_step E. tx_step E. apply update_one_Next in E as (c' & Hc' & _ & E).
    rewrite (advance_lookup _ _ _ _ Hc) in Hc'. injection Hc' as <-.
    tx_step E. apply insert_ledger_Next in Hm1 as [_ ->]. tx_step E. apply lease_new_Ok in Hm as ->.
    apply (prefix_changed (CmdRenew q) now d c _ None); [done..|].
    by apply (rc_renew t (cols_set_floor t c) q (ol_expires_at l) x).
  - unfold renew_ownership in E. finish_step E. apply replay_bytes_Next in Hm as [-> Hm].
    destruct a as [r|]; [do 2 finish_step E; discriminate E|]. destruct Hm as [Hl Ho].
    apply (prefix_Finished (CmdRenew q)) in E; [done..|]. clear. intros row t d1 E.
    destruct (require_owner _ _ _ _) as [[]|err] eqn:Er; [|by apply finish_failure_Finished in E as (-> & _ & ->)].
    destruct (expiry _ _ _) as [x|err] eqn:Ex; [|by apply finish_failure_Finished in E as (-> & _ & ->)].
    case_if_in E as Ele; [by apply finish_failure_Finished in E as (-> & _ & ->)|].
    do 5 finish_step E. discriminate E.
Qed.

Lemma release_ownership_change now q d :
  change now d (CmdRelease q) (handle now (CmdRelease q) d).1 (handle now (CmdRelease q) d).2.
Proof.
  unfold handle, execute. rewrite run_map.
  destruct (release_ownership now q d) as [m d'|e|d' e] eqn:E; cbn [fst snd]; [|by apply ch_none|].
  - unfold release_ownership in E. tx_step E. apply replay_bytes_Next in Hm as [-> Hm].
    destruct a as [r|].
    { repeat case_match; try discriminate E. tx_step E. apply ch_none. by intros rep [= <-]. }
    destruct Hm as [Hl Ho]. apply (prefix_Next (CmdRelease q)) in E as (c & row & Hc & Hm & Hc0 & E).
    destruct Hm as (_ & _ & _ & Hrev & Hpos & _ & _ & _ & _ & How & _).
    set (t := Timestamp_max (sc_time_floor c) now) in *. cbn [command_session] in *.
    destruct (require_owner _ _ _ _) as [[]|err] eqn:Er; [|by apply finish_failure_Next in E].
    apply require_owner_Ok in Er as (l & Hl' & He & Hown & Hlt). rewrite Hl' in How.
    destruct How as [_ Hheld]. rewrite He, Hown in Hheld.
    tx_step E. tx_step E. tx_step E. apply update_one_Next in E as (c' & Hc' & _ & E).
    rewrite (advance_lookup _ _ _ _ Hc) in Hc'. injection Hc' as <-.
    tx_step E. tx_step E. apply append_event_data_Next in Hm2 as [_ ->].
    apply insert_ledger_Next in Hm3 as [_ ->]. tx_step E. apply to_i64_Ok in Hm0 as [-> ?].
    apply ok_or_Ok, Revision_next_Some in Hm as [Hrv _]. rewrite Hrv, Hrev in *.
    apply (prefix_changed (CmdRelease q) now d c _ (Some (sc_revision c + 1, "ownership.released"%string, _)));
      [done..|]. by apply (rc_release t (cols_set_floor t c) q (ol_expires_at l)).
  - unfold release_ownership in E. finish_step E. apply replay_bytes_Next in Hm as [-> Hm].
    destruct a as [r|]; [repeat case_match; discriminate E|]. destruct Hm as [Hl Ho].
    apply (prefix_Finished (CmdRelease q)) in E; [done..|]. clear. intros row t d1 E.
    destruct (require_owner _ _ _ _) as [[]|err] eqn:Er; [|by apply finish_failure_Finished in E as (-> & _ & ->)].
    do 7 finish_step E. discriminate E.
Qed.

Lemma handle_change now c d : change now d c (handle now c d).1 (handle now c d).2.
Proof.
  destruct c; [apply open_session_change | apply close_session_change | apply acquire_ownership_change
    | apply renew_ownership_change | apply release_ownership_change].
Qed.
End store.
