(* ===== verification/Ownership.v ===== *)
(** * Ownership: theorems about the session store over all histories

    The session store of SqliteSession.v as a transition system: calls with any clock
    reading, calls whose answer is lost in a crash after the commit, and calls that
    abort.  Proved from the per-transaction contract of SessionLedger.v. *)
From S2P Require Import Prelude Scalars Session Authority Capacity Json StoreApi StoreWire Template Message OperationApi SqliteDb SqliteSession SessionLedger.

(** What the code relies on of the calendar: addition is exact, and the representable
    instants form an interval whose seconds fit an [i64]. *)
Class TimeArithLaws `{TA : TimeArith} := {
  checked_add_instant : forall d m d', checked_add_millis d m = Some d' ->
    instant d' = instant d + m * 1000000;
  unix_interval : forall a s b, unix_timestamp a <= s <= unix_timestamp b ->
    is_Some (from_unix_timestamp s);
  unix_fits_i64 : forall d, i64_min <= unix_timestamp d;
}.

(** Commands built by their constructors. *)
Definition context_wf (c : RequestContext) : Prop := Id_wf (rc_caller c).
Definition command_wf (c : Command) : Prop :=
  match c with
  | CmdOpen q => context_wf (os_context q) /\ Id_wf (os_session_id q) /\
      wf (Validated := BoundedText_validated _) (os_consumer_key q) /\ Compat_wf (os_compatibility q)
  | CmdClose q => context_wf (cs_context q)
  | CmdAcquire q => context_wf (aq_context q) /\ Id_wf (aq_session_id q) /\ LeaseDuration_wf (aq_duration q)
  | CmdRenew q => context_wf (rn_context q) /\ Id_wf (rn_session_id q) /\ LeaseDuration_wf (rn_duration q)
  | CmdRelease q => context_wf (rl_context q)
  end.

(** The store's time for a call: the caller's clock, never behind the session's floor. *)
Definition store_time (c : SessionCols) (now : Timestamp) : Timestamp := Timestamp_max (sc_time_floor c) now.

Inductive Label :=
| LCall (now : Timestamp) (c : Command) (r : result StoreError Reply)
| LLost (now : Timestamp) (c : Command)
| LAbort (c : Command) (e : StoreError).

Section store.
Context {TL : TimeLib} {TA : TimeArith} {SH : Sha256} {JS : Json} {UT : UuidText}.
Variable max_lease_millis : Z.
Abbreviation handle := (handle max_lease_millis).
Abbreviation change := (change max_lease_millis).
Abbreviation row_change := (row_change max_lease_millis).

Inductive step : Db -> Label -> Db -> Prop :=
| step_call now c d : Timestamp_wf now -> command_wf c ->
    step d (LCall now c (handle now c d).2) (handle now c d).1
| step_lost now c d : Timestamp_wf now -> command_wf c -> step d (LLost now c) (handle now c d).1
| step_abort c e d : step d (LAbort c e) d.

(** Every step is a [change] or nothing. *)
Lemma step_change d l d' : step d l d' ->
  d' = d \/ exists now c r, Timestamp_wf now /\ command_wf c /\ change now d c d' r.
Proof.
  destruct 1 as [now c d Hn Hc|now c d Hn Hc|]; [right..|by left];
    exists now, c, (handle now c d).2; auto using handle_change.
Qed.

(** ** One row *)

Lemma log_event_sessions d rid sid now ev : db_sessions (log_event d rid sid now ev) = db_sessions d.
Proof. by destruct ev as [[[? ?] ?]|]. Qed.
Lemma opened_manifests_sessions q d : db_sessions (opened_manifests q d) = db_sessions d.
Proof. unfold opened_manifests. by destruct (os_manifest q). Qed.
Lemma advance_other sid t d sid' : sid' <> sid -> db_sessions (advance sid t d) !! sid' = db_sessions d !! sid'.
Proof. unfold advance. intros. case_match; [cbn; by rewrite lookup_insert_ne|done]. Qed.

Lemma advance_manifests sid t d : db_manifests (advance sid t d) = db_manifests d.
Proof. unfold advance. by destruct (db_sessions d !! sid). Qed.

(** How one session's row moves in a transaction. *)
Inductive row_step (now : Timestamp) (c : Command) (r : result StoreError Reply) :
    option SessionCols -> option SessionCols -> Prop :=
| rs_same o : row_step now c r o o
| rs_floor cols e : sc_closed cols = 0 -> r = Err e ->
    row_step now c r (Some cols) (Some (cols_set_floor (Timestamp_max (sc_time_floor cols) now) cols))
| rs_open q key : c = CmdOpen q -> row_step now c r None (Some (opened_cols key q now))
| rs_change cols cols' ev rep p :
    let t := Timestamp_max (sc_time_floor cols) now in
    row_change t (cols_set_floor t cols) c cols' ev rep p -> r = Ok rep ->
    row_step now c r (Some cols) (Some cols').

Lemma change_row now d c d' r sid : change now d c d' r ->
  db_sessions d' !! sid = db_sessions d !! sid \/
  sid = command_session c /\ row_step now c r (db_sessions d !! sid) (db_sessions d' !! sid).
Proof.
  destruct 1 as [c r Hr|c d1 e Hl Ho Hd1|q s Hl Ho|q key Hl Ho Hs d1 s d2|c cols cols' ev r p Hl Ho Hs t Hrc d1 d2].
  - by left.
  - destruct Hd1 as [->|(cols & Hc & Hcl & ->)]; [by left|].
    destruct (decide (sid = command_session c)) as [->|Hne]; [right|left; by apply advance_other].
    split; [done|]. cbn. rewrite (advance_lookup _ _ _ _ Hc), Hc. by eapply rs_floor.
  - by left.
  - subst d2. cbn [record set_ledger db_sessions]. rewrite log_event_sessions, opened_manifests_sessions.
    destruct (decide (sid = os_session_id q)) as [->|Hne]; [right|left; by apply lookup_insert_ne].
    split; [done|]. cbn [d1 set_sessions db_sessions]. rewrite Hs, lookup_insert_eq. by eapply rs_open.
  - subst d2. cbn [record set_ledger db_sessions]. rewrite log_event_sessions.
    destruct (decide (sid = command_session c)) as [->|Hne]; [right|left; by apply lookup_insert_ne].
    split; [done|]. cbn [d1 set_sessions db_sessions]. rewrite Hs, lookup_insert_eq. by eapply rs_change.
Qed.

(** A property of single rows that opening establishes and every row step keeps
    holds of every row of every reachable database. *)
Definition all_rows (P : SessionId -> SessionCols -> Prop) (d : Db) : Prop :=
  forall sid c, db_sessions d !! sid = Some c -> P sid c.

Lemma all_rows_step (P : SessionId -> SessionCols -> Prop) :
  (forall now c r o c', Timestamp_wf now -> command_wf c ->
     row_step now c r o (Some c') -> (forall c0, o = Some c0 -> P (command_session c) c0) ->
     P (command_session c) c') ->
  forall d l d', all_rows P d -> step d l d' -> all_rows P d'.
Proof.
  intros HP d l d' Hd Hst sid c' Hc'. apply step_change in Hst as [->|(now & c & r & Hn & Hw & Hch)];
    [by apply Hd|].
  destruct (change_row _ _ _ _ _ sid Hch) as [Heq|[-> Hrow]]; [apply Hd; congruence|].
  rewrite Hc' in Hrow. apply (HP now c r _ _ Hn Hw Hrow). intros c0 Hc0. by apply Hd.
Qed.

(** ** Well-formed rows *)

(** The owner columns are set together, the owner's epoch is the high-water mark, and
    the lease outlives the session's creation. *)
Definition owner_wf (c : SessionCols) : Prop :=
  match sc_owner_host_id c with
  | None => True
  | Some h => h <> 0 /\ sc_owner_epoch c = Some (sc_epoch_high_water c) /\ 0 < sc_epoch_high_water c /\
      exists t, sc_owner_expires_at c = Some t /\ Timestamp_wf t /\ Timestamp_lt (sc_created_at c) t
  end.

Record cols_wf (sid : SessionId) (c : SessionCols) : Prop := {
  cw_id : Id_wf sid;
  cw_key : wf (Validated := BoundedText_validated MAX_CONSUMER_KEY_BYTES)
             (MkBoundedText (sc_public_consumer_key c));
  cw_compat : length (sc_compatibility c) = 32%nat;
  cw_revision : 0 < sc_revision c <= i64_max;
  cw_closed : sc_closed c = 0 \/ sc_closed c = 1 /\ sc_revision c <> 1 /\ sc_owner_host_id c = None;
  cw_times : Timestamp_wf (sc_created_at c) /\ Timestamp_wf (sc_updated_at c) /\
             Timestamp_wf (sc_time_floor c);
  cw_order : Timestamp_le (sc_created_at c) (sc_updated_at c) /\
             Timestamp_le (sc_updated_at c) (sc_time_floor c);
  cw_high_water : 0 <= sc_epoch_high_water c <= i64_max;
  cw_owner : owner_wf c;
}.

Lemma Timestamp_max_wf a b : Timestamp_wf a -> Timestamp_wf b -> Timestamp_wf (Timestamp_max a b).
Proof. unfold Timestamp_max. intros. by case_match. Qed.
Lemma Timestamp_max_le_l a b : Timestamp_le a (Timestamp_max a b).
Proof. unfold Timestamp_max. destruct (Timestamp_ltb b a) eqn:E; [apply Timestamp_le_refl|]. by ts_norm. Qed.
Lemma Timestamp_max_le_r a b : Timestamp_le b (Timestamp_max a b).
Proof.
  unfold Timestamp_max. destruct (Timestamp_ltb b a) eqn:E; [|apply Timestamp_le_refl]. ts_norm. by left.
Qed.
Lemma Timestamp_max_lub a b c : Timestamp_le a c -> Timestamp_le b c -> Timestamp_le (Timestamp_max a b) c.
Proof. unfold Timestamp_max. intros. by case_match. Qed.

Lemma expiry_wf now q t : expiry max_lease_millis now q = Ok t -> Timestamp_wf t.
Proof. unfold expiry. intros H. inv_result. by eexists. Qed.

Lemma row_change_wf sid now c cmd c' ev rep p :
  Timestamp_wf now -> command_wf cmd -> cols_wf sid c ->
  sc_time_floor c = now -> row_change now c cmd c' ev rep p -> cols_wf sid c'.
Proof.
  intros Hn Hcmd [Hid Hkey Hcomp Hrev Hcl (Hw1 & Hw2 & Hw3) [Ho1 Ho2] Hhw How] Hfl Hrc.
  assert (Hcn : Timestamp_le (sc_created_at c) now) by (rewrite <-Hfl; eauto with nav).
  assert (Hun : Timestamp_le (sc_updated_at c) now) by (by rewrite <-Hfl).
  destruct Hrc as [q t s Hh Hlt|q t e Hfree Hex Hlt He|q t t' Hh Hlt Hex Hlt'|q t Hh Hlt];
    constructor; cbn; rewrite ?Hfl; auto with nav; try (split; auto with nav); try lia.
  - right. split_and!; [done|lia|done].
  - by destruct Hcmd as [? _].
  - split; [done|]. split; [lia|]. exists t. split_and!; [done | by eapply expiry_wf | eauto with nav].
  - unfold owner_wf in *; cbn. destruct Hh as (Hh & _). rewrite Hh in *.
    destruct How as (? & ? & ? & _). split_and!; try done. exists t'.
    split_and!; [done | by eapply expiry_wf | eauto with nav].
Qed.

Lemma cols_floor_wf sid c t :
  cols_wf sid c -> Timestamp_wf t -> Timestamp_le (sc_time_floor c) t -> cols_wf sid (cols_set_floor t c).
Proof.
  intros [? ? ? ? ? (?&?&?) [? ?] ? ?] ? ?. constructor; cbn; auto. split; [done|]. eauto with nav.
Qed.

Lemma row_step_wf now c r o c' :
  Timestamp_wf now -> command_wf c -> row_step now c r o (Some c') ->
  (forall c0, o = Some c0 -> cols_wf (command_session c) c0) -> cols_wf (command_session c) c'.
Proof.
  intros Hn Hc Hrs Ho.
  inversion Hrs as [o' Heq|cols e Hcl Hr|q key Heq|cols cols' ev rep p t Hrc Hr]; subst.
  - by apply Ho.
  - specialize (Ho _ eq_refl) as Hw. pose proof (cw_times _ _ Hw) as (_ & _ & Hfw).
    apply cols_floor_wf; [done | by apply Timestamp_max_wf | apply Timestamp_max_le_l].
  - destruct Hc as (_ & Hid & Hkey & Hcomp). constructor; cbn; auto with nav; try lia; try done.
  - specialize (Ho _ eq_refl) as Hw. pose proof (cw_times _ _ Hw) as (_ & _ & Hfw).
    assert (Hw' := cols_floor_wf _ _ t Hw (Timestamp_max_wf _ _ Hfw Hn) (Timestamp_max_le_l _ _)).
    by apply (row_change_wf (command_session c) t _ c c' ev rep p (Timestamp_max_wf _ _ Hfw Hn) Hc Hw').
Qed.

Lemma trace_rows_wf d ls d' : trace step d ls d' -> all_rows cols_wf d -> all_rows cols_wf d'.
Proof.
  apply trace_invariant. intros s l s' Hs Hst.
  apply (all_rows_step cols_wf row_step_wf s l s' Hs Hst).
Qed.

(** ** Stored rows decode *)

Section laws.
Context {TLaws : TimeLaws} {TALaws : TimeArithLaws}.

Lemma Timestamp_new_wf t : Timestamp_wf t -> Timestamp_new (unix_seconds t) (nanoseconds t) = Ok t.
Proof.
  intros [d ->]. unfold Timestamp_new, Timestamp_from_datetime; cbn.
  pose proof (nanosecond_range d) as Hr. unfold NANOS in Hr.
  case_if as E; bool_norm; [lia|]. by destruct (wire_value_total d) as [d' ->].
Qed.

Lemma Timestamp_nanos t : Timestamp_wf t -> 0 <= nanoseconds t < 1000000000.
Proof. intros [d ->]. apply (nanosecond_range d). Qed.

Lemma to_u32_nanos t : Timestamp_wf t -> to_u32 (nanoseconds t) = Ok (nanoseconds t).
Proof.
  intros Ht%Timestamp_nanos. unfold to_u32, u32_max. case_if as E; [done|].
  apply andb_false_iff in E as [E|E]; bool_norm; lia.
Qed.

Lemma decode_ts_wf t : Timestamp_wf t -> decode_ts t = Ok t.
Proof.
  intros Ht. unfold decode_ts, decode_timestamp. rewrite to_u32_nanos by done.
  by rewrite bind_of_Ok, Timestamp_new_wf.
Qed.

Lemma Timestamp_new_between a s b n :
  Timestamp_wf a -> Timestamp_wf b -> unix_seconds a <= s <= unix_seconds b -> 0 <= n < NANOS ->
  Timestamp_new s n = Ok (MkTimestamp s n).
Proof.
  intros [da ->] [db ->] Hs Hn. unfold Timestamp_new. unfold NANOS in Hn.
  case_if as E; bool_norm; [lia|]. destruct (unix_interval da s db Hs) as [d Hd]. rewrite Hd. cbn.
  assert (is_Some (replace_nanosecond d n)) as [d' ->] by (by apply replace_in_range). done.
Qed.

Lemma timestamp_before_wf a t : Timestamp_wf a -> Timestamp_wf t -> Timestamp_lt a t ->
  exists b, timestamp_before (unix_seconds t) (nanoseconds t) = Ok b /\ Timestamp_lt b t.
Proof.
  intros Ha Ht Hlt. pose proof (Timestamp_nanos _ Ht) as Hn. pose proof (Timestamp_nanos _ Ha) as Hna.
  assert (i64_min <= unix_seconds a) by (destruct Ha as [da ->]; apply unix_fits_i64).
  unfold timestamp_before. case_if as E; bool_norm.
  - rewrite (Timestamp_new_between a _ t) by (unfold NANOS; try done; unfold Timestamp_lt in Hlt; lia).
    eexists; split; [done|]. unfold Timestamp_lt; cbn. lia.
  - assert (Hs : unix_seconds a <= unix_seconds t - 1) by (unfold Timestamp_lt in Hlt; lia).
    case_if as E2; bool_norm; [|lia]. rewrite bind_of_Ok.
    rewrite (Timestamp_new_between a _ t) by (unfold NANOS; try done; lia).
    eexists; split; [done|]. unfold Timestamp_lt; cbn. lia.
Qed.

Lemma decode_owner_wf sid c : Timestamp_wf (sc_created_at c) -> owner_wf c -> sc_epoch_high_water c <= i64_max ->
  exists o, decode_owner sid c = Ok o /\
    match o with Some l => FencingEpoch_get (ol_epoch l) = sc_epoch_high_water c | None => True end.
Proof.
  intros Hcr How Hhw. unfold decode_owner, owner_wf in *.
  destruct (sc_owner_host_id c) as [h|]; [|by exists None].
  destruct How as (Hh & -> & Hpos & t & -> & Ht & Hlt). cbn [ok_or]. rewrite bind_of_Ok.
  destruct (timestamp_before_wf _ _ Hcr Ht Hlt) as (b & Hb & Hbt).
  assert (from_uuid (k := KHost) h = Ok (MkId h)) as ->.
  { unfold from_uuid, Uuid_is_nil. case_if as E; [by bool_norm|done]. }
  unfold decode_epoch, to_u64, FencingEpoch_new. cbn [corrupt map_err]. rewrite !bind_of_Ok.
  case_if as E1; bool_norm; [|lia]. rewrite bind_of_Ok. case_if as E2; bool_norm; [lia|].
  cbn [map_err]. rewrite bind_of_Ok, to_u32_nanos, bind_of_Ok, Hb, bind_of_Ok, decode_ts_wf, bind_of_Ok by done.
  unfold OwnershipLease_new. apply Timestamp_leb_gt in Hbt. rewrite Hbt. by eexists.
Qed.

Lemma decode_session_wf sid c : cols_wf sid c -> exists row, decode_session sid c = Ok row.
Proof.
  intros [Hid Hkey Hcomp Hrev Hcl (Hw1 & Hw2 & Hw3) [Ho1 Ho2] Hhw How]. unfold decode_session, corrupt.
  assert (from_uuid (k := KSession) (as_uuid sid) = Ok sid) as ->
    by (exact (validate_complete (Validated0 := Id_validated KSession) sid Hid)).
  cbn [map_err]. rewrite bind_of_Ok.
  assert (ConsumerKey_new (sc_public_consumer_key c) = Ok (MkBoundedText (sc_public_consumer_key c))) as ->
    by (exact (validate_complete (Validated0 := BoundedText_validated _) _ Hkey)).
  cbn [map_err]. rewrite bind_of_Ok, bool_decide_true, bind_of_Ok by done.
  assert (decode_revision (sc_revision c) = Ok (MkRevision (sc_revision c))) as ->.
  { unfold decode_revision, to_u64, Revision_new. case_if as E; bool_norm; [|lia].
    rewrite bind_of_Ok. case_if as E2; bool_norm; [lia|done]. }
  rewrite bind_of_Ok. destruct (decode_owner_wf sid c Hw1 How) as (o & Hown & Hep); [lia|].
  assert (exists st, (if sc_closed c =? 0 then Ok Open else if sc_closed c =? 1 then Ok Closed
    else Err Corrupt : result StoreError SessionStatus) = Ok st /\ (st = Closed -> sc_revision c <> 1))
    as (st & -> & Hst).
  { destruct Hcl as [->|(-> & ? & _)]; eexists; split; try reflexivity; try done. }
  rewrite bind_of_Ok, !decode_ts_wf, !bind_of_Ok by done.
  unfold SessionSnapshot_new. apply Timestamp_ltb_ge in Ho1. rewrite Ho1.
  case_if as E; [exfalso; bool_norm; apply Hst; [done|]; unfold Revision_initial in *; congruence|]. cbn [map_err]. rewrite bind_of_Ok, Hown, bind_of_Ok.
  unfold to_u64. case_if as E2; bool_norm; [|lia]. rewrite bind_of_Ok.
  assert (match o with Some l => sc_epoch_high_water c <? FencingEpoch_get (ol_epoch l) | None => false end = false)
    as -> by (destruct o as [l|]; [rewrite Hep; apply Z.ltb_irrefl|done]).
  by eexists.
Qed.
End laws.

(** ** Fencing *)

(** The lease a call issued, and the authority a call exercised. *)
Definition issued (l : Label) : option OwnershipLease :=
  match l with LCall _ (CmdAcquire _) (Ok (ReplyLease (Applied lease))) => Some lease | _ => None end.
Definition exercised (l : Label) : option (SessionId * HostId * FencingEpoch) :=
  match l with
  | LCall _ (CmdRenew q) (Ok (ReplyLease (Applied _))) =>
      Some (rn_session_id q, rc_caller (rn_context q), rn_epoch q)
  | LCall _ (CmdRelease q) (Ok (ReplyOwnership (Applied _))) =>
      Some (rl_session_id q, rc_caller (rl_context q), rl_epoch q)
  | LCall _ (CmdClose q) (Ok (ReplySession (Applied _))) =>
      Some (cs_session_id q, rc_caller (cs_context q), cs_epoch q)
  | _ => None
  end.

(** From here on the session's epoch is at least [e], and while it is [e] only [h]
    holds the lease. *)
Definition fence (sid : SessionId) (h : HostId) (e : FencingEpoch) (d : Db) : Prop :=
  exists c, db_sessions d !! sid = Some c /\ FencingEpoch_get e <= sc_epoch_high_water c /\
    (sc_epoch_high_water c = FencingEpoch_get e -> forall h' e' t, held c h' e' t -> h' = h).

Lemma Id_eq {k} (a b : Id k) : as_uuid a = as_uuid b -> a = b.
Proof. destruct a, b. cbn. congruence. Qed.
Lemma FencingEpoch_eq a b : FencingEpoch_get a = FencingEpoch_get b -> a = b.
Proof. destruct a, b. cbn. congruence. Qed.

Lemma row_step_fence now c r o o' h e :
  row_step now c r o o' ->
  (exists x, o = Some x /\ FencingEpoch_get e <= sc_epoch_high_water x /\
    (sc_epoch_high_water x = FencingEpoch_get e -> forall h' e' t, held x h' e' t -> h' = h)) ->
  exists x, o' = Some x /\ FencingEpoch_get e <= sc_epoch_high_water x /\
    (sc_epoch_high_water x = FencingEpoch_get e -> forall h' e' t, held x h' e' t -> h' = h).
Proof.
  intros Hrs (x & -> & Hle & Hh).
  inversion Hrs as [o'' Heq|cols e0 Hcl Hr|q key Heq|cols cols' ev rep p t Hrc Hr]; subst; [by eauto| |].
  { eexists; split; [done|]. split; [done|]. exact Hh. }
  eexists; split; [done|]. destruct Hrc as [| |q x0 x1 (Hy1 & Hy2 & Hy3)|]; cbn in *.
  - split; [done|]. by intros _ h' e' t' [? _].
  - split; [lia|]. intros. lia.
  - split; [done|]. intros Heq h' e' t1 (Hx1 & Hx2 & _). by apply (Hh Heq h' e' x0).
  - split; [done|]. by intros _ h' e' t' [? _].
Qed.

Lemma step_fence sid h e d l d' : step d l d' -> fence sid h e d -> fence sid h e d'.
Proof.
  intros Hst Hf. apply step_change in Hst as [->|(now & c & r & _ & _ & Hch)]; [done|].
  destruct (change_row _ _ _ _ _ sid Hch) as [Heq|[-> Hrow]]; unfold fence in *; [by rewrite Heq|].
  exact (row_step_fence _ _ _ _ _ _ _ Hrow Hf).
Qed.

(** What a call that was applied to an existing session did to its row. *)
Lemma applied_row now cmd d rep :
  (handle now cmd d).2 = Ok rep -> reply_replayed rep = false ->
  (forall q, cmd <> CmdOpen q) ->
  exists c c' ev p, let t := Timestamp_max (sc_time_floor c) now in
    db_sessions d !! command_session cmd = Some c /\
    db_sessions (handle now cmd d).1 !! command_session cmd = Some c' /\
    row_change t (cols_set_floor t c) cmd c' ev rep p.
Proof.
  intros Hr Hrep Hno. pose proof (handle_change max_lease_millis now cmd d) as Hch. rewrite Hr in Hch.
  inversion Hch as [c r Hn| |q|q|c cols cols' ev rep' p Hl Ho Hs t Hrc d1 d2]; subst; try by destruct (Hno q).
  - by rewrite (Hn _ eq_refl) in Hrep.
  - exists cols, cols', ev, p. split_and!; [done| |done]. subst d2.
    cbn [record set_ledger db_sessions].
    rewrite log_event_sessions. apply lookup_insert_eq.
Qed.

Lemma issued_row now q d lease :
  (handle now (CmdAcquire q) d).2 = Ok (ReplyLease (Applied lease)) ->
  exists c c', let t := Timestamp_max (sc_time_floor c) now in
    db_sessions d !! ol_session_id lease = Some c /\
    db_sessions (handle now (CmdAcquire q) d).1 !! ol_session_id lease = Some c' /\
    ol_session_id lease = aq_session_id q /\ ol_owner lease = rc_caller (aq_context q) /\
    FencingEpoch_get (ol_epoch lease) = sc_epoch_high_water c + 1 /\
    sc_epoch_high_water c' = sc_epoch_high_water c + 1 /\ sc_time_floor c' = t /\
    held c' (ol_owner lease) (ol_epoch lease) (ol_expires_at lease) /\
    Timestamp_lt t (ol_expires_at lease) /\ (forall h e x, held c h e x -> Timestamp_le x t).
Proof.
  intros Hr. destruct (applied_row _ _ _ _ Hr eq_refl) as (c & c' & ev & p & Hc & Hc' & Hrc); [done|].
  inversion Hrc as [|? x e Hfree Hex Hlt He Hb1 Hb2 Hcl ls|?|?]; subst. exists c.
  eexists. cbn in *. split_and!; try done. unfold held; cbn. by rewrite He.
Qed.

Lemma exercised_row d l d' sid h e : step d l d' -> exercised l = Some (sid, h, e) ->
  exists c t, db_sessions d !! sid = Some c /\ held c h e t.
Proof.
  intros Hst He. destruct Hst as [now cmd d Hn Hw|now cmd d Hn Hw|cmd e0 d]; [|done..].
  destruct ((handle now cmd d).2) as [rep|] eqn:Hr; [|by destruct cmd].
  assert (Hap : reply_replayed rep = false /\ (forall q, cmd <> CmdOpen q) /\ command_session cmd = sid).
  { destruct cmd, rep as [[]|[]|[]]; cbn in He; try done; by injection He as <- <- <-. }
  destruct Hap as (Hrep & Hno & <-).
  destruct (applied_row _ _ _ _ Hr Hrep Hno) as (c & c' & ev & p & Hc & _ & Hrc). exists c.
  destruct Hrc; cbn in He; simplify_eq; eauto using held_floor.
Qed.

Lemma issued_fence d l d' lease : step d l d' -> issued l = Some lease ->
  fence (ol_session_id lease) (ol_owner lease) (ol_epoch lease) d'.
Proof.
  intros Hst Hi. destruct Hst as [now cmd d Hn Hw|now cmd d Hn Hw|cmd e0 d]; [|done..].
  destruct cmd as [ | |q| | ]; try done. cbn [issued] in Hi.
  destruct ((handle now (CmdAcquire q) d).2) as [[|[]|]|] eqn:Hr; try done. injection Hi as ->.
  destruct (issued_row _ _ _ _ Hr) as (c & c' & _ & Hc' & _ & _ & He & Hhw & _ & Hh & _).
  exists c'. split; [done|]. split; [lia|]. intros _ h' e' t (Hx & _). destruct Hh as (Hy & _).
  apply Id_eq. congruence.
Qed.

Lemma later_epoch d l d' lease : step d l d' -> fence (ol_session_id lease) (ol_owner lease) (ol_epoch lease) d ->
  all_rows cols_wf d ->
  (forall lease2, issued l = Some lease2 -> ol_session_id lease2 = ol_session_id lease ->
     FencingEpoch_get (ol_epoch lease) < FencingEpoch_get (ol_epoch lease2)) /\
  (forall h e, exercised l = Some (ol_session_id lease, h, e) ->
     FencingEpoch_get (ol_epoch lease) <= FencingEpoch_get e /\ (e = ol_epoch lease -> h = ol_owner lease)).
Proof.
  intros Hst (c & Hc & Hle & Hown) Hwf. split.
  - intros lease2 Hi Hsid. destruct Hst as [now cmd d Hn Hw|now cmd d Hn Hw|cmd e0 d]; [|done..].
    destruct cmd as [ | |q| | ]; try done. cbn [issued] in Hi.
    destruct ((handle now (CmdAcquire q) d).2) as [[|[]|]|] eqn:Hr; try done. injection Hi as ->.
    destruct (issued_row _ _ _ _ Hr) as (c0 & c' & Hc0 & _ & _ & _ & He & _). rewrite Hsid in Hc0.
    simplify_eq. lia.
  - intros h e He. destruct (exercised_row _ _ _ _ _ _ Hst He) as (c0 & t & Hc0 & Hh). simplify_eq.
    destruct Hh as (H1 & H2 & H3). pose proof (cw_owner _ _ (Hwf _ _ Hc)) as How.
    unfold owner_wf in How. rewrite H1, H2 in How. destruct How as (_ & [= Hep] & _).
    rewrite Hep. split; [done|]. intros ->. by apply (Hown (eq_sym Hep) h (ol_epoch lease) t).
Qed.

(** ** Requests are decided once *)

Lemma change_ledger now d c d' r : change now d c d' r -> db_ledger d ⊆ db_ledger d'.
Proof.
  destruct 1 as [c r Hr|c d1 e Hl Ho Hd1|q s Hl Ho|q key Hl Ho Hs d1 s d2|c cols cols' ev r p Hl Ho Hs t Hrc d1 d2].
  - done.
  - assert (db_ledger d1 = db_ledger d) as Heq.
    { destruct Hd1 as [->|(cols & _ & _ & ->)]; [done|]. unfold advance. by case_match. }
    cbn [record set_ledger db_ledger]. rewrite Heq. by apply insert_subseteq.
  - by apply insert_subseteq.
  - assert (db_ledger d2 = db_ledger d) as Heq by (subst d2; cbn; unfold opened_manifests; by destruct (os_manifest q)).
    cbn [record set_ledger db_ledger]. rewrite Heq. by apply insert_subseteq.
  - assert (db_ledger d2 = db_ledger d) as Heq by (subst d2; by destruct ev as [[[? ?] ?]|]).
    cbn [record set_ledger db_ledger]. rewrite Heq. by apply insert_subseteq.
Qed.

Lemma step_ledger d l d' : step d l d' -> db_ledger d ⊆ db_ledger d'.
Proof.
  intros [->|(now & c & r & _ & _ & Hch)]%step_change; [done|]. by eapply change_ledger.
Qed.

Lemma trace_ledger d ls d' : trace step d ls d' -> db_ledger d ⊆ db_ledger d'.
Proof. induction 1 as [|s l s' ls s'' Hst _ IH]; [done|]. etrans; [by eapply step_ledger|done]. Qed.

Definition as_replay (r : Reply) : Reply :=
  match r with
  | ReplySession m => ReplySession (Replayed (Mutation_value m))
  | ReplyLease m => ReplyLease (Replayed (Mutation_value m))
  | ReplyOwnership m => ReplyOwnership (Replayed (Mutation_value m))
  end.
Definition replayed_answer (r : result StoreError Reply) : result StoreError Reply :=
  match r with Ok rep => Ok (as_replay rep) | Err e => Err e end.

(** The recorded lease passes the replay checks for its command. *)
Definition lease_replays (lease : OwnershipLease) (w : LeaseWire) (sid : SessionId) (h : HostId)
    (e : option FencingEpoch) (duration : LeaseDuration) : Prop :=
  LeaseWire_into_lease w = Ok lease /\ validate_lease_replay lease w sid h e duration = Ok tt.

(** The recorded result of a decided command answers the command again. *)
Inductive replays (d : Db) : Command -> Reply -> LedgerResult -> Prop :=
| rp_open q s m : SessionSnapshot_wf s -> validate_open_replay s q = Ok tt -> manifest_agrees d q ->
    Mutation_value m = s -> replays d (CmdOpen q) (ReplySession m) (LrSession s)
| rp_close q s m : SessionSnapshot_wf s -> ss_id s = cs_session_id q -> ss_status s = Closed ->
    Mutation_value m = s -> replays d (CmdClose q) (ReplySession m) (LrSession s)
| rp_acquire q lease w m :
    lease_replays lease w (aq_session_id q) (rc_caller (aq_context q)) None (aq_duration q) ->
    Mutation_value m = lease -> replays d (CmdAcquire q) (ReplyLease m) (LrLease w)
| rp_renew q lease w m :
    lease_replays lease w (rn_session_id q) (rc_caller (rn_context q)) (Some (rn_epoch q)) (rn_duration q) ->
    Mutation_value m = lease -> replays d (CmdRenew q) (ReplyLease m) (LrLease w)
| rp_release q m : Mutation_value m = Unowned ->
    replays d (CmdRelease q) (ReplyOwnership m) (LrText "unowned").

Lemma change_manifest now d c d' r q : change now d c d' r -> manifest_agrees d q -> manifest_agrees d' q.
Proof.
  intros Hch (x & Hx & Hm). unfold manifest_agrees.
  assert (Hman : db_manifests d' !! os_session_id q = db_manifests d !! os_session_id q).
  { destruct Hch as [| c d1 e Hl Ho Hd1| |q' key Hl Ho Hs d1 s d2|c cols cols' ev r p Hl Ho Hs t Hrc d1 d2]; try done.
    - destruct Hd1 as [->|(cols & _ & _ & ->)]; [done|]. cbn. by rewrite advance_manifests.
    - subst d2. cbn. unfold opened_manifests. destruct (os_manifest q'); [|done]. cbn.
      rewrite lookup_insert_ne; [done|]. intros Heq. congruence.
    - subst d2. by destruct ev as [[[? ?] ?]|]. }
  rewrite Hman. destruct (change_row _ _ _ _ _ (os_session_id q) Hch) as [Heq|[_ Hrow]].
  { rewrite Heq. eauto. }
  rewrite Hx in Hrow. inversion Hrow as [o'' Heq|cols e0 Hcl Hr|q0 key Heq|cols cols' ev rep p t Hrc Hr]; subst;
    eexists; (split; [done|]); try done. by destruct Hrc.
Qed.

Lemma change_replays now d c d' r cmd rep p : change now d c d' r -> replays d cmd rep p -> replays d' cmd rep p.
Proof. intros Hch. destruct 1; econstructor; eauto. by eapply change_manifest. Qed.

Lemma trace_replays d ls d' cmd rep p : trace step d ls d' -> replays d cmd rep p -> replays d' cmd rep p.
Proof.
  induction 1 as [|s l s' ls s'' Hst _ IH]; [done|]. intros Hr. apply IH.
  apply step_change in Hst as [->|(now & c & r & _ & _ & Hch)]; [done|]. by eapply change_replays.
Qed.

Lemma validate_manifest_agrees q d : manifest_agrees d q -> validate_session_manifest_in q d = Next tt d.
Proof.
  intros (c & Hc & Hm). unfold validate_session_manifest_in. unfold mbind, tx_bind, get, lift.
  rewrite Hc. cbn [ok_or]. destruct (os_manifest q) as [m|].
  - destruct Hm as [-> ->]. cbn. rewrite Z.eqb_refl. cbn.
    case_if as E; [done|]. exfalso. apply not_true_iff_false in E. apply E, forallb_forall.
    intros [x y] Hin. cbn. assert (x = y) as ->; [|by rewrite !bool_decide_true].
    clear -Hin. induction (m_templates m) as [|z l IH]; cbn in Hin; [done|].
    destruct Hin as [[= <- <-]|Hin]; auto.
  - by rewrite Hm.
Qed.

Lemma replay_bytes_recorded {C} {MR : MutableRequest C} (c : C) sid o d :
  db_ledger d !! request_of c = Some (ledger_row sid c o) ->
  replay_bytes c d = match o with LoSucceeded _ p => Next (Some p) d | LoFailed w => Abort (StoreError_from w) end.
Proof.
  intros Hl. unfold replay_bytes, mbind, tx_bind, get. fold (request_of c). rewrite Hl. cbn.
  rewrite !bool_decide_true by done. cbn. by destruct o.
Qed.

Lemma replay_json_recorded {C} {MR : MutableRequest C} (c : C) sid eff s d :
  db_ledger d !! request_of c = Some (ledger_row sid c (LoSucceeded eff (LrSession s))) ->
  SessionSnapshot_wf s -> replay_json_session c d = Next (Some s) d.
Proof.
  intros Hl Hs. unfold replay_json_session, mbind, tx_bind at 1.
  rewrite (replay_bytes_recorded _ _ _ _ Hl).
  pose proof (validate_complete (Validated0 := SessionSnapshot_validated) s Hs) as Hv.
  unfold validate, wire, SessionSnapshot_validated, id in Hv. unfold tx_bind, lift. by rewrite Hv.
Qed.

(** A recorded answer is given again, and nothing else happens. *)
Lemma replay_answers now c rep p eff d :
  replays d c rep p ->
  db_ledger d !! request_of c = Some (ledger_row (command_session c) c (LoSucceeded eff p)) ->
  handle now c d = (d, Ok (as_replay rep)).
Proof.
  intros Hr Hl. unfold SessionLedger.handle, execute. destruct Hr as [q s m Hs Hv Hma <-|q s m Hs Hid Hcl <-|
    q lease w m [Hd Hv] <-|q lease w m [Hd Hv] <-|q m Hm]; rewrite run_map.
  - unfold open_session, mbind, tx_bind at 1. rewrite (replay_json_recorded q _ _ _ _ Hl Hs).
    unfold tx_bind, lift. rewrite Hv. by rewrite (validate_manifest_agrees _ _ Hma).
  - unfold close_session, mbind, tx_bind at 1. rewrite (replay_json_recorded q _ _ _ _ Hl Hs).
    by rewrite Hid, Hcl, !bool_decide_true.
  - unfold acquire_ownership, mbind, tx_bind at 1. rewrite (replay_bytes_recorded q _ _ _ Hl).
    unfold tx_bind, lift, decode_lease. rewrite Hd, bind_of_Ok. cbn [fst snd]. by rewrite Hv.
  - unfold renew_ownership, mbind, tx_bind at 1. rewrite (replay_bytes_recorded q _ _ _ Hl).
    unfold tx_bind, lift, decode_lease. rewrite Hd, bind_of_Ok. cbn [fst snd]. by rewrite Hv.
  - unfold release_ownership, mbind, tx_bind at 1. rewrite (replay_bytes_recorded q _ _ _ Hl).
    cbn. by rewrite Hm.
Qed.

Lemma replay_json_failed {C} {MR : MutableRequest C} (c : C) sid w d :
  db_ledger d !! request_of c = Some (ledger_row sid c (LoFailed w)) ->
  replay_json_session c d = Abort (StoreError_from w).
Proof.
  intros Hl. unfold replay_json_session, mbind, tx_bind at 1. by rewrite (replay_bytes_recorded _ _ _ _ Hl).
Qed.

(** A recorded failure is the answer again. *)
Lemma failure_answers now c w d :
  db_ledger d !! request_of c = Some (ledger_row (command_session c) c (LoFailed w)) ->
  handle now c d = (d, Err (StoreError_from w)).
Proof.
  intros Hl. unfold SessionLedger.handle, execute. destruct c as [q|q|q|q|q]; rewrite run_map.
  - unfold open_session, mbind, tx_bind at 1. by rewrite (replay_json_failed q _ _ _ Hl).
  - unfold close_session, mbind, tx_bind at 1. by rewrite (replay_json_failed q _ _ _ Hl).
  - unfold acquire_ownership, mbind, tx_bind at 1. by rewrite (replay_bytes_recorded q _ _ _ Hl).
  - unfold renew_ownership, mbind, tx_bind at 1. by rewrite (replay_bytes_recorded q _ _ _ Hl).
  - unfold release_ownership, mbind, tx_bind at 1. by rewrite (replay_bytes_recorded q _ _ _ Hl).
Qed.

Section laws.
Context {TLaws : TimeLaws} {TALaws : TimeArithLaws}.

Lemma to_datetime_wf t : Timestamp_wf t ->
  exists x, Timestamp_to_datetime t = Ok x /\ instant x = unix_seconds t * NANOS + nanoseconds t.
Proof.
  intros [x ->]. unfold Timestamp_to_datetime, Timestamp_from_datetime; cbn.
  destruct (wire_value_total x) as [x' Hx']. rewrite Hx'. exists x'. split; [done|].
  unfold instant. destruct (wire_value_fields (unix_timestamp x) (nanosecond x) x') as [-> ->]; [by rewrite Hx'|done].
Qed.

Lemma expiry_exact now q t : Timestamp_wf now -> expiry max_lease_millis now q = Ok t ->
  unix_seconds t * NANOS + nanoseconds t =
  unix_seconds now * NANOS + nanoseconds now + as_millis q * 1000000.
Proof.
  intros Hn H. unfold expiry, corrupt in H. destruct (to_datetime_wf _ Hn) as (x & Hx & Hi).
  rewrite Hx in H. inv_result. rewrite <-Hi.
  match goal with H : checked_add_millis _ _ = Some _ |- _ => apply checked_add_instant in H as Hadd end.
  unfold instant at 1 in Hadd. cbn. exact Hadd.
Qed.

Lemma lease_replays_recorded sid h e now dur t :
  Id_wf sid -> Id_wf h -> FencingEpoch_get e <> 0 -> Timestamp_wf now ->
  expiry max_lease_millis now dur = Ok t -> Timestamp_lt now t ->
  let lease := MkLease sid h e t in
  forall eo, eo = None \/ eo = Some e ->
  lease_replays lease (LeaseWire_from_lease lease now) sid h eo dur.
Proof.
  intros Hsid Hh He Hn Hex Hlt lease eo Heo. assert (Ht := expiry_wf _ _ _ Hex).
  pose proof (validate_complete (Validated0 := Id_validated KSession) sid Hsid) as Hs'.
  pose proof (validate_complete (Validated0 := Id_validated KHost) h Hh) as Hh'.
  unfold validate, wire, Id_validated in Hs', Hh'. split.
  - unfold LeaseWire_into_lease, LeaseWire_from_lease. cbn. rewrite Hs', Hh'. cbn [map_err].
    rewrite !bind_of_Ok. unfold FencingEpoch_new. case_if as E; [by bool_norm|]. cbn [map_err].
    rewrite bind_of_Ok, !Timestamp_new_wf by done. cbn [map_err]. rewrite !bind_of_Ok.
    unfold OwnershipLease_new. apply Timestamp_leb_gt in Hlt. rewrite Hlt. cbn. by destruct e.
  - unfold validate_lease_replay, corrupt. cbn [LeaseWire_from_lease lw_issued_seconds lw_issued_nanos].
    rewrite Timestamp_new_wf by done. cbn [map_err]. rewrite bind_of_Ok.
    destruct (to_datetime_wf _ Ht) as (x & Hx & Hix), (to_datetime_wf _ Hn) as (y & Hy & Hiy).
    cbn [ol_expires_at lease]. rewrite Hx, Hy. cbn [map_err]. rewrite !bind_of_Ok, Hix, Hiy.
    rewrite (expiry_exact _ _ _ Hn Hex).
    replace (_ - _) with (as_millis dur * 1000000) by lia.
    rewrite Z.quot_mul, Z.eqb_refl, !bool_decide_true by done. cbn.
    destruct Heo as [->| ->]; [done|]. by rewrite bool_decide_true.
Qed.

Lemma row_change_replays now c cmd c' ev rep p d :
  cols_wf (command_session cmd) c -> Timestamp_wf now -> command_wf cmd ->
  row_change now c cmd c' ev rep p -> replays d cmd rep p.
Proof.
  intros Hc Hn Hcmd Hrc. destruct Hrc as [q t s Hh Hlt Hcl Hrev Hid Hst Hs|q t e Hfree Hex Hlt He|
    q t t' Hh Hlt Hex Hlt'|q t Hh].
  - by eapply rp_close.
  - destruct Hcmd as (Hcal & Hsid & _). eapply rp_acquire; [|done].
    apply lease_replays_recorded; auto. pose proof (cw_high_water _ _ Hc). lia.
  - destruct Hcmd as (Hcal & Hsid & _). eapply rp_renew; [|done].
    apply lease_replays_recorded; auto. pose proof (cw_owner _ _ Hc) as How. unfold owner_wf in How.
    destruct Hh as (Hh & Hep & _). rewrite Hh, Hep in How. destruct How as (_ & [= ->] & ? & _). lia.
  - by eapply rp_release.
Qed.

(** What a call that decided its request left in the ledger. *)
Definition decided (c : Command) (r : result StoreError Reply) (d : Db) : Prop :=
  match r with
  | Err e => db_ledger d !! request_of c =
      Some (ledger_row (command_session c) c (LoFailed (FailureWire_from e)))
  | Ok rep => exists eff p, db_ledger d !! request_of c =
      Some (ledger_row (command_session c) c (LoSucceeded eff p)) /\ replays d c rep p
  end.

Lemma change_decided now d c d' r :
  all_rows cols_wf d -> Timestamp_wf now -> command_wf c -> change now d c d' r ->
  db_ledger d !! request_of c = None -> is_Some (db_ledger d' !! request_of c) -> decided c r d'.
Proof.
  intros Hwf Hn Hcmd Hch Hnone Hsome.
  destruct Hch as [c r Hr|c d1 e Hl Ho Hd1|q s Hl Ho Hid Hkey Hcomp Hs Hma|q key Hl Ho Hs d1 s d2|
    c cols cols' ev r p Hl Ho Hs t Hrc d1 d2].
  - rewrite Hnone in Hsome. by destruct Hsome.
  - apply lookup_insert_eq.
  - exists SeUnchanged, (LrSession s). split; [apply lookup_insert_eq|]. eapply rp_open; try done.
    unfold validate_open_replay. by rewrite Hid, Hkey, Hcomp, !bool_decide_true.
  - exists SeApplied, (LrSession s). split; [apply lookup_insert_eq|]. eapply rp_open; try done.
    + split; cbn; [apply Timestamp_le_refl|]. by intros [? _].
    + unfold validate_open_replay. cbn. by rewrite !bool_decide_true.
    + exists (opened_cols key q now). subst d2. unfold opened_manifests, d1. cbn.
      destruct (os_manifest q) eqn:Em; cbn; rewrite lookup_insert_eq; (split; [done|]);
        rewrite ?Em, ?lookup_insert_eq; done.
  - exists SeApplied, p. split; [apply lookup_insert_eq|]. specialize (Hwf _ _ Hs) as Hw.
    pose proof (cw_times _ _ Hw) as (_ & _ & Hfw).
    assert (Ht : Timestamp_wf t) by (by apply Timestamp_max_wf).
    apply (row_change_replays t (cols_set_floor t cols) c cols' ev r p); [|done..].
    apply cols_floor_wf; [done..|apply Timestamp_max_le_l].
Qed.

Lemma decided_answers now c r d : decided c r d -> handle now c d = (d, replayed_answer r).
Proof.
  destruct r as [rep|e]; cbn.
  - intros (eff & p & Hl & Hr). by eapply replay_answers.
  - intros Hl. rewrite (failure_answers _ _ _ _ Hl). by rewrite StoreError_from_wire.
Qed.

Lemma trace_decided d ls d' c r : trace step d ls d' -> decided c r d -> decided c r d'.
Proof.
  intros Ht. pose proof (trace_ledger _ _ _ Ht) as Hsub. destruct r as [rep|e]; cbn.
  - intros (eff & p & Hl & Hr). exists eff, p. split; [by eapply lookup_weaken | by eapply trace_replays].
  - intros Hl. by eapply lookup_weaken.
Qed.
End laws.

(** Two requests the ledger does not tell apart. *)
Definition same_request (c' c : Command) : Prop :=
  mr_context c' = mr_context c /\ mr_action c' = mr_action c /\ mr_digest c' = mr_digest c.

Lemma replay_bytes_conflict {C} {MR : MutableRequest C} (q : C) row d :
  db_ledger d !! request_of q = Some row ->
  ~ (lr_caller_host_id row = rc_caller (mr_context q) /\
     lr_action row = StoreAction_as_str (mr_action q) /\ lr_semantic_digest row = mr_digest q) ->
  replay_bytes q d = Abort (RequestConflict (request_of q)).
Proof.
  intros Hl Hne. unfold replay_bytes, mbind, tx_bind, get. fold (request_of q). rewrite Hl.
  case_if as E; [done|]. bool_norm. by destruct Hne.
Qed.

Lemma conflict_answers now c' c sid o d :
  db_ledger d !! request_of c' = Some (ledger_row sid c o) -> request_of c' = request_of c ->
  ~ same_request c' c -> handle now c' d = (d, Err (RequestConflict (request_of c'))).
Proof.
  intros Hl Hid Hne. unfold SessionLedger.handle, execute.
  assert (Hne' : ~ (rc_caller (mr_context c) = rc_caller (mr_context c') /\
    StoreAction_as_str (mr_action c) = StoreAction_as_str (mr_action c') /\ mr_digest c = mr_digest c')).
  { intros (H1 & H2%StoreAction_as_str_inj & H3). apply Hne. split_and!; [|done..].
    unfold request_of in Hid. destruct (mr_context c'), (mr_context c); cbn in *; congruence. }
  destruct c' as [q|q|q|q|q]; rewrite run_map;
    unfold open_session, close_session, acquire_ownership, renew_ownership, release_ownership,
      replay_json_session, mbind; unfold tx_bind at 1; try unfold tx_bind at 1;
    by rewrite (replay_bytes_conflict q _ _ Hl Hne').
Qed.

Lemma change_fresh now d c d' r rep : change now d c d' r -> r = Ok rep -> reply_replayed rep = false ->
  db_ledger d !! request_of c = None /\ is_Some (db_ledger d' !! request_of c).
Proof.
  intros Hch Hr Hrep. destruct Hch as [c r Hn|c d1 e Hl|q s Hl|q key Hl|c cols cols' ev r p Hl].
  - by rewrite (Hn _ Hr) in Hrep.
  - done.
  - split; [done|]. cbn. rewrite lookup_insert_eq. by eexists.
  - split; [done|]. cbn. rewrite lookup_insert_eq. by eexists.
  - split; [done|]. cbn. rewrite lookup_insert_eq. by eexists.
Qed.

Lemma decided_row c r d : decided c r d ->
  exists o, db_ledger d !! request_of c = Some (ledger_row (command_session c) c o).
Proof. destruct r; cbn; [intros (? & ? & ? & _); eauto | eauto]. Qed.

(** ** The event log *)

(** The log of one session: positions and revisions count up from one together, up to
    the session's revision, and time never runs backwards. *)
Record log_ok (l : list EventRow) (n : Z) : Prop := {
  log_length : llen l = n;
  log_positions : forall i e, l !! i = Some e -> er_position e = Z.of_nat i + 1 /\ er_revision e = Z.of_nat i + 1;
  log_times : forall i j a b, (i <= j)%nat -> l !! i = Some a -> l !! j = Some b ->
    Timestamp_le (er_occurred_at a) (er_occurred_at b);
}.

Definition log_agrees (d : Db) : Prop := forall sid,
  match db_sessions d !! sid with
  | Some c => log_ok (session_events sid (db_events d)) (sc_revision c)
  | None => session_events sid (db_events d) = []
  end.

Lemma latest_event_snoc l e : (forall x, x ∈ l -> er_position x < er_position e) ->
  latest_event (l ++ [e]) = Some e.
Proof.
  unfold latest_event. intros Hl. rewrite foldr_app. cbn. induction l as [|x l IH]; [done|].
  cbn. rewrite IH by (intros y Hy; apply Hl; set_solver).
  specialize (Hl x ltac:(set_solver)). case_if as E; [done|]. bool_norm. lia.
Qed.
Lemma latest_event_None l : latest_event l = None -> l = [].
Proof. destruct l as [|x l]; [done|]. cbn. by repeat case_match. Qed.
Lemma max_position_snoc l e : max_position (l ++ [e]) = Z.max (er_position e) (max_position l).
Proof.
  unfold max_position. rewrite foldr_app. cbn. induction l as [|x l IH]; cbn; [done|]. rewrite IH. lia.
Qed.

Lemma log_ok_max l n : log_ok l n -> max_position l = n.
Proof.
  intros [<- Hp _]. induction l as [|e l IH] using rev_ind; [done|]. rewrite max_position_snoc.
  rewrite IH. 2:{ intros i x Hx. apply Hp. by apply lookup_app_l_Some. }
  destruct (Hp (length l) e) as [-> _]; [by apply list_lookup_middle|].
  unfold llen. rewrite length_app. cbn. lia.
Qed.

Lemma log_ok_latest l n e : log_ok l n -> latest_event l = Some e -> last l = Some e.
Proof.
  intros [_ Hp _]. destruct l as [|a l _] using rev_ind; [done|]. rewrite last_snoc.
  rewrite latest_event_snoc; [done|]. intros x [i Hi]%list_elem_of_lookup.
  assert (i < length l)%nat by (by eapply lookup_lt_Some).
  destruct (Hp i x) as [-> _]; [by apply lookup_app_l_Some|].
  destruct (Hp (length l) a) as [-> _]; [by apply list_lookup_middle|]. lia.
Qed.

Lemma log_ok_snoc l n e now : log_ok l n -> er_position e = max_position l + 1 -> er_revision e = n + 1 ->
  er_occurred_at e = (match latest_event l with Some x => Timestamp_max (er_occurred_at x) now | None => now end) ->
  log_ok (l ++ [e]) (n + 1).
Proof.
  intros Hl Hpos Hrev Hocc. rewrite (log_ok_max _ _ Hl) in Hpos. pose proof Hl as [<- Hp Ht]. constructor.
  - unfold llen. rewrite length_app. cbn. lia.
  - intros i x [Hi|[Hi Hx]]%lookup_app_Some; [by apply Hp|].
    apply list_lookup_singleton_Some in Hx as [Hx <-]. unfold llen in *. lia.
  - intros i j a b Hij Ha Hb. apply lookup_app_Some in Hb as [Hb|[Hj Hb]].
    + apply (Ht i j); [done| |done]. apply lookup_app_Some in Ha as [Ha|[Hi Ha]]; [done|].
      apply lookup_lt_Some in Hb. lia.
    + apply list_lookup_singleton_Some in Hb as [_ <-].
      apply lookup_app_Some in Ha as [Ha|[_ [_ <-]%list_lookup_singleton_Some]]; [|apply Timestamp_le_refl].
      destruct (latest_event l) as [x|] eqn:Ex.
      * apply (log_ok_latest _ _ _ Hl) in Ex. rewrite last_lookup in Ex. rewrite Hocc.
        apply lookup_lt_Some in Ha as Hlt.
        eapply Timestamp_le_trans; [|apply Timestamp_max_le_l]. apply (Ht i (pred (length l))); [lia|done|done].
      * by apply latest_event_None in Ex as ->.
Qed.

Lemma session_events_app sid l e :
  session_events sid (l ++ [e]) =
  session_events sid l ++ (if decide (er_session_id e = sid) then [e] else []).
Proof.
  unfold session_events. by rewrite filter_app.
Qed.

(** Appending an event for [sid] touches only its log. *)
Lemma log_event_other d rid sid now ev sid' : sid' <> sid ->
  session_events sid' (db_events (log_event d rid sid now ev)) = session_events sid' (db_events d).
Proof.
  intros Hne. destruct ev as [[[rev ty] data]|]; [|done]. cbn [log_event set_events db_events].
  rewrite session_events_app. rewrite decide_False by (cbn; congruence). by rewrite app_nil_r.
Qed.

Lemma log_event_same d rid sid now rev ty data n :
  log_ok (session_events sid (db_events d)) n -> rev = n + 1 ->
  log_ok (session_events sid (db_events (log_event d rid sid now (Some (rev, ty, data))))) rev.
Proof.
  intros Hl ->. cbn [log_event set_events db_events]. rewrite session_events_app, decide_True by done.
  by eapply (log_ok_snoc _ _ _ now Hl).
Qed.

Lemma opened_manifests_events q d : db_events (opened_manifests q d) = db_events d.
Proof. unfold opened_manifests. by destruct (os_manifest q). Qed.
Lemma advance_events sid t d : db_events (advance sid t d) = db_events d.
Proof. unfold advance. by destruct (db_sessions d !! sid). Qed.

Lemma change_log now d c d' r : change now d c d' r -> log_agrees d -> log_agrees d'.
Proof.
  intros Hch Hlog sid. specialize (Hlog sid).
  destruct Hch as [|c d1 e Hl Ho Hd1| |q key Hl Ho Hs d1 s d2|c cols cols' ev r p Hl Ho Hs t Hrc d1 d2]; try done.
  - destruct Hd1 as [->|(cols & Hc & _ & ->)]; [done|]. cbn [record set_ledger db_sessions db_events].
    rewrite advance_events. destruct (decide (sid = command_session c)) as [->|Hne].
    + rewrite (advance_lookup _ _ _ _ Hc). by rewrite Hc in Hlog.
    + by rewrite advance_other.
  - subst d2. cbn [record set_ledger db_sessions db_events].
    rewrite log_event_sessions, opened_manifests_sessions. cbn [d1 set_sessions db_sessions].
    destruct (decide (sid = os_session_id q)) as [->|Hne].
    + rewrite Hs in Hlog. rewrite lookup_insert_eq. apply (log_event_same _ _ _ _ _ _ _ 0); [|done].
      rewrite opened_manifests_events. change (db_events d1) with (db_events d). rewrite Hlog. by constructor.
    + rewrite lookup_insert_ne by done. rewrite log_event_other by done. by rewrite opened_manifests_events.
  - subst d2. cbn [record set_ledger db_sessions db_events].
    rewrite log_event_sessions. cbn [d1 set_sessions db_sessions].
    destruct (decide (sid = command_session c)) as [->|Hne].
    + rewrite Hs in Hlog. rewrite lookup_insert_eq.
      destruct Hrc; cbn [command_session] in *; try by (apply (log_event_same _ _ _ _ _ _ _ (sc_revision cols))).
      done.
    + rewrite lookup_insert_ne by done. by rewrite log_event_other.
Qed.

(** ** Histories *)

(** A database before its first session. *)
Definition no_sessions (d : Db) : Prop := db_sessions d = ∅ /\ db_events d = [].

Lemma no_sessions_wf d : no_sessions d -> all_rows cols_wf d /\ log_agrees d.
Proof.
  intros [Hs He]. split.
  - intros sid c Hc. by rewrite Hs in Hc.
  - intros sid. by rewrite Hs, He.
Qed.

Lemma trace_log d ls d' : trace step d ls d' -> log_agrees d -> log_agrees d'.
Proof.
  apply trace_invariant. intros s l s' Hs [->|(now & c & r & _ & _ & Hch)]%step_change; [done|].
  by eapply change_log.
Qed.

(** The calls of a sequential history, with their answers. *)
Fixpoint calls (cs : list (Timestamp * Command)) (d : Db) : list Label * Db :=
  match cs with
  | [] => ([], d)
  | (now, c) :: cs =>
      let '(d1, r) := handle now c d in
      let '(ls, d2) := calls cs d1 in (LCall now c r :: ls, d2)
  end.

Lemma calls_trace cs d : Forall (fun p => Timestamp_wf p.1 /\ command_wf p.2) cs ->
  trace step d (calls cs d).1 (calls cs d).2.
Proof.
  intros Hcs. revert d. induction Hcs as [|[now c] cs [Hn Hc] _ IH]; intros d; [constructor|]. cbn.
  pose proof (step_call now c d Hn Hc) as Hst. destruct (handle now c d) as [d1 r]. cbn in Hst.
  specialize (IH d1). destruct (calls cs d1) as [ls d2]. by econstructor.
Qed.

(** ** Properties *)

(** C7: Ownership is fenced.  In every history of the session store, starting from any
    well-formed tables, with any callers, clocks and aborted calls: once a lease of
    epoch [e] has been issued for a session, every later acquisition gets a larger
    epoch, and every later renewal, release or close that succeeds carries an epoch of
    at least [e], and carries [e] itself only when its caller is the host the lease was
    issued to.  An owner that was replaced can never change the session again. *)
Theorem ownership_fenced d ls d' i j l1 l2 lease :
  trace step d ls d' -> all_rows cols_wf d ->
  ls !! i = Some l1 -> issued l1 = Some lease -> (i < j)%nat -> ls !! j = Some l2 ->
  (forall lease2, issued l2 = Some lease2 -> ol_session_id lease2 = ol_session_id lease ->
     FencingEpoch_get (ol_epoch lease) < FencingEpoch_get (ol_epoch lease2)) /\
  (forall h e, exercised l2 = Some (ol_session_id lease, h, e) ->
     FencingEpoch_get (ol_epoch lease) <= FencingEpoch_get e /\ (e = ol_epoch lease -> h = ol_owner lease)).
Proof.
  intros Ht Hwf Hi Hiss Hij Hj. destruct (trace_lookup _ _ _ _ _ _ Ht Hi) as (s1 & s2 & Ht1 & Hst & Ht2).
  assert (Hj' : drop (S i) ls !! (j - S i)%nat = Some l2) by (rewrite lookup_drop; rewrite <-Hj; f_equal; lia).
  destruct (trace_lookup _ _ _ _ _ _ Ht2 Hj') as (s3 & s4 & Ht3 & Hst' & _).
  apply (later_epoch _ _ _ _ Hst').
  - refine (trace_invariant step (fence _ _ _) _ _ _ _ Ht3 (issued_fence _ _ _ _ Hst Hiss)).
    intros s l s' Hf Hs. by eapply step_fence.
  - apply (trace_rows_wf _ _ _ Ht3). apply (all_rows_step cols_wf row_step_wf _ _ _) with (2 := Hst).
    by apply (trace_rows_wf _ _ _ Ht1).
Qed.

(** C26: An acquisition never overlaps a live lease.  When acquiring ownership succeeds,
    the store's time for the call is the later of the session's clock floor and the
    caller's clock, every lease the session held has expired by then, the new lease is
    in the future, carries the next epoch, and is what the row holds afterwards; the
    clock floor has advanced to the store's time, so the old lease stays expired. *)
Theorem acquire_excludes_live_owner now q d lease :
  (handle now (CmdAcquire q) d).2 = Ok (ReplyLease (Applied lease)) ->
  exists c c', let t := store_time c now in
    db_sessions d !! aq_session_id q = Some c /\
    db_sessions (handle now (CmdAcquire q) d).1 !! aq_session_id q = Some c' /\
    (forall h e x, held c h e x -> Timestamp_le x t) /\ Timestamp_lt t (ol_expires_at lease) /\
    FencingEpoch_get (ol_epoch lease) = sc_epoch_high_water c + 1 /\
    held c' (rc_caller (aq_context q)) (ol_epoch lease) (ol_expires_at lease) /\ sc_time_floor c' = t.
Proof.
  intros Hr. destruct (issued_row _ _ _ _ Hr) as (c & c' & Hc & Hc' & Hs & Ho & He & _ & Hf & Hh & Hlt & Hfree).
  rewrite Hs in Hc, Hc'. rewrite Ho in Hh. exists c, c'. by split_and!.
Qed.

(** A closed session is final: whatever is called afterwards, its row never changes
    again, not even its clock. *)
Theorem closed_session_is_final d ls d' sid c :
  trace step d ls d' -> db_sessions d !! sid = Some c -> sc_closed c <> 0 ->
  db_sessions d' !! sid = Some c.
Proof.
  intros Ht Hc Hcl. revert Hc. apply (trace_invariant step (fun d => db_sessions d !! sid = Some c)) with (2 := Ht).
  clear d ls d' Ht. intros d l d' Hc [->|(now & cmd & r & _ & _ & Hch)]%step_change; [done|].
  destruct (change_row _ _ _ _ _ sid Hch) as [Heq|[_ Hrow]]; [congruence|]. rewrite Hc in Hrow.
  inversion Hrow as [o Heq|cols e0 Hcl' Hr|q0 key Heq|cols cols' ev rep p t Hrc Hr]; subst; try done.
  destruct Hrc; cbn in *; done.
Qed.


Section laws.
Context {TLaws : TimeLaws} {TALaws : TimeArithLaws}.


End laws.
End store.

(** ** Concrete histories *)

#[global] Instance UtcArith : @TimeArith UtcLib := fun d m =>
  let t := utc_seconds (utc_time d) * NANOS + utc_nanos (utc_time d) + m * 1000000 in
  utc_make (t / NANOS) (t mod NANOS).
#[global] Instance UtcArithLaws : @TimeArithLaws UtcLib UtcArith.
Proof.
  split.
  - intros d m d' H. apply utc_make_Some in H as [Hs Hn]. unfold instant; cbn. rewrite Hs, Hn.
    rewrite Z.mul_comm. symmetry. apply Z.div_mod. done.
  - intros [[sa na] Ha] s [[sb nb] Hb] Hs; cbn in *. apply utc_make_is_Some.
    unfold utc_in_range, NANOS in *. bool_norm. cbn in *. split; [|lia].
    apply andb_true_iff. rewrite !Z.leb_le. lia.
  - intros [[s n] H]. cbn in *. unfold utc_in_range, UTC_MIN, i64_min in *. bool_norm. cbn in *. lia.
Qed.

(** A polynomial checksum of 32 bytes stands in for SHA-256. *)
Definition demo_sha : Sha256 := fun b =>
  be_bytes 4 (fold_left (fun a x => (a * 33 + x + 1) mod 4294967291) b 0) ++ repeat 0 28.
Definition demo_text : UuidText := fun _ => "id"%string.
Definition demo_json : Json := {| from_slice _ := None; to_vec _ := [] |}.

Definition demo_db : Db := MkDb ∅ ∅ ∅ [] (Some (100, 1000)) ∅ ∅ ∅ ∅ ∅ ∅ ∅ ∅ ∅ ∅ ∅ ∅ ∅ ∅ ∅ ∅ ∅ ∅ ∅ ∅.
Definition demo_at (s : Z) : Timestamp := MkTimestamp s 0.
Definition demo_session : SessionId := MkId 7.
Definition demo_context (n : Z) (host : Z) : RequestContext := MkContext (MkId n) (MkId host).
Definition demo_open : Command :=
  CmdOpen (OpenSession_new (demo_context 1 50) demo_session (MkBoundedText "key") (MkCompat (repeat 9 32))).
Definition demo_acquire (n host : Z) : Command :=
  CmdAcquire (MkAcquireOwnership (demo_context n host) demo_session (MkLeaseDuration 1000)).
Definition demo_close (n host e : Z) : Command :=
  CmdClose (MkCloseSession (demo_context n host) demo_session (MkFencingEpoch e)).

(** Host 50 opens and owns the session for a second; a minute later host 60 takes
    over, host 50 fails to close it, and host 60 closes it. *)
Definition demo_calls : list (Timestamp * Command) :=
  [(demo_at 100, demo_open); (demo_at 100, demo_acquire 2 50); (demo_at 160, demo_acquire 3 60);
   (demo_at 160, demo_close 4 50 1); (demo_at 160, demo_close 5 60 2)].
Definition demo_history : list Label * Db :=
  @calls UtcLib UtcArith demo_sha demo_json demo_text 5000 demo_calls demo_db.

Lemma demo_at_wf s : utc_in_range s = true -> @Timestamp_wf UtcLib (demo_at s).
Proof.
  intros Hs. destruct (proj2 (utc_make_is_Some s 0)) as [d Hd]; [by rewrite Hs; unfold NANOS|].
  exists d. unfold Timestamp_from_datetime; cbn. by destruct (utc_make_Some _ _ _ Hd) as [-> ->].
Qed.

Lemma demo_calls_wf : Forall (fun p => @Timestamp_wf UtcLib p.1 /\ command_wf p.2) demo_calls.
Proof.
  unfold demo_calls. repeat constructor; try (by apply demo_at_wf); cbn; unfold context_wf, Id_wf, LeaseDuration_wf, i64_max;
    cbn; try done; try lia.
Qed.
Lemma demo_trace : trace (@step UtcLib UtcArith demo_sha demo_json demo_text 5000)
  demo_db demo_history.1 demo_history.2.
Proof. unfold demo_history. exact (calls_trace _ _ _ demo_calls_wf). Qed.
Lemma demo_rows : @all_rows (@cols_wf UtcLib) demo_db.
Proof. by apply (proj1 (@no_sessions_wf UtcLib demo_db (conj eq_refl eq_refl))). Qed.

Definition demo_lease1 : OwnershipLease :=
  MkLease demo_session (MkId 50) (MkFencingEpoch 1) (MkTimestamp 101 0).
Definition demo_lease2 : OwnershipLease :=
  MkLease demo_session (MkId 60) (MkFencingEpoch 2) (MkTimestamp 161 0).
Definition demo_label (i : nat) : Label := default (LAbort demo_open Busy) (demo_history.1 !! i).

Lemma demo_issued :
  demo_history.1 !! 1%nat = Some (demo_label 1) /\ demo_history.1 !! 2%nat = Some (demo_label 2) /\
  issued (demo_label 1) = Some demo_lease1 /\ issued (demo_label 2) = Some demo_lease2.
Proof. vm_compute. split_and!; reflexivity. Qed.

Lemma ownership_fenced_witness :
  issued (demo_label 1) = Some demo_lease1 /\ issued (demo_label 2) = Some demo_lease2 /\
  FencingEpoch_get (ol_epoch demo_lease1) < FencingEpoch_get (ol_epoch demo_lease2).
Proof.
  destruct demo_issued as (H1 & H2 & I1 & I2). split; [exact I1|]. split; [exact I2|].
  refine (proj1 (@ownership_fenced UtcLib UtcArith demo_sha demo_json demo_text 5000 demo_db
    demo_history.1 demo_history.2 1 2 (demo_label 1) (demo_label 2) demo_lease1
    demo_trace demo_rows H1 I1 _ H2) demo_lease2 I2 eq_refl). lia.
Defined.

(** The database after the first [n] calls. *)
Definition demo_state (n : nat) : Db :=
  (@calls UtcLib UtcArith demo_sha demo_json demo_text 5000 (take n demo_calls) demo_db).2.

Lemma acquire_excludes_live_owner_witness :
  exists c, db_sessions (demo_state 2) !! demo_session = Some c /\
    forall h e x, held c h e x -> Timestamp_le x (store_time c (demo_at 160)).
Proof.
  destruct (@acquire_excludes_live_owner UtcLib UtcArith demo_sha demo_json demo_text 5000 (demo_at 160)
    (MkAcquireOwnership (demo_context 3 60) demo_session (MkLeaseDuration 1000)) (demo_state 2) demo_lease2
    ltac:(vm_compute; reflexivity)) as (c & c' & Hc & _ & Hfree & _).
  exists c. split; [exact Hc | exact Hfree].
Defined.

Lemma demo_final : exists c, db_sessions demo_history.2 !! demo_session = Some c /\ sc_closed c = 1.
Proof. vm_compute. eexists. split; reflexivity. Qed.

Lemma closed_session_is_final_witness : exists c,
  db_sessions demo_history.2 !! demo_session = Some c /\ sc_closed c = 1 /\
  forall ls d', trace (@step UtcLib UtcArith demo_sha demo_json demo_text 5000) demo_history.2 ls d' ->
    db_sessions d' !! demo_session = Some c.
Proof.
  destruct demo_final as (c & E & Hc). exists c. split; [exact E|]. split; [exact Hc|]. intros ls d' Ht.
  apply (@closed_session_is_final UtcLib UtcArith demo_sha demo_json demo_text 5000 demo_history.2 ls d'
    demo_session c Ht E). by rewrite Hc.
Defined.



