(* ===== verification/SqliteMailbox.v ===== *)
(** * SqliteMailbox: messages, delivery leases and mailbox accounting

    Models [impl MailboxStore for SqliteStore] of
    crates/navigator-store-sqlite/src/store.rs with the helpers it calls, and the two
    helpers through which other handlers write the mailbox tables
    ([insert_hierarchy_message], [retire_correlated_messages]).  The generated columns
    of migrations/0013.sql are functions of the stored snapshot. *)
From S2P Require Import Prelude Scalars Session Authority Operation Capacity Json StoreApi StoreWire.
From S2P Require Import Approval Template Message OperationApi SqliteDb SqliteSession.

(** The rows of a table. *)
Definition table_rows {K A} `{Countable K} (m : gmap K A) : list A := (map_to_list m).*2.
(** [COUNT] and [SUM] over the rows that satisfy a condition. *)
Definition count_rows {A} (p : A -> bool) (l : list A) : Z := llen (List.filter p l).
Definition sum_rows {A} (p : A -> bool) (f : A -> Z) (l : list A) : Z :=
  fold_right Z.add 0 (f <$> List.filter p l).

(** ** Operations *)

Section store.
Context {TL : TimeLib} {TA : TimeArith} {SH : Sha256} {JS : Json} {UT : UuidText}.
Variable max_lease_millis : Z.
(** [SqliteStore::limit_profile]. *)
Variable limit_profile : LimitProfile.

(** [decode_operation] of one row: what [load_operation_in] checks. *)
Definition decode_operation (operation_id : OperationId) (c : OperationCols) :
    result StoreError OperationSnapshot :=
  state ← corrupt (parse_operation_state (oc_state c));
  created_at ← decode_ts (oc_created_at c);
  updated_at ← decode_ts (oc_updated_at c);
  if Timestamp_ltb updated_at created_at
     || negb (Bool.eqb (is_terminal state) (is_some (oc_terminal_payload c)))
     || neqb (oc_terminal_outcome c) (terminal_outcome_name <$> oc_terminal_payload c)
     || (match oc_terminal_payload c with
         | Some outcome => negb (terminal_matches_state state outcome) | None => false end)
  then Err Corrupt else
  digest ← (if llen (oc_input_digest c) =? 32 then Ok (oc_input_digest c) else Err Corrupt);
  revision ← decode_revision (oc_revision c);
  if negb (Bool.eqb (bool_decide (state = OpWaiting)) (is_some (oc_waiting_on_message_id c)))
  then Err Corrupt
  else Ok (MkOperationSnapshot (oc_session_id c) operation_id (oc_participant_id c) (oc_start_request_id c)
             (oc_input_message_id c) (oc_waiting_on_message_id c) digest state revision
             (oc_terminal_payload c) created_at updated_at).

Definition load_operation_in (operation_id : OperationId) : Tx (option OperationSnapshot) :=
  d ← get;
  match db_operations d !! operation_id with
  | Some c => o ← lift (decode_operation operation_id c); mret (Some o)
  | None => mret None
  end.

Definition outcome_json (o : OperationTerminalOutcome) : Value :=
  VObject match o with
  | OutSucceeded result => [("kind", VString "succeeded"); ("result", json_bytes (as_slice result))]
  | OutFailed code detail =>
      [("kind", VString "failed"); ("code", VString (as_str code)); ("detail", VString (as_str detail))]
  | OutCancelled => [("kind", VString "cancelled")]
  | OutBlocked reason => [("kind", VString "blocked"); ("reason", VString (as_str reason))]
  | OutUncertain reason => [("kind", VString "uncertain"); ("reason", VString (as_str reason))]
  end%string.
Definition terminal_public_digest (o : OperationTerminalOutcome) : bytes :=
  sd_bytes (SemanticDigest_v1 (MkCapability "operation.public-outcome.v1") (to_vec (outcome_json o))).

Definition operation_event_payload (o : OperationSnapshot) : bytes :=
  to_vec (VObject
    [("created_at", json_timestamp (on_created_at o));
     ("input_message_id", json_id (on_input_message_id o));
     ("operation_id", json_id (on_operation_id o));
     ("participant_id", json_id (on_participant_id o));
     ("revision", json_u64 (Revision_get (on_revision o)));
     ("schema_version", json_u64 1);
     ("session_id", json_id (on_session_id o));
     ("state", VString (operation_state_name (on_state o)));
     ("terminal_outcome", json_option (fun t => VString (terminal_outcome_name t)) (on_terminal_outcome o));
     ("terminal_public_digest", json_option (fun t => json_bytes (terminal_public_digest t)) (on_terminal_outcome o));
     ("updated_at", json_timestamp (on_updated_at o));
     ("waiting_on_message_id", json_option json_id (on_waiting_on_message_id o))]%string).

(** ** Messages as stored *)

Definition priority_name (p : MessagePriority) : string :=
  match p with PrControl => "control" | PrOrdinary => "ordinary" end.
Definition priority_column (p : MessagePriority) : Z := match p with PrControl => 0 | PrOrdinary => 1 end.

(** The tag of the serialized state: the generated column [delivery_state]. *)
Definition delivery_state (s : MessageDeliveryState) : string :=
  match s with
  | MsQueued => "queued" | MsRetryScheduled _ => "retry_scheduled" | MsLeased _ => "leased"
  | MsAcceptancePending _ => "acceptance_pending" | MsAcceptanceUnknown _ => "acceptance_unknown"
  | MsAccepted _ _ _ => "accepted" | MsUncertain _ _ => "uncertain" | MsDeadLetter _ => "dead_letter"
  end.

Definition timestamp_json (t : Timestamp) : Value :=
  VObject [("unix_seconds"%string, json_i64 (unix_seconds t)); ("nanoseconds"%string, json_u64 (nanoseconds t))].
Definition lease_json (l : DeliveryLease) : Value :=
  VObject
    [("attempt_id", json_id (dl_attempt_id l)); ("owner", json_id (dl_owner l));
     ("ownership_epoch", json_u64 (FencingEpoch_get (dl_ownership_epoch l)));
     ("driver_ownership_epoch", json_u64 (FencingEpoch_get (dl_driver_ownership_epoch l)));
     ("driver_launch_attempt_id", json_id (dl_driver_launch_attempt_id l));
     ("instance_id", json_id (dl_instance_id l)); ("expires_at", timestamp_json (dl_expires_at l))]%string.
Definition state_json (s : MessageDeliveryState) : Value :=
  VObject (("kind", VString (delivery_state s)) :: match s with
  | MsQueued => []
  | MsRetryScheduled not_before => [("not_before", timestamp_json not_before)]
  | MsLeased l | MsAcceptancePending l | MsAcceptanceUnknown l => [("lease", lease_json l)]
  | MsAccepted attempt proof accepted_at =>
      [("attempt_id", json_id attempt); ("proof_digest", json_bytes proof);
       ("accepted_at", timestamp_json accepted_at)]
  | MsUncertain attempt reason => [("attempt_id", json_id attempt); ("reason", VString (as_str reason))]
  | MsDeadLetter reason => [("reason", VString (as_str reason))]
  end)%string.
(** [serde_json::to_vec(&snapshot)]. *)
Definition message_bytes (m : MessageSnapshot) : bytes :=
  to_vec (VObject
    [("session_id", json_id (ms_session_id m)); ("message_id", json_id (ms_message_id m));
     ("source", json_id (ms_source m)); ("destination", json_id (ms_destination m));
     ("mailbox_sequence", json_u64 (ms_mailbox_sequence m));
     ("priority", VString (priority_name (ms_priority m)));
     ("correlation", VObject
        [("operation_id", json_option json_id (mc_operation_id (ms_correlation m)));
         ("in_reply_to", json_option json_id (mc_in_reply_to (ms_correlation m)))]);
     ("envelope", envelope_wire (env_schema_version (ms_envelope m)) (env_body (ms_envelope m)));
     ("attempt_count", json_u64 (ms_attempt_count m)); ("state", state_json (ms_state m));
     ("revision", json_u64 (Revision_get (ms_revision m)));
     ("created_at", timestamp_json (ms_created_at m)); ("updated_at", timestamp_json (ms_updated_at m))]%string).

(** ** Derived capacity *)

Definition in_session (s : SessionId) (x : SessionId) : bool := bool_decide (x = s).

(** The usage of one session and of all sessions, counted from the tables. *)
Definition derived_capacity_usage (d : Db) (session_id : SessionId) (resource : CapacityResource) : Z * Z :=
  let operations := table_rows (db_operations d) in
  let messages := table_rows (db_messages d) in
  let artifacts := table_rows (db_artifacts d) in
  let both {A} (session : A -> SessionId) (use : (A -> bool) -> Z) : Z * Z :=
    (use (fun x => in_session session_id (session x)), use (fun _ => true)) in
  let open_message (r : MessageRow) : bool :=
    let s := delivery_state (ms_state (mg_snapshot r)) in
    negb (String.eqb s "accepted") && negb (String.eqb s "retired") in
  let not_erased (r : ArtifactCols) : bool := negb (String.eqb (af_state r) "erased") in
  match resource with
  | Participants => both pc_session_id (fun p => count_rows p (table_rows (db_participants d)))
  | ActiveOperations => both oc_session_id (fun p => count_rows (fun o =>
      p o && is_none (oc_terminal_outcome o) && negb (String.eqb (oc_state o) "queued")) operations)
  | QueuedOperations => both oc_session_id (fun p => count_rows (fun o =>
      p o && String.eqb (oc_state o) "queued") operations)
  | Messages => both mg_session_id (fun p => count_rows (fun r => p r && open_message r) messages)
  | MessageBytes => both mg_session_id (fun p =>
      sum_rows (fun r => p r && open_message r) (fun r => llen (message_bytes (mg_snapshot r))) messages)
  | Artifacts => both af_session_id (fun p => count_rows (fun r => p r && not_erased r) artifacts)
  | ArtifactBytes => both af_session_id (fun p => sum_rows (fun r => p r && not_erased r) af_size artifacts)
  | Retries => both mg_session_id (fun p => count_rows (fun r =>
      p r && String.eqb (delivery_state (ms_state (mg_snapshot r))) "retry_scheduled") messages)
  | RetainedEvents => both er_session_id (fun p => count_rows p (db_events d))
  | PendingRequests | Subscriptions => (0, 0)
  end.

(** A profile without the resource would panic, which drops the transaction. *)
Definition ensure_derived_capacity (session_id : SessionId) (resource : CapacityResource) (amount : Z) : Tx unit :=
  d ← get;
  let derived := derived_capacity_usage d session_id resource in
  derived_session ← lift (to_u64 derived.1);
  derived_global ← lift (to_u64 derived.2);
  reserved_session ← lift (to_u64 (default 0 (db_session_usage d !! (session_id, resource))));
  let session_after := checked_add_u64 derived_session reserved_session ≫= fun used => checked_add_u64 used amount in
  reserved_global ← lift (to_u64 (default 0 (db_global_usage d !! resource)));
  let global_after := checked_add_u64 derived_global reserved_global ≫= fun used => checked_add_u64 used amount in
  limit ← lift (ok_or Unavailable (LimitProfile_get limit_profile resource));
  if is_none_or session_after (fun used => per_session limit <? used)
  then abort (CapacityExceeded (SessionLimit resource))
  else if is_none_or global_after (fun used => global limit <? used)
  then abort (CapacityExceeded (GlobalLimit resource))
  else mret tt.

(** ** Statements on the mailbox tables *)

(** [decode_message_row]: the snapshot, if it agrees with the columns and is valid. *)
Definition decode_message_row (message_id : MessageId) (r : MessageRow) : result StoreError MessageSnapshot :=
  let m := mg_snapshot r in
  if neqb message_id (ms_message_id m) || neqb (mg_session_id r) (ms_session_id m)
     || neqb (mg_source r) (ms_source m) || neqb (mg_destination r) (ms_destination m)
  then Err Corrupt else
  sequence ← to_i64 (ms_mailbox_sequence m);
  if negb (mg_mailbox_sequence r =? sequence) || negb (mg_priority r =? priority_column (ms_priority m))
     || negb (is_structurally_valid m)
  then Err Corrupt else Ok m.

Definition load_message_in (message_id : MessageId) : Tx (option MessageSnapshot) :=
  d ← get;
  match db_messages d !! message_id with
  | Some r => m ← lift (decode_message_row message_id r); mret (Some m)
  | None => mret None
  end.

Definition update_message_snapshot (m : MessageSnapshot) : Tx unit :=
  d ← get;
  match db_messages d !! ms_message_id m with
  | Some r => put (set_messages d (<[ms_message_id m := MkMessageRow (mg_session_id r) (mg_source r)
      (mg_destination r) (mg_mailbox_sequence r) (mg_priority r) m]> (db_messages d)))
  | None => abort Corrupt
  end.

(** [INSERT INTO messages], with the primary key, the foreign keys, the unique
    sequence and the checks of the table. *)
Definition insert_message (m : MessageSnapshot) (sequence : Z) : Tx unit :=
  d ← get;
  if is_some (db_messages d !! ms_message_id m)
     || is_none (db_sessions d !! ms_session_id m)
     || is_none (db_participants d !! ms_source m) || is_none (db_participants d !! ms_destination m)
     || (sequence <=? 0)
     || existsb (fun r => eqb (mg_destination r) (ms_destination m) && (mg_mailbox_sequence r =? sequence))
          (table_rows (db_messages d))
  then abort Unavailable
  else put (set_messages d (<[ms_message_id m := MkMessageRow (ms_session_id m) (ms_source m)
    (ms_destination m) sequence (priority_column (ms_priority m)) m]> (db_messages d))).

(** [SELECT next_sequence, queued_bytes, queued_messages .. unwrap_or((1, 0, 0))]. *)
Definition mailbox_counter (d : Db) (destination : ParticipantId) : CounterCols :=
  default (MkCounter 1 0 0) (db_counters d !! destination).

(** [INSERT INTO mailbox_counters .. ON CONFLICT DO UPDATE]. *)
Definition upsert_counter (destination : ParticipantId) (c : CounterCols) : Tx unit :=
  d ← get;
  if is_none (db_participants d !! destination) || (ct_next_sequence c <=? 0)
     || (ct_queued_bytes c <? 0) || (ct_queued_messages c <? 0)
  then abort Unavailable
  else put (set_counters d (<[destination := c]> (db_counters d))).

Definition decrement_mailbox_bytes (m : MessageSnapshot) : Tx unit :=
  n ← lift (to_i64 (llen (envelope_as_bytes (ms_envelope m))));
  d ← get;
  match db_counters d !! ms_destination m with
  | Some c =>
      if (n <=? ct_queued_bytes c) && (0 <? ct_queued_messages c)
      then put (set_counters d (<[ms_destination m := MkCounter (ct_next_sequence c)
        (ct_queued_bytes c - n) (ct_queued_messages c - 1)]> (db_counters d)))
      else abort Corrupt
  | None => abort Corrupt
  end.

(** [sequence.checked_add(1).ok_or(Corrupt)?] on an [i64]. *)
Definition next_sequence (sequence : Z) : result StoreError Z :=
  if sequence + 1 <=? i64_max then Ok (sequence + 1) else Err Corrupt.

Definition message_event_name (s : MessageDeliveryState) : string * string :=
  match s with
  | MsQueued => ("message.enqueued", "queued")
  | MsRetryScheduled _ => ("message.retry_scheduled", "retry_scheduled")
  | MsLeased _ => ("message.leased", "leased")
  | MsAcceptancePending _ => ("message.acceptance_pending", "acceptance_pending")
  | MsAcceptanceUnknown _ => ("message.acceptance_unknown", "acceptance_unknown")
  | MsAccepted _ _ _ => ("message.accepted", "accepted")
  | MsUncertain _ _ => ("message.uncertain", "uncertain")
  | MsDeadLetter _ => ("message.dead_lettered", "dead_lettered")
  end.

Definition append_message_event (request_id : RequestId) (m : MessageSnapshot) (observed_at : Timestamp) : Tx unit :=
  let names := message_event_name (ms_state m) in
  append_event_data request_id (ms_session_id m) (ms_revision m) names.1
    (to_vec (VObject
      [("attempt_count", json_u64 (ms_attempt_count m));
       ("created_at", json_timestamp (ms_created_at m));
       ("destination", json_id (ms_destination m));
       ("in_reply_to", json_option json_id (mc_in_reply_to (ms_correlation m)));
       ("mailbox_sequence", json_u64 (ms_mailbox_sequence m));
       ("message_id", json_id (ms_message_id m));
       ("operation_id", json_option json_id (mc_operation_id (ms_correlation m)));
       ("priority", VString (priority_name (ms_priority m)));
       ("revision", json_u64 (Revision_get (ms_revision m)));
       ("schema_version", json_u64 1);
       ("session_id", json_id (ms_session_id m));
       ("source", json_id (ms_source m));
       ("state", VString names.2);
       ("updated_at", json_timestamp (ms_updated_at m))]%string))
    observed_at.

(** ** Authorization *)

(** The result of a read-only transaction as a value: [match m { Ok .. Err .. }]. *)
Definition catch {A} (m : Tx A) : Tx (result StoreError A) := fun d =>
  match m d with
  | Next a d' => Next (Ok a) d'
  | Abort e => Next (Err e) d
  | Finished d' e => Finished d' e
  end.

Definition authorize_launch (session_id : SessionId) (context : RequestContext) (epoch : FencingEpoch)
    (action : StoreAction) (observed_at : Timestamp) : Tx (result StoreError unit) :=
  row ← catch (require_open_session session_id action);
  match row with
  | Err e => mret (Err e)
  | Ok row =>
      now ← advance_time_floor session_id (sr_time_floor row) observed_at;
      mret (require_owner row (rc_caller context) epoch now)
  end.

(** [load_session_in(..)?.ok_or(Corrupt)?.time_floor]. *)
Definition session_time (session_id : SessionId) : Tx Timestamp :=
  loaded ← load_session_in session_id;
  row ← lift (ok_or Corrupt loaded);
  mret (sr_time_floor row).

Definition replay_json_message {C} `{!MutableRequest C} (c : C) : Tx (option (option MessageSnapshot)) :=
  stored ← replay_bytes c;
  match stored with
  | None => mret None
  | Some (LrMessage o) => mret (Some o)
  | Some _ => abort Corrupt
  end.

(** ** Enqueueing *)

Definition operation_is (o : option OperationSnapshot) (p : OperationSnapshot -> bool) : bool :=
  match o with Some o => p o | None => false end.
Definition message_is (o : option MessageSnapshot) (p : MessageSnapshot -> bool) : bool :=
  match o with Some m => p m | None => false end.

(** The causal checks on the envelope's body, in the order the code makes them. *)
Definition body_is_causal (c : EnqueueMessage) : Tx bool :=
  let about (op : OperationId) : bool := eqb (mc_operation_id (eq_correlation c)) (Some op) in
  let no_reply : bool := is_none (mc_in_reply_to (eq_correlation c)) in
  let here (o : OperationSnapshot) : bool := eqb (on_session_id o) (eq_session_id c) in
  match env_body (eq_envelope c) with
  | BodyOperationInput op input_digest =>
      operation ← load_operation_in op;
      mret (about op && no_reply && operation_is operation (fun o =>
        here o && eqb (on_participant_id o) (eq_destination c)
        && eqb (on_input_message_id o) (eq_message_id c) && eqb (on_input_digest o) input_digest))
  | BodyControl op _ =>
      operation ← load_operation_in op;
      mret (about op && no_reply && operation_is operation (fun o =>
        here o && eqb (on_participant_id o) (eq_destination c)))
  | BodyQuestion op _ =>
      operation ← load_operation_in op;
      mret (about op && no_reply && operation_is operation (fun o =>
        here o && eqb (on_participant_id o) (eq_source c) && eqb (on_state o) OpWaiting
        && eqb (on_waiting_on_message_id o) (Some (eq_message_id c))))
  | BodyOperationOutcome op _ result_digest =>
      operation ← load_operation_in op;
      mret (about op && no_reply && operation_is operation (fun o =>
        here o && eqb (on_participant_id o) (eq_source c) && is_terminal (on_state o)
        && match on_terminal_outcome o with
           | Some outcome => eqb (terminal_public_digest outcome) result_digest | None => false end))
  | BodyCorrelatedFeedback op in_reply_to _ =>
      if negb (about op) || neqb (mc_in_reply_to (eq_correlation c)) (Some in_reply_to)
         || eqb in_reply_to (eq_message_id c)
      then mret false
      else
        operation ← load_operation_in op;
        if negb (operation_is operation (fun o => here o && eqb (on_participant_id o) (eq_source c)))
        then mret false
        else
          reply ← load_message_in in_reply_to;
          mret (message_is reply (fun m =>
            eqb (ms_session_id m) (eq_session_id c) && eqb (ms_source m) (eq_destination c)
            && eqb (ms_destination m) (eq_source c)))
  | BodyApprovalDecision _ _ _ _ => mret false
  end.

Definition enqueue_message (observed_at : Timestamp) (c : EnqueueMessage) : Tx (Mutation MessageSnapshot) :=
  replayed ← replay_json_message c;
  match replayed with
  | Some (Some m) => mret (Replayed m)
  | Some None => abort Corrupt
  | None =>
  authorized ← authorize_launch (eq_session_id c) (eq_context c) (eq_epoch c) ActEnqueueMessage observed_at;
  match authorized with
  | Err error => finish_failure (eq_session_id c) c error
  | Ok _ =>
  now ← session_time (eq_session_id c);
  let size := llen (envelope_as_bytes (eq_envelope c)) in
  _ ← ensure_derived_capacity (eq_session_id c) Messages 1;
  _ ← ensure_derived_capacity (eq_session_id c) MessageBytes size;
  d ← get;
  if neqb (pc_session_id <$> db_participants d !! eq_source c) (Some (eq_session_id c))
     || neqb (pc_session_id <$> db_participants d !! eq_destination c) (Some (eq_session_id c))
  then finish_failure (eq_session_id c) c Invalid else
  causal ← body_is_causal c;
  if negb causal then finish_failure (eq_session_id c) c Invalid else
  if is_some (db_messages d !! eq_message_id c) then finish_failure (eq_session_id c) c Invalid else
  let counter := mailbox_counter d (eq_destination c) in
  queued ← lift (to_u64 (ct_queued_bytes counter));
  new_queued ← lift (ok_or MailboxQuotaExceeded (checked_add_u64 queued size));
  count ← lift (to_u64 (ct_queued_messages counter));
  new_count ← lift (ok_or MailboxQuotaExceeded (checked_add_u64 count 1));
  if (MAX_MAILBOX_QUEUED_BYTES <? new_queued) || (MAX_MAILBOX_QUEUED_MESSAGES <? new_count)
  then finish_failure (eq_session_id c) c MailboxQuotaExceeded else
  sequence ← lift (to_u64 (ct_next_sequence counter));
  let m := MkMessage (eq_session_id c) (eq_message_id c) (eq_source c) (eq_destination c) sequence
    (priority_for (envelope_kind (eq_envelope c))) (eq_correlation c) (eq_envelope c) 0 MsQueued
    Revision_initial now now in
  _ ← insert_message m sequence;
  next ← lift (next_sequence sequence);
  new_queued ← lift (to_i64 new_queued);
  new_count ← lift (to_i64 new_count);
  _ ← upsert_counter (eq_destination c) (MkCounter next new_queued new_count);
  _ ← append_message_event (rc_request_id (eq_context c)) m observed_at;
  _ ← record_bytes (eq_session_id c) c SeApplied (LrMessage (Some m));
  mret (Applied m)
  end end.

(** ** Leasing *)

(** [ORDER BY priority, mailbox_sequence]. *)
Definition mailbox_le (a b : MessageId * MessageRow) : Prop :=
  mg_priority a.2 < mg_priority b.2 \/
  (mg_priority a.2 = mg_priority b.2 /\ mg_mailbox_sequence a.2 <= mg_mailbox_sequence b.2).
#[global] Instance mailbox_le_dec : RelDecision mailbox_le.
Proof. intros a b. unfold mailbox_le. apply _. Defined.

Definition select_mailbox (d : Db) (session_id : SessionId) (destination : ParticipantId) :
    list (MessageId * MessageRow) :=
  merge_sort mailbox_le (filter (fun e => mg_session_id e.2 = session_id /\ mg_destination e.2 = destination)
    (map_to_list (db_messages d))).

Definition state_lease (s : MessageDeliveryState) : option DeliveryLease :=
  match s with MsLeased l | MsAcceptancePending l | MsAcceptanceUnknown l => Some l | _ => None end.
Definition awaits_acceptance (s : MessageDeliveryState) : bool :=
  match s with MsAcceptancePending _ | MsAcceptanceUnknown _ => true | _ => false end.

Definition expired_acceptance (now : Timestamp) (m : MessageSnapshot) : bool :=
  match ms_state m with
  | MsAcceptancePending l | MsAcceptanceUnknown l => Timestamp_leb (dl_expires_at l) now
  | _ => false
  end.
Definition active_lease (now : Timestamp) (m : MessageSnapshot) : bool :=
  match state_lease (ms_state m) with
  | Some l => Timestamp_ltb now (dl_expires_at l)
  | None => false
  end.
Definition mailbox_head (messages : list MessageSnapshot) : option MessageSnapshot :=
  let live (p : MessagePriority) (m : MessageSnapshot) : bool :=
    eqb (ms_priority m) p && negb (delivery_is_terminal (ms_state m)) in
  match List.find (live PrControl) messages with
  | Some m => Some m
  | None => List.find (live PrOrdinary) messages
  end.
Definition eligible (now : Timestamp) (m : MessageSnapshot) : bool :=
  match ms_state m with
  | MsQueued => true
  | MsRetryScheduled not_before => Timestamp_leb not_before now
  | MsLeased l => Timestamp_leb (dl_expires_at l) now
  | _ => false
  end.

Definition set_delivery (m : MessageSnapshot) (attempts : Z) (state : MessageDeliveryState)
    (revision : Revision) (now : Timestamp) : MessageSnapshot :=
  MkMessage (ms_session_id m) (ms_message_id m) (ms_source m) (ms_destination m) (ms_mailbox_sequence m)
    (ms_priority m) (ms_correlation m) (ms_envelope m) attempts state revision (ms_created_at m) now.

(** The lease taken over by the current owner, for an acceptance that was never
    confirmed. *)
Definition replacement (c : LeaseNextMessage) (expires_at : Timestamp) (l : DeliveryLease) : DeliveryLease :=
  MkDeliveryLease (dl_attempt_id l) (rc_caller (ln_context c)) (ln_epoch c) (dl_driver_ownership_epoch l)
    (dl_driver_launch_attempt_id l) (dl_instance_id l) expires_at.

Definition next_revision (r : Revision) : result StoreError Revision := ok_or Corrupt (Revision_next r).

(** [SELECT 1 FROM launch_attempts WHERE ..]. *)
Definition instance_ready (d : Db) (c : LeaseNextMessage) (epoch : Z) : bool :=
  match db_launches d !! ln_driver_launch_attempt_id c with
  | Some l => eqb (la_session_id l) (ln_session_id c) && eqb (la_ownership_epoch l) (Some epoch)
              && eqb (la_participant_id l) (ln_destination c)
              && eqb (la_instance_id l) (Some (ln_instance_id c)) && String.eqb (la_state l) "ready"
  | None => false
  end.

Definition duration_lease (d : Duration) : option LeaseDuration :=
  if duration_millis d <=? u64_max
  then match LeaseDuration_from_millis (duration_millis d) with Ok l => Some l | Err _ => None end
  else None.

Definition record_lease (c : LeaseNextMessage) (o : option MessageSnapshot) :
    Tx (Mutation (option MessageSnapshot)) :=
  _ ← record_bytes (ln_session_id c) c SeApplied (LrMessage o);
  mret (Applied o).

(** What [lease_next_message] does with the message it selected: an acceptance whose
    lease expired is taken over with its attempt, any other message is leased anew, or
    given up after too many attempts. *)
Definition take_over (observed_at now : Timestamp) (c : LeaseNextMessage) (m : MessageSnapshot)
    (state : MessageDeliveryState) : Tx (Mutation (option MessageSnapshot)) :=
  revision ← lift (next_revision (ms_revision m));
  let m := set_delivery m (ms_attempt_count m) state revision now in
  _ ← update_message_snapshot m;
  _ ← append_message_event (rc_request_id (ln_context c)) m observed_at;
  record_lease c (Some m).

Definition lease_anew (observed_at now expires_at : Timestamp) (c : LeaseNextMessage)
    (m : MessageSnapshot) : Tx (Mutation (option MessageSnapshot)) :=
  epoch ← lift (to_i64 (FencingEpoch_get (ln_epoch c)));
  d ← get;
  if negb (instance_ready d c epoch) then finish_failure (ln_session_id c) c Invalid else
  revision ← lift (next_revision (ms_revision m));
  if MAX_DELIVERY_ATTEMPTS <=? ms_attempt_count m
  then
    reason ← lift (corrupt (BoundedText_new "delivery attempt limit exhausted"));
    let m := set_delivery m (ms_attempt_count m) (MsDeadLetter reason) revision now in
    _ ← update_message_snapshot m;
    _ ← decrement_mailbox_bytes m;
    _ ← append_message_event (rc_request_id (ln_context c)) m observed_at;
    record_lease c (Some m)
  else
    let lease := MkDeliveryLease (ln_proposed_attempt_id c) (rc_caller (ln_context c)) (ln_epoch c)
      (ln_epoch c) (ln_driver_launch_attempt_id c) (ln_instance_id c) expires_at in
    let m := set_delivery m (ms_attempt_count m + 1) (MsLeased lease) revision now in
    _ ← update_message_snapshot m;
    _ ← append_message_event (rc_request_id (ln_context c)) m observed_at;
    record_lease c (Some m).

Definition lease_selected (observed_at now expires_at : Timestamp) (c : LeaseNextMessage)
    (m : MessageSnapshot) : Tx (Mutation (option MessageSnapshot)) :=
  match ms_state m with
  | MsAcceptancePending l => take_over observed_at now c m (MsAcceptancePending (replacement c expires_at l))
  | MsAcceptanceUnknown l => take_over observed_at now c m (MsAcceptanceUnknown (replacement c expires_at l))
  | _ => lease_anew observed_at now expires_at c m
  end.

Definition lease_next_message (observed_at : Timestamp) (c : LeaseNextMessage) :
    Tx (Mutation (option MessageSnapshot)) :=
  replayed ← replay_json_message c;
  match replayed with
  | Some o => mret (Replayed o)
  | None =>
  match duration_lease (ln_lease_duration c) with
  | None => finish_failure (ln_session_id c) c LeaseTooLong
  | Some duration =>
  authorized ← authorize_launch (ln_session_id c) (ln_context c) (ln_epoch c) ActLeaseNextMessage observed_at;
  match authorized with
  | Err error => finish_failure (ln_session_id c) c error
  | Ok _ =>
  now ← session_time (ln_session_id c);
  match expiry max_lease_millis now duration with
  | Err error => finish_failure (ln_session_id c) c error
  | Ok expires_at =>
  d ← get;
  messages ← lift (collect (fun e => decode_message_row e.1 e.2)
                     (select_mailbox d (ln_session_id c) (ln_destination c)));
  let recovery := List.find (expired_acceptance now) messages in
  let has_active_lease := existsb (active_lease now) messages in
  if is_none recovery && has_active_lease then record_lease c None else
  let selected := match recovery with
                  | Some m => Some m
                  | None => match mailbox_head messages with
                            | Some m => if eligible now m then Some m else None
                            | None => None end
                  end in
  match selected with
  | None => record_lease c None
  | Some m => lease_selected observed_at now expires_at c m
  end
  end end end end.

(** ** Delivery transitions *)

(** The lease a delivery report must carry: an acceptance may be reported late, any
    other report only while the lease is effective. *)
Definition reported_lease (now : Timestamp) (c : TransitionMessageDelivery) (m : MessageSnapshot) :
    option DeliveryLease :=
  let matches_ (l : DeliveryLease) : bool :=
    eqb (dl_attempt_id l) (td_attempt_id c) && eqb (dl_owner l) (rc_caller (td_context c))
    && eqb (dl_ownership_epoch l) (td_epoch c) in
  match ms_state m with
  | MsLeased l => if matches_ l && Timestamp_ltb now (dl_expires_at l) then Some l else None
  | MsAcceptancePending l | MsAcceptanceUnknown l => if matches_ l then Some l else None
  | _ => None
  end.

(** The state a report leads to; [None] where the code answers [Invalid]. *)
Definition reported_state (now : Timestamp) (c : TransitionMessageDelivery)
    (retry_not_before : option Timestamp) (m : MessageSnapshot) (lease : DeliveryLease) :
    option (result StoreError MessageDeliveryState) :=
  match td_transition c, ms_state m with
  | DtAcceptancePending, MsLeased _ => Some (Ok (MsAcceptancePending lease))
  | DtAcceptanceUnknown, MsAcceptancePending _ => Some (Ok (MsAcceptanceUnknown lease))
  | DtRetryAfter _, (MsAcceptancePending _ | MsAcceptanceUnknown _) =>
      Some (not_before ← ok_or Corrupt retry_not_before; Ok (MsRetryScheduled not_before))
  | DtAccepted proof, (MsAcceptancePending _ | MsAcceptanceUnknown _) =>
      Some (Ok (MsAccepted (td_attempt_id c) proof now))
  | DtUncertain reason, (MsAcceptancePending _ | MsAcceptanceUnknown _) =>
      Some (Ok (MsUncertain (td_attempt_id c) reason))
  | DtDeadLetter reason, _ => Some (Ok (MsDeadLetter reason))
  | _, _ => None
  end.

(** [UPDATE operations SET state='running', ..], with the number of rows changed. *)
Definition resume_operation_row (operation_id : OperationId) (previous revision : Z) (reply : MessageId)
    (updated_at : Timestamp) : Tx Z :=
  d ← get;
  match db_operations d !! operation_id with
  | Some c =>
      if (oc_revision c =? previous) && String.eqb (oc_state c) "waiting"
         && eqb (oc_waiting_on_message_id c) (Some reply)
      then _ ← put (set_operations d (<[operation_id := MkOperationCols (oc_session_id c)
             (oc_participant_id c) (oc_start_request_id c) (oc_input_message_id c) None (oc_input_digest c)
             (oc_input_payload c) "running" (oc_terminal_outcome c) (oc_terminal_payload c) revision (oc_created_at c) updated_at]>
             (db_operations d)));
           mret 1
      else mret 0
  | None => mret 0
  end.

(** An accepted answer to the question an operation waits on resumes the operation. *)
Definition resume_operation (observed_at now : Timestamp) (c : TransitionMessageDelivery)
    (m : MessageSnapshot) : Tx unit :=
  match ms_state m, env_body (ms_envelope m) with
  | MsAccepted _ _ _, BodyCorrelatedFeedback operation_id in_reply_to _ =>
      loaded ← load_operation_in operation_id;
      o ← lift (ok_or Corrupt loaded);
      if eqb (on_session_id o) (td_session_id c) && eqb (on_participant_id o) (ms_destination m)
         && eqb (on_state o) OpWaiting && eqb (on_waiting_on_message_id o) (Some in_reply_to)
      then
        revision ← lift (next_revision (on_revision o));
        let o' := MkOperationSnapshot (on_session_id o) (on_operation_id o) (on_participant_id o)
          (on_start_request_id o) (on_input_message_id o) None (on_input_digest o) OpRunning revision
          (on_terminal_outcome o) (on_created_at o) (Timestamp_max now (on_updated_at o)) in
        revision_column ← lift (to_i64 (Revision_get revision));
        previous ← lift (to_i64 (Revision_get (on_revision o)));
        changed ← resume_operation_row operation_id previous revision_column in_reply_to (on_updated_at o');
        _ ← one_row changed;
        append_event_data (rc_request_id (td_context c)) (td_session_id c) revision "operation.resumed"
          (operation_event_payload o') observed_at
      else mret tt
  | _, _ => mret tt
  end.

(** The date a retry may start; [None] where the code answers [LeaseTooLong]. *)
Definition retry_date (now : Timestamp) (t : DeliveryTransition) :
    result StoreError (option Timestamp) :=
  match t with
  | DtRetryAfter delay =>
      match duration_lease delay with
      | None => Err LeaseTooLong
      | Some duration => at_ ← expiry max_lease_millis now duration; Ok (Some at_)
      end
  | _ => Ok None
  end.

Definition transition_message_delivery (observed_at : Timestamp) (c : TransitionMessageDelivery) :
    Tx (Mutation MessageSnapshot) :=
  replayed ← replay_json_message c;
  match replayed with
  | Some (Some m) => mret (Replayed m)
  | Some None => abort Corrupt
  | None =>
  authorized ← authorize_launch (td_session_id c) (td_context c) (td_epoch c) ActTransitionMessageDelivery
    observed_at;
  match authorized with
  | Err error => finish_failure (td_session_id c) c error
  | Ok _ =>
  now ← session_time (td_session_id c);
  match retry_date now (td_transition c) with
  | Err error => finish_failure (td_session_id c) c error
  | Ok retry_not_before =>
  loaded ← load_message_in (td_message_id c);
  match loaded with
  | None => finish_failure (td_session_id c) c (MessageNotFound (td_message_id c))
  | Some m =>
  if neqb (ms_session_id m) (td_session_id c) || neqb (ms_revision m) (td_expected_revision c)
     || delivery_is_terminal (ms_state m)
  then finish_failure (td_session_id c) c Invalid else
  match reported_lease now c m with
  | None => finish_failure (td_session_id c) c Invalid
  | Some lease =>
  _ ← (match td_transition c with
       | DtRetryAfter _ => ensure_derived_capacity (td_session_id c) Retries 1
       | _ => mret tt end);
  _ ← ensure_derived_capacity (td_session_id c) RetainedEvents 1;
  match reported_state now c retry_not_before m lease with
  | None => finish_failure (td_session_id c) c Invalid
  | Some state =>
  state ← lift state;
  revision ← lift (next_revision (ms_revision m));
  let m := set_delivery m (ms_attempt_count m) state revision now in
  _ ← update_message_snapshot m;
  _ ← append_message_event (rc_request_id (td_context c)) m observed_at;
  _ ← resume_operation observed_at now c m;
  _ ← (if delivery_is_terminal (ms_state m) then decrement_mailbox_bytes m else mret tt);
  _ ← record_bytes (td_session_id c) c SeApplied (LrMessage (Some m));
  mret (Applied m)
  end end end end end end.

(** ** Reading *)

Definition load_message (message_id : MessageId) : Tx MessageSnapshot :=
  m ← load_message_in message_id;
  lift (ok_or (MessageNotFound message_id) m).

Definition sequence_le (a b : MessageId * MessageRow) : Prop :=
  mg_mailbox_sequence a.2 <= mg_mailbox_sequence b.2.
#[global] Instance sequence_le_dec : RelDecision sequence_le.
Proof. intros a b. unfold sequence_le. apply _. Defined.

Definition load_mailbox (destination : ParticipantId) : Tx (list MessageSnapshot) :=
  d ← get;
  lift (collect (fun e => decode_message_row e.1 e.2)
    (merge_sort sequence_le (filter (fun e => mg_destination e.2 = destination) (map_to_list (db_messages d))))).

(** ** Writers of other handlers *)

(** Called by the hierarchy and operation handlers to put a message into a mailbox. *)
Definition insert_hierarchy_message (session_id : SessionId) (request_id : RequestId)
    (message_id : MessageId) (source destination : ParticipantId) (correlation : MessageCorrelation)
    (envelope : ValidatedMessageEnvelope) (now : Timestamp) : Tx MessageSnapshot :=
  existing ← load_message_in message_id;
  if is_some existing then abort Invalid else
  d ← get;
  let counter := mailbox_counter d destination in
  queued ← lift (to_u64 (ct_queued_bytes counter));
  new_bytes ← lift (ok_or MailboxQuotaExceeded
    (checked_add_u64 queued (llen (envelope_as_bytes envelope))));
  count ← lift (to_u64 (ct_queued_messages counter));
  new_messages ← lift (ok_or MailboxQuotaExceeded (checked_add_u64 count 1));
  let outcome_reserve := eqb (envelope_kind envelope) KindOperationOutcome in
  let byte_limit := MAX_MAILBOX_QUEUED_BYTES + (if outcome_reserve then MAX_MAILBOX_RESERVED_OUTCOME_BYTES else 0) in
  let message_limit := MAX_MAILBOX_QUEUED_MESSAGES + (if outcome_reserve then MAX_MAILBOX_RESERVED_OUTCOMES else 0) in
  if (byte_limit <? new_bytes) || (message_limit <? new_messages) then abort MailboxQuotaExceeded else
  sequence ← lift (to_u64 (ct_next_sequence counter));
  let m := MkMessage session_id message_id source destination sequence (priority_for (envelope_kind envelope))
    correlation envelope 0 MsQueued Revision_initial now now in
  _ ← insert_message m sequence;
  next ← lift (next_sequence sequence);
  new_bytes ← lift (to_i64 new_bytes);
  new_messages ← lift (to_i64 new_messages);
  _ ← upsert_counter destination (MkCounter next new_bytes new_messages);
  _ ← append_message_event request_id m now;
  mret m.

(** Retire one message whose operation has ended. *)
Definition retire_message (request_id : RequestId) (operation : OperationSnapshot) (observed_at : Timestamp)
    (e : MessageId * MessageRow) : Tx unit :=
  m ← lift (decode_message_row e.1 e.2);
  if neqb (ms_destination m) (on_participant_id operation) then abort Corrupt else
  revision ← lift (next_revision (ms_revision m));
  reason ← lift (corrupt (BoundedText_new "correlated operation became terminal"));
  state ← lift (match ms_state m with
    | MsAcceptancePending l | MsAcceptanceUnknown l => Ok (MsUncertain (dl_attempt_id l) reason)
    | MsQueued | MsRetryScheduled _ | MsLeased _ => Ok (MsDeadLetter reason)
    | _ => Err Corrupt end);
  let m := set_delivery m (ms_attempt_count m) state revision (Timestamp_max observed_at (ms_updated_at m)) in
  _ ← update_message_snapshot m;
  _ ← decrement_mailbox_bytes m;
  append_message_event request_id m observed_at.

Fixpoint retire_messages (request_id : RequestId) (operation : OperationSnapshot) (observed_at : Timestamp)
    (rows : list (MessageId * MessageRow)) : Tx unit :=
  match rows with
  | [] => mret tt
  | e :: rows => _ ← retire_message request_id operation observed_at e;
                 retire_messages request_id operation observed_at rows
  end.

(** Called when an operation ends, for the messages about it that are still open. *)
Definition retire_correlated_messages (request_id : RequestId) (operation : OperationSnapshot)
    (observed_at : Timestamp) : Tx unit :=
  d ← get;
  retire_messages request_id operation observed_at
    (merge_sort sequence_le (filter (fun e =>
       mg_session_id e.2 = on_session_id operation /\
       mc_operation_id (ms_correlation (mg_snapshot e.2)) = Some (on_operation_id operation) /\
       mg_destination e.2 = on_participant_id operation /\
       delivery_is_terminal (ms_state (mg_snapshot e.2)) = false) (map_to_list (db_messages d)))).
End store.
