(* ===== verification/Tables.v ===== *)
(** * Tables: counting and summing over the rows of a table *)
From S2P Require Import Prelude SqliteMailbox.

Lemma sum_rows_perm {A} (p : A -> bool) (f : A -> Z) l l' : l ≡ₚ l' -> sum_rows p f l = sum_rows p f l'.
Proof.
  unfold sum_rows. induction 1 as [|x l l' _ IH|x y l|l1 l2 l3 _ IH1 _ IH2]; cbn; [done| | |congruence].
  - destruct (p x); cbn; by rewrite IH.
  - destruct (p x), (p y); cbn; lia.
Qed.
Definition weight {A} (p : A -> bool) (f : A -> Z) (x : A) : Z := if p x then f x else 0.
Lemma sum_rows_cons {A} (p : A -> bool) (f : A -> Z) x l : sum_rows p f (x :: l) = weight p f x + sum_rows p f l.
Proof. unfold sum_rows, weight. cbn. by destruct (p x). Qed.

Lemma count_sum {A} (p : A -> bool) l : count_rows p l = sum_rows p (fun _ => 1) l.
Proof.
  unfold count_rows, sum_rows. induction l as [|x l IH]; [done|]. cbn. destruct (p x); [|done]. cbn. rewrite <-IH.
  unfold llen. cbn. lia.
Qed.

Section tables.
Context {K A : Type} `{Countable K} (p : A -> bool) (f : A -> Z).
Lemma sum_rows_insert (m : gmap K A) k v : m !! k = None ->
  sum_rows p f (table_rows (<[k := v]> m)) = weight p f v + sum_rows p f (table_rows m).
Proof.
  intros Hk. unfold table_rows. rewrite <-sum_rows_cons. apply sum_rows_perm.
  by rewrite (map_to_list_insert m k v Hk).
Qed.
Lemma sum_rows_replace (m : gmap K A) k v0 v : m !! k = Some v0 ->
  sum_rows p f (table_rows (<[k := v]> m)) = sum_rows p f (table_rows m) - weight p f v0 + weight p f v.
Proof.
  intros Hk. rewrite <-(insert_delete_eq m), sum_rows_insert by apply lookup_delete_eq.
  rewrite <-(insert_delete_id m k v0 Hk) at 2. rewrite sum_rows_insert by apply lookup_delete_eq. lia.
Qed.
Lemma sum_rows_nonneg (m : gmap K A) : (forall v, 0 <= f v) -> 0 <= sum_rows p f (table_rows m).
Proof.
  intros Hf. induction (table_rows m) as [|x l IH]; [done|]. rewrite sum_rows_cons. unfold weight.
  specialize (Hf x). destruct (p x); lia.
Qed.
Lemma count_rows_insert (m : gmap K A) k v : m !! k = None ->
  count_rows p (table_rows (<[k := v]> m)) = weight p (fun _ => 1) v + count_rows p (table_rows m).
Proof.
  intros Hk. rewrite !count_sum. unfold table_rows. rewrite <-sum_rows_cons. apply sum_rows_perm.
  by rewrite (map_to_list_insert m k v Hk).
Qed.
Lemma table_rows_elem (m : gmap K A) v : v ∈ table_rows m <-> exists k, m !! k = Some v.
Proof.
  unfold table_rows. rewrite list_elem_of_fmap. split.
  - intros ([k w] & -> & Hw%elem_of_map_to_list). eauto.
  - intros [k Hk]. exists (k, v). split; [done|]. by apply elem_of_map_to_list.
Qed.
Lemma existsb_rows (m : gmap K A) : existsb p (table_rows m) = false <-> forall k v, m !! k = Some v -> p v = false.
Proof.
  split.
  - intros He k v Hk. apply (existsb_false _ _ _ He), table_rows_elem. eauto.
  - intros He. apply not_true_is_false. intros [v [Hin Hv]]%List.existsb_exists.
    apply list_elem_of_In, table_rows_elem in Hin as [k Hk]. by rewrite (He _ _ Hk) in Hv.
Qed.
End tables.

(** Rows that stay, and keep counting. *)
Lemma count_rows_le {K A} `{Countable K} (p q : A -> bool) (m : gmap K A) : forall m' : gmap K A,
  (forall k x, m !! k = Some x -> p x = true -> exists y, m' !! k = Some y /\ q y = true) ->
  count_rows p (table_rows m) <= count_rows q (table_rows m').
Proof.
  induction m as [|k x m Hk IH] using map_ind; intros m' Hm'.
  - rewrite (count_sum q). by apply sum_rows_nonneg.
  - rewrite count_rows_insert by done. unfold weight. destruct (p x) eqn:Ep.
    + destruct (Hm' k x) as (y & Hy & Eq); [apply lookup_insert_eq|done|].
      rewrite <-(insert_delete_id m' k y Hy), count_rows_insert by apply lookup_delete_eq. unfold weight. rewrite Eq.
      enough (count_rows p (table_rows m) <= count_rows q (table_rows (delete k m'))) by lia.
      apply IH. intros k' x' Hx' Ep'. assert (k' <> k) by congruence. rewrite lookup_delete_ne by done.
      apply (Hm' k' x'); [by rewrite lookup_insert_ne|done].
    + apply IH. intros k' x' Hx'. apply Hm'. rewrite lookup_insert_ne by congruence. done.
Qed.
