(* ===== verification/SqliteOperation.v ===== *)
(** * SqliteOperation: templates, participants and operations

    Models the template, participant and operation handlers of
    crates/navigator-store-sqlite/src/store.rs ([impl OperationStore for SqliteStore])
    with the helpers they call.  A constraint of the tables (migrations 0003, 0005 and
    0008) that a statement violates aborts the transaction with [Unavailable]. *)
From S2P Require Import Prelude Scalars Session Text Authority Operation Capacity Json StoreApi StoreWire.
From S2P Require Import Approval Template Message OperationApi SqliteDb SqliteSession SqliteMailbox.

Section store.
Context {TL : TimeLib} {TA : TimeArith} {SH : Sha256} {JS : Json} {JR : JsonRaw} {UT : UuidText}.
(** [SqliteStore::limit_profile]. *)
Variable limit_profile : LimitProfile.

(** ** Templates *)

Definition decode_template (template_id : TemplateId) (c : TemplateCols) : result StoreError TemplateRecord :=
  record ← corrupt (TemplateRecord_deserialize (tl_registration c));
  if neqb (tr_identity record) template_id || neqb (tr_compatibility record) (tl_compatibility c)
     || negb (is_ok (Template_try_from record))
  then Err Corrupt else Ok record.

Definition load_template_in (template_id : TemplateId) : Tx (option TemplateRecord) :=
  d ← get;
  match db_templates d !! template_id with
  | Some c => r ← lift (decode_template template_id c); mret (Some r)
  | None => mret None
  end.

(** [INSERT INTO templates]. *)
Definition insert_template (r : TemplateRecord) : Tx unit :=
  d ← get;
  if is_some (db_templates d !! tr_identity r) then abort Unavailable
  else put (set_templates d (<[tr_identity r := MkTemplateCols (tr_compatibility r) (TemplateRecord_serialize r)]>
    (db_templates d))).

Definition register_template (r : TemplateRecord) : Tx (Mutation TemplateRecord) :=
  _ ← lift (map_err (fun _ => Invalid) (Template_try_from r));
  loaded ← load_template_in (tr_identity r);
  match loaded with
  | Some existing => if eqb existing r then mret (Unchanged existing) else abort Invalid
  | None => _ ← insert_template r; mret (Applied r)
  end.

Fixpoint validate_template_set_before_open (templates : list TemplateRecord) : Tx unit :=
  match templates with
  | [] => mret tt
  | t :: templates =>
      _ ← lift (map_err (fun _ => Invalid) (Template_try_from t));
      loaded ← load_template_in (tr_identity t);
      if match loaded with Some existing => neqb existing t | None => false end then abort Invalid
      else validate_template_set_before_open templates
  end.

Fixpoint validate_registered_templates (templates : list TemplateRecord) : Tx unit :=
  match templates with
  | [] => mret tt
  | t :: templates =>
      loaded ← load_template_in (tr_identity t);
      if neqb loaded (Some t) then abort Corrupt else validate_registered_templates templates
  end.

Fixpoint insert_missing_templates (templates : list TemplateRecord) : Tx unit :=
  match templates with
  | [] => mret tt
  | t :: templates =>
      loaded ← load_template_in (tr_identity t);
      _ ← (if is_none loaded then insert_template t else mret tt);
      insert_missing_templates templates
  end.

Definition session_allows_template (session_id : SessionId) (r : TemplateRecord) : Tx bool :=
  d ← get;
  match db_sessions d !! session_id with
  | None => mret false
  | Some c =>
      if sc_manifest_complete c =? 0 then
        compatibility ← lift (if llen (sc_compatibility c) =? 32 then Ok (sc_compatibility c) else Err Corrupt);
        mret (eqb compatibility (Compat_as_bytes (tr_compatibility r)))
      else
        let stored := List.find (fun b => eqb (tb_template_id b) (tr_identity r))
                        (default [] (db_manifests d !! session_id)) in
        mret (match stored with Some b => eqb (tb_compatibility b) (tr_compatibility r) | None => false end)
  end.

(** *** Opening a session together with its templates *)

(** The open session of a consumer; the unique index on the public key of open sessions
    leaves at most one. *)
Definition open_session_of (d : Db) (key : ConsumerKey) : option SessionId :=
  fst <$> List.find (fun e : SessionId * SessionCols =>
    String.eqb (sc_public_consumer_key e.2) (as_str key) && (sc_closed e.2 =? 0)) (map_to_list (db_sessions d)).

Definition find_open_session (key : ConsumerKey) : Tx (option SessionSnapshot) :=
  d ← get;
  match open_session_of d key with
  | Some id => snapshot ← load_session id; mret (Some snapshot)
  | None => mret None
  end.

(** An operation whose state is not one of the three resolved ones. *)
Definition unresolved_operation (session_id : SessionId) (c : OperationCols) : bool :=
  eqb (oc_session_id c) session_id
  && negb (existsb (String.eqb (oc_state c)) ["succeeded"; "failed"; "cancelled"]%string).
Definition unresolved_launch (d : Db) (key : ConsumerKey) (c : LaunchCols) : bool :=
  match db_sessions d !! la_session_id c with
  | Some s => String.eqb (sc_public_consumer_key s) (as_str key) && negb (String.eqb (la_state c) "stopped")
  | None => false
  end.

Definition with_session_id (c : OpenSession) (session_id : SessionId) : OpenSession :=
  MkOpenSession (os_context c) session_id (os_consumer_key c) (os_compatibility c) (os_manifest c) (os_mode c).

(** Which session a request by consumer key is about. *)
Definition resolve_open (c : RegisterTemplatesAndOpenSession) : Tx OpenSession :=
  let requested := ro_open c in
  if eqb (os_mode requested) ModeExact then mret requested else
  d ← get;
  match open_session_of d (os_consumer_key requested) with
  | Some existing_id =>
      loaded ← load_session_in existing_id;
      row ← lift (ok_or Corrupt loaded);
      if eqb (os_mode requested) ModeReset
      then finish_failure existing_id c (InterruptedSession existing_id) else
      if neqb (ss_compatibility (sr_snapshot row)) (os_compatibility requested)
      then finish_failure existing_id c (CompatibilityConflict existing_id
             (ss_compatibility (sr_snapshot row)) (os_compatibility requested)) else
      let unfinished := existsb (unresolved_operation existing_id) (table_rows (db_operations d)) in
      if eqb (os_mode requested) ModeOpen && unfinished
      then finish_failure existing_id c (InterruptedSession existing_id)
      else mret (with_session_id requested existing_id)
  | None =>
      if eqb (os_mode requested) ModeReset
         && existsb (unresolved_launch d (os_consumer_key requested)) (table_rows (db_launches d))
      then abort Invalid else mret requested
  end.

(** The rest of [register_templates_and_open_session], for the session it is about. *)
Definition open_resolved (now : Timestamp) (c : RegisterTemplatesAndOpenSession) (open : OpenSession) :
    Tx (Mutation SessionSnapshot) :=
  _ ← validate_template_set_before_open (ro_templates c);
  existing ← load_session_in (os_session_id open);
  match existing with
  | Some row =>
      if neqb (ss_consumer_key (sr_snapshot row)) (os_consumer_key open)
         || neqb (ss_compatibility (sr_snapshot row)) (os_compatibility open)
      then abort Invalid else
      matches_ ← catch (validate_session_manifest_in open);
      if negb (is_ok matches_) then abort Invalid else
      _ ← insert_missing_templates (ro_templates c);
      _ ← record_bytes (os_session_id open) c SeUnchanged (LrSession (sr_snapshot row));
      mret (Unchanged (sr_snapshot row))
  | None =>
      _ ← insert_missing_templates (ro_templates c);
      snapshot ← lift (map_err (fun _ => Invalid) (SessionSnapshot_new (os_session_id open)
        (os_consumer_key open) (os_compatibility open) Open Revision_initial now now));
      _ ← insert_session_row open now;
      _ ← insert_session_manifest open;
      _ ← append_event (rc_request_id (os_context open)) (os_session_id open) Revision_initial "session.created" now;
      _ ← record_bytes (os_session_id open) c SeApplied (LrSession snapshot);
      mret (Applied snapshot)
  end.

Definition register_templates_and_open_session (now : Timestamp) (c : RegisterTemplatesAndOpenSession) :
    Tx (Mutation SessionSnapshot) :=
  replayed ← replay_json_session c;
  match replayed with
  | Some snapshot =>
      _ ← (if eqb (os_mode (ro_open c)) ModeExact then lift (validate_open_replay snapshot (ro_open c)) else mret tt);
      _ ← validate_registered_templates (ro_templates c);
      mret (Replayed snapshot)
  | None =>
      open ← resolve_open c;
      open_resolved now c open
  end.

(** ** Participants *)

Definition decode_participant (participant_id : ParticipantId) (c : ParticipantCols) :
    result StoreError ParticipantSnapshot :=
  depth ← to_u32 (pc_depth c);
  revision ← decode_revision (pc_revision c);
  if (depth =? 0) || (MAX_PARTICIPANT_DEPTH <? depth)
     || (is_none (pc_parent_participant_id c) && negb (depth =? 1))
     || (is_some (pc_parent_participant_id c) && (depth =? 1))
  then Err Corrupt
  else Ok (MkParticipant (pc_session_id c) participant_id (pc_parent_participant_id c) depth
             (pc_template_id c) (pc_template_compatibility c) revision).

Definition load_participant_in (participant_id : ParticipantId) : Tx (option ParticipantSnapshot) :=
  d ← get;
  match db_participants d !! participant_id with
  | Some c => p ← lift (decode_participant participant_id c); mret (Some p)
  | None => mret None
  end.

Definition participant_cancellation_requested (participant_id : ParticipantId) : Tx bool :=
  d ← get;
  match db_participants d !! participant_id with
  | None => mret false
  | Some c => if pc_cancellation_requested c =? 0 then mret false
              else if pc_cancellation_requested c =? 1 then mret true else abort Corrupt
  end.

Definition is_root_of (session_id : SessionId) (c : ParticipantCols) : bool :=
  eqb (pc_session_id c) session_id && is_none (pc_parent_participant_id c).
Definition is_child_of (session_id : SessionId) (parent : ParticipantId) (c : ParticipantCols) : bool :=
  eqb (pc_session_id c) session_id && eqb (pc_parent_participant_id c) (Some parent).

(** [INSERT INTO participants], with the primary key, the foreign keys, the unique root
    and the check on the depth. *)
Definition insert_participant (p : ParticipantSnapshot) : Tx unit :=
  d ← get;
  if is_some (db_participants d !! ps_participant_id p)
     || is_none (db_sessions d !! ps_session_id p) || is_none (db_templates d !! ps_template_id p)
     || match ps_parent_participant_id p with
        | Some parent => is_none (db_participants d !! parent)
        | None => existsb (is_root_of (ps_session_id p)) (table_rows (db_participants d))
        end
     || negb ((1 <=? ps_depth p) && (ps_depth p <=? 8))
  then abort Unavailable
  else put (set_participants d (<[ps_participant_id p :=
    MkParticipantCols (ps_session_id p) (ps_parent_participant_id p) (ps_template_id p)
      (ps_template_compatibility p) 1 (ps_depth p) 0]> (db_participants d))).

Definition participant_event_payload (p : ParticipantSnapshot) : bytes :=
  to_vec (VObject
    [("depth", json_u64 (ps_depth p)); ("lifecycle", VString "registered");
     ("parent_participant_id", json_option json_id (ps_parent_participant_id p));
     ("participant_id", json_id (ps_participant_id p));
     ("revision", json_u64 (Revision_get (ps_revision p))); ("schema_version", json_u64 1);
     ("session_id", json_id (ps_session_id p)); ("template_id", json_id (ps_template_id p))]%string).

Definition replay_json_participant {C} `{!MutableRequest C} (c : C) : Tx (option ParticipantSnapshot) :=
  stored ← replay_bytes c;
  match stored with
  | None => mret None
  | Some (LrParticipant p) => mret (Some p)
  | Some _ => abort Corrupt
  end.

(** A replayed participant must still be stored as it was answered. *)
Definition replayed_participant (p : ParticipantSnapshot) : Tx (Mutation ParticipantSnapshot) :=
  loaded ← load_participant_in (ps_participant_id p);
  current ← lift (ok_or Corrupt loaded);
  if neqb current p then abort Corrupt else mret (Replayed current).

(** What both handlers do with the participant they decided to create. *)
Definition commit_participant {C} `{!MutableRequest C} (c : C) (p : ParticipantSnapshot)
    (observed_at : Timestamp) : Tx (Mutation ParticipantSnapshot) :=
  _ ← insert_participant p;
  _ ← append_event_data (rc_request_id (mr_context c)) (ps_session_id p) (ps_revision p) "participant.created"
        (participant_event_payload p) observed_at;
  _ ← record_bytes (ps_session_id p) c SeApplied (LrParticipant p);
  mret (Applied p).

Definition create_root_participant (observed_at : Timestamp) (c : CreateRootParticipant) :
    Tx (Mutation ParticipantSnapshot) :=
  let fail {A} (e : StoreError) : Tx A := finish_failure (cr_session_id c) c e in
  replayed ← replay_json_participant c;
  match replayed with
  | Some p => replayed_participant p
  | None =>
  authorized ← authorize_launch (cr_session_id c) (cr_context c) (cr_epoch c) ActCreateRootParticipant observed_at;
  match authorized with
  | Err error => fail error
  | Ok _ =>
  loaded ← load_template_in (cr_template_id c);
  match loaded with
  | None => fail Invalid
  | Some template =>
  if neqb (tr_compatibility template) (cr_expected_compatibility c) then fail Invalid else
  allowed ← session_allows_template (cr_session_id c) template;
  if negb allowed then fail Invalid else
  existing ← load_participant_in (cr_participant_id c);
  match existing with
  | Some existing =>
      if neqb (ps_session_id existing) (cr_session_id c) || neqb (ps_template_id existing) (cr_template_id c)
      then fail Invalid
      else _ ← record_bytes (cr_session_id c) c SeUnchanged (LrParticipant existing);
           mret (Unchanged existing)
  | None =>
  d ← get;
  if existsb (is_root_of (cr_session_id c)) (table_rows (db_participants d)) then fail Invalid else
  _ ← ensure_derived_capacity limit_profile (cr_session_id c) Participants 1;
  commit_participant c (MkParticipant (cr_session_id c) (cr_participant_id c) None 1 (cr_template_id c)
    (tr_compatibility template) Revision_initial) observed_at
  end end end end.

Definition create_child_participant (observed_at : Timestamp) (c : CreateChildParticipant) :
    Tx (Mutation ParticipantSnapshot) :=
  let fail {A} (e : StoreError) : Tx A := finish_failure (cc_session_id c) c e in
  replayed ← replay_json_participant c;
  match replayed with
  | Some p => replayed_participant p
  | None =>
  authorized ← authorize_launch (cc_session_id c) (cc_context c) (cc_epoch c) ActCreateChildParticipant observed_at;
  match authorized with
  | Err error => fail error
  | Ok _ =>
  loaded_parent ← load_participant_in (cc_parent_participant_id c);
  match loaded_parent with
  | None => fail Invalid
  | Some parent =>
  cancelled ← participant_cancellation_requested (cc_parent_participant_id c);
  if (cancelled : bool) then fail Invalid else
  loaded ← load_template_in (cc_template_id c);
  match loaded with
  | None => fail Invalid
  | Some template =>
  if neqb (ps_session_id parent) (cc_session_id c)
     || neqb (tr_compatibility template) (cc_expected_compatibility c)
     || eqb (cc_participant_id c) (cc_parent_participant_id c)
     || (MAX_PARTICIPANT_DEPTH <=? ps_depth parent)
  then fail Invalid else
  allowed ← session_allows_template (cc_session_id c) template;
  if negb allowed then fail Invalid else
  existing ← load_participant_in (cc_participant_id c);
  if is_some existing then fail Invalid else
  d ← get;
  let rows := table_rows (db_participants d) in
  let direct := count_rows (is_child_of (cc_session_id c) (cc_parent_participant_id c)) rows in
  let total := count_rows (fun r => eqb (pc_session_id r) (cc_session_id c)) rows in
  if (MAX_DIRECT_CHILDREN <=? direct) || (MAX_SESSION_PARTICIPANTS <=? total) then fail Invalid else
  _ ← ensure_derived_capacity limit_profile (cc_session_id c) Participants 1;
  depth ← lift (if ps_depth parent + 1 <=? u32_max then Ok (ps_depth parent + 1) else Err Corrupt);
  commit_participant c (MkParticipant (cc_session_id c) (cc_participant_id c) (Some (cc_parent_participant_id c))
    depth (cc_template_id c) (tr_compatibility template) Revision_initial) observed_at
  end end end end.

(** ** Starting operations *)

(** [operations] rows of a participant that have no outcome yet. *)
Definition unfinished (participant_id : ParticipantId) (c : OperationCols) : bool :=
  eqb (oc_participant_id c) participant_id && is_none (oc_terminal_outcome c).

(** [INSERT INTO operations], with the primary key, the foreign keys and the unique
    unfinished operation of a participant. *)
Definition insert_operation (o : OperationSnapshot) (input_payload : bytes) (observed_at : Timestamp) : Tx unit :=
  d ← get;
  if is_some (db_operations d !! on_operation_id o)
     || is_none (db_sessions d !! on_session_id o) || is_none (db_participants d !! on_participant_id o)
     || existsb (unfinished (on_participant_id o)) (table_rows (db_operations d))
     || negb (llen (on_input_digest o) =? 32)
  then abort Unavailable
  else put (set_operations d (<[on_operation_id o :=
    MkOperationCols (on_session_id o) (on_participant_id o) (on_start_request_id o) (on_input_message_id o) None
      (on_input_digest o) input_payload "queued" None None 1 observed_at observed_at]> (db_operations d))).

(** [a.saturating_add(b)] on [u64]. *)
Definition saturating_add_u64 (a b : Z) : Z := Z.min (a + b) u64_max.
(** [sum.checked_add(..).ok_or(Corrupt)?] on an [i64]. *)
Definition checked_i64 (value : Z) : result StoreError Z := if value <=? i64_max then Ok value else Err Corrupt.

(** A panicking [expect] drops the transaction. *)
Definition expect {E A} (r : result E A) : Tx A := lift (map_err (fun _ => Unavailable) r).

Definition input_digest (input : bytes) : bytes :=
  sd_bytes (SemanticDigest_v1 (MkCapability "operation.input.v1") input).

(** The mailbox has room for one more ordinary message of [size] bytes. *)
Definition mailbox_full (counter : CounterCols) (size : Z) : result StoreError bool :=
  queued ← to_u64 (ct_queued_bytes counter);
  if MAX_MAILBOX_QUEUED_BYTES <? saturating_add_u64 queued size then Ok true else
  count ← to_u64 (ct_queued_messages counter);
  Ok (MAX_MAILBOX_QUEUED_MESSAGES <? saturating_add_u64 count 1).

(** The operation's input becomes the first message it is to receive. *)
Definition commit_operation_start (c : StartOperation) (o : OperationSnapshot) (observed_at : Timestamp) :
    Tx (Mutation OperationSnapshot) :=
  _ ← insert_operation o (TaskInput_as_bytes (so_input c)) observed_at;
  envelope ← expect (operation_input (on_operation_id o) (on_input_digest o));
  d ← get;
  let counter := mailbox_counter d (on_participant_id o) in
  size ← lift (if llen (envelope_as_bytes envelope) <=? i64_max then Ok (llen (envelope_as_bytes envelope))
               else Err MessageOversize);
  full ← lift (mailbox_full counter size);
  if (full : bool) then abort MailboxQuotaExceeded else
  sequence ← lift (to_u64 (ct_next_sequence counter));
  let m := MkMessage (on_session_id o) (on_input_message_id o) (on_participant_id o) (on_participant_id o) sequence
    PrOrdinary (MkCorrelation (Some (on_operation_id o)) None) envelope 0 MsQueued Revision_initial
    observed_at observed_at in
  _ ← insert_message m (ct_next_sequence counter);
  next ← lift (next_sequence (ct_next_sequence counter));
  queued_bytes ← lift (checked_i64 (ct_queued_bytes counter + size));
  queued_messages ← lift (checked_i64 (ct_queued_messages counter + 1));
  _ ← upsert_counter (on_participant_id o) (MkCounter next queued_bytes queued_messages);
  _ ← append_event_data (rc_request_id (so_context c)) (so_session_id c) (on_revision o) "operation.queued"
        (operation_event_payload o) observed_at;
  _ ← append_message_event (rc_request_id (so_context c)) m observed_at;
  _ ← record_bytes (so_session_id c) c SeApplied (LrOperation o);
  mret (Applied o).

Definition replay_json_operation {C} `{!MutableRequest C} (c : C) : Tx (option OperationSnapshot) :=
  stored ← replay_bytes c;
  match stored with
  | None => mret None
  | Some (LrOperation o) => mret (Some o)
  | Some _ => abort Corrupt
  end.

(** A replayed start answers with the operation as it is now, whose input message must
    still be the one the start sent. *)
Definition replayed_start (recorded : OperationSnapshot) : Tx (Mutation OperationSnapshot) :=
  loaded ← load_operation_in (on_operation_id recorded);
  o ← lift (ok_or Corrupt loaded);
  if neqb (on_session_id o) (on_session_id recorded) || neqb (on_participant_id o) (on_participant_id recorded)
     || neqb (on_start_request_id o) (on_start_request_id recorded)
     || neqb (on_input_message_id o) (on_input_message_id recorded)
  then abort Corrupt else
  loaded_message ← load_message_in (on_input_message_id o);
  m ← lift (ok_or Corrupt loaded_message);
  envelope ← expect (operation_input (on_operation_id o) (on_input_digest o));
  if neqb (ms_session_id m) (on_session_id o) || neqb (ms_source m) (on_participant_id o)
     || neqb (ms_destination m) (on_participant_id o)
     || neqb (mc_operation_id (ms_correlation m)) (Some (on_operation_id o))
     || is_some (mc_in_reply_to (ms_correlation m)) || neqb (ms_envelope m) envelope
  then abort Corrupt else mret (Replayed o).

Definition start_operation (observed : Timestamp) (c : StartOperation) : Tx (Mutation OperationSnapshot) :=
  let fail {A} (e : StoreError) : Tx A := finish_failure (so_session_id c) c e in
  replayed ← replay_json_operation c;
  match replayed with
  | Some recorded => replayed_start recorded
  | None =>
  authorized ← authorize_launch (so_session_id c) (so_context c) (so_epoch c) ActStartOperation observed;
  match authorized with
  | Err error => fail error
  | Ok _ =>
  observed_at ← session_time (so_session_id c);
  loaded ← load_participant_in (so_participant_id c);
  match loaded with
  | None => fail Invalid
  | Some participant =>
  if neqb (ps_session_id participant) (so_session_id c) then fail Invalid else
  cancelled ← participant_cancellation_requested (so_participant_id c);
  if (cancelled : bool) then fail Invalid else
  loaded_template ← load_template_in (ps_template_id participant);
  template ← lift (ok_or Corrupt loaded_template);
  if neqb (ps_template_compatibility participant) (tr_compatibility template) then abort Corrupt else
  registered ← lift (corrupt (Template_try_from template));
  if negb (is_ok (validate_input registered (TaskInput_as_bytes (so_input c)))) then fail Invalid else
  d ← get;
  existing ← (if existsb (unfinished (so_participant_id c)) (table_rows (db_operations d)) then mret true
              else o ← load_operation_in (so_operation_id c); mret (is_some o));
  if (existing : bool) then fail Invalid else
  _ ← ensure_derived_capacity limit_profile (so_session_id c) QueuedOperations 1;
  let digest := input_digest (TaskInput_as_bytes (so_input c)) in
  if is_some (db_messages d !! so_input_message_id c) then fail Invalid else
  envelope ← expect (operation_input (so_operation_id c) digest);
  let size := llen (envelope_as_bytes envelope) in
  _ ← ensure_derived_capacity limit_profile (so_session_id c) Messages 1;
  _ ← ensure_derived_capacity limit_profile (so_session_id c) MessageBytes size;
  full ← lift (mailbox_full (mailbox_counter d (so_participant_id c)) size);
  if (full : bool) then fail MailboxQuotaExceeded else
  commit_operation_start c (MkOperationSnapshot (so_session_id c) (so_operation_id c) (so_participant_id c)
    (rc_request_id (so_context c)) (so_input_message_id c) None digest OpQueued Revision_initial None
    observed_at observed_at) observed_at
  end end end.

(** ** Transitions of operations *)

(** Which message a report must name. *)
Definition valid_report_correlation (o : OperationSnapshot) (c : TransitionOperation) : Tx bool :=
  match to_action c with
  | Wait => mret (is_some (to_report_message_id c)
                  && neqb (to_report_message_id c) (Some (on_input_message_id o))
                  && is_none (on_waiting_on_message_id o))
  | Resume => mret (is_some (on_waiting_on_message_id o)
                    && eqb (to_report_message_id c) (on_waiting_on_message_id o))
  | ReportRunning | ReportSuccess | ReportFailure | ReportCancelled | ReportBlocked | ReportUncertain =>
      if is_none (to_report_message_id c)
         && match to_action c with ReportFailure | ReportUncertain => true | _ => false end
         && match on_state o with OpQueued | OpStarting => true | _ => false end
      then mret true
      else match to_report_message_id c with
           | None => mret false
           | Some message_id =>
               loaded ← load_message_in message_id;
               mret (match loaded with
                     | None => false
                     | Some m => eqb (ms_session_id m) (on_session_id o) && eqb (ms_destination m) (on_participant_id o)
                         && eqb (mc_operation_id (ms_correlation m)) (Some (on_operation_id o))
                         && match ms_state m with MsAccepted _ _ _ => true | _ => false end
                     end)
           end
  | BeginStart | RequestCancel | ObserveIdle => mret (is_none (to_report_message_id c))
  end.

(** [UPDATE operations SET .. WHERE operation_id = ? AND revision = ?], with the check
    of the table, and the number of rows changed. *)
Definition update_operation_row (o : OperationSnapshot) (revision expected : Z) : Tx Z :=
  d ← get;
  match db_operations d !! on_operation_id o with
  | Some c =>
      if oc_revision c =? expected
      then if negb (Bool.eqb (is_none (on_terminal_outcome o)) (negb (is_terminal (on_state o))))
           then abort Unavailable
           else _ ← put (set_operations d (<[on_operation_id o := MkOperationCols (oc_session_id c)
                  (oc_participant_id c) (oc_start_request_id c) (oc_input_message_id c) (on_waiting_on_message_id o)
                  (oc_input_digest c) (oc_input_payload c) (operation_state_name (on_state o))
                  (terminal_outcome_name <$> on_terminal_outcome o) (on_terminal_outcome o) revision
                  (oc_created_at c) (on_updated_at o)]> (db_operations d)));
                mret 1
      else mret 0
  | None => mret 0
  end.

(** The big-endian value of a [Uuid]'s bytes. *)
Definition uuid_of_bytes (b : bytes) : Uuid := fold_left (fun a x => a * 256 + x) b 0.
Definition derived_store_message_id (request_id : RequestId) (domain : bytes) : result StoreError MessageId :=
  let raw := take 16 (sd_bytes (SemanticDigest_v1 (MkCapability "message.identity.v1")
    (domain ++ be_bytes 16 (as_uuid request_id)))) in
  let raw := alter (fun b => Z.lor (Z.land b 15) 64) 6%nat raw in
  let raw := alter (fun b => Z.lor (Z.land b 63) 128) 8%nat raw in
  corrupt (from_uuid (uuid_of_bytes raw)).

Definition append_authority_event (session_id : SessionId) {C} `{!MutableRequest C} (c : C) (event_type : string)
    (participant_id : ParticipantId) (observed_at : Timestamp) : Tx unit :=
  append_event_data (rc_request_id (mr_context c)) session_id Revision_initial event_type
    (to_vec (VObject [("participant_id", json_id participant_id); ("schema", json_u64 1)]%string)) observed_at.

Definition append_operation_event (c : TransitionOperation) (o : OperationSnapshot) (observed_at : Timestamp) : Tx unit :=
  append_event_data (rc_request_id (to_context c)) (to_session_id c) (on_revision o)
    (operation_event_name (on_state o)) (operation_event_payload o) observed_at.

(** [.map_or_else(..)?] on the answer of [insert_hierarchy_message]: these errors say
    only that the message was not delivered, and arise before anything is written. *)
Definition delivered {A} (m : Tx A) : Tx bool :=
  r ← catch m;
  match r with
  | Ok _ => mret true
  | Err (Invalid | MailboxQuotaExceeded | MessageOversize) => mret false
  | Err other => abort other
  end.

(** The unfinished operation of the parent, if there is one. *)
Definition unfinished_operation (d : Db) (session_id : SessionId) (participant_id : ParticipantId) : option OperationId :=
  fst <$> List.find (fun e : OperationId * OperationCols =>
    eqb (oc_session_id e.2) session_id && unfinished participant_id e.2) (map_to_list (db_operations d)).

(** An operation that ended tells its parent, if the policy of its participant lets it. *)
Definition tell_parent (c : TransitionOperation) (o : OperationSnapshot) (outcome : OperationTerminalOutcome)
    (parent_id : ParticipantId) : Tx unit :=
  message_id ← lift (derived_store_message_id (rc_request_id (to_context c))
                       (bytes_of_string "navigator.operation.outcome.v1"));
  d ← get;
  let policy := db_policies d !! on_participant_id o in
  let parent_operation := unfinished_operation d (to_session_id c) parent_id in
  now ← session_time (to_session_id c);
  let requested := MkScoped (MkCapability "message.outcome") (ScopeOperation (on_operation_id o)) in
  let authorized := is_some parent_operation && match policy with
    | Some policy => is_ok (authorize_effect (policy_ceilings policy) (on_participant_id o) (to_session_id c)
                              requested None now)
    | None => false end in
  told ← (if authorized
          then envelope ← expect (operation_outcome (on_operation_id o) (public_terminal_outcome outcome)
                                    (terminal_public_digest outcome));
               delivered (insert_hierarchy_message (to_session_id c) (rc_request_id (to_context c)) message_id
                 (on_participant_id o) parent_id (MkCorrelation parent_operation None) envelope (on_updated_at o))
          else mret false);
  append_authority_event (to_session_id c) c (if (told : bool) then "authority.allowed" else "authority.denied")
    (on_participant_id o) (on_updated_at o).

(** What ends with an operation: the messages about it, and the wait of its parent. *)
Definition finish_operation (c : TransitionOperation) (o : OperationSnapshot) (observed_at : Timestamp) : Tx unit :=
  match on_terminal_outcome o with
  | None => mret tt
  | Some outcome =>
      _ ← retire_correlated_messages (rc_request_id (to_context c)) o observed_at;
      loaded ← load_participant_in (on_participant_id o);
      participant ← lift (ok_or Corrupt loaded);
      match ps_parent_participant_id participant with
      | Some parent_id => tell_parent c o outcome parent_id
      | None => mret tt
      end
  end.

(** The operation after a legal transition. *)
Definition moved_operation (observed_at : Timestamp) (c : TransitionOperation) (o : OperationSnapshot)
    (next : OperationState) (revision : Revision) : OperationSnapshot :=
  let waiting := if eqb (to_action c) Wait then to_report_message_id c
                 else if neqb next OpWaiting then None else on_waiting_on_message_id o in
  MkOperationSnapshot (on_session_id o) (on_operation_id o) (on_participant_id o) (on_start_request_id o)
    (on_input_message_id o) waiting (on_input_digest o) next revision (to_terminal_outcome c) (on_created_at o)
    (Timestamp_max observed_at (on_updated_at o)).

(** Writing it, with everything that ends with it. *)
Definition commit_operation_move (observed_at : Timestamp) (c : TransitionOperation) (o : OperationSnapshot) :
    Tx (Mutation OperationSnapshot) :=
  revision ← lift (to_i64 (Revision_get (on_revision o)));
  expected ← lift (to_i64 (Revision_get (to_expected_revision c)));
  changed ← update_operation_row o revision expected;
  _ ← one_row changed;
  _ ← finish_operation c o observed_at;
  _ ← append_operation_event c o observed_at;
  _ ← record_bytes (to_session_id c) c SeApplied (LrOperation o);
  mret (Applied o).

Definition transition_operation (observed_at : Timestamp) (c : TransitionOperation) :
    Tx (Mutation OperationSnapshot) :=
  let fail {A} (e : StoreError) : Tx A := finish_failure (to_session_id c) c e in
  replayed ← replay_json_operation c;
  match replayed with
  | Some o => mret (Replayed o)
  | None =>
  authorized ← authorize_launch (to_session_id c) (to_context c) (to_epoch c) ActTransitionOperation observed_at;
  match authorized with
  | Err error => fail error
  | Ok _ =>
  loaded ← load_operation_in (to_operation_id c);
  match loaded with
  | None => fail Invalid
  | Some o =>
  valid ← (if neqb (on_session_id o) (to_session_id c) || neqb (on_revision o) (to_expected_revision c)
           then mret false else valid_report_correlation o c);
  if negb valid then fail Invalid else
  match next_operation_state (on_state o) (to_action c) with
  | None => fail Invalid
  | Some next =>
  if negb (valid_terminal_outcome next (to_terminal_outcome c)) then fail Invalid else
  _ ← (if eqb (on_state o) OpQueued && negb (is_terminal next) && neqb next OpQueued
       then ensure_derived_capacity limit_profile (to_session_id c) ActiveOperations 1 else mret tt);
  _ ← ensure_derived_capacity limit_profile (to_session_id c) RetainedEvents 1;
  revision ← lift (next_revision (on_revision o));
  commit_operation_move observed_at c (moved_operation observed_at c o next revision)
  end end end end.

(** ** Reading *)

Definition load_participant (participant_id : ParticipantId) : Tx ParticipantSnapshot :=
  loaded ← load_participant_in participant_id;
  value ← lift (ok_or (ParticipantNotFound participant_id) loaded);
  loaded ← load_template_in (ps_template_id value);
  template ← lift (ok_or Corrupt loaded);
  if neqb (ps_template_compatibility value) (tr_compatibility template) then abort Corrupt else mret value.

Definition load_root_participant (session_id : SessionId) : Tx ParticipantSnapshot :=
  d ← get;
  root ← lift (ok_or (RootParticipantNotFound session_id)
    (List.find (fun e : ParticipantId * ParticipantCols => is_root_of session_id e.2) (map_to_list (db_participants d))));
  load_participant root.1.

Fixpoint load_all_participants (ids : list ParticipantId) : Tx (list ParticipantSnapshot) :=
  match ids with
  | [] => mret []
  | id :: ids => p ← load_participant id; ps ← load_all_participants ids; mret (p :: ps)
  end.
(** Identities of equal length print in the order of their values. *)
Definition load_direct_children (parent_id : ParticipantId) : Tx (list ParticipantSnapshot) :=
  d ← get;
  load_all_participants (merge_sort Id_le (filter (fun e : ParticipantId * ParticipantCols =>
    pc_parent_participant_id e.2 = Some parent_id) (map_to_list (db_participants d))).*1).

Definition load_template (template_id : TemplateId) : Tx TemplateRecord :=
  loaded ← load_template_in template_id;
  lift (ok_or (TemplateNotFound template_id) loaded).

Definition load_operation (operation_id : OperationId) : Tx OperationSnapshot :=
  loaded ← load_operation_in operation_id;
  lift (ok_or (OperationNotFound operation_id) loaded).

(** The stored input of an operation, checked against the template and the digest. *)
Definition load_operation_input (operation_id : OperationId) : Tx (BoundedBytes MAX_OPERATION_INPUT_BYTES) :=
  loaded ← load_operation_in operation_id;
  o ← lift (ok_or (OperationNotFound operation_id) loaded);
  loaded_participant ← load_participant_in (on_participant_id o);
  participant ← lift (ok_or Corrupt loaded_participant);
  loaded_template ← load_template_in (ps_template_id participant);
  registered ← lift (ok_or Corrupt loaded_template);
  if neqb (ps_template_compatibility participant) (tr_compatibility registered) then abort Corrupt else
  template ← lift (corrupt (Template_try_from registered));
  d ← get;
  row ← lift (ok_or (OperationNotFound operation_id) (db_operations d !! operation_id));
  let payload := oc_input_payload row in
  canonical ← lift (corrupt (validate_input template payload));
  if neqb (TaskInput_as_bytes canonical) payload
     || neqb (input_digest (TaskInput_as_bytes canonical)) (on_input_digest o)
  then abort Corrupt else lift (corrupt (BoundedBytes_new payload)).
End store.
