(* ===== verification/SqliteLaunch.v ===== *)
(** * SqliteLaunch: launch attempts of driver instances

    Models [impl InstanceStore for SqliteStore] of
    crates/navigator-store-sqlite/src/store.rs: preparing, attaching and moving a launch
    attempt, and the watchdog's check of the launch authority, which keeps its own clock
    floors in memory. *)
From S2P Require Import Prelude Scalars Session Authority Operation RecoveryTable Capacity Json StoreApi StoreWire.
From S2P Require Import Approval Template Message OperationApi SqliteDb SqliteSession SqliteMailbox SqliteOperation.

(** ** Rows *)

Definition parse_launch_state (value : string) : result StoreError LaunchState :=
  if String.eqb value "prepared" then Ok LPrepared
  else if String.eqb value "attached" then Ok LAttached
  else if String.eqb value "ready" then Ok LReady
  else if String.eqb value "stopping" then Ok LStopping
  else if String.eqb value "stopped" then Ok LStopped
  else if String.eqb value "cleanup_required" then Ok LCleanupRequired
  else Err Corrupt.

Definition valid_launch_transition (from to : LaunchState) : bool :=
  match from, to with
  | LAttached, LReady => true
  | (LAttached | LReady), LStopping => true
  | (LPrepared | LAttached | LReady | LStopping | LCleanupRequired), LCleanupRequired => true
  | (LStopping | LCleanupRequired), LStopped => true
  | _, _ => false
  end.

Definition digest_column (b : bytes) : result StoreError bytes := if llen b =? 32 then Ok b else Err Corrupt.

Definition decode_launch (attempt_id : LaunchAttemptId) (c : LaunchCols) : result StoreError LaunchSnapshot :=
  epoch ← (match la_ownership_epoch c with
           | Some value => e ← decode_epoch value; Ok (Some e)
           | None => Ok None end);
  configuration ← digest_column (la_driver_configuration_digest c);
  state ← parse_launch_state (la_state c);
  revision ← decode_revision (la_revision c);
  credential ← digest_column (la_credential_digest c);
  reason ← (match la_cleanup_reason c with
            | Some text => r ← corrupt (BoundedText_new text); Ok (Some r)
            | None => Ok None end);
  Ok (MkLaunch (la_session_id c) epoch (la_participant_id c) (la_driver_id c) configuration attempt_id
        (la_instance_id c) state revision credential (la_evidence c) reason).

Definition load_launch_in (attempt_id : LaunchAttemptId) : Tx (option LaunchSnapshot) :=
  d ← get;
  match db_launches d !! attempt_id with
  | Some c => l ← lift (decode_launch attempt_id c); mret (Some l)
  | None => mret None
  end.

(** [INSERT INTO launch_attempts]: the key, the session, the instance of no other
    attempt and the lengths of the digests. *)
Definition insert_launch (l : LaunchSnapshot) : Tx unit :=
  epoch ← lift (match lu_ownership_epoch l with
                | Some e => v ← to_i64 (FencingEpoch_get e); Ok (Some v)
                | None => Ok None end);
  revision ← lift (to_i64 (Revision_get (lu_revision l)));
  d ← get;
  if is_some (db_launches d !! lu_attempt_id l) || is_none (db_sessions d !! lu_session_id l)
     || (is_some (lu_instance_id l)
         && existsb (fun c => eqb (la_instance_id c) (lu_instance_id l)) (table_rows (db_launches d)))
     || negb (llen (lu_credential_digest l) =? 32) || negb (llen (lu_driver_configuration_digest l) =? 32)
  then abort Unavailable
  else put (set_launches d (<[lu_attempt_id l := MkLaunchCols (lu_session_id l) epoch (lu_participant_id l)
    (lu_driver_id l) (lu_driver_configuration_digest l) (lu_instance_id l) (launch_state_name (lu_state l)) revision
    (lu_credential_digest l) (lu_evidence l) (as_str <$> lu_cleanup_reason l)]> (db_launches d))).

(** Another attempt that has the instance. *)
Definition instance_taken (d : Db) (attempt_id : LaunchAttemptId) (instance : option InstanceId) : bool :=
  is_some instance && existsb (fun e : LaunchAttemptId * LaunchCols =>
    eqb (la_instance_id e.2) instance && neqb e.1 attempt_id) (map_to_list (db_launches d)).

(** [UPDATE launch_attempts SET .. WHERE attempt_id = ? AND revision = ?]. *)
Definition update_launch (l : LaunchSnapshot) (expected_revision : Revision) : Tx unit :=
  revision ← lift (to_i64 (Revision_get (lu_revision l)));
  expected ← lift (to_i64 (Revision_get expected_revision));
  d ← get;
  match db_launches d !! lu_attempt_id l with
  | Some c =>
      if negb (la_revision c =? expected) then abort Invalid else
      if instance_taken d (lu_attempt_id l) (lu_instance_id l) then abort Unavailable else
      put (set_launches d (<[lu_attempt_id l := MkLaunchCols (la_session_id c) (la_ownership_epoch c)
        (la_participant_id c) (la_driver_id c) (la_driver_configuration_digest c) (lu_instance_id l)
        (launch_state_name (lu_state l)) revision (la_credential_digest c) (lu_evidence l)
        (as_str <$> lu_cleanup_reason l)]> (db_launches d)))
  | None => abort Invalid
  end.

(** ** Handlers *)

Section store.
Context {TL : TimeLib} {TA : TimeArith} {SH : Sha256} {JS : Json} {JR : JsonRaw} {UT : UuidText}.

Definition replay_json_launch {C} `{!MutableRequest C} (c : C) : Tx (option LaunchSnapshot) :=
  stored ← replay_bytes c;
  match stored with
  | None => mret None
  | Some (LrLaunch l) => mret (Some l)
  | Some _ => abort Corrupt
  end.

Definition prepare_launch (observed_at : Timestamp) (c : PrepareLaunch) : Tx (Mutation LaunchSnapshot) :=
  let fail {A} (e : StoreError) : Tx A := finish_failure (pl_session_id c) c e in
  replayed ← replay_json_launch c;
  match replayed with
  | Some l =>
      cancelled ← participant_cancellation_requested (pl_participant_id c);
      if (cancelled : bool) then abort Invalid else mret (Replayed l)
  | None =>
  authorized ← authorize_launch (pl_session_id c) (pl_context c) (pl_epoch c) ActPrepareLaunch observed_at;
  match authorized with
  | Err error => fail error
  | Ok _ =>
  cancelled ← participant_cancellation_requested (pl_participant_id c);
  if (cancelled : bool) then fail Invalid else
  existing ← load_launch_in (pl_attempt_id c);
  match existing with
  | Some existing =>
      if neqb (lu_session_id existing) (pl_session_id c) || neqb (lu_participant_id existing) (pl_participant_id c)
         || neqb (lu_driver_id existing) (pl_driver_id c)
         || neqb (lu_driver_configuration_digest existing) (pl_driver_configuration_digest c)
         || neqb (lu_credential_digest existing) (pl_credential_digest c)
      then fail Invalid
      else _ ← record_bytes (pl_session_id c) c SeUnchanged (LrLaunch existing); mret (Unchanged existing)
  | None =>
      let l := MkLaunch (pl_session_id c) (Some (pl_epoch c)) (pl_participant_id c) (pl_driver_id c)
        (pl_driver_configuration_digest c) (pl_attempt_id c) None LPrepared Revision_initial
        (pl_credential_digest c) None None in
      _ ← insert_launch l;
      _ ← record_bytes (pl_session_id c) c SeApplied (LrLaunch l);
      mret (Applied l)
  end end end.

Definition mutate_launch {C} `{!MutableRequest C} (observed_at : Timestamp) (session_id : SessionId)
    (context : RequestContext) (epoch : FencingEpoch) (attempt_id : LaunchAttemptId) (expected_revision : Revision)
    (c : C) (apply_ : LaunchSnapshot -> result StoreError LaunchSnapshot) : Tx (Mutation LaunchSnapshot) :=
  let fail {A} (e : StoreError) : Tx A := finish_failure session_id c e in
  replayed ← replay_json_launch c;
  match replayed with
  | Some l => mret (Replayed l)
  | None =>
  authorized ← authorize_launch session_id context epoch (mr_action c) observed_at;
  match authorized with
  | Err error => fail error
  | Ok _ =>
  loaded ← load_launch_in attempt_id;
  match loaded with
  | None => fail Invalid
  | Some l =>
  if neqb (lu_session_id l) session_id then fail Invalid else
  if neqb (lu_revision l) expected_revision then fail Invalid else
  match apply_ l with
  | Err error => fail error
  | Ok l =>
  d ← get;
  if instance_taken d attempt_id (lu_instance_id l) then fail Invalid else
  revision ← lift (next_revision (lu_revision l));
  let l := MkLaunch (lu_session_id l) (lu_ownership_epoch l) (lu_participant_id l) (lu_driver_id l)
    (lu_driver_configuration_digest l) (lu_attempt_id l) (lu_instance_id l) (lu_state l) revision
    (lu_credential_digest l) (lu_evidence l) (lu_cleanup_reason l) in
  _ ← update_launch l expected_revision;
  _ ← record_bytes session_id c SeApplied (LrLaunch l);
  mret (Applied l)
  end end end end.

(** A launch with a new instance, evidence, state and cleanup reason. *)
Definition with_launch (l : LaunchSnapshot) (instance : option InstanceId) (evidence : option ProcessEvidence)
    (state : LaunchState) (reason : option (BoundedText 1024)) : LaunchSnapshot :=
  MkLaunch (lu_session_id l) (lu_ownership_epoch l) (lu_participant_id l) (lu_driver_id l)
    (lu_driver_configuration_digest l) (lu_attempt_id l) instance state (lu_revision l)
    (lu_credential_digest l) evidence reason.

Definition apply_attach (c : AttachLaunch) (l : LaunchSnapshot) : result StoreError LaunchSnapshot :=
  let e := al_evidence c in
  if neqb (lu_state l) LPrepared || is_some (lu_instance_id l) || (pe_process_id e =? 0)
     || (pe_process_group_id e =? 0) || (pe_parent_process_id e =? 0) || (pe_creation_marker e =? 0)
     || eqb (pe_executable_identity e) (repeat 0 32)
  then Err Invalid
  else Ok (with_launch l (Some (al_instance_id c)) (Some e) LAttached (lu_cleanup_reason l)).
Definition attach_launch (observed_at : Timestamp) (c : AttachLaunch) : Tx (Mutation LaunchSnapshot) :=
  mutate_launch observed_at (al_session_id c) (al_context c) (al_epoch c) (al_attempt_id c)
    (al_expected_revision c) c (apply_attach c).

Definition apply_transition (c : TransitionLaunch) (l : LaunchSnapshot) : result StoreError LaunchSnapshot :=
  if negb (valid_launch_transition (lu_state l) (tn_target c))
     || negb (Bool.eqb (eqb (tn_target c) LCleanupRequired) (is_some (tn_cleanup_reason c)))
  then Err Invalid
  else Ok (with_launch l (lu_instance_id l) (lu_evidence l) (tn_target c) (tn_cleanup_reason c)).
Definition transition_launch (observed_at : Timestamp) (c : TransitionLaunch) : Tx (Mutation LaunchSnapshot) :=
  mutate_launch observed_at (tn_session_id c) (tn_context c) (tn_epoch c) (tn_attempt_id c)
    (tn_expected_revision c) c (apply_transition c).

Definition load_launch (attempt_id : LaunchAttemptId) : Tx LaunchSnapshot :=
  loaded ← load_launch_in attempt_id;
  lift (ok_or (LaunchNotFound attempt_id) loaded).
Definition session_has_launches (d : Db) (session_id : SessionId) : bool :=
  existsb (fun c => eqb (la_session_id c) session_id) (table_rows (db_launches d)).
Definition session_has_unresolved_launches (d : Db) (session_id : SessionId) : bool :=
  existsb (fun c => eqb (la_session_id c) session_id && negb (String.eqb (la_state c) "stopped"))
    (table_rows (db_launches d)).

(** ** The watchdog *)

(** [SqliteStore::authority_time_floors]. *)
Abbreviation Floors := (gmap SessionId Timestamp).

(** The time a check is made at, no earlier than the time of any check before it. *)
Definition effective_time (floors : Floors) (session_id : SessionId) (observed_at : Timestamp) : Timestamp :=
  match floors !! session_id with Some floor => Timestamp_max floor observed_at | None => observed_at end.

(** Sealing an expiry that was observed: the stored clock floor advances to it. *)
Definition seal_expiry (session_id : SessionId) (host_id : HostId) (epoch : FencingEpoch) (effective : Timestamp) :
    Tx (result StoreError unit) :=
  current ← require_open_session session_id ActPrepareLaunch;
  sealed ← advance_time_floor session_id (sr_time_floor current) effective;
  mret (require_owner current host_id epoch sealed).

(** The check reads one committed state [read] of the database; sealing runs against
    the state [d] at that later moment. *)
Definition validate_launch_authority (now : Timestamp) (session_id : SessionId) (host_id : HostId)
    (epoch : FencingEpoch) (floors : Floors) (read d : Db) : Floors * Db * result StoreError unit :=
  match (run (load_session_in session_id) read).2 with
  | Err e => (floors, d, Err e)
  | Ok None => (floors, d, Err (SessionNotFound session_id))
  | Ok (Some row) =>
      if bool_decide (ss_status (sr_snapshot row) = Closed) then (floors, d, Err (SessionClosed session_id)) else
      let effective := effective_time floors session_id (Timestamp_max (sr_time_floor row) now) in
      let floors := <[session_id := effective]> floors in
      match require_owner row host_id epoch effective with
      | Err (OwnershipExpired _ _) =>
          let sealed := run (seal_expiry session_id host_id epoch effective) d in
          (floors, sealed.1, match sealed.2 with Ok r => r | Err e => Err e end)
      | r => (floors, d, r)
      end
  end.
End store.
