(* ===== verification/SqliteEffect.v ===== *)
(** * SqliteEffect: the effect journal

    Models [impl EffectJournalStore for SqliteStore] of
    crates/navigator-store-sqlite/src/store.rs up to the authorized resolution, which
    also writes tool invocations (SqliteResolve.v): reserving an effect, starting and
    resolving it, taking over one whose lease expired, and the reads.  A journal handler
    that fails records nothing: every early return is an [abort]. *)
From S2P Require Import Prelude Scalars Session Authority Operation RecoveryTable Capacity Json StoreApi StoreWire.
From S2P Require Import Approval Template Message OperationApi ToolApi EffectApi SqliteDb SqliteSession SqliteMailbox.
From S2P Require Import SqliteOperation.

(** ** Rows *)

Definition parse_effect_class (v : string) : result StoreError EffectClass :=
  if String.eqb v "read_only" then Ok ReadOnly
  else if String.eqb v "idempotent" then Ok Idempotent
  else if String.eqb v "transactional" then Ok Transactional
  else if String.eqb v "non_idempotent" then Ok NonIdempotent
  else if String.eqb v "unknown" then Ok UnknownClass
  else Err Corrupt.
Definition effect_phase_name (v : EffectJournalPhase) : string :=
  match v with
  | JReserved => "reserved" | JStarted => "started" | JUncertain => "uncertain"
  | JCompleted => "completed" | JFailed => "failed" | JRetryAuthorized => "retry_authorized"
  end.
Definition parse_effect_phase (v : string) : result StoreError EffectJournalPhase :=
  if String.eqb v "reserved" then Ok JReserved
  else if String.eqb v "started" then Ok JStarted
  else if String.eqb v "uncertain" then Ok JUncertain
  else if String.eqb v "completed" then Ok JCompleted
  else if String.eqb v "failed" then Ok JFailed
  else if String.eqb v "retry_authorized" then Ok JRetryAuthorized
  else Err Corrupt.

(** The phases that have a terminal, and which. *)
Definition phase_matches_terminal (phase : EffectJournalPhase) (terminal : option EffectTerminal) : bool :=
  match phase, terminal with
  | JCompleted, Some (EtCompleted _) => true
  | JFailed, Some (EtFailed _) => true
  | (JReserved | JStarted | JUncertain | JRetryAuthorized), None => true
  | _, _ => false
  end.

Section store.
Context {TL : TimeLib} {TA : TimeArith} {SH : Sha256} {JS : Json} {UT : UuidText}.
(** [SqliteStore::max_lease_millis]. *)
Variable max_lease_millis : Z.

Definition decode_effect (request_id : RequestId) (c : EffectCols) : result StoreError EffectJournalEntry :=
  action ← corrupt (Capability_new (ef_action c));
  digest ← (if llen (ef_semantic_digest c) =? 32 then Ok (MkSemanticDigest (ef_semantic_digest c)) else Err Corrupt);
  class ← parse_effect_class (ef_effect_class c);
  phase ← parse_effect_phase (ef_phase c);
  epoch ← decode_epoch (ef_owner_epoch c);
  expires ← decode_ts (ef_lease_expires_at c);
  revision ← decode_revision (ef_revision c);
  if negb (phase_matches_terminal phase (ef_terminal c)) then Err Corrupt else
  if negb (contract_is_valid (ef_resolution_contract c)) then Err Corrupt else
  Ok (MkEntry request_id (ef_session_id c) (ef_participant_id c) (ef_operation_id c) (ef_caller_host_id c) action
        digest class (ef_resolution_contract c) phase (ef_owner_host_id c) epoch expires (ef_terminal c) revision).

Definition load_effect_in (id : RequestId) : Tx (option EffectJournalEntry) :=
  d ← get;
  match db_effects d !! id with
  | None => mret None
  | Some c =>
      value ← lift (decode_effect id c);
      loaded_participant ← load_participant_in (ee_participant_id value);
      participant ← lift (ok_or Corrupt loaded_participant);
      loaded_operation ← load_operation_in (ee_operation_id value);
      operation ← lift (ok_or Corrupt loaded_operation);
      if neqb (ps_session_id participant) (ee_session_id value)
         || neqb (on_session_id operation) (ee_session_id value)
         || neqb (on_participant_id operation) (ee_participant_id value)
      then abort Corrupt else mret (Some value)
  end.

(** The columns an entry is written as. *)
Definition effect_cols (e : EffectJournalEntry) (epoch revision : Z) : EffectCols :=
  MkEffectCols (ee_session_id e) (ee_participant_id e) (ee_operation_id e) (ee_caller e)
    (Capability_as_str (ee_action e)) (sd_bytes (ee_semantic_digest e)) (effect_class_name (ee_effect_class e))
    (ee_resolution_contract e) (effect_phase_name (ee_phase e)) (ee_owner_host e) epoch (ee_lease_expires_at e)
    (ee_terminal e) revision.

(** [INSERT INTO effect_journal]: the primary key, the foreign keys and the check on the
    digest; the other checks of the table hold of every entry. *)
Definition insert_effect (e : EffectJournalEntry) : Tx unit :=
  epoch ← lift (to_i64 (FencingEpoch_get (ee_owner_epoch e)));
  revision ← lift (to_i64 (Revision_get (ee_revision e)));
  d ← get;
  if is_some (db_effects d !! ee_request_id e)
     || is_none (db_sessions d !! ee_session_id e)
     || is_none (db_participants d !! ee_participant_id e)
     || is_none (db_operations d !! ee_operation_id e)
     || negb (llen (sd_bytes (ee_semantic_digest e)) =? 32)
  then abort Unavailable
  else put (set_effects d (<[ee_request_id e := effect_cols e epoch revision]> (db_effects d))).

(** [UPDATE effect_journal SET .. WHERE request_id=? AND revision=?]. *)
Definition updated_effect (c : EffectCols) (e : EffectJournalEntry) (epoch revision : Z) : EffectCols :=
  MkEffectCols (ef_session_id c) (ef_participant_id c) (ef_operation_id c) (ef_caller_host_id c) (ef_action c)
    (ef_semantic_digest c) (ef_effect_class c) (ef_resolution_contract c) (effect_phase_name (ee_phase e))
    (ee_owner_host e) epoch (ee_lease_expires_at e) (ee_terminal e) revision.
Definition update_effect (e : EffectJournalEntry) : Tx unit :=
  epoch ← lift (to_i64 (FencingEpoch_get (ee_owner_epoch e)));
  revision ← lift (to_i64 (Revision_get (ee_revision e)));
  previous ← lift (to_i64 (Revision_get (ee_revision e) - 1));
  d ← get;
  match db_effects d !! ee_request_id e with
  | Some c => if ef_revision c =? previous
              then put (set_effects d (<[ee_request_id e := updated_effect c e epoch revision]> (db_effects d)))
              else abort Invalid
  | None => abort Invalid
  end.

(** ** Request identities *)

Definition reject_global_request_collision (request_id : RequestId) : Tx unit :=
  d ← get;
  if is_some (db_ledger d !! request_id) || bool_decide (request_id ∈ db_approval_requests d)
  then abort (RequestConflict request_id) else mret tt.
Definition reject_recovery_request_collision (request_id : RequestId) : Tx unit :=
  d ← get;
  if bool_decide (request_id ∈ db_recovery_requests d) then abort (RequestConflict request_id) else mret tt.
Definition reject_effect_request_collision (request_id : RequestId) : Tx unit :=
  d ← get;
  if is_some (db_effects d !! request_id) || is_some (db_effect_mutations d !! request_id)
  then abort (RequestConflict request_id) else mret tt.
Definition reject_effect_identity_collision (mutation_request_id effect_request_id : RequestId) : Tx unit :=
  if eqb mutation_request_id effect_request_id then abort (RequestConflict mutation_request_id) else
  d ← get;
  if is_some (db_effects d !! mutation_request_id) then abort (RequestConflict mutation_request_id) else mret tt.

(** The recorded result of a mutation that was already applied. *)
Definition recorded_mutation (context : RequestContext) (effect_request_id : RequestId) (digest : SemanticDigest) :
    Tx (option EffectRecord) :=
  d ← get;
  match db_effect_mutations d !! rc_request_id context with
  | None => mret None
  | Some row =>
      if neqb (em_effect_request_id row) effect_request_id
         || neqb (em_caller_host_id row) (rc_caller context)
         || neqb (em_semantic_digest row) (sd_bytes digest)
      then abort (RequestConflict (rc_request_id context)) else mret (Some (em_result row))
  end.
Definition decode_entry (r : EffectRecord) : result StoreError EffectJournalEntry :=
  match r with EfrEntry e => Ok e | EfrResolution _ => Err Corrupt end.
(** [INSERT INTO effect_journal_mutations]. *)
Definition insert_effect_mutation (context : RequestContext) (effect_request_id : RequestId)
    (digest : SemanticDigest) (r : EffectRecord) : Tx unit :=
  d ← get;
  if is_some (db_effect_mutations d !! rc_request_id context)
     || is_none (db_effects d !! effect_request_id) || negb (llen (sd_bytes digest) =? 32)
  then abort Unavailable
  else put (set_effect_mutations d (<[rc_request_id context :=
    MkEffectMutation effect_request_id (rc_caller context) (sd_bytes digest) r]> (db_effect_mutations d))).

(** ** Leases *)

Definition effect_expiry (now : Timestamp) (duration : Duration) : result StoreError Timestamp :=
  millis ← (if duration_millis duration <=? i64_max then Ok (duration_millis duration) else Err LeaseTooLong);
  datetime ← corrupt (Timestamp_to_datetime now);
  value ← ok_or Invalid (checked_add_millis datetime millis);
  Ok (Timestamp_from_datetime value).
(** [duration.is_zero() || duration.as_millis() > max_lease_millis]. *)
Definition lease_refused (duration : Duration) : bool :=
  (duration_nanos duration =? 0) || (max_lease_millis <? duration_millis duration).

(** The open session, its clock and its owner: the prologue of every journal handler. *)
Definition enter_session (session_id : SessionId) (action : StoreAction) (caller : HostId) (epoch : FencingEpoch)
    (observed : Timestamp) : Tx (SessionRow * Timestamp) :=
  row ← require_open_session session_id action;
  now ← advance_time_floor session_id (sr_time_floor row) observed;
  _ ← lift (require_owner row caller epoch now);
  mret (row, now).
Definition enter_owned (session_id : SessionId) (action : StoreAction) (caller : HostId) (epoch : FencingEpoch)
    (observed : Timestamp) : Tx Timestamp :=
  entered ← enter_session session_id action caller epoch observed;
  mret entered.2.

(** ** Moves of an entry *)

Definition with_phase (e : EffectJournalEntry) (phase : EffectJournalPhase) (terminal : option EffectTerminal) :
    EffectJournalEntry :=
  MkEntry (ee_request_id e) (ee_session_id e) (ee_participant_id e) (ee_operation_id e) (ee_caller e) (ee_action e)
    (ee_semantic_digest e) (ee_effect_class e) (ee_resolution_contract e) phase (ee_owner_host e) (ee_owner_epoch e)
    (ee_lease_expires_at e) terminal (ee_revision e).
Definition with_owner (e : EffectJournalEntry) (host : HostId) (epoch : FencingEpoch) (expires : Timestamp) :
    EffectJournalEntry :=
  MkEntry (ee_request_id e) (ee_session_id e) (ee_participant_id e) (ee_operation_id e) (ee_caller e) (ee_action e)
    (ee_semantic_digest e) (ee_effect_class e) (ee_resolution_contract e) (ee_phase e) host epoch expires
    (ee_terminal e) (ee_revision e).
Definition with_revision (e : EffectJournalEntry) (revision : Revision) : EffectJournalEntry :=
  MkEntry (ee_request_id e) (ee_session_id e) (ee_participant_id e) (ee_operation_id e) (ee_caller e) (ee_action e)
    (ee_semantic_digest e) (ee_effect_class e) (ee_resolution_contract e) (ee_phase e) (ee_owner_host e)
    (ee_owner_epoch e) (ee_lease_expires_at e) (ee_terminal e) revision.
(** [entry.revision = entry.revision.next()?; update_effect(..)], the entry as written. *)
Definition commit_entry (e : EffectJournalEntry) : Tx EffectJournalEntry :=
  revision ← lift (next_revision (ee_revision e));
  _ ← update_effect (with_revision e revision);
  mret (with_revision e revision).

Definition startable (phase : EffectJournalPhase) : bool :=
  match phase with JReserved | JRetryAuthorized => true | _ => false end.
(** The match of [transition_effect]. *)
Definition transitioned (e : EffectJournalEntry) (resolution : option EffectResolution) (now : Timestamp) :
    option EffectJournalEntry :=
  match resolution with
  | None => if startable (ee_phase e) && Timestamp_ltb now (ee_lease_expires_at e)
            then Some (with_phase e JStarted (ee_terminal e)) else None
  | Some r =>
      if eqb (ee_phase e) JStarted
      then Some (match r with
                 | ErUncertain => with_phase e JUncertain (ee_terminal e)
                 | ErCompleted value => with_phase e JCompleted (Some (EtCompleted value))
                 | ErFailed value => with_phase e JFailed (Some (EtFailed value)) end)
      else None
  end.

(** ** Handlers *)

Definition same_reservation (e : EffectJournalEntry) (c : ReserveEffect) : bool :=
  eqb (ee_session_id e) (re_session_id c) && eqb (ee_caller e) (rc_caller (re_context c))
  && eqb (ee_action e) (re_action c) && eqb (ee_semantic_digest e) (re_semantic_digest c)
  && eqb (ee_effect_class e) (re_effect_class c) && eqb (ee_participant_id e) (re_participant_id c)
  && eqb (ee_operation_id e) (re_operation_id c) && eqb (ee_resolution_contract e) (re_resolution_contract c).
Definition active_operation (s : OperationState) : bool :=
  match s with OpRunning | OpWaiting => true | _ => false end.

Definition reserve_effect (observed : Timestamp) (c : ReserveEffect) : Tx EffectJournalEntry :=
  if negb (contract_is_valid (re_resolution_contract c)) then abort Invalid else
  if lease_refused (re_lease_duration c) then abort LeaseTooLong else
  let request_id := rc_request_id (re_context c) in
  _ ← reject_global_request_collision request_id;
  _ ← reject_recovery_request_collision request_id;
  d ← get;
  if is_some (db_effect_mutations d !! request_id) then abort (RequestConflict request_id) else
  now ← enter_owned (re_session_id c) ActReserveEffect (rc_caller (re_context c)) (re_owner_epoch c) observed;
  loaded_participant ← load_participant_in (re_participant_id c);
  participant ← lift (ok_or (ParticipantNotFound (re_participant_id c)) loaded_participant);
  loaded_operation ← load_operation_in (re_operation_id c);
  operation ← lift (ok_or (OperationNotFound (re_operation_id c)) loaded_operation);
  if neqb (ps_session_id participant) (re_session_id c) || neqb (on_session_id operation) (re_session_id c)
     || neqb (on_participant_id operation) (re_participant_id c) || negb (active_operation (on_state operation))
  then abort Invalid else
  loaded ← load_effect_in request_id;
  match loaded with
  | Some existing =>
      if negb (same_reservation existing c) then abort (RequestConflict request_id) else
      if eqb (ee_phase existing) JStarted && Timestamp_leb (ee_lease_expires_at existing) now
      then commit_entry (with_phase existing JUncertain (ee_terminal existing))
      else mret existing
  | None =>
      expires ← lift (effect_expiry now (re_lease_duration c));
      let entry := MkEntry request_id (re_session_id c) (re_participant_id c) (re_operation_id c)
        (rc_caller (re_context c)) (re_action c) (re_semantic_digest c) (re_effect_class c) (re_resolution_contract c)
        JReserved (rc_caller (re_context c)) (re_owner_epoch c) expires None Revision_initial in
      _ ← insert_effect entry;
      mret entry
  end.

(** [start_effect] and [resolve_effect]. *)
Definition transition_effect (observed : Timestamp) (c : EffectTransition) : Tx EffectJournalEntry :=
  let request_id := rc_request_id (et_context c) in
  _ ← reject_global_request_collision request_id;
  _ ← reject_recovery_request_collision request_id;
  _ ← reject_effect_identity_collision request_id (et_effect_request_id c);
  recorded ← recorded_mutation (et_context c) (et_effect_request_id c) (et_semantic_digest c);
  match recorded with
  | Some r => lift (decode_entry r)
  | None =>
  loaded ← load_effect_in (et_effect_request_id c);
  entry ← lift (ok_or Invalid loaded);
  now ← enter_owned (ee_session_id entry)
    (if is_some (et_resolution c) then ActResolveEffect else ActStartEffect)
    (rc_caller (et_context c)) (et_owner_epoch c) observed;
  if neqb (ee_owner_host entry) (rc_caller (et_context c)) || neqb (ee_owner_epoch entry) (et_owner_epoch c)
     || neqb (ee_revision entry) (et_expected_revision c)
  then abort Invalid else
  moved ← lift (ok_or Invalid (transitioned entry (et_resolution c) now));
  entry ← commit_entry moved;
  _ ← insert_effect_mutation (et_context c) (et_effect_request_id c) (et_semantic_digest c) (EfrEntry entry);
  mret entry
  end.

(** The match of [takeover_effect]. *)
Definition taken_over (e : EffectJournalEntry) (c : TakeoverEffect) (now : Timestamp) :
    result StoreError EffectJournalEntry :=
  if eqb (ee_phase e) JReserved
  then expires ← effect_expiry now (te_lease_duration c);
       Ok (with_owner e (rc_caller (te_context c)) (te_owner_epoch c) expires)
  else Ok (with_phase e JUncertain (ee_terminal e)).
Definition takeover_effect (observed : Timestamp) (c : TakeoverEffect) : Tx EffectJournalEntry :=
  if lease_refused (te_lease_duration c) then abort LeaseTooLong else
  let request_id := rc_request_id (te_context c) in
  _ ← reject_global_request_collision request_id;
  _ ← reject_recovery_request_collision request_id;
  _ ← reject_effect_identity_collision request_id (te_effect_request_id c);
  recorded ← recorded_mutation (te_context c) (te_effect_request_id c) (te_semantic_digest c);
  match recorded with
  | Some r => lift (decode_entry r)
  | None =>
  loaded ← load_effect_in (te_effect_request_id c);
  entry ← lift (ok_or Invalid loaded);
  now ← enter_owned (ee_session_id entry) ActTakeoverEffect (rc_caller (te_context c)) (te_owner_epoch c) observed;
  if Timestamp_ltb now (ee_lease_expires_at entry) || neqb (ee_revision entry) (te_expected_revision c)
     || negb (match ee_phase entry with JReserved | JStarted => true | _ => false end)
  then abort Invalid else
  moved ← lift (taken_over entry c now);
  entry ← commit_entry moved;
  _ ← insert_effect_mutation (te_context c) (te_effect_request_id c) (te_semantic_digest c) (EfrEntry entry);
  mret entry
  end.

(** ** Reads *)

Definition read_effect (request_id : RequestId) : Tx (option EffectJournalEntry) := load_effect_in request_id.
Definition effect_key_le (a b : RequestId * EffectCols) : Prop := Id_le a.1 b.1.
#[global] Instance effect_key_le_dec : RelDecision effect_key_le.
Proof. intros a b. unfold effect_key_le. apply _. Defined.
Definition list_effects (session_id : SessionId) : Tx (list EffectJournalEntry) :=
  d ← get;
  lift (collect (fun e => decode_effect e.1 e.2)
    (merge_sort effect_key_le (filter (fun e => ef_session_id e.2 = session_id) (map_to_list (db_effects d))))).
End store.
