(* ===== verification/SqliteTool.v ===== *)
(** * SqliteTool: tool registrations, provider connections and invocations

    Models [impl ToolStore for SqliteStore] of
    crates/navigator-store-sqlite/src/store.rs with the helpers it calls.  An invocation
    is kept twice: as its own row, a projection with its dispatch, and as an entry of the
    effect journal; every handler here moves both, with the same revision.  Reading a
    snapshot column runs the checks of the types it is decoded as. *)
From S2P Require Import Prelude Scalars Session Authority Operation RecoveryTable Artifact Capacity Json Tool StoreApi StoreWire.
From S2P Require Import Approval Template Message OperationApi ToolApi EffectApi SqliteDb SqliteSession SqliteMailbox.
From S2P Require Import SqliteOperation SqliteEffect.

(** ** Decoding snapshots *)

Section decode.
Context {JS : Json}.

Definition decode_definition (d : ToolDefinition) : result StoreError ToolDefinition :=
  name ← corrupt (BoundedText_new (as_str (td_name d)));
  version ← corrupt (BoundedText_new (as_str (td_version d)));
  input ← corrupt (CanonicalJson_new (cj_as_bytes (td_input_schema d)));
  output ← corrupt (CanonicalJson_new (cj_as_bytes (td_output_schema d)));
  authority ← corrupt (Capability_new (Capability_as_str (td_required_authority d)));
  timeout ← corrupt (from_millis (Tool.as_millis (td_timeout d)));
  corrupt (ToolDefinition_try_from
    (MkToolDefinitionWire name version input output authority timeout (td_cancellation d) (td_effect_class d)
       (td_idempotency d) (td_requires_approval d))).
Definition decode_invocation (i : ToolInvocation) : result StoreError ToolInvocation :=
  name ← corrupt (BoundedText_new (as_str (ti_tool_name i)));
  version ← corrupt (BoundedText_new (as_str (ti_tool_version i)));
  input ← corrupt (CanonicalJson_new (cj_as_bytes (ti_input i)));
  corrupt (ToolInvocation_try_from
    (MkToolInvocationWire (ti_invocation_id i) (ti_request_id i) (ti_session_id i) (ti_participant_id i)
       (ti_operation_id i) name version input (ti_authority_grant_id i) (ti_approval_grant_id i)
       (ti_approval_effect_id i))).
Definition decode_terminal (t : ToolTerminal) : result StoreError ToolTerminal :=
  match t with
  | TtmCompleted r =>
      output ← corrupt (CanonicalJson_new (cj_as_bytes (tr_output r)));
      result ← corrupt (ToolResult_try_from (MkToolResultWire (tr_invocation_id r) output (tr_artifacts r)));
      Ok (TtmCompleted result)
  | TtmFailed f => Ok (TtmFailed f)
  end.
Definition decode_tool_snapshot (v : ToolInvocationSnapshot) : result StoreError ToolInvocationSnapshot :=
  definition ← decode_definition (tv_definition v);
  invocation ← decode_invocation (tv_invocation v);
  terminal ← (match tv_terminal v with
              | Some t => t ← decode_terminal t; Ok (Some t) | None => Ok None end);
  corrupt (ToolInvocationSnapshot_new (tv_registration_id v) definition invocation (tv_phase v) terminal
             (tv_revision v) (tv_dispatch v)).
Definition decode_registration (v : ToolRegistrationSnapshot) : result StoreError ToolRegistrationSnapshot :=
  definition ← decode_definition (rg_definition v);
  Ok (MkRegistration (rg_registration_id v) (rg_session_id v) (rg_consumer_key v) definition (rg_revision v)
        (rg_registered_at v)).
End decode.

(** The row a unique column selects. *)
Definition find_row {K A} `{Countable K} (p : A -> bool) (m : gmap K A) : option (K * A) :=
  List.find (fun e => p e.2) (map_to_list m).

Section store.
Context {TL : TimeLib} {TA : TimeArith} {SH : Sha256} {JS : Json} {UT : UuidText}.
Variable max_lease_millis : Z.

(** ** Registrations *)

Definition load_tool_registration_in (session_id : SessionId) (name version : string) :
    Tx (option ToolRegistrationSnapshot) :=
  d ← get;
  match db_registrations d !! (session_id, name, version) with
  | None => mret None
  | Some row =>
      v ← lift (decode_registration (tg_snapshot row));
      loaded ← load_session_in session_id;
      session ← lift (ok_or Corrupt loaded);
      if neqb (rg_session_id v) session_id
         || neqb (rg_consumer_key v) (ss_consumer_key (sr_snapshot session))
         || neqb (as_str (td_name (rg_definition v))) name
         || neqb (as_str (td_version (rg_definition v))) version
         || neqb (tg_registration_id row) (rg_registration_id v)
         || neqb (tg_consumer_key row) (as_str (rg_consumer_key v))
      then abort Corrupt else mret (Some v)
  end.

Definition tool_registration_capacity_reached (d : Db) (session_id : SessionId) : bool :=
  MAX_TOOL_REGISTRATIONS <=?
    llen (filter (fun e => e.1.1.1 = session_id) (map_to_list (db_registrations d))).

Definition reject_aliased_tool_registration (c : RegisterTool) : Tx unit :=
  d ← get;
  match find_row (fun r => eqb (tg_registration_id r) (rt_registration_id c)) (db_registrations d) with
  | None => mret tt
  | Some (_, row) =>
      snapshot ← lift (decode_registration (tg_snapshot row));
      if neqb (rg_session_id snapshot) (rt_session_id c)
         || neqb (as_str (td_name (rg_definition snapshot))) (as_str (td_name (rt_definition c)))
         || neqb (as_str (td_version (rg_definition snapshot))) (as_str (td_version (rt_definition c)))
      then abort (RequestConflict (rc_request_id (rt_context c))) else mret tt
  end.

Definition replay_json_registration (c : RegisterTool) : Tx (option ToolRegistrationSnapshot) :=
  replayed ← replay_bytes c;
  match replayed with
  | None => mret None
  | Some (LrRegistration r) => v ← lift (decode_registration r); mret (Some v)
  | Some _ => abort Corrupt
  end.

(** [INSERT INTO tool_registrations]. *)
Definition insert_registration (v : ToolRegistrationSnapshot) : Tx unit :=
  d ← get;
  let key := (rg_session_id v, as_str (td_name (rg_definition v)), as_str (td_version (rg_definition v))) in
  if is_some (db_registrations d !! key)
     || is_some (find_row (fun r => eqb (tg_registration_id r) (rg_registration_id v)) (db_registrations d))
     || is_none (db_sessions d !! rg_session_id v)
  then abort Unavailable
  else put (set_registrations d (<[key :=
    MkRegistrationCols (rg_registration_id v) (as_str (rg_consumer_key v)) v]> (db_registrations d))).

Definition register_tool (observed : Timestamp) (c : RegisterTool) : Tx (Mutation ToolRegistrationSnapshot) :=
  let name := as_str (td_name (rt_definition c)) in
  let version := as_str (td_version (rt_definition c)) in
  replayed ← replay_json_registration c;
  match replayed with
  | Some value =>
      loaded ← load_session_in (rt_session_id c);
      session ← lift (ok_or Corrupt loaded);
      loaded ← load_tool_registration_in (rt_session_id c) name version;
      current ← lift (ok_or Corrupt loaded);
      if neqb value current || neqb (rg_session_id value) (rt_session_id c)
         || neqb (rg_registration_id value) (rt_registration_id c)
         || neqb (rg_consumer_key value) (rt_consumer_key c)
         || neqb (rg_consumer_key value) (ss_consumer_key (sr_snapshot session))
         || neqb (rg_definition value) (rt_definition c)
      then abort Corrupt else mret (Replayed value)
  | None =>
  entered ← enter_session (rt_session_id c) ActRegisterTool (rc_caller (rt_context c)) (rt_owner_epoch c) observed;
  let '(row, now) := entered in
  if neqb (ss_consumer_key (sr_snapshot row)) (rt_consumer_key c) then abort Invalid else
  _ ← reject_aliased_tool_registration c;
  d ← get;
  match db_registrations d !! (rt_session_id c, name, version) with
  | Some existing =>
      snapshot ← lift (decode_registration (tg_snapshot existing));
      if neqb (rg_consumer_key snapshot) (rt_consumer_key c) || neqb (rg_definition snapshot) (rt_definition c)
         || neqb (rg_registration_id snapshot) (rt_registration_id c)
      then abort (RequestConflict (rc_request_id (rt_context c))) else
      _ ← record_bytes (rt_session_id c) c SeApplied (LrRegistration snapshot);
      mret (Unchanged snapshot)
  | None =>
      if tool_registration_capacity_reached d (rt_session_id c) then abort Invalid else
      let snapshot := MkRegistration (rt_registration_id c) (rt_session_id c) (rt_consumer_key c) (rt_definition c)
        Revision_initial now in
      _ ← insert_registration snapshot;
      _ ← append_event (rc_request_id (rt_context c)) (rt_session_id c) (rg_revision snapshot) "tool.registered" now;
      _ ← record_bytes (rt_session_id c) c SeApplied (LrRegistration snapshot);
      mret (Applied snapshot)
  end
  end.

(** ** Reading an invocation *)

Definition tool_invocation_projection_matches (row : ToolCols) (v : ToolInvocationSnapshot) : bool :=
  let dispatch := tv_dispatch v in
  eqb (dp_dispatch_id dispatch) (tc_dispatch_id row)
  && eqb (dp_provider_id dispatch) (tc_provider_id row)
  && ((dp_server_sequence dispatch <=? i64_max) && (dp_server_sequence dispatch =? tc_server_sequence row))
  && eqb (dp_deadline dispatch) (tc_deadline row)
  && eqb (dp_connection_generation dispatch ≫= fun item => if item <=? i64_max then Some item else None)
       (tc_connection_generation row)
  && eqb (dp_cancellation_id dispatch) (tc_cancellation_id row)
  && eqb (dp_cancellation_server_sequence dispatch ≫= fun item => if item <=? i64_max then Some item else None)
       (tc_cancellation_server_sequence row)
  && eqb (sd_bytes <$> dp_terminal_digest dispatch) (tc_terminal_digest row).

(** The invocation's phase and the phase of its effect. *)
Definition phase_matches (phase : ToolInvocationPhase) (effect : EffectJournalPhase) : bool :=
  match phase, effect with
  | TpReserved, (JReserved | JRetryAuthorized) => true
  | TpStarted, JStarted => true
  | TpUncertain, JUncertain => true
  | (TpCompleted | TpFailed), JCompleted => true
  | TpFailed, JFailed => true
  | _, _ => false
  end.

Definition row_is_projection (id : ToolInvocationId) (row : ToolCols) (v : ToolInvocationSnapshot) : bool :=
  let i := tv_invocation v in
  eqb (ti_invocation_id i) id && eqb (ti_request_id i) (tc_effect_request_id row)
  && eqb (ti_session_id i) (tc_session_id row) && eqb (ti_participant_id i) (tc_participant_id row)
  && eqb (ti_operation_id i) (tc_operation_id row) && eqb (as_str (ti_tool_name i)) (tc_tool_name row)
  && eqb (as_str (ti_tool_version i)) (tc_tool_version row) && tool_invocation_projection_matches row v.

Definition load_tool_invocation_in (id : ToolInvocationId) : Tx (option ToolInvocationSnapshot) :=
  d ← get;
  match db_tools d !! id with
  | None => mret None
  | Some row =>
      value ← lift (decode_tool_snapshot (tc_snapshot row));
      let i := tv_invocation value in
      if negb (row_is_projection id row value) then abort Corrupt else
      loaded ← load_effect_in (ti_request_id i);
      effect ← lift (ok_or Corrupt loaded);
      if negb (phase_matches (tv_phase value) (ee_phase effect)) || neqb (ee_revision effect) (tv_revision value)
      then abort Corrupt else
      loaded ← load_participant_in (ti_participant_id i);
      participant ← lift (ok_or Corrupt loaded);
      loaded ← load_operation_in (ti_operation_id i);
      operation ← lift (ok_or Corrupt loaded);
      if neqb (ps_session_id participant) (ti_session_id i) || neqb (on_session_id operation) (ti_session_id i)
         || neqb (on_participant_id operation) (ti_participant_id i)
         || neqb (ee_session_id effect) (ti_session_id i) || neqb (ee_participant_id effect) (ti_participant_id i)
         || neqb (ee_operation_id effect) (ti_operation_id i)
         || neqb (ee_action effect) (td_required_authority (tv_definition value))
         || neqb (ee_effect_class effect) (td_effect_class (tv_definition value))
      then abort Corrupt else
      loaded ← load_tool_registration_in (ti_session_id i) (as_str (ti_tool_name i)) (as_str (ti_tool_version i));
      registration ← lift (ok_or Corrupt loaded);
      if neqb (tv_registration_id value) (rg_registration_id registration)
         || neqb (rg_registration_id registration) (tc_registration_id row)
         || neqb (rg_definition registration) (tv_definition value)
      then abort Corrupt else mret (Some value)
  end.

(** ** Connecting a provider *)

Definition pending_phase (p : ToolInvocationPhase) : bool :=
  match p with TpReserved | TpStarted | TpUncertain => true | _ => false end.
Definition with_dispatch (v : ToolInvocationSnapshot) (phase : ToolInvocationPhase) (terminal : option ToolTerminal)
    (revision : Revision) (dispatch : ToolDispatchSnapshot) : result StoreError ToolInvocationSnapshot :=
  corrupt (ToolInvocationSnapshot_new (tv_registration_id v) (tv_definition v) (tv_invocation v) phase terminal
             revision dispatch).
Definition reconnected (d : ToolDispatchSnapshot) (connection : ToolConnectionId) (generation : Z) : ToolDispatchSnapshot :=
  MkDispatch (dp_dispatch_id d) (dp_provider_id d) (dp_server_sequence d) (dp_deadline d) (Some connection)
    (Some generation) (dp_cancellation_id d) (dp_cancellation_server_sequence d) (dp_terminal_digest d).
(** [UPDATE tool_invocations SET ..]: the columns the handlers write. *)
Definition tool_row_with (row : ToolCols) (v : ToolInvocationSnapshot) (generation : option Z)
    (cancellation : option ToolCancellationId) (cancellation_sequence : option Z) (digest : option bytes) : ToolCols :=
  MkToolCols (tc_effect_request_id row) (tc_registration_id row) (tc_dispatch_id row) (tc_provider_id row)
    (tc_server_sequence row) (tc_deadline row) generation cancellation cancellation_sequence digest
    (tc_session_id row) (tc_participant_id row) (tc_operation_id row) (tc_tool_name row) (tc_tool_version row) v.
Definition put_tool (id : ToolInvocationId) (row : ToolCols) : Tx unit :=
  d ← get; put (set_tools d (<[id := row]> (db_tools d))).

(** The sequences a provider's cursor may pass: of finished or cancelled dispatches, and
    of their cancellations. *)
Definition durable_sequences (after : Z) (row : ToolCols) : result StoreError (list Z) :=
  value ← decode_tool_snapshot (tc_snapshot row);
  sequence ← to_u64 (tc_server_sequence row);
  let finished := match tv_phase value with TpCompleted | TpFailed => true | _ => false end in
  let mine := if (sequence <=? after) && (finished || is_some (dp_cancellation_id (tv_dispatch value)))
              then [sequence] else [] in
  match tc_cancellation_server_sequence row with
  | None => Ok mine
  | Some cancellation =>
      sequence ← to_u64 cancellation;
      Ok (mine ++ if sequence <=? after then [sequence] else [])
  end.
(** The set is exactly [1..=after]: as many elements, the first 1 and the last [after]. *)
Definition is_prefix_set (after : Z) (l : list Z) : bool :=
  let s := merge_sort Z.le (elements (list_to_set l : gset Z)) in
  (llen s =? after) && bool_decide (head s = Some 1) && bool_decide (last s = Some after).
Definition acknowledges (d : Db) (c : ConnectToolProvider) : result StoreError bool :=
  after ← to_i64 (cp_after_server_sequence c);
  let rows := List.filter (fun row => eqb (tc_session_id row) (cp_session_id c)
      && eqb (tc_provider_id row) (cp_provider_id c)
      && ((tc_server_sequence row <=? after)
          || match tc_cancellation_server_sequence row with Some s => s <=? after | None => false end))
    (table_rows (db_tools d)) in
  sequences ← collect (durable_sequences after) rows;
  Ok (is_prefix_set after (concat sequences)).

Definition replay_json_connection (c : ConnectToolProvider) : Tx (option ToolProviderConnectionSnapshot) :=
  replayed ← replay_bytes c;
  match replayed with
  | None => mret None
  | Some (LrConnection v) => mret (Some v)
  | Some _ => abort Corrupt
  end.

(** The registration a replayed connection names is still there. *)
Definition replayed_registration (d : Db) (v : ToolProviderConnectionSnapshot) (id : ToolRegistrationId) :
    result StoreError unit :=
  match List.find (fun e => eqb (e.1.1.1) (pv_session_id v) && eqb (tg_registration_id e.2) id)
          (map_to_list (db_registrations d)) with
  | None => Err Corrupt
  | Some (_, row) =>
      snapshot ← decode_registration (tg_snapshot row);
      if neqb (rg_session_id snapshot) (pv_session_id v) || neqb (rg_consumer_key snapshot) (pv_consumer_key v)
         || neqb (rg_registration_id snapshot) id || neqb (tg_consumer_key row) (as_str (pv_consumer_key v))
      then Err Corrupt else Ok tt
  end.

Definition validate_connect_replay (d : Db) (c : ConnectToolProvider) (ids : list ToolRegistrationId)
    (v : ToolProviderConnectionSnapshot) : result StoreError unit :=
  event ← ok_or Corrupt (List.find (fun e => bool_decide (er_related_request_id e = Some (rc_request_id (cp_context c)))
                                      && String.eqb (er_event_type e) "tool.provider_connected") (db_events d));
  durable ← ok_or Corrupt (db_connections d !! (cp_session_id c, cp_provider_id c));
  generation ← to_u64 (cn_generation durable);
  acknowledged ← to_u64 (cn_acknowledged_server_sequence durable);
  next ← to_u64 (cn_next_server_sequence durable);
  if negb (is_structurally_valid v) || neqb (pv_connected_at v) (er_occurred_at event)
     || neqb (pv_session_id v) (cp_session_id c) || neqb (pv_consumer_key v) (cp_consumer_key c)
     || neqb (pv_provider_id v) (cp_provider_id c) || neqb (pv_connection_id v) (cp_connection_id c)
     || neqb (pv_registration_ids v) ids || (generation <? pv_generation v)
     || negb (pv_acknowledged_server_sequence v =? cp_after_server_sequence c)
     || neqb (cn_consumer_key durable) (as_str (cp_consumer_key c))
     || (acknowledged <? pv_acknowledged_server_sequence v) || (next <? pv_next_server_sequence v)
  then Err Corrupt else
  _ ← collect (replayed_registration d v) (pv_registration_ids v);
  Ok tt.

(** Every registration named belongs to the session's consumer. *)
Definition registrations_owned (d : Db) (c : ConnectToolProvider) (key : ConsumerKey) : bool :=
  forallb (fun id =>
    match List.find (fun e => eqb (e.1.1.1) (cp_session_id c) && eqb (tg_registration_id e.2) id)
            (map_to_list (db_registrations d)) with
    | Some (_, row) => eqb (tg_consumer_key row) (as_str key)
    | None => false end) (cp_registration_ids c).

(** The provider's next generation, its next sequence and its acknowledged one. *)
Definition previous_connection (d : Db) (c : ConnectToolProvider) : result StoreError (Z * Z * Z) :=
  match db_connections d !! (cp_session_id c, cp_provider_id c) with
  | None => Ok (1, 1, 0)
  | Some row =>
      if neqb (cn_consumer_key row) (as_str (cp_consumer_key c)) then Err Invalid else
      generation ← to_u64 (cn_generation row);
      generation ← (if generation + 1 <=? u64_max then Ok (generation + 1) else Err Corrupt);
      next ← to_u64 (cn_next_server_sequence row);
      prior_ack ← to_u64 (cn_acknowledged_server_sequence row);
      Ok (generation, next, prior_ack)
  end.

(** Work that is still open is dispatched over the new connection. *)
Definition reconnect_row (c : ConnectToolProvider) (generation : Z) (row : ToolCols) : result StoreError ToolCols :=
  value ← decode_tool_snapshot (tc_snapshot row);
  value ← with_dispatch value (tv_phase value) (tv_terminal value) (tv_revision value)
            (reconnected (tv_dispatch value) (cp_connection_id c) generation);
  g ← to_i64 generation;
  Ok (tool_row_with row value (Some g) (tc_cancellation_id row) (tc_cancellation_server_sequence row)
        (tc_terminal_digest row)).
Fixpoint reconnect_pending (c : ConnectToolProvider) (generation : Z) (rows : list (ToolInvocationId * ToolCols)) : Tx unit :=
  match rows with
  | [] => mret tt
  | (id, row) :: rows =>
      row ← lift (reconnect_row c generation row);
      _ ← put_tool id row;
      reconnect_pending c generation rows
  end.
Definition pending_tools (d : Db) (c : ConnectToolProvider) : list (ToolInvocationId * ToolCols) :=
  List.filter (fun e => eqb (tc_session_id e.2) (cp_session_id c) && eqb (tc_provider_id e.2) (cp_provider_id c)
                   && pending_phase (tv_phase (tc_snapshot e.2))) (map_to_list (db_tools d)).

(** [INSERT INTO tool_provider_connections .. ON CONFLICT DO UPDATE]. *)
Definition upsert_connection (key : SessionId * ToolProviderId) (row : ConnectionCols) : Tx unit :=
  d ← get; put (set_connections d (<[key := row]> (db_connections d))).

Definition connect_tool_provider (observed : Timestamp) (c : ConnectToolProvider) :
    Tx ToolProviderConnectionSnapshot :=
  if bool_decide (cp_registration_ids c = []) || (MAX_TOOL_REGISTRATIONS <? llen (cp_registration_ids c))
  then abort Invalid else
  let ids := sorted_ids (cp_registration_ids c) in
  if negb (llen ids =? llen (cp_registration_ids c)) then abort Invalid else
  replayed ← replay_json_connection c;
  d ← get;
  match replayed with
  | Some value => _ ← lift (validate_connect_replay d c ids value); mret value
  | None =>
  entered ← enter_session (cp_session_id c) ActConnectToolProvider (rc_caller (cp_context c)) (cp_owner_epoch c) observed;
  let '(row, now) := entered in
  if neqb (cp_consumer_key c) (ss_consumer_key (sr_snapshot row)) then abort Invalid else
  if negb (registrations_owned d c (ss_consumer_key (sr_snapshot row))) then abort Invalid else
  if match find_row (fun r => eqb (cn_connection_id r) (cp_connection_id c)) (db_connections d) with
     | Some (key, _) => neqb key (cp_session_id c, cp_provider_id c) | None => false end
  then abort (RequestConflict (rc_request_id (cp_context c))) else
  previous ← lift (previous_connection d c);
  let '(generation, next, prior_ack) := previous in
  let after := cp_after_server_sequence c in
  if (after <? prior_ack) || (next <=? after) then abort Invalid else
  durable ← lift (if prior_ack <? after then acknowledges d c else Ok true);
  if negb durable then abort Invalid else
  let snapshot := MkConnection (cp_session_id c) (cp_consumer_key c) (cp_provider_id c) (cp_connection_id c) ids
    generation after next now in
  g ← lift (to_i64 generation);
  a ← lift (to_i64 after);
  n ← lift (to_i64 next);
  _ ← upsert_connection (cp_session_id c, cp_provider_id c)
        (MkConnectionCols (cp_connection_id c) (as_str (cp_consumer_key c)) g a n now ids);
  d ← get;
  _ ← reconnect_pending c generation (pending_tools d c);
  revision ← lift (corrupt (Revision_new generation));
  _ ← append_event (rc_request_id (cp_context c)) (cp_session_id c) revision "tool.provider_connected" now;
  _ ← record_bytes (cp_session_id c) c SeApplied (LrConnection snapshot);
  mret snapshot
  end.

(** ** Authority *)

Definition load_grant_in (grant_id : GrantId) : Tx (option GrantSnapshot) :=
  d ← get; mret (db_grants d !! grant_id).
Definition load_authority_policy_in (participant_id : ParticipantId) : Tx (option AuthorityPolicySnapshot) :=
  d ← get; mret (db_policies d !! participant_id).
(** [UPDATE authority_grants SET snapshot = ? WHERE grant_id = ?]. *)
Definition update_grant_in (g : GrantSnapshot) : Tx unit :=
  d ← get;
  if is_none (db_grants d !! g_id (gs_grant g)) then abort Corrupt
  else put (set_grants d (<[g_id (gs_grant g) := g]> (db_grants d))).
Definition consumed (g : GrantSnapshot) (now : Timestamp) : GrantSnapshot :=
  MkGrantSnapshot (gs_grant g) (gs_single_use g) (Some now).

(** The participant's policy and the grant, if any, allow the effect now. *)
Definition authorized_by (policy : option AuthorityPolicySnapshot) (participant : ParticipantId)
    (session : SessionId) (requested : ScopedCapability) (grant : option GrantSnapshot) (now : Timestamp) :
    option AuthorityDecision :=
  match policy with
  | None => None
  | Some p => match authorize_effect (policy_ceilings p) participant session requested (gs_grant <$> grant) now with
              | Ok decision => Some decision | Err _ => None end
  end.
Definition unconsumed (grant : option GrantSnapshot) : bool := is_none_or grant (fun g => is_none (gs_consumed_at g)).
Definition load_grant_of (i : ToolInvocation) : Tx (option GrantSnapshot) :=
  match ti_authority_grant_id i with Some id => load_grant_in id | None => mret None end.

(** ** Reserving an invocation *)

Definition nanos_of (t : Timestamp) : Z := unix_seconds t * 1000000000 + nanoseconds t.
(** [INSERT INTO tool_invocations]: the keys, the unique columns and the foreign keys. *)
Definition insert_tool (v : ToolInvocationSnapshot) (server_sequence generation : Z) : Tx unit :=
  let i := tv_invocation v in
  let dispatch := tv_dispatch v in
  d ← get;
  if is_some (db_tools d !! ti_invocation_id i)
     || is_some (find_row (fun r => eqb (tc_effect_request_id r) (ti_request_id i)) (db_tools d))
     || is_some (find_row (fun r => eqb (tc_dispatch_id r) (dp_dispatch_id dispatch)) (db_tools d))
     || is_none (db_effects d !! ti_request_id i)
     || is_none (find_row (fun r => eqb (tg_registration_id r) (tv_registration_id v)) (db_registrations d))
     || is_none (db_registrations d !! (ti_session_id i, as_str (ti_tool_name i), as_str (ti_tool_version i)))
     || is_none (db_participants d !! ti_participant_id i) || is_none (db_operations d !! ti_operation_id i)
     || (server_sequence <=? 0) || (generation <=? 0)
  then abort Unavailable
  else put (set_tools d (<[ti_invocation_id i :=
    MkToolCols (ti_request_id i) (tv_registration_id v) (dp_dispatch_id dispatch) (dp_provider_id dispatch)
      server_sequence (dp_deadline dispatch) (Some generation) None None None (ti_session_id i)
      (ti_participant_id i) (ti_operation_id i) (as_str (ti_tool_name i)) (as_str (ti_tool_version i)) v]> (db_tools d))).

(** [UPDATE tool_provider_connections SET next_server_sequence=? WHERE ..], with the
    number of rows changed. *)
Definition advance_sequence (key : SessionId * ToolProviderId) (cond : ConnectionCols -> bool) (next : Z) : Tx Z :=
  d ← get;
  match db_connections d !! key with
  | Some row =>
      if cond row
      then _ ← put (set_connections d (<[key := MkConnectionCols (cn_connection_id row) (cn_consumer_key row)
             (cn_generation row) (cn_acknowledged_server_sequence row) next (cn_connected_at row)
             (cn_registrations row)]> (db_connections d))); mret 1
      else mret 0
  | None => mret 0
  end.

Definition invocation_of_request (d : Db) (request_id : RequestId) : option ToolInvocationId :=
  fst <$> find_row (fun r => eqb (tc_effect_request_id r) request_id) (db_tools d).

Definition reserve_tool_invocation (observed : Timestamp) (c : ReserveToolInvocation) : Tx ToolInvocationSnapshot :=
  let i := ri_invocation c in
  let request_id := rc_request_id (ri_context c) in
  if neqb request_id (ti_request_id i) || lease_refused max_lease_millis (ri_lease_duration c)
  then abort Invalid else
  _ ← reject_global_request_collision request_id;
  _ ← reject_recovery_request_collision request_id;
  d ← get;
  if is_some (db_tool_mutations d !! request_id) then abort (RequestConflict request_id) else
  if match invocation_of_request d request_id with Some id => neqb id (ti_invocation_id i) | None => false end
  then abort (RequestConflict request_id) else
  loaded ← load_tool_invocation_in (ti_invocation_id i);
  match loaded with
  | Some existing =>
      loaded ← load_effect_in (ti_request_id (tv_invocation existing));
      effect ← lift (ok_or Corrupt loaded);
      if neqb (tv_invocation existing) i || neqb (ee_caller effect) (rc_caller (ri_context c))
         || neqb (ee_owner_epoch effect) (ri_owner_epoch c) || neqb (ee_semantic_digest effect) (mr_digest c)
      then abort (RequestConflict request_id) else mret existing
  | None =>
  now ← enter_owned (ti_session_id i) ActReserveToolInvocation (rc_caller (ri_context c)) (ri_owner_epoch c) observed;
  loaded ← load_tool_registration_in (ti_session_id i) (as_str (ti_tool_name i)) (as_str (ti_tool_version i));
  registration ← lift (ok_or Invalid loaded);
  if neqb (rg_registration_id registration) (ri_registration_id c) then abort Invalid else
  _ ← lift (map_err (fun _ => Invalid) (Tool.validate_input (rg_definition registration) (cj_as_bytes (ti_input i))));
  d ← get;
  provider ← lift (ok_or Invalid (db_connections d !! (ti_session_id i, ri_provider_id c)));
  if negb (existsb (eqb (rg_registration_id registration)) (cn_registrations provider)) then abort Invalid else
  server_sequence ← lift (to_u64 (cn_next_server_sequence provider));
  generation ← lift (to_u64 (cn_generation provider));
  if (nanos_of (ri_deadline c) <=? nanos_of now)
     || (Tool.as_millis (td_timeout (rg_definition registration)) * 1000000 <? nanos_of (ri_deadline c) - nanos_of now)
  then abort Invalid else
  following ← lift (if server_sequence + 1 <=? u64_max then to_i64 (server_sequence + 1) else Err Corrupt);
  bound ← lift (to_i64 server_sequence);
  _ ← advance_sequence (ti_session_id i, ri_provider_id c) (fun row => cn_next_server_sequence row =? bound) following;
  loaded ← load_participant_in (ti_participant_id i);
  participant ← lift (ok_or Invalid loaded);
  loaded ← load_operation_in (ti_operation_id i);
  operation ← lift (ok_or Invalid loaded);
  if neqb (ps_session_id participant) (ti_session_id i) || neqb (on_session_id operation) (ti_session_id i)
     || neqb (on_participant_id operation) (ti_participant_id i) || negb (active_operation (on_state operation))
  then abort Invalid else
  grant ← load_grant_of i;
  policy ← load_authority_policy_in (ps_participant_id participant);
  let requested := MkScoped (td_required_authority (rg_definition registration)) (ScopeOperation (on_operation_id operation)) in
  if negb (is_some (authorized_by policy (ps_participant_id participant) (ti_session_id i) requested grant now)
           && unconsumed grant)
  then abort Invalid else
  expires ← lift (effect_expiry now (ri_lease_duration c));
  _ ← insert_effect (MkEntry request_id (ti_session_id i) (ti_participant_id i) (ti_operation_id i)
        (rc_caller (ri_context c)) (td_required_authority (rg_definition registration)) (mr_digest c)
        (td_effect_class (rg_definition registration)) conservative JReserved (rc_caller (ri_context c))
        (ri_owner_epoch c) expires None Revision_initial);
  snapshot ← lift (map_err (fun _ => Invalid) (ToolInvocationSnapshot_new (ri_registration_id c)
    (rg_definition registration) i TpReserved None Revision_initial
    (MkDispatch (ri_dispatch_id c) (ri_provider_id c) server_sequence (ri_deadline c) (Some (cn_connection_id provider))
       (Some generation) None None None)));
  sequence ← lift (to_i64 server_sequence);
  g ← lift (to_i64 generation);
  _ ← insert_tool snapshot sequence g;
  _ ← append_event request_id (ti_session_id i) (tv_revision snapshot) "tool.invocation_reserved" now;
  mret snapshot
  end.

(** ** Moving an invocation *)

(** [record_tool_mutation]. *)
Definition record_tool_mutation (c : TransitionToolInvocation) (v : ToolInvocationSnapshot) : Tx unit :=
  d ← get;
  if is_some (db_tool_mutations d !! rc_request_id (tt_context c)) || is_none (db_tools d !! tt_invocation_id c)
     || negb (llen (sd_bytes (mr_digest c)) =? 32)
  then abort Unavailable
  else put (set_tool_mutations d (<[rc_request_id (tt_context c) :=
    MkToolMutation (tt_invocation_id c) (rc_caller (tt_context c)) (sd_bytes (mr_digest c)) v]> (db_tool_mutations d))).

Definition validate_tool_transition_replay (c : TransitionToolInvocation) (recorded current : ToolInvocationSnapshot) :
    result StoreError unit :=
  let r := tv_dispatch recorded in
  let k := tv_dispatch current in
  let same_identity :=
    eqb (ti_invocation_id (tv_invocation recorded)) (tt_invocation_id c)
    && eqb (tv_invocation recorded) (tv_invocation current) && eqb (tv_definition recorded) (tv_definition current)
    && eqb (tv_registration_id recorded) (tv_registration_id current)
    && eqb (dp_dispatch_id r) (tt_dispatch_id c) && eqb (dp_dispatch_id r) (dp_dispatch_id k)
    && eqb (dp_provider_id r) (tt_provider_id c) && eqb (dp_provider_id r) (dp_provider_id k)
    && (dp_server_sequence r =? tt_server_sequence c) && (dp_server_sequence r =? dp_server_sequence k)
    && eqb (dp_deadline r) (dp_deadline k) in
  next ← next_revision (tt_expected_revision c);
  let now_or_next := eqb (tv_revision recorded) (tt_expected_revision c) || eqb (tv_revision recorded) next in
  let valid_result :=
    match tt_transition c with
    | TtStart => eqb (tv_phase recorded) TpStarted && is_none (tv_terminal recorded) && eqb (tv_revision recorded) next
    | TtComplete result => eqb (tv_phase recorded) TpCompleted
        && eqb (tv_terminal recorded) (Some (TtmCompleted result)) && now_or_next
    | TtFail failure => eqb (tv_phase recorded) TpFailed
        && eqb (tv_terminal recorded) (Some (TtmFailed failure)) && now_or_next
    | TtMarkUncertain => eqb (tv_phase recorded) TpUncertain && is_none (tv_terminal recorded)
        && eqb (tv_revision recorded) next
    | TtRequestCancel cancellation_id => eqb (dp_cancellation_id r) (Some cancellation_id)
        && eqb (tv_revision recorded) next && is_none (tv_terminal recorded)
    end in
  let terminal_is_authoritative := is_none (tv_terminal recorded)
    || (eqb (tv_terminal recorded) (tv_terminal current) && eqb (tv_phase recorded) (tv_phase current)) in
  if negb same_identity || negb valid_result || negb terminal_is_authoritative then Err Corrupt else Ok tt.

(** [format!("{:?}", kind).to_ascii_lowercase()]. *)
Definition failure_debug_name (k : ToolFailureKind) : string :=
  match k with
  | InvalidInput => "invalidinput" | InvalidOutput => "invalidoutput" | Unauthorized => "unauthorized"
  | TimedOut => "timedout" | ToolCancelled => "cancelled" | ProviderUnavailable => "providerunavailable"
  | HandlerFailed => "handlerfailed" | ToolEffectUncertain => "effectuncertain"
  end.
Definition fails_before_start (k : ToolFailureKind) : bool :=
  match k with TimedOut | ToolCancelled | ProviderUnavailable => true | _ => false end.
Definition may_be_uncertain (class : EffectClass) : bool :=
  match class with Transactional | NonIdempotent | UnknownClass => true | ReadOnly | Idempotent => false end.

(** The match of [transition_tool]: the invocation's phase and terminal, the effect's,
    and the name of the event. *)
Record ToolMove := MkToolMove {
  mv_phase : ToolInvocationPhase;
  mv_terminal : option ToolTerminal;
  mv_effect_phase : EffectJournalPhase;
  mv_effect_terminal : option EffectTerminal;
  mv_event : string;
}.
Definition tool_move (current : ToolInvocationSnapshot) (effect : EffectJournalEntry) (t : ToolTransition) :
    result StoreError ToolMove :=
  let phase := tv_phase current in
  match t with
  | TtStart => if eqb phase TpReserved
               then Ok (MkToolMove TpStarted None JStarted None "tool.invocation_started") else Err Invalid
  | TtComplete result =>
      if negb (eqb phase TpStarted) then Err Invalid else
      _ ← map_err (fun _ => Invalid) (validate_output (tv_definition current) (cj_as_bytes (tr_output result)));
      bounded ← map_err (fun _ => Invalid) (BoundedBytes_new (to_vec (result_json result)));
      Ok (MkToolMove TpCompleted (Some (TtmCompleted result)) JCompleted (Some (EtCompleted bounded))
            "tool.invocation_completed")
  | TtFail failure =>
      if negb (eqb phase TpStarted || (eqb phase TpReserved && fails_before_start (tf_kind failure))) then Err Invalid else
      id ← map_err (fun _ => Invalid) (BoundedText_new (failure_debug_name (tf_kind failure)));
      Ok (MkToolMove TpFailed (Some (TtmFailed failure)) JFailed (Some (EtFailed id)) "tool.invocation_failed")
  | TtMarkUncertain =>
      if eqb phase TpStarted && may_be_uncertain (ee_effect_class effect)
      then Ok (MkToolMove TpUncertain None JUncertain None "tool.invocation_uncertain") else Err Invalid
  | TtRequestCancel _ =>
      if eqb phase TpReserved || eqb phase TpStarted
      then Ok (MkToolMove phase (tv_terminal current) (ee_phase effect) (ee_terminal effect)
                 "tool.invocation_cancel_requested")
      else Err Invalid
  end.

Definition set_generation (d : ToolDispatchSnapshot) (generation : Z) : ToolDispatchSnapshot :=
  MkDispatch (dp_dispatch_id d) (dp_provider_id d) (dp_server_sequence d) (dp_deadline d) (dp_connection_id d)
    (Some generation) (dp_cancellation_id d) (dp_cancellation_server_sequence d) (dp_terminal_digest d).
Definition set_terminal_digest (d : ToolDispatchSnapshot) (digest : SemanticDigest) : ToolDispatchSnapshot :=
  MkDispatch (dp_dispatch_id d) (dp_provider_id d) (dp_server_sequence d) (dp_deadline d) (dp_connection_id d)
    (dp_connection_generation d) (dp_cancellation_id d) (dp_cancellation_server_sequence d) (Some digest).
Definition set_cancellation (d : ToolDispatchSnapshot) (id : ToolCancellationId) (sequence : Z) : ToolDispatchSnapshot :=
  MkDispatch (dp_dispatch_id d) (dp_provider_id d) (dp_server_sequence d) (dp_deadline d) (dp_connection_id d)
    (dp_connection_generation d) (Some id) (Some sequence) (dp_terminal_digest d).
Definition tool_terminal_digest (t : ToolTerminal) : SemanticDigest :=
  match t with
  | TtmCompleted result => SemanticDigest_v1 (MkCapability "tool.result") (to_vec (result_json result))
  | TtmFailed failure => SemanticDigest_v1 (MkCapability "tool.failure") (to_vec (failure_json failure))
  end.

(** A cancellation takes the next sequence of the provider's connection. *)
Definition moved_dispatch (c : TransitionToolInvocation) (current : ToolInvocationSnapshot) (connection : ConnectionCols) :
    Tx ToolDispatchSnapshot :=
  let dispatch := set_generation (tv_dispatch current) (tt_connection_generation c) in
  match tt_transition c with
  | TtComplete result => mret (set_terminal_digest dispatch (tool_terminal_digest (TtmCompleted result)))
  | TtFail failure => mret (set_terminal_digest dispatch (tool_terminal_digest (TtmFailed failure)))
  | TtRequestCancel cancellation_id =>
      if is_some (dp_cancellation_id dispatch) then abort (RequestConflict (rc_request_id (tt_context c))) else
      next ← lift (to_u64 (cn_next_server_sequence connection));
      following ← lift (if next + 1 <=? u64_max then to_i64 (next + 1) else Err Corrupt);
      generation ← lift (to_i64 (tt_connection_generation c));
      bound ← lift (to_i64 next);
      changed ← advance_sequence (ti_session_id (tv_invocation current), tt_provider_id c)
        (fun row => eqb (cn_connection_id row) (tt_connection_id c) && (cn_generation row =? generation)
                    && (cn_next_server_sequence row =? bound)) following;
      if negb (changed =? 1) then abort Invalid else mret (set_cancellation dispatch cancellation_id next)
  | _ => mret dispatch
  end.

Definition tool_phase_name (p : ToolInvocationPhase) : string :=
  match p with
  | TpReserved => "reserved" | TpStarted => "started" | TpUncertain => "uncertain"
  | TpCompleted => "completed" | TpFailed => "failed"
  end.
(** The keys in the order the printed map keeps them. *)
Definition tool_invocation_event_payload (v : ToolInvocationSnapshot) : bytes :=
  let i := tv_invocation v in
  to_vec (VObject
    [("connection_generation"%string, json_option json_u64 (dp_connection_generation (tv_dispatch v)));
     ("invocation_id"%string, json_id (ti_invocation_id i));
     ("operation_id"%string, json_id (ti_operation_id i));
     ("participant_id"%string, json_id (ti_participant_id i));
     ("phase"%string, VString (tool_phase_name (tv_phase v)));
     ("registration_id"%string, json_id (tv_registration_id v));
     ("request_id"%string, json_id (ti_request_id i));
     ("revision"%string, json_u64 (Revision_get (tv_revision v)));
     ("schema_version"%string, json_u64 1);
     ("terminal_digest"%string, json_option (fun x => json_bytes (sd_bytes x)) (dp_terminal_digest (tv_dispatch v)));
     ("tool_name"%string, VString (as_str (ti_tool_name i)));
     ("tool_version"%string, VString (as_str (ti_tool_version i)))]).

(** A start checks the operation and the authority again, and uses up a single-use grant. *)
Definition authorize_tool_start (current : ToolInvocationSnapshot) (now : Timestamp) : Tx unit :=
  let i := tv_invocation current in
  if is_some (dp_cancellation_id (tv_dispatch current)) then abort Invalid else
  loaded ← load_participant_in (ti_participant_id i);
  participant ← lift (ok_or Invalid loaded);
  loaded ← load_operation_in (ti_operation_id i);
  operation ← lift (ok_or Invalid loaded);
  if neqb (ps_session_id participant) (ti_session_id i) || neqb (on_session_id operation) (ti_session_id i)
     || neqb (on_participant_id operation) (ps_participant_id participant) || neqb (on_state operation) OpRunning
  then abort Invalid else
  grant ← load_grant_of i;
  policy ← load_authority_policy_in (ti_participant_id i);
  let requested := MkScoped (td_required_authority (tv_definition current)) (ScopeOperation (ti_operation_id i)) in
  if negb (is_some (authorized_by policy (ti_participant_id i) (ti_session_id i) requested grant now) && unconsumed grant)
  then abort Invalid else
  match grant with
  | Some g => if gs_single_use g then update_grant_in (consumed g now) else mret tt
  | None => mret tt
  end.

(** The dispatch and the connection the command speaks for. *)
Definition speaks_for (c : TransitionToolInvocation) (current : ToolInvocationSnapshot) (connection : ConnectionCols)
    (generation : Z) : bool :=
  let dispatch := tv_dispatch current in
  eqb (tt_provider_id c) (dp_provider_id dispatch) && eqb (dp_connection_id dispatch) (Some (tt_connection_id c))
  && eqb (tt_dispatch_id c) (dp_dispatch_id dispatch) && (tt_server_sequence c =? dp_server_sequence dispatch)
  && negb (tt_connection_generation c =? 0) && eqb (cn_connection_id connection) (tt_connection_id c)
  && (generation =? tt_connection_generation c).

(** Both rows, the event and the record of one move. *)
Definition commit_tool_move (c : TransitionToolInvocation) (current : ToolInvocationSnapshot)
    (effect : EffectJournalEntry) (connection : ConnectionCols) (move : ToolMove) (now : Timestamp) :
    Tx ToolInvocationSnapshot :=
  revision ← lift (next_revision (tv_revision current));
  dispatch ← moved_dispatch c current connection;
  updated ← lift (with_dispatch current (mv_phase move) (mv_terminal move) revision dispatch);
  _ ← update_effect (with_revision (with_phase effect (mv_effect_phase move) (mv_effect_terminal move)) revision);
  generation ← lift (match dp_connection_generation dispatch with
                     | Some g => g ← to_i64 g; Ok (Some g) | None => Ok None end);
  cancellation_sequence ← lift (match dp_cancellation_server_sequence dispatch with
                     | Some n => n ← to_i64 n; Ok (Some n) | None => Ok None end);
  d ← get;
  row ← lift (ok_or Corrupt (db_tools d !! tt_invocation_id c));
  _ ← put_tool (tt_invocation_id c) (tool_row_with row updated generation (dp_cancellation_id dispatch)
        cancellation_sequence (sd_bytes <$> dp_terminal_digest dispatch));
  _ ← append_event_data (rc_request_id (tt_context c)) (ti_session_id (tv_invocation current)) revision
        (mv_event move) (tool_invocation_event_payload updated) now;
  _ ← record_tool_mutation c updated;
  mret updated.

Definition recorded_tool_mutation (c : TransitionToolInvocation) : Tx (option ToolInvocationSnapshot) :=
  d ← get;
  match db_tool_mutations d !! rc_request_id (tt_context c) with
  | None => mret None
  | Some row =>
      if neqb (tm_invocation_id row) (tt_invocation_id c) || neqb (tm_caller_host_id row) (rc_caller (tt_context c))
         || neqb (tm_semantic_digest row) (sd_bytes (mr_digest c))
      then abort (RequestConflict (rc_request_id (tt_context c)))
      else v ← lift (decode_tool_snapshot (tm_result row)); mret (Some v)
  end.

Definition requested_terminal (t : ToolTransition) : option ToolTerminal :=
  match t with TtComplete v => Some (TtmCompleted v) | TtFail v => Some (TtmFailed v) | _ => None end.
Definition is_start (t : ToolTransition) : bool := match t with TtStart => true | _ => false end.
Definition is_cancel (t : ToolTransition) : bool := match t with TtRequestCancel _ => true | _ => false end.

Definition transition_tool (observed : Timestamp) (c : TransitionToolInvocation) : Tx ToolInvocationSnapshot :=
  let request_id := rc_request_id (tt_context c) in
  recorded ← recorded_tool_mutation c;
  match recorded with
  | Some snapshot =>
      loaded ← load_tool_invocation_in (tt_invocation_id c);
      current ← lift (ok_or Corrupt loaded);
      _ ← lift (validate_tool_transition_replay c snapshot current);
      mret snapshot
  | None =>
  _ ← reject_global_request_collision request_id;
  _ ← reject_effect_request_collision request_id;
  _ ← reject_recovery_request_collision request_id;
  loaded ← load_tool_invocation_in (tt_invocation_id c);
  current ← lift (ok_or Invalid loaded);
  let i := tv_invocation current in
  now ← enter_owned (ti_session_id i) ActTransitionToolInvocation (rc_caller (tt_context c)) (tt_owner_epoch c) observed;
  if neqb (tv_revision current) (tt_expected_revision c) then abort Invalid else
  loaded ← load_effect_in (ti_request_id i);
  effect ← lift (ok_or Corrupt loaded);
  if neqb (ee_owner_epoch effect) (tt_owner_epoch c) then abort Invalid else
  d ← get;
  connection ← lift (ok_or Invalid (db_connections d !! (ti_session_id i, tt_provider_id c)));
  generation ← lift (to_u64 (cn_generation connection));
  if negb (speaks_for c current connection generation) then abort Invalid else
  _ ← (if is_start (tt_transition c) then authorize_tool_start current now else mret tt);
  if is_cancel (tt_transition c) && eqb (td_cancellation (tv_definition current)) UnsupportedCancellation
  then abort Invalid else
  if negb (pending_phase (tv_phase current))
  then if neqb (requested_terminal (tt_transition c)) (tv_terminal current)
       then abort (RequestConflict request_id)
       else _ ← record_tool_mutation c current; mret current
  else
  move ← lift (tool_move current effect (tt_transition c));
  commit_tool_move c current effect connection move now
  end.

(** ** Reads *)

Definition load_tool_invocation (id : ToolInvocationId) : Tx (option ToolInvocationSnapshot) := load_tool_invocation_in id.

Definition load_tool_invocation_by_approval_effect (effect_id : RequestId) : Tx (option ToolInvocationSnapshot) :=
  d ← get;
  match List.filter (fun e => bool_decide (ti_approval_effect_id (tv_invocation (tc_snapshot e.2)) = Some effect_id))
          (map_to_list (db_tools d)) with
  | [] => mret None
  | [(id, _)] =>
      loaded ← load_tool_invocation_in id;
      snapshot ← lift (ok_or Corrupt loaded);
      if neqb (ti_approval_effect_id (tv_invocation snapshot)) (Some effect_id) then abort Corrupt
      else mret (Some snapshot)
  | _ => abort Corrupt
  end.

(** The invocations with these identities; each read is its own transaction. *)
Fixpoint load_all_tools (check : ToolInvocationSnapshot -> bool) (ids : list ToolInvocationId) :
    Tx (list ToolInvocationSnapshot) :=
  match ids with
  | [] => mret []
  | id :: ids =>
      loaded ← load_tool_invocation_in id;
      value ← lift (ok_or Corrupt loaded);
      if negb (check value) then abort Corrupt else
      values ← load_all_tools check ids;
      mret (value :: values)
  end.
Definition tool_rows_where (d : Db) (p : ToolCols -> bool) : list (ToolInvocationId * ToolCols) :=
  List.filter (fun e => p e.2) (map_to_list (db_tools d)).
Definition tool_key_le (a b : ToolInvocationId * ToolCols) : Prop := Id_le a.1 b.1.
#[global] Instance tool_key_le_dec : RelDecision tool_key_le.
Proof. intros a b. unfold tool_key_le. apply _. Defined.
Definition tool_sequence_le (a b : ToolInvocationId * ToolCols) : Prop :=
  tc_server_sequence a.2 <= tc_server_sequence b.2.
#[global] Instance tool_sequence_le_dec : RelDecision tool_sequence_le.
Proof. intros a b. unfold tool_sequence_le. apply _. Defined.

Definition list_recoverable_tool_invocations (session_id : SessionId) : Tx (list ToolInvocationSnapshot) :=
  d ← get;
  let ids := (merge_sort tool_key_le (tool_rows_where d (fun row =>
    eqb (tc_session_id row) session_id && pending_phase (tv_phase (tc_snapshot row))))).*1 in
  if 16384 <? llen ids then abort Invalid else load_all_tools (fun _ => true) ids.
Definition list_provider_replay (session_id : SessionId) (provider_id : ToolProviderId) (after : Z) :
    Tx (list ToolInvocationSnapshot) :=
  bound ← lift (to_i64 after);
  d ← get;
  let ids := (merge_sort tool_sequence_le (tool_rows_where d (fun row =>
    eqb (tc_session_id row) session_id && eqb (tc_provider_id row) provider_id
    && (pending_phase (tv_phase (tc_snapshot row)) || (bound <? tc_server_sequence row))))).*1 in
  if 16384 <? llen ids then abort Invalid else
  load_all_tools (fun v => eqb (ti_session_id (tv_invocation v)) session_id
                           && eqb (dp_provider_id (tv_dispatch v)) provider_id) ids.

Definition load_tool_registration (session_id : SessionId) (registration_id : ToolRegistrationId) :
    Tx (option ToolRegistrationSnapshot) :=
  d ← get;
  match List.find (fun e => eqb e.1.1.1 session_id && eqb (tg_registration_id e.2) registration_id)
          (map_to_list (db_registrations d)) with
  | None => mret None
  | Some ((_, name, version), _) =>
      loaded ← load_tool_registration_in session_id name version;
      value ← lift (ok_or Corrupt loaded);
      if neqb (rg_registration_id value) registration_id then abort Corrupt else mret (Some value)
  end.

(** [ORDER BY tool_name COLLATE BINARY, tool_version COLLATE BINARY]. *)
Definition registration_key_le (a b : (SessionId * string * string) * RegistrationCols) : Prop :=
  String.ltb a.1.1.2 b.1.1.2 = true \/ (a.1.1.2 = b.1.1.2 /\ String.leb a.1.2 b.1.2 = true).
#[global] Instance registration_key_le_dec : RelDecision registration_key_le.
Proof. intros a b. unfold registration_key_le. apply _. Defined.
Fixpoint load_all_registrations (session_id : SessionId) (keys : list (SessionId * string * string)) :
    Tx (list ToolRegistrationSnapshot) :=
  match keys with
  | [] => mret []
  | (_, name, version) :: keys =>
      loaded ← load_tool_registration_in session_id name version;
      value ← lift (ok_or Corrupt loaded);
      values ← load_all_registrations session_id keys;
      mret (value :: values)
  end.
Definition list_tool_registrations (session_id : SessionId) : Tx (list ToolRegistrationSnapshot) :=
  d ← get;
  let keys := (merge_sort registration_key_le
    (filter (fun e => e.1.1.1 = session_id) (map_to_list (db_registrations d)))).*1 in
  if 64 <? llen keys then abort Invalid else load_all_registrations session_id keys.
End store.
