(* ===== verification/SqliteResolve.v ===== *)
(** * SqliteResolve: resolving an uncertain effect with authority

    Models [resolve_authorized_effect] and [validate_authorized_effect_replay] of
    crates/navigator-store-sqlite/src/store.rs.  An effect whose outcome is unknown is
    settled, or allowed to run again, by a decision that the participant's policy and a
    grant authorize and whose proof the effect's contract accepts; the invocation of a
    tool is settled in the same transaction. *)
From S2P Require Import Prelude Scalars Session Authority Operation RecoveryTable Artifact Capacity Json Tool StoreApi StoreWire.
From S2P Require Import Approval Template Message OperationApi ToolApi EffectApi SqliteDb SqliteSession SqliteMailbox.
From S2P Require Import SqliteOperation SqliteEffect SqliteTool.

(** The contract accepts the decision's proof. *)
Definition resolution_allowed (contract : EffectResolutionContract) (r : UncertaintyResolution) : bool :=
  match r with
  | ConfirmCompleted proof => allows_completion_proof contract (ep_kind proof)
  | DoNotRetry => allow_do_not_retry contract
  | RetryWithEffectProof proof => allows_retry_proof contract (ep_kind proof)
  end.
Definition resolved_phase (r : UncertaintyResolution) : EffectJournalPhase :=
  match r with
  | ConfirmCompleted _ => JCompleted | DoNotRetry => JFailed | RetryWithEffectProof _ => JRetryAuthorized
  end.
Definition resolution_name (r : UncertaintyResolution) : string :=
  match r with
  | ConfirmCompleted _ => "confirm_completed" | DoNotRetry => "do_not_retry"
  | RetryWithEffectProof _ => "retry_with_effect_proof"
  end.

Section store.
Context {TL : TimeLib} {TA : TimeArith} {SH : Sha256} {JS : Json} {UT : UuidText}.

(** [BoundedBytes::new(Vec::new()).expect(..)] and [BoundedText::new(..).expect(..)]. *)
Definition redacted_result : BoundedBytes MAX_EFFECT_RESULT_BYTES := MkBoundedBytes [].
Definition do_not_retry_failure : BoundedText MAX_EFFECT_FAILURE_ID_BYTES := MkBoundedText "effect.do_not_retry".

Definition ten_seconds : Duration := MkDuration 10000000000.
Definition resolved_effect (e : EffectJournalEntry) (c : ResolveAuthorizedEffect) (now : Timestamp) :
    result StoreError EffectJournalEntry :=
  match ru_resolution (ra_decision c) with
  | ConfirmCompleted _ => Ok (with_phase e JCompleted (Some (EtCompleted redacted_result)))
  | DoNotRetry => Ok (with_phase e JFailed (Some (EtFailed do_not_retry_failure)))
  | RetryWithEffectProof _ =>
      expires ← effect_expiry now ten_seconds;
      Ok (with_owner (with_phase e JRetryAuthorized None) (rc_caller (ra_context c)) (ra_owner_epoch c) expires)
  end.

(** The terminal the tool's invocation gets; a retry of a tool needs a new invocation. *)
Definition resolved_tool (current : ToolInvocationSnapshot) (r : UncertaintyResolution) (terminal : option ToolTerminal) :
    result StoreError (ToolInvocationPhase * ToolTerminal) :=
  match r, terminal with
  | ConfirmCompleted _, Some (TtmCompleted result) =>
      _ ← map_err (fun _ => Invalid) (validate_output (tv_definition current) (cj_as_bytes (tr_output result)));
      Ok (TpCompleted, TtmCompleted result)
  | DoNotRetry, Some (TtmFailed failure) => Ok (TpFailed, TtmFailed failure)
  | _, _ => Err Invalid
  end.
Definition settle_tool (c : ResolveAuthorizedEffect) (revision : Revision) : Tx unit :=
  d ← get;
  match find_row (fun r => eqb (tc_effect_request_id r) (ra_effect_request_id c)) (db_tools d) with
  | None => if is_some (ra_tool_terminal c) then abort Invalid else mret tt
  | Some (id, row) =>
      current ← lift (decode_tool_snapshot (tc_snapshot row));
      if neqb (tv_phase current) TpUncertain || neqb (ti_invocation_id (tv_invocation current)) id
      then abort Corrupt else
      settled ← lift (resolved_tool current (ru_resolution (ra_decision c)) (ra_tool_terminal c));
      let dispatch := set_terminal_digest (tv_dispatch current) (tool_terminal_digest settled.2) in
      updated ← lift (with_dispatch current settled.1 (Some settled.2) revision dispatch);
      put_tool id (tool_row_with row updated (tc_connection_generation row) (tc_cancellation_id row)
        (tc_cancellation_server_sequence row) (sd_bytes <$> dp_terminal_digest dispatch))
  end.

(** The audit record; the keys in the order the printed map keeps them. *)
Definition audit_json (c : ResolveAuthorizedEffect) (e : EffectJournalEntry) (operation : OperationId) : Value :=
  let r := ru_resolution (ra_decision c) in
  let digest_json (x : SemanticDigest) := json_bytes (sd_bytes x) in
  VObject
    [("assertion_digest"%string, digest_json (assertion_digest c (ee_semantic_digest e)));
     ("effect_request_id"%string, json_id (ra_effect_request_id c));
     ("effect_semantic_digest"%string, digest_json (ee_semantic_digest e));
     ("operation_id"%string, json_id operation);
     ("participant_id"%string, json_id (ra_participant_id c));
     ("proof_digest"%string, json_option (fun p => json_bytes (ep_digest p)) (resolution_proof r));
     ("proof_kind"%string, json_option (fun p => VString (proof_kind_name (ep_kind p))) (resolution_proof r));
     ("reason"%string, VString "redacted");
     ("reason_digest"%string, digest_json (SemanticDigest_v1 (MkCapability "effect.resolution.reason.v1")
                                              (bytes_of_string (as_str (ru_reason (ra_decision c))))));
     ("resolution"%string, VString (resolution_name r))].

Definition validate_authorized_effect_replay (c : ResolveAuthorizedEffect) (recorded : AuthorizedEffectResolution) : Tx unit :=
  loaded ← load_effect_in (ra_effect_request_id c);
  effect ← lift (ok_or Corrupt loaded);
  let e := ax_effect_entry recorded in
  let o := ax_current_operation recorded in
  let r := ru_resolution (ra_decision c) in
  if neqb (ee_request_id e) (ra_effect_request_id c) || neqb (ee_session_id e) (ra_session_id c)
     || neqb (ee_participant_id e) (ra_participant_id c)
     || neqb (ee_operation_id e) (ru_operation_id (ra_decision c)) || neqb e effect
     || neqb (on_operation_id o) (ru_operation_id (ra_decision c)) || neqb (on_session_id o) (ra_session_id c)
     || neqb (on_participant_id o) (ra_participant_id c)
  then abort Corrupt else
  if neqb (ee_phase e) (resolved_phase r) then abort Corrupt else
  d ← get;
  match find_row (fun r => eqb (tc_effect_request_id r) (ra_effect_request_id c)) (db_tools d), ra_tool_terminal c with
  | Some (id, _), Some terminal =>
      loaded ← load_tool_invocation_in id;
      tool ← lift (ok_or Corrupt loaded);
      if neqb (ti_request_id (tv_invocation tool)) (ra_effect_request_id c)
         || neqb (tv_terminal tool) (Some terminal)
         || negb (match r, tv_phase tool with
                  | ConfirmCompleted _, TpCompleted | DoNotRetry, TpFailed => true | _, _ => false end)
      then abort Corrupt else mret tt
  | None, None => mret tt
  | _, _ => abort Corrupt
  end.

Definition resolve_authorized_effect (observed : Timestamp) (c : ResolveAuthorizedEffect) :
    Tx (Mutation AuthorizedEffectResolution) :=
  let request_id := rc_request_id (ra_context c) in
  _ ← reject_global_request_collision request_id;
  _ ← reject_recovery_request_collision request_id;
  _ ← reject_effect_identity_collision request_id (ra_effect_request_id c);
  recorded ← recorded_mutation (ra_context c) (ra_effect_request_id c) (mr_digest c);
  match recorded with
  | Some (EfrResolution value) => _ ← validate_authorized_effect_replay c value; mret (Replayed value)
  | Some (EfrEntry _) => abort Corrupt
  | None =>
  now ← enter_owned (ra_session_id c) ActResolveAuthorizedEffect (rc_caller (ra_context c)) (ra_owner_epoch c) observed;
  loaded ← load_effect_in (ra_effect_request_id c);
  effect ← lift (ok_or Invalid loaded);
  loaded ← load_operation_in (ru_operation_id (ra_decision c));
  operation ← lift (ok_or Invalid loaded);
  if neqb (ee_phase effect) JUncertain || neqb (ee_revision effect) (ra_expected_effect_revision c)
     || neqb (ee_session_id effect) (ra_session_id c) || neqb (ee_participant_id effect) (ra_participant_id c)
     || neqb (ee_operation_id effect) (on_operation_id operation) || neqb (on_session_id operation) (ra_session_id c)
     || neqb (on_participant_id operation) (ra_participant_id c) || neqb (on_state operation) OpUncertain
  then abort Invalid else
  policy ← load_authority_policy_in (ra_participant_id c);
  loaded ← load_grant_in (ra_grant_id c);
  grant ← lift (ok_or Invalid loaded);
  let requested := MkScoped (MkCapability "effect.resolve_uncertainty") (ScopeOperation (on_operation_id operation)) in
  decision ← lift (match authorized_by policy (ra_participant_id c) (ra_session_id c) requested (Some grant) now with
                   | Some decision => if is_none (gs_consumed_at grant) then Ok decision else Err Invalid
                   | None => Err Invalid end);
  if negb (resolution_allowed (ee_resolution_contract effect) (ru_resolution (ra_decision c))) then abort Invalid else
  effect ← lift (resolved_effect effect c now);
  effect ← commit_entry effect;
  _ ← settle_tool c (ee_revision effect);
  _ ← (if gs_single_use grant then update_grant_in (consumed grant now) else mret tt);
  _ ← append_event_data request_id (ra_session_id c) (ee_revision effect) "effect.uncertainty_resolved"
        (to_vec (audit_json c effect (on_operation_id operation))) now;
  d ← get;
  position ← lift (to_u64 (max_position (session_events (ra_session_id c) (db_events d))));
  position ← lift (corrupt (EventPosition_new position));
  let outcome := MkAuthorizedResolution effect operation position (AuthorityDecisionWire_from decision) in
  _ ← insert_effect_mutation (ra_context c) (ra_effect_request_id c) (mr_digest c) (EfrResolution outcome);
  mret (Applied outcome)
  end.
End store.
