(* ===== verification/MailboxLedger.v ===== *)
(** * MailboxLedger: what one mailbox transaction does

    The delivery automaton of a single message ([state_step]) and the contract every
    handler of SqliteMailbox.v implements ([mail_change]): it leaves the mailbox tables
    alone, inserts one queued message with its accounting, or moves one message by one
    step of the automaton with its accounting.  Handlers are verified with a
    weakest-precondition calculus for transactions. *)
From S2P Require Import Prelude Scalars Session Authority Operation Capacity Json StoreApi StoreWire.
From S2P Require Import Approval Template Message OperationApi SqliteDb SqliteSession SessionLedger Ownership SqliteMailbox.

(** ** Weakest preconditions *)

(** [Q] of the result and the database when the transaction commits, [F] of the
    database when it commits a recorded failure; a rollback owes nothing. *)
Definition wp {A} (m : Tx A) (Q : A -> Db -> Prop) (F : Db -> Prop) (d : Db) : Prop :=
  match m d with Next a d' => Q a d' | Finished d' _ => F d' | Abort _ => True end.

Section wp.
Context {A B : Type} (Q : A -> Db -> Prop) (F : Db -> Prop) (d : Db).

Lemma wp_bind (m : Tx B) (f : B -> Tx A) : wp m (fun b d1 => wp (f b) Q F d1) F d -> wp (m ≫= f) Q F d.
Proof. unfold wp, mbind, tx_bind. by destruct (m d). Qed.
Lemma wp_ret (a : A) : Q a d -> wp (mret a) Q F d.
Proof. done. Qed.
Lemma wp_lift (r : result StoreError A) : (forall a, r = Ok a -> Q a d) -> wp (lift r) Q F d.
Proof. unfold wp, lift. destruct r; eauto. Qed.
Lemma wp_abort e : wp (abort e : Tx A) Q F d.
Proof. done. Qed.
Lemma wp_mono (m : Tx A) (Q' : A -> Db -> Prop) (F' : Db -> Prop) :
  wp m Q' F' d -> (forall a d', Q' a d' -> Q a d') -> (forall d', F' d' -> F d') -> wp m Q F d.
Proof. unfold wp. destruct (m d); eauto. Qed.
End wp.
Lemma wp_get (Q : Db -> Db -> Prop) F d : Q d d -> wp get Q F d.
Proof. done. Qed.
Lemma wp_put Q F d d' : Q tt d' -> wp (put d') Q F d.
Proof. done. Qed.

(** The same from the equations of the transaction, for helpers that never commit a
    failure. *)
Lemma wp_quiet {A} (m : Tx A) (Q : A -> Db -> Prop) F d :
  quiet m -> (forall a d', m d = Next a d' -> Q a d') -> wp m Q F d.
Proof. unfold wp. intros Hq HQ. destruct (m d) eqn:E; [eauto|done|by apply Hq in E]. Qed.

Create HintDb wp.
Ltac wp_auto :=
  repeat (lazymatch goal with
  | |- wp (let _ := _ in _) _ _ _ => cbv zeta
  | |- wp (_ ≫= _) _ _ _ => apply wp_bind
  | |- wp (mret _) _ _ _ => apply wp_ret
  | |- wp (lift _) _ _ _ => apply wp_lift; intros ? ?
  | |- wp (abort _) _ _ _ => apply wp_abort
  | |- wp get _ _ _ => apply wp_get
  | |- wp (put _) _ _ _ => apply wp_put
  end).

(** ** Tables the mailbox handlers share with others *)

(** The mailbox tables and the sessions are untouched. *)
Definition same_mail (d d' : Db) : Prop :=
  db_messages d' = db_messages d /\ db_counters d' = db_counters d /\ db_sessions d' = db_sessions d.
#[global] Instance same_mail_refl : Reflexive same_mail.
Proof. by intros d. Qed.
#[global] Instance same_mail_trans : Transitive same_mail.
Proof. intros a b c (?&?&?) (?&?&?). unfold same_mail. split_and!; congruence. Qed.

Section store.
Context {TL : TimeLib} {TA : TimeArith} {SH : Sha256} {JS : Json} {UT : UuidText}.
Variable max_lease_millis : Z.
Variable limit_profile : LimitProfile.

Lemma wp_append rid sid rev ty data now (Q : unit -> Db -> Prop) F d :
  (forall d', same_mail d d' -> Q tt d') -> wp (append_event_data rid sid rev ty data now) Q F d.
Proof.
  intros HQ. apply wp_quiet; [apply quiet_append|]. intros [] d' H.
  apply append_event_data_Next in H as [_ ->]. by apply HQ.
Qed.
Lemma wp_message_event rid m now (Q : unit -> Db -> Prop) F d :
  (forall d', same_mail d d' -> Q tt d') -> wp (append_message_event rid m now) Q F d.
Proof. apply wp_append. Qed.
Lemma wp_record {C} `{!MutableRequest C} sid (c : C) eff r (Q : unit -> Db -> Prop) F d :
  (forall d', same_mail d d' -> Q tt d') -> wp (record_bytes sid c eff r) Q F d.
Proof.
  intros HQ. apply wp_quiet; [apply quiet_insert_ledger|]. intros [] d' H.
  apply insert_ledger_Next in H as [_ ->]. by apply HQ.
Qed.
Lemma wp_finish {C A} `{!MutableRequest C} sid (c : C) e (Q : A -> Db -> Prop) (F : Db -> Prop) d :
  (forall d', same_mail d d' -> F d') -> wp (finish_failure sid c e) Q F d.
Proof.
  intros HF. unfold wp. destruct (finish_failure sid c e d) as [a d'|e'|d' e'] eqn:E; [|done|].
  - by apply finish_failure_Next in E.
  - apply finish_failure_Finished in E as (_ & _ & ->). by apply HF.
Qed.
Lemma wp_replay {C} `{!MutableRequest C} (c : C) (Q : option (option MessageSnapshot) -> Db -> Prop) F d :
  (forall o, Q o d) -> wp (replay_json_message c) Q F d.
Proof.
  intros HQ. unfold replay_json_message. apply wp_bind, wp_quiet; [apply quiet_replay_bytes|].
  intros o d' H. apply replay_bytes_Next in H as [-> _].
  destruct o as [[]|]; wp_auto; auto.
Qed.
Lemma wp_load_operation id (Q : option OperationSnapshot -> Db -> Prop) F d :
  (forall o, Q o d) -> wp (load_operation_in id) Q F d.
Proof. intros HQ. unfold load_operation_in. wp_auto. destruct (_ !! _); wp_auto; auto. Qed.
Lemma wp_load_message id (Q : option MessageSnapshot -> Db -> Prop) F d :
  (db_messages d !! id = None -> Q None d) ->
  (forall r m, db_messages d !! id = Some r -> decode_message_row id r = Ok m -> Q (Some m) d) ->
  wp (load_message_in id) Q F d.
Proof. intros HN HS. unfold load_message_in. wp_auto. destruct (_ !! _) eqn:E; wp_auto; eauto. Qed.
Lemma wp_capacity sid res n (Q : unit -> Db -> Prop) F d :
  Q tt d -> wp (ensure_derived_capacity limit_profile sid res n) Q F d.
Proof. intros HQ. unfold ensure_derived_capacity. wp_auto. repeat (case_match; wp_auto; try done). Qed.

(** ** Authorization *)

(** The session's clock floor has moved to the store's time [t] of a call at [now]. *)
Definition clocked (sid : SessionId) (now t : Timestamp) (d d' : Db) : Prop :=
  exists c, db_sessions d !! sid = Some c /\ t = store_time c now /\
    db_sessions d' = <[sid := cols_set_floor t c]> (db_sessions d).

(** The caller owns the session under this epoch at time [t]. *)
Definition owns (sid : SessionId) (h : HostId) (e : FencingEpoch) (t : Timestamp) (d : Db) : Prop :=
  exists c x, db_sessions d !! sid = Some c /\ held c h e x /\ Timestamp_lt t x.

Lemma wp_authorize sid ctx e act now (Q : result StoreError unit -> Db -> Prop) F d :
  (forall err, Q (Err err) d) ->
  (forall t d' r, clocked sid now t d d' -> d' = set_sessions d (db_sessions d') ->
     (r = Ok tt -> owns sid (rc_caller ctx) e t d) -> Q r d') ->
  wp (authorize_launch sid ctx e act now) Q F d.
Proof.
  intros HE HO. unfold authorize_launch. wp_auto. unfold wp, catch.
  destruct (require_open_session sid act d) as [row d0|err|d0 err] eqn:E.
  - apply require_open_session_Next in E as (-> & c & Hc & Hrow & _). apply decode_session_Ok in Hrow.
    pose proof Hrow as (_ & _ & _ & _ & _ & _ & _ & _ & _ & Hown & _ & Hfl).
    change (wp (t ← advance_time_floor sid (sr_time_floor row) now; mret (require_owner row (rc_caller ctx) e t)) Q F d).
    apply wp_bind, wp_quiet; [apply quiet_advance|]. intros t d' H.
    apply advance_time_floor_Next in H as [-> ->]. unfold advance. rewrite Hc, Hfl. wp_auto. apply HO with (t := store_time c now).
    + exists c. split_and!; done.
    + done.
    + intros Hr. destruct (require_owner_Ok _ _ _ _ _ Hr) as (l & Hl & He & Ho & Hlt).
      unfold owns. destruct (sr_owner row) as [l'|]; [|done]. injection Hl as ->. eexists c, _. split; [done|].
      split; [|exact Hlt]. destruct Hown as [_ Hown]. rewrite <-He, <-Ho. exact Hown.
  - apply HE.
  - by apply quiet_require_open_session in E.
Qed.

Lemma wp_session_time sid (Q : Timestamp -> Db -> Prop) F d :
  (forall c, db_sessions d !! sid = Some c -> Q (sc_time_floor c) d) -> wp (session_time sid) Q F d.
Proof.
  intros HQ. unfold session_time. apply wp_bind, wp_quiet; [apply quiet_load_session_in|].
  intros o d' H. apply load_session_in_Next in H as [-> H]. wp_auto.
  match goal with H1 : ok_or _ _ = Ok _ |- _ => apply ok_or_Ok in H1 as -> end.
  destruct (db_sessions d !! sid) as [c|]; [|done]. destruct H as (row & Hrow & [= ->]).
  apply decode_session_Ok in Hrow as (_ & _ & _ & _ & _ & _ & _ & _ & _ & _ & _ & ->). by apply HQ.
Qed.

(** ** The delivery automaton of one message *)

Inductive state_step (now : Timestamp) (m : MessageSnapshot) : Z -> MessageDeliveryState -> Prop :=
| st_lease l : eligible now m = true -> ms_attempt_count m < MAX_DELIVERY_ATTEMPTS ->
    Timestamp_lt now (dl_expires_at l) -> state_step now m (ms_attempt_count m + 1) (MsLeased l)
| st_exhausted reason : eligible now m = true -> MAX_DELIVERY_ATTEMPTS <= ms_attempt_count m ->
    state_step now m (ms_attempt_count m) (MsDeadLetter reason)
| st_takeover l l' s : (ms_state m = MsAcceptancePending l /\ s = MsAcceptancePending l') \/
      (ms_state m = MsAcceptanceUnknown l /\ s = MsAcceptanceUnknown l') ->
    Timestamp_le (dl_expires_at l) now -> dl_attempt_id l' = dl_attempt_id l ->
    Timestamp_lt now (dl_expires_at l') -> state_step now m (ms_attempt_count m) s
| st_pending l : ms_state m = MsLeased l -> Timestamp_lt now (dl_expires_at l) ->
    state_step now m (ms_attempt_count m) (MsAcceptancePending l)
| st_unknown l : ms_state m = MsAcceptancePending l ->
    state_step now m (ms_attempt_count m) (MsAcceptanceUnknown l)
| st_retry t : awaits_acceptance (ms_state m) = true -> Timestamp_le now t ->
    state_step now m (ms_attempt_count m) (MsRetryScheduled t)
| st_accepted l proof : awaits_acceptance (ms_state m) = true -> state_lease (ms_state m) = Some l ->
    state_step now m (ms_attempt_count m) (MsAccepted (dl_attempt_id l) proof now)
| st_uncertain l reason : awaits_acceptance (ms_state m) = true -> state_lease (ms_state m) = Some l ->
    state_step now m (ms_attempt_count m) (MsUncertain (dl_attempt_id l) reason)
| st_dead reason : delivery_is_terminal (ms_state m) = false ->
    state_step now m (ms_attempt_count m) (MsDeadLetter reason).

Definition delivery_step (now : Timestamp) (m m' : MessageSnapshot) : Prop :=
  exists attempts state revision, Revision_next (ms_revision m) = Some revision /\
    m' = set_delivery m attempts state revision now /\ state_step now m attempts state.

(** ** The contract of a mailbox transaction *)

(** A message in flight: it awaits the result of an acceptance, or its lease is still
    effective. *)
Definition busy (floor : Timestamp) (m : MessageSnapshot) : bool :=
  awaits_acceptance (ms_state m) || active_lease floor m.

(** The clock floor of a session. *)
Definition floor_of (d : Db) (sid : SessionId) : option Timestamp := sc_time_floor <$> db_sessions d !! sid.

Definition message_row (m : MessageSnapshot) (sequence : Z) : MessageRow :=
  MkMessageRow (ms_session_id m) (ms_source m) (ms_destination m) sequence (priority_column (ms_priority m)) m.
Definition with_snapshot (r : MessageRow) (m : MessageSnapshot) : MessageRow :=
  MkMessageRow (mg_session_id r) (mg_source r) (mg_destination r) (mg_mailbox_sequence r) (mg_priority r) m.
Definition envelope_size (m : MessageSnapshot) : Z := llen (envelope_as_bytes (ms_envelope m)).

(** A message as it enters a mailbox. *)
Definition fresh_message (m : MessageSnapshot) : Prop :=
  ms_state m = MsQueued /\ ms_attempt_count m = 0 /\ ms_updated_at m = ms_created_at m /\
  ms_priority m = priority_for (envelope_kind (ms_envelope m)) /\ ms_revision m = Revision_initial.

(** The accounting of an insertion. *)
Definition counted (reserve_bytes reserve_messages : Z) (c : CounterCols) (m : MessageSnapshot) (c' : CounterCols) : Prop :=
  0 < ct_next_sequence c < i64_max /\ 0 <= ct_queued_bytes c /\ 0 <= ct_queued_messages c /\
  ct_queued_bytes c + envelope_size m <= MAX_MAILBOX_QUEUED_BYTES + reserve_bytes /\
  ct_queued_messages c + 1 <= MAX_MAILBOX_QUEUED_MESSAGES + reserve_messages /\
  c' = MkCounter (ct_next_sequence c + 1) (ct_queued_bytes c + envelope_size m) (ct_queued_messages c + 1).

(** The accounting of a step: an open message stays counted, an ended one is not. *)
Definition discounted (d : Db) (m' : MessageSnapshot) (d' : Db) : Prop :=
  if delivery_is_terminal (ms_state m')
  then exists c, db_counters d !! ms_destination m' = Some c /\
    envelope_size m' <= ct_queued_bytes c /\ 0 < ct_queued_messages c /\
    db_counters d' = <[ms_destination m' := MkCounter (ct_next_sequence c)
      (ct_queued_bytes c - envelope_size m') (ct_queued_messages c - 1)]> (db_counters d)
  else db_counters d' = db_counters d.

Inductive mail_change (d d' : Db) : Prop :=
| mail_same : db_messages d' = db_messages d -> db_counters d' = db_counters d -> mail_change d d'
| mail_insert m c' :
    db_messages d !! ms_message_id m = None -> fresh_message m ->
    (exists t, floor_of d' (ms_session_id m) = Some t /\ Timestamp_le (ms_created_at m) t) ->
    ms_mailbox_sequence m = ct_next_sequence (mailbox_counter d (ms_destination m)) ->
    counted MAX_MAILBOX_RESERVED_OUTCOME_BYTES MAX_MAILBOX_RESERVED_OUTCOMES
      (mailbox_counter d (ms_destination m)) m c' ->
    db_messages d' = <[ms_message_id m := message_row m (ms_mailbox_sequence m)]> (db_messages d) ->
    db_counters d' = <[ms_destination m := c']> (db_counters d) -> mail_change d d'
| mail_update id r m m' now :
    db_messages d !! id = Some r -> decode_message_row id r = Ok m -> delivery_step now m m' ->
    (floor_of d' (ms_session_id m) = Some now \/
     delivery_is_terminal (ms_state m') = true /\ Timestamp_le (ms_updated_at m) now) ->
    (forall l, ms_state m' = MsLeased l -> forall id' r', db_messages d !! id' = Some r' -> id' <> id ->
       mg_session_id r' = mg_session_id r -> mg_destination r' = mg_destination r ->
       busy now (mg_snapshot r') = false) ->
    db_messages d' = <[id := with_snapshot r m']> (db_messages d) -> discounted d m' d' -> mail_change d d'.

(** What a call at [now] does: a mailbox change, and to the sessions at most the
    advance of one clock floor. *)
Definition sessions_advance (now : Timestamp) (d d' : Db) : Prop :=
  db_sessions d' = db_sessions d \/ exists sid t, clocked sid now t d d'.
Definition mail_call (now : Timestamp) (d d' : Db) : Prop := mail_change d d' /\ sessions_advance now d d'.

(** ** Closing a call *)

(** The state of a handler after authorization: only the clock floor has moved, to [t]. *)
Definition entered (sid : SessionId) (now t : Timestamp) (d d1 : Db) : Prop :=
  clocked sid now t d d1 /\ db_messages d1 = db_messages d /\ db_counters d1 = db_counters d.

Lemma entered_same sid now t d d1 d2 : entered sid now t d d1 -> same_mail d1 d2 -> entered sid now t d d2.
Proof.
  intros ((c & Hc & Ht & Hs) & Hm & Hk) (H1 & H2 & H3). split_and!; [|congruence..]. exists c. split_and!; congruence.
Qed.
Lemma entered_floor sid now t d d1 d2 : entered sid now t d d1 -> db_sessions d2 = db_sessions d1 ->
  floor_of d2 sid = Some t.
Proof.
  intros ((c & Hc & Ht & Hs) & _) He. unfold floor_of. rewrite He, Hs, lookup_insert_eq. done.
Qed.
Lemma entered_advance sid now t d d1 d2 : entered sid now t d d1 -> db_sessions d2 = db_sessions d1 ->
  sessions_advance now d d2.
Proof.
  intros ((c & Hc & Ht & Hs) & _) He. right. exists sid, t, c. split_and!; [done..|congruence].
Qed.

Lemma call_refl now d d' : same_mail d d' -> mail_call now d d'.
Proof. intros (H1 & H2 & H3). split; [by apply mail_same | by left]. Qed.
Lemma call_same sid now t d d1 d2 : entered sid now t d d1 -> same_mail d1 d2 -> mail_call now d d2.
Proof.
  intros He (H1 & H2 & H3). pose proof He as (_ & Hm & Hk). split; [|by eapply entered_advance].
  apply mail_same; congruence.
Qed.
Lemma call_insert sid now t d d1 d2 m c' :
  entered sid now t d d1 -> ms_session_id m = sid -> ms_created_at m = t ->
  db_messages d1 !! ms_message_id m = None -> fresh_message m ->
  ms_mailbox_sequence m = ct_next_sequence (mailbox_counter d1 (ms_destination m)) ->
  counted MAX_MAILBOX_RESERVED_OUTCOME_BYTES MAX_MAILBOX_RESERVED_OUTCOMES
    (mailbox_counter d1 (ms_destination m)) m c' ->
  db_messages d2 = <[ms_message_id m := message_row m (ms_mailbox_sequence m)]> (db_messages d1) ->
  db_counters d2 = <[ms_destination m := c']> (db_counters d1) -> db_sessions d2 = db_sessions d1 ->
  mail_call now d d2.
Proof.
  intros He Hs Ht Hn Hf Hq Hc Hm Hk Hss. pose proof He as (_ & Em & Ek).
  assert (Ec : mailbox_counter d1 (ms_destination m) = mailbox_counter d (ms_destination m))
    by (unfold mailbox_counter; by rewrite Ek).
  split; [|by eapply entered_advance]. apply (mail_insert _ _ m c'); try congruence.
  exists t. subst. split; [|apply Timestamp_le_refl]. by eapply entered_floor.
Qed.
Lemma call_update sid now t d d1 d2 id r m m' :
  entered sid now t d d1 -> ms_session_id m = sid ->
  db_messages d1 !! id = Some r -> decode_message_row id r = Ok m -> delivery_step t m m' ->
  (forall l, ms_state m' = MsLeased l -> forall id' r', db_messages d1 !! id' = Some r' -> id' <> id ->
     mg_session_id r' = mg_session_id r -> mg_destination r' = mg_destination r ->
     busy t (mg_snapshot r') = false) ->
  db_messages d2 = <[id := with_snapshot r m']> (db_messages d1) -> discounted d1 m' d2 ->
  db_sessions d2 = db_sessions d1 -> mail_call now d d2.
Proof.
  intros He Hs Hr Hd Hst Hx Hm Hk Hss. pose proof He as (_ & Em & Ek).
  split; [|by eapply entered_advance]. apply (mail_update _ _ id r m m' t); rewrite <-?Em; try done.
  - left. subst. by eapply entered_floor.
  - unfold discounted in *. by rewrite <-Ek.
Qed.

(** Later statements on other tables do not matter. *)
Lemma call_then now d d1 d2 : mail_call now d d1 -> same_mail d1 d2 -> mail_call now d d2.
Proof.
  intros [Hc Ha] (M & C & S). assert (Hfl : forall sid, floor_of d2 sid = floor_of d1 sid)
    by (intros; unfold floor_of; by rewrite S). split.
  - destruct Hc as [A B|m c' H1 H2 H3 H4 H5 A B|id r m m' t H1 H2 H3 H4 H5 A B].
    + apply mail_same; congruence.
    + apply (mail_insert _ _ m c'); rewrite ?Hfl; congruence || done.
    + apply (mail_update _ _ id r m m' t); rewrite ?Hfl; try (congruence || done).
      unfold discounted in *. by rewrite C.
  - destruct Ha as [A|(sid & t & c & H1 & H2 & H3)]; [left; congruence|]. right. exists sid, t, c.
    split_and!; congruence.
Qed.

(** ** Statements *)

Lemma wp_update m (Q : unit -> Db -> Prop) F d :
  (forall r, db_messages d !! ms_message_id m = Some r ->
     Q tt (set_messages d (<[ms_message_id m := with_snapshot r m]> (db_messages d)))) ->
  wp (update_message_snapshot m) Q F d.
Proof. intros HQ. unfold update_message_snapshot. wp_auto. destruct (_ !! _) eqn:E; wp_auto. by apply HQ. Qed.

Lemma wp_decrement m (Q : unit -> Db -> Prop) F d :
  (forall c, db_counters d !! ms_destination m = Some c -> envelope_size m <= ct_queued_bytes c ->
     0 < ct_queued_messages c ->
     Q tt (set_counters d (<[ms_destination m := MkCounter (ct_next_sequence c)
       (ct_queued_bytes c - envelope_size m) (ct_queued_messages c - 1)]> (db_counters d)))) ->
  wp (decrement_mailbox_bytes m) Q F d.
Proof.
  intros HQ. unfold decrement_mailbox_bytes. wp_auto. unfold to_i64 in *. inv_result.
  destruct (db_counters d !! ms_destination m) as [c|] eqn:Ec; [|done]. case_if as Eb; [|done]. bool_norm.
  wp_auto. by apply HQ.
Qed.

Lemma decode_message_Ok id r m : decode_message_row id r = Ok m ->
  m = mg_snapshot r /\ id = ms_message_id m /\ mg_session_id r = ms_session_id m /\ mg_source r = ms_source m /\
  mg_destination r = ms_destination m /\ mg_mailbox_sequence r = ms_mailbox_sequence m /\
  mg_priority r = priority_column (ms_priority m) /\ is_structurally_valid m = true.
Proof.
  unfold decode_message_row, neqb, eqb. intros H. case_if_in H as E1; [discriminate H|].
  apply bind_Ok in H as (q & Hq & H). case_if_in H as E2; [discriminate H|]. injection H as <-.
  unfold to_i64 in Hq. inv_result. by split_and!.
Qed.

Lemma set_delivery_ids m a s rev t : let m' := set_delivery m a s rev t in
  ms_message_id m' = ms_message_id m /\ ms_destination m' = ms_destination m /\
  envelope_size m' = envelope_size m /\ ms_state m' = s.
Proof. done. Qed.

Lemma wp_insert m q (Q : unit -> Db -> Prop) F d :
  (db_messages d !! ms_message_id m = None -> 0 < q ->
     Q tt (set_messages d (<[ms_message_id m := message_row m q]> (db_messages d)))) ->
  wp (insert_message m q) Q F d.
Proof.
  intros HQ. unfold insert_message. wp_auto. case_if as E; [done|]. bool_norm. wp_auto. apply HQ; [|lia].
  match goal with H : is_some _ = false |- _ => by destruct (db_messages d !! ms_message_id m) end.
Qed.
Lemma wp_upsert p c (Q : unit -> Db -> Prop) F d :
  Q tt (set_counters d (<[p := c]> (db_counters d))) -> wp (upsert_counter p c) Q F d.
Proof. intros HQ. unfold upsert_counter. wp_auto. case_if as E; [done|]. by wp_auto. Qed.
Lemma wp_causal c (Q : bool -> Db -> Prop) F d : (forall b, Q b d) -> wp (body_is_causal c) Q F d.
Proof.
  intros HQ. unfold body_is_causal. destruct (env_body (eq_envelope c)); wp_auto; auto;
    try (apply wp_load_operation; intros ?; wp_auto; auto).
  case_match; wp_auto; auto. apply wp_load_operation. intros ?. case_match; wp_auto; auto.
  apply wp_load_message; intros; wp_auto; auto.
Qed.

(** ** The handlers *)

(** A call that was carried out was made by the owner of the session. *)
Definition by_owner (sid : SessionId) (ctx : RequestContext) (e : FencingEpoch) (now : Timestamp) (d : Db) : Prop :=
  exists c, db_sessions d !! sid = Some c /\ owns sid (rc_caller ctx) e (store_time c now) d.
Definition carried {T} (P : Prop) (m : Mutation T) : Prop := was_replayed m = false -> P.

(** The common prologue: authorization, and the store's time. *)
Lemma wp_authorized {C A} `{!MutableRequest C} (c : C) sid ctx e act now d
    (Q : A -> Db -> Prop) (F : Db -> Prop) (k : Tx A) :
  (forall d', mail_call now d d' -> F d') ->
  (forall t d1, entered sid now t d d1 -> d1 = set_sessions d (db_sessions d1) -> by_owner sid ctx e now d ->
     wp k Q F d1) ->
  wp (authorized ← authorize_launch sid ctx e act now;
      match authorized with Err error => finish_failure sid c error | Ok _ => k end) Q F d.
Proof.
  intros HF Hk. wp_auto. apply wp_authorize.
  - intros err. apply wp_finish. intros d' Hs. by apply HF, call_refl.
  - intros t d1 r Hc Hd1 Ho. assert (He : entered sid now t d d1) by (split; [done|]; by rewrite Hd1).
    destruct r as [[]|err].
    + apply (Hk t); [done..|]. destruct Hc as (c0 & Hc0 & -> & _). exists c0. eauto.
    + apply wp_finish. intros d' Hs. apply HF. by eapply call_same.
Qed.
Lemma wp_prologue {C A} `{!MutableRequest C} (c : C) sid ctx e act now d
    (Q : A -> Db -> Prop) (F : Db -> Prop) (k : Timestamp -> Tx A) :
  (forall d', mail_call now d d' -> F d') ->
  (forall t d1, entered sid now t d d1 -> by_owner sid ctx e now d -> wp (k t) Q F d1) ->
  wp (authorized ← authorize_launch sid ctx e act now;
      match authorized with
      | Err error => finish_failure sid c error
      | Ok _ => t ← session_time sid; k t
      end) Q F d.
Proof.
  intros HF Hk. apply wp_authorized; [done|]. intros t d1 He _ Ho. wp_auto. apply wp_session_time. intros c1 Hc1.
  pose proof (entered_floor _ _ _ _ _ _ He eq_refl) as Hf. unfold floor_of in Hf. rewrite Hc1 in Hf.
  injection Hf as ->. by apply Hk.
Qed.

Ltac close_call He := eapply call_same; [exact He|]; repeat (etrans; [|eassumption]); reflexivity.

(** The arithmetic of an insertion. *)
Lemma counted_of rb rm c m q nq n nn seq nx nq' nn' (E1 E2 : StoreError) :
  to_u64 (ct_queued_bytes c) = Ok q -> ok_or E1 (checked_add_u64 q (envelope_size m)) = Ok nq ->
  to_u64 (ct_queued_messages c) = Ok n -> ok_or E2 (checked_add_u64 n 1) = Ok nn ->
  (MAX_MAILBOX_QUEUED_BYTES + rb <? nq) || (MAX_MAILBOX_QUEUED_MESSAGES + rm <? nn) = false ->
  to_u64 (ct_next_sequence c) = Ok seq -> 0 < seq -> next_sequence seq = Ok nx ->
  to_i64 nq = Ok nq' -> to_i64 nn = Ok nn' ->
  seq = ct_next_sequence c /\ counted rb rm c m (MkCounter nx nq' nn').
Proof.
  unfold to_u64, to_i64, next_sequence, checked_add_u64, counted. intros H1 H2 H3 H4 H5 H6 H7 H8 H9 H10.
  repeat match goal with
  | H : context [if ?b then _ else _] |- _ => destruct b eqn:?; try discriminate H
  end. inv_result. injection H2 as <-. injection H4 as <-. split_and!; (done || lia).
Qed.

Lemma counted_more c m c' : counted 0 0 c m c' ->
  counted MAX_MAILBOX_RESERVED_OUTCOME_BYTES MAX_MAILBOX_RESERVED_OUTCOMES c m c'.
Proof.
  unfold counted, MAX_MAILBOX_RESERVED_OUTCOME_BYTES, MAX_MAILBOX_RESERVED_OUTCOMES.
  intros (?&?&?&?&?&?). split_and!; try done; lia.
Qed.

Lemma enqueue_call now c d :
  wp (enqueue_message limit_profile now c)
    (fun v d' => mail_call now d d' /\ carried (by_owner (eq_session_id c) (eq_context c) (eq_epoch c) now d) v)
    (mail_call now d) d.
Proof.
  unfold enqueue_message. wp_auto. apply wp_replay. intros [[m|]|]; [|done|].
  { wp_auto. split; [by apply call_refl | done]. }
  apply wp_prologue; [done|]. intros t d1 He Ho.
  wp_auto. apply wp_capacity. wp_auto. apply wp_capacity. wp_auto.
  case_if as E1. { apply wp_finish. intros. by eapply call_same. }
  wp_auto. apply wp_causal. intros causal.
  case_if as E2. { apply wp_finish. intros. by eapply call_same. }
  case_if as E3. { apply wp_finish. intros. by eapply call_same. }
  wp_auto. case_if as E4. { apply wp_finish. intros. by eapply call_same. }
  wp_auto. apply wp_insert. intros Hn Hq. wp_auto. apply wp_upsert. wp_auto. apply wp_message_event.
  intros d3 Hs3. wp_auto. apply wp_record. intros d4 Hs4. wp_auto. split; [|by intros _].
  destruct Hs3 as (M3 & C3 & S3), Hs4 as (M4 & C4 & S4).
  match type of Hn with _ !! ms_message_id ?m = _ => destruct (counted_of 0 0 (mailbox_counter d1 (eq_destination c)) m
    _ _ _ _ _ _ _ _ _ _ ltac:(eassumption) ltac:(eassumption) ltac:(eassumption) ltac:(eassumption)
    ltac:(rewrite !Z.add_0_r; eassumption) ltac:(eassumption) Hq ltac:(eassumption) ltac:(eassumption)
    ltac:(eassumption)) as [Hseq Hcnt];
    eapply (call_insert _ _ _ _ _ _ m) end; try done.
  - by apply counted_more.
  - by rewrite M4, M3.
  - by rewrite C4, C3.
  - by rewrite S4, S3.
Qed.

(** ** Selecting the message to lease *)

#[local] Instance mailbox_le_total : Total mailbox_le.
Proof. intros a b. unfold mailbox_le. lia. Qed.
#[local] Instance mailbox_le_trans : Transitive mailbox_le.
Proof. intros a b c. unfold mailbox_le. lia. Qed.

Lemma select_mailbox_elem d sid p id r :
  (id, r) ∈ select_mailbox d sid p <->
  db_messages d !! id = Some r /\ mg_session_id r = sid /\ mg_destination r = p.
Proof.
  unfold select_mailbox. rewrite merge_sort_Permutation, list_elem_of_filter, elem_of_map_to_list. cbn. tauto.
Qed.
Lemma select_mailbox_sorted d sid p : StronglySorted mailbox_le (select_mailbox d sid p).
Proof. apply StronglySorted_merge_sort; apply _. Qed.

(** The decoded mailbox: a message for every row, in the order of the rows. *)
Definition decoded (rows : list (MessageId * MessageRow)) (messages : list MessageSnapshot) : Prop :=
  Forall2 (fun e m => decode_message_row e.1 e.2 = Ok m) rows messages.

Lemma decoded_row rows ms m : decoded rows ms -> m ∈ ms ->
  exists id r, (id, r) ∈ rows /\ decode_message_row id r = Ok m.
Proof.
  intros Hd Hm. apply list_elem_of_lookup_1 in Hm as [i Hi].
  destruct (Forall2_lookup_r _ _ _ _ _ Hd Hi) as ([id r] & He & Hdec). exists id, r. split; [|done].
  by eapply list_elem_of_lookup_2.
Qed.
Lemma decoded_message rows ms id r : decoded rows ms -> (id, r) ∈ rows -> mg_snapshot r ∈ ms.
Proof.
  intros Hd Hr. apply list_elem_of_lookup_1 in Hr as [i Hi].
  destruct (Forall2_lookup_l _ _ _ _ _ Hd Hi) as (m & Hm & Hdec).
  apply decode_message_Ok in Hdec as (-> & _). by eapply list_elem_of_lookup_2.
Qed.

(** Without an expired acceptance or an active lease nothing is in flight. *)
Lemma not_busy now ms m : List.find (expired_acceptance now) ms = None ->
  existsb (active_lease now) ms = false -> m ∈ ms -> busy now m = false.
Proof.
  intros Hr Ha Hm. pose proof (find_none_elem _ _ _ Hr Hm) as H1. pose proof (existsb_false _ _ _ Ha Hm) as H2.
  unfold busy. rewrite H2, orb_false_r. unfold expired_acceptance, active_lease in *.
  destruct (ms_state m); cbn in *; try done; ts_norm; exfalso; eapply Timestamp_lt_irrefl; eauto with nav.
Qed.

(** The head is open, and first among the open messages. *)
Lemma head_first rows ms m : StronglySorted mailbox_le rows -> decoded rows ms -> mailbox_head ms = Some m ->
  exists id r, (id, r) ∈ rows /\ decode_message_row id r = Ok m /\
  forall id' r', (id', r') ∈ rows -> delivery_is_terminal (ms_state (mg_snapshot r')) = false ->
    mailbox_le (id, r) (id', r').
Proof.
  intros Hs Hd Hh. set (live p m := eqb (ms_priority m) p && negb (delivery_is_terminal (ms_state m))).
  change (match List.find (live PrControl) ms with
          | Some m => Some m | None => List.find (live PrOrdinary) ms end = Some m) in Hh.
  assert (Hfirst : forall p, List.find (live p) ms = Some m -> exists id r i, rows !! i = Some (id, r) /\
    decode_message_row id r = Ok m /\ ms_priority m = p /\
    forall id' r', (id', r') ∈ rows -> live p (mg_snapshot r') = true -> mailbox_le (id, r) (id', r')).
  { intros p Hf. apply find_first in Hf as (Hl & i & Hi & Hf).
    destruct (Forall2_lookup_r _ _ _ _ _ Hd Hi) as ([id r] & He & Hdec). exists id, r, i.
    split; [done|]. split; [done|]. unfold live, eqb in Hl. bool_norm. split; [done|].
    intros id' r' Hr' Hl'. apply list_elem_of_lookup_1 in Hr' as [j Hj].
    destruct (Forall2_lookup_l _ _ _ _ _ Hd Hj) as (m' & Hm' & Hdec'). apply decode_message_Ok in Hdec' as (Hm0 & _).
    cbn in Hm0. subst m'. destruct (decide (j < i)%nat) as [Hlt|Hge].
    { rewrite (Hf j _ Hlt Hm') in Hl'. done. }
    destruct (decide (i = j)) as [<-|Hne]; [|by apply (StronglySorted_lookup_lt _ _ i j _ _ Hs He Hj); lia].
    rewrite He in Hj. injection Hj as -> ->. unfold mailbox_le. cbn. lia. }
  assert (Hp : forall id r, (id, r) ∈ rows -> mg_priority r = priority_column (ms_priority (mg_snapshot r))).
  { intros id r Hr. apply list_elem_of_lookup_1 in Hr as [j Hj].
    destruct (Forall2_lookup_l _ _ _ _ _ Hd Hj) as (m' & _ & Hdec').
    by apply decode_message_Ok in Hdec' as (-> & _ & _ & _ & _ & _ & ? & _). }
  destruct (List.find (live PrControl) ms) as [m1|] eqn:Ec.
  - injection Hh as ->. destruct (Hfirst PrControl Ec) as (id & r & i & Hi & Hdec & Hpr & Hle).
    assert (Hin : (id, r) ∈ rows) by by eapply list_elem_of_lookup_2.
    exists id, r. split_and!; [done..|]. intros id' r' Hr' Ht.
    destruct (decide (ms_priority (mg_snapshot r') = PrControl)) as [Hc|Hc].
    + apply Hle; [done|]. unfold live, eqb. by rewrite bool_decide_eq_true_2, Ht.
    + left. cbn. rewrite (Hp _ _ Hin), (Hp _ _ Hr'). apply decode_message_Ok in Hdec as (<- & _). rewrite Hpr.
      by destruct (ms_priority (mg_snapshot r')).
  - destruct (Hfirst PrOrdinary Hh) as (id & r & i & Hi & Hdec & Hpr & Hle).
    exists id, r. split; [by eapply list_elem_of_lookup_2|]. split; [done|]. intros id' r' Hr' Ht.
    apply Hle; [done|]. pose proof (find_none_elem _ _ _ Ec (decoded_message _ _ _ _ Hd Hr')) as Hn.
    unfold live, eqb in *. rewrite Ht in *. cbn in *. rewrite andb_true_r in *.
    apply bool_decide_eq_false in Hn. apply bool_decide_eq_true. by destruct (ms_priority (mg_snapshot r')).
Qed.

Section laws.
Context {TLaws : TimeLaws} {TALaws : TimeArithLaws}.

(** An expiry is in the future; a Rust duration is never negative. *)
Lemma expiry_later t q x y : Timestamp_wf t -> 0 <= duration_nanos q -> duration_lease q = Some x ->
  expiry max_lease_millis t x = Ok y -> Timestamp_lt t y.
Proof.
  intros Ht H0 Hq Hx. pose proof (expiry_exact _ _ _ _ Ht Hx) as He. apply expiry_wf, Timestamp_nanos in Hx.
  apply Timestamp_nanos in Ht. unfold duration_lease, LeaseDuration_from_millis in Hq.
  case_if_in Hq as E1; [|done]. destruct ((duration_millis q =? 0) || _) eqn:E2; [done|]. injection Hq as <-.
  bool_norm. cbn in He. unfold duration_millis in *. unfold Timestamp_lt, NANOS in *.
  pose proof (Z.div_pos (duration_nanos q) 1000000 H0 eq_refl). lia.
Qed.

(** What the selected message has to satisfy. *)
Definition leasable (t : Timestamp) (d : Db) (id : MessageId) (r : MessageRow) (m : MessageSnapshot) : Prop :=
  db_messages d !! id = Some r /\ decode_message_row id r = Ok m /\
  if awaits_acceptance (ms_state m) then expired_acceptance t m = true
  else eligible t m = true /\
    forall id' r', db_messages d !! id' = Some r' -> id' <> id ->
      mg_session_id r' = mg_session_id r -> mg_destination r' = mg_destination r ->
      busy t (mg_snapshot r') = false.

(** The message is what its row holds. *)
Definition stored (m : MessageSnapshot) (d : Db) : Prop := mg_snapshot <$> db_messages d !! ms_message_id m = Some m.
Lemma stored_same m d d' : stored m d -> db_messages d' = db_messages d -> stored m d'.
Proof. unfold stored. by intros H ->. Qed.
Lemma stored_insert r m d d' : db_messages d' = <[ms_message_id m := with_snapshot r m]> (db_messages d) -> stored m d'.
Proof. unfold stored. intros ->. by rewrite lookup_insert_eq. Qed.

(** The answer carries the selected message under a lease of the caller; a message
    with a new lease was eligible. *)
Definition lease_answer (t : Timestamp) (c : LeaseNextMessage) (m m' : MessageSnapshot) : Prop :=
  ms_message_id m' = ms_message_id m /\
  (forall l, state_lease (ms_state m') = Some l ->
     dl_owner l = rc_caller (ln_context c) /\ dl_ownership_epoch l = ln_epoch c) /\
  (forall l, ms_state m' = MsLeased l -> eligible t m = true).
Definition lease_post (now t : Timestamp) (d : Db) (c : LeaseNextMessage) (m : MessageSnapshot)
    (v : Mutation (option MessageSnapshot)) (d' : Db) : Prop :=
  mail_call now d d' /\ exists m', v = Applied (Some m') /\ lease_answer t c m m' /\ stored m' d'.

Lemma lease_recorded now t d c m m' d2 :
  mail_call now d d2 -> stored m' d2 -> lease_answer t c m m' ->
  wp (record_lease c (Some m')) (lease_post now t d c m) (mail_call now d) d2.
Proof.
  intros Hc Hst Hid. unfold record_lease. wp_auto. apply wp_record. intros d3 Hs. wp_auto.
  split; [by eapply call_then|]. exists m'. split_and!; [done..|]. eapply stored_same; [done|apply Hs].
Qed.

Section selected.
Context (now t x : Timestamp) (c : LeaseNextMessage) (d d1 : Db) (id : MessageId) (r : MessageRow) (m : MessageSnapshot).
Hypothesis (He : entered (ln_session_id c) now t d d1) (Hx : Timestamp_lt t x)
  (Hs : ms_session_id m = ln_session_id c) (Hl : leasable t d1 id r m).

Lemma leasable_id : ms_message_id m = id.
Proof. destruct Hl as (_ & Hdec & _). by apply decode_message_Ok in Hdec as (_ & -> & _). Qed.

Lemma leasable_call a s rev d2 : Revision_next (ms_revision m) = Some rev -> state_step t m a s ->
  (forall l, s = MsLeased l -> awaits_acceptance (ms_state m) = false) ->
  db_messages d2 = <[id := with_snapshot r (set_delivery m a s rev t)]> (db_messages d1) ->
  discounted d1 (set_delivery m a s rev t) d2 -> db_sessions d2 = db_sessions d1 -> mail_call now d d2.
Proof.
  intros Hrev Hst Hx' H1 H2 H3. destruct Hl as (Hr & Hdec & Hl'). eapply call_update; eauto; [by exists a, s, rev|].
  intros l Hl0. cbn in Hl0. specialize (Hx' l Hl0). rewrite Hx' in Hl'. by destruct Hl' as [_ ?].
Qed.

Lemma wp_selected m' (Q : unit -> Db -> Prop) F : ms_message_id m' = ms_message_id m ->
  Q tt (set_messages d1 (<[id := with_snapshot r m']> (db_messages d1))) -> wp (update_message_snapshot m') Q F d1.
Proof.
  intros Hm' HQ. apply wp_update. destruct Hl as (Hr & _). rewrite Hm', leasable_id, Hr. by intros ? [= <-].
Qed.

Lemma stored_selected m' d3 : ms_message_id m' = ms_message_id m ->
  db_messages d3 = <[id := with_snapshot r m']> (db_messages d1) -> stored m' d3.
Proof. intros E H. apply (stored_insert r _ d1). by rewrite E, leasable_id. Qed.

Lemma take_over_call l s :
  (ms_state m = MsAcceptancePending l /\ s = MsAcceptancePending (replacement c x l)) \/
  (ms_state m = MsAcceptanceUnknown l /\ s = MsAcceptanceUnknown (replacement c x l)) ->
  wp (take_over now t c m s) (lease_post now t d c m) (mail_call now d) d1.
Proof.
  intros Hls. unfold take_over. wp_auto. unfold next_revision in *. inv_result. apply wp_selected; [done|]. wp_auto.
  apply wp_message_event. intros d3 H3. apply lease_recorded;
    [|apply stored_selected; [done|apply H3]|split_and!; [done|..]; intros l0; cbn; destruct Hls as [[_ ->]|[_ ->]]; cbn; by intros [= <-]].
  eapply call_then; [|exact H3].
  eapply leasable_call; [eassumption| | | |unfold discounted|]; try done.
  - eapply st_takeover; [exact Hls| |done|done]. destruct Hl as (_ & _ & Hl'). unfold expired_acceptance in Hl'.
    destruct Hls as [[E _]|[E _]]; rewrite E in Hl'; cbn in Hl'; by ts_norm.
  - intros l' ->. by destruct Hls as [[_ ?]|[_ ?]].
  - cbn. by destruct Hls as [[_ ->]|[_ ->]].
Qed.

Lemma lease_anew_call : awaits_acceptance (ms_state m) = false ->
  wp (lease_anew now t x c m) (lease_post now t d c m) (mail_call now d) d1.
Proof.
  intros Haw. assert (Hel : eligible t m = true) by (destruct Hl as (_ & _ & Hl'); rewrite Haw in Hl'; by destruct Hl').
  unfold lease_anew. wp_auto. case_if as E1. { apply wp_finish. intros. by eapply call_same. }
  wp_auto. unfold next_revision in *. inv_result. case_if as E2; bool_norm.
  - wp_auto. apply wp_selected; [done|]. wp_auto. apply wp_decrement. intros k Hk Hb Hn. wp_auto.
    apply wp_message_event. intros d3 H3. apply lease_recorded;
      [|apply stored_selected; [done|apply H3]|split_and!; [done | by intros l0 [= <-] | done]]. eapply call_then; [|exact H3].
    eapply leasable_call; [eassumption|by apply st_exhausted|done|done| |done]. unfold discounted. cbn. eauto 6.
  - wp_auto. apply wp_selected; [done|]. wp_auto.
    apply wp_message_event. intros d3 H3. apply lease_recorded;
      [|apply stored_selected; [done|apply H3]|split_and!; [done | by intros l0 [= <-] | done]]. eapply call_then; [|exact H3].
    eapply leasable_call; [eassumption| |done|done|done|done]. by apply st_lease; [|lia|].
Qed.

Lemma lease_selected_call : wp (lease_selected now t x c m) (lease_post now t d c m) (mail_call now d) d1.
Proof.
  unfold lease_selected. destruct (ms_state m) as [| |l|l|l| | |] eqn:Est;
    try (apply lease_anew_call; by rewrite Est); apply (take_over_call l); auto.
Qed.
End selected.

(** The store's time is a timestamp. *)
Lemma entered_time sid now t d d1 : all_rows cols_wf d -> Timestamp_wf now -> entered sid now t d d1 -> Timestamp_wf t.
Proof.
  intros Hrows Hnow ((c & Hc & -> & _) & _). destruct (Hrows _ _ Hc) as [_ _ _ _ _ (_ & _ & Hf) _ _ _]. by apply Timestamp_max_wf.
Qed.

(** A new lease goes to the first open message of its mailbox. *)
Definition lease_first (c : LeaseNextMessage) (d : Db) (v : Mutation (option MessageSnapshot)) : Prop :=
  forall m' l, v = Applied (Some m') -> ms_state m' = MsLeased l ->
  exists r, db_messages d !! ms_message_id m' = Some r /\ mg_session_id r = ln_session_id c /\
    mg_destination r = ln_destination c /\
    forall id' r', db_messages d !! id' = Some r' -> mg_session_id r' = ln_session_id c ->
      mg_destination r' = ln_destination c -> delivery_is_terminal (ms_state (mg_snapshot r')) = false ->
      mailbox_le (ms_message_id m', r) (id', r').
(** Every lease answered is the caller's. *)
Definition lease_mine (c : LeaseNextMessage) (v : Mutation (option MessageSnapshot)) : Prop :=
  forall m' l, v = Applied (Some m') -> state_lease (ms_state m') = Some l ->
  dl_owner l = rc_caller (ln_context c) /\ dl_ownership_epoch l = ln_epoch c.

(** And its message is stored. *)
Definition lease_stored (v : Mutation (option MessageSnapshot)) (d' : Db) : Prop :=
  forall m', v = Applied (Some m') -> stored m' d'.

(** The message [lease_next_message] picks out of the decoded mailbox. *)
Definition lease_choice (t : Timestamp) (ms : list MessageSnapshot) : option MessageSnapshot :=
  match List.find (expired_acceptance t) ms with
  | Some m => Some m
  | None => match mailbox_head ms with
            | Some m => if eligible t m then Some m else None
            | None => None end
  end.

Lemma eligible_not_awaiting t m : eligible t m = true -> awaits_acceptance (ms_state m) = false.
Proof. unfold eligible. by destruct (ms_state m). Qed.
Lemma expired_awaiting t m : expired_acceptance t m = true -> awaits_acceptance (ms_state m) = true.
Proof. unfold expired_acceptance. by destruct (ms_state m). Qed.

Lemma lease_choice_ok t d c ms m :
  decoded (select_mailbox d (ln_session_id c) (ln_destination c)) ms ->
  is_none (List.find (expired_acceptance t) ms) && existsb (active_lease t) ms = false ->
  lease_choice t ms = Some m ->
  exists r, leasable t d (ms_message_id m) r m /\ ms_session_id m = ln_session_id c /\
    (eligible t m = true -> forall v m', v = Applied (Some m') -> ms_message_id m' = ms_message_id m ->
       lease_first c d v).
Proof.
  intros Hd Hact Hch.
  assert (Hrow : forall id r, (id, r) ∈ select_mailbox d (ln_session_id c) (ln_destination c) ->
    decode_message_row id r = Ok m -> id = ms_message_id m /\ db_messages d !! ms_message_id m = Some r /\
    mg_session_id r = ln_session_id c /\ mg_destination r = ln_destination c /\ ms_session_id m = ln_session_id c).
  { intros id r Hin Hdec. apply select_mailbox_elem in Hin as (Hr & H1 & H2).
    apply decode_message_Ok in Hdec as (_ & -> & Hs & _). split_and!; try done. congruence. }
  unfold lease_choice in Hch. destruct (List.find (expired_acceptance t) ms) as [m0|] eqn:Er.
  - injection Hch as ->. apply List.find_some in Er as [Hin Hexp]. apply list_elem_of_In in Hin.
    destruct (decoded_row _ _ _ Hd Hin) as (id & r & Hir & Hdec).
    destruct (Hrow _ _ Hir Hdec) as (-> & Hr & _ & _ & Hs). exists r. split; [|split; [done|]].
    + split_and!; [done..|]. by rewrite (expired_awaiting _ _ Hexp).
    + intros Hel. apply eligible_not_awaiting in Hel. apply expired_awaiting in Hexp. congruence.
  - destruct (mailbox_head ms) as [m0|] eqn:Eh; [|done]. case_if_in Hch as Hel; [|done]. injection Hch as ->.
    destruct (head_first _ _ _ (select_mailbox_sorted _ _ _) Hd Eh) as (id & r & Hir & Hdec & Hle).
    destruct (Hrow _ _ Hir Hdec) as (-> & Hr & Hr1 & Hr2 & Hs). exists r. split; [|split; [done|]].
    + split_and!; [done..|]. rewrite (eligible_not_awaiting _ _ Hel). split; [done|].
      intros id' r' Hr' _ Hs' Hd'. eapply not_busy; [exact Er|exact Hact|]. eapply decoded_message; [exact Hd|].
      apply select_mailbox_elem. split_and!; [done|congruence..].
    + intros _ v m' -> Hid m1 l [= <-] Hl. rewrite Hid. exists r. split_and!; [done..|].
      intros id' r' Hr' H1 H2 Ht. apply Hle; [|done]. by apply select_mailbox_elem.
Qed.

Lemma wp_record_none now c d d1 (P : Mutation (option MessageSnapshot) -> Db -> Prop) :
  mail_call now d d1 -> (forall d', P (Applied None) d') ->
  wp (record_lease c None) (fun v d' => mail_call now d d' /\ P v d') (mail_call now d) d1.
Proof.
  intros Hc HP. unfold record_lease. wp_auto. apply wp_record. intros d2 Hs. wp_auto. split; [by eapply call_then | done].
Qed.

Lemma lease_next_call now c d :
  all_rows cols_wf d -> Timestamp_wf now -> 0 <= duration_nanos (ln_lease_duration c) ->
  wp (lease_next_message max_lease_millis now c)
    (fun v d' => mail_call now d d' /\ carried (by_owner (ln_session_id c) (ln_context c) (ln_epoch c) now d) v /\
       lease_first c d v /\ lease_mine c v /\ lease_stored v d')
    (mail_call now d) d.
Proof.
  intros Hrows Hnow Hdur. unfold lease_next_message. wp_auto. apply wp_replay. intros [m|].
  { wp_auto. split_and!; [by apply call_refl | done | by intros ? ? [=].. | by intros ? [=]]. }
  destruct (duration_lease (ln_lease_duration c)) as [q|] eqn:Eq.
  2: { apply wp_finish. intros. by apply call_refl. }
  apply wp_prologue; [done|]. intros t d1 He Ho.
  destruct (expiry max_lease_millis t q) as [x|err] eqn:Ex.
  2: { apply wp_finish. intros. by eapply call_same. }
  assert (Hx : Timestamp_lt t x) by (eapply expiry_later; eauto using entered_time).
  wp_auto. match goal with H : collect _ _ = Ok ?l |- _ => rename l into ms; apply collect_Ok in H as Hms; clear H end.
  case_if as Eact. { eapply wp_record_none; [by eapply call_same|intros d'; split_and!; [by intros _|by intros ? ? [=]..|by intros ? [=]]]. }
  change (wp (match lease_choice t ms with Some m => lease_selected now t x c m | None => record_lease c None end)
    (fun v d' => mail_call now d d' /\ carried (by_owner (ln_session_id c) (ln_context c) (ln_epoch c) now d) v /\
       lease_first c d v /\ lease_mine c v /\ lease_stored v d') (mail_call now d) d1).
  destruct (lease_choice t ms) as [m|] eqn:Ech.
  2: { eapply wp_record_none; [by eapply call_same|intros d'; split_and!; [by intros _|by intros ? ? [=]..|by intros ? [=]]]. }
  destruct (lease_choice_ok _ _ _ _ _ Hms Eact Ech) as (r & Hl & Hs & Hfirst).
  eapply wp_mono; [by eapply lease_selected_call| |done].
  intros v d' (Hc & m' & -> & (Hid & Hmine & Hel) & Hsto). split_and!; [done|by intros _| | |].
  - intros m1 l [= <-] Hl1. specialize (Hfirst (Hel _ Hl1) _ _ eq_refl Hid _ _ eq_refl Hl1).
    destruct He as (_ & Em & _). by rewrite Em in Hfirst.
  - intros m1 l [= <-]. apply Hmine.
  - by intros m1 [= <-].
Qed.

(** ** Delivery reports *)

Lemma wp_resume now t c m (Q : unit -> Db -> Prop) F d :
  (forall d', same_mail d d' -> Q tt d') -> wp (resume_operation now t c m) Q F d.
Proof.
  intros HQ. assert (H0 : Q tt d) by by apply HQ. unfold resume_operation.
  destruct (ms_state m); try (by wp_auto). destruct (env_body (ms_envelope m)); try (by wp_auto).
  wp_auto. apply wp_load_operation. intros o. wp_auto. case_if as E; [|by wp_auto]. wp_auto.
  unfold resume_operation_row. wp_auto. destruct (_ !! _) as [row|]; [|by wp_auto].
  case_if as E2; [|by wp_auto]. wp_auto. unfold one_row. case_if as E3; wp_auto.
  apply wp_append. intros d' Hs. apply HQ. etrans; [|exact Hs]. done.
Qed.

(** The report of a lease holder on the revision he has seen. *)
Definition reported (c : TransitionMessageDelivery) (d : Db) : Prop :=
  exists r m l, db_messages d !! td_message_id c = Some r /\ decode_message_row (td_message_id c) r = Ok m /\
    ms_session_id m = td_session_id c /\ ms_revision m = td_expected_revision c /\
    state_lease (ms_state m) = Some l /\ dl_attempt_id l = td_attempt_id c /\
    dl_owner l = rc_caller (td_context c) /\ dl_ownership_epoch l = td_epoch c.

Lemma reported_lease_Some t c m l : reported_lease t c m = Some l ->
  state_lease (ms_state m) = Some l /\ dl_attempt_id l = td_attempt_id c /\
  dl_owner l = rc_caller (td_context c) /\ dl_ownership_epoch l = td_epoch c /\
  (ms_state m = MsLeased l -> Timestamp_lt t (dl_expires_at l)).
Proof.
  unfold reported_lease, eqb. intros H. destruct (ms_state m); try discriminate H; case_if_in H as E; try discriminate H;
    injection H as <-; bool_norm; ts_norm; split_and!; done.
Qed.

Lemma retry_date_later t c date : Timestamp_wf t ->
  (forall q, td_transition c = DtRetryAfter q -> 0 <= duration_nanos q) ->
  retry_date max_lease_millis t (td_transition c) = Ok (Some date) -> Timestamp_lt t date.
Proof.
  intros Ht Hq H. unfold retry_date in H. destruct (td_transition c) as [| |q| | |]; try done.
  destruct (duration_lease q) as [z|] eqn:Ez; [|done]. apply bind_Ok in H as (x & Hx & [= <-]).
  eapply expiry_later; eauto.
Qed.

Lemma reported_state_step t c date m l s :
  reported_lease t c m = Some l -> (forall x, date = Some x -> Timestamp_lt t x) ->
  reported_state t c date m l = Some (Ok s) ->
  state_step t m (ms_attempt_count m) s /\ (forall l, s <> MsLeased l).
Proof.
  intros Hl Hd Hs. apply reported_lease_Some in Hl as (Hl & Ha & _ & _ & Hexp). unfold reported_state in Hs.
  split; [|intros l' ->; by destruct (td_transition c), (ms_state m), date].
  destruct (td_transition c) eqn:Et, (ms_state m) as [| |l0|l0|l0| | |] eqn:Est; try discriminate Hs; cbn in Hl;
    try discriminate Hl; injection Hl as ->.
  all: try (destruct date as [x|]; [|discriminate Hs]).
  all: injection Hs as <-; rewrite <-?Ha.
  all: first [by apply st_pending; [|apply Hexp] | by apply st_unknown | by apply st_dead; rewrite Est
             | by apply st_retry; [rewrite Est|left; apply Hd]
             | by apply (st_accepted _ _ l); rewrite Est | by apply (st_uncertain _ _ l); rewrite Est].
Qed.

Definition retry_nonneg (c : TransitionMessageDelivery) : Prop :=
  forall q, td_transition c = DtRetryAfter q -> 0 <= duration_nanos q.

Lemma wp_terminal_decrement m (Q : unit -> Db -> Prop) F d :
  (forall d', db_messages d' = db_messages d -> db_sessions d' = db_sessions d -> discounted d m d' -> Q tt d') ->
  wp (if delivery_is_terminal (ms_state m) then decrement_mailbox_bytes m else mret tt) Q F d.
Proof.
  intros HQ. unfold discounted in HQ. destruct (delivery_is_terminal (ms_state m)).
  - apply wp_decrement. intros k Hk Hb Hn. apply HQ; [done..|]. cbn. eauto 6.
  - wp_auto. by apply HQ.
Qed.

(** What a report that was carried out did. *)
Definition report_done (c : TransitionMessageDelivery) (d : Db) (v : Mutation MessageSnapshot) (d' : Db) : Prop :=
  forall m', v = Applied m' -> exists m l date t s rev,
    mg_snapshot <$> db_messages d !! td_message_id c = Some m /\ ms_message_id m = td_message_id c /\
    reported_lease t c m = Some l /\ reported_state t c date m l = Some (Ok s) /\
    Revision_next (ms_revision m) = Some rev /\ m' = set_delivery m (ms_attempt_count m) s rev t /\ stored m' d'.

Lemma transition_call now c d :
  all_rows cols_wf d -> Timestamp_wf now -> retry_nonneg c ->
  wp (transition_message_delivery max_lease_millis limit_profile now c)
    (fun v d' => mail_call now d d' /\ carried (by_owner (td_session_id c) (td_context c) (td_epoch c) now d) v /\
       carried (reported c d) v /\ report_done c d v d')
    (mail_call now d) d.
Proof.
  intros Hrows Hnow Hdur. unfold transition_message_delivery. wp_auto. apply wp_replay. intros [[m|]|]; [|done|].
  { wp_auto. split_and!; [by apply call_refl | done.. | by intros ? [=]]. }
  apply wp_prologue; [done|]. intros t d1 He Ho. pose proof (entered_time _ _ _ _ _ Hrows Hnow He) as Ht.
  destruct (retry_date max_lease_millis t (td_transition c)) as [date|err] eqn:Ed.
  2: { apply wp_finish. intros. by eapply call_same. }
  wp_auto. apply wp_load_message. { intros _. apply wp_finish. intros. by eapply call_same. }
  intros r m Hr Hdec. case_if as E1. { apply wp_finish. intros. by eapply call_same. }
  destruct (reported_lease t c m) as [l|] eqn:El; [|apply wp_finish; intros; by eapply call_same].
  apply wp_bind. assert (Hcap : forall (Q : unit -> Db -> Prop) F, Q tt d1 -> wp (match td_transition c with
    | DtRetryAfter _ => ensure_derived_capacity limit_profile (td_session_id c) Retries 1 | _ => mret tt end) Q F d1).
  { intros. case_match; wp_auto; try done. by apply wp_capacity. }
  apply Hcap. wp_auto. apply wp_capacity.
  destruct (reported_state t c date m l) as [st|] eqn:Es; [|apply wp_finish; intros; by eapply call_same].
  wp_auto. unfold next_revision in *. inv_result.
  subst st. assert (Hdate : forall x, date = Some x -> Timestamp_lt t x) by (intros x ->; by eapply retry_date_later).
  destruct (reported_state_step _ _ _ _ _ _ El Hdate Es) as [Hst Hnl].
  unfold neqb, eqb in *. bool_norm.
  destruct (decode_message_Ok _ _ _ Hdec) as (_ & Hid & _).
  apply wp_update. cbn [set_delivery ms_message_id]. rewrite <-Hid, Hr. intros ? [= <-]. wp_auto.
  apply wp_message_event. intros d3 (M3 & C3 & S3). wp_auto. apply wp_resume. intros d4 (M4 & C4 & S4). wp_auto.
  apply wp_terminal_decrement. intros d5 M5 S5 Hdis. wp_auto. apply wp_record. intros d6 Hs6. wp_auto.
  split; [|split; [by intros _|split]].
  - eapply call_then; [|exact Hs6]. eapply (call_update _ _ _ _ _ _ _ _ _ _ He); eauto.
    + by eexists _, _, _.
    + intros l' Hl'. by destruct (Hnl l').
    + by rewrite M5, M4, M3.
    + unfold discounted in *. by rewrite C4, C3 in Hdis.
    + by rewrite S5, S4, S3.
  - intros _. apply reported_lease_Some in El as (? & ? & ? & ? & _). destruct He as (_ & Em & _). rewrite Em in Hr.
    exists r, m, l. split_and!; done.
  - intros m' [= <-]. pose proof He as (_ & Em & _). destruct (decode_message_Ok _ _ _ Hdec) as (Hsn & _).
    eexists m, l, date, t, _, _. split_and!; try done; [by rewrite <-Em, Hr; cbn; rewrite <-Hsn|].
    apply (stored_insert r _ d1). destruct Hs6 as (M6 & _). rewrite M6, M5, M4, M3. cbn. by rewrite <-Hid.
Qed.
End laws.

(** ** Writers inside other handlers *)

(** One change of the mailbox tables inside a transaction that has already moved the
    clock floor. *)
Definition mail_write (d d' : Db) : Prop := mail_change d d' /\ db_sessions d' = db_sessions d.

Lemma change_then d d1 d2 : mail_write d d1 -> same_mail d1 d2 -> mail_write d d2.
Proof.
  intros [Hc Ha] Hs. pose proof Hs as (_ & _ & S).
  destruct (call_then (MkTimestamp 0 0) d d1 d2) as [Hc' _]; [split; [done|by left]|done|]. split; [done|congruence].
Qed.

Lemma hierarchy_insert_write sid rid mid src dst corr env now t d F :
  floor_of d sid = Some t -> Timestamp_le now t ->
  wp (insert_hierarchy_message sid rid mid src dst corr env now)
    (fun m d' => mail_write d d' /\ ms_message_id m = mid /\ ms_destination m = dst /\ ms_envelope m = env) F d.
Proof.
  intros Hf Ht. unfold insert_hierarchy_message. wp_auto. apply wp_load_message; [intros Hnone|done]. cbn.
  wp_auto. case_if as E1; [done|]. wp_auto. apply wp_insert. intros Hn Hq. wp_auto. apply wp_upsert. wp_auto.
  apply wp_message_event. intros d3 Hs3. wp_auto. split; [|done]. eapply change_then; [|exact Hs3].
  split; [|done]. match type of Hn with _ !! ms_message_id ?m = _ =>
    destruct (counted_of (if eqb (envelope_kind env) KindOperationOutcome then MAX_MAILBOX_RESERVED_OUTCOME_BYTES else 0)
      (if eqb (envelope_kind env) KindOperationOutcome then MAX_MAILBOX_RESERVED_OUTCOMES else 0)
      (mailbox_counter d dst) m _ _ _ _ _ _ _ _ _ _ ltac:(eassumption) ltac:(eassumption) ltac:(eassumption)
      ltac:(eassumption) E1 ltac:(eassumption) Hq ltac:(eassumption) ltac:(eassumption) ltac:(eassumption))
      as [Hseq Hcnt]; eapply (mail_insert _ _ m) end; try done.
  - by exists t.
  - destruct (eqb _ _); [done | by apply counted_more].
Qed.

(** Any number of changes. *)
Definition mail_writes : Db -> Db -> Prop := rtc mail_write.

Lemma mail_writes_sessions d d' : mail_writes d d' -> db_sessions d' = db_sessions d.
Proof. induction 1 as [|d d1 d2 [_ H] _ IH]; congruence. Qed.

Lemma retire_message_write rid o now id r d F :
  db_messages d !! id = Some r -> delivery_is_terminal (ms_state (mg_snapshot r)) = false ->
  wp (retire_message rid o now (id, r))
    (fun _ d' => mail_write d d' /\ forall id', id' <> id -> db_messages d' !! id' = db_messages d !! id') F d.
Proof.
  intros Hr Hopen. unfold retire_message. wp_auto. case_if as E1; [done|]. wp_auto.
  match goal with H : decode_message_row _ _ = Ok ?x |- _ => rename x into m; rename H into Hdec end.
  destruct (decode_message_Ok _ _ _ Hdec) as (Hm & Hid & _). cbn [fst snd] in *. rewrite <-Hm in Hopen.
  unfold next_revision in *. inv_result. apply wp_update. cbn [set_delivery ms_message_id]. rewrite <-Hid, Hr.
  intros ? [= <-]. wp_auto. apply wp_decrement. intros k Hk Hb Hn. wp_auto. apply wp_message_event. intros d3 Hs3.
  split; [|intros id' Hne; destruct Hs3 as (-> & _); cbn; by rewrite lookup_insert_ne].
  eapply change_then; [|exact Hs3]. split; [|done].
  match goal with H : match ms_state m with _ => _ end = Ok ?x, Hrev : Revision_next _ = Some ?v,
      Hrs : corrupt _ = Ok ?reason |- _ => rename x into st; rename H into Hst;
    assert (Hstep : state_step (Timestamp_max now (ms_updated_at m)) m (ms_attempt_count m) st /\ delivery_is_terminal st = true)
  end.
  { destruct (ms_state m) as [| |l|l|l| | |] eqn:Est; try discriminate Hst; injection Hst as <-; split; try done;
      first [by apply st_dead; rewrite Est | by apply (st_uncertain _ _ l); rewrite Est]. }
  destruct Hstep as [Hstep Hterm].
  eapply (mail_update _ _ id r m _ (Timestamp_max now (ms_updated_at m))); [done|done|by eexists _, _, _| | |done|].
  - right. split; [done|apply Timestamp_max_le_r].
  - intros l Hl. cbn in Hl. by rewrite Hl in Hterm.
  - unfold discounted. cbn [set_delivery ms_state]. rewrite Hterm. eauto 6.
Qed.

Lemma retire_messages_writes rid o now rows d F :
  NoDup rows.*1 -> (forall id r, (id, r) ∈ rows -> db_messages d !! id = Some r /\
    delivery_is_terminal (ms_state (mg_snapshot r)) = false) ->
  wp (retire_messages rid o now rows) (fun _ d' => mail_writes d d') F d.
Proof.
  revert d. induction rows as [|[id r] rows IH]; intros d Hnd Hrows; cbn [retire_messages].
  - wp_auto. apply rtc_refl.
  - apply NoDup_cons in Hnd as [Hni Hnd]. apply wp_bind.
    destruct (Hrows id r) as [Hr Ho]; [left|]. eapply wp_mono; [by apply retire_message_write with (F := F)| |done].
    intros [] d1 [Hw Hoth]. eapply wp_mono; [apply IH; [done|]| |done].
    + intros id' r' Hin. destruct (Hrows id' r') as [Hr' Ho']; [by right|]. rewrite Hoth; [done|].
      intros ->. apply Hni. by apply (list_elem_of_fmap_2 fst _ (id, r')).
    + intros [] d2 Hw2. by eapply rtc_l.
Qed.

Lemma retire_correlated_writes rid o now d F :
  wp (retire_correlated_messages rid o now) (fun _ d' => mail_writes d d') F d.
Proof.
  unfold retire_correlated_messages. wp_auto. apply retire_messages_writes.
  - rewrite merge_sort_Permutation. apply NoDup_keys_filter, NoDup_fst_map_to_list.
  - intros id r. rewrite merge_sort_Permutation, list_elem_of_filter, elem_of_map_to_list. tauto.
Qed.
End store.

(** ** Moves *)

(** Clock floors only grow. *)
Definition floors_grow (d d' : Db) : Prop := forall sid t, floor_of d sid = Some t ->
  exists t', floor_of d' sid = Some t' /\ Timestamp_le t t'.

(** What one change does to the mailbox tables and to the sessions. *)
Section moves.
Context {TL : TimeLib} {TA : TimeArith} {SH : Sha256} {JS : Json} {UT : UuidText}.
Definition mail_move (d d' : Db) : Prop := mail_change d d' /\ floors_grow d d' /\ (all_rows cols_wf d -> all_rows cols_wf d').

Lemma floors_grow_refl d d' : db_sessions d' = db_sessions d -> floors_grow d d'.
Proof. intros E sid t. unfold floor_of. rewrite E. intros ->. exists t. auto with nav. Qed.
Lemma write_move d d' : mail_write d d' -> mail_move d d'.
Proof.
  intros [Hc Es]. split_and!; [done|by apply floors_grow_refl|]. intros Hr sid c. rewrite Es. apply Hr.
Qed.
Lemma call_move now d d' : Timestamp_wf now -> mail_call now d d' -> mail_move d d'.
Proof.
  intros Hnow [Hc [Es|(sid & t & c & Hs & -> & Es)]]; [by apply write_move|]. split_and!; [done|..].
  - intros sid' t0. unfold floor_of. rewrite Es. destruct (decide (sid' = sid)) as [->|Hne].
    + rewrite Hs, lookup_insert_eq. intros [= <-]. eexists. split; [done|apply Timestamp_max_le_l].
    + rewrite lookup_insert_ne by done. intros ->. exists t0. auto with nav.
  - intros Hr sid' c'. rewrite Es. intros [[<- <-]|[Hne H]]%lookup_insert_Some; [|by apply Hr].
    pose proof (Hr _ _ Hs) as Hw. destruct (cw_times _ _ Hw) as (_ & _ & Hf).
    apply cols_floor_wf; [done|by apply Timestamp_max_wf|apply Timestamp_max_le_l].
Qed.
End moves.
