(* ===== verification/Footprint.v ===== *)
(** * Footprint: which tables a handler writes

    [within R m]: whatever transaction [m] commits, the database before and after are
    related by the preorder [R].  One lemma per statement says what it writes, and one
    per handler follows from them by the tactic [within_auto]; instantiating [R] with
    "this table is unchanged" or with a step relation gives the frame conditions the
    invariants of the kernel rest on. *)
From S2P Require Import Prelude Scalars Session Authority Operation RecoveryTable Capacity Json StoreApi StoreWire.
From S2P Require Import Approval Template Message OperationApi SqliteDb SqliteSession SessionLedger Ownership.
From S2P Require Import SqliteMailbox SqliteOperation SqliteLaunch MailboxLedger.

Section within.
Context (R : Db -> Db -> Prop) {PO : PreOrder R}.

Definition within {A} (m : Tx A) : Prop := forall d, wp m (fun _ d' => R d d') (R d) d.

Lemma within_bind {A B} (m : Tx B) (f : B -> Tx A) : within m -> (forall b, within (f b)) -> within (m ≫= f).
Proof.
  intros Hm Hf d. apply wp_bind. eapply wp_mono; [apply Hm| |done]. intros b d1 H1.
  eapply wp_mono; [apply Hf|..]; intros; (etrans; [exact H1|done]).
Qed.
Lemma within_ret {A} (a : A) : within (mret a).
Proof. intros d. apply wp_ret. reflexivity. Qed.
Lemma within_lift {A} (r : result StoreError A) : within (lift r).
Proof. intros d. apply wp_lift. intros. reflexivity. Qed.
Lemma within_abort {A} e : within (abort e : Tx A).
Proof. intros d. apply wp_abort. Qed.
Lemma within_get : within get.
Proof. intros d. apply wp_get. reflexivity. Qed.
Lemma within_catch {A} (m : Tx A) : within m -> within (catch m).
Proof. intros Hm d. specialize (Hm d). unfold wp, catch in *. destruct (m d); [done|reflexivity|done]. Qed.
(** A statement that reads the database and writes one table of it. *)
Lemma within_write {A} (f : Db -> Tx A) : (forall d, wp (f d) (fun _ d' => R d d') (R d) d) -> within (get ≫= f).
Proof. intros Hf d. apply wp_bind, wp_get, Hf. Qed.
Lemma within_read {A} (m : Tx A) : quiet m -> (forall d a d', m d = Next a d' -> d' = d) -> within m.
Proof. intros Hq Hr d. apply wp_quiet; [done|]. intros a d' H. apply Hr in H as ->. reflexivity. Qed.
End within.

(** A read leaves the database as it is, and what follows a frame is proved from it. *)
Lemma wp_within {A} (R : Db -> Db -> Prop) (m : Tx A) (Q : A -> Db -> Prop) (F : Db -> Prop) d :
  within R m -> (forall a d', R d d' -> Q a d') -> (forall d', R d d' -> F d') -> wp m Q F d.
Proof. intros Hm HQ HF. eapply wp_mono; [apply Hm|done..]. Qed.
Lemma wp_read {A} (m : Tx A) (Q : A -> Db -> Prop) (F : Db -> Prop) d :
  within eq m -> F d -> (forall a, m d = Next a d -> Q a d) -> wp m Q F d.
Proof.
  intros Hm HF HQ. specialize (Hm d). unfold wp in *. destruct (m d); subst; auto.
Qed.

Lemma wp_and {A} (m : Tx A) (Q1 Q2 : A -> Db -> Prop) (F1 F2 : Db -> Prop) d :
  wp m Q1 F1 d -> wp m Q2 F2 d -> wp m (fun a d' => Q1 a d' /\ Q2 a d') (fun d' => F1 d' /\ F2 d') d.
Proof. unfold wp. by destruct (m d). Qed.

(** [returns P m]: whatever [m] answers satisfies [P]. *)
Definition returns {A} (P : A -> Prop) (m : Tx A) : Prop := forall d, wp m (fun a _ => P a) (fun _ => True) d.
Lemma returns_bind {A B} (P : A -> Prop) (m : Tx B) (f : B -> Tx A) : (forall b, returns P (f b)) -> returns P (m ≫= f).
Proof. intros Hf d. apply wp_bind. unfold wp at 1. destruct (m d); [apply Hf|done..]. Qed.
Lemma returns_ret {A} (P : A -> Prop) (a : A) : P a -> returns P (mret a).
Proof. intros HP d. by apply wp_ret. Qed.
Lemma returns_fail {C A} `{!MutableRequest C} (P : A -> Prop) sid (c : C) e : returns P (finish_failure sid c e).
Proof.
  intros d. unfold wp. destruct (finish_failure sid c e d) eqn:E; try done. by apply finish_failure_Next in E.
Qed.
Lemma returns_abort {A} (P : A -> Prop) e : returns P (abort e).
Proof. done. Qed.
Ltac returns_auto := cbv zeta; lazymatch goal with
  | |- returns _ (_ ≫= _) => apply returns_bind; intros; returns_auto
  | |- returns _ (mret _) => apply returns_ret; try done
  | |- returns _ (abort _) => apply returns_abort
  | |- returns _ (finish_failure _ _ _) => apply returns_fail
  | |- returns _ _ => case_match; returns_auto
  end.

(** A recorded failure writes the ledger only. *)
Lemma wp_fail {C A} `{!MutableRequest C} sid (c : C) e (Q : A -> Db -> Prop) (F : Db -> Prop) d :
  (forall v, F (set_ledger d v)) -> wp (finish_failure sid c e) Q F d.
Proof.
  intros HF. unfold wp. destruct (finish_failure sid c e d) as [a d'|e'|d' e'] eqn:E; [|done|].
  - by apply finish_failure_Next in E.
  - apply finish_failure_Finished in E as (_ & _ & ->). apply HF.
Qed.

Create HintDb within discriminated.
#[export] Hint Resolve within_ret within_lift within_abort within_get : within.
#[export] Hint Extern 1 (PreOrder _) => apply _ : within.
Ltac within_auto :=
  cbv zeta; lazymatch goal with
  | |- within _ _ => first
      [ solve [eauto with within]
      | refine (within_bind _ _ _ _ _); [within_auto|intros; within_auto]
      | case_match; within_auto ]
  end.
(** A statement that reads and writes by itself. *)
Ltac within_statement :=
  cbv zeta; apply within_write; intros; cbv zeta; repeat case_match; wp_auto; eauto; try reflexivity.

(** Reading and failing between two writes. *)
Ltac op_reads Hfail HF :=
  repeat lazymatch goal with
  | |- wp (finish_failure _ _ _) _ _ _ => apply Hfail
  | |- wp (abort _) _ _ _ => apply wp_abort
  | |- wp (let _ := _ in _) _ _ _ => cbv zeta
  | |- wp (lift _ ≫= _) _ _ _ => apply wp_bind, wp_lift; intros ? ?
  | |- wp (get ≫= _) _ _ _ => apply wp_bind, wp_get
  | |- wp (?m ≫= _) _ _ _ => apply wp_bind, wp_read; [solve [within_auto]|exact HF|intros ? ?]
  | |- wp (if ?b then _ else _) _ _ _ => destruct b eqn:?
  | |- wp (match ?x with _ => _ end) _ _ _ => destruct x eqn:?
  end.

(** Authorization, with the exact databases it leads to. *)
Lemma wp_auth {TL : TimeLib} {TA : TimeArith} {SH : Sha256} {JS : Json} {UT : UuidText} {C A} `{!MutableRequest C}
    (c : C) sid ctx e act now d (Q : A -> Db -> Prop) (F : Db -> Prop) (k : Tx A) :
  (forall s v, F (set_ledger (set_sessions d s) v)) ->
  (forall t s, entered sid now t d (set_sessions d s) -> by_owner sid ctx e now d -> wp k Q F (set_sessions d s)) ->
  wp (authorized ← authorize_launch sid ctx e act now;
      match authorized with Err error => finish_failure sid c error | Ok _ => k end) Q F d.
Proof.
  intros HF Hk. apply wp_bind, wp_authorize.
  - intros err. apply wp_fail. intros v. apply (HF (db_sessions d) v).
  - intros t d1 r Hc Hd1 Ho. rewrite Hd1 in *. destruct r as [[]|err].
    + apply (Hk t); [by split|]. destruct Hc as (c0 & Hc0 & -> & _). exists c0. eauto.
    + apply wp_fail. intros v. apply HF.
Qed.

Section statements.
Context {TL : TimeLib} {TA : TimeArith} {SH : Sha256} {JS : Json} {JR : JsonRaw} {UT : UuidText}.
Context (R : Db -> Db -> Prop) {PO : PreOrder R}.

(** Events are only ever appended. *)
Definition writes_events : Prop := forall d e, R d (set_events d (db_events d ++ [e])).
Definition writes_ledger : Prop := forall d v, R d (set_ledger d v).
Definition writes_messages : Prop := forall d v, R d (set_messages d v).
Definition writes_counters : Prop := forall d v, R d (set_counters d v).
Definition writes_operations : Prop := forall d v, R d (set_operations d v).
Definition writes_participants : Prop := forall d v, R d (set_participants d v).
(** Templates are only ever inserted. *)
Definition writes_templates : Prop := forall d id c, db_templates d !! id = None ->
  R d (set_templates d (<[id := c]> (db_templates d))).
Definition writes_launches : Prop := forall d v, R d (set_launches d v).
Definition writes_manifests : Prop := forall d v, R d (set_manifests d v).
(** A call at [now] advances the clock floor of one session. *)
Definition advances (now : Timestamp) : Prop := forall d sid c, db_sessions d !! sid = Some c ->
  R d (set_sessions d (<[sid := cols_set_floor (store_time c now) c]> (db_sessions d))).

Lemma within_append rid sid rev ty data now : writes_events -> within R (append_event_data rid sid rev ty data now).
Proof.
  intros HE d. apply wp_quiet; [apply quiet_append|]. intros [] d' H. apply append_event_data_Next in H as [_ ->].
  apply HE.
Qed.
Lemma within_message_event rid m now : writes_events -> within R (append_message_event rid m now).
Proof. apply within_append. Qed.
Lemma within_record {C} `{!MutableRequest C} sid (c : C) eff r : writes_ledger -> within R (record_bytes sid c eff r).
Proof.
  intros HL d. apply wp_quiet; [apply quiet_insert_ledger|]. intros [] d' H. apply insert_ledger_Next in H as [_ ->].
  apply HL.
Qed.
Lemma within_finish {C A} `{!MutableRequest C} sid (c : C) e : writes_ledger ->
  within R (finish_failure sid c e : Tx A).
Proof.
  intros HL d. by apply wp_fail.
Qed.
Lemma within_replay {C} `{!MutableRequest C} (c : C) : within R (replay_bytes c).
Proof.
  apply within_read; [done|apply quiet_replay_bytes|]. intros d a d' H. by apply replay_bytes_Next in H as [-> _].
Qed.
Lemma within_load_session sid : within R (load_session_in sid).
Proof.
  apply within_read; [done|apply quiet_load_session_in|]. intros d a d' H. by apply load_session_in_Next in H as [-> _].
Qed.
Lemma within_require_open sid act : within R (require_open_session sid act).
Proof.
  apply within_read; [done|apply quiet_require_open_session|]. intros d a d' H.
  by apply require_open_session_Next in H as [-> _].
Qed.
Lemma within_authorize sid ctx e act now : advances now -> within R (authorize_launch sid ctx e act now).
Proof.
  intros HA d. unfold authorize_launch. wp_auto. unfold wp, catch.
  destruct (require_open_session sid act d) as [row d0|err|d0 err] eqn:E; [|cbn; reflexivity|by apply quiet_require_open_session in E].
  apply require_open_session_Next in E as (-> & c & Hc & Hrow & _). apply decode_session_Ok in Hrow.
  destruct Hrow as (_ & _ & _ & _ & _ & _ & _ & _ & _ & _ & _ & Hfl).
  change (wp (t ← advance_time_floor sid (sr_time_floor row) now; mret (require_owner row (rc_caller ctx) e t))
    (fun _ d' => R d d') (R d) d).
  apply wp_bind, wp_quiet; [apply quiet_advance|]. intros t d' H. apply advance_time_floor_Next in H as [-> ->].
  unfold advance. rewrite Hc, Hfl. wp_auto. by apply HA.
Qed.

#[local] Hint Resolve within_append within_message_event within_record within_finish within_replay within_load_session
  within_require_open within_authorize within_catch : within.

Lemma within_session_time sid : within R (session_time sid).
Proof. unfold session_time. within_auto. Qed.
Lemma within_capacity lp sid res n : within R (ensure_derived_capacity lp sid res n).
Proof. unfold ensure_derived_capacity. within_auto. Qed.
Lemma within_load_operation id : within R (load_operation_in id).
Proof. unfold load_operation_in. within_auto. Qed.
Lemma within_load_message id : within R (load_message_in id).
Proof. unfold load_message_in. within_auto. Qed.
Lemma within_load_participant id : within R (load_participant_in id).
Proof. unfold load_participant_in. within_auto. Qed.
Lemma within_load_template id : within R (load_template_in id).
Proof. unfold load_template_in. within_auto. Qed.
Lemma within_load_launch id : within R (load_launch_in id).
Proof. unfold load_launch_in. within_auto. Qed.
Lemma within_cancellation id : within R (participant_cancellation_requested id).
Proof. unfold participant_cancellation_requested. within_auto. Qed.
Lemma within_allows sid t : within R (session_allows_template sid t).
Proof. unfold session_allows_template. within_auto. Qed.
Lemma within_one_row n : within R (one_row n).
Proof. unfold one_row. within_auto. Qed.
Lemma within_expect {E A} (r : result E A) : within R (expect r).
Proof. apply within_lift, _. Qed.

Lemma within_insert_message m q : writes_messages -> within R (insert_message m q).
Proof. intros H. within_statement. Qed.
Lemma within_update_message m : writes_messages -> within R (update_message_snapshot m).
Proof. intros H. within_statement. Qed.
Lemma within_upsert p c : writes_counters -> within R (upsert_counter p c).
Proof. intros H. within_statement. Qed.
Lemma within_decrement m : writes_counters -> within R (decrement_mailbox_bytes m).
Proof.
  intros H. unfold decrement_mailbox_bytes. refine (within_bind _ _ _ _ _); [within_auto|intros n]. within_statement.
Qed.
Lemma within_resume_row op prev rev reply t : writes_operations -> within R (resume_operation_row op prev rev reply t).
Proof. intros H. within_statement. Qed.
Lemma within_insert_operation o p t : writes_operations -> within R (insert_operation o p t).
Proof. intros H. within_statement. Qed.
Lemma within_update_operation o rev e : writes_operations -> within R (update_operation_row o rev e).
Proof. intros H. within_statement. Qed.
Lemma within_insert_participant p : writes_participants -> within R (insert_participant p).
Proof. intros H. within_statement. Qed.
Lemma within_insert_template t : writes_templates -> within R (insert_template t).
Proof.
  intros H. apply within_write. intros d. destruct (db_templates d !! tr_identity t) eqn:E; cbn [is_some];
    [apply wp_abort|apply wp_put; by apply H].
Qed.
Lemma within_insert_launch l : writes_launches -> within R (insert_launch l).
Proof.
  intros H. unfold insert_launch. refine (within_bind _ _ _ _ _); [within_auto|intros e].
  refine (within_bind _ _ _ _ _); [within_auto|intros rev]. within_statement.
Qed.
Lemma within_update_launch l e : writes_launches -> within R (update_launch l e).
Proof.
  intros H. unfold update_launch. refine (within_bind _ _ _ _ _); [within_auto|intros rev].
  refine (within_bind _ _ _ _ _); [within_auto|intros x]. within_statement.
Qed.
End statements.
#[export] Hint Resolve within_append within_message_event within_record within_finish within_replay within_load_session
  within_require_open within_authorize within_catch within_session_time within_capacity within_load_operation
  within_load_message within_load_participant within_load_template within_load_launch within_cancellation within_allows
  within_one_row within_expect within_insert_message within_update_message within_upsert within_decrement
  within_resume_row within_insert_operation within_update_operation within_insert_participant within_insert_template
  within_insert_launch within_update_launch : within.

#[export] Hint Extern 2 (writes_events _) => done : within.
#[export] Hint Extern 2 (writes_ledger _) => done : within.
#[export] Hint Extern 2 (writes_messages _) => done : within.
#[export] Hint Extern 2 (writes_counters _) => done : within.
#[export] Hint Extern 2 (writes_operations _) => done : within.
#[export] Hint Extern 2 (writes_participants _) => done : within.
#[export] Hint Extern 2 (writes_templates _) => done : within.
#[export] Hint Extern 2 (writes_launches _) => done : within.

(** ** Handlers *)

Section handlers.
Context {TL : TimeLib} {TA : TimeArith} {SH : Sha256} {JS : Json} {JR : JsonRaw} {UT : UuidText}.
Context (R : Db -> Db -> Prop) {PO : PreOrder R}.
Variable max_lease_millis : Z.
Variable limit_profile : LimitProfile.
Hypothesis (HE : writes_events R) (HL : writes_ledger R).

Lemma within_replay_message {C} `{!MutableRequest C} (c : C) : within R (replay_json_message c).
Proof using PO. unfold replay_json_message. within_auto. Qed.
Lemma within_replay_participant {C} `{!MutableRequest C} (c : C) : within R (replay_json_participant c).
Proof using PO. unfold replay_json_participant. within_auto. Qed.
Lemma within_replay_operation {C} `{!MutableRequest C} (c : C) : within R (replay_json_operation c).
Proof using PO. unfold replay_json_operation. within_auto. Qed.
Lemma within_replay_launch {C} `{!MutableRequest C} (c : C) : within R (replay_json_launch c).
Proof using PO. unfold replay_json_launch. within_auto. Qed.
#[local] Hint Resolve within_replay_message within_replay_participant within_replay_operation within_replay_launch : within.

(** *** The mailbox *)

Lemma within_causal c : within R (body_is_causal c).
Proof using PO. unfold body_is_causal. within_auto. Qed.
#[local] Hint Resolve within_causal : within.
Lemma enqueue_within now c : advances R now -> writes_messages R -> writes_counters R ->
  within R (enqueue_message limit_profile now c).
Proof. intros HA HM HC. unfold enqueue_message. within_auto. Qed.

Lemma within_record_lease c o : within R (record_lease c o).
Proof. unfold record_lease. within_auto. Qed.
#[local] Hint Resolve within_record_lease : within.
Lemma lease_within now c : advances R now -> writes_messages R -> writes_counters R ->
  within R (lease_next_message max_lease_millis now c).
Proof. intros HA HM HC. unfold lease_next_message, lease_selected, take_over, lease_anew. within_auto. Qed.

Lemma within_resume now t c m : writes_operations R -> within R (resume_operation now t c m).
Proof. intros HO. unfold resume_operation. within_auto. Qed.
#[local] Hint Resolve within_resume : within.
Lemma report_within now c : advances R now -> writes_messages R -> writes_counters R -> writes_operations R ->
  within R (transition_message_delivery max_lease_millis limit_profile now c).
Proof. intros HA HM HC HO. unfold transition_message_delivery. within_auto. Qed.

Lemma insert_hierarchy_within sid rid mid src dst corr env now : writes_messages R -> writes_counters R ->
  within R (insert_hierarchy_message sid rid mid src dst corr env now).
Proof. intros HM HC. unfold insert_hierarchy_message. within_auto. Qed.
Lemma retire_within rid o now : writes_messages R -> writes_counters R -> within R (retire_correlated_messages rid o now).
Proof.
  intros HM HC. unfold retire_correlated_messages. refine (within_bind _ _ _ _ _); [within_auto|intros d].
  generalize (merge_sort sequence_le (filter (fun e =>
       mg_session_id e.2 = on_session_id o /\
       mc_operation_id (ms_correlation (mg_snapshot e.2)) = Some (on_operation_id o) /\
       mg_destination e.2 = on_participant_id o /\
       delivery_is_terminal (ms_state (mg_snapshot e.2)) = false) (map_to_list (db_messages d)))).
  intros rows. induction rows as [|e rows IH]; cbn [retire_messages]; [within_auto|].
  refine (within_bind _ _ _ _ _); [unfold retire_message; within_auto|by intros].
Qed.

(** *** Templates and participants *)

Lemma register_within t : writes_templates R -> within R (register_template t).
Proof using PO. intros HT. unfold register_template. within_auto. Qed.
Lemma within_missing ts : writes_templates R -> within R (insert_missing_templates ts).
Proof using PO. intros HT. induction ts; cbn [insert_missing_templates]; within_auto. Qed.
Lemma within_validate_set ts : within R (validate_template_set_before_open ts).
Proof using PO. induction ts; cbn [validate_template_set_before_open]; within_auto. Qed.
Lemma within_validate_registered ts : within R (validate_registered_templates ts).
Proof using PO. induction ts; cbn [validate_registered_templates]; within_auto. Qed.
Lemma within_replayed_participant p : within R (replayed_participant p).
Proof using PO. unfold replayed_participant. within_auto. Qed.
#[local] Hint Resolve within_replayed_participant : within.

Lemma create_root_within now c : advances R now -> writes_participants R ->
  within R (create_root_participant limit_profile now c).
Proof. intros HA HP. unfold create_root_participant, commit_participant. within_auto. Qed.
Lemma create_child_within now c : advances R now -> writes_participants R ->
  within R (create_child_participant limit_profile now c).
Proof. intros HA HP. unfold create_child_participant, commit_participant. within_auto. Qed.

(** *** Operations *)

Lemma start_within now c : advances R now -> writes_operations R -> writes_messages R -> writes_counters R ->
  within R (start_operation limit_profile now c).
Proof. intros HA HO HM HC. unfold start_operation, replayed_start, commit_operation_start. within_auto. Qed.

Lemma within_correlation o c : within R (valid_report_correlation o c).
Proof using PO. unfold valid_report_correlation. within_auto. Qed.
#[local] Hint Resolve within_correlation insert_hierarchy_within retire_within : within.
Lemma finish_within c o now : writes_messages R -> writes_counters R -> within R (finish_operation c o now).
Proof.
  intros HM HC. unfold finish_operation, tell_parent, delivered, append_authority_event. within_auto.
Qed.
#[local] Hint Resolve finish_within : within.
Lemma transition_operation_within now c : advances R now -> writes_operations R -> writes_messages R ->
  writes_counters R -> within R (transition_operation limit_profile now c).
Proof. intros HA HO HM HC. unfold transition_operation, commit_operation_move, append_operation_event. within_auto. Qed.

(** *** Launches *)

Lemma prepare_within now c : advances R now -> writes_launches R -> within R (prepare_launch now c).
Proof. intros HA HW. unfold prepare_launch. within_auto. Qed.
Lemma mutate_within {C} `{!MutableRequest C} now sid ctx e aid rev (c : C) f : advances R now -> writes_launches R ->
  within R (mutate_launch now sid ctx e aid rev c f).
Proof. intros HA HW. unfold mutate_launch. within_auto. Qed.
End handlers.

(** *** Opening a session together with its templates *)

Section open.
Context {TL : TimeLib} {TA : TimeArith} {SH : Sha256} {JS : Json} {JR : JsonRaw} {UT : UuidText}.
Context (R : Db -> Db -> Prop) {PO : PreOrder R}.

(** A call at [now] inserts the session of an open request. *)
Definition opens (now : Timestamp) (q : OpenSession) : Prop := forall d key, db_sessions d !! os_session_id q = None ->
  R d (set_sessions d (<[os_session_id q := opened_cols key q now]> (db_sessions d))).

Lemma within_insert_session q now : opens now q -> within R (insert_session_row q now).
Proof.
  intros HO. unfold insert_session_row. apply within_write. intros d. cbv zeta. case_if as E; wp_auto. apply HO.
  apply orb_false_iff in E as [E _]. apply bool_decide_eq_false in E. by apply eq_None_not_Some.
Qed.
Lemma within_insert_manifest q : writes_manifests R -> within R (insert_session_manifest q).
Proof.
  intros HM. unfold insert_session_manifest. destruct (os_manifest q); [within_statement|within_auto].
Qed.
Lemma within_append_event rid sid rev ty now : writes_events R -> within R (append_event rid sid rev ty now).
Proof. apply within_append. Qed.
Lemma within_validate_manifest q : within R (validate_session_manifest_in q).
Proof. unfold validate_session_manifest_in. within_auto. Qed.
Lemma within_replay_session {C} `{!MutableRequest C} (c : C) : within R (replay_json_session c).
Proof. unfold replay_json_session. within_auto. Qed.

#[local] Hint Resolve within_insert_session within_insert_manifest within_append_event within_validate_manifest
  within_validate_set within_validate_registered within_missing : within.
Lemma open_resolved_within now c q : writes_events R -> writes_ledger R -> writes_templates R -> writes_manifests R ->
  opens now q -> within R (open_resolved now c q).
Proof. intros HE HL HT HM HO. unfold open_resolved. within_auto. Qed.

Lemma open_session_of_Some d key id : open_session_of d key = Some id -> exists c, db_sessions d !! id = Some c.
Proof.
  unfold open_session_of. destruct (List.find _ _) as [[i c]|] eqn:E; [|done]. intros [= <-].
  apply List.find_some in E as [Hin _]. apply list_elem_of_In, elem_of_map_to_list in Hin. eauto.
Qed.

(** The session a request resolves to is the requested one, or one that exists. *)
Lemma resolve_open_wp c (Q : OpenSession -> Db -> Prop) (F : Db -> Prop) d :
  (forall v, F (set_ledger d v)) -> Q (ro_open c) d ->
  (forall id, is_Some (db_sessions d !! id) -> Q (with_session_id (ro_open c) id) d) ->
  wp (resolve_open c) Q F d.
Proof.
  intros HF H1 H2.
  unfold resolve_open. case_if as E0; [by wp_auto|]. wp_auto.
  destruct (open_session_of d (os_consumer_key (ro_open c))) as [id|] eqn:Eid; [|by case_if as E; wp_auto].
  apply open_session_of_Some in Eid as [cols Hcols]. apply wp_bind, wp_quiet; [apply quiet_load_session_in|].
  intros o d' H. apply load_session_in_Next in H as [-> _]. wp_auto.
  case_if as E1; [by apply wp_fail|]. case_if as E2; [by apply wp_fail|]. case_if as E3; [by apply wp_fail|].
  wp_auto. eauto.
Qed.
End open.

(** [R], while a session exists. *)
Definition while_open (id : SessionId) (R : Db -> Db -> Prop) (d d' : Db) : Prop :=
  is_Some (db_sessions d !! id) -> R d d' /\ is_Some (db_sessions d' !! id).
#[global] Instance while_open_po id R : PreOrder R -> PreOrder (while_open id R).
Proof.
  intros HR. split.
  - intros d. split; [reflexivity|done].
  - intros a b c H1 H2 Ha. destruct (H1 Ha) as [? Hb]. destruct (H2 Hb). split; [by etrans|done].
Qed.

Section open_request.
Context {TL : TimeLib} {TA : TimeArith} {SH : Sha256} {JS : Json} {JR : JsonRaw} {UT : UuidText}.
Context (R : Db -> Db -> Prop) {PO : PreOrder R}.

Lemma register_open_within now c : writes_events R -> writes_ledger R -> writes_templates R -> writes_manifests R ->
  opens R now (ro_open c) -> within R (register_templates_and_open_session now c).
Proof.
  intros HE HL HT HM HO. unfold register_templates_and_open_session.
  refine (within_bind _ _ _ _ _); [by apply within_replay_session|]. intros [snapshot|].
  { pose proof (within_validate_registered R (ro_templates c)). within_auto. }
  intros d. wp_auto. apply resolve_open_wp; [intros; apply HL|by apply open_resolved_within|]. intros id Hid.
  assert (Hw : within (while_open id R) (open_resolved now c (with_session_id (ro_open c) id))).
  { apply open_resolved_within; [apply _|..].
    1,2,4: intros d0 v Hs; split; [by auto|done].
    - intros d0 key c0 Hn Hs. split; [by apply HT|done].
    - intros d0 key Hn [x Hx]. cbn in Hn. by rewrite Hn in Hx. }
  eapply wp_mono; [apply Hw|..]; intros; by apply H.
Qed.
End open_request.
