(* ===== verification/JournalFootprint.v ===== *)
(** * JournalFootprint: which tables the journal and tool handlers write

    Frame conditions, as in Footprint.v, of the handlers of SqliteEffect.v,
    SqliteTool.v and SqliteResolve.v: outside their own tables they
    append events, record requests and advance one clock. *)
From S2P Require Import Prelude Scalars Session Authority Operation RecoveryTable Capacity Json StoreApi StoreWire.
From S2P Require Import Approval Template Message OperationApi ToolApi EffectApi SqliteDb SqliteSession SessionLedger Ownership.
From S2P Require Import SqliteMailbox SqliteOperation SqliteLaunch SqliteEffect SqliteTool SqliteResolve MailboxLedger Footprint.

Section statements.
Context {TL : TimeLib} {TA : TimeArith} {SH : Sha256} {JS : Json} {UT : UuidText}.
Context (R : Db -> Db -> Prop) {PO : PreOrder R}.

Definition writes_effects : Prop := forall d v, R d (set_effects d v).
(** The tables beside the journal itself, and the grants. *)
Definition writes_tools : Prop := (forall d v, R d (set_effect_mutations d v)) /\
  (forall d v, R d (set_registrations d v)) /\ (forall d v, R d (set_connections d v)) /\
  (forall d v, R d (set_tools d v)) /\ (forall d v, R d (set_tool_mutations d v)).
Definition writes_grants : Prop := forall d v, R d (set_grants d v).

Lemma within_enter_session sid act caller e now : advances R now -> within R (enter_session sid act caller e now).
Proof.
  intros HA. unfold enter_session. intros d. apply wp_bind, wp_quiet; [apply quiet_require_open_session|].
  intros row d' H. apply require_open_session_Next in H as (-> & c & Hc & Hrow & _). apply decode_session_Ok in Hrow.
  destruct Hrow as (_ & _ & _ & _ & _ & _ & _ & _ & _ & _ & _ & Hfl).
  apply wp_bind, wp_quiet; [apply quiet_advance|]. intros t d' H. apply advance_time_floor_Next in H as [-> ->].
  unfold advance. rewrite Hc, Hfl. wp_auto. by apply HA.
Qed.
Lemma within_enter sid act caller e now : advances R now -> within R (enter_owned sid act caller e now).
Proof. intros HA. unfold enter_owned. pose proof (within_enter_session sid act caller e now HA). within_auto. Qed.

Lemma within_insert_effect e : writes_effects -> within R (insert_effect e).
Proof.
  intros H. unfold insert_effect. refine (within_bind _ _ _ _ _); [within_auto|intros ?].
  refine (within_bind _ _ _ _ _); [within_auto|intros ?]. within_statement.
Qed.
Lemma within_update_effect e : writes_effects -> within R (update_effect e).
Proof.
  intros H. unfold update_effect. refine (within_bind _ _ _ _ _); [within_auto|intros ?].
  refine (within_bind _ _ _ _ _); [within_auto|intros ?]. refine (within_bind _ _ _ _ _); [within_auto|intros ?].
  within_statement.
Qed.
Lemma within_insert_mutation ctx id dg r : writes_tools -> within R (insert_effect_mutation ctx id dg r).
Proof. intros (? & _). within_statement. Qed.
Lemma within_insert_registration v : writes_tools -> within R (insert_registration v).
Proof. intros (_ & ? & _). within_statement. Qed.
Lemma within_put_tool id row : writes_tools -> within R (put_tool id row).
Proof. intros (_ & _ & _ & ? & _). within_statement. Qed.
Lemma within_insert_tool v q g : writes_tools -> within R (insert_tool v q g).
Proof. intros (_ & _ & _ & ? & _). within_statement. Qed.
Lemma within_advance_sequence key cond n : writes_tools -> within R (advance_sequence key cond n).
Proof. intros (_ & _ & ? & _). within_statement. Qed.
Lemma within_record_tool c v : writes_tools -> within R (record_tool_mutation c v).
Proof. intros (_ & _ & _ & _ & ?). within_statement. Qed.
Lemma within_update_grant g : writes_grants -> within R (update_grant_in g).
Proof. intros ?. within_statement. Qed.

Lemma within_global id : within R (reject_global_request_collision id).
Proof. unfold reject_global_request_collision. within_auto. Qed.
Lemma within_recovery id : within R (reject_recovery_request_collision id).
Proof. unfold reject_recovery_request_collision. within_auto. Qed.
Lemma within_effect_collision id : within R (reject_effect_request_collision id).
Proof. unfold reject_effect_request_collision. within_auto. Qed.
Lemma within_identity a b : within R (reject_effect_identity_collision a b).
Proof. unfold reject_effect_identity_collision. within_auto. Qed.
Lemma within_recorded ctx id dg : within R (recorded_mutation ctx id dg).
Proof. unfold recorded_mutation. within_auto. Qed.
Lemma within_load_effect id : within R (load_effect_in id).
Proof. unfold load_effect_in. within_auto. Qed.
Lemma within_load_registration sid n v : within R (load_tool_registration_in sid n v).
Proof. unfold load_tool_registration_in. within_auto. Qed.
End statements.
#[export] Hint Resolve within_enter_session within_enter within_insert_effect within_update_effect within_insert_mutation
  within_insert_registration within_put_tool within_insert_tool within_advance_sequence within_record_tool
  within_update_grant within_global within_recovery within_effect_collision within_identity within_recorded
  within_load_effect within_load_registration within_append_event : within.
#[export] Hint Extern 2 (writes_effects _) => assumption : within.
#[export] Hint Extern 2 (writes_tools _) => assumption : within.
#[export] Hint Extern 2 (writes_grants _) => assumption : within.

(** ** Handlers *)

Section handlers.
Context {TL : TimeLib} {TA : TimeArith} {SH : Sha256} {JS : Json} {UT : UuidText}.
Context (R : Db -> Db -> Prop) {PO : PreOrder R}.
Variable max_lease_millis : Z.

Lemma within_commit_entry e : writes_effects R -> within R (commit_entry e).
Proof using PO. intros HJ. unfold commit_entry. within_auto. Qed.
#[local] Hint Resolve within_commit_entry : within.
Lemma within_load_tool id : within R (load_tool_invocation_in id).
Proof using PO. unfold load_tool_invocation_in. within_auto. Qed.
Lemma within_load_grant id : within R (load_grant_in id).
Proof using PO. unfold load_grant_in. within_auto. Qed.
Lemma within_load_grant_of i : within R (load_grant_of i).
Proof using PO. unfold load_grant_of, load_grant_in. within_auto. Qed.
Lemma within_load_policy id : within R (load_authority_policy_in id).
Proof using PO. unfold load_authority_policy_in. within_auto. Qed.
Lemma within_recorded_tool c : within R (recorded_tool_mutation c).
Proof using PO. unfold recorded_tool_mutation. within_auto. Qed.
#[local] Hint Resolve within_load_tool within_load_grant within_load_grant_of within_load_policy within_recorded_tool : within.

Lemma reserve_effect_within now c : advances R now -> writes_effects R -> within R (reserve_effect max_lease_millis now c).
Proof using PO. intros HA HJ. unfold reserve_effect. within_auto. Qed.
Lemma transition_effect_within now c : advances R now -> writes_effects R -> writes_tools R ->
  within R (transition_effect now c).
Proof using PO. intros HA HJ HT. unfold transition_effect. within_auto. Qed.
Lemma takeover_effect_within now c : advances R now -> writes_effects R -> writes_tools R ->
  within R (takeover_effect max_lease_millis now c).
Proof using PO. intros HA HJ HT. unfold takeover_effect. within_auto. Qed.

Lemma within_settle_tool c rev : writes_tools R -> within R (settle_tool c rev).
Proof using PO. intros HT. unfold settle_tool. within_auto. Qed.
Lemma within_validate_resolution c r : within R (validate_authorized_effect_replay c r).
Proof using PO. unfold validate_authorized_effect_replay. within_auto. Qed.
#[local] Hint Resolve within_settle_tool within_validate_resolution : within.
Lemma resolve_effect_within now c : advances R now -> writes_events R -> writes_effects R -> writes_tools R -> writes_grants R ->
  within R (resolve_authorized_effect now c).
Proof using PO. intros HA HE HJ HT HG. unfold resolve_authorized_effect. within_auto. Qed.

Lemma within_replay_registration c : within R (replay_json_registration c).
Proof using PO. unfold replay_json_registration. within_auto. Qed.
Lemma within_aliased c : within R (reject_aliased_tool_registration c).
Proof using PO. unfold reject_aliased_tool_registration. within_auto. Qed.
#[local] Hint Resolve within_replay_registration within_aliased : within.
Lemma register_tool_within now c : advances R now -> writes_events R -> writes_ledger R -> writes_tools R ->
  within R (register_tool now c).
Proof using PO. intros HA HE HL HT. unfold register_tool. within_auto. Qed.

Lemma within_replay_connection c : within R (replay_json_connection c).
Proof using PO. unfold replay_json_connection. within_auto. Qed.
Lemma within_reconnect c g rows : writes_tools R -> within R (reconnect_pending c g rows).
Proof using PO. intros HT. induction rows as [|[id row] rows IH]; cbn [reconnect_pending]; within_auto. Qed.
Lemma within_upsert_connection key row : writes_tools R -> within R (upsert_connection key row).
Proof using PO. intros (_ & _ & ? & _). within_statement. Qed.
#[local] Hint Resolve within_replay_connection within_reconnect within_upsert_connection : within.
Lemma connect_within now c : advances R now -> writes_events R -> writes_ledger R -> writes_tools R ->
  within R (connect_tool_provider now c).
Proof using PO. intros HA HE HL HT. unfold connect_tool_provider. within_auto. Qed.

Lemma reserve_tool_within now c : advances R now -> writes_events R -> writes_effects R -> writes_tools R ->
  within R (reserve_tool_invocation max_lease_millis now c).
Proof using PO. intros HA HE HJ HT. unfold reserve_tool_invocation. within_auto. Qed.

Lemma within_tool_start v now : writes_grants R -> within R (authorize_tool_start v now).
Proof using PO. intros HT. unfold authorize_tool_start. within_auto. Qed.
Lemma within_moved_dispatch c v k : writes_tools R -> within R (moved_dispatch c v k).
Proof using PO. intros HT. unfold moved_dispatch. within_auto. Qed.
#[local] Hint Resolve within_tool_start within_moved_dispatch : within.
Lemma transition_tool_within now c : advances R now -> writes_events R -> writes_effects R -> writes_tools R -> writes_grants R ->
  within R (transition_tool now c).
Proof using PO. intros HA HE HJ HT HG. unfold transition_tool, commit_tool_move. within_auto. Qed.
End handlers.
