(* ===== verification/OperationLedger.v ===== *)
(** * OperationLedger: what one operation transaction does

    The contract of the handlers that write the table of operations ([op_change]): they
    leave it alone, insert one queued operation of a participant that has none
    unfinished, or move one operation along [next_operation_state].  Proved for the
    handlers of SqliteOperation.v and for the delivery reports of SqliteMailbox.v, which
    resume operations. *)
From S2P Require Import Prelude Scalars Session Text Authority Operation Capacity Json StoreApi StoreWire.
From S2P Require Import Approval Template Message OperationApi SqliteDb SqliteSession SessionLedger Ownership.
From S2P Require Import SqliteMailbox SqliteOperation SqliteLaunch MailboxLedger Footprint.

(** ** Rows *)

Section rows.
Context {TL : TimeLib} {TA : TimeArith}.

(** The row holds a state with the outcome, the question and the dates that go with it. *)
Record op_row_wf (s : OperationState) (c : OperationCols) : Prop := {
  ow_state : oc_state c = operation_state_name s;
  ow_name : oc_terminal_outcome c = terminal_outcome_name <$> oc_terminal_payload c;
  ow_outcome : valid_terminal_outcome s (oc_terminal_payload c) = true;
  ow_waiting : Bool.eqb (bool_decide (s = OpWaiting)) (is_some (oc_waiting_on_message_id c)) = true;
  ow_dates : Timestamp_wf (oc_created_at c) /\ Timestamp_wf (oc_updated_at c) /\
             Timestamp_le (oc_created_at c) (oc_updated_at c);
  ow_digest : llen (oc_input_digest c) = 32;
  ow_revision : 0 < oc_revision c <= i64_max;
}.
Definition row_snapshot (id : OperationId) (s : OperationState) (c : OperationCols) : OperationSnapshot :=
  MkOperationSnapshot (oc_session_id c) id (oc_participant_id c) (oc_start_request_id c) (oc_input_message_id c)
    (oc_waiting_on_message_id c) (oc_input_digest c) s (MkRevision (oc_revision c)) (oc_terminal_payload c)
    (oc_created_at c) (oc_updated_at c).

Lemma parse_state_name s : parse_operation_state (operation_state_name s) = Ok s.
Proof. by destruct s. Qed.
Lemma parse_state_Ok name s : parse_operation_state name = Ok s -> name = operation_state_name s.
Proof.
  unfold parse_operation_state. repeat case_match; intros ?; simplify_eq;
    match goal with H : String.eqb _ _ = true |- _ => by apply String.eqb_eq in H end.
Qed.
Lemma outcome_valid s p : valid_terminal_outcome s p = true <->
  Bool.eqb (is_terminal s) (is_some p) = true /\
  (match p with Some o => negb (terminal_matches_state s o) | None => false end) = false.
Proof. destruct s, p as [[]|]; cbn; split; try (by intros [? ?]); done. Qed.

Lemma decode_operation_Ok id c o : decode_operation id c = Ok o ->
  exists s, o = row_snapshot id s c /\ oc_state c = operation_state_name s /\
    oc_terminal_outcome c = terminal_outcome_name <$> oc_terminal_payload c /\
    valid_terminal_outcome s (oc_terminal_payload c) = true /\ 0 < oc_revision c /\
    Bool.eqb (bool_decide (s = OpWaiting)) (is_some (oc_waiting_on_message_id c)) = true.
Proof.
  unfold decode_operation. intros H. apply bind_Ok in H as (s & Hs & H). apply bind_Ok in H as (cr & Hcr & H).
  apply bind_Ok in H as (up & Hup & H). apply decode_ts_Ok in Hcr as ->, Hup as ->.
  case_if_in H as E; [done|]. apply bind_Ok in H as (dg & Hdg & H). apply bind_Ok in H as (rv & Hrv & H).
  case_if_in H as E2; [done|]. injection H as <-. case_if_in Hdg as E3; [|done]. injection Hdg as <-.
  assert (Hr : rv = MkRevision (oc_revision c) /\ 0 < oc_revision c).
  { unfold decode_revision, to_u64, Revision_new in Hrv. inv_result. split; [done|lia]. }
  destruct Hr as [-> Hr]. exists s. unfold neqb, eqb in *. bool_norm. split; [done|].
  unfold corrupt, map_err in Hs. destruct (parse_operation_state (oc_state c)) eqn:Ep; [|done]. injection Hs as ->.
  split; [by apply parse_state_Ok|]. split; [done|]. split; [|by split]. apply outcome_valid. by split.
Qed.

Context {TLaws : TimeLaws} {TALaws : TimeArithLaws}.
Lemma decode_operation_wf id s c : op_row_wf s c -> decode_operation id c = Ok (row_snapshot id s c).
Proof.
  intros [H1 H2 H3 H4 (H5 & H6 & H7) H8 H9]. unfold decode_operation. rewrite H1, parse_state_name. cbn [corrupt map_err].
  rewrite bind_of_Ok, !decode_ts_wf, !bind_of_Ok by done.
  apply outcome_valid in H3 as [H3a H3b]. rewrite (proj2 (Timestamp_ltb_ge _ _) H7), H3a, H3b. unfold neqb, eqb.
  rewrite bool_decide_eq_true_2 by done. cbn [negb orb]. rewrite (proj2 (Z.eqb_eq _ _) H8), bind_of_Ok.
  unfold decode_revision, to_u64, Revision_new. rewrite (proj2 (Z.leb_le _ _)), bind_of_Ok by lia.
  rewrite (proj2 (Z.eqb_neq _ _)) by lia. cbn [map_err]. rewrite bind_of_Ok. by rewrite H4.
Qed.
End rows.

(** ** The contract *)

Definition started_row (o : OperationSnapshot) (payload : bytes) (t : Timestamp) : OperationCols :=
  MkOperationCols (on_session_id o) (on_participant_id o) (on_start_request_id o) (on_input_message_id o) None
    (on_input_digest o) payload "queued" None None 1 t t.
Definition moved_row (c : OperationCols) (next : OperationState) (waiting : option MessageId)
    (outcome : option OperationTerminalOutcome) (revision : Revision) (t : Timestamp) : OperationCols :=
  MkOperationCols (oc_session_id c) (oc_participant_id c) (oc_start_request_id c) (oc_input_message_id c) waiting
    (oc_input_digest c) (oc_input_payload c) (operation_state_name next) (terminal_outcome_name <$> outcome) outcome
    (Revision_get revision) (oc_created_at c) t.

Section contract.
Context {TL : TimeLib} {TA : TimeArith} {SH : Sha256} {JS : Json} {JR : JsonRaw} {UT : UuidText}.

(** An operation moves from the decoded row [o] to [next] in a call that reads [now]. *)
Record op_move (d d' : Db) (id : OperationId) (c : OperationCols) (o : OperationSnapshot) (a : OperationAction)
    (next : OperationState) (waiting : option MessageId) (outcome : option OperationTerminalOutcome)
    (revision : Revision) (now : Timestamp) : Prop := {
  om_row : db_operations d !! id = Some c;
  om_decoded : decode_operation id c = Ok o;
  om_next : next_operation_state (on_state o) a = Some next;
  om_outcome : valid_terminal_outcome next outcome = true;
  om_waiting : Bool.eqb (bool_decide (next = OpWaiting)) (is_some waiting) = true;
  om_revision : Revision_next (on_revision o) = Some revision /\ Revision_get revision <= i64_max;
  om_time : exists t, floor_of d' (on_session_id o) = Some t /\ Timestamp_le now t;
  om_write : db_operations d' =
    <[id := moved_row c next waiting outcome revision (Timestamp_max now (on_updated_at o))]> (db_operations d);
}.

Inductive op_change (wf : Timestamp -> Prop) (d d' : Db) : Prop :=
| op_same : db_operations d' = db_operations d -> op_change wf d d'
| op_start o payload t :
    db_operations d !! on_operation_id o = None -> llen (on_input_digest o) = 32 ->
    (pc_session_id <$> db_participants d !! on_participant_id o) = Some (on_session_id o) ->
    (forall id c, db_operations d !! id = Some c -> unfinished (on_participant_id o) c = false) ->
    floor_of d' (on_session_id o) = Some t ->
    db_operations d' = <[on_operation_id o := started_row o payload t]> (db_operations d) -> op_change wf d d'
| op_moved id c o a next waiting outcome revision now :
    wf now -> op_move d d' id c o a next waiting outcome revision now -> op_change wf d d'.

Lemma op_change_then wf d d1 d2 : op_change wf d d1 -> db_operations d2 = db_operations d1 ->
  db_sessions d2 = db_sessions d1 -> op_change wf d d2.
Proof.
  intros Hc Eo Es. assert (Hf : forall sid, floor_of d2 sid = floor_of d1 sid) by (intros; unfold floor_of; by rewrite Es).
  destruct Hc as [H|o p t H1 H2 H3 H4 H5 H6|id c o a n w q rv now Hw [H1 H2 H3 H4 H5 H6 H7 H8]].
  - apply op_same. congruence.
  - apply (op_start _ _ _ o p t); try done; [by rewrite Hf|congruence].
  - eapply op_moved; [exact Hw|]. split; eauto; [|congruence]. by rewrite Hf.
Qed.

Lemma op_change_pre wf d d1 d2 : db_operations d1 = db_operations d /\ db_participants d1 = db_participants d ->
  op_change wf d1 d2 -> op_change wf d d2.
Proof.
  intros [Eo Ep] Hc. destruct Hc as [H|o p t H1 H2 H3 H4 H5 H6|id c o a n w q rv now Hw [H1 H2 H3 H4 H5 H6 H7 H8]];
    rewrite Eo in *; rewrite ?Ep in *.
  - by apply op_same.
  - by apply (op_start _ _ _ o p t).
  - eapply op_moved; [exact Hw|]. by split.
Qed.

(** The state a handler is in after its authorization: the operations and participants
    are as before, and the clock floor has moved to the store's time. *)
Definition op_entered (sid : SessionId) (now : Timestamp) (d d1 : Db) : Prop :=
  db_operations d1 = db_operations d /\ db_participants d1 = db_participants d /\ db_templates d1 = db_templates d /\
  db_messages d1 = db_messages d /\
  exists c, db_sessions d !! sid = Some c /\ floor_of d1 sid = Some (store_time c now).

Lemma op_entered_kept sid now d d1 d2 wf : op_entered sid now d d1 -> db_operations d2 = db_operations d1 -> op_change wf d d2.
Proof. intros (H1 & _) E. apply op_same. congruence. Qed.

Lemma wp_op_authorize {C A} `{!MutableRequest C} (c : C) sid ctx e act now d
    (Q : A -> Db -> Prop) (F : Db -> Prop) (k : Tx A) :
  (forall d', db_operations d' = db_operations d -> F d') ->
  (forall d1, op_entered sid now d d1 -> by_owner sid ctx e now d -> wp k Q F d1) ->
  wp (authorized ← authorize_launch sid ctx e act now;
      match authorized with Err error => finish_failure sid c error | Ok _ => k end) Q F d.
Proof.
  intros HF Hk. apply wp_bind, wp_authorize.
  - intros err. by apply wp_fail; intros; apply HF.
  - intros t d1 r (c0 & Hc0 & -> & Hs) Hd1 Ho. destruct r as [[]|err].
    + apply Hk; [|exists c0; split; [done|by apply Ho]]. unfold op_entered. rewrite Hd1. split_and!; try done.
      exists c0. split; [done|]. unfold floor_of. cbn. by rewrite Hs, lookup_insert_eq.
    + apply wp_fail. intros v. apply HF. by rewrite Hd1.
Qed.

Variable max_lease_millis : Z.
Variable limit_profile : LimitProfile.

(** ** Starting *)

Definition ops_kept (d d' : Db) : Prop := db_operations d' = db_operations d.

Lemma wp_insert_operation o payload t (Q : unit -> Db -> Prop) F d :
  (db_operations d !! on_operation_id o = None -> llen (on_input_digest o) = 32 ->
   (forall id c, db_operations d !! id = Some c -> unfinished (on_participant_id o) c = false) ->
   Q tt (set_operations d (<[on_operation_id o := started_row o payload t]> (db_operations d)))) ->
  wp (insert_operation o payload t) Q F d.
Proof.
  intros HQ. unfold insert_operation. wp_auto. case_if as E; [done|]. wp_auto.
  apply orb_false_iff in E as [E E5]. apply orb_false_iff in E as [E E4]. apply orb_false_iff in E as [E E3].
  apply orb_false_iff in E as [E1 E2]. bool_norm. apply HQ.
  - by destruct (db_operations d !! on_operation_id o).
  - lia.
  - intros id c Hc. apply (existsb_false _ _ _ E4). unfold table_rows.
    apply (list_elem_of_fmap_2 snd _ (id, c)). by apply elem_of_map_to_list.
Qed.

Lemma decode_participant_Ok id c p : decode_participant id c = Ok p ->
  p = MkParticipant (pc_session_id c) id (pc_parent_participant_id c) (pc_depth c) (pc_template_id c)
        (pc_template_compatibility c) (MkRevision (pc_revision c)) /\
  0 < pc_revision c /\ 1 <= pc_depth c <= MAX_PARTICIPANT_DEPTH /\
  (pc_parent_participant_id c = None <-> pc_depth c = 1).
Proof.
  unfold decode_participant, to_u32, decode_revision, to_u64, Revision_new. intros H. inv_result.
  split; [done|]. split; [lia|]. split; [lia|]. destruct (pc_parent_participant_id c); cbn in *; bool_norm; split; (done || lia).
Qed.

Lemma wp_load_participant id (Q : option ParticipantSnapshot -> Db -> Prop) F d :
  (db_participants d !! id = None -> Q None d) ->
  (forall c p, db_participants d !! id = Some c -> decode_participant id c = Ok p -> Q (Some p) d) ->
  wp (load_participant_in id) Q F d.
Proof. intros HN HS. unfold load_participant_in. wp_auto. destruct (_ !! _) eqn:E; wp_auto; eauto. Qed.

Lemma wp_load_template id (Q : option TemplateRecord -> Db -> Prop) F d :
  (db_templates d !! id = None -> Q None d) ->
  (forall c t, db_templates d !! id = Some c -> decode_template id c = Ok t -> Q (Some t) d) ->
  wp (load_template_in id) Q F d.
Proof. intros HN HS. unfold load_template_in. wp_auto. destruct (_ !! _) eqn:E; wp_auto; eauto. Qed.

(** The statements after the insertion write neither operations nor sessions. *)
Definition op_frame (d d' : Db) : Prop :=
  db_operations d' = db_operations d /\ db_sessions d' = db_sessions d /\ db_participants d' = db_participants d.
#[global] Instance op_frame_po : PreOrder op_frame.
Proof. split; [done|]. intros a b c (?&?&?) (?&?&?). unfold op_frame. split_and!; congruence. Qed.
#[global] Instance ops_kept_po : PreOrder ops_kept.
Proof. split; [done|]. intros a b c. unfold ops_kept. congruence. Qed.

Definition start_written (o : OperationSnapshot) (payload : bytes) (t : Timestamp) (d d' : Db) : Prop :=
  db_operations d !! on_operation_id o = None /\ llen (on_input_digest o) = 32 /\
  (forall id c, db_operations d !! id = Some c -> unfinished (on_participant_id o) c = false) /\
  db_operations d' = <[on_operation_id o := started_row o payload t]> (db_operations d) /\
  db_sessions d' = db_sessions d.
Lemma wp_start_insert {A} o payload t (k : Tx A) (P : A -> Prop) d :
  within op_frame k -> returns P k ->
  wp (_ ← insert_operation o payload t; k) (fun v d' => P v /\ start_written o payload t d d')
    (start_written o payload t d) d.
Proof.
  intros Hk Hr. apply wp_bind, wp_insert_operation. intros H1 H2 H3.
  eapply wp_mono; [apply wp_and; [apply Hk|apply Hr]|..].
  - intros v d' [(Eo & Es & _) HP]. split_and!; done.
  - intros d' [(Eo & Es & _) _]. split_and!; done.
Qed.

Lemma commit_start_call c o t d :
  wp (commit_operation_start c o t) (fun v d' => v = Applied o /\ start_written o (TaskInput_as_bytes (so_input c)) t d d')
    (start_written o (TaskInput_as_bytes (so_input c)) t d) d.
Proof.
  apply (wp_start_insert o _ t _ (fun v => v = Applied o)); [|returns_auto].
  within_auto.
Qed.

(** A start that was carried out inserted a queued operation with the digest of its
    input, for a participant of the session, at the store's time. *)
Definition start_answer (c : StartOperation) (d d' : Db) (o : OperationSnapshot) : Prop :=
  on_operation_id o = so_operation_id c /\ on_participant_id o = so_participant_id c /\ on_state o = OpQueued /\
  on_input_digest o = input_digest (TaskInput_as_bytes (so_input c)) /\
  (exists t, on_created_at o = t /\ floor_of d' (so_session_id c) = Some t /\
     db_operations d' !! on_operation_id o = Some (started_row o (TaskInput_as_bytes (so_input c)) t)) /\
  exists p template registered, db_participants d !! so_participant_id c = Some p /\
    pc_session_id p = so_session_id c /\ (exists q, decode_participant (so_participant_id c) p = Ok q) /\
    (exists tc, db_templates d !! pc_template_id p = Some tc /\ decode_template (pc_template_id p) tc = Ok template) /\
    tr_compatibility template = pc_template_compatibility p /\ Template_try_from template = Ok registered /\
    is_ok (validate_input registered (TaskInput_as_bytes (so_input c))) = true.

Lemma start_call now c d :
  wp (start_operation limit_profile now c)
    (fun v d' => op_change Timestamp_wf d d' /\ carried (by_owner (so_session_id c) (so_context c) (so_epoch c) now d) v /\
       forall o, v = Applied o -> start_answer c d d' o)
    (op_change Timestamp_wf d) d.
Proof.
  unfold start_operation. cbv zeta. apply wp_bind, wp_read; [by apply within_replay_operation, _|by apply op_same|].
  intros [recorded|] _.
  { apply wp_read; [unfold replayed_start; within_auto|by apply op_same|]. intros v Hv. split; [by apply op_same|].
    assert (Hrep : returns (fun v => was_replayed v = true) (replayed_start recorded)) by (unfold replayed_start; returns_auto).
    specialize (Hrep d). unfold wp in Hrep. rewrite Hv in Hrep. split; [intros H; congruence|]. intros o ->. done. }
  apply wp_op_authorize; [intros; by apply op_same|]. intros d1 He Ho.
  assert (Hfail : forall e (Q : Mutation OperationSnapshot -> Db -> Prop),
    wp (finish_failure (so_session_id c) c e) Q (op_change Timestamp_wf d) d1).
  { intros. apply wp_fail. intros v. by eapply op_entered_kept. }
  pose proof He as (Eo & Ep & Et & _ & c0 & Hc0 & Hfl). set (t0 := store_time c0 now) in *.
  assert (Hle : Timestamp_le now t0) by apply Timestamp_max_le_r. wp_auto. apply wp_session_time. intros cols Hcols.
  assert (cols_t : sc_time_floor cols = t0) by (unfold floor_of in Hfl; rewrite Hcols in Hfl; by injection Hfl).
  rewrite cols_t. wp_auto. apply wp_load_participant; [by intros; apply Hfail|]. intros pc p Hpc Hp.
  case_if as E1; [apply Hfail|]. unfold neqb, eqb in E1. bool_norm.
  apply wp_bind, wp_read; [within_auto|by eapply op_entered_kept|]. intros [] _; [apply Hfail|].
  apply wp_bind, wp_load_template; [intros _; by wp_auto|]. intros tc template Htc Ht. wp_auto.
  match goal with H : ok_or _ _ = Ok _ |- _ => apply ok_or_Ok in H as [= <-] end.
  case_if as E2; [done|]. unfold neqb, eqb in E2. bool_norm. wp_auto.
  match goal with H : corrupt (Template_try_from _) = Ok ?x |- _ => rename x into registered;
    apply map_err_Ok in H as Hreg end.
  case_if as E3; [apply Hfail|]. bool_norm. wp_auto.
  apply wp_read; [within_auto|by eapply op_entered_kept|]. intros existing _. case_if as E4; [apply Hfail|].
  apply wp_bind, wp_read; [within_auto|by eapply op_entered_kept|]. intros _ _. case_if as E5; [apply Hfail|].
  apply wp_bind, wp_read; [within_auto|by eapply op_entered_kept|]. intros envelope _. cbv zeta.
  apply wp_bind, wp_read; [within_auto|by eapply op_entered_kept|]. intros _ _.
  apply wp_bind, wp_read; [within_auto|by eapply op_entered_kept|]. intros _ _.
  wp_auto. case_if as E6; [apply Hfail|].
  destruct (decode_participant_Ok _ _ _ Hp) as (-> & _).
  cbn [ps_session_id ps_template_id ps_template_compatibility] in *.
  assert (Hstart : forall o d', start_written o (TaskInput_as_bytes (so_input c)) t0 d1 d' ->
    on_session_id o = so_session_id c -> on_participant_id o = so_participant_id c -> op_change Timestamp_wf d d' /\ floor_of d' (so_session_id c) = Some t0).
  { intros o d' (W1 & W2 & W3 & W4 & W5) Es Epid. assert (Hf' : floor_of d' (so_session_id c) = Some t0)
      by (unfold floor_of in *; by rewrite W5). split; [|done].
    rewrite Eo in *. eapply (op_start _ _ _ o _ t0); eauto.
    - rewrite <-Ep, Epid, Hpc. cbn. congruence.
    - by rewrite Es. }
  eapply wp_mono; [apply commit_start_call|..].
  - intros v d' [-> Hw]. destruct (Hstart _ d' Hw eq_refl eq_refl) as [Hc Hf']. split; [done|]. split; [by intros _|].
    intros o [= <-]. split_and!; try done.
    + exists t0. split_and!; try done. destruct Hw as (_ & _ & _ & -> & _). by rewrite lookup_insert_eq.
    + rewrite Ep in Hpc. rewrite Et in Htc. exists pc, template, registered. split_and!; try done; eauto.
  - intros d' Hw. by destruct (Hstart _ d' Hw eq_refl eq_refl).
Qed.

(** ** Moving *)

(** The message a report has to name. *)
Definition report_correlated (d : Db) (o : OperationSnapshot) (c : TransitionOperation) : Prop :=
  match to_action c with
  | Wait => exists m, to_report_message_id c = Some m /\ m <> on_input_message_id o
  | Resume => is_Some (on_waiting_on_message_id o) /\ to_report_message_id c = on_waiting_on_message_id o
  | BeginStart | RequestCancel | ObserveIdle => to_report_message_id c = None
  | _ => match to_report_message_id c with
         | None => (to_action c = ReportFailure \/ to_action c = ReportUncertain) /\
                   (on_state o = OpQueued \/ on_state o = OpStarting)
         | Some id => exists r m, db_messages d !! id = Some r /\ decode_message_row id r = Ok m /\
             ms_session_id m = on_session_id o /\ ms_destination m = on_participant_id o /\
             mc_operation_id (ms_correlation m) = Some (on_operation_id o) /\
             exists attempt proof at_, ms_state m = MsAccepted attempt proof at_
         end
  end.

Lemma wp_correlation o c (Q : bool -> Db -> Prop) F d :
  (forall b, (b = true -> report_correlated d o c) -> Q b d) -> wp (valid_report_correlation o c) Q F d.
Proof.
  intros HQ. unfold valid_report_correlation. unfold report_correlated in HQ.
  assert (Hmsg : forall (Q : bool -> Db -> Prop) (P : Prop),
    (forall b, (b = true -> P) -> Q b d) ->
    (forall id r m a p t, to_report_message_id c = Some id -> db_messages d !! id = Some r ->
       decode_message_row id r = Ok m -> ms_state m = MsAccepted a p t -> ms_session_id m = on_session_id o ->
       ms_destination m = on_participant_id o -> mc_operation_id (ms_correlation m) = Some (on_operation_id o) -> P) ->
    wp (match to_report_message_id c with
        | None => mret false
        | Some message_id => loaded ← load_message_in message_id;
            mret (match loaded with
                  | None => false
                  | Some m => eqb (ms_session_id m) (on_session_id o) && eqb (ms_destination m) (on_participant_id o)
                      && eqb (mc_operation_id (ms_correlation m)) (Some (on_operation_id o))
                      && match ms_state m with MsAccepted _ _ _ => true | _ => false end
                  end) end) Q F d).
  { intros Q' P HQ' HP. destruct (to_report_message_id c) as [id|]; wp_auto; [|by apply HQ'].
    apply wp_load_message; [intros _; wp_auto; by apply HQ'|]. intros r m Hr Hdec. wp_auto. apply HQ'. unfold eqb. intros Hb.
    bool_norm. destruct (ms_state m) eqn:Est; try done. by eapply HP. }
  assert (Hnone : forall s, is_none (to_report_message_id c) && true && match s with OpQueued | OpStarting => true | _ => false end = true ->
    to_report_message_id c = None /\ (s = OpQueued \/ s = OpStarting)).
  { intros s Hb. bool_norm. destruct (to_report_message_id c); [done|]. split; [done|]. destruct s; auto; done. }
  destruct (to_action c) eqn:Ea; wp_auto;
    try (case_if as E; [wp_auto; apply HQ; intros _; try (by rewrite andb_false_r in E);
           destruct (Hnone _ E) as [-> ?]; split; auto|];
         eapply Hmsg; [exact HQ|]; intros id r m a p t -> Hr Hdec Hst H1 H2 H3; exists r, m; split_and!; eauto);
    apply HQ; intros Hb; unfold neqb, eqb in Hb; bool_norm; destruct (to_report_message_id c) as [id|]; try done.
  - exists id. split; [done|]. congruence.
  - split; [|done]. by destruct (on_waiting_on_message_id o).
Qed.

Lemma wp_update_operation o rev e (Q : Z -> Db -> Prop) F d :
  (forall n, n <> 1 -> Q n d) ->
  (forall c, db_operations d !! on_operation_id o = Some c -> oc_revision c = e ->
     Q 1 (set_operations d (<[on_operation_id o := MkOperationCols (oc_session_id c)
       (oc_participant_id c) (oc_start_request_id c) (oc_input_message_id c) (on_waiting_on_message_id o)
       (oc_input_digest c) (oc_input_payload c) (operation_state_name (on_state o))
       (terminal_outcome_name <$> on_terminal_outcome o) (on_terminal_outcome o) rev
       (oc_created_at c) (on_updated_at o)]> (db_operations d)))) ->
  wp (update_operation_row o rev e) Q F d.
Proof.
  intros HN HS. unfold update_operation_row. wp_auto. destruct (_ !! _) as [c|] eqn:E; [|wp_auto; by apply HN].
  case_if as E1; [|wp_auto; by apply HN]. bool_norm. case_if as E2; wp_auto. by apply HS.
Qed.

(** A move that was carried out took one legal step from the revision the caller has
    seen, with the outcome that belongs to the new state. *)
Definition move_answer (c : TransitionOperation) (d : Db) (o' : OperationSnapshot) : Prop :=
  exists row o, db_operations d !! to_operation_id c = Some row /\ decode_operation (to_operation_id c) row = Ok o /\
    on_session_id o = to_session_id c /\ on_revision o = to_expected_revision c /\
    next_operation_state (on_state o) (to_action c) = Some (on_state o') /\
    on_terminal_outcome o' = to_terminal_outcome c /\ valid_terminal_outcome (on_state o') (to_terminal_outcome c) = true /\
    report_correlated d o c.

Lemma waiting_agrees o a next w : next_operation_state (on_state o) a = Some next ->
  Bool.eqb (bool_decide (on_state o = OpWaiting)) (is_some (on_waiting_on_message_id o)) = true ->
  (a = Wait -> is_Some w) ->
  Bool.eqb (bool_decide (next = OpWaiting))
    (is_some (if eqb a Wait then w else if neqb next OpWaiting then None else on_waiting_on_message_id o)) = true.
Proof.
  intros Hn Hw Ha. unfold neqb, eqb. destruct (decide (a = Wait)) as [->|Hne].
  - rewrite (bool_decide_eq_true_2 (Wait = Wait)) by done. destruct (Ha eq_refl) as [x ->]. cbn.
    destruct (on_state o); try discriminate Hn. by injection Hn as <-.
  - rewrite (bool_decide_eq_false_2 (a = Wait)) by done.
    assert (next <> OpWaiting) by (intros ->; clear Hw; destruct (on_state o), a; cbn in Hn; congruence).
    by rewrite bool_decide_eq_false_2.
Qed.

(** The row of a committed move. *)
Definition move_written (c : TransitionOperation) (o : OperationSnapshot) (d d' : Db) : Prop :=
  Revision_get (on_revision o) <= i64_max /\
  (exists row, db_operations d !! on_operation_id o = Some row /\
   db_operations d' = <[on_operation_id o := moved_row row (on_state o) (on_waiting_on_message_id o)
     (on_terminal_outcome o) (on_revision o) (on_updated_at o)]> (db_operations d)) /\
  db_sessions d' = db_sessions d.
Lemma commit_move_call now c o d :
  wp (commit_operation_move now c o) (fun v d' => v = Applied o /\ move_written c o d d') (move_written c o d) d.
Proof.
  assert (Hfin : within op_frame (finish_operation c o now)) by (apply finish_within; [apply _|done..]).
  unfold commit_operation_move. wp_auto. unfold to_i64 in *. inv_result.
  apply wp_update_operation. { intros n Hn. unfold one_row. rewrite (proj2 (Z.eqb_neq n 1) Hn). by wp_auto. }
  intros row Hrow Hrev. apply wp_bind. change (one_row 1) with (mret tt : Tx unit). apply wp_ret.
  match goal with |- wp ?k _ _ _ =>
    assert (Hk : within op_frame k) by (unfold append_operation_event; within_auto);
    assert (Hr : returns (fun v => v = Applied o) k) by returns_auto end.
  eapply wp_mono; [apply wp_and; [apply Hk|apply Hr]|..].
  - intros v d' [(Eo & Es & _) ->]. split; [done|]. split; [done|]. split; [|done]. exists row. split; [done|]. by rewrite Eo.
  - intros d' [(Eo & Es & _) _]. split; [done|]. split; [|done]. exists row. split; [done|]. by rewrite Eo.
Qed.

Lemma transition_operation_call now c d : Timestamp_wf now ->
  wp (transition_operation limit_profile now c)
    (fun v d' => op_change Timestamp_wf d d' /\ carried (by_owner (to_session_id c) (to_context c) (to_epoch c) now d) v /\
       forall o', v = Applied o' -> move_answer c d o')
    (op_change Timestamp_wf d) d.
Proof.
  intros Hnow. unfold transition_operation. cbv zeta.
  apply wp_bind, wp_read; [by apply within_replay_operation, _|by apply op_same|].
  intros [o|] _. { wp_auto. split_and!; [by apply op_same|done|done]. }
  apply wp_op_authorize; [intros; by apply op_same|]. intros d1 He Ho.
  assert (Hfail : forall e (Q : Mutation OperationSnapshot -> Db -> Prop),
    wp (finish_failure (to_session_id c) c e) Q (op_change Timestamp_wf d) d1).
  { intros. apply wp_fail. intros v. by eapply op_entered_kept. }
  pose proof He as (Eo & Ep & Et & Em & c0 & Hc0 & Hfl). set (t0 := store_time c0 now) in *.
  assert (Hle : Timestamp_le now t0) by apply Timestamp_max_le_r.
  unfold load_operation_in. wp_auto. destruct (db_operations d1 !! to_operation_id c) as [row|] eqn:Erow; wp_auto; [|apply Hfail].
  match goal with H : decode_operation _ _ = Ok ?x |- _ => rename x into o; rename H into Hdec end.
  assert (Hcorr : forall (Q : bool -> Db -> Prop) F,
    (forall b, (b = true -> on_session_id o = to_session_id c /\ on_revision o = to_expected_revision c /\ report_correlated d1 o c) ->
       Q b d1) -> wp (if neqb (on_session_id o) (to_session_id c) || neqb (on_revision o) (to_expected_revision c)
           then mret false else valid_report_correlation o c) Q F d1).
  { intros Q F HQ. case_if as E; [wp_auto; by apply HQ|]. unfold neqb, eqb in E. bool_norm.
    apply wp_correlation. intros b Hb. apply HQ. auto. }
  apply Hcorr. intros valid Hvalid. case_if as E1; [apply Hfail|]. bool_norm. destruct (Hvalid E1) as (Hs & Hrev & Hrep).
  destruct (next_operation_state (on_state o) (to_action c)) as [next|] eqn:Enext; [|apply Hfail].
  case_if as E2; [apply Hfail|]. bool_norm.
  apply wp_bind, wp_read; [within_auto|by eapply op_entered_kept|]. intros _ _.
  apply wp_bind, wp_read; [within_auto|by eapply op_entered_kept|]. intros _ _.
  wp_auto. unfold next_revision in *. inv_result.
  match goal with H : Revision_next _ = Some ?x |- _ => rename x into rev; rename H into Hnext end.
  destruct (decode_operation_Ok _ _ _ Hdec) as (s0 & -> & _ & _ & _ & _ & Hwait). 
  assert (Hmove : forall d', move_written c (moved_operation now c (row_snapshot (to_operation_id c) s0 row) next rev) d1 d' ->
    op_change Timestamp_wf d d').
  { intros d' (Hmax & (row' & Hrow' & Hw) & Hss). cbn in Hrow'. rewrite Hrow' in Erow. injection Erow as ->.
    rewrite Eo in *. eapply (op_moved _ _ _ _ row _ _ _ _ _ _ now Hnow). split; [exact Hrow'|exact Hdec|exact Enext|exact E2| |
      split; [exact Hnext|exact Hmax]| |exact Hw].
    - apply waiting_agrees; [exact Enext|exact Hwait|]. intros Ha. unfold report_correlated in Hrep. rewrite Ha in Hrep.
      destruct Hrep as (m & -> & _). by eexists.
    - exists t0. unfold floor_of in *. rewrite Hss. split; [|done]. cbn in Hs |- *. by rewrite Hs. }
  eapply wp_mono; [apply commit_move_call|..].
  - intros v d' [-> Hw]. split; [by apply Hmove|]. split; [by intros _|]. intros o' [= <-].
    rewrite Eo in Erow. unfold report_correlated in Hrep. rewrite Em in Hrep.
    exists row, (row_snapshot (to_operation_id c) s0 row). split_and!; done.
  - intros d' Hw. by apply Hmove.
Qed.

(** ** Resuming *)

Lemma resume_call now t c m (Q : unit -> Db -> Prop) F d : Timestamp_wf t -> floor_of d (td_session_id c) = Some t ->
  (forall d', op_change Timestamp_wf d d' -> db_sessions d' = db_sessions d -> Q tt d') ->
  wp (resume_operation now t c m) Q F d.
Proof.
  intros Ht Hf HQ. assert (H0 : Q tt d) by (apply HQ; [by apply op_same|done]). unfold resume_operation.
  destruct (ms_state m); try (by wp_auto). destruct (env_body (ms_envelope m)) as [|op reply fb| | | |]; try (by wp_auto).
  unfold load_operation_in. wp_auto. destruct (db_operations d !! op) as [row|] eqn:Erow; wp_auto; [|done].
  match goal with H : decode_operation _ _ = Ok ?x |- _ => rename x into o; rename H into Hdec end.
  match goal with H : ok_or _ _ = Ok _ |- _ => apply ok_or_Ok in H as [= <-] end.
  case_if as E; [|by wp_auto]. unfold eqb in E. bool_norm. wp_auto. unfold next_revision, to_i64 in *. inv_result.
  unfold resume_operation_row. wp_auto. rewrite Erow. case_if as E2; [|by wp_auto]. wp_auto.
  change (one_row 1) with (mret tt : Tx unit). wp_auto.
  destruct (decode_operation_Ok _ _ _ Hdec) as (s & -> & _ & Hnm & Hout & _ & _). cbn [row_snapshot on_state] in *. subst s.
  assert (Hp : oc_terminal_payload row = None) by (by destruct (oc_terminal_payload row) as [[]|]).
  eapply wp_quiet; [apply quiet_append|]. intros [] d' Happ. apply append_event_data_Next in Happ as [_ ->]. apply HQ; [|done].
  eapply (op_moved _ _ _ op row (row_snapshot op OpWaiting row) Resume OpRunning None None _ t Ht).
  split; [exact Erow|exact Hdec|done|done|done|by split| |].
  - exists t. split; [|apply Timestamp_le_refl]. unfold floor_of in *. cbn in *. congruence.
  - cbn. f_equal. unfold moved_row. rewrite Hp, Hnm, Hp. done.
Qed.

Lemma report_op_call now c d : all_rows cols_wf d -> Timestamp_wf now ->
  wp (transition_message_delivery max_lease_millis limit_profile now c)
    (fun _ d' => op_change Timestamp_wf d d') (op_change Timestamp_wf d) d.
Proof.
  intros Hrows Hnow. unfold transition_message_delivery.
  apply wp_bind, wp_read; [by apply within_replay_message, _|by apply op_same|].
  intros [[m|]|] _; [by wp_auto; apply op_same|done|].
  apply wp_op_authorize; [intros; by apply op_same|]. intros d1 He _.
  assert (Hfail : forall e (Q : Mutation MessageSnapshot -> Db -> Prop),
    wp (finish_failure (td_session_id c) c e) Q (op_change Timestamp_wf d) d1).
  { intros. apply wp_fail. intros v. by eapply op_entered_kept. }
  pose proof He as (Eo & Ep & _ & _ & c0 & Hc0 & Hfl). set (t0 := store_time c0 now) in *.
  assert (Ht0 : Timestamp_wf t0).
  { destruct (Hrows _ _ Hc0) as [_ _ _ _ _ (_ & _ & Hf) _ _ _]. by apply Timestamp_max_wf. }
  apply wp_bind, wp_session_time. intros cols Hcols.
  assert (sc_time_floor cols = t0) as -> by (unfold floor_of in Hfl; rewrite Hcols in Hfl; by injection Hfl).
  destruct (retry_date max_lease_millis t0 (td_transition c)) as [date|err]; [|apply Hfail].
  apply wp_bind, wp_read; [within_auto|by eapply op_entered_kept|]. intros [m|] _; [|apply Hfail].
  case_if as E1; [apply Hfail|]. destruct (reported_lease t0 c m) as [l|]; [|apply Hfail].
  apply wp_bind, wp_read; [within_auto|by eapply op_entered_kept|]. intros _ _.
  apply wp_bind, wp_read; [within_auto|by eapply op_entered_kept|]. intros _ _.
  destruct (reported_state t0 c date m l) as [st|]; [|apply Hfail]. wp_auto.
  apply (wp_within op_frame); [within_auto| |by intros d' (E & _); eapply op_entered_kept].
  intros _ d2 (O2 & S2 & P2). wp_auto.
  apply (wp_within op_frame); [within_auto| |by intros d' (E & _); eapply op_entered_kept; [exact He|congruence]].
  intros _ d3 (O3 & S3 & P3). apply wp_bind, resume_call; [done|unfold floor_of in *; by rewrite S3, S2|].
  intros d4 Hc4 S4. assert (Hc : op_change Timestamp_wf d d4) by (eapply op_change_pre; [|exact Hc4]; split; congruence).
  apply (wp_within op_frame); [within_auto|..]; [intros _ d5 (O5 & S5 & _)|intros d5 (O5 & S5 & _)];
    by eapply op_change_then.
Qed.
End contract.
