(* ===== verification/OperationMail.v ===== *)
(** * OperationMail: the other handlers and the mailboxes

    Every handler of SqliteOperation.v and SqliteLaunch.v as a sequence of moves of the
    mailbox tables: starting an operation sends its input message, ending one retires
    the messages about it and tells the parent, and all others leave mailboxes alone and
    at most advance a clock floor. *)
From S2P Require Import Prelude Scalars Session Text Authority Operation Capacity Json StoreApi StoreWire.
From S2P Require Import Approval Template Message OperationApi SqliteDb SqliteSession SessionLedger Ownership.
From S2P Require Import SqliteMailbox SqliteOperation SqliteLaunch MailboxLedger Footprint OperationLedger.

Section moves.
Context {TL : TimeLib} {TA : TimeArith} {SH : Sha256} {JS : Json} {JR : JsonRaw} {UT : UuidText}.
Variable limit_profile : LimitProfile.

(** Any number of moves. *)
Definition mail_moves : Db -> Db -> Prop := rtc mail_move.
#[global] Instance mail_moves_po : PreOrder mail_moves.
Proof. unfold mail_moves. apply _. Qed.

Lemma same_moves d d' : same_mail d d' -> mail_moves d d'.
Proof. intros (Em & Ec & Es). apply rtc_once, write_move. split; [by apply mail_same|done]. Qed.
Lemma call_moves now d d' : Timestamp_wf now -> mail_call now d d' -> mail_moves d d'.
Proof. intros Hn Hc. by eapply rtc_once, call_move. Qed.
Lemma writes_moves d d' : mail_writes d d' -> mail_moves d d'.
Proof. apply rtc_subrel, write_move. Qed.

(** The tables that have nothing to do with mail, and the clock floors. *)
Lemma moves_events : writes_events mail_moves.
Proof. intros d v. by apply same_moves. Qed.
Lemma moves_ledger : writes_ledger mail_moves.
Proof. intros d v. by apply same_moves. Qed.
Lemma moves_operations : writes_operations mail_moves.
Proof. intros d v. by apply same_moves. Qed.
Lemma moves_participants : writes_participants mail_moves.
Proof. intros d v. by apply same_moves. Qed.
Lemma moves_templates : writes_templates mail_moves.
Proof. intros d id c _. by apply same_moves. Qed.
Lemma moves_launches : writes_launches mail_moves.
Proof. intros d v. by apply same_moves. Qed.
Lemma moves_manifests : writes_manifests mail_moves.
Proof. intros d v. by apply same_moves. Qed.
Lemma moves_advance now : Timestamp_wf now -> advances mail_moves now.
Proof.
  intros Hn d sid c Hc. apply (call_moves now); [done|]. split; [by apply mail_same|]. right. exists sid, (store_time c now), c.
  by split_and!.
Qed.

Lemma counted_full counter m seq next bytes_ count :
  mailbox_full counter (envelope_size m) = Ok false -> to_u64 (ct_next_sequence counter) = Ok seq ->
  0 < ct_next_sequence counter -> next_sequence (ct_next_sequence counter) = Ok next ->
  checked_i64 (ct_queued_bytes counter + envelope_size m) = Ok bytes_ ->
  checked_i64 (ct_queued_messages counter + 1) = Ok count ->
  seq = ct_next_sequence counter /\ counted 0 0 counter m (MkCounter next bytes_ count).
Proof.
  unfold mailbox_full, to_u64, next_sequence, checked_i64, saturating_add_u64. intros. inv_result. split; [done|].
  unfold counted. unfold u64_max, MAX_MAILBOX_QUEUED_BYTES, MAX_MAILBOX_QUEUED_MESSAGES in *. split_and!; try done; lia.
Qed.
Lemma operation_input_kind op digest env : operation_input op digest = Ok env -> envelope_kind env = KindOperationInput.
Proof. unfold operation_input, ValidatedMessageEnvelope_new. intros H. inv_result. done. Qed.

Lemma commit_start_moves now t c o d d1 : Timestamp_wf now -> entered (so_session_id c) now t d d1 ->
  on_session_id o = so_session_id c ->
  wp (commit_operation_start c o t) (fun _ d' => mail_moves d d') (mail_moves d) d1.
Proof.
  intros Hn He Hs. unfold commit_operation_start, expect. apply wp_bind, wp_insert_operation. intros _ _ _.
  set (d2 := set_operations d1 _). assert (He2 : entered (so_session_id c) now t d d2) by (by eapply entered_same).
  apply wp_bind, wp_lift. intros env Henv. wp_auto.
  match goal with |- wp (if ?b then _ else _) _ _ _ => destruct b; wp_auto end.
  apply wp_insert. intros Hnew Hq. match type of Hnew with _ !! ms_message_id ?x = _ => set (m := x) in * end.
  wp_auto. apply wp_upsert. wp_auto. apply wp_append. intros d4 (M4 & C4 & S4). wp_auto. apply wp_message_event.
  intros d5 (M5 & C5 & S5). wp_auto. apply wp_record. intros d6 (M6 & C6 & S6). wp_auto.
  apply (call_moves now); [done|].
  match goal with H : (if _ <=? i64_max then _ else _) = Ok _ |- _ => case_if_in H as Esz; [|discriminate H]; injection H as <- end.
  destruct (counted_full (mailbox_counter d2 (on_participant_id o)) m _ _ _ _ ltac:(eassumption) ltac:(eassumption)
    Hq ltac:(eassumption) ltac:(eassumption) ltac:(eassumption)) as [Hseq Hcnt].
  apply map_err_Ok in Henv. pose proof (operation_input_kind _ _ _ Henv) as Hkind. clearbody d2.
  refine (call_insert _ _ _ _ _ _ m _ He2 Hs eq_refl Hnew _ Hseq (counted_more _ _ _ Hcnt) _ _ _).
  - unfold fresh_message, m. cbn [ms_state ms_attempt_count ms_updated_at ms_created_at ms_priority ms_envelope ms_revision].
    by rewrite Hkind.
  - rewrite M6, M5, M4. cbn [db_messages set_counters set_messages]. by rewrite <-Hseq.
  - by rewrite C6, C5, C4.
  - by rewrite S6, S5, S4.
Qed.

Lemma start_moves now c d : Timestamp_wf now ->
  wp (start_operation limit_profile now c) (fun _ d' => mail_moves d d') (mail_moves d) d.
Proof.
  intros Hn. unfold start_operation. cbv zeta.
  apply wp_bind, wp_read; [by apply within_replay_operation, _|reflexivity|]. intros [recorded|] _.
  { apply wp_read; [unfold replayed_start; within_auto|reflexivity|]. intros v _. reflexivity. }
  apply wp_prologue; [by intros d'; apply call_moves|]. intros t d1 He _.
  assert (HF : mail_moves d d1) by (eapply (call_moves now); [done|]; by eapply call_same).
  assert (Hfail : forall e (Q : Mutation OperationSnapshot -> Db -> Prop),
    wp (finish_failure (so_session_id c) c e) Q (mail_moves d) d1).
  { intros. apply wp_fail. intros v. etrans; [exact HF|apply moves_ledger]. }
  op_reads Hfail HF. all: by eapply commit_start_moves.
Qed.

(** The dates of the operations do not run ahead of their sessions' clocks. *)
Definition ops_timely (d : Db) : Prop := forall id c, db_operations d !! id = Some c ->
  exists t, floor_of d (oc_session_id c) = Some t /\ Timestamp_le (oc_updated_at c) t.

Lemma delivered_moves sid rid mid src dst corr env now t d : floor_of d sid = Some t -> Timestamp_le now t ->
  wp (delivered (insert_hierarchy_message sid rid mid src dst corr env now)) (fun _ d' => mail_moves d d') (mail_moves d) d.
Proof.
  intros Hf Ht. unfold delivered. apply wp_bind. unfold wp at 1, catch.
  pose proof (hierarchy_insert_write sid rid mid src dst corr env now t d (mail_moves d) Hf Ht) as Hw. unfold wp in Hw.
  destruct (insert_hierarchy_message sid rid mid src dst corr env now d) as [m d'|e|d' e]; [| |done].
  - apply wp_ret, rtc_once, write_move, Hw.
  - destruct e; apply wp_abort || (apply wp_ret; reflexivity).
Qed.

Lemma finish_moves now t c o d : floor_of d (to_session_id c) = Some t -> Timestamp_le (on_updated_at o) t ->
  wp (finish_operation c o now) (fun _ d' => mail_moves d d') (mail_moves d) d.
Proof.
  intros Hf Ht. unfold finish_operation. destruct (on_terminal_outcome o) as [outcome|]; [|wp_auto; reflexivity].
  apply wp_bind. eapply wp_mono; [apply retire_correlated_writes with (F := mail_moves d)| |done].
  intros [] d1 Hw. pose proof (writes_moves _ _ Hw) as H1. apply mail_writes_sessions in Hw.
  assert (Hf1 : floor_of d1 (to_session_id c) = Some t) by (unfold floor_of in *; by rewrite Hw).
  apply wp_bind, wp_read; [within_auto|done|]. intros p _. wp_auto.
  destruct (ps_parent_participant_id _) as [parent|]; [|by wp_auto]. unfold tell_parent. wp_auto.
  apply wp_read; [within_auto|done|]. intros now' _. apply wp_bind.
  eapply (wp_mono _ _ _ _ (fun _ d' => mail_moves d1 d') (mail_moves d1)).
  - case_match; [|wp_auto; reflexivity]. unfold expect. wp_auto. by eapply delivered_moves.
  - intros told d2 H2. apply (wp_within mail_moves).
    + apply within_append, moves_events.
    + intros _ d3 H3. etrans; [exact H1|]. by etrans.
    + intros d3 H3. etrans; [exact H1|]. by etrans.
  - intros d2 H2. by etrans.
Qed.

Lemma commit_move_moves now t c o d d1 : mail_moves d d1 -> floor_of d1 (to_session_id c) = Some t ->
  Timestamp_le (on_updated_at o) t ->
  wp (commit_operation_move now c o) (fun _ d' => mail_moves d d') (mail_moves d) d1.
Proof.
  intros HF Hf Ht. unfold commit_operation_move. wp_auto. apply wp_update_operation.
  { intros n Hn1. unfold one_row. rewrite (proj2 (Z.eqb_neq n 1) Hn1). by wp_auto. }
  intros row Hrow Hrev. apply wp_bind. change (one_row 1) with (mret tt : Tx unit). apply wp_ret.
  set (d2 := set_operations d1 _). assert (H2 : mail_moves d d2) by (etrans; [exact HF|apply moves_operations]).
  apply wp_bind. eapply wp_mono; [by apply (finish_moves now t)|..].
  - intros [] d3 H3. apply (wp_within mail_moves).
    + unfold append_operation_event. pose proof moves_events. pose proof moves_ledger. within_auto.
    + intros _ d4 H4. etrans; [exact H2|]. by etrans.
    + intros d4 H4. etrans; [exact H2|]. by etrans.
  - intros d3 H3. by etrans.
Qed.

(** The store's time is no earlier than the clock floor it replaces. *)
Lemma entered_later sid now t d d1 t0 : entered sid now t d d1 -> floor_of d sid = Some t0 ->
  Timestamp_le t0 t /\ Timestamp_le now t.
Proof.
  intros ((c & Hc & -> & _) & _). unfold floor_of. rewrite Hc. intros [= <-].
  split; [apply Timestamp_max_le_l|apply Timestamp_max_le_r].
Qed.

Lemma transition_operation_moves now c d : Timestamp_wf now -> ops_timely d ->
  wp (transition_operation limit_profile now c) (fun _ d' => mail_moves d d') (mail_moves d) d.
Proof.
  intros Hn Hops. unfold transition_operation. cbv zeta.
  apply wp_bind, wp_read; [by apply within_replay_operation, _|reflexivity|]. intros [recorded|] _; [wp_auto; reflexivity|].
  apply wp_authorized; [by intros d'; apply call_moves|]. intros t d1 He Hd1 _.
  assert (HF : mail_moves d d1) by (eapply (call_moves now); [done|]; by eapply call_same).
  assert (Hfail : forall e (Q : Mutation OperationSnapshot -> Db -> Prop),
    wp (finish_failure (to_session_id c) c e) Q (mail_moves d) d1).
  { intros. apply wp_fail. intros v. etrans; [exact HF|apply moves_ledger]. }
  assert (Eo : db_operations d1 = db_operations d) by (by rewrite Hd1).
  unfold load_operation_in. wp_auto. destruct (db_operations d1 !! to_operation_id c) as [row|] eqn:Erow; wp_auto; [|apply Hfail].
  match goal with H : decode_operation _ _ = Ok ?x |- _ => rename x into o; rename H into Hdec end.
  match goal with |- wp (if ?b then _ else _) _ _ _ => destruct b eqn:Es end; [wp_auto; apply Hfail|].
  apply orb_false_iff in Es as [Es _]. unfold neqb, eqb in Es. bool_norm.
  apply wp_read; [by apply within_correlation, _|done|]. intros valid _.
  op_reads Hfail HF. destruct (decode_operation_Ok _ _ _ Hdec) as (s & -> & _). rewrite Eo in Erow. cbn in Es.
  destruct (Hops _ _ Erow) as (t0 & Ht0 & Hle0). rewrite Es in Ht0. destruct (entered_later _ _ _ _ _ _ He Ht0).
  eapply commit_move_moves; [exact HF|by eapply entered_floor|]. apply Timestamp_max_lub; eauto with nav.
Qed.

(** *** Handlers without mail *)

Lemma register_moves t : within mail_moves (register_template t).
Proof. apply register_within; [apply _|apply moves_templates]. Qed.
Lemma create_root_moves now c : Timestamp_wf now -> within mail_moves (create_root_participant limit_profile now c).
Proof.
  intros Hn. apply create_root_within; [apply _|apply moves_events|apply moves_ledger|by apply moves_advance|apply moves_participants].
Qed.
Lemma create_child_moves now c : Timestamp_wf now -> within mail_moves (create_child_participant limit_profile now c).
Proof.
  intros Hn. apply create_child_within; [apply _|apply moves_events|apply moves_ledger|by apply moves_advance|apply moves_participants].
Qed.
Lemma prepare_moves now c : Timestamp_wf now -> within mail_moves (prepare_launch now c).
Proof. intros Hn. apply prepare_within; [apply _|apply moves_ledger|by apply moves_advance|apply moves_launches]. Qed.
Lemma mutate_moves {C} `{!MutableRequest C} now sid ctx e aid rev (c : C) f : Timestamp_wf now ->
  within mail_moves (mutate_launch now sid ctx e aid rev c f).
Proof. intros Hn. apply mutate_within; [apply _|apply moves_ledger|by apply moves_advance|apply moves_launches]. Qed.

(** A new session has a clock floor of its own. *)
Lemma moves_open now q : Timestamp_wf now -> command_wf (CmdOpen q) -> opens mail_moves now q.
Proof.
  intros Hn Hq d key Hnone. apply rtc_once. split_and!; [by apply mail_same|..].
  - intros sid t. unfold floor_of. cbn. destruct (decide (sid = os_session_id q)) as [->|Hne]; [by rewrite Hnone|].
    rewrite lookup_insert_ne by done. intros ->. exists t. auto with nav.
  - intros Hr sid c. cbn. intros [[<- <-]|[_ H]]%lookup_insert_Some; [|by apply Hr].
    destruct Hq as (_ & Hid & Hkey & Hcomp). constructor; cbn; auto with nav; try lia; try done.
Qed.
Lemma register_open_moves now c : Timestamp_wf now -> command_wf (CmdOpen (ro_open c)) ->
  within mail_moves (register_templates_and_open_session now c).
Proof.
  intros Hn Hq. apply register_open_within;
    [apply _|apply moves_events|apply moves_ledger|apply moves_templates|apply moves_manifests|by apply moves_open].
Qed.
End moves.
