(* ===== verification/Participants.v ===== *)
(** * Participants: the forest of participants

    The contract of the handlers that create participants ([forest_change]) and the
    invariant it preserves ([forest_ok]): in every session the participants form one
    tree of bounded depth, width and size. *)
From S2P Require Import Prelude Scalars Session Text Authority Operation Capacity Json StoreApi StoreWire.
From S2P Require Import Approval Template Message OperationApi SqliteDb SqliteSession SessionLedger Ownership.
From S2P Require Import SqliteMailbox Tables SqliteOperation SqliteLaunch MailboxLedger Footprint OperationLedger.

(** ** The contract *)

Section contract.
Context {TL : TimeLib} {TA : TimeArith} {SH : Sha256} {JS : Json} {JR : JsonRaw} {UT : UuidText}.
Variable limit_profile : LimitProfile.

Definition children (d : Db) (sid : SessionId) (p : ParticipantId) : Z :=
  count_rows (is_child_of sid p) (table_rows (db_participants d)).
Definition members (d : Db) (sid : SessionId) : Z :=
  count_rows (fun r => eqb (pc_session_id r) sid) (table_rows (db_participants d)).
Definition has_root (d : Db) (sid : SessionId) : bool := existsb (is_root_of sid) (table_rows (db_participants d)).

(** Where a new participant is placed. *)
Definition placed (d : Db) (c : ParticipantCols) : Prop :=
  match pc_parent_participant_id c with
  | None => pc_depth c = 1 /\ has_root d (pc_session_id c) = false
  | Some parent => exists q, db_participants d !! parent = Some q /\ pc_session_id q = pc_session_id c /\
      pc_cancellation_requested q = 0 /\ pc_depth c = pc_depth q + 1 /\ pc_depth q < MAX_PARTICIPANT_DEPTH /\
      children d (pc_session_id c) parent < MAX_DIRECT_CHILDREN /\ members d (pc_session_id c) < MAX_SESSION_PARTICIPANTS
  end.

Inductive forest_change (d d' : Db) : Prop :=
| forest_same : db_participants d' = db_participants d -> forest_change d d'
| forest_insert id c : db_participants d !! id = None -> placed d c -> pc_revision c = 1 ->
    1 <= pc_depth c <= MAX_PARTICIPANT_DEPTH -> pc_cancellation_requested c = 0 ->
    db_participants d' = <[id := c]> (db_participants d) -> forest_change d d'.

Lemma forest_change_pre d d1 d2 : db_participants d1 = db_participants d -> forest_change d1 d2 -> forest_change d d2.
Proof.
  intros E [H|id c H1 H2 H3 H4 H5 H6]; [apply forest_same; congruence|].
  apply (forest_insert _ _ id c); try congruence. unfold placed, children, members, has_root in *. by rewrite E in H2.
Qed.

(** The row of the participant a handler answers with. *)
Definition participant_row (p : ParticipantSnapshot) : ParticipantCols :=
  MkParticipantCols (ps_session_id p) (ps_parent_participant_id p) (ps_template_id p) (ps_template_compatibility p)
    1 (ps_depth p) 0.
Definition same_participants (d d' : Db) : Prop := db_participants d' = db_participants d.
#[global] Instance same_participants_po : PreOrder same_participants.
Proof. split; [done|]. intros a b c. unfold same_participants. congruence. Qed.

Definition created (p : ParticipantSnapshot) (d d' : Db) : Prop :=
  db_participants d !! ps_participant_id p = None /\ 1 <= ps_depth p <= 8 /\
  db_participants d' = <[ps_participant_id p := participant_row p]> (db_participants d).
Lemma commit_participant_call {C} `{!MutableRequest C} (c : C) p now d :
  wp (commit_participant c p now) (fun v d' => v = Applied p /\ created p d d') (created p d) d.
Proof.
  unfold commit_participant, insert_participant. wp_auto. case_if as E; [done|].
  match goal with |- wp (put ?d2) _ _ _ => set (d2' := d2) end. wp_auto.
  assert (Hc : forall d', same_participants d2' d' -> created p d d').
  { intros d' Ed. repeat (apply orb_false_iff in E as [E ?E]). bool_norm. split_and!; try lia; [|exact Ed].
    by destruct (db_participants d !! ps_participant_id p). }
  apply (wp_within same_participants); [within_auto| |done]. intros _ d3 H3. apply wp_bind.
  apply (wp_within same_participants); [within_auto|..].
  - intros _ d4 H4. apply wp_ret. split; [done|]. apply Hc. by etrans.
  - intros d4 H4. apply Hc. by etrans.
Qed.

Lemma created_root p ss d d' : created p (set_sessions d ss) d' -> ps_parent_participant_id p = None -> ps_depth p = 1 ->
  has_root d (ps_session_id p) = false -> forest_change d d'.
Proof.
  intros (H1 & H2 & H3) Hp Hdep Hr. apply (forest_insert _ _ (ps_participant_id p) (participant_row p)); try done.
  unfold placed. cbn. by rewrite Hp.
Qed.

Definition creates (sid : SessionId) (ctx : RequestContext) (e : FencingEpoch) (now : Timestamp) (d : Db)
    (v : Mutation ParticipantSnapshot) : Prop :=
  forall p, v = Applied p -> by_owner sid ctx e now d /\ ps_session_id p = sid /\ ps_revision p = Revision_initial.

Lemma replayed_participant_call p d :
  wp (replayed_participant p) (fun v d' => d = d' /\ was_replayed v = true) (eq d) d.
Proof.
  assert (Hr : returns (fun v => was_replayed v = true) (replayed_participant p)) by (unfold replayed_participant; returns_auto).
  eapply wp_mono; [apply wp_and; [apply (within_replayed_participant eq p)|apply Hr]|done|by intros ? [? _]].
Qed.
Lemma unchanged_call {C} `{!MutableRequest C} sid (c : C) p ctx e now d d1 : same_participants d d1 ->
  wp (_ ← record_bytes sid c SeUnchanged (LrParticipant p); mret (Unchanged p))
    (fun v d' => forest_change d d' /\ creates sid ctx e now d v) (forest_change d) d1.
Proof.
  intros E1. apply wp_bind, (wp_within same_participants); [within_auto|..].
  - intros _ d2 E2. apply wp_ret. split; [apply forest_same; by etrans|]. by intros ? ?.
  - intros d2 E2. apply forest_same. by etrans.
Qed.

Lemma create_root_call now c d :
  wp (create_root_participant limit_profile now c)
    (fun v d' => forest_change d d' /\ creates (cr_session_id c) (cr_context c) (cr_epoch c) now d v)
    (forest_change d) d.
Proof.
  unfold create_root_participant. cbv zeta. assert (Hd : forest_change d d) by by apply forest_same.
  apply wp_bind, wp_read; [by apply within_replay_participant, _|done|]. intros [p|] _.
  { eapply wp_mono; [by apply replayed_participant_call|..]; [intros v d' [<- Hr]|by intros ? <-].
    split; [done|]. by intros p' ->. }
  apply wp_auth; [intros; by apply forest_same|]. intros t ss He Ho. set (d1 := set_sessions d ss).
  assert (HF : forest_change d d1) by by apply forest_same.
  assert (Hfail : forall e (Q : Mutation ParticipantSnapshot -> Db -> Prop),
    wp (finish_failure (cr_session_id c) c e) Q (forest_change d) d1) by (intros; by apply wp_fail; intros; apply forest_same).
  op_reads Hfail HF.
  - by apply unchanged_call.
  - match goal with H : existsb _ _ = false |- _ => rename H into Hroot end.
    eapply wp_mono; [apply commit_participant_call|..].
    + intros v d' [-> Hc]. split; [exact (created_root _ _ _ _ Hc eq_refl eq_refl Hroot)|]. intros p [= <-]. done.
    + intros d' Hc. exact (created_root _ _ _ _ Hc eq_refl eq_refl Hroot).
Qed.

Lemma load_participant_Next id d o d' : load_participant_in id d = Next o d' ->
  d' = d /\ match o with
            | Some p => exists c, db_participants d !! id = Some c /\ decode_participant id c = Ok p
            | None => db_participants d !! id = None end.
Proof.
  unfold load_participant_in, mbind, tx_bind, get. destruct (db_participants d !! id) as [c|] eqn:E; [|by intros [= <- <-]].
  unfold lift. destruct (decode_participant id c) as [p|] eqn:Ep; [|done]. intros [= <- <-]. eauto.
Qed.
Lemma cancellation_Next id d b d' : participant_cancellation_requested id d = Next b d' -> b = false ->
  forall c, db_participants d !! id = Some c -> pc_cancellation_requested c = 0.
Proof.
  unfold participant_cancellation_requested, mbind, tx_bind, get. intros H -> c Hc. rewrite Hc in H.
  destruct (pc_cancellation_requested c =? 0) eqn:E; [lia|]. by destruct (pc_cancellation_requested c =? 1).
Qed.

Lemma create_child_call now c d :
  wp (create_child_participant limit_profile now c)
    (fun v d' => forest_change d d' /\ creates (cc_session_id c) (cc_context c) (cc_epoch c) now d v)
    (forest_change d) d.
Proof.
  unfold create_child_participant. cbv zeta. assert (Hd : forest_change d d) by by apply forest_same.
  apply wp_bind, wp_read; [by apply within_replay_participant, _|done|]. intros [p|] _.
  { eapply wp_mono; [by apply replayed_participant_call|..]; [intros v d' [<- Hr]|by intros ? <-].
    split; [done|]. by intros p' ->. }
  apply wp_auth; [intros; by apply forest_same|]. intros t ss He Ho. set (d1 := set_sessions d ss).
  assert (HF : forest_change d d1) by by apply forest_same.
  assert (Hfail : forall e (Q : Mutation ParticipantSnapshot -> Db -> Prop),
    wp (finish_failure (cc_session_id c) c e) Q (forest_change d) d1) by (intros; by apply wp_fail; intros; apply forest_same).
  op_reads Hfail HF.
  repeat match goal with
  | H : load_participant_in (cc_parent_participant_id c) _ = Next _ _ |- _ => apply load_participant_Next in H as [_ (q & Hq & Hdec)]
  | H : participant_cancellation_requested _ _ = Next _ _ |- _ => pose proof (cancellation_Next _ _ _ _ H eq_refl q Hq); clear H
  end.
  destruct (decode_participant_Ok _ _ _ Hdec) as (-> & _ & Hdq & _). unfold neqb, eqb in *.
  cbn [ps_session_id ps_depth] in *. bool_norm.
  match goal with H : (if _ <=? u32_max then _ else _) = Ok _ |- _ => case_if_in H as Eu; [|discriminate H]; injection H as <- end.
  assert (Hchild : forall p d', created p d1 d' -> ps_session_id p = cc_session_id c ->
    ps_parent_participant_id p = Some (cc_parent_participant_id c) -> ps_depth p = pc_depth q + 1 -> forest_change d d').
  { intros p d' (Hc1 & Hc2 & Hc3) Es Ep Ed. apply (forest_insert _ _ (ps_participant_id p) (participant_row p)); try done.
    unfold placed. cbn. rewrite Ep, Es. exists q. split_and!; try done; lia. }
  eapply wp_mono; [apply commit_participant_call|..].
  - intros v d' [-> Hc]. split; [by eapply (Hchild _ _ Hc)|]. intros p [= <-]. done.
  - intros d' Hc. by eapply (Hchild _ _ Hc).
Qed.
End contract.

(** ** The invariant *)

Record forest_ok (d : Db) : Prop := {
  fo_row : forall id c, db_participants d !! id = Some c -> 1 <= pc_depth c <= MAX_PARTICIPANT_DEPTH /\ 0 < pc_revision c /\
    match pc_parent_participant_id c with
    | None => pc_depth c = 1
    | Some parent => exists q, db_participants d !! parent = Some q /\ pc_session_id q = pc_session_id c /\
        pc_depth c = pc_depth q + 1
    end;
  fo_root : forall id1 c1 id2 c2 sid, db_participants d !! id1 = Some c1 -> db_participants d !! id2 = Some c2 ->
    is_root_of sid c1 = true -> is_root_of sid c2 = true -> id1 = id2;
  fo_children : forall sid p, children d sid p <= MAX_DIRECT_CHILDREN;
  fo_members : forall sid, members d sid <= MAX_SESSION_PARTICIPANTS;
}.

(** The participant [n] levels above. *)
Fixpoint ancestor (d : Db) (n : nat) (id : ParticipantId) : option ParticipantId :=
  match n with
  | O => Some id
  | S n => c ← db_participants d !! id; parent ← pc_parent_participant_id c; ancestor d n parent
  end.

Lemma to_the_root d (Hok : forest_ok d) n : forall id c, db_participants d !! id = Some c -> pc_depth c = Z.of_nat n + 1 ->
  exists root r, ancestor d n id = Some root /\ db_participants d !! root = Some r /\ is_root_of (pc_session_id c) r = true.
Proof.
  induction n as [|n IH]; intros id c Hc Hdep; destruct (fo_row _ Hok _ _ Hc) as (Hb & _ & Hp).
  - exists id, c. split_and!; [done..|]. unfold is_root_of, eqb. rewrite bool_decide_eq_true_2 by done. cbn.
    destruct (pc_parent_participant_id c) as [p|]; [|done]. destruct Hp as (q & Hq & _ & E).
    destruct (fo_row _ Hok _ _ Hq) as (? & _). lia.
  - destruct (pc_parent_participant_id c) as [p|] eqn:Ep; [|lia]. destruct Hp as (q & Hq & Es & E).
    destruct (IH p q Hq) as (root & r & Ha & Hr & Hroot); [lia|]. exists root, r. cbn. rewrite Hc. cbn. rewrite Ep. cbn.
    rewrite <-Es. done.
Qed.

Lemma no_root_no_members d sid : forest_ok d -> has_root d sid = false -> members d sid = 0.
Proof.
  intros Hok Hr. unfold members, count_rows.
  assert (Hnone : forall r, r ∈ table_rows (db_participants d) -> eqb (pc_session_id r) sid = false).
  { intros c [id Hc]%table_rows_elem. apply not_true_is_false. unfold eqb. intros Hs%bool_decide_eq_true.
    destruct (fo_row _ Hok _ _ Hc) as (Hb & _). destruct (to_the_root d Hok (Z.to_nat (pc_depth c - 1)) id c Hc)
      as (root & r & _ & Hroot & Hrr); [lia|]. unfold has_root in Hr. rewrite existsb_rows in Hr.
    rewrite Hs in Hrr. by rewrite (Hr _ _ Hroot) in Hrr. }
  revert Hnone. generalize (table_rows (db_participants d)). intros l Hl. induction l as [|x l IH]; [done|]. cbn.
  rewrite (Hl x) by (by left). apply IH. intros r Hin. apply Hl. by right.
Qed.

Lemma forest_ok_change d d' : forest_ok d -> forest_change d d' -> forest_ok d'.
Proof.
  intros Hok [E|id c Hnew Hpl Hrev Hdep Hcan E].
  { destruct Hok as [H1 H2 H3 H4]. split; unfold children, members in *; rewrite E; done. }
  assert (Hne : forall p q, db_participants d !! p = Some q -> id <> p) by (intros p q Hp ->; by rewrite Hp in Hnew).
  assert (Hmem : forall sid, members d' sid = weight (fun r => eqb (pc_session_id r) sid) (fun _ => 1) c + members d sid)
    by (intros; unfold members; by rewrite E, count_rows_insert).
  assert (Hch : forall sid p, children d' sid p = weight (is_child_of sid p) (fun _ => 1) c + children d sid p)
    by (intros; unfold children; by rewrite E, count_rows_insert).
  destruct Hok as [H1 H2 H3 H4]. split.
  - intros id' c'. rewrite E. intros [[<- <-]|[Hn Hc']]%lookup_insert_Some.
    + split_and!; [lia|lia|lia|]. unfold placed in Hpl. destruct (pc_parent_participant_id c) as [p|]; [|by destruct Hpl].
      destruct Hpl as (q & Hq & ? & ? & ? & _). exists q. rewrite lookup_insert_ne by by eapply Hne. by split_and!.
    + destruct (H1 _ _ Hc') as (? & ? & Hp). split_and!; [lia|lia|lia|]. destruct (pc_parent_participant_id c') as [p|]; [|done].
      destruct Hp as (q & Hq & ?). exists q. rewrite lookup_insert_ne by by eapply Hne. done.
  - assert (Hroot : forall id' c' sid, db_participants d !! id' = Some c' -> is_root_of sid c = true -> is_root_of sid c' = true -> False).
    { intros id' c' sid Hc' R1 R2. unfold placed in Hpl. unfold is_root_of, eqb in R1. bool_norm.
      destruct (pc_parent_participant_id c); [done|]. destruct Hpl as [_ Hr]. subst sid. unfold has_root in Hr.
      rewrite existsb_rows in Hr. by rewrite (Hr _ _ Hc') in R2. }
    intros id1 c1 id2 c2 sid. rewrite E. intros [[<- <-]|[Hn1 Hc1]]%lookup_insert_Some [[<- <-]|[Hn2 Hc2]]%lookup_insert_Some R1 R2;
      [done|exfalso; eauto..|eauto].
  - intros sid p. rewrite Hch. specialize (H3 sid p). unfold weight. destruct (is_child_of sid p c) eqn:Ec; [|lia].
    unfold is_child_of, eqb in Ec. bool_norm. unfold placed in Hpl. destruct (pc_parent_participant_id c) as [x|]; [|done].
    match goal with H : Some _ = Some _ |- _ => injection H as -> end. destruct Hpl as (q & _ & _ & _ & _ & _ & Hlt & _). subst sid. lia.
  - intros sid. rewrite Hmem. specialize (H4 sid) as H4'. unfold weight. destruct (eqb _ _) eqn:Es; [|lia]. unfold eqb in Es.
    apply bool_decide_eq_true in Es. unfold placed in Hpl. destruct (pc_parent_participant_id c) as [x|].
    + destruct Hpl as (q & _ & _ & _ & _ & _ & _ & Hlt). subst sid. lia.
    + destruct Hpl as [_ Hr]. rewrite Es in Hr. rewrite (no_root_no_members d sid); [done|by split|done].
Qed.
