(* ===== verification/Launches.v ===== *)
(** * Launches: the lifecycle of launch attempts

    The contract of the handlers of SqliteLaunch.v ([launch_change]): they prepare a new
    attempt, attach an instance of its own to a prepared one, or move one along
    [valid_launch_transition]; and the invariant it preserves ([launches_ok]). *)
From S2P Require Import Prelude Scalars Session Text Authority Operation RecoveryTable Capacity Json StoreApi StoreWire.
From S2P Require Import Approval Template Message OperationApi SqliteDb SqliteSession SessionLedger Ownership.
From S2P Require Import SqliteMailbox Tables SqliteOperation SqliteLaunch MailboxLedger Footprint.

(** ** Rows *)

(** The row holds a state with the instance and the cleanup reason that go with it. *)
Definition instance_fits (s : LaunchState) (instance : option InstanceId) : bool :=
  match s with
  | LPrepared => is_none instance
  | LAttached | LReady | LStopping => is_some instance
  | LStopped | LCleanupRequired => true
  end.
Record launch_row_wf (s : LaunchState) (c : LaunchCols) : Prop := {
  lw_state : la_state c = launch_state_name s;
  lw_instance : instance_fits s (la_instance_id c) = true;
  lw_evidence : is_some (la_evidence c) = is_some (la_instance_id c);
  lw_reason : Bool.eqb (bool_decide (s = LCleanupRequired)) (is_some (la_cleanup_reason c)) = true;
  lw_bounded : forall r, la_cleanup_reason c = Some r -> exists t : BoundedText 1024, BoundedText_new r = Ok t;
  lw_epoch : exists e, la_ownership_epoch c = Some e /\ 0 < e;
  lw_digests : llen (la_credential_digest c) = 32 /\ llen (la_driver_configuration_digest c) = 32;
  lw_revision : 0 < la_revision c <= i64_max;
}.

Lemma parse_launch_name s : parse_launch_state (launch_state_name s) = Ok s.
Proof. by destruct s. Qed.
Lemma parse_launch_Ok name s : parse_launch_state name = Ok s -> name = launch_state_name s.
Proof.
  unfold parse_launch_state. repeat case_match; intros ?; simplify_eq;
    match goal with H : String.eqb _ _ = true |- _ => by apply String.eqb_eq in H end.
Qed.

(** What decoding a row gives. *)
Definition launch_of (id : LaunchAttemptId) (c : LaunchCols) (l : LaunchSnapshot) : Prop :=
  la_state c = launch_state_name (lu_state l) /\ lu_attempt_id l = id /\ lu_session_id l = la_session_id c /\
  lu_participant_id l = la_participant_id c /\ lu_driver_id l = la_driver_id c /\
  lu_instance_id l = la_instance_id c /\ lu_evidence l = la_evidence c /\
  lu_revision l = MkRevision (la_revision c) /\ 0 < la_revision c /\
  as_str <$> lu_cleanup_reason l = la_cleanup_reason c.
Lemma decode_launch_Ok id c l : decode_launch id c = Ok l -> launch_of id c l.
Proof.
  unfold decode_launch. intros H. apply bind_Ok in H as (e & _ & H). apply bind_Ok in H as (cf & _ & H).
  apply bind_Ok in H as (s & Hs & H). apply bind_Ok in H as (rv & Hrv & H). apply bind_Ok in H as (cr & _ & H).
  apply bind_Ok in H as (re & Hre & H). injection H as <-. apply parse_launch_Ok in Hs.
  assert (Hr : rv = MkRevision (la_revision c) /\ 0 < la_revision c).
  { unfold decode_revision, to_u64, Revision_new in Hrv. inv_result. split; [done|lia]. }
  destruct Hr as [-> Hr]. split_and!; try done. cbn. destruct (la_cleanup_reason c); [|by injection Hre as <-].
  unfold corrupt, BoundedText_new in Hre. inv_result. done.
Qed.
Lemma decode_launch_wf id s c : launch_row_wf s c -> exists l, decode_launch id c = Ok l /\ lu_state l = s.
Proof.
  intros [H1 H2 H3 H4 H5 (e & He & Hpos) [H6 H7] H8]. unfold decode_launch, decode_epoch, decode_revision, to_u64, Revision_new, FencingEpoch_new, digest_column.
  rewrite He, H1, parse_launch_name, H6, H7, !Z.eqb_refl, !(proj2 (Z.leb_le _ _)), !bind_of_Ok by lia.
  rewrite !(proj2 (Z.eqb_neq _ _)) by lia. cbn [map_err]. rewrite !bind_of_Ok.
  destruct (la_cleanup_reason c) as [r|]; [|rewrite bind_of_Ok; eauto].
  destruct (H5 r eq_refl) as [t Ht]. unfold corrupt. rewrite Ht. cbn [map_err]. rewrite !bind_of_Ok. eauto.
Qed.

Lemma Revision_next_value v r : Revision_next (MkRevision v) = Some r -> r = MkRevision (v + 1).
Proof. unfold Revision_next, checked_add_u64. cbn [Revision_get]. repeat case_match; by intros; simplify_eq. Qed.

(** ** The contract *)

(** Everything but the instance, the evidence, the state, the revision and the reason
    is kept. *)
Definition launch_identity (c : LaunchCols) :=
  (la_session_id c, la_ownership_epoch c, la_participant_id c, la_driver_id c, la_driver_configuration_digest c,
   la_credential_digest c).

Inductive launch_kind (d : Db) (id : LaunchAttemptId) (c c' : LaunchCols) : LaunchState -> LaunchState -> Prop :=
| lk_attach i e : la_instance_id c = None -> la_instance_id c' = Some i -> la_evidence c' = Some e ->
    (forall id' x, db_launches d !! id' = Some x -> id' <> id -> la_instance_id x <> Some i) ->
    la_cleanup_reason c' = la_cleanup_reason c -> launch_kind d id c c' LPrepared LAttached
| lk_transition s s' : valid_launch_transition s s' = true -> la_instance_id c' = la_instance_id c ->
    la_evidence c' = la_evidence c ->
    Bool.eqb (bool_decide (s' = LCleanupRequired)) (is_some (la_cleanup_reason c')) = true ->
    (forall r, la_cleanup_reason c' = Some r -> exists t : BoundedText 1024, BoundedText_new r = Ok t) ->
    launch_kind d id c c' s s'.

Record launch_move (d d' : Db) (id : LaunchAttemptId) (c c' : LaunchCols) (s s' : LaunchState) : Prop := {
  lm_row : db_launches d !! id = Some c;
  lm_states : la_state c = launch_state_name s /\ la_state c' = launch_state_name s';
  lm_identity : launch_identity c' = launch_identity c;
  lm_revision : la_revision c' = la_revision c + 1 /\ la_revision c' <= i64_max;
  lm_kind : launch_kind d id c c' s s';
  lm_write : db_launches d' = <[id := c']> (db_launches d);
}.

Inductive launch_change (d d' : Db) : Prop :=
| launch_same : db_launches d' = db_launches d -> launch_change d d'
| launch_prepared id c e : db_launches d !! id = None -> la_state c = "prepared" -> la_instance_id c = None ->
    la_evidence c = None -> la_cleanup_reason c = None -> la_ownership_epoch c = Some e -> 0 < e -> la_revision c = 1 ->
    llen (la_credential_digest c) = 32 -> llen (la_driver_configuration_digest c) = 32 ->
    db_launches d' = <[id := c]> (db_launches d) -> launch_change d d'
| launch_moved id c c' s s' : launch_move d d' id c c' s s' -> launch_change d d'.

Definition same_launches (d d' : Db) : Prop := db_launches d' = db_launches d.
#[global] Instance same_launches_po : PreOrder same_launches.
Proof. split; [done|]. intros a b c. unfold same_launches. congruence. Qed.

Lemma launch_then d d1 d2 : launch_change d d1 -> same_launches d1 d2 -> launch_change d d2.
Proof.
  unfold same_launches. intros [H|id c e H1 H2 H3 H4 H5 H6 H6' H7 H8 H9 H10|id c c' s s' [H1 H2 H3 H4 H5 H6]] E.
  - apply launch_same. congruence.
  - by apply (launch_prepared _ _ id c e); try congruence.
  - apply (launch_moved _ _ id c c' s s'). split; try done. congruence.
Qed.

Section contract.
Context {TL : TimeLib} {TA : TimeArith} {SH : Sha256} {JS : Json} {JR : JsonRaw} {UT : UuidText}.

(** A launch row of the owner's epoch, with the instance of no other attempt. *)
Lemma load_launch_Next id d o d' : load_launch_in id d = Next o d' ->
  d' = d /\ match o with
            | Some l => exists c, db_launches d !! id = Some c /\ decode_launch id c = Ok l
            | None => db_launches d !! id = None end.
Proof.
  unfold load_launch_in, mbind, tx_bind, get. destruct (db_launches d !! id) as [c|] eqn:E; [|by intros [= <- <-]].
  unfold lift. destruct (decode_launch id c) as [p|] eqn:Ep; [|done]. intros [= <- <-]. eauto.
Qed.

Lemma not_taken d id i : instance_taken d id (Some i) = false ->
  forall id' x, db_launches d !! id' = Some x -> id' <> id -> la_instance_id x <> Some i.
Proof.
  unfold instance_taken. cbn [is_some andb]. intros H id' x Hx Hne Heq.
  assert (Hin : (id', x) ∈ map_to_list (db_launches d)) by by apply elem_of_map_to_list.
  pose proof (existsb_false _ _ _ H Hin) as Hf. cbn in Hf. unfold eqb, neqb in Hf.
  rewrite Heq, !bool_decide_eq_true_2 in Hf by done. unfold eqb in Hf. by rewrite bool_decide_eq_false_2 in Hf.
Qed.

Lemma owner_epoch sid ctx e now d : all_rows cols_wf d -> by_owner sid ctx e now d -> 0 < FencingEpoch_get e.
Proof.
  intros Hr (c & Hc & c' & x & Hc' & (H1 & H2 & _) & _). destruct (Hr _ _ Hc') as [_ _ _ _ _ _ _ _ Ho].
  unfold owner_wf in Ho. rewrite H1 in Ho. destruct Ho as (_ & Ho & Hp & _). congruence.
Qed.

Lemma prepare_call now c d : all_rows cols_wf d ->
  wp (prepare_launch now c) (fun _ d' => launch_change d d') (launch_change d) d.
Proof.
  intros Hrows. unfold prepare_launch. cbv zeta. assert (Hd : launch_change d d) by by apply launch_same.
  apply wp_bind, wp_read; [by apply within_replay_launch, _|done|]. intros [l|] _.
  { apply wp_read; [within_auto|done|done]. }
  apply wp_auth; [intros; by apply launch_same|]. intros t ss He Ho. set (d1 := set_sessions d ss).
  assert (HF : launch_change d d1) by by apply launch_same.
  assert (Hfail : forall e (Q : Mutation LaunchSnapshot -> Db -> Prop),
    wp (finish_failure (pl_session_id c) c e) Q (launch_change d) d1) by (intros; by apply wp_fail; intros; apply launch_same).
  op_reads Hfail HF.
  - apply (wp_within same_launches); [within_auto|..]; intros; by apply launch_same.
  - unfold insert_launch. cbn [lu_ownership_epoch lu_revision lu_attempt_id lu_session_id lu_instance_id
      lu_credential_digest lu_driver_configuration_digest lu_participant_id lu_driver_id lu_state lu_evidence lu_cleanup_reason].
    wp_auto. case_if as E; [done|]. repeat (apply orb_false_iff in E as [E ?E]).
    match goal with H : (_ ← _; Ok (Some _)) = Ok ?x |- _ => apply bind_Ok in H as (e & He' & [= <-]) end.
    unfold to_i64 in He'. case_if_in He' as Ee; [|discriminate He']. injection He' as <-.
    match goal with H : to_i64 _ = Ok _ |- _ => injection H as <- end.
    match goal with |- wp (put ?x) _ _ _ => set (d2 := x) end. wp_auto.
    assert (H2 : launch_change d d2).
    { unfold d1 in *. cbn [db_launches set_sessions] in *. bool_norm.
      eapply (launch_prepared d d2 (pl_attempt_id c) _ (FencingEpoch_get (pl_epoch c))); [..|reflexivity]; try done; [|by eapply owner_epoch].
      by destruct (db_launches d !! pl_attempt_id c). }
    apply (wp_within same_launches); [within_auto|..]; [intros _ d3 Ed3; wp_auto|intros d3 Ed3]; by eapply launch_then.
Qed.

(** What [mutate_launch] writes for the launch its closure computed. *)
Lemma mutate_call {C} `{!MutableRequest C} now sid ctx e aid rev (c : C) f d :
  (forall row l l' d', db_launches d !! aid = Some row -> decode_launch aid row = Ok l -> f l = Ok l' ->
     instance_taken d aid (lu_instance_id l') = false -> la_revision row + 1 <= i64_max ->
     db_launches d' = <[aid := MkLaunchCols (la_session_id row) (la_ownership_epoch row) (la_participant_id row)
       (la_driver_id row) (la_driver_configuration_digest row) (lu_instance_id l') (launch_state_name (lu_state l'))
       (la_revision row + 1) (la_credential_digest row) (lu_evidence l') (as_str <$> lu_cleanup_reason l')]> (db_launches d) ->
     launch_change d d') ->
  (forall l l', f l = Ok l' -> lu_attempt_id l' = lu_attempt_id l /\ lu_revision l' = lu_revision l) ->
  wp (mutate_launch now sid ctx e aid rev c f) (fun _ d' => launch_change d d') (launch_change d) d.
Proof.
  intros Hmove Hid. unfold mutate_launch. cbv zeta. assert (Hd : launch_change d d) by by apply launch_same.
  apply wp_bind, wp_read; [by apply within_replay_launch, _|done|]. intros [l|] _; [by wp_auto|].
  apply wp_auth; [intros; by apply launch_same|]. intros t ss He Ho. set (d1 := set_sessions d ss).
  assert (HF : launch_change d d1) by by apply launch_same.
  assert (Hfail : forall e (Q : Mutation LaunchSnapshot -> Db -> Prop),
    wp (finish_failure sid c e) Q (launch_change d) d1) by (intros; by apply wp_fail; intros; apply launch_same).
  op_reads Hfail HF.
  match goal with H : load_launch_in _ _ = Next _ _ |- _ => apply load_launch_Next in H as [_ (row & Hrow & Hdec)] end.
  match goal with H : f l = Ok ?x |- _ => rename x into l'; rename H into Hf; destruct (Hid _ _ Hf) as [Ea Er] end.
  destruct (decode_launch_Ok _ _ _ Hdec) as (_ & Eid & _ & _ & _ & _ & _ & Erev & Hpos & _).
  unfold update_launch, next_revision in *. cbn [lu_revision lu_attempt_id lu_instance_id lu_state lu_evidence lu_cleanup_reason].
  rewrite Ea, Eid. clear Ea Eid. wp_auto. unfold to_i64 in *. inv_result. rewrite Hrow.
  match goal with H : Revision_next _ = Some ?x |- _ => rewrite Er, Erev in H; apply Revision_next_value in H as -> end.
  case_if as E1; [done|]. case_if as E2; [done|]. match goal with |- wp (put ?x) _ _ _ => set (d2 := x) end. wp_auto.
  assert (H2 : launch_change d d2).
  { eapply (Hmove row l l'); [exact Hrow|done|done|done|done|reflexivity]. }
  apply (wp_within same_launches); [within_auto|..]; [intros _ d3 Ed3; wp_auto|intros d3 Ed3]; by eapply launch_then.
Qed.

Lemma attach_call now c d : wp (attach_launch now c) (fun _ d' => launch_change d d') (launch_change d) d.
Proof.
  apply mutate_call.
  - intros row l l' d' Hrow Hdec Hf Hnt Hrev E. destruct (decode_launch_Ok _ _ _ Hdec) as (Es & _ & _ & _ & _ & Ei & Ee & _ & _ & Er).
    unfold apply_attach, neqb, eqb in Hf. case_if_in Hf as Eb; [discriminate Hf|]. injection Hf as <-. bool_norm.
    cbn [with_launch lu_instance_id lu_state lu_evidence lu_cleanup_reason] in *.
    eapply (launch_moved _ _ (al_attempt_id c) row _ LPrepared LAttached). split; [..|exact E];
      [exact Hrow|split; [congruence|done]|done|by split|].
    eapply lk_attach; try done; [|by apply not_taken]. rewrite <-Ei. by destruct (lu_instance_id l).
  - intros l l' Hf. unfold apply_attach in Hf. case_if_in Hf as Eb; [discriminate Hf|]. by injection Hf as <-.
Qed.
Lemma transition_launch_call now c d :
  (forall r, tn_cleanup_reason c = Some r -> exists t : BoundedText 1024, BoundedText_new (as_str r) = Ok t) ->
  wp (transition_launch now c) (fun _ d' => launch_change d d') (launch_change d) d.
Proof.
  intros Hreason. apply mutate_call.
  - intros row l l' d' Hrow Hdec Hf Hnt Hrev E. destruct (decode_launch_Ok _ _ _ Hdec) as (Es & _ & _ & _ & _ & Ei & Ee & _ & _ & Er).
    unfold apply_transition, neqb, eqb in Hf. case_if_in Hf as Eb; [discriminate Hf|]. injection Hf as <-. bool_norm.
    cbn [with_launch lu_instance_id lu_state lu_evidence lu_cleanup_reason] in *.
    eapply (launch_moved _ _ (tn_attempt_id c) row _ (lu_state l) (tn_target c)). split; [..|exact E]; [exact Hrow|done|done|by split|].
    apply lk_transition; try done; cbn.
    + destruct (tn_cleanup_reason c); done.
    + destruct (tn_cleanup_reason c) as [r|]; [|done]. intros r' [= <-]. by apply Hreason.
  - intros l l' Hf. unfold apply_transition in Hf. case_if_in Hf as Eb; [discriminate Hf|]. by injection Hf as <-.
Qed.
End contract.

(** ** The invariant *)

Record launches_ok (d : Db) : Prop := {
  lo_rows : forall id c, db_launches d !! id = Some c -> exists s, launch_row_wf s c;
  lo_instances : forall id1 c1 id2 c2 i, db_launches d !! id1 = Some c1 -> db_launches d !! id2 = Some c2 ->
    la_instance_id c1 = Some i -> la_instance_id c2 = Some i -> id1 = id2;
}.

Lemma launch_name_inj s s' : launch_state_name s = launch_state_name s' -> s = s'.
Proof. by destruct s, s'. Qed.

(** A move keeps a row well-formed. *)
Lemma launch_move_wf d d' id c c' s s' : launch_move d d' id c c' s s' -> (exists s, launch_row_wf s c) -> launch_row_wf s' c'.
Proof.
  intros [H1 [H2 H2'] H3 [H4 H4'] H5 H6] [s0 [W1 W2 W3 W4 W5 W6 W7 W8]].
  rewrite H2 in W1. apply launch_name_inj in W1 as <-. injection H3 as E1 E2 E3 E4 E5 E6.
  assert (Hev : is_some (la_evidence c') = is_some (la_instance_id c')).
  { destruct H5 as [i e A B C D E|s s' A B C D E]; [by rewrite B, C|by rewrite B, C]. }
  destruct H5 as [i e A B C D E|s s' A B C D E]; (split; [done|..|by rewrite E2|by rewrite E5, E6|lia]); try done.
  - by rewrite B.
  - by rewrite E.
  - by rewrite E.
  - rewrite B. destruct s, s'; try discriminate A; done.
Qed.

Lemma launches_ok_change d d' : launches_ok d -> launch_change d d' -> launches_ok d'.
Proof.
  intros [Hr Hi] [E|id c e H1 H2 H3 H4 H5 H6 H6' H7 H8 H9 E|id c c' s s' Hm].
  - split; rewrite E; done.
  - split; rewrite E.
    + intros id' c'. intros [[<- <-]|[_ H]]%lookup_insert_Some; [|by eapply Hr]. exists LPrepared.
      split; try done; try by rewrite ?H3, ?H4, ?H5.
      * by exists e.
      * rewrite H7. unfold i64_max. lia.
    + intros id1 c1 id2 c2 i [[<- <-]|[_ K1]]%lookup_insert_Some [[<- <-]|[_ K2]]%lookup_insert_Some I1 I2; try congruence.
      by eapply Hi.
  - pose proof (launch_move_wf _ _ _ _ _ _ _ Hm) as Hwf. destruct Hm as [H1 _ _ _ Hk E]. split; rewrite E.
    + intros id' c0 [[<- <-]|[_ H]]%lookup_insert_Some; [|by eapply Hr]. exists s'. apply Hwf. by eapply Hr.
    + assert (Hone : forall id' x i, db_launches d !! id' = Some x -> id' <> id -> la_instance_id c' = Some i ->
        la_instance_id x = Some i -> False).
      { intros id' x i Hx Hne I1 I2. destruct Hk as [j ev A B C D _|a b A B _ _ _].
        - rewrite B in I1. injection I1 as ->. by apply (D id' x).
        - rewrite B in I1. apply Hne. by eapply (Hi id' x id c). }
      intros id1 c1 id2 c2 i [[<- <-]|[N1 K1]]%lookup_insert_Some [[<- <-]|[N2 K2]]%lookup_insert_Some I1 I2; [done|..].
      * exfalso. by eapply (Hone id2 c2 i).
      * exfalso. by eapply (Hone id1 c1 i).
      * by eapply Hi.
Qed.
