(* ===== verification/JournalLedger.v ===== *)
(** * JournalLedger: what one transaction does to the effect journal

    The contract of the handlers that write the journal ([effect_change]): they leave it
    alone, insert one reserved entry, or move one entry along the automaton
    [phase_step], whose steps carry the request that caused them.  Proved for the
    handlers of SqliteEffect.v, SqliteTool.v and SqliteResolve.v. *)
From S2P Require Import Prelude Scalars Session Text Authority Operation RecoveryTable Capacity Json Tool StoreApi StoreWire.
From S2P Require Import Approval Template Message OperationApi ToolApi EffectApi SqliteDb SqliteSession SessionLedger Ownership.
From S2P Require Import SqliteMailbox SqliteOperation SqliteLaunch SqliteEffect SqliteTool SqliteResolve MailboxLedger Footprint.
From S2P Require Import JournalFootprint OperationLedger Participants Launches.

(** Comparisons of code values as equations. *)
Ltac eq_norm := unfold neqb, eqb in *; bool_norm.

(** ** Rows *)

Section rows.
Context {TL : TimeLib} {TA : TimeArith}.

Lemma parse_class_name c : parse_effect_class (effect_class_name c) = Ok c.
Proof. by destruct c. Qed.
Lemma parse_phase_name p : parse_effect_phase (effect_phase_name p) = Ok p.
Proof. by destruct p. Qed.
Lemma parse_phase_Ok name p : parse_effect_phase name = Ok p -> name = effect_phase_name p.
Proof.
  unfold parse_effect_phase. repeat case_match; intros ?; simplify_eq;
    match goal with H : String.eqb _ _ = true |- _ => by apply String.eqb_eq in H end.
Qed.
Lemma parse_class_Ok name p : parse_effect_class name = Ok p -> name = effect_class_name p.
Proof.
  unfold parse_effect_class. repeat case_match; intros ?; simplify_eq;
    match goal with H : String.eqb _ _ = true |- _ => by apply String.eqb_eq in H end.
Qed.

(** What decoding gives: the columns themselves. *)
Record row_is (id : RequestId) (c : EffectCols) (e : EffectJournalEntry) : Prop := {
  xr_ids : ee_request_id e = id /\ ee_session_id e = ef_session_id c /\ ee_participant_id e = ef_participant_id c /\
    ee_operation_id e = ef_operation_id c /\ ee_caller e = ef_caller_host_id c;
  xr_action : ef_action c = Capability_as_str (ee_action e) /\ Capability_wf (ee_action e);
  xr_digest : ef_semantic_digest c = sd_bytes (ee_semantic_digest e) /\ llen (ef_semantic_digest c) = 32;
  xr_class : ef_effect_class c = effect_class_name (ee_effect_class e);
  xr_contract : ee_resolution_contract e = ef_resolution_contract c /\ contract_is_valid (ef_resolution_contract c) = true;
  xr_phase : ef_phase c = effect_phase_name (ee_phase e) /\ phase_matches_terminal (ee_phase e) (ee_terminal e) = true;
  xr_owner : ee_owner_host e = ef_owner_host_id c /\ ef_owner_epoch c = FencingEpoch_get (ee_owner_epoch e) /\
    0 < ef_owner_epoch c;
  xr_expires : ee_lease_expires_at e = ef_lease_expires_at c;
  xr_terminal : ee_terminal e = ef_terminal c;
  xr_revision : ef_revision c = Revision_get (ee_revision e) /\ 0 < ef_revision c;
}.
Lemma decode_epoch_Ok v e : decode_epoch v = Ok e -> v = FencingEpoch_get e /\ 0 < v.
Proof. unfold decode_epoch, to_u64, FencingEpoch_new. intros H. inv_result. cbn. lia. Qed.
Lemma decode_revision_Ok v r : decode_revision v = Ok r -> v = Revision_get r /\ 0 < v.
Proof. unfold decode_revision, to_u64, Revision_new. intros H. inv_result. cbn. lia. Qed.
Lemma decode_effect_Ok id c e : decode_effect id c = Ok e -> row_is id c e.
Proof.
  unfold decode_effect. intros H. apply bind_Ok in H as (a & Ha & H). apply bind_Ok in H as (g & Hg & H).
  apply bind_Ok in H as (cl & Hcl & H). apply bind_Ok in H as (ph & Hph & H). apply bind_Ok in H as (ep & Hep & H).
  apply bind_Ok in H as (ex & Hex & H). apply bind_Ok in H as (rv & Hrv & H). case_if_in H as E1; [done|].
  case_if_in H as E2; [done|]. injection H as <-. bool_norm. case_if_in Hg as E3; [|done]. injection Hg as <-. bool_norm.
  unfold corrupt in Ha. apply map_err_Ok in Ha. apply (validate_sound (Validated0 := Capability_validated)) in Ha as [Hw Ha].
  apply decode_ts_Ok in Hex as ->. apply parse_phase_Ok in Hph. apply parse_class_Ok in Hcl.
  apply decode_epoch_Ok in Hep as []. apply decode_revision_Ok in Hrv as []. by split.
Qed.

(** The row of an entry decodes to it. *)
Context {TLaws : TimeLaws}.
Lemma decode_epoch_get e : 0 < FencingEpoch_get e -> decode_epoch (FencingEpoch_get e) = Ok e.
Proof.
  destruct e as [v]. cbn. intros H. unfold decode_epoch, to_u64, FencingEpoch_new. case_if as E; bool_norm; [|lia].
  rewrite bind_of_Ok. case_if as E2; bool_norm; [lia|done].
Qed.
Lemma decode_revision_get r : 0 < Revision_get r -> decode_revision (Revision_get r) = Ok r.
Proof.
  destruct r as [v]. cbn. intros H. unfold decode_revision, to_u64, Revision_new. case_if as E; bool_norm; [|lia].
  rewrite bind_of_Ok. case_if as E2; bool_norm; [lia|done].
Qed.
Lemma decode_effect_wf id c e : row_is id c e -> Timestamp_wf (ee_lease_expires_at e) -> decode_effect id c = Ok e.
Proof.
  intros [(H1 & H2 & H3 & H4 & H5) [H6 H7] [H8 H9] H10 [H11 H12] [H13 H14] (H15 & H16 & H17) H18 H19 [H20 H21]] Ht.
  rewrite H18 in Ht. pose proof (validate_complete (Validated0 := Capability_validated) _ H7) as Ha. cbn in Ha.
  unfold decode_effect. rewrite H6, Ha, H9, H10, H13, H16, H20, parse_class_name, parse_phase_name.
  rewrite decode_epoch_get, decode_revision_get, decode_ts_wf by (done || lia). cbn. rewrite <-H19, H14, H12. cbn.
  destruct e as [? ? ? ? ? ? [] ? ? ? ? ? ? ? ?]. cbn in *. by subst.
Qed.
End rows.

(** ** Entries and their rows *)

Definition entry_cols (e : EffectJournalEntry) : EffectCols :=
  effect_cols e (FencingEpoch_get (ee_owner_epoch e)) (Revision_get (ee_revision e)).
Record entry_wf (e : EffectJournalEntry) : Prop := {
  ew_action : Capability_wf (ee_action e);
  ew_digest : llen (sd_bytes (ee_semantic_digest e)) = 32;
  ew_contract : contract_is_valid (ee_resolution_contract e) = true;
  ew_terminal : phase_matches_terminal (ee_phase e) (ee_terminal e) = true;
  ew_epoch : 0 < FencingEpoch_get (ee_owner_epoch e);
  ew_revision : 0 < Revision_get (ee_revision e);
}.
Lemma row_cols {TL : TimeLib} {TA : TimeArith} id c e : row_is id c e -> ee_request_id e = id /\ c = entry_cols e /\ entry_wf e.
Proof.
  intros [(H1 & H2 & H3 & H4 & H5) [H6 H7] [H8 H9] H10 [H11 H12] [H13 H14] (H15 & H16 & H17) H18 H19 [H20 H21]].
  split; [done|]. split; [|by split; congruence]. destruct c. unfold entry_cols, effect_cols. cbn in *. congruence.
Qed.
Lemma cols_row {TL : TimeLib} {TA : TimeArith} e : entry_wf e -> row_is (ee_request_id e) (entry_cols e) e.
Proof. intros []. by split. Qed.

(** What every move of an entry keeps. *)
Definition same_effect (e e' : EffectJournalEntry) : Prop :=
  ee_request_id e' = ee_request_id e /\ ee_session_id e' = ee_session_id e /\
  ee_participant_id e' = ee_participant_id e /\ ee_operation_id e' = ee_operation_id e /\ ee_caller e' = ee_caller e /\
  ee_action e' = ee_action e /\ ee_semantic_digest e' = ee_semantic_digest e /\
  ee_effect_class e' = ee_effect_class e /\ ee_resolution_contract e' = ee_resolution_contract e.
#[global] Instance same_effect_po : PreOrder same_effect.
Proof.
  split; [by intros e|]. unfold same_effect. intros a b c (?&?&?&?&?&?&?&?&?) (?&?&?&?&?&?&?&?&?). split_and!; congruence.
Qed.
Lemma updated_cols e e' : same_effect e e' ->
  updated_effect (entry_cols e) e' (FencingEpoch_get (ee_owner_epoch e')) (Revision_get (ee_revision e')) = entry_cols e'.
Proof.
  intros (?&?&?&?&?&?&?&?&?). unfold updated_effect, entry_cols, effect_cols. cbn. congruence.
Qed.

(** ** The automaton *)

(** What can move an entry: another reservation with the same identity, the owner's start
    and report, a takeover, an authorized decision, or a move of the tool invocation. *)
Inductive EffectCause :=
| ByReserve
| ByStart
| ByReport (r : EffectResolution)
| ByTakeover
| ByDecision (r : UncertaintyResolution)
| ByTool (t : ToolTransition).
Definition reported_phase (r : EffectResolution) : EffectJournalPhase :=
  match r with ErCompleted _ => JCompleted | ErFailed _ => JFailed | ErUncertain => JUncertain end.
Definition can_start (p : EffectJournalPhase) : bool :=
  match p with JReserved | JRetryAuthorized => true | _ => false end.
Definition phase_step (contract : EffectResolutionContract) (k : EffectCause) (p p' : EffectJournalPhase) : bool :=
  match k with
  | ByReserve => eqb p JStarted && eqb p' JUncertain
  | ByStart => can_start p && eqb p' JStarted
  | ByReport r => eqb p JStarted && eqb p' (reported_phase r)
  | ByTakeover => (eqb p JReserved && eqb p' JReserved) || (eqb p JStarted && eqb p' JUncertain)
  | ByDecision r => eqb p JUncertain && eqb p' (resolved_phase r) && resolution_allowed contract r
  | ByTool TtStart => can_start p && eqb p' JStarted
  | ByTool (TtComplete _) => eqb p JStarted && eqb p' JCompleted
  | ByTool (TtFail _) => (eqb p JStarted || can_start p) && eqb p' JFailed
  | ByTool TtMarkUncertain => eqb p JStarted && eqb p' JUncertain
  | ByTool (TtRequestCancel _) => (eqb p JStarted || can_start p) && eqb p' p
  end.
(** A move before and after its revision is counted up. *)
Record effect_moves {TL : TimeLib} (k : EffectCause) (e e' : EffectJournalEntry) : Prop := {
  ev_same : same_effect e e';
  ev_phase : phase_step (ee_resolution_contract e) k (ee_phase e) (ee_phase e') = true;
  ev_terminal : phase_matches_terminal (ee_phase e') (ee_terminal e') = true;
  ev_epoch : 0 < FencingEpoch_get (ee_owner_epoch e');
  ev_expires : ee_lease_expires_at e' = ee_lease_expires_at e \/ Timestamp_wf (ee_lease_expires_at e');
}.
Definition effect_step {TL : TimeLib} (k : EffectCause) (e e' : EffectJournalEntry) : Prop :=
  effect_moves k e e' /\ Revision_next (ee_revision e) = Some (ee_revision e').
Lemma moves_step {TL : TimeLib} k e e1 rev : effect_moves k e e1 -> Revision_next (ee_revision e) = Some rev ->
  effect_step k e (with_revision e1 rev).
Proof. intros [] Hr. split; [by split|done]. Qed.

(** The moves of the handlers. *)
Section moves.
Context {TL : TimeLib} {TA : TimeArith} {SH : Sha256} {JS : Json} {UT : UuidText}.
Lemma effect_expiry_wf now q t : effect_expiry now q = Ok t -> Timestamp_wf t.
Proof. unfold effect_expiry. intros H. inv_result. by eexists. Qed.
Lemma uncertain_moves k e : entry_wf e -> ee_phase e = JStarted -> k = ByReserve \/ k = ByTakeover ->
  effect_moves k e (with_phase e JUncertain (ee_terminal e)).
Proof.
  intros [_ _ _ Ht Hep _] Hp Hk. rewrite Hp in Ht. split; [done|cbn [with_phase ee_phase]; rewrite Hp; by destruct Hk as [->| ->]|exact Ht|exact Hep|by left].
Qed.
Definition transition_cause (r : option EffectResolution) : EffectCause :=
  match r with None => ByStart | Some r => ByReport r end.
Lemma transitioned_moves e r now e1 : entry_wf e -> transitioned e r now = Some e1 -> effect_moves (transition_cause r) e e1.
Proof.
  intros [_ _ _ Ht Hep _] H. unfold transitioned in H. destruct r as [r|].
  - case_if_in H as E; [|done]. unfold eqb in E. bool_norm. rewrite E in Ht. injection H as <-.
    destruct r; split; cbn; rewrite ?E; (done || by left).
  - case_if_in H as E; [|done]. injection H as <-. bool_norm.
    split; cbn; [done| | |done|by left]; by destruct (ee_phase e).
Qed.
Lemma taken_over_moves e c now e1 : entry_wf e -> ee_phase e = JReserved \/ ee_phase e = JStarted ->
  0 < FencingEpoch_get (te_owner_epoch c) -> taken_over e c now = Ok e1 -> effect_moves ByTakeover e e1.
Proof.
  intros Hw Hp He H. unfold taken_over in H. case_if_in H as E; unfold eqb in E; bool_norm.
  - destruct Hw as [_ _ _ Ht _ _]. rewrite E in Ht. inv_result. split; cbn; rewrite ?E; try done. right. by eapply effect_expiry_wf.
  - injection H as <-. destruct Hp as [Hp|Hp]; [done|]. apply uncertain_moves; auto.
Qed.
Lemma resolved_moves e c now e1 : ee_phase e = JUncertain -> entry_wf e -> 0 < FencingEpoch_get (ra_owner_epoch c) ->
  resolution_allowed (ee_resolution_contract e) (ru_resolution (ra_decision c)) = true ->
  resolved_effect e c now = Ok e1 -> effect_moves (ByDecision (ru_resolution (ra_decision c))) e e1.
Proof.
  intros Hp [_ _ _ _ Hep _] He Ha H. unfold resolved_effect in H.
  assert (Hstep : forall p, p = resolved_phase (ru_resolution (ra_decision c)) ->
    phase_step (ee_resolution_contract e) (ByDecision (ru_resolution (ra_decision c))) (ee_phase e) p = true).
  { intros p ->. cbn. rewrite Hp, Ha. unfold eqb. by rewrite !bool_decide_eq_true_2. }
  destruct (ru_resolution (ra_decision c)) eqn:E; cbn in Hstep; inv_result;
    (split; [done|by apply Hstep|done|done|]); (by left) || (right; by eapply effect_expiry_wf).
Qed.
Lemma tool_moves v e t mv : entry_wf e -> phase_matches (tv_phase v) (ee_phase e) = true -> tool_move v e t = Ok mv ->
  effect_moves (ByTool t) e (with_phase e (mv_effect_phase mv) (mv_effect_terminal mv)).
Proof.
  intros [_ _ _ Ht Hep _] Hm H. unfold tool_move in H.
  destruct t; cbn -[eqb] in H; inv_result; unfold eqb in *; bool_norm; cbn in *.
  all: split; cbn; [done| | |done|by left].
  all: repeat match goal with H : tv_phase _ = _ |- _ => rewrite H in Hm end; try done.
  all: try (destruct (ee_phase e); done).
  all: destruct (tv_phase v), (ee_phase e); done.
Qed.
End moves.

(** The participant and the operation of an entry belong to its session. *)
Definition linked (d : Db) (e : EffectJournalEntry) : Prop :=
  pc_session_id <$> db_participants d !! ee_participant_id e = Some (ee_session_id e) /\
  (fun o => (oc_session_id o, oc_participant_id o)) <$> db_operations d !! ee_operation_id e
    = Some (ee_session_id e, ee_participant_id e).

(** What one transaction does to the journal, by one of [causes] of the entry moved. *)
Inductive journal_change {TL : TimeLib} {TA : TimeArith} (causes : RequestId -> EffectCause -> EffectJournalEntry -> Prop) (d d' : Db) : Prop :=
| jc_same : db_effects d' = db_effects d -> journal_change causes d d'
| jc_insert e :
    db_effects d !! ee_request_id e = None -> entry_wf e -> ee_phase e = JReserved -> ee_revision e = Revision_initial ->
    Timestamp_wf (ee_lease_expires_at e) -> linked d e ->
    db_effects d' = <[ee_request_id e := entry_cols e]> (db_effects d) -> journal_change causes d d'
| jc_move id k c e e' :
    causes id k e -> db_effects d !! id = Some c -> decode_effect id c = Ok e -> effect_step k e e' ->
    db_effects d' = <[id := entry_cols e']> (db_effects d) -> journal_change causes d d'.

(** ** The prologue *)

Section enter.
Context {TL : TimeLib}.
Lemma wp_enter_session sid act ctx e now (Q : SessionRow * Timestamp -> Db -> Prop) F d :
  (forall row t s, entered sid now t d (set_sessions d s) -> by_owner sid ctx e now d -> Q (row, t) (set_sessions d s)) ->
  wp (enter_session sid act (rc_caller ctx) e now) Q F d.
Proof.
  intros HQ. unfold enter_session. apply wp_bind, wp_quiet; [apply quiet_require_open_session|]. intros row d' H.
  apply require_open_session_Next in H as (-> & c & Hc & Hrow & _). apply decode_session_Ok in Hrow.
  destruct Hrow as (_ & _ & _ & _ & _ & _ & _ & _ & _ & Hown & _ & Hfl).
  apply wp_bind, wp_quiet; [apply quiet_advance|]. intros t d' H. apply advance_time_floor_Next in H as [-> ->].
  unfold advance. rewrite Hc, Hfl. apply wp_bind, wp_lift. intros [] Ho. apply wp_ret.
  destruct (require_owner_Ok _ _ _ _ _ Ho) as (l & Hl & He & Hh & Hlt). apply HQ.
  - split; [|done]. exists c. split_and!; done.
  - exists c. split; [done|]. destruct (sr_owner row) as [l'|]; [|done]. injection Hl as ->. eexists c, _. split; [done|].
    split; [|exact Hlt]. destruct Hown as [_ Hown]. rewrite <-He, <-Hh. exact Hown.
Qed.
Lemma wp_enter sid act ctx e now (Q : Timestamp -> Db -> Prop) F d :
  (forall t s, entered sid now t d (set_sessions d s) -> by_owner sid ctx e now d -> Q t (set_sessions d s)) ->
  wp (enter_owned sid act (rc_caller ctx) e now) Q F d.
Proof.
  intros HQ. unfold enter_owned. apply wp_bind, wp_enter_session. intros row t s He Ho. apply wp_ret. by apply HQ.
Qed.
End enter.

(** ** Loading *)

Section loads.
Context {TL : TimeLib} {TA : TimeArith} {SH : Sha256} {JS : Json} {UT : UuidText}.

(** The row of the entry, its participant and its operation. *)
Record entry_read (id : RequestId) (d : Db) (c : EffectCols) (e : EffectJournalEntry) : Prop := {
  er_row : db_effects d !! id = Some c;
  er_entry : decode_effect id c = Ok e;
}.
Lemma wp_load_effect id (Q : option EffectJournalEntry -> Db -> Prop) F d :
  (db_effects d !! id = None -> Q None d) -> (forall c e, entry_read id d c e -> Q (Some e) d) ->
  wp (load_effect_in id) Q F d.
Proof.
  intros HN HS. unfold load_effect_in. wp_auto. destruct (db_effects d !! id) as [c|] eqn:Hc; wp_auto; [|auto].
  apply wp_load_participant; intros; wp_auto; inv_result; simplify_eq. apply wp_load_operation.
  intros [o|]; wp_auto; inv_result; simplify_eq. case_if as E; wp_auto. eapply HS. by split.
Qed.

Lemma wp_load_registration sid n v (Q : option ToolRegistrationSnapshot -> Db -> Prop) F d :
  Q None d -> (forall row g, db_registrations d !! (sid, n, v) = Some row -> decode_registration (tg_snapshot row) = Ok g ->
    Q (Some g) d) -> wp (load_tool_registration_in sid n v) Q F d.
Proof.
  intros HN HS. unfold load_tool_registration_in. wp_auto. destruct (_ !! _) as [row|] eqn:Hc; wp_auto; [|auto].
  apply wp_quiet; [apply quiet_load_session_in|]. intros s d' Hl. apply load_session_in_Next in Hl as [-> _]. wp_auto.
  case_if as E; wp_auto. by eapply HS.
Qed.

(** An invocation that can be read agrees with its entry of the journal. *)
Record tool_read (id : ToolInvocationId) (d : Db) (row : ToolCols) (v : ToolInvocationSnapshot) (c : EffectCols)
    (e : EffectJournalEntry) : Prop := {
  tl_row : db_tools d !! id = Some row;
  tl_value : decode_tool_snapshot (tc_snapshot row) = Ok v;
  tl_projection : row_is_projection id row v = true;
  tl_entry : entry_read (ti_request_id (tv_invocation v)) d c e;
  tl_phase : phase_matches (tv_phase v) (ee_phase e) = true;
  tl_revision : ee_revision e = tv_revision v;
  tl_session : ee_session_id e = ti_session_id (tv_invocation v);
  tl_participant : ee_participant_id e = ti_participant_id (tv_invocation v);
  tl_operation : ee_operation_id e = ti_operation_id (tv_invocation v);
  tl_action : ee_action e = td_required_authority (tv_definition v);
  tl_class : ee_effect_class e = td_effect_class (tv_definition v);
}.
Lemma tool_session id row v : row_is_projection id row v = true -> ti_session_id (tv_invocation v) = tc_session_id row.
Proof. unfold row_is_projection. intros H. eq_norm. done. Qed.
Lemma wp_load_tool id (Q : option ToolInvocationSnapshot -> Db -> Prop) F d :
  (db_tools d !! id = None -> Q None d) -> (forall row v c e, tool_read id d row v c e -> Q (Some v) d) ->
  wp (load_tool_invocation_in id) Q F d.
Proof.
  intros HN HS. unfold load_tool_invocation_in. wp_auto. destruct (db_tools d !! id) as [row|] eqn:Hr; wp_auto; [|auto].
  case_if as E1; wp_auto. apply wp_load_effect; intros; wp_auto; inv_result; simplify_eq. case_if as E2; wp_auto. eq_norm.
  apply wp_load_participant; intros; wp_auto; inv_result; simplify_eq. apply wp_load_operation.
  intros [o|]; wp_auto; inv_result; simplify_eq. case_if as E3; wp_auto. eq_norm.
  apply wp_load_registration; intros; wp_auto; inv_result; simplify_eq. case_if as E4; wp_auto.
  eapply HS. by split.
Qed.
End loads.

(** ** Statements *)

Section statements.
Context {TL : TimeLib} {TA : TimeArith} {SH : Sha256} {JS : Json} {UT : UuidText}.
Context {TLaws : TimeLaws} {TALaws : TimeArithLaws}.

Lemma wp_load_operation_row id (Q : option OperationSnapshot -> Db -> Prop) F d :
  Q None d -> (forall row o, db_operations d !! id = Some row -> decode_operation id row = Ok o -> Q (Some o) d) ->
  wp (load_operation_in id) Q F d.
Proof. intros HN HS. unfold load_operation_in. wp_auto. destruct (_ !! _) eqn:E; wp_auto; eauto. Qed.

Lemma wp_insert_effect e (Q : unit -> Db -> Prop) F d :
  (db_effects d !! ee_request_id e = None -> llen (sd_bytes (ee_semantic_digest e)) = 32 ->
   Q tt (set_effects d (<[ee_request_id e := entry_cols e]> (db_effects d)))) -> wp (insert_effect e) Q F d.
Proof.
  intros HQ. unfold insert_effect. wp_auto. case_if as E; [done|]. unfold to_i64 in *. inv_result. wp_auto. apply HQ; [|lia].
  by destruct (db_effects d !! ee_request_id e).
Qed.
Lemma wp_update_effect e e' (Q : unit -> Db -> Prop) F d :
  db_effects d !! ee_request_id e = Some (entry_cols e) -> same_effect e e' ->
  Q tt (set_effects d (<[ee_request_id e := entry_cols e']> (db_effects d))) -> wp (update_effect e') Q F d.
Proof.
  intros Hc Hs HQ. unfold update_effect. wp_auto. unfold to_i64 in *. inv_result. pose proof Hs as (Hid & _). rewrite Hid, Hc.
  case_if as Erev; wp_auto. by rewrite updated_cols.
Qed.
Lemma wp_commit_entry e e1 (Q : EffectJournalEntry -> Db -> Prop) F d :
  db_effects d !! ee_request_id e = Some (entry_cols e) -> same_effect e e1 -> ee_revision e1 = ee_revision e ->
  (forall rev, Revision_next (ee_revision e) = Some rev -> Q (with_revision e1 rev)
     (set_effects d (<[ee_request_id e := entry_cols (with_revision e1 rev)]> (db_effects d)))) -> wp (commit_entry e1) Q F d.
Proof.
  intros Hc Hs Hr HQ. unfold commit_entry, next_revision. wp_auto. rewrite Hr in *. inv_result.
  eapply wp_update_effect; [exact Hc|exact Hs|]. wp_auto. by apply HQ.
Qed.

(** An entry that was read, with its row in the form it is written in. *)
Lemma entry_read_cols id d c e : entry_read id d c e ->
  ee_request_id e = id /\ db_effects d !! ee_request_id e = Some (entry_cols e) /\ entry_wf e.
Proof. intros [Hc He]. apply decode_effect_Ok, row_cols in He as (<- & -> & Hw). done. Qed.

(** One entry of the journal moves, by a cause and in the way [effect_step] allows. *)
Lemma moved_change (causes : RequestId -> EffectCause -> EffectJournalEntry -> Prop) d d1 d2 id k c e e' : causes id k e -> entry_read id d1 c e ->
  effect_step k e e' -> db_effects d1 = db_effects d -> db_effects d2 = <[ee_request_id e := entry_cols e']> (db_effects d1) ->
  journal_change causes d d2.
Proof.
  intros Hk Hr Hst E1 E2. pose proof (entry_read_cols _ _ _ _ Hr) as (Hid & _). destruct Hr as [Hc He].
  rewrite Hid, E1 in *. by eapply jc_move.
Qed.

Lemma wp_commit_moves (causes : RequestId -> EffectCause -> EffectJournalEntry -> Prop) d0 d id d1 k c e e1 (Q : EffectJournalEntry -> Db -> Prop) F :
  causes id k e -> entry_read id d1 c e -> db_effects d1 = db_effects d0 -> db_effects d = db_effects d0 -> effect_moves k e e1 -> ee_revision e1 = ee_revision e ->
  (forall e2 v, effect_step k e e2 -> journal_change causes d0 (set_effects d v) -> v !! id = Some (entry_cols e2) ->
     Q e2 (set_effects d v)) -> wp (commit_entry e1) Q F d.
Proof.
  intros Hk Hr0 E0 E Hm Hrv HQ.
  assert (Hr : entry_read id d c e) by (destruct Hr0; split; [congruence|done]).
  pose proof (entry_read_cols _ _ _ _ Hr) as (Hid & Hrow & Hw).
  eapply (wp_commit_entry e); [exact Hrow|by destruct Hm|done|]. intros rev Hrev. pose proof (moves_step _ _ _ _ Hm Hrev) as Hst.
  apply HQ; [done| |rewrite Hid; apply lookup_insert_eq]. by eapply moved_change.
Qed.

(** Both belong to the session a handler checked them against. *)
Lemma linked_of d pid oid p o prow orow e : db_participants d !! pid = Some prow -> decode_participant pid prow = Ok p ->
  db_operations d !! oid = Some orow -> decode_operation oid orow = Ok o ->
  ps_session_id p = ee_session_id e -> on_session_id o = ee_session_id e -> on_participant_id o = ee_participant_id e ->
  ee_participant_id e = pid -> ee_operation_id e = oid -> linked d e.
Proof.
  intros H1 H2 H3 H4 H5 H6 H7 <- <-. apply decode_participant_Ok in H2 as [-> _]. apply decode_operation_Ok in H4 as (s & -> & _).
  cbn in *. unfold linked. rewrite H1, H3. cbn. split; congruence.
Qed.
End statements.

(** ** Handlers of the journal *)

Section handlers.
Context {TL : TimeLib} {TA : TimeArith} {SH : Sha256} {JS : Json} {UT : UuidText}.
Context {TLaws : TimeLaws} {TALaws : TimeArithLaws}.
Variable max_lease_millis : Z.

(** Reading and failing between two writes of a handler that records no failure. *)
Ltac journal_reads :=
  repeat lazymatch goal with
  | |- wp (abort _) _ _ _ => apply wp_abort
  | |- wp (let _ := _ in _) _ _ _ => cbv zeta
  | |- wp (lift (ok_or _ (Some _)) ≫= _) _ _ _ => apply wp_bind, wp_lift; intros ? [= <-]
  | |- wp (lift (ok_or _ None) ≫= _) _ _ _ => apply wp_bind, wp_lift; intros ? [=]
  | |- wp (load_effect_in _ ≫= _) _ _ _ => apply wp_bind, wp_load_effect; [intros ?|intros ? ? ?]
  | |- wp (load_participant_in _ ≫= _) _ _ _ => apply wp_bind, wp_load_participant; [intros ?|intros ? ? ? ?]
  | |- wp (load_operation_in _ ≫= _) _ _ _ => apply wp_bind, wp_load_operation_row; [|intros ? ? ? ?]
  | |- wp (lift _ ≫= _) _ _ _ => apply wp_bind, wp_lift; intros ? ?
  | |- wp (get ≫= _) _ _ _ => apply wp_bind, wp_get
  | |- wp (if ?b then _ else _) _ _ _ => destruct b eqn:?
  end.
(** A read of another table, or one that only fails. *)
Ltac journal_skip := apply wp_bind, wp_read; [solve [within_auto]|by apply jc_same|intros ? ?].

Definition same_effects (d d' : Db) : Prop := db_effects d' = db_effects d.
#[global] Instance same_effects_po : PreOrder same_effects.
Proof. split; [done|]. intros a b c. unfold same_effects. congruence. Qed.
Lemma journal_then causes d d1 d2 : journal_change causes d d1 -> same_effects d1 d2 -> journal_change causes d d2.
Proof.
  intros Hc E. unfold same_effects in E. destruct Hc; rewrite <-E in *; [by apply jc_same|by eapply jc_insert|by eapply jc_move].
Qed.
(** The rest of a handler that has written the journal. *)
Lemma wp_after_journal {A} causes (m : Tx A) d d1 : journal_change causes d d1 -> within same_effects m ->
  wp m (fun _ => journal_change causes d) (journal_change causes d) d1.
Proof. intros Hc Hm. eapply wp_mono; [apply Hm|intros a d2|intros d2]; by apply journal_then. Qed.
Lemma same_effects_tools : writes_tools same_effects.
Proof. by repeat split. Qed.
Lemma same_effects_grants : writes_grants same_effects.
Proof. done. Qed.
Lemma same_effects_events : writes_events same_effects.
Proof. done. Qed.
#[local] Hint Resolve same_effects_tools same_effects_grants same_effects_events : within.

(** A repeated reservation finds that the lease of the started effect has ended. *)
Definition reserve_causes (c : ReserveEffect) (now : Timestamp) (d : Db) (id : RequestId) (k : EffectCause)
    (e : EffectJournalEntry) : Prop :=
  id = rc_request_id (re_context c) /\ k = ByReserve /\ by_owner (re_session_id c) (re_context c) (re_owner_epoch c) now d /\
  same_reservation e c = true /\
  exists row, db_sessions d !! re_session_id c = Some row /\ Timestamp_le (ee_lease_expires_at e) (store_time row now).
Lemma reserve_effect_call now c d : all_rows cols_wf d -> Capability_wf (re_action c) ->
  wp (reserve_effect max_lease_millis now c) (fun _ => journal_change (reserve_causes c now d) d)
    (journal_change (reserve_causes c now d) d) d.
Proof.
  intros Hrows Hcap. unfold reserve_effect. journal_reads. do 2 journal_skip. journal_reads.
  apply wp_bind, wp_enter. intros t s ((row & Hs & -> & _) & _) Ho. journal_reads.
  - apply wp_bind, wp_insert_effect. intros Hn Hl. apply wp_ret. pose proof (owner_epoch _ _ _ _ _ Hrows Ho).
    eapply jc_insert; [exact Hn| | | | | |reflexivity]; cbn; try done.
    + split; cbn; eq_norm; done.
    + by eapply effect_expiry_wf.
    + eq_norm. by eapply linked_of.
  - match goal with H : entry_read ?id _ _ ?e |- _ => pose proof (entry_read_cols _ _ _ _ H) as (Hid & _ & Hw);
      eapply (wp_commit_moves _ d _ id _ ByReserve); [|exact H|done|done|..] end; try done; eq_norm; ts_norm.
    + split_and!; eauto.
    + apply uncertain_moves; auto.
  - apply wp_ret. by apply jc_same.
Qed.

(** The owner of the effect, at the revision he has seen; a start before the lease ends. *)
Definition transition_causes (c : EffectTransition) (now : Timestamp) (d : Db) (id : RequestId) (k : EffectCause)
    (e : EffectJournalEntry) : Prop :=
  id = et_effect_request_id c /\ k = transition_cause (et_resolution c) /\
  by_owner (ee_session_id e) (et_context c) (et_owner_epoch c) now d /\
  ee_owner_host e = rc_caller (et_context c) /\ ee_owner_epoch e = et_owner_epoch c /\ ee_revision e = et_expected_revision c /\
  (et_resolution c = None ->
   exists row, db_sessions d !! ee_session_id e = Some row /\ Timestamp_lt (store_time row now) (ee_lease_expires_at e)).
Lemma started_before e now e1 : transitioned e None now = Some e1 -> Timestamp_lt now (ee_lease_expires_at e).
Proof. unfold transitioned. case_if as E; [|done]. bool_norm. by ts_norm. Qed.
Lemma transition_effect_call now c d :
  wp (transition_effect now c) (fun _ => journal_change (transition_causes c now d) d)
    (journal_change (transition_causes c now d) d) d.
Proof.
  unfold transition_effect. journal_reads. do 4 journal_skip. destruct a2; [wp_auto; by apply jc_same|]. journal_reads.
  apply wp_bind, wp_enter. intros t s ((row & Hs & -> & _) & _) Ho. journal_reads. unfold ok_or in *. case_match; simplify_eq.
  match goal with H : entry_read ?id _ _ ?e |- _ => pose proof (entry_read_cols _ _ _ _ H) as (Hid & _ & Hw);
    apply wp_bind; eapply (wp_commit_moves (transition_causes c now d) d _ id _ (transition_cause (et_resolution c))); [|exact H|done|done|..] end.
  - eq_norm. unfold transition_causes. split_and!; try done. intros Hr. rewrite Hr in *. eauto using started_before.
  - by eapply transitioned_moves.
  - match goal with H : transitioned _ _ _ = Some _ |- _ => revert H end. unfold transitioned.
    repeat case_match; intros; by simplify_eq.
  - intros e2 v Hst Hj _. apply wp_after_journal; [done|within_auto].
Qed.

(** An owner of the session takes over an effect whose lease has ended. *)
Definition takeover_causes (c : TakeoverEffect) (now : Timestamp) (d : Db) (id : RequestId) (k : EffectCause)
    (e : EffectJournalEntry) : Prop :=
  id = te_effect_request_id c /\ k = ByTakeover /\
  by_owner (ee_session_id e) (te_context c) (te_owner_epoch c) now d /\ ee_revision e = te_expected_revision c /\
  exists row, db_sessions d !! ee_session_id e = Some row /\ Timestamp_le (ee_lease_expires_at e) (store_time row now).
Lemma takeover_effect_call now c d : all_rows cols_wf d ->
  wp (takeover_effect max_lease_millis now c) (fun _ => journal_change (takeover_causes c now d) d)
    (journal_change (takeover_causes c now d) d) d.
Proof.
  intros Hrows. unfold takeover_effect. journal_reads. do 4 journal_skip. destruct a2; [wp_auto; by apply jc_same|].
  journal_reads. apply wp_bind, wp_enter. intros t s ((row & Hs & -> & _) & _) Ho. journal_reads.
  pose proof (owner_epoch _ _ _ _ _ Hrows Ho).
  match goal with H : entry_read ?id _ _ ?e |- _ => pose proof (entry_read_cols _ _ _ _ H) as (Hid & _ & Hw);
    apply wp_bind; eapply (wp_commit_moves (takeover_causes c now d) d _ id _ ByTakeover); [|exact H|done|done|..] end.
  - eq_norm. ts_norm. unfold takeover_causes. split_and!; eauto.
  - eapply taken_over_moves; [done| |done|done]. eq_norm. case_match; try done; auto.
  - match goal with H : taken_over _ _ _ = Ok _ |- _ => revert H end. unfold taken_over.
    case_match; intros; by inv_result.
  - intros e2 v Hst Hj _. apply wp_after_journal; [done|within_auto].
Qed.

(** A decision about an uncertain effect of an uncertain operation, by an owner of the
    session, that the participant's policy and a grant that is not used up authorize. *)
Definition decision_causes (c : ResolveAuthorizedEffect) (now : Timestamp) (d : Db) (id : RequestId) (k : EffectCause)
    (e : EffectJournalEntry) : Prop :=
  id = ra_effect_request_id c /\ k = ByDecision (ru_resolution (ra_decision c)) /\
  by_owner (ra_session_id c) (ra_context c) (ra_owner_epoch c) now d /\
  ee_session_id e = ra_session_id c /\ ee_participant_id e = ra_participant_id c /\
  ee_revision e = ra_expected_effect_revision c /\
  (exists row o, db_operations d !! ee_operation_id e = Some row /\ decode_operation (ee_operation_id e) row = Ok o /\
     on_state o = OpUncertain) /\
  exists row policy grant decision, db_sessions d !! ra_session_id c = Some row /\
    db_policies d !! ra_participant_id c = Some policy /\ db_grants d !! ra_grant_id c = Some grant /\
    gs_consumed_at grant = None /\
    authorize_effect (policy_ceilings policy) (ra_participant_id c) (ra_session_id c)
      (MkScoped (MkCapability "effect.resolve_uncertainty") (ScopeOperation (ee_operation_id e))) (Some (gs_grant grant))
      (store_time row now) = Ok decision.
Lemma authorized_Some policy p sid req grant now a : authorized_by policy p sid req grant now = Some a ->
  exists pol, policy = Some pol /\ authorize_effect (policy_ceilings pol) p sid req (gs_grant <$> grant) now = Ok a.
Proof. unfold authorized_by. destruct policy as [pol|]; [|done]. case_match; [|done]. intros [= ->]. eauto. Qed.
Lemma wp_load_policy id (Q : option AuthorityPolicySnapshot -> Db -> Prop) F d :
  Q (db_policies d !! id) d -> wp (load_authority_policy_in id) Q F d.
Proof. done. Qed.
Lemma wp_load_grant id (Q : option GrantSnapshot -> Db -> Prop) F d : Q (db_grants d !! id) d -> wp (load_grant_in id) Q F d.
Proof. done. Qed.
#[local] Hint Resolve within_settle_tool within_validate_resolution : within.
Lemma resolve_effect_call now c d : all_rows cols_wf d ->
  wp (resolve_authorized_effect now c) (fun _ => journal_change (decision_causes c now d) d)
    (journal_change (decision_causes c now d) d) d.
Proof.
  intros Hrows. unfold resolve_authorized_effect. journal_reads. do 4 journal_skip.
  destruct a2 as [[|]|]; [done|apply wp_after_journal; [by apply jc_same|within_auto]|].
  apply wp_bind, wp_enter. intros t s ((row & Hs & -> & _) & _) Ho. journal_reads.
  pose proof (owner_epoch _ _ _ _ _ Hrows Ho). apply wp_bind, wp_load_policy, wp_bind, wp_load_grant.
  apply wp_bind, wp_lift. intros grant Hgrant. apply wp_bind, wp_lift. intros decision Hdec. journal_reads.
  case_match eqn:Hauth; [|done]. case_if_in Hdec as Hfree; [|done]. injection Hdec as ->.
  apply authorized_Some in Hauth as (policy & Hpol & Hauth). apply ok_or_Ok in Hgrant.
  match goal with H : entry_read ?id _ _ ?e |- _ => pose proof (entry_read_cols _ _ _ _ H) as (Hid & _ & Hw);
    apply wp_bind; eapply (wp_commit_moves (decision_causes c now d) d _ id _ (ByDecision (ru_resolution (ra_decision c))));
      [|exact H|done|done|..] end; eq_norm.
  - unfold decision_causes. unfold is_none in Hfree. destruct (gs_consumed_at grant) eqn:Hcons; [done|].
    match goal with H : decode_operation _ _ = Ok ?o |- _ => pose proof H as Hop; apply decode_operation_Ok in Hop as (st & Hop & _) end.
    rewrite Hop in *. cbn in *. match goal with H : ee_operation_id _ = _ |- _ => rewrite H in * end.
    split_and!; eauto 10.
  - by eapply resolved_moves.
  - match goal with H : resolved_effect _ _ _ = Ok _ |- _ => revert H end. unfold resolved_effect.
    case_match; intros; by inv_result.
  - intros e2 v Hst Hj _. apply wp_after_journal; [done|within_auto].
Qed.

(** A start of an invocation that was not cancelled, for a running operation, with the
    authority the tool requires and a grant, if it names one, that is not used up. *)
Definition invocation_grant (i : ToolInvocation) (d : Db) : option GrantSnapshot :=
  ti_authority_grant_id i ≫= fun id => db_grants d !! id.
Definition start_authorized (v : ToolInvocationSnapshot) (now : Timestamp) (d : Db) : Prop :=
  let i := tv_invocation v in
  dp_cancellation_id (tv_dispatch v) = None /\ unconsumed (invocation_grant i d) = true /\
  (exists row o, db_operations d !! ti_operation_id i = Some row /\ decode_operation (ti_operation_id i) row = Ok o /\
     on_state o = OpRunning) /\
  exists policy decision, db_policies d !! ti_participant_id i = Some policy /\
    authorize_effect (policy_ceilings policy) (ti_participant_id i) (ti_session_id i)
      (MkScoped (td_required_authority (tv_definition v)) (ScopeOperation (ti_operation_id i)))
      (gs_grant <$> invocation_grant i d) now = Ok decision.
Lemma wp_tool_start v t d (Q : unit -> Db -> Prop) F :
  (forall grants, start_authorized v t d -> Q tt (set_grants d grants)) -> wp (authorize_tool_start v t) Q F d.
Proof.
  intros HQ. unfold authorize_tool_start. journal_reads. apply wp_bind.
  assert (Hg : forall (k : option GrantSnapshot -> Db -> Prop), k (invocation_grant (tv_invocation v) d) d ->
    wp (load_grant_of (tv_invocation v)) k F d).
  { intros k Hk. unfold load_grant_of, invocation_grant in *. by destruct (ti_authority_grant_id _). }
  apply Hg, wp_bind, wp_load_policy. journal_reads. eq_norm.
  match goal with H : is_some _ = true |- _ => unfold is_some in H; case_match eqn:Ha; [clear H|done] end.
  apply authorized_Some in Ha as (pol & Hpol & Ha).
  assert (Hs : start_authorized v t d).
  { split_and!; eauto 10. by destruct (dp_cancellation_id _). }
  assert (Hd : Q tt d) by (specialize (HQ (db_grants d) Hs); by destruct d).
  repeat case_match; wp_auto; try done. unfold update_grant_in. wp_auto. case_if as Eg; wp_auto. by apply HQ.
Qed.

(** A move of an invocation that can be read, by the owner of its effect, for the dispatch
    and the connection it is bound to. *)
Definition tool_causes (c : TransitionToolInvocation) (now : Timestamp) (d : Db) (id : RequestId) (k : EffectCause)
    (e : EffectJournalEntry) : Prop :=
  k = ByTool (tt_transition c) /\ ee_owner_epoch e = tt_owner_epoch c /\ ee_revision e = tt_expected_revision c /\
  by_owner (ee_session_id e) (tt_context c) (tt_owner_epoch c) now d /\
  exists row v ec conn srow, tool_read (tt_invocation_id c) d row v ec e /\ id = ti_request_id (tv_invocation v) /\
    db_connections d !! (ee_session_id e, tt_provider_id c) = Some conn /\ speaks_for c v conn (cn_generation conn) = true /\
    db_sessions d !! ee_session_id e = Some srow /\
    (tt_transition c = TtStart -> start_authorized v (store_time srow now) d).
Lemma entry_read_inj id d d' c c' e e' : entry_read id d c e -> entry_read id d' c' e' -> db_effects d' = db_effects d ->
  c' = c /\ e' = e.
Proof. intros [H1 H2] [H3 H4] E. rewrite E, H1 in H3. injection H3 as <-. rewrite H2 in H4. by injection H4 as <-. Qed.
Lemma wp_within_then {A B} (R : Db -> Db -> Prop) (m : Tx B) (f : B -> Tx A) (Q : A -> Db -> Prop) F d :
  within R m -> (forall d', R d d' -> F d') -> (forall b d', R d d' -> wp (f b) Q F d') -> wp (m ≫= f) Q F d.
Proof. intros Hm HF Hf. apply wp_bind. by apply (wp_within R). Qed.

#[local] Hint Resolve within_tool_start within_moved_dispatch : within.
Lemma commit_tool_call causes d0 d c current effect ec connection move now id : causes id (ByTool (tt_transition c)) effect ->
  entry_read id d ec effect -> db_effects d = db_effects d0 -> ee_revision effect = tv_revision current ->
  effect_moves (ByTool (tt_transition c)) effect (with_phase effect (mv_effect_phase move) (mv_effect_terminal move)) ->
  wp (commit_tool_move c current effect connection move now) (fun _ => journal_change causes d0) (journal_change causes d0) d.
Proof.
  intros Hk Hr E Hrev Hm. unfold commit_tool_move, next_revision. apply wp_bind, wp_lift. intros rev Hnext. apply ok_or_Ok in Hnext.
  apply (wp_within_then same_effects); [within_auto|intros d1 E1; apply jc_same; unfold same_effects in E1; congruence|].
  intros dispatch d1 E1. unfold same_effects in E1. apply wp_bind, wp_lift. intros updated Hu. apply wp_bind.
  assert (Hr1 : entry_read id d1 ec effect) by (destruct Hr; split; [congruence|done]).
  pose proof (entry_read_cols _ _ _ _ Hr1) as (Hid & Hrow & _). rewrite <-Hrev in Hnext.
  pose proof (moves_step _ _ _ _ Hm Hnext) as Hst. eapply (wp_update_effect effect); [exact Hrow|by destruct Hst as [[] _]|].
  apply wp_after_journal; [|within_auto]. eapply (moved_change _ _ d1); [exact Hk|exact Hr1|exact Hst|congruence|done].
Qed.
#[local] Hint Resolve within_load_tool within_recorded_tool : within.
Lemma transition_tool_call now c d :
  wp (transition_tool now c) (fun _ => journal_change (tool_causes c now d) d) (journal_change (tool_causes c now d) d) d.
Proof.
  unfold transition_tool. journal_reads. journal_skip. destruct a as [v|].
  { apply wp_after_journal; [by apply jc_same|within_auto]. }
  do 3 journal_skip. apply wp_bind, wp_load_tool; [intros _; journal_reads|]. intros row v ec e Hread. journal_reads.
  apply wp_bind, wp_enter. intros t s ((srow & Hs & -> & _) & _) Ho. journal_reads.
  match goal with H : entry_read _ (set_sessions _ _) _ _ |- _ =>
    destruct (entry_read_inj _ _ _ _ _ _ _ (tl_entry _ _ _ _ _ _ Hread) H eq_refl) as [-> ->] end.
  apply wp_bind. apply (wp_mono _ _ _ _ (fun _ d1 => same_effects (set_sessions d s) d1 /\
      (tt_transition c = TtStart -> start_authorized v (store_time srow now) (set_sessions d s)))
    (fun _ => False)); [|intros [] d1 [E1 Hstart]|done].
  { destruct (tt_transition c); cbn [is_start]; try (apply wp_ret; split; [done|intros; discriminate]).
    apply wp_tool_start. intros grants Hs'. by split. }
  journal_reads; [apply wp_after_journal; [by apply jc_same|within_auto]|]. eq_norm.
  eapply commit_tool_call; [| |exact E1|by destruct Hread|].
  - unfold tool_causes. unfold to_u64 in *. inv_result.
    match goal with H : tv_revision _ = tt_expected_revision _ |- _ => rewrite <-H end.
    rewrite (tl_session _ _ _ _ _ _ Hread), (tl_revision _ _ _ _ _ _ Hread). split_and!; [done..|].
    eexists row, v, ec, _, srow. split_and!; [done..|exact Hstart].
  - destruct (tl_entry _ _ _ _ _ _ Hread) as [Hrow Hdec]. split; [|exact Hdec]. rewrite E1. exact Hrow.
  - destruct Hread as [_ _ _ Hr Hp _]. pose proof (entry_read_cols _ _ _ _ Hr) as (_ & _ & Hw). by eapply tool_moves.
Qed.

(** A reserved invocation has an entry of its own, under the conservative contract. *)
Definition no_causes (id : RequestId) (k : EffectCause) (e : EffectJournalEntry) : Prop := False.
Lemma decoded_authority v g : decode_registration v = Ok g -> Capability_wf (td_required_authority (rg_definition g)).
Proof.
  unfold decode_registration, decode_definition. intros H. unfold corrupt, ToolDefinition_try_from, ToolDefinition_new in H.
  inv_result. match goal with H : Capability_new _ = Ok _ |- _ =>
    apply (validate_sound (Validated0 := Capability_validated)) in H as [H _] end. cbn. by case_match.
Qed.
Lemma wp_advance_sequence key cond n (Q : Z -> Db -> Prop) F d :
  (forall b v, Q b (set_connections d v)) -> wp (advance_sequence key cond n) Q F d.
Proof.
  intros HQ. assert (Hd : forall b, Q b d) by (intros b; specialize (HQ b (db_connections d)); by destruct d).
  unfold advance_sequence. wp_auto. repeat case_match; wp_auto; auto.
Qed.
#[local] Hint Resolve within_load_grant_of within_load_policy : within.
Lemma reserve_tool_call now c d : all_rows cols_wf d ->
  wp (reserve_tool_invocation max_lease_millis now c) (fun _ => journal_change no_causes d) (journal_change no_causes d) d.
Proof.
  intros Hrows. unfold reserve_tool_invocation. journal_reads. do 2 journal_skip. journal_reads.
  apply wp_bind, wp_load_tool; [intros _|intros; apply wp_after_journal; [by apply jc_same|within_auto]].
  apply wp_bind, wp_enter. intros t s ((srow & Hs & -> & _) & _) Ho. pose proof (owner_epoch _ _ _ _ _ Hrows Ho).
  apply wp_bind, wp_load_registration; [journal_reads|]. intros rrow g Hrrow Hg. journal_reads.
  apply wp_bind, wp_advance_sequence. intros b conns. journal_reads. do 2 journal_skip. journal_reads.
  apply wp_bind, wp_insert_effect. intros Hn Hl. eq_norm. apply wp_after_journal; [|within_auto].
  eapply jc_insert; [exact Hn| | | | | |reflexivity]; cbn; try done.
  - split; cbn; try done. by eapply decoded_authority.
  - by eapply effect_expiry_wf.
  - by eapply linked_of.
Qed.
End handlers.
