(* ===== verification/Kernel.v ===== *)
(** * Kernel: the store as one transition system

    Every modelled handler of the SQLite store as a request, and the histories of the
    store: session calls, requests, the watchdog that seals an expiry, the mailbox
    writes of the handlers that are not modelled, and writes to their own tables.  Each
    step obeys the contract of every component ([kernel_contract]), so the invariants of
    the components ([kernel_ok]) hold along all histories. *)
From S2P Require Import Prelude Scalars Session Text Authority Operation Capacity Json Tool StoreApi StoreWire.
From S2P Require Import Approval Template Message OperationApi SqliteDb SqliteSession SessionLedger Ownership.
From S2P Require Import SqliteMailbox Tables SqliteOperation SqliteLaunch MailboxLedger Footprint OperationLedger.
From S2P Require Import OperationMail Participants Launches ToolApi EffectApi SqliteEffect SqliteTool SqliteResolve JournalFootprint.
From S2P Require Import RecoveryTable JournalLedger.

(** ** Requests *)

Inductive Request :=
| RqEnqueue (c : EnqueueMessage)
| RqLease (c : LeaseNextMessage)
| RqReport (c : TransitionMessageDelivery)
| RqTemplate (t : TemplateRecord)
| RqOpen (c : RegisterTemplatesAndOpenSession)
| RqRoot (c : CreateRootParticipant)
| RqChild (c : CreateChildParticipant)
| RqStart (c : StartOperation)
| RqMove (c : TransitionOperation)
| RqPrepare (c : PrepareLaunch)
| RqAttach (c : AttachLaunch)
| RqLaunch (c : TransitionLaunch)
| RqReserve (c : ReserveEffect)
| RqEffect (c : EffectTransition)
| RqTakeover (c : TakeoverEffect)
| RqResolve (c : ResolveAuthorizedEffect)
| RqRegisterTool (c : RegisterTool)
| RqConnect (c : ConnectToolProvider)
| RqReserveTool (c : ReserveToolInvocation)
| RqTool (c : TransitionToolInvocation).

(** A reason that could be built. *)
Definition reason_wf (r : BoundedText 1024) : Prop := exists t : BoundedText 1024, BoundedText_new (as_str r) = Ok t.
(** What the types of the fields guarantee. *)
Definition request_wf {TL : TimeLib} (q : Request) : Prop :=
  match q with
  | RqLease c => 0 <= duration_nanos (ln_lease_duration c)
  | RqReport c => retry_nonneg c
  | RqOpen c => command_wf (CmdOpen (ro_open c))
  | RqLaunch c => forall r, tn_cleanup_reason c = Some r -> reason_wf r
  | RqReserve c => Capability_wf (re_action c) /\ 0 <= duration_nanos (re_lease_duration c)
  | RqTakeover c => 0 <= duration_nanos (te_lease_duration c)
  | RqReserveTool c => 0 <= duration_nanos (ri_lease_duration c)
  | _ => True
  end.

Definition discard {A} (m : Tx A) : Tx unit := _ ← m; mret tt.
Lemma wp_discard {A} (m : Tx A) (Q : A -> Db -> Prop) (P F : Db -> Prop) d :
  wp m Q F d -> (forall a d', Q a d' -> P d') -> (forall d', F d' -> P d') -> wp (discard m) (fun _ => P) P d.
Proof. intros Hm HQ HF. apply wp_bind. eapply wp_mono; [exact Hm| |done]. intros a d' H. apply wp_ret. by eapply HQ. Qed.

Section kernel.
Context {TL : TimeLib} {TA : TimeArith} {SH : Sha256} {JS : Json} {JR : JsonRaw} {UT : UuidText}.
Variable max_lease_millis : Z.
Variable limit_profile : LimitProfile.
Abbreviation step := (step max_lease_millis).

Definition handler (now : Timestamp) (q : Request) : Tx unit :=
  match q with
  | RqEnqueue c => discard (enqueue_message limit_profile now c)
  | RqLease c => discard (lease_next_message max_lease_millis now c)
  | RqReport c => discard (transition_message_delivery max_lease_millis limit_profile now c)
  | RqTemplate t => discard (register_template t)
  | RqOpen c => discard (register_templates_and_open_session now c)
  | RqRoot c => discard (create_root_participant limit_profile now c)
  | RqChild c => discard (create_child_participant limit_profile now c)
  | RqStart c => discard (start_operation limit_profile now c)
  | RqMove c => discard (transition_operation limit_profile now c)
  | RqPrepare c => discard (prepare_launch now c)
  | RqAttach c => discard (attach_launch now c)
  | RqLaunch c => discard (transition_launch now c)
  | RqReserve c => discard (reserve_effect max_lease_millis now c)
  | RqEffect c => discard (transition_effect now c)
  | RqTakeover c => discard (takeover_effect max_lease_millis now c)
  | RqResolve c => discard (resolve_authorized_effect now c)
  | RqRegisterTool c => discard (register_tool now c)
  | RqConnect c => discard (connect_tool_provider now c)
  | RqReserveTool c => discard (reserve_tool_invocation max_lease_millis now c)
  | RqTool c => discard (transition_tool now c)
  end.
Definition serve (now : Timestamp) (q : Request) (d : Db) : Db := (run (handler now q) d).1.

(** The tables of the modelled components. *)
Definition core_same (d d' : Db) : Prop :=
  db_messages d' = db_messages d /\ db_counters d' = db_counters d /\ db_sessions d' = db_sessions d /\
  db_operations d' = db_operations d /\ db_participants d' = db_participants d /\
  db_templates d' = db_templates d /\ db_launches d' = db_launches d /\
  db_effects d' = db_effects d /\ db_effect_mutations d' = db_effect_mutations d /\
  db_registrations d' = db_registrations d /\ db_connections d' = db_connections d /\
  db_tools d' = db_tools d /\ db_tool_mutations d' = db_tool_mutations d.

Inductive kernel_step : Db -> Db -> Prop :=
| ks_session d l d' : step d l d' -> kernel_step d d'
| ks_request now q d : Timestamp_wf now -> request_wf q -> kernel_step d (serve now q d)
| ks_seal sid host e effective d : Timestamp_wf effective ->
    kernel_step d (run (seal_expiry sid host e effective) d).1
| ks_relay sid rid mid src dst corr env now t d : floor_of d sid = Some t -> Timestamp_le now t ->
    kernel_step d (run (insert_hierarchy_message sid rid mid src dst corr env now) d).1
| ks_retire rid o now d : kernel_step d (run (retire_correlated_messages rid o now) d).1
| ks_other d d' : core_same d d' -> kernel_step d d'.

Lemma run_wp {A} (m : Tx A) (Q : A -> Db -> Prop) (F P : Db -> Prop) d :
  wp m Q F d -> (forall a d', Q a d' -> P d') -> (forall d', F d' -> P d') -> P d -> P (run m d).1.
Proof. unfold wp, run. destruct (m d); eauto. Qed.
Lemma serve_wp now q (P : Db -> Prop) d : wp (handler now q) (fun _ => P) P d -> P d -> P (serve now q d).
Proof. intros Hw Hd. unfold serve. by eapply run_wp; [exact Hw|..]. Qed.

(** ** The contracts of a step *)

(** *** Tables a request leaves alone *)

Lemma within_discard (R : Db -> Db -> Prop) {PO : PreOrder R} {A} (m : Tx A) : within R m -> within R (discard m).
Proof. intros Hm. unfold discard. within_auto. Qed.

(** A relation that all requests but those for which [q] is [false] keep. *)
Lemma handler_within (R : Db -> Db -> Prop) {PO : PreOrder R} now q :
  writes_events R -> writes_ledger R -> writes_manifests R -> advances R now ->
  (forall c, q = RqOpen c -> opens R now (ro_open c) /\ writes_templates R) ->
  (forall t, q = RqTemplate t -> writes_templates R) ->
  (match q with
   | RqEnqueue _ | RqLease _ | RqReport _ | RqStart _ | RqMove _ => writes_messages R /\ writes_counters R
   | _ => True end) ->
  (match q with RqReport _ | RqStart _ | RqMove _ => writes_operations R | _ => True end) ->
  (match q with RqRoot _ | RqChild _ => writes_participants R | _ => True end) ->
  (match q with RqPrepare _ | RqAttach _ | RqLaunch _ => writes_launches R | _ => True end) ->
  (match q with
   | RqReserve _ | RqEffect _ | RqTakeover _ | RqResolve _ | RqReserveTool _ | RqTool _ => writes_effects R
   | _ => True end) ->
  (match q with
   | RqEffect _ | RqTakeover _ | RqResolve _ | RqRegisterTool _ | RqConnect _ | RqReserveTool _ | RqTool _ => writes_tools R
   | _ => True end) ->
  (match q with RqResolve _ | RqTool _ => writes_grants R | _ => True end) ->
  within R (handler now q).
Proof.
  intros HE HL HM HA HO HT HMC HOP HP HW HJ HJT HG. destruct q; cbn [handler]; apply within_discard; try apply _.
  - destruct HMC. by apply enqueue_within.
  - destruct HMC. by apply lease_within.
  - destruct HMC. by apply report_within.
  - apply register_within; [apply _|eauto].
  - destruct (HO _ eq_refl). by apply register_open_within.
  - by apply create_root_within.
  - by apply create_child_within.
  - destruct HMC. by apply start_within.
  - destruct HMC. by apply transition_operation_within.
  - by apply prepare_within.
  - by apply mutate_within.
  - by apply mutate_within.
  - by apply reserve_effect_within.
  - by apply transition_effect_within.
  - by apply takeover_effect_within.
  - by apply resolve_effect_within.
  - by apply register_tool_within.
  - by apply connect_within.
  - by apply reserve_tool_within.
  - by apply transition_tool_within.
Qed.

(** *** The mailboxes *)

Context {TLaws : TimeLaws} {TALaws : TimeArithLaws}.

Create HintDb kept discriminated.
#[local] Hint Extern 1 (PreOrder _) => apply _ : kept.
#[local] Hint Resolve moves_events moves_ledger moves_advance : kept.
Lemma moves_effects : writes_effects mail_moves.
Proof. intros d v. by apply same_moves. Qed.
Lemma moves_tools : writes_tools mail_moves.
Proof. split_and!; intros d v; by apply same_moves. Qed.
Lemma moves_grants : writes_grants mail_moves.
Proof. intros d v. by apply same_moves. Qed.
#[local] Hint Resolve moves_effects moves_tools moves_grants : kept.

Lemma handler_moves now q d : all_rows cols_wf d -> ops_timely d -> Timestamp_wf now -> request_wf q ->
  wp (handler now q) (fun _ => mail_moves d) (mail_moves d) d.
Proof.
  intros Hrows Hops Hn Hq.
  assert (Hwithin : forall A (m : Tx A), within mail_moves m -> wp (discard m) (fun _ => mail_moves d) (mail_moves d) d).
  { intros A m Hm. by apply (wp_discard m _ _ _ d (Hm d)). }
  destruct q; cbn [handler].
  - eapply wp_discard; [apply enqueue_call|..]; [intros a d' [Hc _]|intros d' Hc]; by eapply call_moves.
  - eapply wp_discard; [by apply lease_next_call|..]; [intros a d' (Hc & _)|intros d' Hc]; by eapply call_moves.
  - eapply wp_discard; [by apply transition_call|..]; [intros a d' (Hc & _)|intros d' Hc]; by eapply call_moves.
  - apply Hwithin, register_moves.
  - by apply Hwithin, register_open_moves.
  - by apply Hwithin, create_root_moves.
  - by apply Hwithin, create_child_moves.
  - by eapply wp_discard; [apply start_moves|..].
  - by eapply wp_discard; [apply transition_operation_moves|..].
  - by apply Hwithin, prepare_moves.
  - by apply Hwithin, mutate_moves.
  - by apply Hwithin, mutate_moves.
  - apply Hwithin, reserve_effect_within; auto with kept.
  - apply Hwithin, transition_effect_within; auto with kept.
  - apply Hwithin, takeover_effect_within; auto with kept.
  - apply Hwithin, resolve_effect_within; auto with kept.
  - apply Hwithin, register_tool_within; auto with kept.
  - apply Hwithin, connect_within; auto with kept.
  - apply Hwithin, reserve_tool_within; auto with kept.
  - apply Hwithin, transition_tool_within; auto with kept.
Qed.

(** *** Operations, participants, launches and templates *)

(** A request that leaves a table alone. *)
Lemma wp_kept {A} (R P : Db -> Db -> Prop) (m : Tx A) d : within R m -> (forall d', R d d' -> P d d') ->
  wp (discard m) (fun _ => P d) (P d) d.
Proof. intros Hm HP. eapply wp_discard; [apply Hm|eauto..]. Qed.

#[local] Ltac write_kept := first [done | repeat intro; assumption].
#[local] Hint Extern 1 (writes_events _) => write_kept : kept.
#[local] Hint Extern 1 (writes_ledger _) => write_kept : kept.
#[local] Hint Extern 1 (writes_messages _) => write_kept : kept.
#[local] Hint Extern 1 (writes_counters _) => write_kept : kept.
#[local] Hint Extern 1 (writes_operations _) => write_kept : kept.
#[local] Hint Extern 1 (writes_participants _) => write_kept : kept.
#[local] Hint Extern 1 (writes_templates _) => done : kept.
#[local] Hint Extern 1 (writes_manifests _) => write_kept : kept.
#[local] Hint Extern 1 (writes_launches _) => write_kept : kept.
#[local] Hint Extern 1 (advances _ _) => write_kept : kept.
#[local] Hint Extern 1 (writes_effects _) => write_kept : kept.
#[local] Hint Extern 1 (writes_tools _) => split_and!; write_kept : kept.
#[local] Hint Extern 1 (writes_grants _) => write_kept : kept.
#[local] Hint Extern 1 (opens _ _ _) => write_kept : kept.
#[local] Hint Resolve enqueue_within lease_within report_within register_within register_open_within create_root_within
  create_child_within start_within transition_operation_within prepare_within reserve_effect_within transition_effect_within
  takeover_effect_within resolve_effect_within register_tool_within connect_within reserve_tool_within
  transition_tool_within : kept.
#[local] Hint Extern 2 (within _ (attach_launch _ _)) => apply mutate_within : kept.
#[local] Hint Extern 2 (within _ (transition_launch _ _)) => apply mutate_within : kept.

Lemma handler_ops now q d : all_rows cols_wf d -> Timestamp_wf now ->
  wp (handler now q) (fun _ => op_change Timestamp_wf d) (op_change Timestamp_wf d) d.
Proof.
  intros Hrows Hn. destruct q; cbn [handler];
    try (apply (wp_kept ops_kept); [solve [eauto with kept]|by apply op_same]).
  - by eapply wp_discard; [apply report_op_call|..].
  - eapply wp_discard; [apply start_call|..]; [by intros a d' [Hc _]|done].
  - eapply wp_discard; [by apply transition_operation_call|..]; [by intros a d' [Hc _]|done].
Qed.

Lemma handler_forest now q d : wp (handler now q) (fun _ => forest_change d) (forest_change d) d.
Proof.
  destruct q; cbn [handler]; try (apply (wp_kept same_participants); [solve [eauto with kept]|by apply forest_same]).
  - eapply wp_discard; [apply create_root_call|..]; [by intros a d' [Hc _]|done].
  - eapply wp_discard; [apply create_child_call|..]; [by intros a d' [Hc _]|done].
Qed.

Lemma handler_launches now q d : all_rows cols_wf d -> request_wf q ->
  wp (handler now q) (fun _ => launch_change d) (launch_change d) d.
Proof.
  intros Hrows Hq. destruct q; cbn [handler]; try (apply (wp_kept same_launches); [solve [eauto with kept]|by apply launch_same]).
  - by eapply wp_discard; [apply prepare_call|..].
  - by eapply wp_discard; [apply attach_call|..].
  - by eapply wp_discard; [apply transition_launch_call|..].
Qed.

(** Registered templates stay as they are. *)
Definition templates_grow (d d' : Db) : Prop := forall id c, db_templates d !! id = Some c -> db_templates d' !! id = Some c.
#[global] Instance templates_grow_po : PreOrder templates_grow.
Proof. split; [by intros d id c|]. intros a b c H1 H2 id x Hx. auto. Qed.
Lemma templates_inserted : writes_templates templates_grow.
Proof. intros d id c Hn id' c' Hc. cbn. rewrite lookup_insert_ne by congruence. done. Qed.
#[local] Hint Resolve templates_inserted : kept.
Lemma handler_templates now q d : wp (handler now q) (fun _ => templates_grow d) (templates_grow d) d.
Proof. destruct q; cbn [handler]; (apply (wp_kept templates_grow); [solve [eauto with kept]|done]). Qed.

(** *** The effect journal *)

Definition request_causes (now : Timestamp) (q : Request) (d : Db) : RequestId -> EffectCause -> EffectJournalEntry -> Prop :=
  match q with
  | RqReserve c => reserve_causes c now d
  | RqEffect c => transition_causes c now d
  | RqTakeover c => takeover_causes c now d
  | RqResolve c => decision_causes c now d
  | RqTool c => tool_causes c now d
  | _ => no_causes
  end.
Lemma handler_journal now q d : all_rows cols_wf d -> request_wf q ->
  wp (handler now q) (fun _ => journal_change (request_causes now q d) d) (journal_change (request_causes now q d) d) d.
Proof.
  intros Hrows Hq. destruct q; cbn [handler]; try (apply (wp_kept same_effects); [solve [eauto with kept]|by apply jc_same]).
  - destruct Hq. by eapply wp_discard; [apply reserve_effect_call|..].
  - by eapply wp_discard; [apply transition_effect_call|..].
  - by eapply wp_discard; [apply takeover_effect_call|..].
  - by eapply wp_discard; [apply resolve_effect_call|..].
  - by eapply wp_discard; [apply reserve_tool_call|..].
  - by eapply wp_discard; [apply transition_tool_call|..].
Qed.
Definition any_cause (id : RequestId) (k : EffectCause) (e : EffectJournalEntry) : Prop := True.
Lemma change_any causes d d' : journal_change causes d d' -> journal_change any_cause d d'.
Proof. destruct 1; [by apply jc_same|by eapply jc_insert|by eapply jc_move]. Qed.

(** *** All steps *)

Record kernel_contract (d d' : Db) : Prop := {
  kc_mail : mail_moves d d';
  kc_ops : op_change Timestamp_wf d d';
  kc_forest : forest_change d d';
  kc_launches : launch_change d d';
  kc_templates : templates_grow d d';
  kc_journal : journal_change any_cause d d';
}.

(** A step that writes at most mailboxes and sessions. *)
Definition ops_same (d d' : Db) : Prop :=
  db_operations d' = db_operations d /\ db_participants d' = db_participants d /\
  db_templates d' = db_templates d /\ db_launches d' = db_launches d /\ db_effects d' = db_effects d.
#[global] Instance ops_same_po : PreOrder ops_same.
Proof. split; [done|]. intros a b c (?&?&?&?&?) (?&?&?&?&?). unfold ops_same. split_and!; congruence. Qed.
Lemma contract_same d d' : mail_moves d d' -> ops_same d d' -> kernel_contract d d'.
Proof.
  intros Hm (Ho & Hp & Ht & Hl & Hj).
  split; [done|by apply op_same|by apply forest_same|by apply launch_same| |by apply jc_same]. intros id c. by rewrite Ht.
Qed.

Lemma row_change_floor now c cmd c' ev rep p : row_change max_lease_millis now c cmd c' ev rep p ->
  sc_time_floor c' = sc_time_floor c.
Proof. by destruct 1. Qed.
Lemma session_tables now d c d' r : change max_lease_millis now d c d' r ->
  db_messages d' = db_messages d /\ db_counters d' = db_counters d /\ ops_same d d'.
Proof.
  destruct 1 as [c r Hr|c d1 e Hl Ho Hd1|q s Hl Ho|q key Hl Ho Hs d1 s d2|c cols cols' ev r p Hl Ho Hs t Hrc d1 d2]; try done.
  - destruct Hd1 as [->|(cols & Hc & _ & ->)]; [done|]. unfold advance. by rewrite Hc.
  - subst d2 d1. unfold opened_manifests. by destruct (os_manifest q).
  - subst d2 d1. by destruct ev as [[[? ?] ?]|].
Qed.
Lemma session_contract d l d' : step d l d' -> kernel_contract d d'.
Proof.
  intros Hst. pose proof Hst as Hst0. apply step_change in Hst as [->|(now & c & r & Hn & Hw & Hch)].
  { by apply contract_same. }
  destruct (session_tables _ _ _ _ _ Hch) as (Em & Ec & Es). apply contract_same; [|done]. apply rtc_once.
  split_and!; [by apply mail_same| |].
  - intros sid t. unfold floor_of. destruct (change_row _ _ _ _ _ _ sid Hch) as [->|[-> Hrow]].
    { intros ->. exists t. auto with nav. }
    destruct Hrow as [o|cols e Hcl ->|q key ->|cols cols' ev rep p t' Hrc ->]; cbn.
    + intros ->. exists t. auto with nav.
    + intros [= <-]. eexists. split; [done|apply Timestamp_max_le_l].
    + done.
    + intros [= <-]. eexists. split; [done|]. rewrite (row_change_floor _ _ _ _ _ _ _ Hrc). apply Timestamp_max_le_l.
  - intros Hr. by eapply (all_rows_step _ cols_wf (row_step_wf _)).
Qed.

Lemma seal_within (R : Db -> Db -> Prop) {PO : PreOrder R} sid host e effective : advances R effective ->
  within R (seal_expiry sid host e effective).
Proof.
  intros HA d. unfold seal_expiry. apply wp_bind, wp_quiet; [apply quiet_require_open_session|].
  intros row d' H. apply require_open_session_Next in H as (-> & c & Hc & Hrow & _). apply decode_session_Ok in Hrow.
  destruct Hrow as (_ & _ & _ & _ & _ & _ & _ & _ & _ & _ & _ & Hfl).
  apply wp_bind, wp_quiet; [apply quiet_advance|]. intros t d' H. apply advance_time_floor_Next in H as [-> ->].
  unfold advance. rewrite Hc, Hfl. wp_auto. by apply HA.
Qed.

Lemma kernel_step_contract d d' : all_rows cols_wf d -> ops_timely d -> kernel_step d d' -> kernel_contract d d'.
Proof.
  intros Hrows Hops Hst.
  destruct Hst as [d l d' Hst|now q d Hn Hq|sid host e t d Ht|sid rid mid src dst corr env now t d Ht Hle|rid o now d|d d' Hs].
  - by eapply session_contract.
  - split.
    + apply serve_wp; [by apply handler_moves|reflexivity].
    + apply serve_wp; [by apply handler_ops|by apply op_same].
    + apply serve_wp; [by apply handler_forest|by apply forest_same].
    + apply serve_wp; [by apply handler_launches|by apply launch_same].
    + apply serve_wp; [apply handler_templates|reflexivity].
    + eapply change_any. apply serve_wp; [by apply handler_journal|by apply jc_same].
  - apply contract_same.
    + eapply run_wp; [apply (seal_within mail_moves); by apply moves_advance|done..].
    + eapply run_wp; [apply (seal_within ops_same); done|done..].
  - apply contract_same.
    + eapply run_wp; [by eapply hierarchy_insert_write with (F := mail_moves d)|..]; [intros a d' [Hc _]|..]; [|done..].
      by apply rtc_once, write_move.
    + eapply run_wp; [apply (insert_hierarchy_within ops_same); done|done..].
  - apply contract_same.
    + eapply run_wp; [apply retire_correlated_writes with (F := mail_moves d)|..]; [|done..]. intros ? d'. apply writes_moves.
    + eapply run_wp; [apply (retire_within ops_same); done|done..].
  - destruct Hs as (? & ? & ? & ? & ? & ? & ? & ? & _). apply contract_same; [by apply same_moves|by split_and!].
Qed.

(** ** The invariants *)

Lemma moves_rows d d' : mail_moves d d' -> all_rows cols_wf d -> all_rows cols_wf d'.
Proof. induction 1 as [|d d1 d2 (_ & _ & Hr) _ IH]; auto. Qed.
Lemma moves_floors d d' : mail_moves d d' -> floors_grow d d'.
Proof.
  induction 1 as [d|d d1 d2 (_ & Hg & _) _ IH]; [by apply floors_grow_refl|]. intros sid t Ht.
  destruct (Hg _ _ Ht) as (t1 & Ht1 & Hle1). destruct (IH _ _ Ht1) as (t2 & Ht2 & Hle2). eauto using Timestamp_le_trans.
Qed.
Lemma forest_grows d d' id c : forest_change d d' -> db_participants d !! id = Some c -> db_participants d' !! id = Some c.
Proof. intros [E|id' c' Hn _ _ _ _ E] Hc; rewrite E; [done|]. rewrite lookup_insert_ne by congruence. done. Qed.

Record ops_ok (d : Db) : Prop := {
  oo_rows : forall id c, db_operations d !! id = Some c -> exists s, op_row_wf s c;
  oo_participant : forall id c, db_operations d !! id = Some c ->
    pc_session_id <$> db_participants d !! oc_participant_id c = Some (oc_session_id c);
  oo_timely : ops_timely d;
  oo_one : forall id1 c1 id2 c2 p, db_operations d !! id1 = Some c1 -> db_operations d !! id2 = Some c2 ->
    unfinished p c1 = true -> unfinished p c2 = true -> id1 = id2;
}.

(** The clock floors of sessions whose rows are well-formed are valid dates. *)
Lemma floor_wf d sid t : all_rows cols_wf d -> floor_of d sid = Some t -> Timestamp_wf t.
Proof.
  unfold floor_of. intros Hr. destruct (db_sessions d !! sid) as [c|] eqn:E; [|done]. intros [= <-].
  by destruct (cw_times _ _ (Hr _ _ E)) as (_ & _ & ?).
Qed.

Lemma started_row_wf o payload t : llen (on_input_digest o) = 32 -> Timestamp_wf t -> op_row_wf OpQueued (started_row o payload t).
Proof. intros Hd Ht. split; cbn; try done. split_and!; auto with nav. Qed.

Lemma moved_row_wf s c next a waiting outcome rev now : op_row_wf s c -> next_operation_state s a = Some next ->
  valid_terminal_outcome next outcome = true -> Bool.eqb (bool_decide (next = OpWaiting)) (is_some waiting) = true ->
  Revision_next (MkRevision (oc_revision c)) = Some rev -> Revision_get rev <= i64_max -> Timestamp_wf now ->
  op_row_wf next (moved_row c next waiting outcome rev (Timestamp_max now (oc_updated_at c))).
Proof.
  intros [H1 H2 H3 H4 (H5 & H6 & H7) H8 H9] Hn Ho Hw Hr Hm Ht. apply Revision_next_value in Hr as ->. cbn in Hm.
  split; cbn; try done; [|lia]. split_and!; [done|by apply Timestamp_max_wf|].
  eapply Timestamp_le_trans; [exact H7|apply Timestamp_max_le_r].
Qed.

(** A move of an operation that has ended does not exist. *)
Lemma moved_was_open s a next : next_operation_state s a = Some next -> is_terminal s = false.
Proof. by destruct s, a. Qed.
Lemma unfinished_open s c p : op_row_wf s c -> unfinished p c = true <-> oc_participant_id c = p /\ is_terminal s = false.
Proof.
  intros [H1 H2 H3 _ _ _ _]. unfold unfinished, eqb. rewrite andb_true_iff, bool_decide_eq_true, H2.
  apply outcome_valid in H3 as [H3 _]. destruct (oc_terminal_payload c), (is_terminal s); cbn in *; intuition congruence.
Qed.

Lemma op_decoded_state id s c o : op_row_wf s c -> decode_operation id c = Ok o -> o = row_snapshot id s c.
Proof. intros Hw Hd. rewrite (decode_operation_wf id s c Hw) in Hd. by injection Hd as <-. Qed.

Lemma ops_ok_change d d' : all_rows cols_wf d' -> floors_grow d d' -> forest_change d d' -> op_change Timestamp_wf d d' ->
  ops_ok d -> ops_ok d'.
Proof.
  intros Hrows Hgrow Hforest Hc [Hr Hp Ht H1].
  assert (Hp' : forall p sid, pc_session_id <$> db_participants d !! p = Some sid ->
    pc_session_id <$> db_participants d' !! p = Some sid).
  { intros p sid. destruct (db_participants d !! p) as [c|] eqn:E; [|done]. by rewrite (forest_grows _ _ _ _ Hforest E). }
  assert (Htime : forall sid t u, floor_of d sid = Some t -> Timestamp_le u t ->
    exists t', floor_of d' sid = Some t' /\ Timestamp_le u t').
  { intros sid t u Hf Hu. destruct (Hgrow _ _ Hf) as (t' & Ht' & Hle). eauto using Timestamp_le_trans. }
  destruct Hc as [E|o payload t Hnew Hdig Hpart Hfree Hfl E|id c o a next w outcome rev now Hnow [M1 M2 M3 M4 M5 [M6 M6'] M7 M8]].
  - split; unfold ops_timely; rewrite ?E; [done|by eauto| |done]. intros id c Hid.
    destruct (Ht _ _ Hid) as (t & Hf & Hle). by eapply Htime.
  - split; unfold ops_timely; rewrite E.
    + intros id c [[<- <-]|[_ H]]%lookup_insert_Some; [|by eapply Hr]. exists OpQueued.
      apply started_row_wf; [done|by eapply floor_wf].
    + intros id c [[<- <-]|[_ H]]%lookup_insert_Some; [by apply Hp'|by eapply Hp', Hp].
    + intros id c [[<- <-]|[_ H]]%lookup_insert_Some; [exists t; split; [done|apply Timestamp_le_refl]|].
      destruct (Ht _ _ H) as (t0 & Hf & Hle). by eapply Htime.
    + assert (Hother : forall id c p, db_operations d !! id = Some c -> unfinished p (started_row o payload t) = true ->
        unfinished p c = true -> False).
      { intros id c p Hid U1 U2. assert (p = on_participant_id o) as -> by (unfold unfinished, eqb in U1; bool_norm; done).
        by rewrite (Hfree _ _ Hid) in U2. }
      intros id1 c1 id2 c2 p [[<- <-]|[_ K1]]%lookup_insert_Some [[<- <-]|[_ K2]]%lookup_insert_Some U1 U2;
        [done|exfalso; by eapply Hother..|by eapply H1].
  - destruct (Hr _ _ M1) as [s Hs]. apply (op_decoded_state _ _ _ _ Hs) in M2 as ->. cbn in M3, M6, M7, M8.
    pose proof (moved_row_wf _ _ _ _ _ _ _ _ Hs M3 M4 M5 M6 M6' Hnow) as Hw.
    split; unfold ops_timely; rewrite M8.
    + intros id' c' [[<- <-]|[_ H]]%lookup_insert_Some; [by eexists|by eapply Hr].
    + intros id' c' [[<- <-]|[_ H]]%lookup_insert_Some; [by apply Hp', (Hp _ _ M1)|by eapply Hp', Hp].
    + intros id' c' [[<- <-]|[_ H]]%lookup_insert_Some; destruct (Ht _ _ ltac:(eassumption)) as (t0 & Hf & Hle);
        [|by eapply Htime]. destruct (Htime _ _ _ Hf Hle) as (t1 & Hf1 & Hle1). destruct M7 as (t2 & Hf2 & Hle2).
      exists t2. split; [done|]. rewrite Hf2 in Hf1. injection Hf1 as <-. by apply Timestamp_max_lub.
    + assert (Hopen : forall p, unfinished p (moved_row c next w outcome rev (Timestamp_max now (oc_updated_at c))) = true ->
        unfinished p c = true).
      { intros p [Hpid _]%(unfinished_open _ _ _ Hw). apply (unfinished_open _ _ _ Hs). split; [done|by eapply moved_was_open]. }
      intros id1 c1 id2 c2 p [[<- <-]|[_ K1]]%lookup_insert_Some [[<- <-]|[_ K2]]%lookup_insert_Some U1 U2; eauto.
Qed.

(** Every entry of the journal can be read. *)
Record effect_ok (d : Db) (id : RequestId) (c : EffectCols) (e : EffectJournalEntry) : Prop := {
  eo_id : ee_request_id e = id;
  eo_cols : c = entry_cols e;
  eo_wf : entry_wf e;
  eo_expires : Timestamp_wf (ee_lease_expires_at e);
  eo_linked : linked d e;
}.
Definition journal_ok (d : Db) : Prop := forall id c, db_effects d !! id = Some c -> exists e, effect_ok d id c e.
Lemma effect_decodes d id c e : effect_ok d id c e -> decode_effect id c = Ok e.
Proof. intros [<- -> Hw Ht _]. apply decode_effect_wf; [by apply cols_row|done]. Qed.
Lemma effect_step_wf k e e' : effect_step k e e' -> entry_wf e -> entry_wf e'.
Proof.
  intros [[(_ & _ & _ & _ & _ & Ha & Hd & _ & Hk) _ Ht He _] Hr] [W1 W2 W3 _ _ W6]. split; try congruence. clear -Hr W6.
  destruct (ee_revision e) as [v], (ee_revision e') as [v']. cbn in *. apply Revision_next_value in Hr as [= ->]. lia.
Qed.
(** The session and the participant of an operation stay. *)
Lemma op_keeps_owner wf d d' id x : op_change wf d d' ->
  (fun o => (oc_session_id o, oc_participant_id o)) <$> db_operations d !! id = Some x ->
  (fun o => (oc_session_id o, oc_participant_id o)) <$> db_operations d' !! id = Some x.
Proof.
  intros [E|o p t Hn _ _ _ _ E|id' c o a n w q rv now _ [M1 _ _ _ _ _ _ M8]] H; [by rewrite E|rewrite E|rewrite M8].
  - rewrite lookup_insert_ne; [done|]. intros <-. by rewrite Hn in H.
  - destruct (decide (id = id')) as [<-|Hne]; [|by rewrite lookup_insert_ne]. rewrite lookup_insert_eq. by rewrite M1 in H.
Qed.
Lemma linked_kept wf d d' e : forest_change d d' -> op_change wf d d' -> linked d e -> linked d' e.
Proof.
  intros Hf Ho [Hp Hop]. split; [|by eapply op_keeps_owner].
  destruct (db_participants d !! _) as [c|] eqn:E; [|done]. by rewrite (forest_grows _ _ _ _ Hf E).
Qed.
Lemma linked_same d e e' : same_effect e e' -> linked d e -> linked d e'.
Proof. intros (_ & E1 & E2 & E3 & _). unfold linked. by rewrite E1, E2, E3. Qed.
Lemma journal_ok_change wf causes d d' : forest_change d d' -> op_change wf d d' -> journal_change causes d d' ->
  journal_ok d -> journal_ok d'.
Proof.
  intros Hf Ho Hj Hok.
  assert (Hkeep : forall id c, db_effects d !! id = Some c -> exists e, effect_ok d' id c e).
  { intros id c Hc. destruct (Hok _ _ Hc) as [e []]. exists e. split; try done. by eapply linked_kept. }
  destruct Hj as [E|e Hn Hw Hp Hr Ht Hl E|id k c e e' _ Hc Hd Hst E]; intros id0 c0; rewrite E; [apply Hkeep| |].
  - intros [[<- <-]|[_ H]]%lookup_insert_Some; [|by apply Hkeep]. exists e. split; try done. by eapply linked_kept.
  - intros [[<- <-]|[_ H]]%lookup_insert_Some; [|by apply Hkeep]. destruct (Hkeep _ _ Hc) as [e0 He0].
    rewrite (effect_decodes _ _ _ _ He0) in Hd. injection Hd as ->. destruct He0 as [He1 He2 He3 He4 He5].
    pose proof (effect_step_wf _ _ _ Hst He3). destruct Hst as [[Hs _ _ _ Hx] _]. exists e'. split; try done.
    + by destruct Hs as [-> _].
    + destruct Hx as [->|?]; done.
    + by eapply linked_same.
Qed.

Record kernel_ok (d : Db) : Prop := {
  ko_sessions : all_rows cols_wf d;
  ko_ops : ops_ok d;
  ko_forest : forest_ok d;
  ko_launches : launches_ok d;
  ko_journal : journal_ok d;
}.
Lemma kernel_step_ok d d' : kernel_ok d -> kernel_step d d' -> kernel_contract d d' /\ kernel_ok d'.
Proof.
  intros [H1 H2 H3 H4 H5] Hst. destruct (kernel_step_contract _ _ H1 (oo_timely _ H2) Hst) as [Hm Ho Hf Hl Ht Hj] eqn:E.
  pose proof (moves_rows _ _ Hm H1). pose proof (moves_floors _ _ Hm). split; [done|].
  split; [done|by eapply ops_ok_change|by eapply forest_ok_change|by eapply launches_ok_change|by eapply journal_ok_change].
Qed.
Lemma kernel_steps_ok d d' : rtc kernel_step d d' -> kernel_ok d -> kernel_ok d'.
Proof. induction 1 as [|d d1 d2 Hst _ IH]; [done|]. intros Hok. apply IH. by eapply kernel_step_ok. Qed.

(** A database no operation, participant, launch, message, effect or tool was ever put into. *)
Definition pristine (d : Db) : Prop :=
  db_operations d = ∅ /\ db_participants d = ∅ /\ db_launches d = ∅ /\ db_messages d = ∅ /\ db_counters d = ∅ /\
  db_effects d = ∅ /\ db_effect_mutations d = ∅ /\ db_registrations d = ∅ /\ db_connections d = ∅ /\
  db_tools d = ∅ /\ db_tool_mutations d = ∅.
Lemma pristine_ok d : all_rows cols_wf d -> pristine d -> kernel_ok d.
Proof.
  intros Hr (Eo & Ep & El & _ & _ & Ee & _). split; [done|..].
  - split; unfold ops_timely; rewrite Eo; intros *; by rewrite lookup_empty.
  - split; unfold children, members; rewrite Ep; done.
  - split; rewrite El; done.
  - intros id c. rewrite Ee. by rewrite lookup_empty.
Qed.

(** The states of the store over its life. *)
Definition reachable (d : Db) : Prop := exists d0, all_rows cols_wf d0 /\ pristine d0 /\ rtc kernel_step d0 d.
Lemma reachable_ok d : reachable d -> kernel_ok d.
Proof. intros (d0 & Hr & Hp & Hst). eapply kernel_steps_ok; [exact Hst|by apply pristine_ok]. Qed.
Lemma reachable_rows d : reachable d -> all_rows cols_wf d.
Proof. intros H%reachable_ok. apply H. Qed.
Lemma reachable_steps d d' : reachable d -> rtc kernel_step d d' -> reachable d'.
Proof. intros (d0 & Hr & Hp & Hst) Hst'. exists d0. split_and!; [done..|by etrans]. Qed.
(** An invariant of the contracts. *)
Lemma kernel_steps_ind (P : Db -> Prop) d d' : reachable d -> rtc kernel_step d d' -> P d ->
  (forall d1 d2, reachable d1 -> kernel_ok d1 -> kernel_contract d1 d2 -> P d1 -> P d2) -> P d'.
Proof.
  intros Hreach Hst HP Hind. induction Hst as [|d d1 d2 Hs _ IH]; [done|].
  pose proof (reachable_ok _ Hreach) as Hok. apply IH; [eapply reachable_steps; [done|by apply rtc_once]|].
  eapply Hind; [done..| |done]. by eapply kernel_step_ok.
Qed.
End kernel.
