(* ===== verification/Scenario.v ===== *)
(** * Scenario: one concrete history of the store

    A template is registered, host 50 opens and owns a session, a root participant and
    a child of it are created, an operation is started for the child, an instance for
    the child is launched, and two control messages about the operation are sent; the
    first is leased for a second, its acceptance is pending, and it is reported unknown
    only two seconds later; then a second operation is started for the root, and fails.
    Much later host 60 takes the session over.  The witnesses of the theorems about histories evaluate
    this one. *)
From S2P Require Import Prelude Scalars Session Text Authority Operation RecoveryTable Capacity Json StoreApi StoreWire.
From S2P Require Import Approval Template Message OperationApi SqliteDb SqliteSession SessionLedger Ownership.
From S2P Require Import SqliteMailbox Tables SqliteOperation SqliteLaunch MailboxLedger Footprint OperationLedger.
From S2P Require Import OperationMail Participants Launches Kernel.

Definition scene_json : Json := {| from_slice _ := Some (VObject []); to_vec _ := [123; 125] |}.

Definition scene_template : Template :=
  @register demo_sha scene_json demo_text (MkId 21) (MkBoundedText "worker") (MkDriverRequirement (MkId 22) [])
    (MkTrusted (MkBoundedText "work") ∅) (MkResourceBounds 1024 1000 1) (MkInputSchema []).
Definition scene_record : TemplateRecord := registration_snapshot scene_template.

(** ** What happens *)

Inductive Event :=
| Session (c : Command)
| Ask (q : Request).
Definition scene_epoch : FencingEpoch := MkFencingEpoch 1.
Definition scene_evidence : ProcessEvidence := MkEvidence 100 100 1 77 (repeat 3 32).
Definition scene_input : ValidatedTaskInput := MkTaskInput (MkBoundedBytes [123; 125]).
Definition scene_start (n op p msg : Z) : StartOperation :=
  MkStartOperation (demo_context n 50) demo_session scene_epoch (MkId op) (MkId p) (MkId msg) scene_input.
Definition scene_launch (n rev : Z) (s : LaunchState) : TransitionLaunch :=
  MkTransitionLaunch (demo_context n 50) demo_session scene_epoch (MkId 41) (MkRevision rev) s None.
Definition scene_envelope : ValidatedMessageEnvelope :=
  MkEnvelope 1 (BodyControl (MkId 31) ControlReminder) (MkBoundedBytes (repeat 1 40)).
Definition scene_send (n msg : Z) : EnqueueMessage :=
  MkEnqueue (demo_context n 50) demo_session scene_epoch (MkId msg) (MkId 11) (MkId 12)
    (MkCorrelation (Some (MkId 31)) None) scene_envelope.
Definition scene_lease (n : Z) : LeaseNextMessage :=
  MkLeaseNext (demo_context n 50) demo_session scene_epoch (MkId 12) (MkId 51) (MkId 41) (MkId 71)
    (MkDuration 1000000000).
Definition scene_report (n rev : Z) (t : DeliveryTransition) : TransitionMessageDelivery :=
  MkTransition (demo_context n 50) demo_session scene_epoch (MkId 61) (MkId 71) (MkRevision rev) t.
Definition scene_move (n op rev : Z) (a : OperationAction) (report : option MessageId) (o : option OperationTerminalOutcome) :
    TransitionOperation :=
  MkTransitionOperation (demo_context n 50) demo_session scene_epoch (MkId op) (MkRevision rev) a report o.
Definition scene_failure : option OperationTerminalOutcome :=
  Some (OutFailed (MkBoundedText "code") (MkBoundedText "detail")).

Definition scene : list (Timestamp * Event) :=
  [(demo_at 100, Ask (RqTemplate scene_record));
   (demo_at 100, Session (CmdOpen (OpenSession_new (demo_context 1 50) demo_session (MkBoundedText "key")
      (tr_compatibility scene_record))));
   (demo_at 100, Session (CmdAcquire (MkAcquireOwnership (demo_context 2 50) demo_session (MkLeaseDuration 50000))));
   (demo_at 100, Ask (RqRoot (MkCreateRoot (demo_context 3 50) demo_session scene_epoch (MkId 11) (MkId 21)
      (tr_compatibility scene_record))));
   (demo_at 100, Ask (RqChild (MkCreateChild (demo_context 4 50) demo_session scene_epoch (MkId 12) (MkId 11) (MkId 21)
      (tr_compatibility scene_record))));
   (demo_at 100, Ask (RqStart (scene_start 5 31 12 60)));
   (demo_at 100, Ask (RqPrepare (MkPrepareLaunch (demo_context 6 50) scene_epoch demo_session (MkId 12) (MkId 22)
      (repeat 4 32) (MkId 41) (repeat 5 32))));
   (demo_at 100, Ask (RqAttach (MkAttachLaunch (demo_context 7 50) demo_session scene_epoch (MkId 41) (MkRevision 1)
      (MkId 51) scene_evidence)));
   (demo_at 100, Ask (RqLaunch (scene_launch 8 2 LReady)));
   (demo_at 100, Ask (RqMove (scene_move 9 31 1 BeginStart None None)));
   (demo_at 100, Ask (RqEnqueue (scene_send 10 61)));
   (demo_at 100, Ask (RqEnqueue (scene_send 11 62)));
   (demo_at 100, Ask (RqLease (scene_lease 12)));
   (demo_at 100, Ask (RqReport (scene_report 13 2 DtAcceptancePending)));
   (demo_at 102, Ask (RqReport (scene_report 14 3 DtAcceptanceUnknown)));
   (demo_at 102, Ask (RqStart (scene_start 15 32 11 63)));
   (demo_at 102, Ask (RqMove (scene_move 16 32 1 ReportFailure None scene_failure)));
   (demo_at 200, Session (CmdAcquire (MkAcquireOwnership (demo_context 17 60) demo_session (MkLeaseDuration 50000))))].

Definition scene_step := @kernel_step UtcLib UtcArith demo_sha scene_json braces_json demo_text 60000 LimitProfile_default.
Definition scene_do (d : Db) (e : Timestamp * Event) : Db :=
  match e.2 with
  | Session c => (@handle UtcLib UtcArith demo_sha scene_json demo_text 60000 e.1 c d).1
  | Ask q => @serve UtcLib UtcArith demo_sha scene_json braces_json demo_text 60000 LimitProfile_default e.1 q d
  end.
(** The database after the first [n] events. *)
Definition scene_db (n : nat) : Db := fold_left scene_do (take n scene) demo_db.

(** ** It is a history *)

Lemma scene_does l d : Forall (fun e => @Timestamp_wf UtcLib e.1 /\
    match e.2 with Session c => command_wf c | Ask q => @request_wf UtcLib q end) l ->
  rtc scene_step d (fold_left scene_do l d).
Proof.
  intros Hwf. revert d. induction Hwf as [|[now e] l [Hn Hq] _ IH]; intros d; [apply rtc_refl|]. cbn [fold_left].
  eapply rtc_l; [|apply IH]. destruct e as [c|q]; [|by apply ks_request]. eapply ks_session. by apply step_call.
Qed.
Lemma scene_wf : Forall (fun e => @Timestamp_wf UtcLib e.1 /\
    match e.2 with Session c => command_wf c | Ask q => @request_wf UtcLib q end) scene.
Proof.
  repeat (apply Forall_cons; split; [split; [by apply demo_at_wf|
    cbn; unfold context_wf, Id_wf, LeaseDuration_wf, i64_max; cbn; try done; try lia]|]). done.
Qed.
Lemma scene_steps n k : (n <= k)%nat -> rtc scene_step (scene_db n) (scene_db k).
Proof.
  intros Hk. unfold scene_db. rewrite <-(take_drop n (take k scene)), take_take, Nat.min_l, fold_left_app by lia.
  apply scene_does, Forall_drop, Forall_take, scene_wf.
Qed.
Definition scene_reachable := @reachable UtcLib UtcArith demo_sha scene_json braces_json demo_text 60000 LimitProfile_default.
Lemma scene_reach n : scene_reachable (scene_db n).
Proof. exists demo_db. split; [apply demo_rows|]. split; [done|]. apply (scene_steps 0 n). lia. Qed.
Lemma scene_rows n : @all_rows (@cols_wf UtcLib) (scene_db n).
Proof. exact (ko_sessions _ (reachable_ok _ _ _ (scene_reach n))). Qed.

(** A call that was carried out. *)
Lemma applied_answer {A} (out : TxOut (Mutation A)) :
  match out with Next (Applied _) _ => true | _ => false end = true -> exists m d', out = Next (Applied m) d'.
Proof. destruct out as [[m| |] d'| |]; try done. by exists m, d'. Qed.
