(* ===== verification/Mailbox.v ===== *)
(** * Mailbox: theorems about the mailboxes over all histories

    Over all histories of the store (Kernel.v), proved from the per-transaction contract
    of MailboxLedger.v: at most one message of a mailbox is in flight, the counters are
    exact and within their quotas, sequences are unique, and messages follow the
    delivery automaton. *)
From S2P Require Import Prelude Scalars Session Authority Operation Capacity Json StoreApi StoreWire.
From S2P Require Import Approval Template Message OperationApi SqliteDb SqliteSession SessionLedger Ownership.
From S2P Require Import SqliteMailbox Tables SqliteOperation SqliteLaunch MailboxLedger Footprint OperationLedger.
From S2P Require Import OperationMail Participants Launches Kernel Scenario.

(** ** Facts about the delivery automaton *)

Lemma step_open now m m' : delivery_step now m m' -> delivery_is_terminal (ms_state m) = false.
Proof.
  intros (a & s & v & _ & _ & Hst). unfold eligible in *. destruct Hst as
    [l Hel|reason Hel|l l' s [[E _]|[E _]]|l E|l E|t E|l pr E|l reason E|reason E]; try done;
    unfold eligible, awaits_acceptance in *; destruct (ms_state m); done.
Qed.

(** Everything but the delivery fields is kept. *)
Lemma step_identity now m m' : delivery_step now m m' ->
  ms_message_id m' = ms_message_id m /\ ms_session_id m' = ms_session_id m /\ ms_source m' = ms_source m /\
  ms_destination m' = ms_destination m /\ ms_mailbox_sequence m' = ms_mailbox_sequence m /\
  ms_priority m' = ms_priority m /\ ms_envelope m' = ms_envelope m /\ ms_correlation m' = ms_correlation m /\
  ms_created_at m' = ms_created_at m /\ ms_updated_at m' = now.
Proof. by intros (a & s & v & _ & -> & _). Qed.

Lemma busy_mono t t' m : Timestamp_le t t' -> busy t' m = true -> busy t m = true.
Proof.
  unfold busy, active_lease. intros Ht H. apply orb_true_iff in H as [H|H]; [by rewrite H|].
  destruct (state_lease (ms_state m)); [|done]. apply orb_true_iff. right.
  ts_norm. apply Timestamp_ltb_lt. eauto using Timestamp_le_lt_trans.
Qed.

(** A message comes into flight only by a lease. *)
Lemma step_busy now m m' : delivery_step now m m' -> busy now m' = true ->
  busy now m = true \/ exists l, ms_state m' = MsLeased l.
Proof.
  intros (a & s & v & _ & -> & Hst) Hb. destruct Hst as
    [l Hel|reason Hel|l l' s [[E ->]|[E ->]]|l E Hlt|l E|t E|l pr E|l reason E|reason E]; try discriminate Hb;
    [right; by eexists|left..]; unfold busy, active_lease; rewrite ?E; try done.
  cbn. by apply Timestamp_ltb_lt.
Qed.

(** An acceptance that was reported unknown only after its lease had expired. *)
Definition late_unknown (m : MessageSnapshot) : Prop :=
  exists l, ms_state m = MsAcceptanceUnknown l /\ Timestamp_le (dl_expires_at l) (ms_updated_at m).

Lemma late_invalid m : late_unknown m -> is_structurally_valid m = false.
Proof.
  intros (l & E & Hle). unfold is_structurally_valid. rewrite E. case_match; [done|]. apply andb_false_iff. right.
  by apply Timestamp_ltb_ge.
Qed.

Lemma valid_created m : is_structurally_valid m = true -> Timestamp_le (ms_created_at m) (ms_updated_at m).
Proof. unfold is_structurally_valid. intros H. case_if_in H as E; [done|]. bool_norm. by ts_norm. Qed.

(** Structural validity is the validity of the fixed fields, the attempt count and the
    order of the dates, and of the state at the date of the last update. *)
Definition state_valid (updated_at : Timestamp) (a : Z) (s : MessageDeliveryState) : Prop :=
  match s with
  | MsQueued => a = 0
  | MsRetryScheduled not_before => 0 < a /\ Timestamp_le updated_at not_before
  | MsLeased l | MsAcceptancePending l | MsAcceptanceUnknown l => 0 < a /\ Timestamp_lt updated_at (dl_expires_at l)
  | MsAccepted _ _ accepted_at => 0 < a /\ accepted_at = updated_at
  | MsUncertain _ _ => 0 < a
  | MsDeadLetter _ => True
  end.
Lemma structurally_valid_iff m : is_structurally_valid m = true <->
  ms_mailbox_sequence m <> 0 /\ ms_priority m = priority_for (envelope_kind (ms_envelope m)) /\
  ms_attempt_count m <= MAX_DELIVERY_ATTEMPTS /\ Timestamp_le (ms_created_at m) (ms_updated_at m) /\
  state_valid (ms_updated_at m) (ms_attempt_count m) (ms_state m).
Proof.
  unfold is_structurally_valid, state_valid. split.
  - intros H. case_if_in H as E; [done|]. bool_norm. ts_norm. split_and!; try (done || lia).
    destruct (ms_state m); bool_norm; ts_norm; try split; (done || lia).
  - intros (Hs & Hp & Ha & Hc & Hst). rewrite (proj2 (Z.eqb_neq _ _) Hs), (proj2 (Z.ltb_ge _ _) Ha),
      (proj2 (Timestamp_ltb_ge _ _) Hc), bool_decide_eq_true_2 by done. cbn [orb negb].
    destruct (ms_state m); rewrite ?andb_true_iff, ?Z.ltb_lt, ?Timestamp_ltb_lt, ?Timestamp_leb_le, ?bool_decide_eq_true;
      try done. by apply Z.eqb_eq.
Qed.

(** A step keeps a message valid, but for an acceptance reported unknown too late. *)
Lemma step_valid now m m' : is_structurally_valid m = true -> 0 <= ms_attempt_count m ->
  Timestamp_le (ms_created_at m) now -> delivery_step now m m' ->
  (is_structurally_valid m' = true \/ late_unknown m') /\ 0 <= ms_attempt_count m' <= MAX_DELIVERY_ATTEMPTS.
Proof.
  intros (Hs & Hp & Hmax & _ & Hst0)%structurally_valid_iff Ha Hc (a & s & v & _ & -> & Hst).
  assert (Hpos : forall l, state_lease (ms_state m) = Some l -> 0 < ms_attempt_count m).
  { intros l Hl. destruct (ms_state m); try discriminate Hl; by destruct Hst0. }
  assert (Haw : awaits_acceptance (ms_state m) = true -> 0 < ms_attempt_count m).
  { intros H. destruct (ms_state m); try discriminate H; by eapply Hpos. }
  assert (Hok : forall a s, 0 <= a <= MAX_DELIVERY_ATTEMPTS -> state_valid now a s ->
    is_structurally_valid (set_delivery m a s v now) = true).
  { intros a0 s0 Ha0 Hv. apply structurally_valid_iff. cbn. split_and!; (done || lia). }
  destruct Hst as [l Hel Hlt Hx|reason Hel Hge|l l' s [[E ->]|[E ->]] He Hat Hx|l E Hx|l E|t E Hx|l pr E El|l reason E El|reason E];
    (split; [|cbn; lia]).
  6: { rewrite E in *. destruct (Timestamp_ltb now (dl_expires_at l)) eqn:Hx; ts_norm;
         [left; apply Hok; [lia|split; eauto]|right; by exists l]. }
  all: left; apply Hok; [lia|]; cbn; try (split; [|done]); try (by eauto); try lia; by eapply Hpos; rewrite E.
Qed.

(** ** The invariant of the mailbox tables *)

Definition columns_agree (id : MessageId) (r : MessageRow) : Prop :=
  let m := mg_snapshot r in
  id = ms_message_id m /\ mg_session_id r = ms_session_id m /\ mg_source r = ms_source m /\
  mg_destination r = ms_destination m /\ mg_mailbox_sequence r = ms_mailbox_sequence m /\
  mg_priority r = priority_column (ms_priority m).

(** The messages of a mailbox that are still open, and their size. *)
Definition open_for (p : ParticipantId) (r : MessageRow) : bool :=
  eqb (mg_destination r) p && negb (delivery_is_terminal (ms_state (mg_snapshot r))).
Definition row_size (r : MessageRow) : Z := envelope_size (mg_snapshot r).
Definition queued_bytes (d : Db) (p : ParticipantId) : Z := sum_rows (open_for p) row_size (table_rows (db_messages d)).
Definition queued_messages (d : Db) (p : ParticipantId) : Z :=
  sum_rows (open_for p) (fun _ => 1) (table_rows (db_messages d)).

Lemma decode_message_ok id r : columns_agree id r -> mg_mailbox_sequence r <= i64_max ->
  is_structurally_valid (mg_snapshot r) = true -> decode_message_row id r = Ok (mg_snapshot r).
Proof.
  intros (C1 & C2 & C3 & C4 & C5 & C6) Hs Hv. unfold decode_message_row, neqb, eqb.
  rewrite <-C1, <-C2, <-C3, <-C4, !bool_decide_eq_true_2 by done. cbn [negb orb]. unfold to_i64.
  rewrite <-C5, (proj2 (Z.leb_le _ _) Hs). cbn [mbind result_bind]. by rewrite <-C6, !Z.eqb_refl, Hv.
Qed.

Record row_ok (d : Db) (id : MessageId) (r : MessageRow) : Prop := {
  ro_columns : columns_agree id r;
  ro_valid : is_structurally_valid (mg_snapshot r) = true \/ late_unknown (mg_snapshot r);
  ro_attempts : 0 <= ms_attempt_count (mg_snapshot r) <= MAX_DELIVERY_ATTEMPTS;
  ro_fits : mg_mailbox_sequence r <= i64_max;
  ro_sequence : 0 < mg_mailbox_sequence r < ct_next_sequence (mailbox_counter d (mg_destination r));
  ro_floor : exists t, floor_of d (mg_session_id r) = Some t /\ Timestamp_le (ms_created_at (mg_snapshot r)) t;
}.
Record counter_ok (d : Db) (p : ParticipantId) : Prop := {
  co_bytes : ct_queued_bytes (mailbox_counter d p) = queued_bytes d p;
  co_messages : ct_queued_messages (mailbox_counter d p) = queued_messages d p;
  co_quota : queued_bytes d p <= MAX_MAILBOX_QUEUED_BYTES + MAX_MAILBOX_RESERVED_OUTCOME_BYTES /\
             queued_messages d p <= MAX_MAILBOX_QUEUED_MESSAGES + MAX_MAILBOX_RESERVED_OUTCOMES;
}.
Definition sequences_unique (d : Db) : Prop := forall id1 r1 id2 r2,
  db_messages d !! id1 = Some r1 -> db_messages d !! id2 = Some r2 ->
  mg_destination r1 = mg_destination r2 -> mg_mailbox_sequence r1 = mg_mailbox_sequence r2 -> id1 = id2.
Definition one_in_flight (d : Db) : Prop := forall id1 r1 id2 r2 t,
  db_messages d !! id1 = Some r1 -> db_messages d !! id2 = Some r2 ->
  mg_session_id r1 = mg_session_id r2 -> mg_destination r1 = mg_destination r2 ->
  floor_of d (mg_session_id r1) = Some t -> busy t (mg_snapshot r1) = true -> busy t (mg_snapshot r2) = true ->
  id1 = id2.
Record mailbox_ok (d : Db) : Prop := {
  mo_rows : forall id r, db_messages d !! id = Some r -> row_ok d id r;
  mo_counters : forall p, counter_ok d p;
  mo_unique : sequences_unique d;
  mo_one : one_in_flight d;
}.

Lemma row_ok_frame d d' id r : floors_grow d d' ->
  ct_next_sequence (mailbox_counter d (mg_destination r)) <= ct_next_sequence (mailbox_counter d' (mg_destination r)) ->
  row_ok d id r -> row_ok d' id r.
Proof.
  intros Hg Hn [H1 H2 H3 H0 H4 (t & Ht & Hle)]. destruct (Hg _ _ Ht) as (t' & Ht' & Hle').
  constructor; try done; [lia|]. exists t'. eauto with nav.
Qed.

Lemma one_frame d d' : floors_grow d d' -> (forall id r, db_messages d !! id = Some r -> row_ok d id r) ->
  one_in_flight d -> forall id1 r1 id2 r2 t,
  db_messages d !! id1 = Some r1 -> db_messages d !! id2 = Some r2 ->
  mg_session_id r1 = mg_session_id r2 -> mg_destination r1 = mg_destination r2 ->
  floor_of d' (mg_session_id r1) = Some t -> busy t (mg_snapshot r1) = true -> busy t (mg_snapshot r2) = true ->
  id1 = id2.
Proof.
  intros Hg Hrows Ho id1 r1 id2 r2 t H1 H2 Hs Hd Ht B1 B2. destruct (ro_floor _ _ _ (Hrows _ _ H1)) as (t0 & Ht0 & _).
  destruct (Hg _ _ Ht0) as (t1 & Ht1 & Hle). rewrite Ht in Ht1. injection Ht1 as <-.
  eapply (Ho id1 r1 id2 r2 t0); eauto using busy_mono.
Qed.

Lemma mailbox_ok_same d d' : mailbox_ok d -> floors_grow d d' -> db_messages d' = db_messages d ->
  db_counters d' = db_counters d -> mailbox_ok d'.
Proof.
  intros [Hr Hc Hu Ho] Hg Em Ec. assert (Hk : forall p, mailbox_counter d' p = mailbox_counter d p)
    by (intros; unfold mailbox_counter; by rewrite Ec). constructor.
  - intros id r Hid. rewrite Em in Hid. eapply row_ok_frame; eauto. by rewrite Hk.
  - intros p. destruct (Hc p) as [H1 H2 H3]. constructor; unfold queued_bytes, queued_messages in *; by rewrite ?Hk, Em.
  - intros id1 r1 id2 r2. rewrite Em. apply Hu.
  - intros id1 r1 id2 r2 t. rewrite Em. by apply one_frame.
Qed.

Lemma counter_insert d d' p c : db_counters d' = <[p := c]> (db_counters d) -> forall q,
  mailbox_counter d' q = if bool_decide (q = p) then c else mailbox_counter d q.
Proof.
  intros E q. unfold mailbox_counter. rewrite E. case_bool_decide as Hq; [subst; by rewrite lookup_insert_eq|].
  by rewrite lookup_insert_ne.
Qed.

Lemma mailbox_ok_insert d d' m c' : mailbox_ok d -> floors_grow d d' ->
  db_messages d !! ms_message_id m = None -> fresh_message m ->
  (exists t, floor_of d' (ms_session_id m) = Some t /\ Timestamp_le (ms_created_at m) t) ->
  ms_mailbox_sequence m = ct_next_sequence (mailbox_counter d (ms_destination m)) ->
  counted MAX_MAILBOX_RESERVED_OUTCOME_BYTES MAX_MAILBOX_RESERVED_OUTCOMES
    (mailbox_counter d (ms_destination m)) m c' ->
  db_messages d' = <[ms_message_id m := message_row m (ms_mailbox_sequence m)]> (db_messages d) ->
  db_counters d' = <[ms_destination m := c']> (db_counters d) -> mailbox_ok d'.
Proof.
  intros [Hr Hc Hu Ho] Hg Hn (Est & Eatt & Eupd & Eprio & _) Hfl Hseq (Hpos & _ & _ & Hqb & Hqm & ->) Em Ec.
  pose proof (counter_insert _ _ _ _ Ec) as Hk. constructor.
  - intros id r Hid. rewrite Em in Hid. apply lookup_insert_Some in Hid as [[<- <-]|[Hne Hid]].
    + constructor; try done; cbn -[mailbox_counter].
      * left. apply structurally_valid_iff. rewrite Est, Eatt, Eupd. split_and!; try done; [lia|apply Timestamp_le_refl].
      * rewrite Eatt. done.
      * lia.
      * rewrite Hk, bool_decide_eq_true_2 by done. cbn -[mailbox_counter]. lia.
    + eapply row_ok_frame; eauto. rewrite Hk. case_bool_decide as Hq; [rewrite Hq|]; cbn; lia.
  - intros p. specialize (Hc p) as [H1 H2 [H3 H4]]. unfold queued_bytes, queued_messages in *.
    assert (Hw : forall f, weight (open_for p) f (message_row m (ms_mailbox_sequence m)) =
      if bool_decide (p = ms_destination m) then f (message_row m (ms_mailbox_sequence m)) else 0).
    { intros f. unfold weight, open_for, eqb. cbn. rewrite Est, andb_true_r. repeat case_bool_decide; congruence. }
    constructor; rewrite ?Hk; unfold queued_bytes, queued_messages in *; rewrite !Em, !sum_rows_insert, !Hw by done;
      change (row_size (message_row m (ms_mailbox_sequence m))) with (envelope_size m);
      case_bool_decide as Hp; subst; cbn -[row_size] in *; lia.
  - intros id1 r1 id2 r2 H1 H2 Hd Hs. rewrite Em in H1, H2.
    apply lookup_insert_Some in H1 as [[<- <-]|[Hne1 H1]], H2 as [[<- <-]|[Hne2 H2]]; [done| | |by eapply Hu].
    + destruct (Hr _ _ H2) as [_ _ _ _ Hq _]. cbn in Hd, Hs. rewrite <-Hd in Hq. lia.
    + destruct (Hr _ _ H1) as [_ _ _ _ Hq _]. cbn in Hd, Hs. rewrite Hd in Hq. lia.
  - intros id1 r1 id2 r2 t H1 H2 Hs Hd Ht B1 B2. rewrite Em in H1, H2.
    assert (Hq : forall t, busy t m = false) by (intros; unfold busy, active_lease; by rewrite Est).
    apply lookup_insert_Some in H1 as [[<- <-]|[Hne1 H1]]; [by rewrite Hq in B1|].
    apply lookup_insert_Some in H2 as [[<- <-]|[Hne2 H2]]; [by rewrite Hq in B2|].
    by eapply (one_frame d d').
Qed.

Section update.
Context (d d' : Db) (id : MessageId) (r : MessageRow) (m' : MessageSnapshot) (now : Timestamp).
Hypothesis (Hok : mailbox_ok d) (Hg : floors_grow d d') (Hr : db_messages d !! id = Some r)
  (Hdec : decode_message_row id r = Ok (mg_snapshot r)) (Hst : delivery_step now (mg_snapshot r) m')
  (Hnow : floor_of d' (ms_session_id (mg_snapshot r)) = Some now \/
     delivery_is_terminal (ms_state m') = true /\ Timestamp_le (ms_updated_at (mg_snapshot r)) now)
  (Hx : forall l, ms_state m' = MsLeased l -> forall id' r', db_messages d !! id' = Some r' -> id' <> id ->
       mg_session_id r' = mg_session_id r -> mg_destination r' = mg_destination r ->
       busy now (mg_snapshot r') = false)
  (Em : db_messages d' = <[id := with_snapshot r m']> (db_messages d)) (Hk : discounted d m' d').

Lemma update_next p : ct_next_sequence (mailbox_counter d' p) = ct_next_sequence (mailbox_counter d p).
Proof using Hk.
  clear -Hk. unfold discounted in Hk. destruct (delivery_is_terminal (ms_state m')).
  - destruct Hk as (c & Hc & _ & _ & Ec). rewrite (counter_insert _ _ _ _ Ec). case_bool_decide as Hp; [|done].
    subst. unfold mailbox_counter. by rewrite Hc.
  - unfold mailbox_counter. by rewrite Hk.
Qed.

Lemma update_row : row_ok d' id (with_snapshot r m').
Proof.
  destruct (decode_message_Ok _ _ _ Hdec) as (_ & C1 & C2 & C3 & C4 & C5 & C6 & Hv).
  destruct (step_identity _ _ _ Hst) as (I1 & I2 & I3 & I4 & I5 & I6 & _ & _ & I7 & _).
  destruct (mo_rows _ Hok _ _ Hr) as [_ _ [Ha _] Hfit Hs (t & Ht & Hle)]. destruct (Hg _ _ Ht) as (t' & Ht' & Hle').
  assert (Hc : Timestamp_le (ms_created_at (mg_snapshot r)) now).
  { destruct Hnow as [Hf|[_ Hu]]; [|eauto using valid_created with nav].
    rewrite <-C2, Ht' in Hf. injection Hf as <-. eauto with nav. }
  destruct (step_valid _ _ _ Hv Ha Hc Hst) as [Hv' Ha'].
  constructor; [|done..| |]; unfold columns_agree; cbn [with_snapshot mg_session_id mg_source mg_destination
    mg_mailbox_sequence mg_priority mg_snapshot].
  - split_and!; congruence.
  - by rewrite update_next.
  - exists t'. rewrite I7. eauto with nav.
Qed.

Lemma update_counter p : counter_ok d' p.
Proof.
  destruct (decode_message_Ok _ _ _ Hdec) as (_ & _ & _ & _ & C4 & _).
  destruct (step_identity _ _ _ Hst) as (_ & _ & _ & I4 & _ & _ & I6 & _). pose proof (step_open _ _ _ Hst) as Hopen.
  assert (Hsz : envelope_size m' = envelope_size (mg_snapshot r)) by (unfold envelope_size; by rewrite I6).
  assert (Hw : forall f, weight (open_for p) f r = if bool_decide (p = ms_destination m') then f r else 0).
  { intros f. unfold weight, open_for, eqb. rewrite Hopen, andb_true_r, C4, I4. repeat case_bool_decide; congruence. }
  assert (Hw' : forall f, weight (open_for p) f (with_snapshot r m') = if delivery_is_terminal (ms_state m') then 0 else
    if bool_decide (p = ms_destination m') then f (with_snapshot r m') else 0).
  { intros f. unfold weight, open_for, eqb. cbn. rewrite C4, I4. destruct (delivery_is_terminal _); cbn;
      rewrite ?andb_false_r, ?andb_true_r; [done|]. repeat case_bool_decide; congruence. }
  destruct (mo_counters _ Hok p) as [H1 H2 [H3 H4]]. unfold discounted in Hk.
  assert (Hb : queued_bytes d' p = queued_bytes d p - weight (open_for p) row_size r +
    weight (open_for p) row_size (with_snapshot r m')) by (unfold queued_bytes; rewrite Em; by apply sum_rows_replace).
  assert (Hm : queued_messages d' p = queued_messages d p - weight (open_for p) (fun _ => 1) r +
    weight (open_for p) (fun _ => 1) (with_snapshot r m')) by (unfold queued_messages; rewrite Em; by apply sum_rows_replace).
  rewrite Hw, Hw' in Hb, Hm. unfold row_size in Hb. cbn [with_snapshot mg_snapshot] in Hb.
  assert (0 <= envelope_size (mg_snapshot r)) by (unfold envelope_size, llen; lia).
  destruct (delivery_is_terminal (ms_state m')).
  - destruct Hk as (c & Hc & Hc1 & Hc2 & Ec). pose proof (counter_insert _ _ _ _ Ec p) as Hp.
    constructor; rewrite ?Hp; case_bool_decide as Hd; cbn; try lia;
      subst; unfold mailbox_counter in H1, H2; rewrite Hc in H1, H2; cbn in H1, H2; lia.
  - assert (Hp : mailbox_counter d' p = mailbox_counter d p) by (unfold mailbox_counter; by rewrite Hk).
    constructor; rewrite ?Hp; case_bool_decide; lia.
Qed.

Lemma update_one id' r' t : db_messages d !! id' = Some r' -> id' <> id -> mg_session_id r' = mg_session_id r ->
  mg_destination r' = mg_destination r -> floor_of d' (mg_session_id r) = Some t ->
  busy t m' = true -> busy t (mg_snapshot r') = true -> False.
Proof.
  intros Hr' Hne Hs Hd Ht B B'. destruct (decode_message_Ok _ _ _ Hdec) as (_ & _ & C2 & _).
  assert (Et : t = now).
  { destruct Hnow as [Hf|[Hterm _]]; [rewrite <-C2, Ht in Hf; by injection Hf|].
    unfold busy, active_lease in B. by destruct (ms_state m'). }
  subst t. destruct (step_busy _ _ _ Hst B) as [B0|[l Hl]].
  - apply Hne. symmetry. eapply (one_frame d d' Hg (mo_rows _ Hok) (mo_one _ Hok) id r id' r'); eauto.
  - by rewrite (Hx _ Hl _ _ Hr' Hne Hs Hd) in B'.
Qed.

Lemma mailbox_ok_update : mailbox_ok d'.
Proof.
  constructor.
  - intros id' r' H'. rewrite Em in H'. apply lookup_insert_Some in H' as [[<- <-]|[Hne H']]; [exact update_row|].
    eapply row_ok_frame; [exact Hg| |by apply Hok]. by rewrite update_next.
  - exact update_counter.
  - intros id1 r1 id2 r2 H1 H2 Hd Hs. rewrite Em in H1, H2.
    apply lookup_insert_Some in H1 as [[<- <-]|[Hne1 H1]], H2 as [[<- <-]|[Hne2 H2]]; [done|..];
      eapply (mo_unique _ Hok); eauto.
  - intros id1 r1 id2 r2 t H1 H2 Hs Hd Ht B1 B2. rewrite Em in H1, H2.
    apply lookup_insert_Some in H1 as [[<- <-]|[Hne1 H1]], H2 as [[<- <-]|[Hne2 H2]]; [done|..].
    + exfalso. by eapply (update_one id2 r2 t).
    + exfalso. eapply (update_one id1 r1 t); eauto. cbn in Hs. congruence.
    + eapply (one_frame d d'); eauto using mo_rows, mo_one.
Qed.
End update.

Lemma mailbox_ok_change d d' : mailbox_ok d -> floors_grow d d' -> mail_change d d' -> mailbox_ok d'.
Proof.
  intros Hok Hg [H1 H2|m c' H1 H2 H3 H4 H5 H6 H7|id r m m' now H1 H2 H3 H4 H5 H6 H7].
  - by eapply mailbox_ok_same.
  - by eapply mailbox_ok_insert.
  - destruct (decode_message_Ok _ _ _ H2) as (-> & _). by eapply mailbox_ok_update.
Qed.

(** ** The transition system *)

Section system.
Context {TL : TimeLib} {TA : TimeArith} {SH : Sha256} {JS : Json} {JR : JsonRaw} {UT : UuidText}.
Context {TLaws : TimeLaws} {TALaws : TimeArithLaws}.
Variable max_lease_millis : Z.
Variable limit_profile : LimitProfile.
Abbreviation kernel_step := (kernel_step max_lease_millis limit_profile).
Abbreviation reachable := (reachable max_lease_millis limit_profile).

Lemma moves_ok d d' : rtc mail_move d d' -> all_rows cols_wf d -> mailbox_ok d -> all_rows cols_wf d' /\ mailbox_ok d'.
Proof.
  induction 1 as [|d d1 d2 (Hc & Hg & Hr) _ IH]; [done|]. intros Hrows Hok. apply IH; [auto|].
  by eapply mailbox_ok_change.
Qed.
Lemma pristine_mail d : pristine d -> mailbox_ok d.
Proof.
  intros (_ & _ & _ & Em & Ec & _). constructor.
  - intros id r. by rewrite Em, lookup_empty.
  - intros p. constructor; unfold queued_bytes, queued_messages, mailbox_counter; by rewrite ?Em, ?Ec, ?lookup_empty.
  - intros id1 r1 id2 r2. by rewrite Em, lookup_empty.
  - intros id1 r1 id2 r2 t. by rewrite Em, lookup_empty.
Qed.

Lemma reachable_mail d : reachable d -> mailbox_ok d.
Proof.
  intros (d0 & Hr & Hp & Hst). assert (H0 : reachable d0) by (exists d0; split_and!; [done..|apply rtc_refl]).
  apply (kernel_steps_ind _ _ mailbox_ok _ _ H0 Hst); [by apply pristine_mail|].
  intros d1 d2 _ Hok Hc Hm. by destruct (moves_ok _ _ (kc_mail _ _ Hc) (ko_sessions _ Hok) Hm).
Qed.

(** ** One message over time *)

Definition delivers (m m' : MessageSnapshot) : Prop := exists now, delivery_step now m m'.

Lemma move_message d d' id r : mail_move d d' -> db_messages d !! id = Some r ->
  exists m', db_messages d' !! id = Some (with_snapshot r m') /\
    (m' = mg_snapshot r \/ decode_message_row id r = Ok (mg_snapshot r) /\ delivers (mg_snapshot r) m').
Proof.
  intros (Hc & _ & _) Hr. destruct Hc as [E _|m c' Hn _ _ _ _ E _|id0 r0 m m' now Hr0 Hdec Hst _ _ E _]; rewrite E.
  - exists (mg_snapshot r). rewrite Hr. split; [by destruct r|by left].
  - exists (mg_snapshot r). rewrite lookup_insert_ne by congruence. rewrite Hr. split; [by destruct r|by left].
  - destruct (decide (id = id0)) as [->|Hne].
    + rewrite lookup_insert_eq. rewrite Hr0 in Hr. injection Hr as ->. exists m'. split; [done|right].
      destruct (decode_message_Ok _ _ _ Hdec) as (-> & _). split; [done|by exists now].
    + exists (mg_snapshot r). rewrite lookup_insert_ne by done. rewrite Hr. split; [by destruct r|by left].
Qed.

Lemma moves_message d d' : rtc mail_move d d' -> forall id r, db_messages d !! id = Some r ->
  exists m', db_messages d' !! id = Some (with_snapshot r m') /\ rtc delivers (mg_snapshot r) m'.
Proof.
  induction 1 as [d|d d1 d2 Hm _ IH]; intros id r Hr.
  - exists (mg_snapshot r). rewrite Hr. split; [by destruct r|apply rtc_refl].
  - destruct (move_message _ _ _ _ Hm Hr) as (m1 & H1 & Hstep). destruct (IH _ _ H1) as (m2 & H2 & Hrtc).
    exists m2. split; [done|]. destruct Hstep as [->|[_ Hd]]; [done|by eapply rtc_l].
Qed.

Lemma history_message d d' id r : reachable d -> rtc kernel_step d d' -> db_messages d !! id = Some r ->
  exists m', db_messages d' !! id = Some (with_snapshot r m') /\ rtc delivers (mg_snapshot r) m'.
Proof.
  intros Hreach Hst Hr. apply (kernel_steps_ind _ _ (fun d' => exists m', db_messages d' !! id = Some (with_snapshot r m') /\
    rtc delivers (mg_snapshot r) m') _ _ Hreach Hst).
  - exists (mg_snapshot r). rewrite Hr. split; [by destruct r|apply rtc_refl].
  - intros d1 d2 _ _ Hc (m1 & H1 & Hd1). destruct (moves_message _ _ (kc_mail _ _ Hc) _ _ H1) as (m2 & H2 & Hd2).
    exists m2. split; [done|]. by etrans.
Qed.

(** An ended message is final. *)
Lemma ended_final m m' : delivery_is_terminal (ms_state m) = true -> rtc delivers m m' -> m' = m.
Proof.
  intros Ht. inversion_clear 1 as [|? m1 ? [now Hst] _]; [done|]. by rewrite (step_open _ _ _ Hst) in Ht.
Qed.
(** The attempts only grow. *)
Lemma delivers_attempts m m' : rtc delivers m m' -> ms_attempt_count m <= ms_attempt_count m'.
Proof.
  induction 1 as [|m m1 m2 [now (a & s & v & _ & -> & Hst)] _ IH]; [done|]. cbn in IH.
  enough (ms_attempt_count m <= a) by lia. destruct Hst; lia.
Qed.

(** A row that does not decode is never touched again. *)
Lemma stuck_row d d' id r : reachable d -> rtc kernel_step d d' ->
  db_messages d !! id = Some r -> late_unknown (mg_snapshot r) -> db_messages d' !! id = Some r.
Proof.
  intros Hreach Hst Hr Hl.
  assert (Hbad : forall m, decode_message_row id r <> Ok m).
  { intros m Hdec. apply decode_message_Ok in Hdec as (-> & _ & _ & _ & _ & _ & _ & Hv). by rewrite late_invalid in Hv. }
  assert (Hmove : forall d1 d2, rtc mail_move d1 d2 -> db_messages d1 !! id = Some r -> db_messages d2 !! id = Some r).
  { induction 1 as [|d1 d2 d3 Hm _ IH]; [done|]. intros H1. apply IH.
    destruct (move_message _ _ _ _ Hm H1) as (m' & H2 & [->|[Hdec _]]); [by destruct r|by destruct (Hbad _ Hdec)]. }
  apply (kernel_steps_ind _ _ (fun d' => db_messages d' !! id = Some r) _ _ Hreach Hst); [done|].
  intros d1 d2 _ _ Hc. apply Hmove, Hc.
Qed.

Lemma lease_stuck now c d id r : db_messages d !! id = Some r -> late_unknown (mg_snapshot r) ->
  mg_session_id r = ln_session_id c -> mg_destination r = ln_destination c ->
  wp (lease_next_message max_lease_millis now c) (fun v _ => was_replayed v = true) (fun _ => True) d.
Proof.
  intros Hr Hl Hs Hd. unfold lease_next_message. wp_auto. apply wp_replay. intros [m|]; [by wp_auto|].
  destruct (duration_lease (ln_lease_duration c)); [|by apply wp_finish].
  apply wp_prologue; [done|]. intros t d1 (_ & Em & _) _. destruct (expiry max_lease_millis t l); [|by apply wp_finish].
  wp_auto. exfalso. match goal with H : collect _ _ = Ok ?ms |- _ => apply collect_Ok in H as Hms end.
  assert (Hin : (id, r) ∈ select_mailbox d1 (ln_session_id c) (ln_destination c))
    by (apply select_mailbox_elem; rewrite Em; done).
  apply list_elem_of_lookup_1 in Hin as [i Hi]. destruct (Forall2_lookup_l _ _ _ _ _ Hms Hi) as (m & _ & Hdec).
  apply decode_message_Ok in Hdec as (-> & _ & _ & _ & _ & _ & _ & Hv). cbn in Hv. by rewrite late_invalid in Hv.
Qed.

(** ** Theorems *)

(** C3: at any time of any history, at most one message of a participant's mailbox is in
    flight, that is, awaits the result of an acceptance or is under a lease that is
    effective at the session's clock floor. *)
Theorem mailbox_exclusive d' id1 r1 id2 r2 t :
  reachable d' ->
  db_messages d' !! id1 = Some r1 -> db_messages d' !! id2 = Some r2 ->
  mg_session_id r1 = mg_session_id r2 -> mg_destination r1 = mg_destination r2 ->
  floor_of d' (mg_session_id r1) = Some t -> busy t (mg_snapshot r1) = true -> busy t (mg_snapshot r2) = true ->
  id1 = id2.
Proof.
  intros Hok%reachable_mail. apply Hok.
Qed.


(** C32: over any history a stored message keeps its row and identity and moves only
    along the delivery automaton; once it has ended (accepted, uncertain or dead) it never
    changes again. *)
Theorem message_lifecycle d' d'' id r : reachable d' ->
  db_messages d' !! id = Some r -> rtc kernel_step d' d'' ->
  exists m', db_messages d'' !! id = Some (with_snapshot r m') /\ rtc delivers (mg_snapshot r) m' /\
    ms_attempt_count (mg_snapshot r) <= ms_attempt_count m' /\
    (delivery_is_terminal (ms_state (mg_snapshot r)) = true -> m' = mg_snapshot r).
Proof.
  intros Hreach Hr Hst. destruct (history_message _ _ _ _ Hreach Hst Hr) as (m' & Hm' & Hd). exists m'.
  split_and!; [done|done|by apply delivers_attempts|]. intros. by apply ended_final.
Qed.

(** a new delivery lease goes to the first open message of the mailbox in the order of
    priority and sequence, it is granted to the owner of the session only, and it carries
    his identity and epoch. *)
Theorem leases_in_order now c d m' l d' :
  all_rows cols_wf d -> Timestamp_wf now -> request_wf (RqLease c) ->
  lease_next_message max_lease_millis now c d = Next (Applied (Some m')) d' -> ms_state m' = MsLeased l ->
  by_owner (ln_session_id c) (ln_context c) (ln_epoch c) now d /\
  dl_owner l = rc_caller (ln_context c) /\ dl_ownership_epoch l = ln_epoch c /\
  exists r, db_messages d !! ms_message_id m' = Some r /\ mg_destination r = ln_destination c /\
    forall id' r', db_messages d !! id' = Some r' -> mg_session_id r' = ln_session_id c ->
      mg_destination r' = ln_destination c -> delivery_is_terminal (ms_state (mg_snapshot r')) = false ->
      mailbox_le (ms_message_id m', r) (id', r').
Proof.
  intros Hrows Hnow Hq Hrun Hl. pose proof (lease_next_call max_lease_millis now c d Hrows Hnow Hq) as Hwp.
  unfold wp in Hwp. rewrite Hrun in Hwp. destruct Hwp as (_ & Ho & Hf & Hm & _).
  destruct (Hm _ l eq_refl) as [? ?]; [by rewrite Hl|]. destruct (Hf _ _ eq_refl Hl) as (r & ? & ? & ? & ?).
  split; [by apply Ho|]. eauto 8.
Qed.

(** a delivery report is carried out only for the current owner of the session,
    on a message whose lease names him, his epoch and the attempt, at the revision he
    has seen. *)
Theorem reports_fenced now c d m' d' :
  all_rows cols_wf d -> Timestamp_wf now -> request_wf (RqReport c) ->
  transition_message_delivery max_lease_millis limit_profile now c d = Next (Applied m') d' ->
  by_owner (td_session_id c) (td_context c) (td_epoch c) now d /\ reported c d.
Proof.
  intros Hrows Hnow Hq Hrun. pose proof (transition_call max_lease_millis limit_profile now c d Hrows Hnow Hq) as Hwp.
  unfold wp in Hwp. rewrite Hrun in Hwp. destruct Hwp as (_ & Ho & Hr & _). split; [by apply Ho|by apply Hr].
Qed.

(** C37: an acceptance that is reported unknown after its lease has expired is stored in
    a form the store itself rejects: the row is never touched again, and no call ever
    leases a message of that mailbox again. *)
Theorem late_unknown_blocks_mailbox d' d'' id r now c v d3 : reachable d' ->
  db_messages d' !! id = Some r -> late_unknown (mg_snapshot r) -> rtc kernel_step d' d'' ->
  ln_session_id c = mg_session_id r -> ln_destination c = mg_destination r ->
  lease_next_message max_lease_millis now c d'' = Next v d3 ->
  db_messages d'' !! id = Some r /\ was_replayed v = true.
Proof.
  intros Hreach Hr Hl Hst Hs Hd Hrun. assert (Hr' : db_messages d'' !! id = Some r) by by eapply stuck_row. split; [done|].
  pose proof (lease_stuck now c d'' id r Hr' Hl (eq_sym Hs) (eq_sym Hd)) as Hwp. unfold wp in Hwp. by rewrite Hrun in Hwp.
Qed.
End system.

(** ** Witnesses *)

Abbreviation scene_row n id := (db_messages (scene_db n) !! MkId id).
Definition scene_busy (n : nat) (id : Z) : bool :=
  match scene_row n id with Some r => busy (demo_at 100) (mg_snapshot r) | None => false end.

Lemma scene_leased r : scene_row 13 61 = Some r ->
  mg_session_id r = demo_session /\ mg_destination r = MkId 12 /\ busy (demo_at 100) (mg_snapshot r) = true.
Proof. intros E. vm_compute in E. injection E as <-. split_and!; vm_compute; reflexivity. Qed.
Lemma scene_floor : floor_of (scene_db 13) demo_session = Some (demo_at 100).
Proof. vm_compute. reflexivity. Qed.
Lemma mailbox_exclusive_witness : scene_busy 13 61 = true /\ scene_busy 13 62 = false /\
  forall id r, db_messages (scene_db 13) !! id = Some r -> mg_session_id r = demo_session ->
    mg_destination r = MkId 12 -> busy (demo_at 100) (mg_snapshot r) = true -> id = MkId 61.
Proof.
  split; [vm_compute; reflexivity|]. split; [vm_compute; reflexivity|]. intros id r Hr Hs Hd Hb.
  destruct (scene_row 13 61) as [r1|] eqn:E; [|vm_compute in E; discriminate E].
  destruct (scene_leased r1 E) as (Es & Ed & Eb). pose proof scene_floor as Hf. rewrite <-Hs in Hf.
  exact (@mailbox_exclusive UtcLib UtcArith demo_sha scene_json braces_json demo_text UtcLaws UtcArithLaws 60000
    LimitProfile_default (scene_db 13) id r (MkId 61) r1 (demo_at 100) (scene_reach 13) Hr E
    (eq_trans Hs (eq_sym Es)) (eq_trans Hd (eq_sym Ed)) Hf Hb Eb).
Defined.


Lemma message_lifecycle_witness : exists r m', scene_row 12 61 = Some r /\
  scene_row 15 61 = Some (with_snapshot r m') /\ ms_state (mg_snapshot r) = MsQueued /\ rtc delivers (mg_snapshot r) m'.
Proof.
  destruct (scene_row 12 61) as [r|] eqn:E; [|vm_compute in E; discriminate E].
  assert (Hst : rtc scene_step (scene_db 12) (scene_db 15)) by exact (scene_steps 12 15 ltac:(lia)).
  destruct (@message_lifecycle UtcLib UtcArith demo_sha scene_json braces_json demo_text UtcLaws UtcArithLaws 60000
    LimitProfile_default (scene_db 12) (scene_db 15) (MkId 61) r 
    (scene_reach 12) E Hst) as (m' & Hm & Hd & _).
  exists r, m'. split; [reflexivity|]. split; [exact Hm|]. split; [|exact Hd].
  vm_compute in E. injection E as <-. reflexivity.
Defined.

Lemma leased_answer (out : TxOut (Mutation (option MessageSnapshot))) :
  match out with
  | Next (Applied (Some m)) _ => match ms_state m with MsLeased _ => as_uuid (ms_message_id m) =? 61 | _ => false end
  | _ => false
  end = true ->
  exists m l d', out = Next (Applied (Some m)) d' /\ ms_state m = MsLeased l /\ ms_message_id m = MkId 61.
Proof.
  destruct out as [[[m|]| |] d'| |]; try done. destruct (ms_state m) as [| |l| | | | |] eqn:E; try done.
  intros Hid%Z.eqb_eq. exists m, l, d'. destruct (ms_message_id m). cbn in Hid. by rewrite Hid.
Qed.
Lemma scene_lease_run : exists m l d',
  @lease_next_message UtcLib UtcArith demo_sha scene_json demo_text 60000 (demo_at 100) (scene_lease 12)
    (scene_db 12) = Next (Applied (Some m)) d' /\ ms_state m = MsLeased l /\ ms_message_id m = MkId 61.
Proof. apply leased_answer. vm_compute. reflexivity. Qed.
Lemma leases_in_order_witness : exists r m' l, scene_row 12 61 = Some r /\ dl_owner l = MkId 50 /\
  ms_state m' = MsLeased l /\
  forall id' r', db_messages (scene_db 12) !! id' = Some r' -> mg_session_id r' = demo_session ->
    mg_destination r' = MkId 12 -> delivery_is_terminal (ms_state (mg_snapshot r')) = false ->
    mailbox_le (MkId 61, r) (id', r').
Proof.
  destruct scene_lease_run as (m' & l & d' & Hrun & Hl & Hid).
  destruct (@leases_in_order UtcLib UtcArith demo_sha scene_json demo_text UtcLaws UtcArithLaws 60000
    (demo_at 100) (scene_lease 12) (scene_db 12) m' l d' (scene_rows 12) (demo_at_wf 100 eq_refl)
    ltac:(done) Hrun Hl) as (_ & Ho & _ & r & Hr & _ & Hmin).
  rewrite Hid in *. exists r, m', l. split; [exact Hr|]. split; [exact Ho|]. split; [exact Hl|exact Hmin].
Defined.

Lemma scene_report_run : exists m' d',
  @transition_message_delivery UtcLib UtcArith demo_sha scene_json demo_text 60000 LimitProfile_default
    (demo_at 100) (scene_report 13 2 DtAcceptancePending) (scene_db 13) = Next (Applied m') d'.
Proof. apply applied_answer. vm_compute. reflexivity. Qed.
Lemma reports_fenced_witness : reported (scene_report 13 2 DtAcceptancePending) (scene_db 13).
Proof.
  destruct scene_report_run as (m' & d' & Hrun).
  exact (proj2 (@reports_fenced UtcLib UtcArith demo_sha scene_json demo_text UtcLaws UtcArithLaws 60000
    LimitProfile_default (demo_at 100) (scene_report 13 2 DtAcceptancePending) (scene_db 13) m' d' (scene_rows 13) (demo_at_wf 100 eq_refl)
    ltac:(done) Hrun)).
Defined.

Lemma scene_late r : scene_row 15 61 = Some r ->
  late_unknown (mg_snapshot r) /\ mg_session_id r = demo_session /\ mg_destination r = MkId 12.
Proof.
  intros E. vm_compute in E. injection E as <-. split; [|split; reflexivity]. eexists. split; [reflexivity|].
  apply Timestamp_leb_le. reflexivity.
Qed.
Lemma late_unknown_blocks_mailbox_witness : exists r, scene_row 15 61 = Some r /\
  forall d'' now c v d3, rtc scene_step (scene_db 15) d'' -> ln_session_id c = demo_session -> ln_destination c = MkId 12 ->
    @lease_next_message UtcLib UtcArith demo_sha scene_json demo_text 60000 now c d'' = Next v d3 -> was_replayed v = true.
Proof.
  destruct (scene_row 15 61) as [r|] eqn:E; [|vm_compute in E; discriminate E]. exists r. split; [reflexivity|].
  destruct (scene_late r E) as (Hl & Es & Ed). intros d'' now c v d3 Hst Hs Hd Hrun. rewrite <-Es in Hs. rewrite <-Ed in Hd.
  exact (proj2 (@late_unknown_blocks_mailbox UtcLib UtcArith demo_sha scene_json braces_json demo_text UtcLaws UtcArithLaws 60000
    LimitProfile_default (scene_db 15) d'' (MkId 61) r now c v d3 
    (scene_reach 15) E Hl Hst Hs Hd Hrun)).
Defined.
