(* ===== verification/Fencing.v ===== *)
(** * Fencing: a lost lease is powerless in the whole store

    Over all histories of the store (Kernel.v): once a lease is spent, because a later
    one was issued or because its expiry was observed and sealed, no request that
    carries its epoch changes anything but the request ledger and a clock floor. *)
From S2P Require Import Prelude Scalars Session Text Authority Operation RecoveryTable Capacity Json Tool StoreApi StoreWire.
From S2P Require Import Approval Template Message OperationApi SqliteDb SqliteSession SessionLedger Ownership.
From S2P Require Import SqliteMailbox Tables SqliteOperation SqliteLaunch MailboxLedger Footprint OperationLedger.
From S2P Require Import OperationMail Participants Launches ToolApi EffectApi SqliteEffect SqliteTool SqliteResolve.
From S2P Require Import JournalFootprint JournalLedger Kernel Scenario.

(** The epoch is not ahead of the session's high-water mark, and the session's clock has
    passed the end of its lease, if it is still the lease of the session. *)
Definition spent (sid : SessionId) (e : FencingEpoch) (d : Db) : Prop :=
  exists c, db_sessions d !! sid = Some c /\ FencingEpoch_get e <= sc_epoch_high_water c /\
    forall h x, held c h e x -> Timestamp_le x (sc_time_floor c).
(** Staying spent. *)
Definition stays_spent (sid : SessionId) (e : FencingEpoch) (d d' : Db) : Prop := spent sid e d -> spent sid e d'.
#[global] Instance stays_spent_po sid e : PreOrder (stays_spent sid e).
Proof. split; [by intros d H|]. intros a b c H1 H2 H. auto. Qed.

(** The owner a request claims to come from, of the session it names or the session of
    the effect or invocation it names. *)
Definition request_owner (d : Db) (q : Request) : option (SessionId * RequestContext * FencingEpoch) :=
  match q with
  | RqEnqueue c => Some (eq_session_id c, eq_context c, eq_epoch c)
  | RqLease c => Some (ln_session_id c, ln_context c, ln_epoch c)
  | RqReport c => Some (td_session_id c, td_context c, td_epoch c)
  | RqRoot c => Some (cr_session_id c, cr_context c, cr_epoch c)
  | RqChild c => Some (cc_session_id c, cc_context c, cc_epoch c)
  | RqStart c => Some (so_session_id c, so_context c, so_epoch c)
  | RqMove c => Some (to_session_id c, to_context c, to_epoch c)
  | RqPrepare c => Some (pl_session_id c, pl_context c, pl_epoch c)
  | RqAttach c => Some (al_session_id c, al_context c, al_epoch c)
  | RqLaunch c => Some (tn_session_id c, tn_context c, tn_epoch c)
  | RqReserve c => Some (re_session_id c, re_context c, re_owner_epoch c)
  | RqEffect c => (fun row => (ef_session_id row, et_context c, et_owner_epoch c)) <$> db_effects d !! et_effect_request_id c
  | RqTakeover c => (fun row => (ef_session_id row, te_context c, te_owner_epoch c)) <$> db_effects d !! te_effect_request_id c
  | RqResolve c => Some (ra_session_id c, ra_context c, ra_owner_epoch c)
  | RqRegisterTool c => Some (rt_session_id c, rt_context c, rt_owner_epoch c)
  | RqConnect c => Some (cp_session_id c, cp_context c, cp_owner_epoch c)
  | RqReserveTool c => Some (ti_session_id (ri_invocation c), ri_context c, ri_owner_epoch c)
  | RqTool c => (fun row => (tc_session_id row, tt_context c, tt_owner_epoch c)) <$> db_tools d !! tt_invocation_id c
  | RqTemplate _ | RqOpen _ => None
  end.

(** Nothing is written but sessions and the ledger. *)
Definition refused (d d' : Db) : Prop := exists s v, d' = set_ledger (set_sessions d s) v.
Lemma refused_refl d : refused d d.
Proof. exists (db_sessions d), (db_ledger d). by destruct d. Qed.
Lemma refused_ledger d v : refused d (set_ledger d v).
Proof. exists (db_sessions d), v. by destruct d. Qed.

Section kernel.
Context {TL : TimeLib} {TA : TimeArith} {SH : Sha256} {JS : Json} {JR : JsonRaw} {UT : UuidText}.
Variable max_lease_millis : Z.
Variable limit_profile : LimitProfile.
Abbreviation kernel_step := (kernel_step max_lease_millis limit_profile).
Abbreviation reachable := (reachable max_lease_millis limit_profile).
Abbreviation serve := (serve max_lease_millis limit_profile).

Lemma spent_no_owner sid ctx e now d : spent sid e d -> ~ by_owner sid ctx e now d.
Proof.
  intros (c & Hc & _ & Hx) (c1 & Hc1 & c2 & x & Hc2 & Hh & Hlt). rewrite Hc in Hc1, Hc2. injection Hc1 as <-.
  injection Hc2 as <-. specialize (Hx _ _ Hh). eapply (Timestamp_lt_irrefl x), Timestamp_le_lt_trans; [|exact Hlt].
  eapply Timestamp_le_trans; [exact Hx|]. apply Timestamp_max_le_l.
Qed.

(** ** A request of someone who is not the owner *)

Lemma wp_stale {C A} `{!MutableRequest C} (c : C) sid ctx e act now d (Q : A -> Db -> Prop) (k : Tx A) :
  ~ by_owner sid ctx e now d ->
  wp (authorized ← authorize_launch sid ctx e act now;
      match authorized with Err error => finish_failure sid c error | Ok _ => k end) Q (refused d) d.
Proof. intros Hno. apply wp_auth; [intros; by do 2 eexists|]. by intros. Qed.
Lemma wp_replayed {A B} (m : Tx B) (f : B -> Tx A) d :
  within eq m -> (forall b, m d = Next b d -> wp (f b) (fun _ => refused d) (refused d) d) ->
  wp (m ≫= f) (fun _ => refused d) (refused d) d.
Proof. intros Hm Hf. apply wp_bind, wp_read; [done|apply refused_refl|done]. Qed.
Lemma wp_only_reads {A} (m : Tx A) d : within eq m -> wp m (fun _ => refused d) (refused d) d.
Proof. intros Hm. eapply wp_mono; [apply Hm|intros ? ? <-|intros ? <-]; apply refused_refl. Qed.

(** The session of a row that was read is the session its columns name. *)
Lemma entry_session id d c row e : db_effects d !! id = Some row -> decode_effect id c = Ok e ->
  db_effects d !! id = Some c -> ee_session_id e = ef_session_id row.
Proof. intros H1 [(_ & -> & _) _ _ _ _ _ _ _ _ _]%decode_effect_Ok H2. congruence. Qed.

(** Up to the prologue the journal and tool handlers only read. *)
#[local] Hint Resolve within_load_tool within_recorded_tool within_replay_registration within_aliased
  within_replay_connection within_validate_resolution : within.
#[local] Ltac not_owner Ho :=
  first [exact Ho | erewrite <-entry_session by eassumption; exact Ho
        | erewrite tool_session in Ho by eassumption; simplify_eq; exact Ho].
#[local] Ltac stale_reads Hno :=
  repeat lazymatch goal with
  | |- wp (abort _) _ _ _ => apply wp_abort
  | |- wp (let _ := _ in _) _ _ _ => cbv zeta
  | |- wp (enter_owned _ _ (rc_caller ?c) _ _ ≫= _) _ _ _ => apply wp_bind, wp_enter; intros ? ? _ Ho; destruct Hno; not_owner Ho
  | |- wp (enter_session _ _ (rc_caller ?c) _ _ ≫= _) _ _ _ => apply wp_bind, wp_enter_session; intros ? ? ? _ Ho; destruct Hno; not_owner Ho
  | |- wp (load_effect_in _ ≫= _) _ _ _ => apply wp_bind, wp_load_effect; [intros _|intros ? ? []]
  | |- wp (load_tool_invocation_in _ ≫= _) _ _ _ => apply wp_bind, wp_load_tool; [intros _|intros ? ? ? ? []]
  | |- wp (lift (ok_or _ (Some _)) ≫= _) _ _ _ => apply wp_bind, wp_lift; intros ? [= <-]
  | |- wp (lift (ok_or _ None) ≫= _) _ _ _ => apply wp_bind, wp_lift; intros ? [=]
  | |- wp (lift _ ≫= _) _ _ _ => apply wp_bind, wp_lift; intros ? _
  | |- wp (get ≫= _) _ _ _ => apply wp_bind, wp_get
  | |- wp (?m ≫= _) _ _ _ => apply wp_replayed; [solve [within_auto]|intros ? _]
  | |- wp (if ?b then _ else _) _ _ _ => destruct b
  | |- wp (match ?x with _ => _ end) _ _ _ => destruct x
  | |- wp _ _ _ _ => apply wp_only_reads; within_auto
  end.

Lemma stale_refused now q sid ctx e d : request_owner d q = Some (sid, ctx, e) -> ~ by_owner sid ctx e now d ->
  refused d (serve now q d).
Proof.
  intros Hq Hno. apply serve_wp; [|apply refused_refl].
  destruct q; try discriminate Hq; cbn [request_owner] in Hq; try apply fmap_Some in Hq as (row & Hrow & Hq);
    simplify_eq; cbn [handler]; refine (wp_discard _ (fun _ => refused d) _ _ _ _ (fun _ _ H => H) (fun _ H => H)).
  - unfold enqueue_message. apply wp_replayed; [by apply within_replay_message, _|]. intros [o|] _; [|by apply wp_stale].
    apply wp_only_reads. within_auto.
  - unfold lease_next_message. apply wp_replayed; [by apply within_replay_message, _|].
    intros [o|] _; [apply wp_only_reads; within_auto|]. destruct (duration_lease _); [by apply wp_stale|].
    apply wp_fail. apply refused_ledger.
  - unfold transition_message_delivery. apply wp_replayed; [by apply within_replay_message, _|].
    intros [o|] _; [|by apply wp_stale]. apply wp_only_reads. within_auto.
  - unfold create_root_participant. apply wp_replayed; [by apply within_replay_participant, _|].
    intros [o|] _; [|by apply wp_stale]. apply wp_only_reads. unfold replayed_participant. within_auto.
  - unfold create_child_participant. apply wp_replayed; [by apply within_replay_participant, _|].
    intros [o|] _; [|by apply wp_stale]. apply wp_only_reads. unfold replayed_participant. within_auto.
  - unfold start_operation. apply wp_replayed; [by apply within_replay_operation, _|].
    intros [o|] _; [|by apply wp_stale]. apply wp_only_reads. unfold replayed_start. within_auto.
  - unfold transition_operation. apply wp_replayed; [by apply within_replay_operation, _|].
    intros [o|] _; [|by apply wp_stale]. apply wp_only_reads. within_auto.
  - unfold prepare_launch. apply wp_replayed; [by apply within_replay_launch, _|].
    intros [o|] _; [|by apply wp_stale]. apply wp_only_reads. within_auto.
  - unfold attach_launch, mutate_launch. apply wp_replayed; [by apply within_replay_launch, _|].
    intros [o|] _; [|by apply wp_stale]. apply wp_only_reads. within_auto.
  - unfold transition_launch, mutate_launch. apply wp_replayed; [by apply within_replay_launch, _|].
    intros [o|] _; [|by apply wp_stale]. apply wp_only_reads. within_auto.
  - unfold reserve_effect. stale_reads Hno.
  - unfold transition_effect. stale_reads Hno.
  - unfold takeover_effect. stale_reads Hno.
  - unfold resolve_authorized_effect. stale_reads Hno.
  - unfold register_tool. stale_reads Hno.
  - unfold connect_tool_provider. stale_reads Hno.
  - unfold reserve_tool_invocation. stale_reads Hno.
  - unfold transition_tool. stale_reads Hno.
Qed.

(** ** Spent leases stay spent *)

Lemma spent_kept sid e d d' : db_sessions d' = db_sessions d -> stays_spent sid e d d'.
Proof. intros E (c & Hc & H). exists c. rewrite E. done. Qed.

Lemma spent_row sid e c t : FencingEpoch_get e <= sc_epoch_high_water c ->
  (forall h x, held c h e x -> Timestamp_le x (sc_time_floor c)) -> Timestamp_le (sc_time_floor c) t ->
  forall d, db_sessions d !! sid = Some (cols_set_floor t c) -> spent sid e d.
Proof.
  intros He Hx Ht d Hd. eexists. split; [exact Hd|]. split; [done|]. intros h x Hh.
  eapply Timestamp_le_trans; [by apply (Hx h)|exact Ht].
Qed.

Lemma spent_advances sid e now : advances (stays_spent sid e) now.
Proof.
  intros d sid' c Hc (c0 & Hc0 & He & Hx). destruct (decide (sid = sid')) as [<-|Hne].
  - rewrite Hc in Hc0. injection Hc0 as <-. eapply spent_row; [exact He|exact Hx| |apply lookup_insert_eq].
    apply Timestamp_max_le_l.
  - exists c0. cbn. rewrite lookup_insert_ne by done. done.
Qed.
Lemma spent_opens sid e now q : opens (stays_spent sid e) now q.
Proof.
  intros d key Hn (c & Hc & H). exists c. cbn. rewrite lookup_insert_ne by congruence. done.
Qed.

Lemma spent_session sid e d l d' : step max_lease_millis d l d' -> stays_spent sid e d d'.
Proof.
  intros Hst (c & Hc & He & Hx). apply step_change in Hst as [->|(now & cmd & r & _ & _ & Hch)]; [by exists c|].
  destruct (change_row _ _ _ _ _ _ sid Hch) as [E|[_ Hrow]]; [exists c; by rewrite E|]. rewrite Hc in Hrow.
  inversion Hrow as [o|cols err Hcl _ E1 E2|q key Hq E1 E2|cols cols' ev rep p t Hrc _ E1 E2]; subst.
  - exists c. done.
  - eapply spent_row; [exact He|exact Hx|apply Timestamp_max_le_l|by symmetry].
  - assert (Ht : Timestamp_le (sc_time_floor c) t) by apply Timestamp_max_le_l. exists cols'. split; [done|].
    destruct Hrc as [q x s Hh Hlt|q x e' Hfree _ _ He'|q x x' Hh Hlt _ _|q x Hh Hlt]; cbn in *.
    + split; [done|]. intros h y (Hy & _). discriminate Hy.
    + split; [lia|]. intros h y (_ & Hy & _). cbn in Hy. injection Hy as Hy. lia.
    + split; [done|]. intros h y (Hy & Hye & _). cbn in Hy, Hye. exfalso. destruct Hh as (H1 & H2 & H3). cbn in H1, H2, H3.
      assert (Hh : held c h e x) by (split_and!; [done|congruence|done]). specialize (Hx _ _ Hh).
      eapply (Timestamp_lt_irrefl x), Timestamp_le_lt_trans; [|exact Hlt]. by eapply Timestamp_le_trans.
    + split; [done|]. intros h y (Hy & _). discriminate Hy.
Qed.

Lemma spent_step sid e d d' : kernel_step d d' -> stays_spent sid e d d'.
Proof.
  intros Hst.
  destruct Hst as [d l d' Hst|now q d Hn Hq|sid' host e' t d Ht|sid' rid mid src dst corr env now t d Ht Hle|rid o now d|d d' Hs].
  - by eapply spent_session.
  - apply serve_wp; [|reflexivity]. apply handler_within; try (intros ? ?; by apply spent_kept);
      [apply _|apply spent_advances|..]; try (destruct q; try done; unfold writes_tools; split_and?; intros ? ?; by apply spent_kept).
    + intros c _. split; [apply spent_opens|]. intros ? ? ? _. by apply spent_kept.
    + intros t _ ? ? ? _. by apply spent_kept.
  - eapply run_wp; [apply (seal_within (stays_spent sid e)), spent_advances|done..].
  - eapply run_wp; [apply (insert_hierarchy_within (stays_spent sid e)); intros ? ?; by apply spent_kept|done..].
  - eapply run_wp; [apply (retire_within (stays_spent sid e)); intros ? ?; by apply spent_kept|done..].
  - destruct Hs as (_ & _ & Es & _). by apply spent_kept.
Qed.
Lemma spent_steps sid e d d' : rtc kernel_step d d' -> stays_spent sid e d d'.
Proof. induction 1 as [|d d1 d2 Hs _ IH]; [reflexivity|]. etrans; [by apply spent_step|done]. Qed.

(** A later lease was issued. *)
Lemma superseded sid e c d : all_rows cols_wf d -> db_sessions d !! sid = Some c ->
  FencingEpoch_get e < sc_epoch_high_water c -> spent sid e d.
Proof.
  intros Hr Hc Hlt. exists c. split; [done|]. split; [lia|]. intros h x (Hh & He & _).
  pose proof (cw_owner _ _ (Hr _ _ Hc)) as Ho. unfold owner_wf in Ho. rewrite Hh in Ho. destruct Ho as (_ & Ho & _).
  rewrite Ho in He. injection He as He. lia.
Qed.

(** ** The watchdog *)

Lemma seal_run sid host e t d c row : db_sessions d !! sid = Some c -> decode_session sid c = Ok row ->
  run (seal_expiry sid host e t) d =
    if bool_decide (ss_status (sr_snapshot row) = Closed) then (d, Err (SessionClosed sid))
    else (set_sessions d (<[sid := cols_set_floor (Timestamp_max (sc_time_floor c) t) c]> (db_sessions d)),
          Ok (require_owner row host e (Timestamp_max (sc_time_floor c) t))).
Proof.
  intros Hc Hrow. destruct (decode_session_Ok _ _ _ Hrow) as (_ & _ & _ & _ & _ & _ & _ & _ & _ & _ & _ & Hfl).
  unfold run, seal_expiry, require_open_session, load_session_in, advance_time_floor, update_session.
  unfold mbind, tx_bind, mret, tx_ret, get, put, lift, abort. rewrite Hc, Hrow. cbn.
  case_bool_decide; [done|]. cbn. rewrite Hc, Hfl. done.
Qed.

Context {TLaws : TimeLaws} {TALaws : TimeArithLaws}.

(** An observed expiry that was sealed. *)
Lemma sealed_spent sid host e t d r s0 e0 : all_rows cols_wf d -> (run (seal_expiry sid host e t) d).2 = r ->
  (match r with Ok v => v | Err err => Err err end) = Err (OwnershipExpired s0 e0) ->
  spent sid e (run (seal_expiry sid host e t) d).1.
Proof.
  intros Hrows Hr. destruct (db_sessions d !! sid) as [c|] eqn:Hc.
  - destruct (decode_session_wf sid c (Hrows _ _ Hc)) as [row Hrow]. rewrite (seal_run sid host e t d c row Hc Hrow) in *.
    case_bool_decide; cbn in Hr; subst r; [done|]. cbn [fst]. intros Hexp.
    destruct (decode_session_Ok _ _ _ Hrow) as (_ & _ & _ & _ & _ & _ & _ & _ & _ & Ho & _). unfold require_owner in Hexp.
    destruct (sr_owner row) as [l|]; [|done]. destruct Ho as [_ Hheld]. case_if_in Hexp as E1; [done|].
    case_if_in Hexp as E2; [|done]. bool_norm. unfold is_effective_at in E2. ts_norm.
    eexists. split; [apply lookup_insert_eq|]. cbn [cols_set_floor sc_epoch_high_water sc_time_floor].
    destruct Hheld as (HA & HB & HC). split.
    + pose proof (cw_owner _ _ (Hrows _ _ Hc)) as Hw. unfold owner_wf in Hw. rewrite HA in Hw.
      destruct Hw as (_ & Hw & _). rewrite Hw in HB. injection HB as HB. subst e. lia.
    + intros h x (_ & _ & Hx). cbn in Hx. congruence.
  - unfold run, seal_expiry, require_open_session, load_session_in, mbind, tx_bind, get, lift in Hr. rewrite Hc in Hr.
    cbn in Hr. by subst r.
Qed.

Lemma watchdog_spent now sid host e floors read d floors' d1 s0 e0 : all_rows cols_wf read -> all_rows cols_wf d ->
  validate_launch_authority now sid host e floors read d = (floors', d1, Err (OwnershipExpired s0 e0)) -> spent sid e d1.
Proof.
  intros Hread Hrows. unfold validate_launch_authority, run at 1, load_session_in, mbind, tx_bind, get, lift.
  destruct (db_sessions read !! sid) as [c|] eqn:Hc; [|done].
  destruct (decode_session_wf sid c (Hread _ _ Hc)) as [row ->]. cbn [mret tx_ret]. unfold mret, tx_ret. cbn [snd].
  case_bool_decide; [done|]. destruct (require_owner row host e _) as [[]|err]; [done|].
  destruct err; try done. intros [= <- <- Hr]. by eapply sealed_spent.
Qed.

(** ** Theorems *)


(** an expiry the watchdog has reported is final: when it answers that a lease has
    expired, the observation is durable, and no request under that lease ever has an
    effect again, even if the wall clock is set back. *)
Theorem observed_expiry_is_final now sid host e floors read d floors' d1 s0 e0 d' now' q ctx :
  reachable read -> rtc kernel_step read d ->
  validate_launch_authority now sid host e floors read d = (floors', d1, Err (OwnershipExpired s0 e0)) ->
  rtc kernel_step d1 d' -> request_owner d' q = Some (sid, ctx, e) ->
  refused d' (serve now' q d').
Proof.
  intros Hread Hst Hv Hst' Hq. eapply stale_refused; [exact Hq|]. apply spent_no_owner. eapply spent_steps; [exact Hst'|].
  eapply watchdog_spent; [by apply (reachable_rows max_lease_millis limit_profile)| |exact Hv].
  apply (reachable_rows max_lease_millis limit_profile). by eapply reachable_steps.
Qed.
End kernel.

(** ** Witnesses *)

Definition scene_serve := @serve UtcLib UtcArith demo_sha scene_json braces_json demo_text 60000 LimitProfile_default.

Lemma scene_high_water c : db_sessions (scene_db 18) !! demo_session = Some c -> sc_epoch_high_water c = 2.
Proof. intros E. vm_compute in E. injection E as <-. reflexivity. Qed.

(** The watchdog looks at the session long after the lease has ended. *)
Abbreviation scene_watch := (@validate_launch_authority UtcLib (demo_at 200) demo_session (MkId 50) scene_epoch ∅
  (scene_db 17) (scene_db 17)).
Lemma scene_watched : exists floors d1, scene_watch = (floors, d1, Err (OwnershipExpired demo_session scene_epoch)).
Proof.
  assert (H : scene_watch.2 = Err (OwnershipExpired demo_session scene_epoch)) by (vm_compute; reflexivity).
  revert H. destruct scene_watch as [[floors d1] r]. cbn. intros ->. eauto.
Qed.
Lemma observed_expiry_is_final_witness : exists floors d1,
  scene_watch = (floors, d1, Err (OwnershipExpired demo_session scene_epoch)) /\
  refused d1 (scene_serve (demo_at 100) (RqEnqueue (scene_send 20 64)) d1).
Proof.
  destruct scene_watched as (floors & d1 & E). exists floors, d1. split; [exact E|].
  exact (@observed_expiry_is_final UtcLib UtcArith demo_sha scene_json braces_json demo_text 60000 LimitProfile_default
    UtcLaws UtcArithLaws (demo_at 200) demo_session (MkId 50) scene_epoch ∅ (scene_db 17) (scene_db 17) floors d1
    demo_session scene_epoch d1 (demo_at 100) (RqEnqueue (scene_send 20 64)) (demo_context 20 50) (scene_reach 17)
    (rtc_refl _ _) E (rtc_refl _ _) eq_refl).
Defined.
