(* ===== verification/Operations.v ===== *)
(** * Operations: theorems about operations, participants and launches

    Over all histories of the store (Kernel.v): a participant has at most one unfinished
    operation, operations and launches follow their automata and end for good, the input
    of an operation can be read back as it was started, and the participants of every
    session form one bounded tree. *)
From S2P Require Import Prelude Scalars Session Text Authority Operation RecoveryTable Capacity Json StoreApi StoreWire.
From S2P Require Import Approval Template Message OperationApi SqliteDb SqliteSession SessionLedger Ownership.
From S2P Require Import SqliteMailbox Tables SqliteOperation SqliteLaunch MailboxLedger Footprint OperationLedger.
From S2P Require Import OperationMail Participants Launches Kernel Scenario.

(** ** One row over time *)

(** What never changes about an operation. *)
Definition op_identity (c : OperationCols) :=
  (oc_session_id c, oc_participant_id c, oc_start_request_id c, oc_input_message_id c, oc_input_digest c,
   oc_input_payload c, oc_created_at c).
Definition op_legal (s s' : OperationState) : Prop := exists a, next_operation_state s a = Some s'.
(** One operation, earlier and later. *)
Record op_later (c c' : OperationCols) (s s' : OperationState) : Prop := {
  ol_same : op_identity c' = op_identity c;
  ol_path : rtc op_legal s s';
  ol_revision : oc_revision c <= oc_revision c';
  ol_updated : Timestamp_le (oc_updated_at c) (oc_updated_at c');
  ol_final : is_terminal s = true -> c' = c;
}.

Lemma op_later_refl c s : op_later c c s s.
Proof. split; [done|apply rtc_refl|lia|apply Timestamp_le_refl|done]. Qed.
Lemma terminal_stuck s s' : is_terminal s = true -> rtc op_legal s s' -> s' = s.
Proof. intros Ht. inversion_clear 1 as [|? s1 ? [a Ha] _]; [done|]. by rewrite (moved_was_open _ _ _ Ha) in Ht. Qed.

Section history.
Context {TL : TimeLib} {TA : TimeArith} {SH : Sha256} {JS : Json} {JR : JsonRaw} {UT : UuidText}.
Context {TLaws : TimeLaws} {TALaws : TimeArithLaws}.
Variable max_lease_millis : Z.
Variable limit_profile : LimitProfile.
Abbreviation kernel_step := (kernel_step max_lease_millis limit_profile).
Abbreviation reachable := (reachable max_lease_millis limit_profile).
Abbreviation serve := (serve max_lease_millis limit_profile).

Lemma op_change_later d d' id c s : ops_ok d -> op_change Timestamp_wf d d' ->
  db_operations d !! id = Some c -> op_row_wf s c ->
  exists c' s', db_operations d' !! id = Some c' /\ op_row_wf s' c' /\ op_later c c' s s'.
Proof.
  intros Hok Hc Hid Hw.
  assert (Hsame : db_operations d' !! id = Some c ->
    exists c' s', db_operations d' !! id = Some c' /\ op_row_wf s' c' /\ op_later c c' s s').
  { intros. exists c, s. split_and!; [done..|apply op_later_refl]. }
  destruct Hc as [E|o payload t Hnew _ _ _ _ E|id0 c0 o a next w outcome rev now Hnow [M1 M2 M3 M4 M5 [M6 M6'] M7 M8]].
  - apply Hsame. by rewrite E.
  - apply Hsame. rewrite E. rewrite lookup_insert_ne by congruence. done.
  - destruct (decide (id0 = id)) as [->|Hne]; [|apply Hsame; rewrite M8; by rewrite lookup_insert_ne].
    rewrite Hid in M1. injection M1 as <-. apply (op_decoded_state _ _ _ _ Hw) in M2 as ->. cbn in M3, M6, M8.
    eexists _, next. split; [rewrite M8; apply lookup_insert_eq|]. split; [by eapply moved_row_wf|].
    apply Revision_next_value in M6 as ->. split; cbn; try done.
    + apply rtc_once. by exists a.
    + lia.
    + apply Timestamp_max_le_r.
    + intros Ht. by rewrite (moved_was_open _ _ _ M3) in Ht.
Qed.

Lemma op_later_trans c1 c2 c3 s1 s2 s3 : op_later c1 c2 s1 s2 -> op_later c2 c3 s2 s3 -> op_later c1 c3 s1 s3.
Proof.
  intros [A1 A2 A3 A4 A5] [B1 B2 B3 B4 B5]. split; [congruence|by etrans|lia|by eapply Timestamp_le_trans|].
  intros Ht. rewrite (terminal_stuck _ _ Ht A2) in B5. rewrite B5, A5; done.
Qed.

Lemma operation_later d d' id c s : reachable d -> rtc kernel_step d d' -> db_operations d !! id = Some c -> op_row_wf s c ->
  exists c' s', db_operations d' !! id = Some c' /\ op_row_wf s' c' /\ op_later c c' s s'.
Proof.
  intros Hreach Hst Hc Hw. apply (kernel_steps_ind _ _ (fun d' => exists c' s', db_operations d' !! id = Some c' /\
    op_row_wf s' c' /\ op_later c c' s s') _ _ Hreach Hst).
  - exists c, s. split_and!; [done..|apply op_later_refl].
  - intros d1 d2 _ Hok Hk (c1 & s1 & Hc1 & Hw1 & Hl1).
    destruct (op_change_later _ _ _ _ _ (ko_ops _ Hok) (kc_ops _ _ Hk) Hc1 Hw1) as (c2 & s2 & Hc2 & Hw2 & Hl2).
    exists c2, s2. split_and!; [done..|by eapply op_later_trans].
Qed.

Lemma load_operation_run d id c s : db_operations d !! id = Some c -> op_row_wf s c ->
  load_operation id d = Next (row_snapshot id s c) d.
Proof.
  intros Hc Hw. unfold load_operation, load_operation_in, mbind, tx_bind, get, lift, mret, tx_ret.
  rewrite Hc, (decode_operation_wf id s c Hw). done.
Qed.

(** C8: at any time of any history a participant has at most one operation that has not
    ended, and every stored operation decodes, belongs to a participant of its session
    and is dated no later than the session's clock. *)
Theorem one_unfinished_operation d : reachable d ->
  (forall id1 c1 id2 c2 p, db_operations d !! id1 = Some c1 -> db_operations d !! id2 = Some c2 ->
     unfinished p c1 = true -> unfinished p c2 = true -> id1 = id2) /\
  (forall id c, db_operations d !! id = Some c ->
     (exists s, load_operation id d = Next (row_snapshot id s c) d /\
        is_terminal s = negb (unfinished (oc_participant_id c) c)) /\
     (exists p, db_participants d !! oc_participant_id c = Some p /\ pc_session_id p = oc_session_id c) /\
     (exists t, floor_of d (oc_session_id c) = Some t /\ Timestamp_le (oc_updated_at c) t)).
Proof.
  intros Hreach. destruct (ko_ops _ (reachable_ok _ _ _ Hreach)) as [H1 H2 H3 H4]. split; [exact H4|].
  intros id c Hc. split; [|split; [|by apply (H3 id)]].
  - destruct (H1 _ _ Hc) as [s Hs]. exists s. split; [by apply load_operation_run|].
    pose proof (unfinished_open s c (oc_participant_id c) Hs) as Hu. destruct (unfinished _ c), (is_terminal s); cbn; intuition congruence.
  - pose proof (H2 _ _ Hc) as Hp. destruct (db_participants d !! _) as [p|]; [|done]. exists p. by injection Hp.
Qed.


(** an operation moves only when the current owner of its session asks for it, from
    the revision the owner has seen, along the transition table, with the outcome that
    belongs to the new state; and a report of the driver must name an accepted message
    about this operation, except for a failure before it ran. *)
Theorem operation_moves_fenced now c d o d' : Timestamp_wf now ->
  transition_operation limit_profile now c d = Next (Applied o) d' ->
  by_owner (to_session_id c) (to_context c) (to_epoch c) now d /\ move_answer c d o.
Proof.
  intros Hnow Hrun. pose proof (transition_operation_call limit_profile now c d Hnow) as Hwp.
  unfold wp in Hwp. rewrite Hrun in Hwp. destruct Hwp as (_ & Ho & Hm). split; [by apply Ho|by apply Hm].
Qed.

(** ** Reading an input back *)

Lemma decode_template_schema id c r t : decode_template id c = Ok r -> Template_try_from r = Ok t ->
  schema_wf (tp_input_schema t).
Proof.
  unfold decode_template. intros H Ht. apply bind_Ok in H as (r' & Hr & H). case_if_in H as E; [done|]. injection H as ->.
  apply map_err_Ok in Hr. unfold TemplateRecord_deserialize in Hr. apply bind_Ok in Hr as (t0 & Ht0 & [= <-]).
  unfold into_template in Ht0. apply bind_Ok in Ht0 as (? & _ & Ht0). apply bind_Ok in Ht0 as (? & _ & Ht0).
  apply bind_Ok in Ht0 as (? & _ & Ht0). apply bind_Ok in Ht0 as (? & _ & Ht0). apply bind_Ok in Ht0 as (? & _ & Ht0).
  apply bind_Ok in Ht0 as (fields & _ & Ht0). apply bind_Ok in Ht0 as (schema & Hs & Ht0).
  apply bind_Ok in Ht0 as (? & _ & Ht0). apply bind_Ok in Ht0 as (? & _ & Ht0).
  apply InputSchema_new_wf in Hs.
  unfold restore_registered_with_authority in Ht0. case_if_in Ht0 as E1; [|done]. injection Ht0 as <-.
  unfold Template_try_from, restore_registered_with_authority in Ht. case_if_in Ht as E2; [|done]. by injection Ht as <-.
Qed.

(** Participants and templates are kept. *)
Lemma participant_kept d d' id c : reachable d -> rtc kernel_step d d' -> db_participants d !! id = Some c ->
  db_participants d' !! id = Some c.
Proof.
  intros Hreach Hst Hc. apply (kernel_steps_ind _ _ (fun d' => db_participants d' !! id = Some c) _ _ Hreach Hst); [done|].
  intros d1 d2 _ _ Hk H1. by eapply forest_grows; [apply Hk|].
Qed.
Lemma template_kept d d' id c : reachable d -> rtc kernel_step d d' -> db_templates d !! id = Some c ->
  db_templates d' !! id = Some c.
Proof.
  intros Hreach Hst Hc. apply (kernel_steps_ind _ _ (fun d' => db_templates d' !! id = Some c) _ _ Hreach Hst); [done|].
  intros d1 d2 _ _ Hk H1. by apply Hk.
Qed.

Lemma load_input_run d id c s p tc template registered v :
  db_operations d !! id = Some c -> op_row_wf s c -> db_participants d !! oc_participant_id c = Some p ->
  (exists q, decode_participant (oc_participant_id c) p = Ok q) -> db_templates d !! pc_template_id p = Some tc ->
  decode_template (pc_template_id p) tc = Ok template -> tr_compatibility template = pc_template_compatibility p ->
  Template_try_from template = Ok registered -> validate_input registered (oc_input_payload c) = Ok v ->
  TaskInput_as_bytes v = oc_input_payload c -> oc_input_digest c = input_digest (oc_input_payload c) ->
  llen (oc_input_payload c) <= MAX_OPERATION_INPUT_BYTES ->
  load_operation_input id d = Next (MkBoundedBytes (oc_input_payload c)) d.
Proof.
  intros Hc Hw Hp [q Hq] Htc Ht Hcomp Hreg Hv Eb Ed Hl. destruct (decode_participant_Ok _ _ _ Hq) as (Eq & _).
  unfold load_operation_input, load_operation_in, load_participant_in, load_template_in, mbind, tx_bind, get, lift, mret, tx_ret.
  rewrite Hc, (decode_operation_wf id s c Hw). cbn [ok_or row_snapshot on_participant_id]. rewrite Hp, Hq.
  cbn [ok_or]. rewrite Eq. cbn [ps_template_id ps_template_compatibility]. rewrite Htc, Ht. cbn [ok_or].
  unfold neqb, eqb. rewrite (bool_decide_eq_true_2 (pc_template_compatibility p = tr_compatibility template)) by done.
  cbn [negb]. unfold corrupt. rewrite Hreg. cbn [map_err]. rewrite Hc. cbn [ok_or]. rewrite Hv. cbn [map_err].
  rewrite Eb. cbn [on_input_digest row_snapshot]. rewrite Ed.
  rewrite !bool_decide_eq_true_2 by done. cbn [negb orb]. unfold BoundedBytes_new.
  rewrite (proj2 (Z.ltb_ge _ _) Hl). done.
Qed.

Context {JRL : JsonRawLaws}.

(** C33: once an operation has been started, its input can be read back at any later time
    of any history, byte for byte, whatever happened to the operation since. *)
Theorem operation_input_durable now c d o d1 d' schema raw : reachable d -> Timestamp_wf now ->
  schema_wf schema -> InputSchema_validate schema raw = Ok (so_input c) ->
  start_operation limit_profile now c d = Next (Applied o) d1 -> rtc kernel_step d1 d' ->
  load_operation_input (so_operation_id c) d' = Next (MkBoundedBytes (TaskInput_as_bytes (so_input c))) d'.
Proof.
  intros Hreach Hnow Hsch Hin Hrun Hst. pose proof (start_call limit_profile now c d) as Hwp. unfold wp in Hwp.
  rewrite Hrun in Hwp. destruct Hwp as (_ & _ & Hans).
  destruct (Hans o eq_refl) as (Eid & Ep & _ & Edig & (t & _ & Hfl & Hrow) & p & template & registered & Hp & Eps & Hq & (tc & Htc & Ht) & Hcomp & Hreg & Hval).
  assert (Hstep : kernel_step d d1).
  { replace d1 with (serve now (RqStart c) d); [by apply ks_request|].
    unfold Kernel.serve, run. cbn [handler]. unfold discard, mbind, tx_bind. by rewrite Hrun. }
  assert (Hreach1 : reachable d1) by (eapply reachable_steps; [exact Hreach|by apply rtc_once]).
  assert (Hst' : rtc kernel_step d d') by (by eapply rtc_l). rewrite Eid in Hrow.
  destruct (oo_rows _ (ko_ops _ (reachable_ok _ _ _ Hreach1)) _ _ Hrow) as [s Hs].
  destruct (operation_later _ _ _ _ _ Hreach1 Hst Hrow Hs) as (c' & s' & Hc' & Hw' & [Hsame _ _ _ _]).
  injection Hsame as _ Epart _ _ Edig' Epay _. rewrite Ep in Epart. rewrite Edig in Edig'.
  destruct (validate_input registered (TaskInput_as_bytes (so_input c))) as [v|] eqn:Ev; [|done].
  assert (v = so_input c) as ->
    by exact (validate_canonical schema (tp_input_schema registered) raw _ _ Hsch (decode_template_schema _ _ _ _ Ht Hreg) Hin Ev).
  rewrite <-Epay. eapply load_input_run with (p := p) (v := so_input c); rewrite ?Epart, ?Epay; try done.
  - exact (participant_kept _ _ _ _ Hreach Hst' Hp).
  - exact (template_kept _ _ _ _ Hreach Hst' Htc).
  - apply (validate_Ok _ _ _ Hsch) in Hin as (_ & r & ob & _ & _ & _ & _ & Hl). exact Hl.
Qed.

(** ** Participants *)


(** ** Launches *)

Definition launch_legal (s s' : LaunchState) : Prop :=
  valid_launch_transition s s' = true \/ s = LPrepared /\ s' = LAttached.
(** One launch attempt, earlier and later. *)
Record launch_later (c c' : LaunchCols) (s s' : LaunchState) : Prop := {
  ll_same : launch_identity c' = launch_identity c;
  ll_path : rtc launch_legal s s';
  ll_revision : la_revision c <= la_revision c';
  ll_instance : forall i, la_instance_id c = Some i -> la_instance_id c' = Some i /\ la_evidence c' = la_evidence c;
  ll_final : s = LStopped -> c' = c;
}.
Lemma launch_later_refl c s : launch_later c c s s.
Proof. split; [done|apply rtc_refl|lia|done|done]. Qed.
Lemma stopped_stuck s' : rtc launch_legal LStopped s' -> s' = LStopped.
Proof. inversion_clear 1 as [|? s1 ? [Hv|[Hv _]] _]; [done|by destruct s1|done]. Qed.
Lemma launch_later_trans c1 c2 c3 s1 s2 s3 : launch_later c1 c2 s1 s2 -> launch_later c2 c3 s2 s3 -> launch_later c1 c3 s1 s3.
Proof.
  intros [A1 A2 A3 A4 A5] [B1 B2 B3 B4 B5]. split; [congruence|by etrans|lia|..].
  - intros i Hi. destruct (A4 _ Hi) as [Hi2 He2]. destruct (B4 _ Hi2) as [Hi3 He3]. split; congruence.
  - intros ->. apply stopped_stuck in A2 as ->. rewrite B5, A5; done.
Qed.

Lemma launch_change_later d d' id c s : launches_ok d -> launch_change d d' -> db_launches d !! id = Some c -> launch_row_wf s c ->
  exists c' s', db_launches d' !! id = Some c' /\ launch_row_wf s' c' /\ launch_later c c' s s'.
Proof.
  intros Hok Hc Hid Hw.
  assert (Hsame : db_launches d' !! id = Some c ->
    exists c' s', db_launches d' !! id = Some c' /\ launch_row_wf s' c' /\ launch_later c c' s s').
  { intros. exists c, s. split_and!; [done..|apply launch_later_refl]. }
  destruct Hc as [E|id0 c0 e Hnew _ _ _ _ _ _ _ _ _ E|id0 c0 c' s0 s' Hm].
  - apply Hsame. by rewrite E.
  - apply Hsame. rewrite E. rewrite lookup_insert_ne by congruence. done.
  - pose proof (launch_move_wf _ _ _ _ _ _ _ Hm) as Hw'. destruct Hm as [M1 [M2 M2'] M3 [M4 _] M5 M6].
    destruct (decide (id0 = id)) as [->|Hne]; [|apply Hsame; rewrite M6; by rewrite lookup_insert_ne].
    rewrite Hid in M1. injection M1 as <-.
    assert (s0 = s) as -> by (apply launch_name_inj; rewrite <-M2; apply Hw).
    exists c', s'. split; [rewrite M6; apply lookup_insert_eq|]. split; [apply Hw'; by exists s|].
    destruct M5 as [i e A B C D E|a b A B C D E]; split; try done; try lia.
    + apply rtc_once. by right.
    + intros j Hj. congruence.
    + apply rtc_once. by left.
    + intros j Hj. split; congruence.
    + intros ->. by destruct b.
Qed.

(** over any history a launch attempt keeps its session, owner epoch, participant,
    driver and credentials, moves only along the launch automaton, keeps the instance and
    the process evidence it was attached to, which no other attempt ever has, and never
    changes once it has stopped; and every stored attempt decodes. *)
Theorem launch_history d d' id c : reachable d -> rtc kernel_step d d' -> db_launches d !! id = Some c ->
  exists c' s s' l, db_launches d' !! id = Some c' /\ decode_launch id c' = Ok l /\ lu_state l = s' /\
    la_state c = launch_state_name s /\ launch_later c c' s s' /\
    forall id2 c2 i, db_launches d' !! id2 = Some c2 -> la_instance_id c' = Some i -> la_instance_id c2 = Some i -> id2 = id.
Proof.
  intros Hreach Hst Hc. pose proof (ko_launches _ (reachable_ok _ _ _ Hreach)) as Hok.
  destruct (lo_rows _ Hok _ _ Hc) as [s Hs].
  assert (Hl : exists c' s', db_launches d' !! id = Some c' /\ launch_row_wf s' c' /\ launch_later c c' s s').
  { apply (kernel_steps_ind _ _ (fun d' => exists c' s', db_launches d' !! id = Some c' /\ launch_row_wf s' c' /\
      launch_later c c' s s') _ _ Hreach Hst).
    - exists c, s. split_and!; [done..|apply launch_later_refl].
    - intros d1 d2 _ Hok1 Hk (c1 & s1 & Hc1 & Hw1 & Hl1).
      destruct (launch_change_later _ _ _ _ _ (ko_launches _ Hok1) (kc_launches _ _ Hk) Hc1 Hw1) as (c2 & s2 & Hc2 & Hw2 & Hl2).
      exists c2, s2. split_and!; [done..|by eapply launch_later_trans]. }
  destruct Hl as (c' & s' & Hc' & Hw' & Hl). destruct (decode_launch_wf id _ _ Hw') as (l & Hdec & Hls).
  exists c', s, s', l. split_and!; [done..|apply Hs|done|]. intros id2 c2 i H2 I1 I2.
  assert (Hr' : reachable d') by by eapply reachable_steps.
  by eapply (lo_instances _ (ko_launches _ (reachable_ok _ _ _ Hr'))).
Qed.
End history.

(** ** Witnesses *)

Lemma one_unfinished_operation_witness :
  (forall id c, db_operations (scene_db 16) !! id = Some c -> unfinished (MkId 12) c = true -> id = MkId 31) /\
  exists o, @load_operation UtcLib (MkId 31) (scene_db 16) = Next o (scene_db 16).
Proof.
  destruct (@one_unfinished_operation UtcLib UtcArith demo_sha scene_json braces_json demo_text UtcLaws UtcArithLaws 60000
    LimitProfile_default (scene_db 16) (scene_reach 16)) as [H1 H2].
  destruct (db_operations (scene_db 16) !! MkId 31) as [c1|] eqn:E1; [|vm_compute in E1; discriminate E1]. split.
  - intros id c Hc Hu. apply (H1 id c (MkId 31) c1 (MkId 12) Hc E1 Hu). vm_compute in E1. injection E1 as <-. reflexivity.
  - destruct (H2 _ _ E1) as [(s & Hs & _) _]. eexists. exact Hs.
Defined.


Lemma scene_move_run : exists o d', @transition_operation UtcLib demo_sha scene_json demo_text LimitProfile_default
  (demo_at 100) (scene_move 9 31 1 BeginStart None None) (scene_db 9) = Next (Applied o) d'.
Proof. apply applied_answer. vm_compute. reflexivity. Qed.
Lemma operation_moves_fenced_witness : exists o, move_answer (scene_move 9 31 1 BeginStart None None) (scene_db 9) o.
Proof.
  destruct scene_move_run as (o & d' & Hrun). exists o.
  exact (proj2 (@operation_moves_fenced UtcLib demo_sha scene_json demo_text LimitProfile_default
    (demo_at 100) (scene_move 9 31 1 BeginStart None None) (scene_db 9) o d' (demo_at_wf 100 eq_refl) Hrun)).
Defined.

Lemma scene_start_run : exists o d', @start_operation UtcLib demo_sha scene_json braces_json demo_text LimitProfile_default
  (demo_at 100) (scene_start 5 31 12 60) (scene_db 5) = Next (Applied o) d'.
Proof. apply applied_answer. vm_compute. reflexivity. Qed.
Lemma operation_input_durable_witness : exists d1, forall d', rtc scene_step d1 d' ->
  @load_operation_input UtcLib demo_sha scene_json braces_json demo_text (MkId 31) d' = Next (MkBoundedBytes [123; 125]) d'.
Proof.
  destruct scene_start_run as (o & d1 & Hrun). exists d1. intros d' Hst.
  assert (Hs : schema_wf (MkInputSchema [])) by (apply (InputSchema_new_wf []); reflexivity).
  exact (@operation_input_durable UtcLib UtcArith demo_sha scene_json braces_json demo_text UtcLaws UtcArithLaws 60000
    LimitProfile_default braces_json_laws (demo_at 100) (scene_start 5 31 12 60) (scene_db 5) o d1 d' (MkInputSchema [])
    [123; 125] (scene_reach 5) (demo_at_wf 100 eq_refl) Hs eq_refl Hrun Hst).
Defined.


Lemma launch_history_witness : exists c c' s s', db_launches (scene_db 7) !! MkId 41 = Some c /\
  db_launches (scene_db 18) !! MkId 41 = Some c' /\ launch_later c c' s s' /\ la_state c = "prepared"%string /\
  la_state c' = "ready"%string.
Proof.
  destruct (db_launches (scene_db 7) !! MkId 41) as [c|] eqn:E; [|vm_compute in E; discriminate E].
  assert (Hst : rtc scene_step (scene_db 7) (scene_db 18)) by exact (scene_steps 7 18 ltac:(lia)).
  destruct (@launch_history UtcLib UtcArith demo_sha scene_json braces_json demo_text UtcLaws UtcArithLaws 60000
    LimitProfile_default (scene_db 7) (scene_db 18) (MkId 41) c (scene_reach 7) Hst E) as (c' & s & s' & l & H & _ & _ & _ & Hl & _).
  exists c, c', s, s'. split; [reflexivity|]. split; [exact H|]. split; [exact Hl|].
  vm_compute in E, H. injection E as <-. injection H as <-. split; reflexivity.
Defined.
