(* ===== verification/Retirement.v ===== *)
(** * Retirement: what is left of ended work

    Two effects of the way the store ends messages.  An operation that has two open
    messages which would both be dead-lettered can not end: the two events of one
    request get the same identity.  And a message that ended without being accepted
    counts against the capacity of its session for ever. *)
From S2P Require Import Prelude Scalars Session Text Authority Operation RecoveryTable Capacity Json StoreApi StoreWire.
From S2P Require Import Approval Template Message OperationApi SqliteDb SqliteSession SessionLedger Ownership.
From S2P Require Import SqliteMailbox Tables SqliteOperation SqliteLaunch MailboxLedger Footprint OperationLedger.
From S2P Require Import OperationMail Participants Launches Kernel Scenario Mailbox.

(** ** Operations that can not end *)

(** An open message of the operation's mailbox that is not awaiting an acceptance. *)
Definition ends_dead (m : MessageSnapshot) : bool :=
  match ms_state m with MsQueued | MsRetryScheduled _ | MsLeased _ => true | _ => false end.
Definition pending_for (op : OperationId) (c : OperationCols) (r : MessageRow) : Prop :=
  mg_session_id r = oc_session_id c /\ mc_operation_id (ms_correlation (mg_snapshot r)) = Some op /\
  mg_destination r = oc_participant_id c /\ ends_dead (mg_snapshot r) = true.
Definition crowded (d : Db) (op : OperationId) : Prop :=
  exists c id1 r1 id2 r2, db_operations d !! op = Some c /\ id1 <> id2 /\
    db_messages d !! id1 = Some r1 /\ db_messages d !! id2 = Some r2 /\ pending_for op c r1 /\ pending_for op c r2.

Section store.
Context {TL : TimeLib} {TA : TimeArith} {SH : Sha256} {JS : Json} {JR : JsonRaw} {UT : UuidText}.
Variable limit_profile : LimitProfile.

Definition has_event (d : Db) (sid : SessionId) (rid : RequestId) (ty : string) : Prop :=
  exists e, e ∈ db_events d /\ er_session_id e = sid /\ er_event_id e = event_identity rid ty.
(** Events are never taken back. *)
Definition events_grow (d d' : Db) : Prop := forall e, e ∈ db_events d -> e ∈ db_events d'.

Abbreviation never := (fun _ _ => False).
Abbreviation whatever := (fun _ => True).

Lemma append_once rid sid rev ty data now d :
  wp (append_event_data rid sid rev ty data now) (fun _ d' => ~ has_event d sid rid ty /\ has_event d' sid rid ty /\ events_grow d d')
    whatever d.
Proof.
  apply wp_quiet; [apply quiet_append|]. intros [] d' H. pose proof H as Hn. apply append_event_data_Next in Hn as [_ ->].
  split_and!.
  - intros (e & He & Es & Ei). unfold append_event_data in H. tx_step H. tx_step H.
    case_if_in H as E1; [discriminate H|]. case_if_in H as E2; [discriminate H|]. tx_step H. tx_step H.
    case_if_in H as E3; [discriminate H|]. apply orb_false_iff in E3 as [E3 _].
    eapply existsb_false in E3; [|apply list_elem_of_filter; split; [exact Es|exact He]].
    cbn in E3. by rewrite bool_decide_eq_true_2 in E3.
  - eexists. split; [apply elem_of_app; right; by left|]. done.
  - intros e He. apply elem_of_app. by left.
Qed.

Lemma retire_dead rid o now id r d : ends_dead (mg_snapshot r) = true -> mg_session_id r = on_session_id o ->
  wp (retire_message rid o now (id, r)) (fun _ d' => ~ has_event d (on_session_id o) rid "message.dead_lettered" /\
    has_event d' (on_session_id o) rid "message.dead_lettered") whatever d.
Proof.
  intros Hd Hs. unfold retire_message. wp_auto. case_if as E1; [done|]. wp_auto.
  match goal with H : decode_message_row _ _ = Ok ?x |- _ => rename x into m; rename H into Hdec end.
  destruct (decode_message_Ok _ _ _ Hdec) as (-> & _ & Es & _). cbn [fst snd] in *. unfold ends_dead in Hd.
  match goal with H : match ms_state (mg_snapshot r) with _ => _ end = Ok ?x |- _ => assert (exists reason, x = MsDeadLetter reason) as [reason ->]
    by (destruct (ms_state (mg_snapshot r)); try done; injection H as <-; eauto) end.
  assert (Hkeep : forall d1 d2, db_events d2 = db_events d1 ->
    has_event d1 (on_session_id o) rid "message.dead_lettered" -> has_event d2 (on_session_id o) rid "message.dead_lettered").
  { intros d1 d2 E (e & He & H). exists e. rewrite E. done. }
  apply wp_update. intros row _. wp_auto. apply wp_decrement. intros k _ _ _. wp_auto. unfold append_message_event.
  cbn [set_delivery ms_state message_event_name fst ms_session_id]. rewrite <-Es, Hs.
  eapply wp_mono; [apply append_once|..]; [|done]. intros _ d' (Hno & Hyes & _). split; [|done]. intros H. by apply Hno, (Hkeep d).
Qed.

#[global] Instance events_grow_po : PreOrder events_grow.
Proof. split; [by intros d e|]. intros a b c H1 H2 e He. auto. Qed.
Lemma retire_events rid o now e : within events_grow (retire_message rid o now e).
Proof.
  assert (HE : writes_events events_grow) by (intros d x y Hy; apply elem_of_app; by left).
  assert (HM : writes_messages events_grow) by (by intros d v x).
  assert (HC : writes_counters events_grow) by (by intros d v x).
  unfold retire_message. within_auto.
Qed.

(** A second message can not be dead-lettered by the same request. *)
Lemma retire_blocked rid o now rows : forall d, has_event d (on_session_id o) rid "message.dead_lettered" ->
  (exists id r, (id, r) ∈ rows /\ ends_dead (mg_snapshot r) = true /\ mg_session_id r = on_session_id o) ->
  wp (retire_messages rid o now rows) never whatever d.
Proof.
  induction rows as [|e rows IH]; intros d Hev (id & r & Hin & Hd & Hs); [by apply not_elem_of_nil in Hin|].
  cbn [retire_messages]. apply wp_bind. apply elem_of_cons in Hin as [<-|Hin].
  - eapply wp_mono; [by apply retire_dead|..]; [by intros ? ? []|done].
  - eapply wp_mono; [apply retire_events|..]; [|done]. intros [] d1 Hg. apply IH; [|by eauto].
    destruct Hev as (x & Hx & H). exists x. auto.
Qed.
Lemma retire_two rid o now rows : forall d id1 r1 id2 r2, (id1, r1) ∈ rows -> (id2, r2) ∈ rows -> id1 <> id2 ->
  ends_dead (mg_snapshot r1) = true -> ends_dead (mg_snapshot r2) = true ->
  mg_session_id r1 = on_session_id o -> mg_session_id r2 = on_session_id o ->
  wp (retire_messages rid o now rows) never whatever d.
Proof.
  induction rows as [|e rows IH]; intros d id1 r1 id2 r2 H1 H2 Hne D1 D2 S1 S2; [by apply not_elem_of_nil in H1|].
  cbn [retire_messages]. apply wp_bind. apply elem_of_cons in H1 as [E1|H1], H2 as [E2|H2]; subst.
  - congruence.
  - eapply wp_mono; [by apply retire_dead|..]; [|done]. intros [] d1 [_ Hev]. apply retire_blocked; [done|]. by exists id2, r2.
  - eapply wp_mono; [by apply retire_dead|..]; [|done]. intros [] d1 [_ Hev]. apply retire_blocked; [done|]. by exists id1, r1.
  - eapply wp_mono; [apply retire_events|..]; [|done]. intros [] d1 _. by apply (IH d1 id1 r1 id2 r2).
Qed.

Lemma pending_open m : ends_dead m = true -> delivery_is_terminal (ms_state m) = false.
Proof. unfold ends_dead. by destruct (ms_state m). Qed.

Lemma retire_crowded rid op c s o now d : crowded d op -> db_operations d !! op = Some c -> o = row_snapshot op s c ->
  forall o', on_session_id o' = on_session_id o -> on_operation_id o' = op -> on_participant_id o' = on_participant_id o ->
  forall d1, db_messages d1 = db_messages d ->
  wp (retire_correlated_messages rid o' now) never whatever d1.
Proof.
  intros (c0 & id1 & r1 & id2 & r2 & Hc0 & Hne & H1 & H2 & P1 & P2) Hc -> o' Es Eo Ep d1 Em.
  rewrite Hc in Hc0. injection Hc0 as <-. cbn in Es, Ep. unfold retire_correlated_messages. wp_auto.
  assert (Hsel : forall id r, db_messages d !! id = Some r -> pending_for op c r ->
    (id, r) ∈ merge_sort sequence_le (filter (fun e : MessageId * MessageRow =>
       mg_session_id e.2 = on_session_id o' /\
       mc_operation_id (ms_correlation (mg_snapshot e.2)) = Some (on_operation_id o') /\
       mg_destination e.2 = on_participant_id o' /\
       delivery_is_terminal (ms_state (mg_snapshot e.2)) = false) (map_to_list (db_messages d1))) /\
    ends_dead (mg_snapshot r) = true /\ mg_session_id r = on_session_id o').
  { intros id r Hr (A & B & C & D). split; [|split; [done|congruence]].
    rewrite merge_sort_Permutation, list_elem_of_filter, elem_of_map_to_list, Em. cbn.
    split; [|done]. split_and!; [congruence|congruence|congruence|by apply pending_open]. }
  destruct (Hsel _ _ H1 P1) as (L1 & D1 & S1), (Hsel _ _ H2 P2) as (L2 & D2 & S2).
  by apply (retire_two rid o' now _ d1 id1 r1 id2 r2).
Qed.

Lemma transition_crowded now c d : crowded d (to_operation_id c) ->
  wp (transition_operation limit_profile now c) (fun v _ => forall o, v = Applied o -> on_terminal_outcome o = None) whatever d.
Proof.
  intros Hcr. unfold transition_operation. cbv zeta.
  apply wp_bind, wp_read; [by apply within_replay_operation, _|done|]. intros [recorded|] _; [by wp_auto|].
  apply wp_auth; [done|]. intros t ss _ _. set (d1 := set_sessions d ss).
  assert (HF : whatever d1) by done.
  assert (Hfail : forall e (Q : Mutation OperationSnapshot -> Db -> Prop), wp (finish_failure (to_session_id c) c e) Q whatever d1)
    by (intros; by apply wp_fail).
  unfold load_operation_in. wp_auto. destruct (db_operations d1 !! to_operation_id c) as [row|] eqn:Erow; wp_auto; [|apply Hfail].
  match goal with H : decode_operation _ _ = Ok ?x |- _ => rename x into o; rename H into Hdec end.
  match goal with |- wp (if ?b then _ else _) _ _ _ => destruct b end; [wp_auto; apply Hfail|].
  apply wp_read; [by apply within_correlation, _|done|]. intros valid _. op_reads Hfail HF.
  destruct (decode_operation_Ok _ _ _ Hdec) as (s & Ho & _). unfold commit_operation_move. wp_auto. apply wp_update_operation.
  { intros n Hn1. unfold one_row. rewrite (proj2 (Z.eqb_neq n 1) Hn1). by wp_auto. }
  intros row' _ _. apply wp_bind. change (one_row 1) with (mret tt : Tx unit). apply wp_ret.
  match goal with |- wp _ _ _ ?x => set (d2 := x) end. unfold finish_operation. cbn [moved_operation on_terminal_outcome].
  destruct (to_terminal_outcome c) as [outcome|] eqn:Eout.
  - apply wp_bind, wp_bind. eapply wp_mono with (Q' := never) (F' := whatever); [|by intros|done].
    rewrite Ho. by apply (retire_crowded _ (to_operation_id c) row s _ now d Hcr Erow eq_refl).
  - match goal with |- wp ?k _ _ _ =>
      assert (Hr : returns (fun v => forall o', v = Applied o' -> on_terminal_outcome o' = None) k) end; [|apply Hr].
    unfold append_operation_event. returns_auto. intros o' [= <-]. done.
Qed.

End store.

(** ** Messages that keep their place *)

(** A message that ended without having been accepted. *)
Definition ended_unaccepted (r : MessageRow) : bool :=
  match ms_state (mg_snapshot r) with MsUncertain _ _ | MsDeadLetter _ => true | _ => false end.
Definition failed_messages (d : Db) (sid : SessionId) : Z :=
  count_rows (fun r => in_session sid (mg_session_id r) && ended_unaccepted r) (table_rows (db_messages d)).

Section history.
Context {TL : TimeLib} {TA : TimeArith} {SH : Sha256} {JS : Json} {JR : JsonRaw} {UT : UuidText}.
Context {TLaws : TimeLaws} {TALaws : TimeArithLaws}.
Variable max_lease_millis : Z.
Variable limit_profile : LimitProfile.
Abbreviation kernel_step := (kernel_step max_lease_millis limit_profile).
Abbreviation reachable := (reachable max_lease_millis limit_profile).

Lemma failed_counted d d' sid : reachable d -> rtc kernel_step d d' ->
  failed_messages d sid <= (derived_capacity_usage d' sid Messages).1.
Proof.
  intros Hreach Hst. cbn. apply count_rows_le. intros id r Hr Hb. apply andb_true_iff in Hb as [Hs He].
  destruct (history_message _ _ _ _ _ _ Hreach Hst Hr) as (m' & Hm' & Hd).
  assert (m' = mg_snapshot r) as ->.
  { apply ended_final; [|done]. unfold ended_unaccepted in He. by destruct (ms_state (mg_snapshot r)). }
  eexists. split; [exact Hm'|]. cbn. rewrite Hs. unfold ended_unaccepted in He. by destruct (ms_state (mg_snapshot r)).
Qed.

Lemma capacity_exhausted d sid limit : LimitProfile_get limit_profile Messages = Some limit ->
  per_session limit <= (derived_capacity_usage d sid Messages).1 ->
  wp (ensure_derived_capacity limit_profile sid Messages 1) (fun _ _ => False) (fun _ => False) d.
Proof.
  intros Hl Hu. unfold ensure_derived_capacity. wp_auto. rewrite Hl in *. unfold to_u64 in *. inv_result.
  match goal with H : Some limit = Some _ |- _ => injection H as <- end.
  case_if as E3; [by wp_auto|]. exfalso. cbn in Hu. revert E3. unfold checked_add_u64.
  match type of Hu with _ <= ?n => set (used := n) in * end. destruct (_ <=? u64_max) eqn:E4; cbn; [|done].
  unfold is_none_or. destruct (used + _ + 1 <=? u64_max) eqn:E5; [|done]. intros E3%Z.ltb_ge. lia.
Qed.

(** a message that was dead-lettered or ended uncertain counts as an open message of
    its session for ever: in every later state the usage of messages is at least the
    number of such messages, and once that number has reached the limit of the session
    no request for room for another message is ever granted again. *)
Theorem ended_messages_hold_capacity d d' sid : reachable d -> rtc kernel_step d d' ->
  failed_messages d sid <= (derived_capacity_usage d' sid Messages).1 /\
  forall limit, LimitProfile_get limit_profile Messages = Some limit -> per_session limit <= failed_messages d sid ->
    exists e, ensure_derived_capacity limit_profile sid Messages 1 d' = Abort e.
Proof.
  intros Hreach Hst. pose proof (failed_counted d d' sid Hreach Hst) as Hc. split; [done|]. intros limit Hl Hu.
  pose proof (capacity_exhausted d' sid limit Hl ltac:(lia)) as Hwp. unfold wp in Hwp.
  destruct (ensure_derived_capacity limit_profile sid Messages 1 d') as [|e|]; [done|by exists e|done].
Qed.
End history.

(** ** Witnesses *)

Lemma scene_crowded : crowded (scene_db 12) (MkId 31).
Proof.
  destruct (db_operations (scene_db 12) !! MkId 31) as [c|] eqn:Ec; [|vm_compute in Ec; discriminate Ec].
  destruct (db_messages (scene_db 12) !! MkId 61) as [r1|] eqn:E1; [|vm_compute in E1; discriminate E1].
  destruct (db_messages (scene_db 12) !! MkId 62) as [r2|] eqn:E2; [|vm_compute in E2; discriminate E2].
  exists c, (MkId 61), r1, (MkId 62), r2. split; [exact Ec|]. split; [done|]. split; [exact E1|]. split; [exact E2|].
  vm_compute in Ec, E1, E2. injection Ec as <-. injection E1 as <-. injection E2 as <-. by split.
Qed.

Lemma ended_messages_hold_capacity_witness :
  failed_messages (scene_db 17) demo_session = 1 /\ 1 <= (@derived_capacity_usage scene_json demo_text (scene_db 18) demo_session Messages).1.
Proof.
  assert (H1 : failed_messages (scene_db 17) demo_session = 1) by (vm_compute; reflexivity). split; [exact H1|].
  assert (Hst : rtc scene_step (scene_db 17) (scene_db 18)) by exact (scene_steps 17 18 ltac:(lia)).
  rewrite <-H1. exact (proj1 (@ended_messages_hold_capacity UtcLib UtcArith demo_sha scene_json braces_json demo_text
    UtcLaws UtcArithLaws 60000 LimitProfile_default (scene_db 17) (scene_db 18) demo_session (scene_reach 17) Hst)).
Defined.
