(* ===== verification/JournalScene.v ===== *)
(** * JournalScene: a concrete history of effects

    In the world of Scenario.v, an operation is brought to run; an effect is reserved,
    started and reported uncertain, and so is the operation; an authorized decision with
    a proof of absence lets the effect run again, which it does. *)
From S2P Require Import Prelude Scalars Session Text Authority Operation RecoveryTable Capacity Json StoreApi StoreWire.
From S2P Require Import Approval Template Message OperationApi ToolApi EffectApi SqliteDb SqliteSession SessionLedger Ownership.
From S2P Require Import SqliteMailbox SqliteOperation SqliteLaunch SqliteEffect SqliteTool SqliteResolve.
From S2P Require Import Kernel Scenario.

(** ** Who may decide *)

Definition js_authority : ScopedCapability :=
  MkScoped (MkCapability "effect.resolve_uncertainty") (ScopeOperation (MkId 31)).
Definition js_profile : AuthorityProfile := MkProfile {[js_authority]} {[js_authority]}.
Definition js_policy : AuthorityPolicySnapshot :=
  MkPolicy demo_session (MkId 12) js_profile js_profile js_profile js_profile js_profile.
Definition js_grant : GrantSnapshot :=
  MkGrantSnapshot (MkGrant (MkId 91) demo_session (MkId 12) js_authority (demo_at 1000) false) true None.
Definition js_start : Db :=
  MkDb ∅ ∅ ∅ [] (Some (100, 1000)) ∅ ∅ ∅ ∅ ∅ ∅ ∅ {[MkId 12 := js_policy]} ∅ ∅ ∅ ∅ {[MkId 91 := js_grant]} ∅ ∅ ∅ ∅ ∅ ∅ ∅.

(** ** What happens *)

Definition js_contract : EffectResolutionContract := MkContract true true true [ExternalCommit; EffectAbsent].
Definition js_reserve (n : Z) : ReserveEffect :=
  @ReserveEffect_new demo_sha scene_json demo_text (demo_context n 50) demo_session (MkId 12) (MkId 31) scene_epoch
    (MkCapability "mail.send") [1; 2; 3] NonIdempotent js_contract (MkDuration 5000000000).
Definition js_effect (n effect rev : Z) (r : option EffectResolution) : EffectTransition :=
  @EffectTransition_build demo_sha (demo_context n 50) (MkId effect) scene_epoch (MkRevision rev) r.
Definition js_retry : UncertaintyResolution :=
  RetryWithEffectProof (MkEffectProof EffectAbsent (repeat 6 32) (MkBoundedBytes [1])).
Definition js_decide (n effect rev : Z) (r : UncertaintyResolution) : ResolveAuthorizedEffect :=
  MkResolveAuthorized (demo_context n 50) demo_session scene_epoch (MkId 12) (MkId 91) (MkId effect) (MkRevision rev)
    (MkResolve demo_session (MkId 31) (MkBoundedText "seen") r) None.
Definition js_report (n rev : Z) (t : DeliveryTransition) : TransitionMessageDelivery :=
  MkTransition (demo_context n 50) demo_session scene_epoch (MkId 60) (MkId 71) (MkRevision rev) t.

Definition js_scene : list (Timestamp * Event) := take 9 scene ++
  [(demo_at 100, Ask (RqLease (scene_lease 12)));
   (demo_at 100, Ask (RqReport (js_report 13 2 DtAcceptancePending)));
   (demo_at 100, Ask (RqReport (js_report 14 3 (DtAccepted (repeat 8 32)))));
   (demo_at 100, Ask (RqMove (scene_move 15 31 1 BeginStart None None)));
   (demo_at 100, Ask (RqMove (scene_move 16 31 2 ReportRunning (Some (MkId 60)) None)));
   (demo_at 101, Ask (RqReserve (js_reserve 20)));
   (demo_at 102, Ask (RqEffect (js_effect 21 20 1 None)));
   (demo_at 103, Ask (RqEffect (js_effect 22 20 2 (Some ErUncertain))));
   (demo_at 104, Ask (RqMove (scene_move 17 31 3 ReportUncertain (Some (MkId 60)) (Some (OutUncertain (MkBoundedText "lost"))))));
   (demo_at 105, Ask (RqResolve (js_decide 23 20 3 js_retry)));
   (demo_at 106, Ask (RqEffect (js_effect 24 20 4 None)))].
Definition js_db (n : nat) : Db := fold_left scene_do (take n js_scene) js_start.

(** ** It is a history *)

Lemma js_wf : Forall (fun e => @Timestamp_wf UtcLib e.1 /\
    match e.2 with Session c => command_wf c | Ask q => @request_wf UtcLib q end) js_scene.
Proof.
  unfold js_scene. apply Forall_app. split; [apply Forall_take, scene_wf|].
  repeat (apply Forall_cons; split; [split; [by apply demo_at_wf|cbn; try done; try lia]|]). done.
Qed.
Lemma js_steps n k : (n <= k)%nat -> rtc scene_step (js_db n) (js_db k).
Proof.
  intros Hk. unfold js_db. rewrite <-(take_drop n (take k js_scene)), take_take, Nat.min_l, fold_left_app by lia.
  apply scene_does, Forall_drop, Forall_take, js_wf.
Qed.
Lemma js_reach n : scene_reachable (js_db n).
Proof. exists js_start. split; [apply demo_rows|]. split; [done|]. apply (js_steps 0 n). lia. Qed.
