(* ===== verification/Effects.v ===== *)
(** * Effects: the effect journal over all histories

    Theorems about the journal in every history of the store (Kernel.v): the life cycle
    of an entry, how often the same effect can be started, and who can settle an effect
    whose outcome is unknown. *)
From S2P Require Import Prelude Scalars Session Text Authority Operation RecoveryTable Capacity Json Tool StoreApi StoreWire.
From S2P Require Import Approval Template Message OperationApi ToolApi EffectApi SqliteDb SqliteSession SessionLedger Ownership.
From S2P Require Import SqliteMailbox Tables SqliteOperation SqliteLaunch SqliteEffect SqliteTool SqliteResolve MailboxLedger.
From S2P Require Import Footprint JournalFootprint OperationLedger OperationMail Participants Launches JournalLedger Kernel.
From S2P Require Import Scenario JournalScene.

(** The phases an entry can go through. *)
Definition phase_move (contract : EffectResolutionContract) (p p' : EffectJournalPhase) : Prop :=
  exists k, phase_step contract k p p' = true.
Definition settled (p : EffectJournalPhase) : bool := match p with JCompleted | JFailed => true | _ => false end.

(** A phase the effect can be started from, or get to without running. *)
Definition may_start (p : option EffectJournalPhase) : nat :=
  match p with None => 1 | Some p => if can_start p then 1 else 0 end.
Definition effect_phase {TL : TimeLib} (d : Db) (id : RequestId) : option EffectJournalPhase :=
  match db_effects d !! id with
  | Some c => match decode_effect id c with Ok e => Some (ee_phase e) | Err _ => None end
  | None => None
  end.
(** One more when the entry enters the phase. *)
Definition enters {TL : TimeLib} (p : EffectJournalPhase) (id : RequestId) (d d' : Db) : nat :=
  if bool_decide (effect_phase d id <> Some p /\ effect_phase d' id = Some p) then 1 else 0.

Section kernel.
Context {TL : TimeLib} {TA : TimeArith} {SH : Sha256} {JS : Json} {JR : JsonRaw} {UT : UuidText}.
Variable max_lease_millis : Z.
Variable limit_profile : LimitProfile.
Abbreviation kernel_step := (kernel_step max_lease_millis limit_profile).
Abbreviation reachable := (reachable max_lease_millis limit_profile).
Abbreviation serve := (serve max_lease_millis limit_profile).

(** A history with the number of times the effect was started and allowed to run again. *)
Inductive effect_run (id : RequestId) : Db -> Db -> nat -> nat -> Prop :=
| run_here d : effect_run id d d 0 0
| run_step d d1 d2 starts retries : kernel_step d d1 -> effect_run id d1 d2 starts retries ->
    effect_run id d d2 (enters JStarted id d d1 + starts) (enters JRetryAuthorized id d d1 + retries).
Lemma effect_run_steps id d d' s r : effect_run id d d' s r -> rtc kernel_step d d'.
Proof. induction 1; [apply rtc_refl|by eapply rtc_l]. Qed.

Context {TLaws : TimeLaws} {TALaws : TimeArithLaws}.

Lemma phase_of d id c e : db_effects d !! id = Some c -> effect_ok d id c e -> effect_phase d id = Some (ee_phase e).
Proof. intros Hc He. unfold effect_phase. by rewrite Hc, (effect_decodes _ _ _ _ He). Qed.
Lemma phase_none d id : db_effects d !! id = None -> effect_phase d id = None.
Proof. unfold effect_phase. by intros ->. Qed.

(** ** One step *)

(** What a step does to an entry. *)
Lemma step_entry causes d d' id c e : journal_change causes d d' -> db_effects d !! id = Some c -> effect_ok d id c e ->
  db_effects d' !! id = Some c \/
  exists k e', causes id k e /\ effect_step k e e' /\ db_effects d' !! id = Some (entry_cols e').
Proof.
  intros [E|e0 Hn _ _ _ _ _ E|id0 k c0 e0 e' Hk Hc0 Hd Hst E] Hc He; rewrite E; [by left| |].
  - left. rewrite lookup_insert_ne; [done|]. congruence.
  - destruct (decide (id0 = id)) as [->|Hne]; [|left; by rewrite lookup_insert_ne]. right. rewrite lookup_insert_eq.
    rewrite Hc0 in Hc. injection Hc as ->. rewrite (effect_decodes _ _ _ _ He) in Hd. injection Hd as <-. eauto.
Qed.
Lemma stepped_decodes k e e' d id c : effect_step k e e' -> effect_ok d id c e -> decode_effect id (entry_cols e') = Ok e'.
Proof.
  intros Hst [<- _ Hw Ht _]. pose proof (effect_step_wf _ _ _ Hst Hw) as Hw'. destruct Hst as [[(Hid & _) _ _ _ Hx] _].
  rewrite <-Hid. apply decode_effect_wf; [by apply cols_row|]. by destruct Hx as [->|].
Qed.

(** ** Steps over a history *)

Definition later (e e' : EffectJournalEntry) : Prop :=
  same_effect e e' /\ rtc (phase_move (ee_resolution_contract e)) (ee_phase e) (ee_phase e') /\
  (e' = e \/ Revision_get (ee_revision e) < Revision_get (ee_revision e')).
#[global] Instance later_po : PreOrder later.
Proof.
  split; [intros e; split_and!; [done|apply rtc_refl|by left]|]. intros a b c (H1 & H2 & H3) (H4 & H5 & H6).
  split_and!; [by etrans| |].
  - destruct H1 as (_ & _ & _ & _ & _ & _ & _ & _ & E). rewrite E in H5. by etrans.
  - destruct H3 as [->|H3]; [done|]. right. destruct H6 as [->|H6]; lia.
Qed.
Lemma step_later k e e' : effect_step k e e' -> later e e'.
Proof.
  intros [[Hs Hp _ _ _] Hr]. split_and!; [done|by apply rtc_once; exists k|right].
  destruct (ee_revision e), (ee_revision e'). cbn in *. apply Revision_next_value in Hr as [= ->]. lia.
Qed.
Lemma settled_stays k e e' : effect_step k e e' -> settled (ee_phase e) = false.
Proof. intros [[_ Hp _ _ _] _]. revert Hp. destruct (ee_phase e), k as [| | | | |[]]; try done; by rewrite ?andb_false_r. Qed.

(** The entry of an effect at the end of a history. *)
Lemma entry_later d d' id c e : reachable d -> rtc kernel_step d d' -> db_effects d !! id = Some c -> effect_ok d id c e ->
  exists c' e', db_effects d' !! id = Some c' /\ effect_ok d' id c' e' /\ later e e' /\
    (settled (ee_phase e) = true -> e' = e).
Proof.
  intros Hreach Hst Hc He.
  apply (kernel_steps_ind max_lease_millis limit_profile (fun d => exists c' e', db_effects d !! id = Some c' /\
    effect_ok d id c' e' /\ later e e' /\ (settled (ee_phase e) = true -> e' = e)) d d' Hreach Hst).
  { exists c, e. split_and!; done. }
  intros d1 d2 Hr1 Hok1 Hk (c1 & e1 & Hc1 & He1 & Hl & Hs).
  pose proof (journal_ok_change _ _ _ _ (kc_forest _ _ Hk) (kc_ops _ _ Hk) (kc_journal _ _ Hk) (ko_journal _ Hok1)) as Hok2.
  destruct (step_entry _ _ _ _ _ _ (kc_journal _ _ Hk) Hc1 He1) as [Hc2|(k & e2 & _ & Hst2 & Hc2)];
    destruct (Hok2 _ _ Hc2) as [e3 He3].
  - exists c1, e3. assert (e3 = e1) as ->.
    { pose proof (effect_decodes _ _ _ _ He3) as H3. rewrite (effect_decodes _ _ _ _ He1) in H3. by injection H3. }
    split_and!; done.
  - assert (e3 = e2) as ->.
    { pose proof (effect_decodes _ _ _ _ He3) as H3. rewrite (stepped_decodes _ _ _ _ _ _ Hst2 He1) in H3. by injection H3. }
    exists (entry_cols e2), e2. split_and!; [done|done|by etrans; [|by eapply step_later]|]. intros Hset.
    rewrite (Hs Hset) in *. by rewrite (settled_stays _ _ _ Hst2) in Hset.
Qed.

(** ** Reading *)

Lemma decode_participant_wf d id c : forest_ok d -> db_participants d !! id = Some c ->
  exists p, decode_participant id c = Ok p /\ ps_session_id p = pc_session_id c.
Proof.
  intros Hf Hc. destruct (fo_row _ Hf _ _ Hc) as (Hdep & Hrev & Hpar).
  pose proof (decode_revision_get (MkRevision (pc_revision c)) Hrev) as Er. cbn in Er.
  unfold decode_participant, to_u32, MAX_PARTICIPANT_DEPTH in *. rewrite Er.
  assert (Hdepth : pc_depth c = 1 <-> pc_parent_participant_id c = None).
  { destruct (pc_parent_participant_id c) as [q|]; [|done]. destruct Hpar as (pr & Hq & _ & Hd). split; [|done].
    destruct (fo_row _ Hf _ _ Hq) as (Hq' & _). lia. }
  assert ((0 <=? pc_depth c) && (pc_depth c <=? u32_max) = true) as -> by (unfold u32_max; apply andb_true_iff; lia).
  rewrite !bind_of_Ok. assert ((pc_depth c =? 0) = false) as -> by lia. assert ((8 <? pc_depth c) = false) as -> by lia.
  destruct (pc_parent_participant_id c), (pc_depth c =? 1) eqn:E; bool_norm; cbn; eauto; exfalso; naive_solver.
Qed.
Lemma load_effect_run d id c e : kernel_ok d -> db_effects d !! id = Some c -> effect_ok d id c e ->
  load_effect_in id d = Next (Some e) d.
Proof.
  intros Hok Hc He. pose proof (effect_decodes _ _ _ _ He) as Hd. destruct He as [_ _ _ _ [Hp Ho]].
  unfold load_effect_in, load_participant_in, load_operation_in, mbind, tx_bind, get, lift, mret, tx_ret. rewrite Hc, Hd.
  destruct (db_participants d !! _) as [pr|] eqn:Hpr; [|done]. destruct (db_operations d !! _) as [row|] eqn:Hor; [|done].
  destruct (decode_participant_wf _ _ _ (ko_forest _ Hok) Hpr) as (p & Hdp & Hsp). rewrite Hdp. cbn [ok_or]. rewrite Hor.
  destruct (oo_rows _ (ko_ops _ Hok) _ _ Hor) as [s Hs]. rewrite (decode_operation_wf _ _ _ Hs). cbn [ok_or].
  cbn in Hp, Ho. injection Hp as Hp. injection Ho as Ho1 Ho2. unfold neqb, eqb. cbn.
  rewrite !bool_decide_eq_true_2; [done|congruence..].
Qed.

(** ** How often an effect starts *)

Lemma step_potential k e e' : effect_step k e e' ->
  ((if bool_decide (ee_phase e <> JStarted /\ ee_phase e' = JStarted) then 1 else 0) + may_start (Some (ee_phase e'))
   <= may_start (Some (ee_phase e)) + (if bool_decide (ee_phase e <> JRetryAuthorized /\ ee_phase e' = JRetryAuthorized) then 1 else 0))%nat.
Proof.
  intros [[_ Hp _ _ _] _]. revert Hp. destruct (ee_phase e), (ee_phase e'), k as [| |[]| |[]|[]]; cbn; intros H; try done; clear H.
  all: repeat case_bool_decide; naive_solver lia.
Qed.
Lemma run_potential d d1 id : kernel_ok d -> kernel_step d d1 ->
  (enters JStarted id d d1 + may_start (effect_phase d1 id) <=
   may_start (effect_phase d id) + enters JRetryAuthorized id d d1)%nat.
Proof.
  intros Hok Hst. destruct (kernel_step_ok _ _ _ _ Hok Hst) as [Hk Hok1]. pose proof (kc_journal _ _ Hk) as Hj.
  unfold enters. destruct (db_effects d !! id) as [c|] eqn:Hc.
  - destruct (ko_journal _ Hok _ _ Hc) as [e He]. rewrite (phase_of _ _ _ _ Hc He).
    destruct (step_entry _ _ _ _ _ _ Hj Hc He) as [Hc1|(k & e1 & _ & Hs & Hc1)].
    + destruct (ko_journal _ Hok1 _ _ Hc1) as [e1 He1]. rewrite (phase_of _ _ _ _ Hc1 He1).
      pose proof (effect_decodes _ _ _ _ He1) as E. rewrite (effect_decodes _ _ _ _ He) in E. injection E as <-.
      rewrite !bool_decide_eq_false_2 by (intros []; congruence). lia.
    + unfold effect_phase. rewrite Hc1, (stepped_decodes _ _ _ _ _ _ Hs He). pose proof (step_potential _ _ _ Hs) as Hp.
      assert (Heq : forall p, bool_decide (Some (ee_phase e) <> Some p /\ Some (ee_phase e1) = Some p)
        = bool_decide (ee_phase e <> p /\ ee_phase e1 = p)) by (intros p; apply bool_decide_ext; split; intros []; split; congruence).
      by rewrite !Heq.
  - rewrite (phase_none _ _ Hc). destruct (db_effects d1 !! id) as [c1|] eqn:Hc1.
    + assert (Hres : effect_phase d1 id = Some JReserved).
      { destruct Hj as [E|e Hn Hw Hp _ Ht Hl E|id0 k c0 e0 e' _ Hc0 _ _ E]; rewrite E in Hc1; [congruence| |].
        - apply lookup_insert_Some in Hc1 as [[<- <-]|[_ Hc1]]; [|congruence]. unfold effect_phase.
          rewrite E, lookup_insert_eq, decode_effect_wf with (e := e); [by rewrite Hp|by apply cols_row|done].
        - apply lookup_insert_Some in Hc1 as [[<- <-]|[_ Hc1]]; congruence. }
      rewrite Hres, !bool_decide_eq_false_2 by (intros []; congruence). cbn. lia.
    + rewrite (phase_none _ _ Hc1), !bool_decide_eq_false_2 by (intros []; congruence). lia.
Qed.
Lemma runs_potential d d' id s r : reachable d -> effect_run id d d' s r ->
  (s + may_start (effect_phase d' id) <= may_start (effect_phase d id) + r)%nat.
Proof.
  intros Hreach Hrun. induction Hrun as [|d d1 d2 s r Hst _ IH]; [lia|].
  pose proof (run_potential _ _ id (reachable_ok _ _ _ Hreach) Hst).
  specialize (IH (reachable_steps _ _ _ _ Hreach (rtc_once _ _ Hst))). lia.
Qed.
(** An effect is allowed to run again only under a contract that accepts a retry. *)
Lemma retry_allowed k e e' : effect_step k e e' -> ee_phase e <> JRetryAuthorized -> ee_phase e' = JRetryAuthorized ->
  allow_retry_with_proof (ee_resolution_contract e) = true.
Proof.
  intros [[_ Hp _ _ _] _] Hne Hp'. rewrite Hp' in Hp. destruct k as [| |[]| |r|[]], (ee_phase e); cbn in Hp; try done.
  destruct r; cbn in Hp; try done. unfold allows_retry_proof in Hp. by bool_norm.
Qed.
Lemma retried_allowed d d1 id : kernel_ok d -> kernel_step d d1 -> enters JRetryAuthorized id d d1 <> 0%nat ->
  exists e c1, db_effects d1 !! id = Some c1 /\ effect_ok d1 id c1 e /\
    allow_retry_with_proof (ee_resolution_contract e) = true.
Proof.
  intros Hok Hst Hne. destruct (kernel_step_ok _ _ _ _ Hok Hst) as [Hk Hok1]. unfold enters in Hne.
  case_bool_decide as Hen; [clear Hne|done]. destruct Hen as [Hn Hp1]. unfold effect_phase in Hp1.
  destruct (db_effects d1 !! id) as [c1|] eqn:Hc1; [|done]. destruct (ko_journal _ Hok1 _ _ Hc1) as [e1 He1].
  rewrite (effect_decodes _ _ _ _ He1) in Hp1. injection Hp1 as Hp1. exists e1, c1. split_and!; [done|done|].
  destruct (kc_journal _ _ Hk) as [E|e Hno Hw Hp _ Ht _ E|id0 k c e e' _ Hc Hd Hs E].
  - destruct Hn. rewrite E in Hc1. unfold effect_phase. by rewrite Hc1, (effect_decodes _ _ _ _ He1), Hp1.
  - rewrite E in Hc1. apply lookup_insert_Some in Hc1 as [[<- <-]|[_ Hc1]].
    + pose proof (effect_decodes _ _ _ _ He1) as Hd. rewrite decode_effect_wf with (e := e) in Hd; [|by apply cols_row|done].
      injection Hd as <-. congruence.
    + destruct Hn. unfold effect_phase. by rewrite Hc1, (effect_decodes _ _ _ _ He1), Hp1.
  - rewrite E in Hc1. apply lookup_insert_Some in Hc1 as [[<- <-]|[_ Hc1]].
    + destruct (ko_journal _ Hok _ _ Hc) as [e0 He0]. rewrite (effect_decodes _ _ _ _ He0) in Hd. injection Hd as ->.
      pose proof (effect_decodes _ _ _ _ He1) as Hd. rewrite (stepped_decodes _ _ _ _ _ _ Hs He0) in Hd. injection Hd as <-.
      rewrite (phase_of _ _ _ _ Hc He0) in Hn. pose proof Hs as [[(_ & _ & _ & _ & _ & _ & _ & _ & ->) _ _ _ _] _].
      eapply retry_allowed; [exact Hs|congruence|done].
    + destruct Hn. unfold effect_phase. by rewrite Hc1, (effect_decodes _ _ _ _ He1), Hp1.
Qed.
Lemma runs_without_retry d d' id s r c' : reachable d -> effect_run id d d' s r -> db_effects d' !! id = Some c' ->
  allow_retry_with_proof (ef_resolution_contract c') = false -> r = 0%nat.
Proof.
  intros Hreach Hrun Hc' Hno. induction Hrun as [|d d1 d2 s r Hst Hrun IH]; [done|].
  pose proof (reachable_steps _ _ _ _ Hreach (rtc_once _ _ Hst)) as Hreach1. rewrite IH by done.
  destruct (decide (enters JRetryAuthorized id d d1 = 0%nat)) as [->|Hne]; [done|]. exfalso.
  destruct (retried_allowed _ _ _ (reachable_ok _ _ _ Hreach) Hst Hne) as (e & c1 & Hc1 & He & Hyes).
  destruct (entry_later _ _ _ _ _ Hreach1 (effect_run_steps _ _ _ _ _ Hrun) Hc1 He) as (c2 & e2 & Hc2 & He2 & [Hs _] & _).
  rewrite Hc' in Hc2. injection Hc2 as <-. destruct He2 as [_ -> _ _ _]. cbn in Hno.
  destruct Hs as (_ & _ & _ & _ & _ & _ & _ & _ & E). congruence.
Qed.

(** ** Who moves an entry *)

(** A step that changes an entry is a request with a cause. *)
Lemma moved_by_request d d' id c e : reachable d -> kernel_step d d' -> db_effects d !! id = Some c ->
  effect_ok d id c e -> db_effects d' !! id <> Some c ->
  exists now q k e', d' = serve now q d /\ request_causes now q d id k e /\ effect_step k e e' /\
    db_effects d' !! id = Some (entry_cols e') /\ decode_effect id (entry_cols e') = Ok e'.
Proof.
  intros Hreach Hst Hc He Hne. pose proof (reachable_ok _ _ _ Hreach) as Hok.
  assert (Hsame : db_effects d' = db_effects d -> False) by (intros E; apply Hne; by rewrite E).
  destruct Hst as [d l d' Hst|now q d Hn Hq|sid host e0 t d Ht|sid rid mid src dst corr env now t d Ht Hle|rid o now d|d d' Hs].
  - exfalso. apply step_change in Hst as [->|(now & cmd & r & _ & _ & Hch)]; [done|].
    by destruct (session_tables _ _ _ _ _ _ Hch) as (_ & _ & _ & _ & _ & _ & E).
  - assert (Hj : journal_change (request_causes now q d) d (serve now q d)).
    { apply serve_wp; [apply handler_journal; [apply Hok|done]|by apply jc_same]. }
    destruct (step_entry _ _ _ _ _ _ Hj Hc He) as [?|(k & e' & Hk & Hs & Hc')]; [done|].
    exists now, q, k, e'. split_and!; [done..|]. by eapply stepped_decodes.
  - exfalso. apply Hsame. eapply (run_wp _ _ _ (fun d' => db_effects d' = db_effects d));
      [apply (seal_within same_effects); by intros|done..].
  - exfalso. apply Hsame. eapply (run_wp _ _ _ (fun d' => db_effects d' = db_effects d));
      [apply (insert_hierarchy_within same_effects); by intros|done..].
  - exfalso. apply Hsame. eapply (run_wp _ _ _ (fun d' => db_effects d' = db_effects d));
      [apply (retire_within same_effects); by intros|done..].
  - exfalso. by destruct Hs as (_ & _ & _ & _ & _ & _ & _ & E & _).
Qed.

Lemma decision_request now q d id r e : request_causes now q d id (ByDecision r) e ->
  exists c, q = RqResolve c /\ r = ru_resolution (ra_decision c) /\ decision_causes c now d id (ByDecision r) e.
Proof.
  destruct q; cbn [request_causes]; try done; intros H; pose proof H as (H1 & H2 & _); try done.
  - by destruct (et_resolution _).
  - injection H2 as ->. eauto.
Qed.
(** A start is the owner's, by the journal or through the tool. *)
Definition start_request (now : Timestamp) (q : Request) (d : Db) (id : RequestId) (e : EffectJournalEntry) : Prop :=
  (exists c, q = RqEffect c /\ transition_causes c now d id ByStart e) \/
  (exists c, q = RqTool c /\ tool_causes c now d id (ByTool TtStart) e).
Lemma start_cause now q d id k e e' : request_causes now q d id k e -> effect_step k e e' ->
  ee_phase e <> JStarted -> ee_phase e' = JStarted -> start_request now q d id e /\ can_start (ee_phase e) = true.
Proof.
  intros Hk [[_ Hp _ _ _] _] Hne Hp'. rewrite Hp' in Hp.
  assert ((k = ByStart \/ k = ByTool TtStart) /\ can_start (ee_phase e) = true) as [Hk' Hs].
  { destruct k as [| |[]| |[]|[]], (ee_phase e); cbn in Hp; try done; auto. }
  split; [|done]. destruct q; cbn [request_causes] in Hk; try done; pose proof Hk as (H1 & H2 & _);
    destruct Hk' as [->| ->]; try done; try (by destruct (et_resolution _)); [left|right]; eauto.
Qed.

(** ** Theorems *)

(** C6: at any time of any history an entry of the journal can be read; it keeps its
    identity, its content and its contract, its revision grows with every change, its
    phase only moves along the automaton, and once it is completed or failed it never
    changes again. *)
Theorem effect_history d d' id c : reachable d -> db_effects d !! id = Some c -> rtc kernel_step d d' ->
  exists e e', read_effect id d = Next (Some e) d /\ read_effect id d' = Next (Some e') d' /\ same_effect e e' /\
    rtc (phase_move (ee_resolution_contract e)) (ee_phase e) (ee_phase e') /\
    (e' = e \/ Revision_get (ee_revision e) < Revision_get (ee_revision e')) /\
    (settled (ee_phase e) = true -> e' = e).
Proof.
  intros Hreach Hc Hst. pose proof (reachable_ok _ _ _ Hreach) as Hok. destruct (ko_journal _ Hok _ _ Hc) as [e He].
  destruct (entry_later _ _ _ _ _ Hreach Hst Hc He) as (c' & e' & Hc' & He' & (Hs & Hp & Hr) & Hset).
  pose proof (kernel_steps_ok _ _ _ _ Hst Hok) as Hok'. exists e, e'. unfold read_effect.
  split_and!; [by eapply load_effect_run|by eapply load_effect_run|done..].
Qed.

(** C2: an effect is started at most once, plus once for every time an authorized
    decision, based on a proof that it did not happen, allowed it to run again; under a
    contract that accepts no such proof it is started at most once, whatever happens. *)
Theorem effect_starts_at_most_once d d' id starts retries c' : reachable d -> db_effects d !! id = None ->
  effect_run id d d' starts retries -> db_effects d' !! id = Some c' ->
  (starts <= 1 + retries)%nat /\
  (allow_retry_with_proof (ef_resolution_contract c') = false -> (starts <= 1)%nat /\ retries = 0%nat).
Proof.
  intros Hreach Hn Hrun Hc'. pose proof (runs_potential _ _ _ _ _ Hreach Hrun) as Hpot. rewrite (phase_none _ _ Hn) in Hpot.
  cbn in Hpot. split; [lia|]. intros Hno. rewrite (runs_without_retry _ _ _ _ _ _ Hreach Hrun Hc' Hno) in *. lia.
Qed.

(** C5: an effect whose outcome is unknown stays so until an owner of its session asks to
    settle it for an operation that is uncertain as well, with the authority to resolve
    uncertainty under the participant's policy and an unused grant, at the revision seen,
    and with a proof the effect's own contract accepts. *)
Theorem uncertain_effect_needs_authority d d' id c e : reachable d -> kernel_step d d' ->
  db_effects d !! id = Some c -> decode_effect id c = Ok e -> ee_phase e = JUncertain -> db_effects d' !! id <> Some c ->
  exists now q e', let r := ru_resolution (ra_decision q) in
    d' = serve now (RqResolve q) d /\ decision_causes q now d id (ByDecision r) e /\
    resolution_allowed (ee_resolution_contract e) r = true /\
    read_effect id d' = Next (Some e') d' /\ ee_phase e' = resolved_phase r.
Proof.
  intros Hreach Hst Hc Hd Hp Hne. destruct (ko_journal _ (reachable_ok _ _ _ Hreach) _ _ Hc) as [e0 He0].
  rewrite (effect_decodes _ _ _ _ He0) in Hd. injection Hd as ->.
  destruct (moved_by_request _ _ _ _ _ Hreach Hst Hc He0 Hne) as (now & q & k & e' & -> & Hk & Hs & Hc' & Hd').
  pose proof Hs as [[_ Hph _ _ _] _]. rewrite Hp in Hph.
  assert (exists r, k = ByDecision r) as [r ->] by (destruct k as [| |[]| |r|[]]; try done; eauto).
  apply decision_request in Hk as (q0 & -> & -> & Hk). cbn -[eqb] in Hph. bool_norm.
  exists now, q0, e'. split_and!; [done..| |by eapply bool_decide_eq_true_1].
  pose proof (reachable_steps _ _ _ _ Hreach (rtc_once _ _ Hst)) as Hreach'.
  pose proof (reachable_ok _ _ _ Hreach') as Hok'. destruct (ko_journal _ Hok' _ _ Hc') as [e1 He1].
  rewrite (effect_decodes _ _ _ _ He1) in Hd'. injection Hd' as ->. by eapply load_effect_run.
Qed.

(** an effect is started only by a request of its own owner, who owns the session at
    that time, with the revision he has seen: either in the journal before the lease of
    the effect has ended, or through its tool invocation, for the connection it is
    dispatched to, while the operation runs and the participant is authorized. *)
Theorem effect_starts_for_its_owner d d' id c e : reachable d -> kernel_step d d' ->
  db_effects d !! id = Some c -> decode_effect id c = Ok e -> ee_phase e <> JStarted -> effect_phase d' id = Some JStarted ->
  can_start (ee_phase e) = true /\ exists now q, d' = serve now q d /\ start_request now q d id e.
Proof.
  intros Hreach Hst Hc Hd Hp Hp'. destruct (ko_journal _ (reachable_ok _ _ _ Hreach) _ _ Hc) as [e0 He0].
  rewrite (effect_decodes _ _ _ _ He0) in Hd. injection Hd as ->.
  assert (Hne : db_effects d' !! id <> Some c).
  { intros Hc'. unfold effect_phase in Hp'. rewrite Hc', (effect_decodes _ _ _ _ He0) in Hp'. congruence. }
  destruct (moved_by_request _ _ _ _ _ Hreach Hst Hc He0 Hne) as (now & q & k & e' & -> & Hk & Hs & Hc' & Hd').
  unfold effect_phase in Hp'. rewrite Hc', Hd' in Hp'. injection Hp' as Hp'.
  destruct (start_cause _ _ _ _ _ _ _ Hk Hs Hp Hp'). eauto.
Qed.
End kernel.

(** ** Witnesses *)

Lemma js_step n : (n < 20)%nat -> scene_step (js_db n) (js_db (S n)).
Proof.
  intros Hn. assert (Hlen : length js_scene = 20%nat) by reflexivity.
  destruct (lookup_lt_is_Some_2 js_scene n) as [[now e] He]; [lia|]. unfold js_db.
  rewrite (take_S_r _ _ _ He), fold_left_app. cbn [fold_left]. pose proof js_wf as Hw.
  rewrite Forall_lookup in Hw. destruct (Hw _ _ He) as [Ht Hq]. destruct e as [c|q]; [|by apply ks_request].
  eapply ks_session. by apply step_call.
Qed.
Definition js_id : RequestId := MkId 20.
Definition js_effect_run := @effect_run UtcLib UtcArith demo_sha scene_json braces_json demo_text 60000 LimitProfile_default js_id.
Definition js_enters p n := @enters UtcLib p js_id (js_db n) (js_db (S n)).
Lemma js_run_step n a b s r : (n < 20)%nat -> js_enters JStarted n = a -> js_enters JRetryAuthorized n = b ->
  js_effect_run (js_db (S n)) (js_db 20) s r -> js_effect_run (js_db n) (js_db 20) (a + s) (b + r).
Proof. intros Hn <- <- Hr. apply run_step; [by apply js_step|done]. Qed.
Lemma js_run : js_effect_run (js_db 14) (js_db 20) 2 1.
Proof.
  refine (js_run_step 14 0 0 2 1 ltac:(lia) ltac:(vm_compute; reflexivity) ltac:(vm_compute; reflexivity) _).
  refine (js_run_step 15 1 0 1 1 ltac:(lia) ltac:(vm_compute; reflexivity) ltac:(vm_compute; reflexivity) _).
  refine (js_run_step 16 0 0 1 1 ltac:(lia) ltac:(vm_compute; reflexivity) ltac:(vm_compute; reflexivity) _).
  refine (js_run_step 17 0 0 1 1 ltac:(lia) ltac:(vm_compute; reflexivity) ltac:(vm_compute; reflexivity) _).
  refine (js_run_step 18 0 1 1 0 ltac:(lia) ltac:(vm_compute; reflexivity) ltac:(vm_compute; reflexivity) _).
  refine (js_run_step 19 1 0 0 0 ltac:(lia) ltac:(vm_compute; reflexivity) ltac:(vm_compute; reflexivity) _).
  apply run_here.
Qed.
Lemma js_entry n p : @effect_phase UtcLib (js_db n) js_id = Some p ->
  exists c e, db_effects (js_db n) !! js_id = Some c /\ @decode_effect UtcLib js_id c = Ok e /\ ee_phase e = p.
Proof.
  unfold effect_phase. destruct (db_effects (js_db n) !! js_id) as [c|]; [|done].
  destruct (decode_effect js_id c) as [e|] eqn:E; [|done]. intros [= <-]. eauto.
Qed.
Lemma js_changed n p p' c : @effect_phase UtcLib (js_db n) js_id = Some p ->
  @effect_phase UtcLib (js_db (S n)) js_id = Some p' -> p <> p' -> db_effects (js_db n) !! js_id = Some c ->
  db_effects (js_db (S n)) !! js_id <> Some c.
Proof. unfold effect_phase. intros H1 H2 Hne Hc Hc'. rewrite Hc in H1. rewrite Hc' in H2. congruence. Qed.

Lemma effect_history_witness : exists e e', @read_effect UtcLib js_id (js_db 16) = Next (Some e) (js_db 16) /\
  @read_effect UtcLib js_id (js_db 20) = Next (Some e') (js_db 20) /\ same_effect e e'.
Proof.
  destruct (js_entry 16 JStarted ltac:(vm_compute; reflexivity)) as (c & _ & Hc & _).
  destruct (@effect_history UtcLib UtcArith demo_sha scene_json braces_json demo_text 60000 LimitProfile_default
    UtcLaws UtcArithLaws (js_db 16) (js_db 20) js_id c (js_reach 16) Hc (js_steps 16 20 ltac:(lia)))
    as (e & e' & H1 & H2 & H3 & _). eauto.
Defined.

Lemma effect_starts_at_most_once_witness : (2 <= 1 + 1)%nat.
Proof.
  destruct (js_entry 20 JStarted ltac:(vm_compute; reflexivity)) as (c & _ & Hc & _).
  assert (Hn : db_effects (js_db 14) !! js_id = None) by (vm_compute; reflexivity).
  exact (proj1 (@effect_starts_at_most_once UtcLib UtcArith demo_sha scene_json braces_json demo_text 60000
    LimitProfile_default UtcLaws UtcArithLaws (js_db 14) (js_db 20) js_id 2 1 c (js_reach 14) Hn js_run Hc)).
Defined.

Lemma uncertain_effect_needs_authority_witness : exists now q, js_db 19 = 
  @serve UtcLib UtcArith demo_sha scene_json braces_json demo_text 60000 LimitProfile_default now (RqResolve q) (js_db 18).
Proof.
  destruct (js_entry 18 JUncertain ltac:(vm_compute; reflexivity)) as (c & e & Hc & He & Hp).
  assert (Hne : db_effects (js_db 19) !! js_id <> Some c).
  { apply (js_changed 18 JUncertain JRetryAuthorized c); [vm_compute; reflexivity|vm_compute; reflexivity|done|exact Hc]. }
  destruct (@uncertain_effect_needs_authority UtcLib UtcArith demo_sha scene_json braces_json demo_text 60000
    LimitProfile_default UtcLaws UtcArithLaws (js_db 18) (js_db 19) js_id c e (js_reach 18) (js_step 18 ltac:(lia)) Hc He Hp Hne)
    as (now & q & _ & H & _). eauto.
Defined.

Lemma effect_starts_for_its_owner_witness : exists now q, js_db 16 =
  @serve UtcLib UtcArith demo_sha scene_json braces_json demo_text 60000 LimitProfile_default now q (js_db 15).
Proof.
  destruct (js_entry 15 JReserved ltac:(vm_compute; reflexivity)) as (c & e & Hc & He & Hp).
  assert (Hne : ee_phase e <> JStarted) by (rewrite Hp; discriminate).
  assert (Hp' : @effect_phase UtcLib (js_db 16) js_id = Some JStarted) by (vm_compute; reflexivity).
  destruct (@effect_starts_for_its_owner UtcLib UtcArith demo_sha scene_json braces_json demo_text 60000
    LimitProfile_default UtcLaws UtcArithLaws (js_db 15) (js_db 16) js_id c e (js_reach 15) (js_step 15 ltac:(lia)) Hc He Hne Hp')
    as (_ & now & q & H & _). eauto.
Defined.
