(* ===== verification/Program.v ===== *)
(** * Program: asynchronous code as trees of calls

    The services of crates/navigator-core are [async] functions that call a store, a
    driver, a clock or an atomic, and go on with the answer.  Such a function is a finite
    tree: it has returned, or it makes one call and continues with whatever the answer
    is.  Between two calls anything else may happen, so what a call answers and does is
    a relation on the world the caller and everybody else share. *)
From S2P Require Import Prelude.

Section program.
Context {Call : Type} {Answer : Call -> Type}.

Inductive Prog (A : Type) : Type :=
| Return (a : A)
| Do (c : Call) (k : Answer c -> Prog A).
Arguments Return {A} a.
Arguments Do {A} c k.

#[global] Instance prog_ret : MRet Prog := fun A a => Return a.
#[global] Instance prog_bind : MBind Prog := fun A B f =>
  fix bind (p : Prog A) : Prog B :=
    match p with Return a => f a | Do c k => Do c (fun r => bind (k r)) end.
Definition call (c : Call) : Prog (Answer c) := Do c Return.

(** ** What every run of a program does *)

(** [n] bounds the total weight of the calls of every run. *)
Fixpoint bounded (weight : Call -> nat) {A} (n : nat) (p : Prog A) : Prop :=
  match p with
  | Return _ => True
  | Do c k => (weight c <= n)%nat /\ forall r, bounded weight (n - weight c) (k r)
  end.

Lemma bounded_more weight {A} (p : Prog A) n m : (n <= m)%nat -> bounded weight n p -> bounded weight m p.
Proof.
  revert n m. induction p as [a|c k IH]; intros n m Hle; cbn; [done|]. intros [Hc Hk].
  split; [lia|]. intros r. eapply IH; [|apply Hk]. lia.
Qed.
Lemma bounded_bind weight {A B} (p : Prog A) (f : A -> Prog B) n m :
  bounded weight n p -> (forall a, bounded weight m (f a)) -> bounded weight (n + m) (p ≫= f).
Proof.
  revert n. induction p as [a|c k IH]; intros n; cbn.
  - intros _ Hf. eapply bounded_more; [|apply Hf]. lia.
  - intros [Hc Hk] Hf. split; [lia|]. intros r. replace (n + m - weight c)%nat with (n - weight c + m)%nat by lia.
    by apply IH.
Qed.
Lemma bounded_call weight c n : (weight c <= n)%nat -> bounded weight n (call c).
Proof. by split. Qed.

(** ** Running a program in a world *)

Section run.
Context {W : Type} (answers : forall c : Call, W -> Answer c -> W -> Prop).

(** One call of a thread. *)
Definition prog_step {A} (p : Prog A) (w : W) (p' : Prog A) (w' : W) : Prop :=
  match p with
  | Return _ => False
  | Do c k => exists r, answers c w r w' /\ p' = k r
  end.

(** A whole run from the call to its return. *)
Fixpoint runs {A} (p : Prog A) (w : W) (a : A) (w' : W) : Prop :=
  match p with
  | Return b => a = b /\ w' = w
  | Do c k => exists r w1, answers c w r w1 /\ runs (k r) w1 a w'
  end.

Lemma runs_bind {A B} (p : Prog A) (f : A -> Prog B) w b w' :
  runs (p ≫= f) w b w' <-> exists a w1, runs p w a w1 /\ runs (f a) w1 b w'.
Proof.
  revert w. induction p as [a|c k IH]; intros w; cbn.
  - split; [intros H; by exists a, w|]. by intros (a' & w1 & [-> ->] & H).
  - split.
    + intros (r & w1 & Hr & (a & w2 & Ha & Hf)%IH). exists a, w2. split; [|done]. by exists r, w1.
    + intros (a & w2 & (r & w1 & Hr & Ha) & Hf). exists r, w1. split; [done|]. apply IH. by exists a, w2.
Qed.
Lemma runs_call c w r w' : runs (call c) w r w' <-> answers c w r w'.
Proof. cbn. split; [by intros (r' & w1 & H & [-> ->])|]. intros H. by exists r, w'. Qed.

(** A preorder that every call respects is respected by runs. *)
Lemma runs_within (R : W -> W -> Prop) {PO : PreOrder R} {A} (p : Prog A) w a w' :
  (forall c w r w', answers c w r w' -> R w w') -> runs p w a w' -> R w w'.
Proof.
  intros HR. revert w. induction p as [b|c k IH]; intros w; cbn; [by intros [_ ->]|].
  intros (r & w1 & Hr & Hk). transitivity w1; eauto.
Qed.
End run.

(** ** Termination *)

(** The own steps of a thread, whatever happens between them. *)
Definition own_step {W} (answers : forall c : Call, W -> Answer c -> W -> Prop) {A} (p p' : Prog A) : Prop :=
  exists w w', prog_step answers p w p' w'.
Lemma bounded_ends {W} (answers : forall c : Call, W -> Answer c -> W -> Prop) {A} (p p' : Prog A) n k :
  bounded (fun _ => 1%nat) n p -> nsteps (own_step answers) k p p' -> (k <= n)%nat.
Proof.
  intros Hb Hst. revert n Hb. induction Hst as [p|k p p1 p' (w & w' & Hp) _ IH]; intros n Hb; [lia|].
  destruct p as [|c f]; [done|]. destruct Hp as (r & _ & ->), Hb as [Hc Hb]. specialize (IH _ (Hb r)). lia.
Qed.
End program.
Arguments Prog {Call} Answer A.
Arguments Return {Call Answer A} a.
Arguments Do {Call Answer A} c k.
