(* ===== verification/Services.v ===== *)
(** * Services: ownership supervision and admission

    Models crates/navigator-core/src/lib.rs: the admission gate and its permits, the
    renewal of an ownership lease ([tick], [lose]), the supervising worker task with the
    guard that is dropped when it ends, the two ways to shut down, and the thin clients
    [SessionService] and [OwnershipManager].

    Each function is a program over the atomics, the locks, the clock, the command
    factories and the store it calls; the worker and any number of clients run their
    programs interleaved call by call ([system_step]).  The store, the clock and the
    factories answer anything.  A task is aborted only where it awaits, and unwinds only
    in code it calls. *)
From S2P Require Import Prelude Program Scalars Session StoreApi StoreWire Approval Message.

Inductive OwnershipLoss := LossExpired | LossRenewalFailed | LossStale | LossShutdown.
Inductive OwnershipStatus :=
| StatusActive (session_id : SessionId) (epoch : FencingEpoch) (expires_at : Timestamp)
| StatusLost (session_id : SessionId) (epoch : FencingEpoch) (reason : OwnershipLoss).
Record OwnershipConfig := MkConfig {
  cf_renewal_period : Duration;
  cf_lease_duration : LeaseDuration;
  cf_shutdown_timeout : Duration;
}.
Inductive RenewalCommandError := MkRenewalCommandError.
Inductive ReleaseCommandError := MkReleaseCommandError.
Inductive ServiceError :=
| AdmissionClosed | InvalidOwnershipConfiguration | RenewalCommand | ReleaseCommand | InvalidRenewedLease
| ServiceStore (e : StoreError).
Inductive ReleaseOutcome := Released | ReleaseFailed | ReleaseTimedOut | CommandFailed.
Record ShutdownOutcome := MkShutdownOutcome { so_task_terminated : bool; so_release : ReleaseOutcome }.
(** A permit of the gate: the generation it was given at. *)
Record AdmissionPermit := MkPermit { ap_generation : Z }.
(** What [tokio::select!] of the worker chose. *)
Inductive Selected := SelectedChanged (error stop : bool) | SelectedSlept.

Section services.
Context {TL : TimeLib}.

Inductive SvcCall :=
| LoadOpen | LoadGeneration | StoreOpen (b : bool) | AddGeneration
| LockLease | SetLease (l : OwnershipLease) | WriteStatus (s : OwnershipStatus)
| StoreRunning (b : bool) | LoadRunning
| ClockNow
| CreateRenewal (l : OwnershipLease) (d : LeaseDuration) | CreateRelease (l : OwnershipLease)
| RenewCall (c : RenewOwnership) | AcquireCall (c : AcquireOwnership)
| ReleaseCall (c : ReleaseOwnership) | ReleaseWithin (t : Duration) (c : ReleaseOwnership)
| OpenCall (c : OpenSession) | CloseCall (c : CloseSession) | LoadCall (s : SessionId) | EventsCall (q : ReadEvents)
| SelectCall (period : Duration) | SendStop | JoinWithin (t : Duration) | AbortTask | JoinTask.

Definition SvcAnswer (c : SvcCall) : Type :=
  match c with
  | LoadOpen | LoadRunning => bool
  | LoadGeneration => Z
  | StoreOpen _ | AddGeneration | SetLease _ | WriteStatus _ | StoreRunning _ | SendStop | AbortTask | JoinTask => unit
  | LockLease => OwnershipLease
  | ClockNow => OffsetDateTime
  | CreateRenewal _ _ => result RenewalCommandError RenewOwnership
  | CreateRelease _ => result ReleaseCommandError ReleaseOwnership
  | RenewCall _ | AcquireCall _ => result StoreError (Mutation OwnershipLease)
  | ReleaseCall _ => result StoreError (Mutation OwnershipSnapshot)
  | ReleaseWithin _ _ => option (result StoreError (Mutation OwnershipSnapshot))
  | OpenCall _ | CloseCall _ => result StoreError (Mutation SessionSnapshot)
  | LoadCall _ => result StoreError SessionSnapshot
  | EventsCall _ => result StoreError EventPage
  | SelectCall _ => Selected
  | JoinWithin _ => bool
  end.
Abbreviation Svc := (Prog SvcAnswer).
Abbreviation call := (@call SvcCall SvcAnswer).

(** ** The admission gate *)

Definition permit_check (permit : AdmissionPermit) : Svc (result ServiceError unit) :=
  open ← call LoadOpen;
  if open : bool then
    generation ← call LoadGeneration;
    mret (if generation =? ap_generation permit then Ok tt else Err AdmissionClosed)
  else mret (Err AdmissionClosed).

Definition gate_admit : Svc (result ServiceError AdmissionPermit) :=
  generation ← call LoadGeneration;
  let permit := MkPermit generation in
  checked ← permit_check permit;
  mret (_ ← checked; Ok permit).

Definition gate_is_open : Svc bool := call LoadOpen.
Definition gate_close : Svc unit :=
  _ ← call (StoreOpen false);
  call AddGeneration.

(** ** Renewing the lease *)

Definition lose (lease : OwnershipLease) (reason : OwnershipLoss) : Svc unit :=
  _ ← gate_close;
  call (WriteStatus (StatusLost (ol_session_id lease) (ol_epoch lease) reason)).

Definition renewal_loss (e : StoreError) : OwnershipLoss :=
  match e with StaleOwnership _ _ _ => LossStale | _ => LossRenewalFailed end.

(** A renewed lease is for the same session, owner and epoch, and not yet over; the
    clock is read last. *)
Definition renewed_is_valid (lease renewed : OwnershipLease) : Svc bool :=
  if eqb (ol_session_id renewed) (ol_session_id lease) && eqb (ol_owner renewed) (ol_owner lease)
     && eqb (ol_epoch renewed) (ol_epoch lease)
  then now ← call ClockNow; mret (Timestamp_ltb (Timestamp_from_datetime now) (ol_expires_at renewed))
  else mret false.

Definition tick (config : OwnershipConfig) : Svc (result ServiceError unit) :=
  open ← call LoadOpen;
  if negb open then mret (Err AdmissionClosed) else
  now ← call ClockNow;
  lease ← call LockLease;
  let observed_at := Timestamp_from_datetime now in
  if Timestamp_leb (ol_expires_at lease) observed_at
  then _ ← lose lease LossExpired; mret (Err AdmissionClosed) else
  command ← call (CreateRenewal lease (cf_lease_duration config));
  match command with
  | Err _ => _ ← lose lease LossRenewalFailed; mret (Err RenewalCommand)
  | Ok command =>
      answer ← call (RenewCall command);
      match answer with
      | Ok mutation =>
          let renewed := Mutation_value mutation in
          valid ← renewed_is_valid lease renewed;
          if negb valid
          then _ ← lose lease LossRenewalFailed; mret (Err InvalidRenewedLease)
          else
            _ ← call (SetLease renewed);
            _ ← call (WriteStatus (StatusActive (ol_session_id renewed) (ol_epoch renewed) (ol_expires_at renewed)));
            mret (Ok tt)
      | Err error => _ ← lose lease (renewal_loss error); mret (Err (ServiceStore error))
      end
  end.

(** ** The worker task *)

(** [Drop for WorkerGuard]. *)
Definition guard_drop (session_id : SessionId) (epoch : FencingEpoch) : Svc unit :=
  _ ← call (StoreRunning false);
  open ← call LoadOpen;
  if open : bool then
    _ ← gate_close;
    call (WriteStatus (StatusLost session_id epoch LossRenewalFailed))
  else mret tt.

(** One round of the loop; [false] is [break]. *)
Definition worker_round (config : OwnershipConfig) : Svc bool :=
  selected ← call (SelectCall (cf_renewal_period config));
  match selected with
  | SelectedChanged error stop => mret (negb (error || stop))
  | SelectedSlept => ticked ← tick config; mret (is_ok ticked)
  end.

(** ** Shutting down *)

(** [Drop for OwnershipSupervisor], with or without a task left. *)
Definition supervisor_drop (task : bool) : Svc unit :=
  _ ← gate_close;
  _ ← call SendStop;
  if task then call AbortTask else mret tt.

Definition stop_worker (config : OwnershipConfig) : Svc unit :=
  ended ← call (JoinWithin (cf_shutdown_timeout config));
  if ended : bool then mret tt else
  _ ← call AbortTask;
  call JoinTask.

Definition release_lease (config : OwnershipConfig) (lease : OwnershipLease) : Svc ReleaseOutcome :=
  command ← call (CreateRelease lease);
  match command with
  | Ok command =>
      answer ← call (ReleaseWithin (cf_shutdown_timeout config) command);
      mret (match answer with
            | Some (Ok _) => Released | Some (Err _) => ReleaseFailed | None => ReleaseTimedOut end)
  | Err _ => mret CommandFailed
  end.

Definition shutdown (config : OwnershipConfig) : Svc ShutdownOutcome :=
  lease ← call LockLease;
  _ ← lose lease LossShutdown;
  _ ← call SendStop;
  _ ← stop_worker config;
  release ← release_lease config lease;
  running ← call LoadRunning;
  _ ← supervisor_drop false;
  mret (MkShutdownOutcome (negb running) release).

Definition shutdown_after_ownership_cleared (config : OwnershipConfig) : Svc bool :=
  lease ← call LockLease;
  _ ← lose lease LossShutdown;
  _ ← call SendStop;
  _ ← stop_worker config;
  running ← call LoadRunning;
  _ ← supervisor_drop false;
  mret (negb running).

(** ** Thin clients of the store *)

Definition SessionService_open (c : OpenSession) : Svc (result StoreError (Mutation SessionSnapshot)) := call (OpenCall c).
Definition SessionService_snapshot (s : SessionId) : Svc (result StoreError SessionSnapshot) := call (LoadCall s).
Definition SessionService_events (q : ReadEvents) : Svc (result StoreError EventPage) := call (EventsCall q).
Definition SessionService_close (permit : AdmissionPermit) (c : CloseSession) :
    Svc (result ServiceError (Mutation SessionSnapshot)) :=
  checked ← permit_check permit;
  match checked with
  | Err e => mret (Err e)
  | Ok _ => closed ← call (CloseCall c); mret (map_err ServiceStore closed)
  end.
Definition OwnershipManager_acquire (c : AcquireOwnership) : Svc (result StoreError OwnershipLease) :=
  answer ← call (AcquireCall c);
  mret (match answer with Ok mutation => Ok (Mutation_value mutation) | Err e => Err e end).
Definition OwnershipManager_release (c : ReleaseOwnership) : Svc (result StoreError OwnershipSnapshot) :=
  answer ← call (ReleaseCall c);
  mret (match answer with Ok mutation => Ok (Mutation_value mutation) | Err e => Err e end).

(** ** The state the worker and the clients share *)

Inductive Worker :=
| WorkerLoop (p : Svc bool)      (* in a round of its loop *)
| WorkerDrop (p : Svc unit)      (* unwinding: its guard is dropped *)
| WorkerDone.
Record Supervised := MkSupervised {
  su_open : bool;
  su_generation : Z;
  su_lease : OwnershipLease;
  su_status : OwnershipStatus;
  su_running : bool;
  su_stop : bool;
  su_aborted : bool;
  su_worker : Worker;
}.
Definition with_open (s : Supervised) (b : bool) : Supervised :=
  MkSupervised b (su_generation s) (su_lease s) (su_status s) (su_running s) (su_stop s) (su_aborted s) (su_worker s).
(** [fetch_add(1)] of an [AtomicU64]. *)
Definition with_next_generation (s : Supervised) : Supervised :=
  MkSupervised (su_open s) ((su_generation s + 1) mod 2 ^ 64) (su_lease s) (su_status s) (su_running s) (su_stop s)
    (su_aborted s) (su_worker s).
Definition with_lease (s : Supervised) (l : OwnershipLease) : Supervised :=
  MkSupervised (su_open s) (su_generation s) l (su_status s) (su_running s) (su_stop s) (su_aborted s) (su_worker s).
Definition with_status (s : Supervised) (t : OwnershipStatus) : Supervised :=
  MkSupervised (su_open s) (su_generation s) (su_lease s) t (su_running s) (su_stop s) (su_aborted s) (su_worker s).
Definition with_running (s : Supervised) (b : bool) : Supervised :=
  MkSupervised (su_open s) (su_generation s) (su_lease s) (su_status s) b (su_stop s) (su_aborted s) (su_worker s).
Definition with_stop (s : Supervised) : Supervised :=
  MkSupervised (su_open s) (su_generation s) (su_lease s) (su_status s) (su_running s) true (su_aborted s) (su_worker s).
Definition with_aborted (s : Supervised) : Supervised :=
  MkSupervised (su_open s) (su_generation s) (su_lease s) (su_status s) (su_running s) (su_stop s) true (su_worker s).
Definition with_worker (s : Supervised) (w : Worker) : Supervised :=
  MkSupervised (su_open s) (su_generation s) (su_lease s) (su_status s) (su_running s) (su_stop s) (su_aborted s) w.

(** What a call answers and does.  The watch channel is changed, or its sender dropped,
    only after [true] was sent; a join ends in time only if the task has ended. *)
Definition svc_answers (c : SvcCall) (s : Supervised) : SvcAnswer c -> Supervised -> Prop :=
  match c with
  | LoadOpen => fun r s' => r = su_open s /\ s' = s
  | LoadGeneration => fun r s' => r = su_generation s /\ s' = s
  | StoreOpen b => fun _ s' => s' = with_open s b
  | AddGeneration => fun _ s' => s' = with_next_generation s
  | LockLease => fun r s' => r = su_lease s /\ s' = s
  | SetLease l => fun _ s' => s' = with_lease s l
  | WriteStatus t => fun _ s' => s' = with_status s t
  | StoreRunning b => fun _ s' => s' = with_running s b
  | LoadRunning => fun r s' => r = su_running s /\ s' = s
  | SelectCall _ => fun r s' => s' = s /\
      match r with SelectedChanged _ stop => stop = true /\ su_stop s = true | SelectedSlept => True end
  | SendStop => fun _ s' => s' = with_stop s
  | AbortTask => fun _ s' => s' = with_aborted s
  | JoinTask => fun _ s' => su_worker s = WorkerDone /\ s' = s
  | JoinWithin _ => fun ended s' => (ended = true -> su_worker s = WorkerDone) /\ s' = s
  | _ => fun _ s' => s' = s
  end.
Abbreviation step_of := (prog_step svc_answers).

(** ** Starting *)

Definition OwnershipSupervisor_start (now : OffsetDateTime) (lease : OwnershipLease) (config : OwnershipConfig) :
    result ServiceError Supervised :=
  if (duration_nanos (cf_renewal_period config) =? 0) || (duration_nanos (cf_shutdown_timeout config) =? 0)
  then Err InvalidOwnershipConfiguration else
  expiry ← map_err (fun _ => InvalidOwnershipConfiguration) (Timestamp_to_datetime (ol_expires_at lease));
  let remaining := instant expiry - instant now in
  if remaining <? 0 then Err InvalidOwnershipConfiguration else
  if remaining <=? duration_nanos (cf_renewal_period config) then Err InvalidOwnershipConfiguration else
  Ok (MkSupervised true 1 lease (StatusActive (ol_session_id lease) (ol_epoch lease) (ol_expires_at lease))
        true false false (WorkerLoop (worker_round config))).

(** ** The threads *)

(** Where a task may be aborted, and where it may unwind. *)
Definition awaits (c : SvcCall) : bool := match c with SelectCall _ | RenewCall _ => true | _ => false end.
Definition foreign (c : SvcCall) : bool :=
  match c with ClockNow | CreateRenewal _ _ | RenewCall _ => true | _ => false end.

Section threads.
Variable config : OwnershipConfig.
(** The lease the supervisor was started with. *)
Variable started : OwnershipLease.
Definition dropped : Worker := WorkerDrop (guard_drop (ol_session_id started) (ol_epoch started)).

Inductive worker_step (s : Supervised) : Supervised -> Prop :=
| wk_call p p' s' : su_worker s = WorkerLoop p -> step_of p s p' s' -> worker_step s (with_worker s' (WorkerLoop p'))
| wk_again : su_worker s = WorkerLoop (Return true) -> worker_step s (with_worker s (WorkerLoop (worker_round config)))
| wk_break : su_worker s = WorkerLoop (Return false) -> worker_step s (with_worker s dropped)
| wk_abort c k : su_worker s = WorkerLoop (Do c k) -> awaits c = true -> su_aborted s = true ->
    worker_step s (with_worker s dropped)
| wk_unwind c k : su_worker s = WorkerLoop (Do c k) -> foreign c = true -> worker_step s (with_worker s dropped)
| wk_drop p p' s' : su_worker s = WorkerDrop p -> step_of p s p' s' -> worker_step s (with_worker s' (WorkerDrop p'))
| wk_end : su_worker s = WorkerDrop (Return tt) -> worker_step s (with_worker s WorkerDone).

(** What a client may run, with what it is answered. *)
Inductive SvcRequest :=
| AskTick | AskAdmit | AskCheck (p : AdmissionPermit) | AskIsOpen | AskCloseSession (p : AdmissionPermit) (c : CloseSession)
| AskShutdown | AskShutdownCleared | AskDrop.
Inductive SvcReply :=
| GotUnit (r : result ServiceError unit) | GotPermit (r : result ServiceError AdmissionPermit) | GotBool (b : bool)
| GotClosed (r : result ServiceError (Mutation SessionSnapshot)) | GotShutdown (o : ShutdownOutcome) | GotDropped.
Definition client_program (q : SvcRequest) : Svc SvcReply :=
  match q with
  | AskTick => r ← tick config; mret (GotUnit r)
  | AskAdmit => r ← gate_admit; mret (GotPermit r)
  | AskCheck p => r ← permit_check p; mret (GotUnit r)
  | AskIsOpen => b ← gate_is_open; mret (GotBool b)
  | AskCloseSession p c => r ← SessionService_close p c; mret (GotClosed r)
  | AskShutdown => o ← shutdown config; mret (GotShutdown o)
  | AskShutdownCleared => b ← shutdown_after_ownership_cleared config; mret (GotBool b)
  | AskDrop => _ ← supervisor_drop true; mret GotDropped
  end.

(** A client remembers its request and whether the gate was open when it was made. *)
Record Client := MkClient { cl_request : SvcRequest; cl_open : bool; cl_program : Svc SvcReply }.
Record System := MkSystem { sy_shared : Supervised; sy_clients : list Client }.
Inductive Actor := ByWorker | ByClient (i : nat) | Made (q : SvcRequest).

Inductive system_step : System -> Actor -> System -> Prop :=
| ss_worker s s' cs : worker_step s s' -> system_step (MkSystem s cs) ByWorker (MkSystem s' cs)
| ss_request s cs q : system_step (MkSystem s cs) (Made q) (MkSystem s (cs ++ [MkClient q (su_open s) (client_program q)]))
| ss_client s s' cs i q b p p' : cs !! i = Some (MkClient q b p) -> step_of p s p' s' ->
    system_step (MkSystem s cs) (ByClient i) (MkSystem s' (<[i := MkClient q b p']> cs)).
Definition system_start (s : Supervised) : System := MkSystem s [].
Definition reachable_system (s : Supervised) (y : System) : Prop := exists l, trace system_step (system_start s) l y.
End threads.

(** ** Rely and guarantee *)

Definition lease_identity (l : OwnershipLease) : SessionId * HostId * FencingEpoch := (ol_session_id l, ol_owner l, ol_epoch l).

(** What every step of every thread keeps. *)
Record evolves (s s' : Supervised) : Prop := {
  ev_closed : su_open s = false -> su_open s' = false;
  ev_stopped : su_running s = false -> su_running s' = false;
  ev_lease : lease_identity (su_lease s') = lease_identity (su_lease s);
  ev_done : su_worker s = WorkerDone -> su_worker s' = WorkerDone;
}.
#[global] Instance evolves_po : PreOrder evolves.
Proof.
  split; [by intros s; split|]. intros a b c [A1 A2 A3 A4] [B1 B2 B3 B4]. split; [auto..|congruence|auto].
Qed.
(** A worker that has ended has left the gate closed. *)
Definition settled (s : Supervised) : Prop := su_worker s = WorkerDone -> su_running s = false /\ su_open s = false.

(** From [s] on, whatever the others do within [evolves], the program does no more than
    that either, and what it returns satisfies [Q]. *)
Fixpoint rely {A} (p : Svc A) (Q : A -> Supervised -> Prop) (s : Supervised) : Prop :=
  match p with
  | Return a => forall s1, evolves s s1 -> Q a s1
  | Do c k => forall s1, evolves s s1 -> settled s1 ->
      forall r s2, svc_answers c s1 r s2 -> evolves s1 s2 /\ rely (k r) Q s2
  end.

Lemma rely_stable {A} (p : Svc A) Q s s' : evolves s s' -> rely p Q s -> rely p Q s'.
Proof. intros He. destruct p; cbn; intros H s1 H1; apply H; by transitivity s'. Qed.
Lemma rely_bind {A B} (p : Svc A) (f : A -> Svc B) (Q : B -> Supervised -> Prop) s :
  rely p (fun a => rely (f a) Q) s -> rely (p ≫= f) Q s.
Proof.
  revert s. induction p as [a|c k IH]; intros s; cbn; [intros H; exact (H s (reflexivity s))|].
  intros H s1 He Hs r s2 Hr. destruct (H s1 He Hs r s2 Hr). split; [done|]. by apply IH.
Qed.
Lemma rely_mono {A} (p : Svc A) (Q Q' : A -> Supervised -> Prop) s :
  rely p Q s -> (forall a s', evolves s s' -> Q a s' -> Q' a s') -> rely p Q' s.
Proof.
  revert s. induction p as [a|c k IH]; intros s; cbn; [eauto|].
  intros H HQ s1 He Hs r s2 Hr. destruct (H s1 He Hs r s2 Hr) as [He2 Hk]. split; [done|]. apply (IH _ _ Hk).
  intros a s' He'. apply HQ. by do 2 (etrans; [done|]).
Qed.
Lemma rely_ret {A} (a : A) (Q : A -> Supervised -> Prop) s : (forall s1, evolves s s1 -> Q a s1) -> rely (mret a) Q s.
Proof. done. Qed.
Lemma rely_call (c : SvcCall) (Q : SvcAnswer c -> Supervised -> Prop) s :
  (forall s1 r s2, evolves s s1 -> settled s1 -> svc_answers c s1 r s2 ->
     evolves s1 s2 /\ forall s3, evolves s2 s3 -> Q r s3) -> rely (call c) Q s.
Proof. intros H s1 He Hs r s2 Hr. by apply H. Qed.
(** A call that changes nothing the others rely on. *)
Definition harmless (c : SvcCall) : bool :=
  match c with StoreOpen b | StoreRunning b => negb b | SetLease _ => false | _ => true end.
Lemma harmless_evolves c s r s' : harmless c = true -> svc_answers c s r s' -> evolves s s' /\ su_worker s' = su_worker s.
Proof.
  destruct c; cbn; intros Hh Ha; try done;
    repeat match goal with H : _ /\ _ |- _ => destruct H end; subst; try (by split); destruct b; by (split; [split|]).
Qed.
Lemma rely_harmless (c : SvcCall) (Q : SvcAnswer c -> Supervised -> Prop) s : harmless c = true ->
  (forall r s', evolves s s' -> Q r s') -> rely (call c) Q s.
Proof.
  intros Hc HQ. apply rely_call. intros s1 r s2 He _ Ha. destruct (harmless_evolves _ _ _ _ Hc Ha) as [He2 _].
  split; [done|]. intros s3 He3. apply HQ. by do 2 (etrans; [done|]).
Qed.

#[local] Ltac rely_auto :=
  repeat (lazymatch goal with
  | |- rely (let _ := _ in _) _ _ => cbv zeta
  | |- rely (_ ≫= _) _ _ => apply rely_bind
  | |- rely (mret _) _ _ => apply rely_ret; intros ? ?
  | |- rely (call ?c) _ _ => apply rely_harmless; [done|intros ? ? ?]
  end).

(** ** What the programs promise *)

Abbreviation closed s := (su_open s = false).
Lemma rely_closed s s1 : evolves s s1 -> closed s -> closed s1.
Proof. intros He. apply He. Qed.
Lemma rely_load_open (Q : bool -> Supervised -> Prop) s :
  (forall r s', evolves s s' -> (closed s -> r = false) -> (r = false -> closed s') -> Q r s') -> rely (call LoadOpen) Q s.
Proof.
  intros HQ. apply rely_call. intros s1 r s2 He _ [-> ->]. split; [done|]. intros s3 He3.
  apply HQ; [by transitivity s1|apply (ev_closed _ _ He)|apply (ev_closed _ _ He3)].
Qed.

Lemma check_closed p s : closed s -> rely (permit_check p) (fun r _ => r = Err AdmissionClosed) s.
Proof.
  intros Hc. unfold permit_check. apply rely_bind, rely_load_open. intros r s1 _ Hr _. rewrite (Hr Hc). by apply rely_ret.
Qed.
Lemma check_rely p s : rely (permit_check p) (fun _ _ => True) s.
Proof. unfold permit_check. rely_auto. case_match; by rely_auto. Qed.
Lemma close_rely s : rely gate_close (fun _ s' => closed s') s.
Proof.
  unfold gate_close. apply rely_bind, rely_call. intros s1 [] s2 He _ Ha. cbn in Ha. subst s2. split; [by split|]. intros s3 He3.
  apply rely_harmless; [done|]. intros _ s4 He4. by apply (ev_closed _ _ He4), (ev_closed _ _ He3).
Qed.
Lemma lose_rely l reason s : rely (lose l reason) (fun _ s' => closed s') s.
Proof.
  unfold lose. apply rely_bind. eapply rely_mono; [apply close_rely|]. intros [] s1 _ Hc.
  apply rely_harmless; [done|]. intros _ s2 He. by apply (ev_closed _ _ He).
Qed.
Lemma lose_then {A} l reason (a : A) (Q : A -> Supervised -> Prop) s :
  (forall s', closed s' -> Q a s') -> rely (_ ← lose l reason; mret a) Q s.
Proof.
  intros HQ. apply rely_bind. eapply rely_mono; [apply lose_rely|]. intros [] s1 _ Hc. apply rely_ret. intros s2 He.
  by apply HQ, (ev_closed _ _ He).
Qed.

(** A round that ends with an error has closed the gate, or found it closed. *)
Lemma tick_rely config s : rely (tick config) (fun r s' => is_ok r = false -> closed s') s.
Proof.
  unfold tick. apply rely_bind, rely_load_open. intros open s1 _ _ Hopen. destruct open; cbn [negb].
  2:{ apply rely_ret. intros s2 He _. by apply (ev_closed _ _ He), Hopen. }
  apply rely_bind, rely_harmless; [done|]. intros now s2 _. apply rely_bind, rely_call.
  intros s3 lease s4 _ _ [-> ->]. split; [done|]. intros s5 He5. cbv zeta. case_if as E; [by apply lose_then|].
  apply rely_bind, rely_harmless; [done|]. intros [command|e] s6 He6; [|by apply lose_then].
  apply rely_bind, rely_harmless; [done|]. intros [mutation|e] s7 He7; [|by apply lose_then].
  cbv zeta. unfold renewed_is_valid. case_if as Eid; [|rely_auto; by apply lose_then]. rely_auto.
  match goal with |- context [negb ?b] => destruct b; cbn [negb]; [|by apply lose_then] end.
  apply rely_bind, rely_call. intros s8 [] s9 He8 Hs8 Ha. cbn in Ha. subst s9. split.
  - unfold eqb in Eid. bool_norm. split; try done. cbn [with_lease su_lease]. unfold lease_identity.
    assert (Hl : lease_identity (su_lease s8) = lease_identity (su_lease s3)).
    { apply ev_lease. do 5 (etrans; [eassumption|]). eassumption. }
    unfold lease_identity in Hl. congruence.
  - intros s10 _. by rely_auto.
Qed.
Lemma tick_closed config s : closed s -> rely (tick config) (fun r _ => r = Err AdmissionClosed) s.
Proof.
  intros Hc. unfold tick. apply rely_bind, rely_load_open. intros r s1 _ Hr _. rewrite (Hr Hc). by apply rely_ret.
Qed.

(** The guard marks the worker as ended and leaves the gate closed. *)
Lemma guard_rely session_id epoch s :
  rely (guard_drop session_id epoch) (fun _ s' => su_running s' = false /\ closed s') s.
Proof.
  unfold guard_drop. apply rely_bind, rely_call. intros s1 [] s2 He _ Ha. cbn in Ha. subst s2. split; [by split|].
  intros s3 He3. apply rely_bind, rely_load_open. intros open s4 He4 _ Hopen.
  assert (Hs : forall s', evolves s4 s' -> su_running s' = false).
  { intros s' He'. by apply (ev_stopped _ _ He'), (ev_stopped _ _ He4), (ev_stopped _ _ He3). }
  destruct open.
  - apply rely_bind. eapply rely_mono; [apply close_rely|]. intros [] s5 He5 Hc. apply rely_harmless; [done|].
    intros _ s6 He6. split; [apply Hs; by transitivity s5|by apply (ev_closed _ _ He6)].
  - apply rely_ret. intros s5 He5. split; [by apply Hs|]. by apply (ev_closed _ _ He5), Hopen.
Qed.
(** A round either goes on, or leaves the gate closed unless it was told to stop; and it
    does not go on when the gate was closed before it. *)
Lemma round_rely config s : rely (worker_round config) (fun _ _ => True) s.
Proof.
  unfold worker_round. rely_auto. destruct r as [error stop|]; rely_auto; [done|].
  eapply rely_mono; [apply tick_rely|]. intros r s2 _ _. by rely_auto.
Qed.
Lemma round_closed config s : closed s -> rely (worker_round config) (fun again _ => again = false) s.
Proof.
  intros Hc. unfold worker_round. apply rely_bind, rely_call. intros s1 selected s2 He _ Ha. cbn in Ha.
  destruct Ha as [-> Ha]. split; [done|]. intros s3 He3. destruct selected as [error stop|].
  - destruct Ha as [-> _]. apply rely_ret. intros _ _. by rewrite orb_true_r.
  - apply rely_bind. eapply rely_mono; [apply tick_closed; by apply (ev_closed _ _ He3), (ev_closed _ _ He)|].
    intros r s4 _ ->. by apply rely_ret.
Qed.

(** The supervisor waits for the worker to end. *)
Lemma stop_worker_rely config s : rely (stop_worker config) (fun _ s' => su_running s' = false) s.
Proof.
  assert (Hdone : forall s1 s2, su_worker s1 = WorkerDone -> settled s1 -> evolves s1 s2 -> su_running s2 = false).
  { intros s1 s2 Hd Hs He. by apply (ev_stopped _ _ He), Hs. }
  unfold stop_worker. apply rely_bind, rely_call. intros s1 ended s2 He Hs Ha. cbn in Ha. destruct Ha as [Ha ->].
  split; [done|]. intros s3 He3. destruct ended.
  { apply rely_ret. intros s4 He4. apply (Hdone s1); [by apply Ha|done|by transitivity s3]. }
  apply rely_bind, rely_harmless; [done|]. intros _ s4 He4. apply rely_call. intros s5 [] s6 He5 Hs5 Hd. cbn in Hd.
  destruct Hd as [Hd ->]. split; [done|]. intros s7. by apply Hdone.
Qed.
Lemma supervisor_drop_rely task s : rely (supervisor_drop task) (fun _ s' => closed s') s.
Proof.
  unfold supervisor_drop. apply rely_bind. eapply rely_mono; [apply close_rely|]. intros [] s1 _ Hc.
  apply rely_bind, rely_harmless; [done|]. intros _ s2 He2.
  assert (Hc2 : closed s2) by by apply (ev_closed _ _ He2).
  destruct task; [apply rely_harmless; [done|]; intros _ s3 He3|apply rely_ret; intros s3 He3]; by apply (ev_closed _ _ He3).
Qed.
(** The common part of the two ways to shut down. *)
Lemma load_stopped (Q : bool -> Supervised -> Prop) s : su_running s = false ->
  (forall s', evolves s s' -> Q false s') -> rely (call LoadRunning) Q s.
Proof.
  intros Hr HQ. apply rely_call. intros s1 running s2 He _ Ha. cbn in Ha. destruct Ha as [-> ->]. split; [done|].
  intros s3 He3. rewrite (ev_stopped _ _ He Hr). apply HQ. by transitivity s1.
Qed.
Lemma release_lease_rely config lease s : rely (release_lease config lease) (fun _ _ => True) s.
Proof. unfold release_lease. rely_auto. case_match; by rely_auto. Qed.
Lemma shutdown_rely config s : rely (shutdown config) (fun o s' => so_task_terminated o = true /\ closed s') s.
Proof.
  unfold shutdown. rely_auto. eapply rely_mono; [apply lose_rely|]. intros [] s2 _ _. rely_auto.
  eapply rely_mono; [apply stop_worker_rely|]. intros [] s4 _ Hr. apply rely_bind.
  eapply rely_mono; [apply release_lease_rely|]. intros release s5 He5 _.
  apply rely_bind, load_stopped; [by apply (ev_stopped _ _ He5)|]. intros s6 _.
  apply rely_bind. eapply rely_mono; [apply supervisor_drop_rely|]. intros [] s7 _ Hc. apply rely_ret. intros s8 He8.
  split; [done|by apply (ev_closed _ _ He8)].
Qed.
Lemma shutdown_cleared_rely config s :
  rely (shutdown_after_ownership_cleared config) (fun b s' => b = true /\ closed s') s.
Proof.
  unfold shutdown_after_ownership_cleared. rely_auto. eapply rely_mono; [apply lose_rely|]. intros [] s2 _ _. rely_auto.
  eapply rely_mono; [apply stop_worker_rely|]. intros [] s4 _ Hr. apply rely_bind, load_stopped; [done|]. intros s5 _.
  apply rely_bind. eapply rely_mono; [apply supervisor_drop_rely|]. intros [] s6 _ Hc. apply rely_ret. intros s7 He7.
  split; [done|by apply (ev_closed _ _ He7)].
Qed.

(** ** All threads together *)

Section system.
Variable config : OwnershipConfig.
Variable started : OwnershipLease.

(** What a client may conclude from its answer. *)
Definition client_post (q : SvcRequest) (opened : bool) (reply : SvcReply) (s : Supervised) : Prop :=
  match q with
  | AskAdmit => opened = false -> reply = GotPermit (Err AdmissionClosed)
  | AskCheck _ | AskTick => opened = false -> reply = GotUnit (Err AdmissionClosed)
  | AskIsOpen => opened = false -> reply = GotBool false
  | AskCloseSession _ _ => opened = false -> reply = GotClosed (Err AdmissionClosed)
  | AskShutdown => closed s /\ exists o, reply = GotShutdown o /\ so_task_terminated o = true
  | AskShutdownCleared => closed s /\ reply = GotBool true
  | AskDrop => closed s
  end.

(** A program that refuses when the gate is closed, and is harmless otherwise. *)
Lemma refuses_rely {A} (p : Svc A) (f : A -> SvcReply) (a : A) s :
  (closed s -> rely p (fun b _ => b = a) s) -> rely p (fun _ _ => True) s ->
  rely (r ← p; mret (f r)) (fun reply _ => su_open s = false -> reply = f a) s.
Proof.
  intros Hc Ho. apply rely_bind. destruct (su_open s) eqn:E.
  - eapply rely_mono; [exact Ho|]. intros r s1 _ _. by apply rely_ret.
  - eapply rely_mono; [by apply Hc|]. intros r s1 _ ->. by apply rely_ret.
Qed.
Lemma true_rely {A} (p : Svc A) Q s : rely p Q s -> rely p (fun _ _ => True) s.
Proof. intros H. by eapply rely_mono. Qed.

Lemma admit_closed s : closed s -> rely gate_admit (fun r _ => r = Err AdmissionClosed) s.
Proof.
  intros Hc. unfold gate_admit. apply rely_bind, rely_harmless; [done|]. intros g s1 He. cbv zeta. apply rely_bind.
  eapply rely_mono; [apply check_closed; by apply (ev_closed _ _ He)|]. intros r s2 _ ->. by apply rely_ret.
Qed.
Lemma admit_rely s : rely gate_admit (fun _ _ => True) s.
Proof. unfold gate_admit. rely_auto. eapply rely_mono; [apply check_rely|]. intros ? ? _ _. by rely_auto. Qed.
Lemma service_close_closed p c s : closed s -> rely (SessionService_close p c) (fun r _ => r = Err AdmissionClosed) s.
Proof.
  intros Hc. unfold SessionService_close. apply rely_bind. eapply rely_mono; [by apply check_closed|].
  intros r s1 _ ->. by apply rely_ret.
Qed.
Lemma service_close_rely p c s : rely (SessionService_close p c) (fun _ _ => True) s.
Proof.
  unfold SessionService_close. apply rely_bind. eapply rely_mono; [apply check_rely|]. intros [] s1 _ _; by rely_auto.
Qed.

Lemma client_rely q s : rely (client_program config q) (client_post q (su_open s)) s.
Proof.
  destruct q as [| |p| |p c| | |]; cbn [client_program client_post].
  - apply refuses_rely; [apply tick_closed|eapply true_rely, tick_rely].
  - apply refuses_rely; [apply admit_closed|apply admit_rely].
  - apply refuses_rely; [apply check_closed|apply check_rely].
  - apply refuses_rely; [|by apply rely_harmless]. intros Hc. apply rely_load_open. auto.
  - apply refuses_rely; [apply service_close_closed|apply service_close_rely].
  - apply rely_bind. eapply rely_mono; [apply shutdown_rely|]. intros o s1 _ [Ho Hc]. apply rely_ret. intros s2 He.
    split; [by apply (ev_closed _ _ He)|by exists o].
  - apply rely_bind. eapply rely_mono; [apply shutdown_cleared_rely|]. intros o s1 _ [-> Hc]. apply rely_ret. intros s2 He.
    split; [by apply (ev_closed _ _ He)|done].
  - apply rely_bind. eapply rely_mono; [apply supervisor_drop_rely|]. intros o s1 _ Hc. apply rely_ret. intros s2 He.
    by apply (ev_closed _ _ He).
Qed.

Definition worker_ok (s : Supervised) : Prop :=
  match su_worker s with
  | WorkerLoop p => rely p (fun _ _ => True) s
  | WorkerDrop p => rely p (fun _ s' => su_running s' = false /\ closed s') s
  | WorkerDone => su_running s = false /\ closed s
  end.
Definition client_ok (s : Supervised) (c : Client) : Prop :=
  rely (cl_program c) (client_post (cl_request c) (cl_open c)) s.
Definition system_ok (y : System) : Prop := worker_ok (sy_shared y) /\ Forall (client_ok (sy_shared y)) (sy_clients y).

Lemma worker_settled s : worker_ok s -> settled s.
Proof. unfold worker_ok, settled. intros H E. by rewrite E in H. Qed.
Lemma answers_worker c s r s' : svc_answers c s r s' -> su_worker s' = su_worker s.
Proof. destruct c; cbn; intros H; repeat match goal with H : _ /\ _ |- _ => destruct H end; by subst. Qed.
Lemma evolves_worker s w : su_worker s <> WorkerDone \/ w = WorkerDone -> evolves s (with_worker s w).
Proof. intros H. split; try done. cbn. tauto. Qed.
(** The next step of a program that may rely on the others. *)
Lemma rely_step {A} (p p' : Svc A) Q s s' : settled s -> rely p Q s -> step_of p s p' s' ->
  evolves s s' /\ rely p' Q s' /\ su_worker s' = su_worker s.
Proof.
  intros Hs Hp Hst. destruct p as [|c k]; [done|]. destruct Hst as (r & Ha & ->).
  destruct (Hp s (reflexivity s) Hs r s' Ha). by split_and!; [..|eapply answers_worker].
Qed.

Lemma worker_step_ok s s' : worker_ok s -> worker_step config started s s' -> evolves s s' /\ worker_ok s'.
Proof.
  intros Hw Hst. pose proof (worker_settled _ Hw) as Hs. unfold worker_ok in Hw.
  assert (Hdrop : su_worker s <> WorkerDone -> evolves s (with_worker s (dropped started)) /\
    worker_ok (with_worker s (dropped started))).
  { intros Hn. split; [apply evolves_worker; by left|apply guard_rely]. }
  destruct Hst as [p p' s' E Hp|E|E|c k E _ _|c k E _|p p' s' E Hp|E]; rewrite E in Hw.
  - destruct (rely_step _ _ _ _ _ Hs Hw Hp) as (He & Hp' & Ew). assert (Hn : su_worker s' <> WorkerDone) by congruence.
    assert (He2 : evolves s' (with_worker s' (WorkerLoop p'))) by (apply evolves_worker; by left).
    split; [by transitivity s'|]. by apply (rely_stable _ _ _ _ He2).
  - split; [apply evolves_worker; left; congruence|]. apply round_rely.
  - apply Hdrop. congruence.
  - apply Hdrop. congruence.
  - apply Hdrop. congruence.
  - destruct (rely_step _ _ _ _ _ Hs Hw Hp) as (He & Hp' & Ew). assert (Hn : su_worker s' <> WorkerDone) by congruence.
    assert (He2 : evolves s' (with_worker s' (WorkerDrop p'))) by (apply evolves_worker; by left).
    split; [by transitivity s'|]. by apply (rely_stable _ _ _ _ He2).
  - split; [apply evolves_worker; by right|]. exact (Hw s (reflexivity s)).
Qed.

Lemma worker_ok_stable s s' : evolves s s' -> su_worker s' = su_worker s -> worker_ok s -> worker_ok s'.
Proof.
  unfold worker_ok. intros He ->. destruct (su_worker s); [by apply rely_stable..|].
  intros [? ?]. split; [by apply (ev_stopped _ _ He)|by apply (ev_closed _ _ He)].
Qed.
Lemma clients_stable s s' cs : evolves s s' -> Forall (client_ok s) cs -> Forall (client_ok s') cs.
Proof. intros He Hcs. apply (Forall_impl _ _ _ Hcs). intros c. by apply rely_stable. Qed.

Lemma system_step_ok y a y' : system_ok y -> system_step config started y a y' ->
  evolves (sy_shared y) (sy_shared y') /\ system_ok y'.
Proof.
  intros [Hw Hcs] Hst. destruct Hst as [s s' cs Hst|s cs q|s s' cs i q b p p' Hi Hp]; cbn in *.
  - destruct (worker_step_ok _ _ Hw Hst) as [He Hw']. split; [done|]. split; [done|]. by eapply clients_stable.
  - split; [done|]. split; [done|]. apply Forall_app. split; [done|]. apply Forall_singleton, client_rely.
  - pose proof (Forall_lookup_1 _ _ _ _ Hcs Hi) as Hc. unfold client_ok in Hc. cbn in Hc.
    destruct (rely_step _ _ _ _ _ (worker_settled _ Hw) Hc Hp) as (He & Hp' & Ew). split; [done|]. split.
    + by eapply worker_ok_stable.
    + apply Forall_insert; [by eapply clients_stable|done].
Qed.
Lemma system_trace_ok y l y' : system_ok y -> trace (system_step config started) y l y' ->
  evolves (sy_shared y) (sy_shared y') /\ system_ok y'.
Proof.
  intros Hok Ht. induction Ht as [y|y a y1 l y2 Hst _ IH]; [done|].
  destruct (system_step_ok _ _ _ Hok Hst) as [He Hok1], (IH Hok1) as [He2 Hok2]. split; [by transitivity (sy_shared y1)|done].
Qed.
Lemma start_ok now lease s : OwnershipSupervisor_start now lease config = Ok s -> system_ok (system_start s) /\ su_lease s = lease.
Proof.
  unfold OwnershipSupervisor_start. intros H. case_if_in H as E1; [done|]. apply bind_Ok in H as (x & _ & H). cbv zeta in H.
  case_if_in H as E2; [done|]. case_if_in H as E3; [done|]. injection H as <-. split; [|done]. split; [apply round_rely|constructor].
Qed.

(** ** The worker ends *)

#[local] Ltac bounded_auto := repeat (cbn; first [exact I | split; [lia|intros ?] | case_match]).
Lemma round_bounded : bounded (fun _ => 1%nat) 10 (worker_round config).
Proof. unfold worker_round, tick, lose, gate_close, renewed_is_valid. bounded_auto. Qed.
Lemma guard_bounded session_id epoch : bounded (fun _ => 1%nat) 5 (guard_drop session_id epoch).
Proof. unfold guard_drop, gate_close. bounded_auto. Qed.
(** The worker waits for nobody. *)
Definition joins (c : SvcCall) : nat := match c with JoinTask => 1 | _ => 0 end.
Lemma round_joins : bounded joins 0 (worker_round config).
Proof. unfold worker_round, tick, lose, gate_close, renewed_is_valid. bounded_auto. Qed.
(** Its guard calls no foreign code either. *)
Definition waits (c : SvcCall) : nat := if foreign c then 1 else joins c.
Lemma guard_waits session_id epoch : bounded waits 0 (guard_drop session_id epoch).
Proof. unfold guard_drop, gate_close. bounded_auto. Qed.

(** The calls the worker has left before its round or its guard ends. *)
Definition worker_bounded (s : Supervised) : Prop :=
  match su_worker s with
  | WorkerLoop p => bounded (fun _ => 1%nat) 10 p /\ bounded joins 0 p
  | WorkerDrop p => bounded (fun _ => 1%nat) 5 p /\ bounded waits 0 p
  | WorkerDone => True
  end.
Lemma bounded_step {A} weight n (p p' : Svc A) s s' : bounded weight n p -> step_of p s p' s' -> bounded weight n p'.
Proof.
  intros Hb Hst. destruct p as [|c k]; [done|]. destruct Hst as (r & _ & ->), Hb as [_ Hb].
  eapply bounded_more; [|apply Hb]. lia.
Qed.
Lemma worker_step_bounded s s' : worker_bounded s -> worker_step config started s s' -> worker_bounded s'.
Proof.
  unfold worker_bounded. intros Hw Hst.
  assert (Hg : bounded (fun _ => 1%nat) 5 (guard_drop (ol_session_id started) (ol_epoch started)) /\
    bounded waits 0 (guard_drop (ol_session_id started) (ol_epoch started))) by (split; [apply guard_bounded|apply guard_waits]).
  destruct Hst as [p p' s' E Hp|E|E|c k E _ _|c k E _|p p' s' E Hp|E]; cbn; rewrite E in Hw; try done.
  - destruct Hw. split; by eapply bounded_step.
  - split; [apply round_bounded|apply round_joins].
  - destruct Hw. split; by eapply bounded_step.
Qed.
Lemma system_step_bounded y a y' : worker_bounded (sy_shared y) -> system_step config started y a y' -> worker_bounded (sy_shared y').
Proof.
  intros Hw Hst. destruct Hst as [s s' cs Hst|s cs q|s s' cs i q b p p' Hi Hp]; cbn in *; [by eapply worker_step_bounded|done|].
  destruct p as [|c k]; [done|]. destruct Hp as (r & Ha & _). unfold worker_bounded. by rewrite (answers_worker _ _ _ _ Ha).
Qed.
Lemma system_trace_bounded y l y' : worker_bounded (sy_shared y) -> trace (system_step config started) y l y' ->
  worker_bounded (sy_shared y').
Proof. intros Hw Ht. induction Ht; eauto using system_step_bounded. Qed.

(** With the gate closed: at most [n] more steps of the worker. *)
Definition worker_left (n : nat) (s : Supervised) : Prop :=
  match su_worker s with
  | WorkerLoop p => exists m, bounded (fun _ => 1%nat) m p /\
      (rely p (fun again _ => again = false) s /\ (m + 7 <= n)%nat \/ (m + 18 <= n)%nat)
  | WorkerDrop p => exists m, bounded (fun _ => 1%nat) m p /\ (m + 1 <= n)%nat
  | WorkerDone => True
  end.
Lemma bounded_after {A} n (p p' : Svc A) s s' : bounded (fun _ => 1%nat) n p -> step_of p s p' s' ->
  exists m, n = S m /\ bounded (fun _ => 1%nat) m p'.
Proof.
  intros Hb Hst. destruct p as [|c k]; [done|]. destruct Hst as (r & _ & ->), Hb as [Hn Hb]. exists (n - 1)%nat.
  split; [lia|apply Hb].
Qed.
Lemma worker_step_left n s s' : worker_ok s -> closed s -> worker_left n s -> worker_step config started s s' ->
  exists m, n = S m /\ worker_left m s'.
Proof.
  intros Hw Hc Hl Hst. destruct (worker_step_ok _ _ Hw Hst) as [He _].
  pose proof (worker_settled _ Hw) as Hs. unfold worker_ok in Hw. unfold worker_left in Hl.
  assert (Hdrop : (7 <= n)%nat -> exists m, n = S m /\ worker_left m (with_worker s (dropped started))).
  { intros Hn. exists (n - 1)%nat. split; [lia|]. exists 5%nat. split; [apply guard_bounded|lia]. }
  destruct Hst as [p p' s' E Hp|E|E|c k E _ _|c k E _|p p' s' E Hp|E]; rewrite E in Hl, Hw.
  - destruct Hl as (m & Hb & Hl). destruct (bounded_after _ _ _ _ _ Hb Hp) as (m' & -> & Hb').
    exists (n - 1)%nat. split; [lia|]. exists m'. split; [done|]. destruct Hl as [[Hr Hn]|Hn]; [left|right; lia].
    split; [|lia]. destruct (rely_step _ _ _ _ _ Hs Hr Hp) as (_ & Hr' & Ew). eapply rely_stable; [|exact Hr'].
    apply evolves_worker. left. congruence.
  - destruct Hl as (m & _ & [[Hr _]|Hn]); [by specialize (Hr s (reflexivity s))|]. exists (n - 1)%nat. split; [lia|].
    exists 10%nat. split; [apply round_bounded|]. left. split; [|lia]. apply round_closed. exact Hc.
  - apply Hdrop. destruct Hl as (m & _ & [[_ Hn]|Hn]); lia.
  - apply Hdrop. destruct Hl as (m & _ & [[_ Hn]|Hn]); lia.
  - apply Hdrop. destruct Hl as (m & _ & [[_ Hn]|Hn]); lia.
  - destruct Hl as (m & Hb & Hl). destruct (bounded_after _ _ _ _ _ Hb Hp) as (m' & -> & Hb').
    exists (n - 1)%nat. split; [lia|]. exists m'. split; [done|lia].
  - destruct Hl as (m & _ & Hn). exists (n - 1)%nat. by split; [lia|].
Qed.
Lemma worker_left_stable n s s' : evolves s s' -> su_worker s' = su_worker s -> worker_left n s -> worker_left n s'.
Proof.
  unfold worker_left. intros He ->. destruct (su_worker s); [|done..]. intros (m & Hb & [[Hr Hn]|Hn]); exists m; split; auto.
  left. split; [by eapply rely_stable|done].
Qed.
Lemma worker_left_start s : worker_bounded s -> worker_left 28 s.
Proof.
  unfold worker_bounded, worker_left. destruct (su_worker s); [intros [Hb _]; eexists; split; [exact Hb|]; lia..|done].
Qed.

Definition by_worker (a : Actor) : bool := match a with ByWorker => true | _ => false end.
Definition worker_steps (l : list Actor) : nat := length (List.filter by_worker l).
Lemma trace_left n y l y' : system_ok y -> closed (sy_shared y) -> worker_left n (sy_shared y) ->
  trace (system_step config started) y l y' -> (worker_steps l <= n)%nat.
Proof.
  intros Hok Hc Hl Ht. revert n Hl. induction Ht as [y|y a y1 l y2 Hst _ IH]; intros n Hl; [cbn; lia|].
  destruct (system_step_ok _ _ _ Hok Hst) as [He Hok1]. specialize (IH Hok1 (ev_closed _ _ He Hc)).
  destruct Hst as [s s' cs Hst|s cs q|s s' cs i q b p p' Hi Hp]; cbn in *.
  - destruct (worker_step_left _ _ _ (proj1 Hok) Hc Hl Hst) as (m & -> & Hm). specialize (IH m Hm).
    unfold worker_steps in *. cbn. lia.
  - by apply IH.
  - apply IH. eapply worker_left_stable; [exact He| |done]. destruct p as [|c k]; [done|]. destruct Hp as (r & Ha & _).
    by eapply answers_worker.
Qed.

(** A call other than a join or of foreign code can always be answered. *)
Lemma call_proceeds c s : waits c = 0%nat -> exists r s', svc_answers c s r s'.
Proof.
  destruct c; cbn; intros Hj; try done.
  all: try (by (repeat eexists)).
  all: try (by exists tt; eexists).
  all: try (exists (Err Unavailable); by eexists).
  - exists (Err MkReleaseCommandError). by eexists.
  - exists None. by eexists.
  - exists SelectedSlept. by eexists.
  - exists false. by eexists.
Qed.
Lemma worker_moves s : worker_bounded s -> su_worker s <> WorkerDone -> exists s', worker_step config started s s'.
Proof.
  unfold worker_bounded. intros Hb Hn. destruct (su_worker s) as [[[]|c k]|[[]|c k]|] eqn:E; [..|done].
  - eexists. by apply wk_again.
  - eexists. by apply wk_break.
  - destruct Hb as [_ [Hj _]]. destruct (foreign c) eqn:Hf; [eexists; by eapply wk_unwind|].
    destruct (call_proceeds c s) as (r & s' & Ha); [unfold waits; rewrite Hf; lia|].
    eexists. eapply wk_call; [done|]. by exists r.
  - eexists. by apply wk_end.
  - destruct Hb as [_ [Hj _]]. destruct (call_proceeds c s) as (r & s' & Ha); [lia|].
    eexists. eapply wk_drop; [done|]. by exists r.
Qed.

(** ** Theorems *)

Variables (now : OffsetDateTime) (s0 : Supervised).
Hypothesis Hstart : OwnershipSupervisor_start now started config = Ok s0.
Abbreviation reached := (reachable_system config started s0).

Lemma reached_ok y : reached y -> system_ok y /\ evolves s0 (sy_shared y) /\ worker_bounded (sy_shared y).
Proof.
  intros [l Ht]. destruct (start_ok _ _ _ Hstart) as [Hok _].
  destruct (system_trace_ok _ _ _ Hok Ht) as [He Hy]. split_and!; [done..|]. eapply system_trace_bounded; [|exact Ht].
  clear -Hstart. unfold OwnershipSupervisor_start in Hstart. case_if_in Hstart as E1; [done|].
  apply bind_Ok in Hstart as (x & _ & H). cbv zeta in H. case_if_in H as E2; [done|]. case_if_in H as E3; [done|].
  injection H as <-. split; [apply round_bounded|apply round_joins].
Qed.


(** the lease a supervisor renews is always for the session, owner and epoch it was
    started with, whatever the store answers; and when its worker has ended, however it
    ended, the gate is closed and the worker is no longer reported as running. *)
Theorem supervisor_invariant y : reachable_system config started s0 y ->
  ol_session_id (su_lease (sy_shared y)) = ol_session_id started /\
  ol_owner (su_lease (sy_shared y)) = ol_owner started /\
  ol_epoch (su_lease (sy_shared y)) = ol_epoch started /\
  (su_worker (sy_shared y) = WorkerDone -> su_running (sy_shared y) = false /\ su_open (sy_shared y) = false).
Proof.
  intros ((Hw & _) & He & _)%reached_ok. destruct (start_ok _ _ _ Hstart) as [_ Hl].
  pose proof (ev_lease _ _ He) as E. rewrite Hl in E. injection E as E1 E2 E3.
  split_and!; [done..|]. by apply worker_settled.
Qed.

(** a shutdown returns only when the worker has ended, with the gate closed, and says
    so. *)
Theorem shutdown_ends_worker y b reply : reached y ->
  (MkClient AskShutdown b (Return reply) ∈ sy_clients y ->
     su_open (sy_shared y) = false /\ exists o, reply = GotShutdown o /\ so_task_terminated o = true) /\
  (MkClient AskShutdownCleared b (Return reply) ∈ sy_clients y ->
     su_open (sy_shared y) = false /\ reply = GotBool true).
Proof.
  intros ((_ & Hcs) & _ & _)%reached_ok. rewrite Forall_forall in Hcs.
  split; intros Hin; exact (Hcs _ Hin (sy_shared y) (reflexivity _)).
Qed.

(** C24: once the gate is closed the worker ends: it takes at most 28 more steps, whatever
    the clients, the store and the clock do, and until it has ended it can always take
    the next one. *)
Theorem worker_ends y l y' : reachable_system config started s0 y -> trace (system_step config started) y l y' -> su_open (sy_shared y) = false ->
  (worker_steps l <= 28)%nat /\
  (su_worker (sy_shared y') <> WorkerDone -> exists y'', system_step config started y' ByWorker y'').
Proof.
  intros (Hy & _ & Hb)%reached_ok Ht Hc. split.
  - eapply trace_left; [exact Hy|done| |exact Ht]. by apply worker_left_start.
  - intros Hn. destruct (worker_moves (sy_shared y')) as [s' Hs']; [by eapply system_trace_bounded|done|].
    destruct y' as [s cs]. exists (MkSystem s' cs). by apply ss_worker.
Qed.
End system.
End services.

(** ** A concrete run *)

(** The supervisor of host 50's lease of session 7.  Its store renews for the worker, and
    command construction fails for clients. *)
Definition demo_lease (expires : Z) : OwnershipLease := MkLease (MkId 7) (MkId 50) (MkFencingEpoch 1) (MkTimestamp expires 0).
Definition demo_config : OwnershipConfig :=
  MkConfig (MkDuration 10000000000) (MkLeaseDuration 50000) (MkDuration 1000000000).
Definition demo_clock : @OffsetDateTime UtcLib := utc_at 100 0 eq_refl.
Definition demo_renewal : RenewOwnership :=
  MkRenewOwnership (MkContext (MkId 1) (MkId 50)) (MkId 7) (MkFencingEpoch 1) (MkLeaseDuration 50000).
Definition respond (client : bool) (c : SvcCall) (s : Supervised) : option (@SvcAnswer UtcLib c * Supervised) :=
  match c as c return option (@SvcAnswer UtcLib c * Supervised) with
  | LoadOpen => Some (su_open s, s)
  | LoadGeneration => Some (su_generation s, s)
  | StoreOpen b => Some (tt, with_open s b)
  | AddGeneration => Some (tt, with_next_generation s)
  | LockLease => Some (su_lease s, s)
  | SetLease l => Some (tt, with_lease s l)
  | WriteStatus t => Some (tt, with_status s t)
  | StoreRunning b => Some (tt, with_running s b)
  | LoadRunning => Some (su_running s, s)
  | ClockNow => Some (demo_clock, s)
  | CreateRenewal _ _ => Some (if client then Err MkRenewalCommandError else Ok demo_renewal, s)
  | RenewCall _ => Some (Ok (Applied (demo_lease 250)), s)
  | CreateRelease _ => Some (Err MkReleaseCommandError, s)
  | SelectCall _ => Some (SelectedSlept, s)
  | SendStop => Some (tt, with_stop s)
  | AbortTask => Some (tt, with_aborted s)
  | JoinTask => match su_worker s with WorkerDone => Some (tt, s) | _ => None end
  | JoinWithin _ => Some (match su_worker s with WorkerDone => true | _ => false end, s)
  | _ => None
  end.
Lemma respond_answers client c s r s' : respond client c s = Some (r, s') -> @svc_answers UtcLib c s r s'.
Proof.
  destruct c; cbn; try (by intros [= <- <-]); try done.
  - intros [= <- <-]. destruct (su_worker s) eqn:E; by split.
  - destruct (su_worker s) eqn:E; try done. intros [= <- <-]. by split.
Qed.
Definition advance_program {A} (client : bool) (p : Prog (@SvcAnswer UtcLib) A) (s : Supervised) :
    option (Prog (@SvcAnswer UtcLib) A * Supervised) :=
  match p with
  | Return _ => None
  | Do c k => match respond client c s with Some (r, s') => Some (k r, s') | None => None end
  end.
Definition advance_system (a : Actor) (y : System) : option System :=
  let s := sy_shared y in
  match a with
  | Made q => Some (MkSystem s (sy_clients y ++ [MkClient q (su_open s) (client_program demo_config q)]))
  | ByClient i =>
      match sy_clients y !! i with
      | Some (MkClient q b p) =>
          match advance_program true p s with
          | Some (p', s') => Some (MkSystem s' (<[i := MkClient q b p']> (sy_clients y))) | None => None end
      | None => None
      end
  | ByWorker =>
      match su_worker s with
      | WorkerLoop (Return true) => Some (MkSystem (with_worker s (WorkerLoop (worker_round demo_config))) (sy_clients y))
      | WorkerLoop (Return false) => Some (MkSystem (with_worker s (dropped (demo_lease 200))) (sy_clients y))
      | WorkerLoop p =>
          match advance_program false p s with
          | Some (p', s') => Some (MkSystem (with_worker s' (WorkerLoop p')) (sy_clients y)) | None => None end
      | WorkerDrop (Return _) => Some (MkSystem (with_worker s WorkerDone) (sy_clients y))
      | WorkerDrop p =>
          match advance_program false p s with
          | Some (p', s') => Some (MkSystem (with_worker s' (WorkerDrop p')) (sy_clients y)) | None => None end
      | WorkerDone => None
      end
  end.
Definition demo_step := @system_step UtcLib demo_config (demo_lease 200).
Lemma advance_program_step {A} client (p p' : Prog (@SvcAnswer UtcLib) A) s s' :
  advance_program client p s = Some (p', s') -> prog_step (@svc_answers UtcLib) p s p' s'.
Proof.
  destruct p as [|c k]; cbn; [done|]. destruct (respond client c s) as [[r s1]|] eqn:E; [|done].
  intros [= <- <-]. exists r. split; [by apply respond_answers in E|done].
Qed.
Lemma advance_system_step a y y' : advance_system a y = Some y' -> demo_step y a y'.
Proof.
  destruct y as [s cs], a as [|i|q]; cbn [advance_system sy_shared sy_clients].
  - destruct (su_worker s) as [p|p|] eqn:E; [| |done].
    + destruct p as [[]|c k]; [intros [= <-]; by apply ss_worker, wk_again|intros [= <-]; by apply ss_worker, wk_break|].
      destruct (advance_program false (Do c k) s) as [[p' s']|] eqn:Ea; [|done]. intros [= <-].
      apply ss_worker. eapply wk_call; [exact E|by eapply advance_program_step].
    + destruct p as [[]|c k]; [intros [= <-]; by apply ss_worker, wk_end|].
      destruct (advance_program false (Do c k) s) as [[p' s']|] eqn:Ea; [|done]. intros [= <-].
      apply ss_worker. eapply wk_drop; [exact E|by eapply advance_program_step].
  - destruct (cs !! i) as [[q b p]|] eqn:Ei; [|done]. destruct (advance_program true p s) as [[p' s']|] eqn:Ea; [|done].
    intros [= <-]. eapply ss_client; [exact Ei|by eapply advance_program_step].
  - intros [= <-]. apply ss_request.
Qed.
Fixpoint advance_all (l : list Actor) (y : System) : option System :=
  match l with [] => Some y | a :: l => match advance_system a y with Some y' => advance_all l y' | None => None end end.
Lemma advance_all_trace l y y' : advance_all l y = Some y' -> trace demo_step y l y'.
Proof.
  revert y. induction l as [|a l IH]; intros y; cbn; [intros [= <-]; constructor|].
  destruct (advance_system a y) as [y1|] eqn:E; [|done]. intros H. econstructor; [by apply advance_system_step|by apply IH].
Qed.
Definition demo_supervised : Supervised :=
  MkSupervised true 1 (demo_lease 200) (StatusActive (MkId 7) (MkFencingEpoch 1) (MkTimestamp 200 0)) true false false
    (WorkerLoop (worker_round demo_config)).
Lemma demo_starts : OwnershipSupervisor_start demo_clock (demo_lease 200) demo_config = Ok demo_supervised.
Proof. reflexivity. Qed.
Definition demo_reached := @reachable_system UtcLib demo_config (demo_lease 200) demo_supervised.

(** A client's renewal fails and closes the gate while a renewal of the worker is under
    way, which then succeeds; the worker ends, a client asks for a permit, and the
    supervisor is shut down. *)
Definition demo_loss : list Actor := repeat ByWorker 5 ++ Made AskTick :: repeat (ByClient 0) 7.
Definition demo_end : list Actor := repeat ByWorker 11.
Definition demo_late : list Actor :=
  demo_end ++ Made AskAdmit :: repeat (ByClient 1) 2 ++ Made AskShutdown :: repeat (ByClient 2) 11.
Definition demo_system (l : list Actor) : option System := advance_all l (system_start demo_supervised).
Lemma demo_system_reached l y : demo_system l = Some y -> demo_reached y.
Proof. intros H. exists l. by apply advance_all_trace. Qed.
Lemma demo_split l l' y' : demo_system (l ++ l') = Some y' -> exists y, demo_system l = Some y /\ trace demo_step y l' y'.
Proof.
  unfold demo_system. generalize (system_start demo_supervised). induction l as [|a l IH]; intros y0; cbn.
  - intros H. exists y0. split; [done|by apply advance_all_trace].
  - destruct (advance_system a y0) as [y1|]; [apply IH|done].
Qed.

(** What is observed of a system. *)
Definition worker_is_done (s : Supervised) : bool := match su_worker s with WorkerDone => true | _ => false end.
Definition answered (c : Client) : option (SvcRequest * bool * SvcReply) :=
  match c with MkClient q b (Return r) => Some (q, b, r) | _ => None end.
Definition observed (y : System) : bool * bool * OwnershipStatus * list (option (SvcRequest * bool * SvcReply)) :=
  (su_open (sy_shared y), worker_is_done (sy_shared y), su_status (sy_shared y), answered <$> sy_clients y).
Lemma worker_is_done_true s : worker_is_done s = true -> su_worker s = WorkerDone.
Proof. unfold worker_is_done. by destruct (su_worker s). Qed.
Lemma answered_client y i q b r : (answered <$> sy_clients y) !! i = Some (Some (q, b, r)) ->
  MkClient q b (Return r) ∈ sy_clients y.
Proof.
  rewrite list_lookup_fmap. destruct (sy_clients y !! i) as [[q' b' [r'|]]|] eqn:E; cbn; try done.
  intros [= -> -> ->]. by eapply list_elem_of_lookup_2.
Qed.
Lemma demo_observed l o : observed <$> demo_system l = Some o -> exists y, demo_system l = Some y /\ observed y = o.
Proof. destruct (demo_system l) as [y|]; [|done]. intros [= <-]. by exists y. Qed.

(** After a lost ownership the status may again say that it is active, and stays so. *)
Theorem status_outlives_loss : exists y, demo_reached y /\ su_open (sy_shared y) = false /\
  su_worker (sy_shared y) = WorkerDone /\
  su_status (sy_shared y) = StatusActive (MkId 7) (MkFencingEpoch 1) (MkTimestamp 250 0).
Proof.
  destruct (demo_observed (demo_loss ++ demo_end) _ ltac:(vm_compute; reflexivity)) as (y & Hy & [= Ho Hd Hs _]).
  exists y. split; [by eapply demo_system_reached|]. split_and!; [done|by apply worker_is_done_true|done].
Qed.

(** ** Witnesses *)

Lemma demo_final_facts : exists y1 y2, demo_reached y1 /\ trace demo_step y1 demo_late y2 /\ demo_reached y2 /\
  su_open (sy_shared y1) = false /\ su_worker (sy_shared y2) = WorkerDone /\
  MkClient AskAdmit false (Return (GotPermit (Err AdmissionClosed))) ∈ sy_clients y2 /\
  MkClient AskShutdown false (Return (GotShutdown (MkShutdownOutcome true CommandFailed))) ∈ sy_clients y2.
Proof.
  destruct (demo_observed (demo_loss ++ demo_late) _ ltac:(vm_compute; reflexivity)) as (y2 & H2 & [= Ho Hd Hs Hc]).
  destruct (demo_observed demo_loss _ ltac:(vm_compute; reflexivity)) as (y1 & H1 & [= Ho1 _ _ _]).
  destruct (demo_split _ _ _ H2) as (y & Hy & Ht). rewrite H1 in Hy. injection Hy as <-. exists y1, y2.
  split_and!; [by eapply demo_system_reached|done|by eapply demo_system_reached|done|by apply worker_is_done_true|..].
  - apply (answered_client _ 1). rewrite Hc. reflexivity.
  - apply (answered_client _ 2). rewrite Hc. reflexivity.
Qed.


Lemma supervisor_invariant_witness : exists y, demo_reached y /\ su_worker (sy_shared y) = WorkerDone /\
  ol_owner (su_lease (sy_shared y)) = MkId 50 /\ su_open (sy_shared y) = false.
Proof.
  destruct demo_final_facts as (y1 & y2 & _ & _ & R2 & _ & Hd & _).
  destruct (@supervisor_invariant UtcLib demo_config (demo_lease 200) demo_clock demo_supervised demo_starts y2 R2)
    as (_ & Ho & _ & Hdone).
  exists y2. split; [exact R2|]. split; [exact Hd|]. split; [exact Ho|exact (proj2 (Hdone Hd))].
Defined.

Lemma shutdown_ends_worker_witness : exists y b reply o, demo_reached y /\
  MkClient AskShutdown b (Return reply) ∈ sy_clients y /\ reply = GotShutdown o /\ so_task_terminated o = true.
Proof.
  destruct demo_final_facts as (y1 & y2 & _ & _ & R2 & _ & _ & _ & Hin).
  destruct (@shutdown_ends_worker UtcLib demo_config (demo_lease 200) demo_clock demo_supervised demo_starts
    y2 false (GotShutdown (MkShutdownOutcome true CommandFailed)) R2) as [H _]. destruct (H Hin) as (_ & o & Ho & Ht).
  exists y2, false, (GotShutdown (MkShutdownOutcome true CommandFailed)), o. split; [exact R2|]. split; [exact Hin|]. split; [exact Ho|exact Ht].
Defined.

Lemma worker_ends_witness : exists y1 y2, trace demo_step y1 demo_late y2 /\ su_open (sy_shared y1) = false /\
  worker_steps demo_late = 11%nat /\ (worker_steps demo_late <= 28)%nat.
Proof.
  destruct demo_final_facts as (y1 & y2 & R1 & Ht & _ & Hc & _). exists y1, y2. split; [exact Ht|]. split; [exact Hc|].
  split; [reflexivity|].
  exact (proj1 (@worker_ends UtcLib demo_config (demo_lease 200) demo_clock demo_supervised demo_starts
    y1 demo_late y2 R1 Ht Hc)).
Defined.
