(* ===== verification/Delivery.v ===== *)
(** * Delivery: the loop that hands messages to a driver

    Models crates/navigator-core/src/delivery.rs: [DeliveryLoop::drive_once] and
    [reconcile] as programs that call the mailbox store, the driver, the context factory
    and the admission permit, and their composition with the store of Kernel.v.

    Any number of drives of any number of loops run interleaved, call by call, with each
    other and with every other step of the store ([delivery_step_of]); a drive may stop
    at any call.  The driver answers anything, or not in time.  Drives of one stripe of
    participants hold a lock in the code; here they may overlap. *)
From stdpp Require Import functions.
From S2P Require Import Prelude Program Scalars Session Authority Operation Capacity Json StoreApi StoreWire.
From S2P Require Import Approval Template Message OperationApi SqliteDb SqliteSession SessionLedger Ownership.
From S2P Require Import SqliteMailbox MailboxLedger Kernel Scenario Services Mailbox.

Inductive AcceptanceObservation := ObAccepted (proof_digest : bytes) | ObNotAccepted | ObUnknown.
Inductive DeliveryPhase :=
| PhLease | PhAcceptancePending | PhAcceptanceUnknown | PhRetry | PhAccepted | PhUncertain | PhDeadLetter.
Inductive DeliveryDriverError := MkDriverError.
Inductive DeliveryLoopError := DlService (e : ServiceError) | DlStore (e : StoreError).
Inductive DeliveryConfigError := MkDeliveryConfigError.
Inductive DeliveryStep :=
| StepEmpty | StepAccepted (m : MessageId) | StepDeadLetter (m : MessageId) | StepUncertain (m : MessageId)
| StepReconciliationRequired (m : MessageId) | StepRetryScheduled (m : MessageId).
(** An error that is returned, or a panic ([unreachable!] and [expect]). *)
Inductive Fault := Failed (e : DeliveryLoopError) | Panicked.

Record DeliveryLoop := MkLoop {
  lp_lease_duration : Duration;
  lp_retry_backoff : Duration;
  lp_driver_call_timeout : Duration;
}.

(** The largest [Duration], and the addition that stops there. *)
Definition DURATION_MAX : Z := u64_max * 1000000000 + 999999999.
Definition saturating_add (a b : Duration) : Duration :=
  MkDuration (Z.min DURATION_MAX (duration_nanos a + duration_nanos b)).
Definition delivery_deadlines_are_valid (lease_duration call_timeout : Duration) : bool :=
  negb (duration_nanos call_timeout =? 0)
  && (duration_nanos (saturating_add call_timeout (MkDuration 10000000)) <? duration_nanos lease_duration).
Definition DeliveryLoop_new (lease_duration retry_backoff driver_call_timeout : Duration) :
    result DeliveryConfigError DeliveryLoop :=
  if negb (delivery_deadlines_are_valid lease_duration driver_call_timeout) then Err MkDeliveryConfigError
  else Ok (MkLoop lease_duration retry_backoff driver_call_timeout).

(** ** The programs *)

Inductive DelCall :=
| LockStripe (stripe : Z) | UnlockStripe (stripe : Z)
| CheckPermit
| NewContext (message_id : option MessageId) (phase : DeliveryPhase) | NewAttempt (destination : ParticipantId)
| CallLease (c : LeaseNextMessage) | CallTransition (c : TransitionMessageDelivery)
| CallDeliver (m : MessageSnapshot) (l : DeliveryLease) (timeout : Duration)
| CallQuery (m : MessageId) (l : DeliveryLease) (timeout : Duration).
(** A call under [tokio::time::timeout] answers [None] when the time is over. *)
Definition DelAnswer (c : DelCall) : Type :=
  match c with
  | LockStripe _ | UnlockStripe _ => unit
  | CheckPermit => result ServiceError unit
  | NewContext _ _ => RequestContext
  | NewAttempt _ => DeliveryAttemptId
  | CallLease _ => result StoreError (Mutation (option MessageSnapshot))
  | CallTransition _ => result StoreError (Mutation MessageSnapshot)
  | CallDeliver _ _ _ | CallQuery _ _ _ => option (result DeliveryDriverError AcceptanceObservation)
  end.
Abbreviation Del := (Prog DelAnswer).
Abbreviation ask := (@call DelCall DelAnswer).

(** The [?] operator. *)
Definition try_bind {A B} (p : Del (result Fault A)) (f : A -> Del (result Fault B)) : Del (result Fault B) :=
  r ← p; match r with Ok a => f a | Err e => mret (Err e) end.
Notation "x ⇐ p ; k" := (try_bind p (fun x => k)) (at level 20, p at level 100, k at level 200, right associativity).

Definition check_permit : Del (result Fault unit) :=
  checked ← ask CheckPermit; mret (map_err (fun e => Failed (DlService e)) checked).

Section loop.
Variable lp : DeliveryLoop.
Variable epoch : FencingEpoch.

Definition transition (message : MessageSnapshot) (attempt_id : DeliveryAttemptId) (phase : DeliveryPhase)
    (t : DeliveryTransition) : Del (result Fault MessageSnapshot) :=
  _ ⇐ check_permit;
  context ← ask (NewContext (Some (ms_message_id message)) phase);
  answer ← ask (CallTransition (MkTransition context (ms_session_id message) epoch (ms_message_id message) attempt_id
    (ms_revision message) t));
  mret (match answer with Ok m => Ok (Mutation_value m) | Err e => Err (Failed (DlStore e)) end).

(** [tokio::time::timeout(..).await], with the elapsed time as a driver error. *)
Definition deliver (message : MessageSnapshot) (lease : DeliveryLease) :
    Del (result DeliveryDriverError AcceptanceObservation) :=
  answer ← ask (CallDeliver message lease (lp_driver_call_timeout lp));
  mret (match answer with Some r => r | None => Err MkDriverError end).
Definition query_acceptance (message_id : MessageId) (lease : DeliveryLease) :
    Del (result DeliveryDriverError AcceptanceObservation) :=
  answer ← ask (CallQuery message_id lease (lp_driver_call_timeout lp));
  mret (match answer with Some r => r | None => Err MkDriverError end).

(** [BoundedText::new(..).expect(..)]. *)
Definition static_reason (s : string) : Del (result Fault DeliveryReason) :=
  mret (map_err (fun _ => Panicked) (BoundedText_new s)).

Definition uncertain (message : MessageSnapshot) (attempt_id : DeliveryAttemptId) : Del (result Fault DeliveryStep) :=
  reason ⇐ static_reason "Driver cannot prove delivery acceptance";
  _ ⇐ transition message attempt_id PhUncertain (DtUncertain reason);
  mret (Ok (StepUncertain (ms_message_id message))).

(** What is done with the driver's answer to a query after an unknown delivery. *)
Definition settle_query (pending : MessageSnapshot) (pending_lease : DeliveryLease)
    (query : result DeliveryDriverError AcceptanceObservation) : Del (result Fault DeliveryStep) :=
  match query with
  | Ok (ObAccepted proof_digest) =>
      _ ⇐ transition pending (dl_attempt_id pending_lease) PhAccepted (DtAccepted proof_digest);
      mret (Ok (StepAccepted (ms_message_id pending)))
  | Ok ObNotAccepted =>
      _ ⇐ transition pending (dl_attempt_id pending_lease) PhRetry (DtRetryAfter (lp_retry_backoff lp));
      mret (Ok (StepRetryScheduled (ms_message_id pending)))
  | Ok ObUnknown | Err _ => mret (Ok (StepReconciliationRequired (ms_message_id pending)))
  end.

Definition settle_unknown (message : MessageSnapshot) (lease : DeliveryLease) (was_reconciliation : bool) :
    Del (result Fault DeliveryStep) :=
  if negb was_reconciliation then
    pending ⇐ transition message (dl_attempt_id lease) PhAcceptanceUnknown DtAcceptanceUnknown;
    _ ⇐ check_permit;
    match ms_state pending with
    | MsAcceptanceUnknown pending_lease =>
        query ← query_acceptance (ms_message_id pending) pending_lease;
        settle_query pending pending_lease query
    | _ => mret (Err Panicked)
    end
  else uncertain message (dl_attempt_id lease).

(** [match observation]. *)
Definition settle (message : MessageSnapshot) (lease : DeliveryLease) (was_reconciliation : bool)
    (observation : result DeliveryDriverError AcceptanceObservation) : Del (result Fault DeliveryStep) :=
  match observation with
  | Ok (ObAccepted proof_digest) =>
      _ ⇐ transition message (dl_attempt_id lease) PhAccepted (DtAccepted proof_digest);
      mret (Ok (StepAccepted (ms_message_id message)))
  | Ok ObNotAccepted =>
      if MAX_DELIVERY_ATTEMPTS <=? ms_attempt_count message then
        reason ⇐ static_reason "Delivery attempt budget exhausted";
        _ ⇐ transition message (dl_attempt_id lease) PhDeadLetter (DtDeadLetter reason);
        mret (Ok (StepDeadLetter (ms_message_id message)))
      else
        _ ⇐ transition message (dl_attempt_id lease) PhRetry (DtRetryAfter (lp_retry_backoff lp));
        mret (Ok (StepRetryScheduled (ms_message_id message)))
  | Ok ObUnknown | Err _ => settle_unknown message lease was_reconciliation
  end.

Definition reconcile (message : MessageSnapshot) : Del (result Fault DeliveryStep) :=
  match ms_state message with
  | MsAcceptancePending lease | MsAcceptanceUnknown lease =>
      observation ← query_acceptance (ms_message_id message) lease;
      settle message lease true observation
  | MsLeased lease =>
      _ ⇐ check_permit;
      message ⇐ transition message (dl_attempt_id lease) PhAcceptancePending DtAcceptancePending;
      _ ⇐ check_permit;
      observation ← deliver message lease;
      settle message lease false observation
  | MsAccepted _ _ _ => mret (Ok (StepAccepted (ms_message_id message)))
  | MsUncertain _ _ => mret (Ok (StepUncertain (ms_message_id message)))
  | MsDeadLetter _ => mret (Ok (StepDeadLetter (ms_message_id message)))
  | MsQueued | MsRetryScheduled _ => mret (Ok StepEmpty)
  end.

(** The first byte of the identity, modulo the 64 locks. *)
Definition stripe (destination : ParticipantId) : Z := (as_uuid destination / 2 ^ 120) mod 256 mod 64.

Definition drive_locked (session_id : SessionId) (destination : ParticipantId) (instance_id : InstanceId)
    (driver_launch_attempt_id : LaunchAttemptId) : Del (result Fault DeliveryStep) :=
  _ ⇐ check_permit;
  context ← ask (NewContext None PhLease);
  attempt ← ask (NewAttempt destination);
  leased ← ask (CallLease (MkLeaseNext context session_id epoch destination instance_id driver_launch_attempt_id attempt
    (lp_lease_duration lp)));
  match leased with
  | Err e => mret (Err (Failed (DlStore e)))
  | Ok leased =>
      match Mutation_value leased with
      | None => mret (Ok StepEmpty)
      | Some message => reconcile message
      end
  end.
Definition drive_once (session_id : SessionId) (destination : ParticipantId) (instance_id : InstanceId)
    (driver_launch_attempt_id : LaunchAttemptId) : Del (result Fault DeliveryStep) :=
  _ ← ask (LockStripe (stripe destination));
  r ← drive_locked session_id destination instance_id driver_launch_attempt_id;
  _ ← ask (UnlockStripe (stripe destination));
  mret r.
End loop.

(** ** The world the drives share *)

(** The store, whether the permit of the drives still passes, and the messages handed to
    the driver so far with the leases, the last one first. *)
Record DWorld := MkDWorld { dw_db : Db; dw_open : bool; dw_handed : list (MessageSnapshot * DeliveryLease) }.
Definition with_db (w : DWorld) (d : Db) : DWorld := MkDWorld d (dw_open w) (dw_handed w).

Section delivery.
Context {TL : TimeLib} {TA : TimeArith} {SH : Sha256} {JS : Json} {JR : JsonRaw} {UT : UuidText}.
Context {TLaws : TimeLaws} {TALaws : TimeArithLaws}.
Variable max_lease_millis : Z.
Variable limit_profile : LimitProfile.
Abbreviation kernel_step := (kernel_step max_lease_millis limit_profile).
Abbreviation reachable := (reachable max_lease_millis limit_profile).

(** A call of the store with a new request identity: it is carried out, and the answer
    may be lost; or it fails before. *)
Definition store_answers {C A} `{!MutableRequest C} (c : C) (handler : Timestamp -> Tx A) (w : DWorld)
    (r : result StoreError A) (w' : DWorld) : Prop :=
  (exists now, Timestamp_wf now /\ db_ledger (dw_db w) !! rc_request_id (mr_context c) = None /\
     (r = (run (handler now) (dw_db w)).2 \/ r = Err Unavailable) /\ w' = with_db w (run (handler now) (dw_db w)).1) \/
  (r = Err Unavailable /\ w' = w).

Definition del_answers (c : DelCall) (w : DWorld) : DelAnswer c -> DWorld -> Prop :=
  match c with
  | CheckPermit => fun r w' => r = (if dw_open w then Ok tt else Err AdmissionClosed) /\ w' = w
  | CallLease c => store_answers c (fun now => lease_next_message max_lease_millis now c) w
  | CallTransition c => store_answers c (fun now => transition_message_delivery max_lease_millis limit_profile now c) w
  | CallDeliver m l _ => fun _ w' => w' = MkDWorld (dw_db w) (dw_open w) ((m, l) :: dw_handed w)
  | _ => fun _ w' => w' = w
  end.

Definition Drive : Type := Del (result Fault DeliveryStep).
Record DSystem := MkDSystem { dy_world : DWorld; dy_drives : list Drive }.
(** Durations of the code are never negative. *)
Definition loop_wf (lp : DeliveryLoop) : Prop :=
  0 <= duration_nanos (lp_lease_duration lp) /\ 0 <= duration_nanos (lp_retry_backoff lp).

Inductive delivery_step_of : DSystem -> DSystem -> Prop :=
| de_store w ds d' : kernel_step (dw_db w) d' -> delivery_step_of (MkDSystem w ds) (MkDSystem (with_db w d') ds)
| de_close w ds : delivery_step_of (MkDSystem w ds) (MkDSystem (MkDWorld (dw_db w) false (dw_handed w)) ds)
| de_begin w ds lp epoch session_id destination instance_id launch : loop_wf lp ->
    delivery_step_of (MkDSystem w ds)
      (MkDSystem w (ds ++ [drive_once lp epoch session_id destination instance_id launch]))
| de_call w ds i p p' w' : ds !! i = Some p -> prog_step del_answers p w p' w' ->
    delivery_step_of (MkDSystem w ds) (MkDSystem w' (<[i := p']> ds)).
(** From a store that was reached, with nothing handed over. *)
Definition delivery_reachable (y : DSystem) : Prop :=
  exists d b, reachable d /\ rtc delivery_step_of (MkDSystem (MkDWorld d b []) []) y.

(** ** What a call does to the store *)

Definition calls_wf (c : DelCall) : Prop :=
  match c with
  | CallLease c => request_wf (RqLease c)
  | CallTransition c => request_wf (RqReport c)
  | _ => True
  end.
Lemma run_discard {A} (m : Tx A) d : (run (discard m) d).1 = (run m d).1.
Proof. unfold run, discard, mbind, tx_bind. by destruct (m d). Qed.
Lemma answers_steps c w r w' : calls_wf c -> del_answers c w r w' -> rtc kernel_step (dw_db w) (dw_db w').
Proof.
  assert (Hcall : forall A (m : Timestamp -> Tx A) q, request_wf q -> (forall now, handler max_lease_millis limit_profile now q = discard (m now)) ->
    forall now, Timestamp_wf now -> rtc kernel_step (dw_db w) (run (m now) (dw_db w)).1).
  { intros A m q Hq Hm now Hn. apply rtc_once. rewrite <-run_discard, <-Hm. by apply ks_request. }
  destruct c as [| | | | |c|c| |]; cbn; intros Hwf Ha; try (subst; reflexivity).
  - destruct Ha as [_ ->]. reflexivity.
  - destruct Ha as [(now & Hn & _ & _ & ->)|[_ ->]]; [|reflexivity]. by apply (Hcall _ (fun now => lease_next_message max_lease_millis now c) (RqLease c)).
  - destruct Ha as [(now & Hn & _ & _ & ->)|[_ ->]]; [|reflexivity]. by apply (Hcall _ (fun now => transition_message_delivery max_lease_millis limit_profile now c) (RqReport c)).
Qed.

(** A request identity that was not used is not answered by a replay. *)
Lemma wp_fresh {C} `{!MutableRequest C} (c : C) (Q : option (option MessageSnapshot) -> Db -> Prop) F d :
  db_ledger d !! rc_request_id (mr_context c) = None -> Q None d -> wp (replay_json_message c) Q F d.
Proof.
  intros Hl HQ. unfold replay_json_message. apply wp_bind, wp_quiet; [apply quiet_replay_bytes|].
  intros o d' H. apply replay_bytes_Next in H as [-> H]. destruct o as [x|]; [|by apply wp_ret].
  destruct H as (row & eff & Hrow & _). unfold request_of in Hrow. congruence.
Qed.
Lemma wp_skip {A B} (m : Tx A) (f : A -> Tx B) (Q : B -> Db -> Prop) d :
  (forall a d', wp (f a) Q (fun _ => True) d') -> wp (m ≫= f) Q (fun _ => True) d.
Proof. intros H. apply wp_bind. unfold wp at 1. destruct (m d); auto. Qed.
#[local] Ltac skip := repeat (cbv zeta; first
  [apply wp_finish; done | apply wp_abort | apply wp_ret; reflexivity | apply wp_skip; intros ? ? | case_match]).
Lemma lease_applied now c d : db_ledger d !! rc_request_id (ln_context c) = None ->
  wp (lease_next_message max_lease_millis now c) (fun v _ => v = Applied (Mutation_value v)) (fun _ => True) d.
Proof.
  intros Hl. unfold lease_next_message. apply wp_bind, wp_fresh; [done|].
  unfold lease_selected, take_over, lease_anew, record_lease. skip.
Qed.
Lemma transition_applied now c d : db_ledger d !! rc_request_id (td_context c) = None ->
  wp (transition_message_delivery max_lease_millis limit_profile now c) (fun v _ => v = Applied (Mutation_value v)) (fun _ => True) d.
Proof. intros Hl. unfold transition_message_delivery. apply wp_bind, wp_fresh; [done|]. skip. Qed.

Lemma run_Ok {A} (m : Tx A) d v : (run m d).2 = Ok v -> exists d', m d = Next v d' /\ (run m d).1 = d'.
Proof. unfold run. destruct (m d) as [a d'| |]; try done. intros [= <-]. by exists d'. Qed.
Lemma transition_answer c w r w' : reachable (dw_db w) -> request_wf (RqReport c) ->
  del_answers (CallTransition c) w r w' ->
  (exists e, r = Err e) \/ exists m', r = Ok (Applied m') /\ report_done c (dw_db w) (Applied m') (dw_db w').
Proof.
  intros Hreach Hq [(now & Hn & Hl & [Hr| ->] & ->)|[-> _]]; [|by left; eexists..].
  destruct r as [v|e]; [|by left; eexists]. right. destruct (run_Ok _ _ _ (eq_sym Hr)) as (d' & Hd' & Erun). cbn. rewrite Erun.
  pose proof (transition_applied now c _ Hl) as Ha. unfold wp in Ha. rewrite Hd' in Ha. exists (Mutation_value v).
  pose proof (transition_call max_lease_millis limit_profile now c (dw_db w) (reachable_rows _ _ _ Hreach) Hn Hq) as Hc.
  unfold wp in Hc. rewrite Hd', Ha in Hc. split; [by rewrite <-Ha|]. apply Hc.
Qed.
Lemma lease_answered c w r w' : reachable (dw_db w) -> request_wf (RqLease c) -> del_answers (CallLease c) w r w' ->
  (exists e, r = Err e) \/ exists o, r = Ok (Applied o) /\ (forall m, o = Some m -> stored m (dw_db w')).
Proof.
  intros Hreach Hq [(now & Hn & Hl & [Hr| ->] & ->)|[-> _]]; [|by left; eexists..].
  destruct r as [v|e]; [|by left; eexists]. right. destruct (run_Ok _ _ _ (eq_sym Hr)) as (d' & Hd' & Erun). cbn. rewrite Erun.
  pose proof (lease_applied now c _ Hl) as Ha. unfold wp in Ha. rewrite Hd' in Ha. exists (Mutation_value v).
  pose proof (lease_next_call max_lease_millis now c (dw_db w) (reachable_rows _ _ _ Hreach) Hn Hq) as Hc.
  unfold wp in Hc. rewrite Hd', Ha in Hc. split; [by rewrite <-Ha|]. destruct Hc as (_ & _ & _ & _ & Hs).
  intros m Hm. apply Hs. by rewrite Hm.
Qed.

(** ** What a drive says is true *)

(** The message was once stored in a state with [P]. *)
Definition happened (P : MessageDeliveryState -> Prop) (id : MessageId) (d : Db) : Prop :=
  exists m r, ms_message_id m = id /\ P (ms_state m) /\ db_messages d !! id = Some r /\ rtc delivers m (mg_snapshot r).
Lemma stored_happened (P : MessageDeliveryState -> Prop) m d : stored m d -> P (ms_state m) -> happened P (ms_message_id m) d.
Proof.
  unfold stored. intros Hs HP. destruct (db_messages d !! ms_message_id m) as [r|] eqn:E; [|done].
  injection Hs as Hs. exists m, r. split_and!; [done..|]. by rewrite Hs.
Qed.
Lemma happened_later P id d d' : reachable d -> rtc kernel_step d d' -> happened P id d -> happened P id d'.
Proof.
  intros Hreach Hst (m & r & Hid & HP & Hr & Hd). destruct (history_message _ _ _ _ _ _ Hreach Hst Hr) as (m' & Hr' & Hd').
  exists m, (with_snapshot r m'). split_and!; [done..|]. cbn. by etrans.
Qed.
Definition is_accepted (s : MessageDeliveryState) : Prop := match s with MsAccepted _ _ _ => True | _ => False end.
Definition is_dead (s : MessageDeliveryState) : Prop := match s with MsDeadLetter _ => True | _ => False end.
Definition is_uncertain (s : MessageDeliveryState) : Prop := match s with MsUncertain _ _ => True | _ => False end.
Definition is_scheduled (s : MessageDeliveryState) : Prop := match s with MsRetryScheduled _ => True | _ => False end.
Definition is_unknown (s : MessageDeliveryState) : Prop := match s with MsAcceptanceUnknown _ => True | _ => False end.
Definition step_true (r : result Fault DeliveryStep) (d : Db) : Prop :=
  match r with
  | Err Panicked => False
  | Err (Failed _) | Ok StepEmpty => True
  | Ok (StepAccepted id) => happened is_accepted id d
  | Ok (StepDeadLetter id) => happened is_dead id d
  | Ok (StepUncertain id) => happened is_uncertain id d
  | Ok (StepRetryScheduled id) => happened is_scheduled id d
  | Ok (StepReconciliationRequired id) => happened is_unknown id d
  end.
Lemma step_true_later r d d' : reachable d -> rtc kernel_step d d' -> step_true r d -> step_true r d'.
Proof. intros Hr Hs. destruct r as [[]|[]]; cbn; try done; by apply happened_later. Qed.

(** From the store [d] on, the calls of the program are well-formed and what it returns
    satisfies [Q], whatever happens between its calls. *)
Fixpoint promises {A} (p : Del A) (Q : A -> Db -> Prop) (d : Db) : Prop :=
  match p with
  | Return a => forall d1, reachable d1 -> rtc kernel_step d d1 -> Q a d1
  | Do c k => calls_wf c /\ forall w, reachable (dw_db w) -> rtc kernel_step d (dw_db w) ->
      forall r w', del_answers c w r w' -> promises (k r) Q (dw_db w')
  end.
Lemma promises_later {A} (p : Del A) Q d d' : rtc kernel_step d d' -> promises p Q d -> promises p Q d'.
Proof.
  intros Hst. destruct p as [a|c k]; cbn.
  - intros H d1 Hr H1. apply H; [done|by etrans].
  - intros [Hwf H]. split; [done|]. intros w Hr Hw. apply H; [done|by etrans].
Qed.
Lemma promises_bind {A B} (p : Del A) (f : A -> Del B) (Q : B -> Db -> Prop) d : reachable d ->
  promises p (fun a => promises (f a) Q) d -> promises (p ≫= f) Q d.
Proof.
  revert d. induction p as [a|c k IH]; intros d Hd; cbn; [intros H; exact (H d Hd (rtc_refl _ _))|].
  intros [Hwf H]. split; [done|]. intros w Hr Hw r w' Ha. apply IH; [|by eapply H].
  eapply reachable_steps; [exact Hr|by eapply answers_steps].
Qed.
Lemma promises_mono {A} (p : Del A) (Q Q' : A -> Db -> Prop) d :
  promises p Q d -> (forall a d', reachable d' -> Q a d' -> Q' a d') -> promises p Q' d.
Proof.
  intros Hp HQ. revert d Hp. induction p as [a|c k IH]; intros d; cbn; [eauto|].
  intros [Hwf H]. split; [done|]. intros w Hr Hw r w' Ha. by eapply IH, H.
Qed.
Lemma promises_ret {A} (a : A) (Q : A -> Db -> Prop) d :
  (forall d1, reachable d1 -> rtc kernel_step d d1 -> Q a d1) -> promises (mret a) Q d.
Proof. done. Qed.
(** A result that is true stays true. *)
Lemma promises_step (r : result Fault DeliveryStep) d : reachable d -> step_true r d -> promises (mret r) step_true d.
Proof. intros Hd Ht. apply promises_ret. intros d1 _ Hst. by eapply step_true_later. Qed.

(** The [?] operator passes errors on. *)
Definition faultless {A} (Q : A -> Db -> Prop) (r : result Fault A) (d : Db) : Prop :=
  match r with Ok a => Q a d | Err (Failed _) => True | Err Panicked => False end.
Lemma promises_try {A} (p : Del (result Fault A)) (f : A -> Del (result Fault DeliveryStep)) d : reachable d ->
  promises p (faultless (fun a d' => promises (f a) step_true d')) d -> promises (try_bind p f) step_true d.
Proof.
  intros Hd Hp. apply promises_bind; [done|]. eapply promises_mono; [exact Hp|].
  intros [a|[e|]] d' Hd' H; [done|by apply promises_step|done].
Qed.
Lemma promises_call c (Q : DelAnswer c -> Db -> Prop) d : calls_wf c ->
  (forall w r w', reachable (dw_db w) -> rtc kernel_step d (dw_db w) -> del_answers c w r w' -> reachable (dw_db w') ->
     forall d1, reachable d1 -> rtc kernel_step (dw_db w') d1 -> Q r d1) -> promises (ask c) Q d.
Proof.
  intros Hwf H. split; [done|]. intros w Hr Hw r w' Ha d1 Hd1 Hst. eapply H; eauto.
  eapply reachable_steps; [exact Hr|by eapply answers_steps].
Qed.
(** A call that does not matter. *)
Lemma promises_any c (Q : DelAnswer c -> Db -> Prop) d : calls_wf c ->
  (forall r d1, reachable d1 -> rtc kernel_step d d1 -> Q r d1) -> promises (ask c) Q d.
Proof.
  intros Hwf H. apply promises_call; [done|]. intros w r w' Hr Hw Ha _ d1 Hd1 Hst. apply H; [done|].
  etrans; [exact Hw|]. etrans; [by eapply answers_steps|done].
Qed.
Lemma check_promises (Q : unit -> Db -> Prop) d : reachable d ->
  (forall d1, reachable d1 -> rtc kernel_step d d1 -> Q tt d1) -> promises check_permit (faultless Q) d.
Proof.
  intros Hd H. apply promises_bind; [done|]. apply promises_any; [done|]. intros r d1 Hd1 Hst. apply promises_ret.
  intros d2 Hd2 Hst2. destruct r as [[]|e]; [|done]. apply H; [done|by etrans].
Qed.

(** ** The drives keep their promise *)

Section drives.
Variable lp : DeliveryLoop.
Variable epoch : FencingEpoch.
Hypothesis Hlp : loop_wf lp.
Definition transition_wf (t : DeliveryTransition) : Prop :=
  match t with DtRetryAfter q => 0 <= duration_nanos q | _ => True end.
(** The state a report leads to. *)
Definition leads_to (t : DeliveryTransition) (s : MessageDeliveryState) : Prop :=
  match t with
  | DtAcceptancePending => exists l, s = MsAcceptancePending l
  | DtAcceptanceUnknown => is_unknown s
  | DtRetryAfter _ => is_scheduled s
  | DtAccepted _ => is_accepted s
  | DtUncertain _ => is_uncertain s
  | DtDeadLetter _ => is_dead s
  end.
Lemma reported_leads t c date m l s : reported_state t c date m l = Some (Ok s) -> leads_to (td_transition c) s.
Proof.
  unfold reported_state, leads_to. destruct (td_transition c), (ms_state m), date; cbn; try done; intros [= <-]; try done; by eexists.
Qed.
Lemma transition_promises m attempt phase t (Q : MessageSnapshot -> Db -> Prop) d : reachable d -> transition_wf t ->
  (forall m' d1, reachable d1 -> happened (leads_to t) (ms_message_id m) d1 -> leads_to t (ms_state m') ->
     ms_message_id m' = ms_message_id m -> Q m' d1) ->
  promises (transition epoch m attempt phase t) (faultless Q) d.
Proof.
  intros Hd Ht HQ. unfold transition, try_bind. apply promises_bind; [done|].
  apply promises_mono with (faultless (fun _ _ => True)); [by apply check_promises|].
  intros [[]|e] d1 Hd1 He; [|by apply promises_ret]. apply promises_bind; [done|]. apply promises_any; [done|].
  intros context d2 Hd2 _. apply promises_bind; [done|].
  match goal with |- promises (ask (CallTransition ?c)) _ _ => assert (Hwf : request_wf (RqReport c)) end.
  { intros q Hq. cbn in Hq. by subst t. }
  apply promises_call; [done|]. intros w r w' Hr Hw Ha Hw' d3 Hd3 Hst3. apply promises_ret. intros d4 Hd4 Hst4.
  destruct (transition_answer _ _ _ _ Hr Hwf Ha) as [[e ->]|(m' & -> & Hdone)]; [done|].
  destruct (Hdone m' eq_refl) as (m0 & l & date & now & s & rev & _ & Hid & _ & Hs & _ & Hm' & Hsto). cbn in Hid.
  apply reported_leads in Hs. cbn in Hs. assert (Hid' : ms_message_id m' = ms_message_id m) by (rewrite Hm'; exact Hid).
  assert (Hst' : leads_to t (ms_state m')) by by rewrite Hm'.
  apply HQ; [done| |done|done]. rewrite <-Hid'. apply (happened_later _ _ (dw_db w')); [done|by etrans|].
  by apply stored_happened.
Qed.

(** A transition, and then a result that says what it did. *)
Lemma transition_then m attempt phase t step d : reachable d -> transition_wf t ->
  (forall d1, happened (leads_to t) (ms_message_id m) d1 -> step_true (Ok step) d1) ->
  promises (_ ⇐ transition epoch m attempt phase t; mret (Ok step)) step_true d.
Proof.
  intros Hd Ht Hstep. apply promises_try; [done|]. apply transition_promises; [done..|].
  intros m' d1 Hd1 Hh _ _. apply promises_step; [done|by apply Hstep].
Qed.
Lemma query_promises id lease (Q : result DeliveryDriverError AcceptanceObservation -> Db -> Prop) d : reachable d ->
  (forall r d1, reachable d1 -> rtc kernel_step d d1 -> Q r d1) -> promises (query_acceptance lp id lease) Q d.
Proof.
  intros Hd H. apply promises_bind; [done|]. apply promises_any; [done|]. intros r d1 Hd1 Hst. apply promises_ret.
  intros d2 Hd2 Hst2. apply H; [done|by etrans].
Qed.
Lemma reason_promises s reason (Q : DeliveryReason -> Db -> Prop) d : BoundedText_new s = Ok reason ->
  (forall d1, reachable d1 -> Q reason d1) -> promises (static_reason s) (faultless Q) d.
Proof. intros Hs H. unfold static_reason. rewrite Hs. apply promises_ret. intros d1 Hd1 _. by apply H. Qed.
Lemma settle_query_promises m lease query d : reachable d -> happened is_unknown (ms_message_id m) d ->
  promises (settle_query lp epoch m lease query) step_true d.
Proof.
  intros Hd Hh. destruct query as [[proof| |]|e]; cbn [settle_query]; try (by apply promises_step).
  - by apply transition_then.
  - apply transition_then; [done|apply Hlp|done].
Qed.
Lemma settle_unknown_promises m lease was d : reachable d -> promises (settle_unknown lp epoch m lease was) step_true d.
Proof.
  intros Hd. unfold settle_unknown. destruct was; cbn [negb].
  { unfold uncertain. apply promises_try; [done|]. eapply reason_promises; [reflexivity|]. intros d1 Hd1. by apply transition_then. }
  apply promises_try; [done|]. apply transition_promises; [done..|]. intros m' d1 Hd1 Hh Hs Hid.
  apply promises_try; [done|]. apply check_promises; [done|]. intros d2 Hd2 Hst2.
  apply (happened_later _ _ _ _ Hd1 Hst2) in Hh. cbn in Hs. destruct (ms_state m') as [| | | |pl| | |]; try done.
  apply promises_bind; [done|]. apply query_promises; [done|]. intros r d3 Hd3 Hst3.
  apply settle_query_promises; [done|]. rewrite Hid.
  exact (happened_later is_unknown _ _ _ Hd2 Hst3 Hh).
Qed.
Lemma settle_promises m lease was observation d : reachable d -> promises (settle lp epoch m lease was observation) step_true d.
Proof.
  intros Hd. destruct observation as [[proof| |]|e]; cbn [settle]; try by apply settle_unknown_promises.
  - by apply transition_then.
  - case_if as E; [|apply transition_then; [done|apply Hlp|done]].
    apply promises_try; [done|]. eapply reason_promises; [reflexivity|]. intros d1 Hd1. by apply transition_then.
Qed.
Lemma reconcile_promises m d : reachable d -> stored m d -> promises (reconcile lp epoch m) step_true d.
Proof.
  intros Hd Hs. unfold reconcile.
  assert (Hstep : forall (P : MessageDeliveryState -> Prop) step, P (ms_state m) ->
    (happened P (ms_message_id m) d -> step_true (Ok step) d) -> promises (mret (Ok step)) step_true d).
  { intros P step HP H. apply promises_step; [done|]. by apply H, stored_happened. }
  destruct (ms_state m) as [|t|l|l|l|a p t|a r|r] eqn:E.
  - by apply promises_step.
  - by apply promises_step.
  - apply promises_try; [done|]. apply check_promises; [done|]. intros d1 Hd1 _.
    apply promises_try; [done|]. apply transition_promises; [done..|]. intros m' d2 Hd2 _ _ _.
    apply promises_try; [done|]. apply check_promises; [done|]. intros d3 Hd3 _.
    apply promises_bind; [done|]. apply promises_bind; [done|]. apply promises_any; [done|]. intros r d4 Hd4 _.
    apply promises_ret. intros d5 Hd5 _. by apply settle_promises.
  - apply promises_bind; [done|]. apply query_promises; [done|]. intros r d1 Hd1 _. by apply settle_promises.
  - apply promises_bind; [done|]. apply query_promises; [done|]. intros r d1 Hd1 _. by apply settle_promises.
  - by apply (Hstep is_accepted).
  - by apply (Hstep is_uncertain).
  - by apply (Hstep is_dead).
Qed.
Lemma drive_promises session_id destination instance_id launch d : reachable d ->
  promises (drive_once lp epoch session_id destination instance_id launch) step_true d.
Proof.
  intros Hd. apply promises_bind; [done|]. apply promises_any; [done|]. intros _ d1 Hd1 _.
  apply promises_bind; [done|]. apply promises_mono with step_true.
  2:{ intros r d2 Hd2 Hr. apply promises_bind; [done|]. apply promises_any; [done|]. intros _ d3 Hd3 Hst3.
      apply promises_step; [done|exact (step_true_later _ _ _ Hd2 Hst3 Hr)]. }
  unfold drive_locked. apply promises_try; [done|]. apply check_promises; [done|]. intros d2 Hd2 _.
  apply promises_bind; [done|]. apply promises_any; [done|]. intros context d3 Hd3 _.
  apply promises_bind; [done|]. apply promises_any; [done|]. intros attempt d4 Hd4 _.
  apply promises_bind; [done|]. apply promises_call; [apply Hlp|]. intros w r w' Hr Hw Ha Hw' d5 Hd5 Hst5.
  destruct (fun H => lease_answered _ _ _ _ Hr H Ha) as [[e ->]|([m|] & -> & Hs)]; [apply Hlp|..];
    [by apply promises_step| |by apply promises_step].
  cbn [Mutation_value]. eapply promises_later; [exact Hst5|]. apply reconcile_promises; [done|by apply Hs].
Qed.
End drives.

(** ** Nothing is handed over twice *)

(** A program may hand over only the message [tok] that it has just made pending itself,
    once, under the attempt it made it pending for. *)
Definition allows (c : DelCall) (tok : option (MessageSnapshot * DeliveryAttemptId)) :
    (DelAnswer c -> option (MessageSnapshot * DeliveryAttemptId) -> Prop) -> Prop :=
  match c with
  | CallDeliver m l _ => fun next => tok = Some (m, dl_attempt_id l) /\ forall r, next r None
  | CallTransition c => fun next => forall r,
      match r with
      | Ok (Applied m) =>
          next r (match td_transition c with DtAcceptancePending => Some (m, td_attempt_id c) | _ => None end)
      | Ok _ => True
      | Err _ => next r None
      end
  | _ => fun next => forall r, next r tok
  end.
Fixpoint licensed {A} (p : Del A) (tok : option (MessageSnapshot * DeliveryAttemptId)) : Prop :=
  match p with
  | Return _ => True
  | Do c k => allows c tok (fun r => licensed (k r))
  end.

(** A program that hands nothing over. *)
Definition hands (c : DelCall) : nat := match c with CallDeliver _ _ _ => 1 | _ => 0 end.
Lemma bounded_licensed {A} (p : Del A) tok : bounded hands 0 p -> licensed p tok.
Proof.
  revert tok. induction p as [a|c k IH]; intros tok; cbn; [done|]. intros [Hc Hk].
  destruct c as [| | | | | |c|m l t|]; cbn in *; try (intros r; apply IH; specialize (Hk r); by rewrite ?Nat.sub_0_r in Hk); [|lia].
  intros [[m|m|m]|e]; try done; apply IH; specialize (Hk (Ok (Applied m))) || specialize (Hk (Err e)); by rewrite ?Nat.sub_0_r in Hk.
Qed.
#[local] Ltac bounded_auto := repeat (cbn; first [exact I | split; [lia|intros ?] | case_match]).
Section licences.
Variable lp : DeliveryLoop.
Variable epoch : FencingEpoch.
Lemma transition_hands m attempt phase t : bounded hands 0 (transition epoch m attempt phase t).
Proof. unfold transition, try_bind, check_permit. bounded_auto. Qed.
Lemma settle_hands m lease was observation : bounded hands 0 (settle lp epoch m lease was observation).
Proof.
  unfold settle, settle_unknown, settle_query, uncertain, query_acceptance, transition, try_bind, check_permit, static_reason.
  bounded_auto.
Qed.
Lemma reconcile_licensed m tok : licensed (reconcile lp epoch m) tok.
Proof.
  unfold reconcile. destruct (ms_state m) as [| |l|l|l| | |]; try done.
  - unfold try_bind, check_permit, transition, deliver, check_permit, try_bind. cbn.
    intros [[]|e]; cbn; [|done]. intros [[]|e]; cbn; [|done]. intros context. cbn. intros [[m'|m'|m']|e]; cbn; try done.
    intros [[]|e]; cbn; [|done]. split; [done|]. intros r. cbn. apply bounded_licensed, settle_hands.
  - unfold query_acceptance. cbn. intros r. apply bounded_licensed, settle_hands.
  - unfold query_acceptance. cbn. intros r. apply bounded_licensed, settle_hands.
Qed.
Lemma licensed_bind {A B} (p : Del A) (f : A -> Del B) tok : licensed p tok -> (forall a tok', licensed (f a) tok') -> licensed (p ≫= f) tok.
Proof.
  revert tok. induction p as [a|c k IH]; intros tok; cbn; [intros _ H; apply H|]. intros Hc Hf.
  destruct c as [| | | | | |c|m l t|]; cbn in *; try (intros r; by apply IH).
  - intros r. specialize (Hc r). destruct r as [[]|]; try done; by apply IH.
  - destruct Hc as [-> Hc]. split; [done|]. intros r. by apply IH.
Qed.
Lemma drive_licensed session_id destination instance_id launch tok :
  licensed (drive_once lp epoch session_id destination instance_id launch) tok.
Proof.
  unfold drive_once. apply licensed_bind; [by intros r|]. intros _ tok1. apply licensed_bind; [|by intros r tok2; cbn].
  unfold drive_locked, try_bind, check_permit. cbn. intros [[]|e]; cbn; [|done]. intros context attempt [v|e]; [|done].
  destruct (Mutation_value v); [apply reconcile_licensed|done].
Qed.
End licences.

(** A message that was stored as pending for the attempt. *)
Definition claim (d : Db) (m : MessageSnapshot) (a : DeliveryAttemptId) : Prop :=
  (exists l, ms_state m = MsAcceptancePending l /\ dl_attempt_id l = a) /\
  1 <= ms_attempt_count m <= MAX_DELIVERY_ATTEMPTS /\
  exists r, db_messages d !! ms_message_id m = Some r /\ rtc delivers m (mg_snapshot r).
Definition attempt_of (m : MessageSnapshot) : MessageId * Z := (ms_message_id m, ms_attempt_count m).
Lemma claim_later m a d d' : reachable d -> rtc kernel_step d d' -> claim d m a -> claim d' m a.
Proof.
  intros Hreach Hst (Hl & Ha & r & Hr & Hd). destruct (history_message _ _ _ _ _ _ Hreach Hst Hr) as (m' & Hr' & Hd').
  split; [done|]. split; [done|]. exists (with_snapshot r m'). split; [done|]. cbn. by etrans.
Qed.
(** A new lease is a new attempt. *)
Lemma leased_again e m l : rtc delivers e m -> awaits_acceptance (ms_state e) = true -> ms_state m = MsLeased l ->
  ms_attempt_count e < ms_attempt_count m.
Proof.
  intros Hd Haw Hl.
  assert (H : ms_attempt_count e < ms_attempt_count m \/ ms_attempt_count e = ms_attempt_count m /\ forall l, ms_state m <> MsLeased l).
  { clear Hl l. revert m Hd. apply rtc_ind_r; [right; split; [done|]; intros l E; by rewrite E in Haw|].
    intros m1 m2 _ (now & a & s & v & _ & -> & Hst) IH. cbn.
    destruct Hst as [l Hel|reason Hel|l l' s [[E ->]|[E ->]]|l E|l E|t E|l pr E|l reason E|reason E];
      destruct IH as [IH|[IH _]]; first [left; lia|right; split; [done|congruence]]. }
  destruct H as [H|[_ H]]; [done|by destruct (H l)].
Qed.

(** What a report that made a message pending leaves. *)
Lemma pending_claim c d d' m' : reachable d' -> td_transition c = DtAcceptancePending -> report_done c d (Applied m') d' ->
  claim d' m' (td_attempt_id c) /\
  forall e a, claim d e a -> ms_message_id e = ms_message_id m' -> ms_attempt_count e < ms_attempt_count m'.
Proof.
  intros Hd' Ht Hdone. destruct (Hdone m' eq_refl) as (m0 & l & date & now & s & rev & Hm0 & Hid & Hl & Hs & _ & Hm' & Hsto).
  apply reported_lease_Some in Hl as (Hl & Hat & _ & _). unfold reported_state in Hs. rewrite Ht in Hs.
  destruct (ms_state m0) as [| |l0| | | | |] eqn:E0; try done. injection Hl as ->. injection Hs as <-.
  pose proof Hsto as Hrow. unfold stored in Hrow. destruct (db_messages d' !! ms_message_id m') as [r'|] eqn:Er'; [|done].
  injection Hrow as Hrow. assert (Es : ms_state m' = MsAcceptancePending l) by by rewrite Hm'.
  split.
  - split; [by exists l|]. split; [|exists r'; split; [done|by rewrite Hrow]].
    destruct (mo_rows _ (reachable_mail _ _ _ Hd') _ _ Er') as [_ Hv Hc _ _ _]. rewrite Hrow in Hv, Hc.
    destruct Hv as [Hv|(l' & El & _)]; [|by rewrite Es in El]. apply structurally_valid_iff in Hv as (_ & _ & _ & _ & Hv).
    rewrite Es in Hv. destruct Hv. lia.
  - intros e a ((le & Ee & _) & _ & r & Hr & Hde) Hide. rewrite Hm' in *. cbn in Hide |- *.
    rewrite Hide, Hid in Hr. rewrite Hr in Hm0. injection Hm0 as Hm0. rewrite Hm0 in Hde.
    eapply leased_again; [exact Hde|by rewrite Ee|exact E0].
Qed.

(** ** All drives together *)

Abbreviation token := (option (MessageSnapshot * DeliveryAttemptId)).
Definition handed_attempts (w : DWorld) : list (MessageId * Z) := (fun e => attempt_of e.1) <$> dw_handed w.
(** Tokens [tok] of the drives, for different attempts, none of them handed over yet. *)
Record tokens_ok (w : DWorld) (tok : nat -> token) : Prop := {
  tk_claim : forall i m a, tok i = Some (m, a) -> claim (dw_db w) m a /\ attempt_of m ∉ handed_attempts w;
  tk_other : forall i j m a m' a', i <> j -> tok i = Some (m, a) -> tok j = Some (m', a') -> attempt_of m <> attempt_of m';
  tk_handed : forall m l, (m, l) ∈ dw_handed w -> claim (dw_db w) m (dl_attempt_id l);
  tk_once : NoDup (handed_attempts w);
}.
Record dsystem_ok (y : DSystem) : Prop := {
  dy_reachable : reachable (dw_db (dy_world y));
  dy_promises : forall i p, dy_drives y !! i = Some p -> promises p step_true (dw_db (dy_world y));
  dy_tokens : exists tok, tokens_ok (dy_world y) tok /\ forall i p, dy_drives y !! i = Some p -> licensed p (tok i);
}.

Lemma tokens_later w w' tok : reachable (dw_db w) -> rtc kernel_step (dw_db w) (dw_db w') -> dw_handed w' = dw_handed w ->
  tokens_ok w tok -> tokens_ok w' tok.
Proof.
  intros Hr Hst Hh [H1 H2 H3 H4]. unfold handed_attempts in *. split; unfold handed_attempts; rewrite ?Hh; try done.
  - intros i m a E. destruct (H1 _ _ _ E). split; [by eapply claim_later|done].
  - intros m l Hin. eapply claim_later; eauto.
Qed.
Lemma tokens_drop w tok i : tokens_ok w tok -> tokens_ok w (<[i := None]> tok).
Proof.
  intros [H1 H2 H3 H4]. split; try done.
  - intros j m a. destruct (decide (i = j)) as [<-|Hne]; [by rewrite fn_lookup_insert|]. rewrite fn_lookup_insert_ne by done. apply H1.
  - intros j k m a m' a' Hjk. destruct (decide (i = j)) as [<-|Hj]; [by rewrite fn_lookup_insert|].
    destruct (decide (i = k)) as [<-|Hk]; [by rewrite fn_lookup_insert|]. rewrite !fn_lookup_insert_ne by done. by apply H2.
Qed.
Lemma tokens_keep w tok i : tokens_ok w tok -> tokens_ok w (<[i := tok i]> tok).
Proof.
  intros [H1 H2 H3 H4]. assert (E : forall j, <[i := tok i]> tok j = tok j).
  { intros j. destruct (decide (i = j)) as [<-|Hne]; [by rewrite fn_lookup_insert|by rewrite fn_lookup_insert_ne]. }
  split; try done; [intros j m a; rewrite E; apply H1|]. intros j k m a m' a' Hjk. rewrite !E. by apply H2.
Qed.
(** A report gives a token for a new attempt. *)
Lemma tokens_claim w w' tok i c m : reachable (dw_db w) -> reachable (dw_db w') -> rtc kernel_step (dw_db w) (dw_db w') ->
  dw_handed w' = dw_handed w -> td_transition c = DtAcceptancePending ->
  report_done c (dw_db w) (Applied m) (dw_db w') -> tokens_ok w tok -> tokens_ok w' (<[i := Some (m, td_attempt_id c)]> tok).
Proof.
  intros Hr Hr' Hst Hh Ht Hdone Hok. destruct (pending_claim _ _ _ _ Hr' Ht Hdone) as [Hclaim Hnew].
  assert (Hne : forall e a, claim (dw_db w) e a -> attempt_of m <> attempt_of e).
  { intros e a He [= E1 E2]. specialize (Hnew _ _ He (eq_sym E1)). lia. }
  destruct (tokens_later _ _ _ Hr Hst Hh Hok) as [H1 H2 H3 H4]. destruct Hok as [K1 _ K3 _]. split; try done.
  - intros j m' a'. destruct (decide (i = j)) as [<-|Hj]; [|rewrite fn_lookup_insert_ne by done; apply H1].
    rewrite fn_lookup_insert. intros [= <- <-]. split; [done|]. unfold handed_attempts. rewrite Hh.
    intros ([e l] & E & Hin)%list_elem_of_fmap. by apply (Hne _ _ (K3 _ _ Hin)).
  - intros j k m1 a1 m2 a2 Hjk. destruct (decide (i = j)) as [<-|Hj].
    + rewrite fn_lookup_insert, fn_lookup_insert_ne by done. intros [= <- <-] E. eapply Hne. by apply (K1 k).
    + rewrite fn_lookup_insert_ne by done. destruct (decide (i = k)) as [<-|Hk].
      * rewrite fn_lookup_insert. intros E [= <- <-] E'. destruct (K1 _ _ _ E) as [Hc _]. by apply (Hne _ _ Hc).
      * rewrite fn_lookup_insert_ne by done. by apply H2.
Qed.
(** Handing over uses the token up. *)
Lemma tokens_hand w tok i m l : tokens_ok w tok -> tok i = Some (m, dl_attempt_id l) ->
  tokens_ok (MkDWorld (dw_db w) (dw_open w) ((m, l) :: dw_handed w)) (<[i := None]> tok).
Proof.
  intros Hok E. destruct (tokens_drop _ _ i Hok) as [H1 H2 H3 H4]. destruct Hok as [K1 K2 K3 K4].
  destruct (K1 _ _ _ E) as [Hc Hn]. split; [|done| |].
  - intros j m' a'. destruct (decide (i = j)) as [<-|Hj]; [by rewrite fn_lookup_insert|]. rewrite fn_lookup_insert_ne by done.
    intros Ej. destruct (K1 _ _ _ Ej) as [Hc' Hn']. split; [done|]. unfold handed_attempts. cbn. apply not_elem_of_cons.
    split; [|done]. by apply (K2 j i _ _ _ _ ltac:(done) Ej E).
  - intros m' l' [[= -> ->]|Hin]%elem_of_cons; [done|by apply K3].
  - unfold handed_attempts. cbn. by apply NoDup_cons.
Qed.

Lemma answers_handed c w r w' : del_answers c w r w' -> hands c = 0%nat -> dw_handed w' = dw_handed w.
Proof.
  destruct c as [| | | | |c|c| |]; cbn; intros H Hh; try (by subst); try done; try (by destruct H as [_ ->]);
    by destruct H as [(now & _ & _ & _ & ->)|[_ ->]].
Qed.
(** One call of a drive. *)
Lemma tokens_call w tok i c (k : DelAnswer c -> Drive) r w' : reachable (dw_db w) -> calls_wf c -> del_answers c w r w' ->
  tokens_ok w tok -> licensed (Do c k) (tok i) -> exists t, tokens_ok w' (<[i := t]> tok) /\ licensed (k r) t.
Proof.
  intros Hr Hwf Ha Hok Hl. pose proof (answers_steps _ _ _ _ Hwf Ha) as Hst. pose proof (reachable_steps _ _ _ _ Hr Hst) as Hr'.
  assert (Hsame : hands c = 0%nat -> licensed (k r) (tok i) -> exists t, tokens_ok w' (<[i := t]> tok) /\ licensed (k r) t).
  { intros Hh Hk. exists (tok i). split; [|done]. apply tokens_keep.
    apply (tokens_later w); [done|done|by eapply answers_handed|done]. }
  cbn [licensed] in Hl. destruct c as [| | | | | |c|m l t|]; cbn [allows] in Hl; try (by apply Hsame).
  - assert (Hnone : licensed (k r) None -> exists t, tokens_ok w' (<[i := t]> tok) /\ licensed (k r) t).
    { intros Hk. exists None. split; [|done]. apply tokens_drop.
      apply (tokens_later w); [done|done|by eapply answers_handed|done]. }
    specialize (Hl r). destruct (transition_answer _ _ _ _ Hr Hwf Ha) as [[e ->]|(m & -> & Hdone)]; [by apply Hnone|].
    destruct (td_transition c) eqn:Et; try (by apply Hnone). eexists. split; [|exact Hl].
    apply (tokens_claim w); try done. by eapply answers_handed.
  - destruct Hl as [E Hk]. exists None. split; [|apply Hk]. cbn in Ha. subst w'. by apply tokens_hand.
Qed.

Lemma dsystem_step_ok y y' : dsystem_ok y -> delivery_step_of y y' -> dsystem_ok y'.
Proof.
  intros [Hr Hp (tok & Htok & Hlic)] Hst.
  destruct Hst as [w ds d' Hst|w ds|w ds lp epoch session_id destination instance_id launch Hlp|w ds i p p' w' Hi Hst]; cbn in *.
  - assert (Hst' : rtc kernel_step (dw_db w) d') by by apply rtc_once. split; cbn.
    + by eapply reachable_steps.
    + intros i p Hi. eapply promises_later; eauto.
    + exists tok. split; [|done]. by eapply (tokens_later w).
  - split; cbn; [done..|]. exists tok. split; [|done]. by apply (tokens_later w).
  - split; cbn; [done|..].
    + intros i p [Hi|[_ Hi]]%lookup_app_Some; [by eapply Hp|]. apply list_lookup_singleton_Some in Hi as [_ <-]. by apply drive_promises.
    + exists tok. split; [done|]. intros i p [Hi|[_ Hi]]%lookup_app_Some; [by eapply Hlic|].
      apply list_lookup_singleton_Some in Hi as [_ <-]. apply drive_licensed.
  - destruct p as [|c k]; [done|]. destruct Hst as (r & Ha & ->). destruct (Hp _ _ Hi) as [Hwf Hk].
    pose proof (answers_steps _ _ _ _ Hwf Ha) as Hst. split; cbn.
    + by eapply reachable_steps.
    + intros j q. destruct (decide (i = j)) as [<-|Hne].
      * rewrite list_lookup_insert_eq by (by eapply lookup_lt_Some). intros [= <-]. eapply Hk; eauto using rtc_refl.
      * rewrite list_lookup_insert_ne by done. intros Hq. eapply promises_later; eauto.
    + destruct (tokens_call _ _ i _ _ _ _ Hr Hwf Ha Htok (Hlic _ _ Hi)) as (t & Ht & Hl). exists (<[i := t]> tok). split; [done|].
      intros j q. destruct (decide (i = j)) as [<-|Hne].
      * rewrite list_lookup_insert_eq by (by eapply lookup_lt_Some). intros [= <-]. by rewrite fn_lookup_insert.
      * rewrite list_lookup_insert_ne, fn_lookup_insert_ne by done. apply Hlic.
Qed.
Lemma delivery_reachable_ok y : delivery_reachable y -> dsystem_ok y.
Proof.
  intros (d & b & Hd & Hst).
  assert (H0 : dsystem_ok (MkDSystem (MkDWorld d b []) [])).
  { split; cbn; [done|done|]. exists (fun _ => None). split; [|done]. split; cbn; try done; [intros m l H; by apply elem_of_nil in H|apply NoDup_nil_2]. }
  revert H0. induction Hst as [|y y1 y2 H1 _ IH]; [done|]. intros H0. apply IH. by eapply dsystem_step_ok.
Qed.

(** Different attempts of one message are as many as the attempts there are. *)
Lemma attempts_counted (L : list (MessageSnapshot * DeliveryLease)) id :
  NoDup ((fun e => attempt_of e.1) <$> L) ->
  (forall e, e ∈ L -> 1 <= ms_attempt_count e.1 <= MAX_DELIVERY_ATTEMPTS) ->
  Z.of_nat (length (filter (fun e => ms_message_id e.1 = id) L)) <= MAX_DELIVERY_ATTEMPTS.
Proof.
  intros Hd Hr. set (L' := filter _ L).
  assert (Hd' : NoDup ((fun e => ms_attempt_count e.1) <$> L')).
  { apply (NoDup_fmap_1 (fun n => (id, n))). rewrite <-list_fmap_compose.
    apply (sublist_NoDup _ ((fun e => attempt_of e.1) <$> L)); [done|].
    rewrite (list_fmap_ext _ (fun e => attempt_of e.1) L'); [apply fmap_sublist; apply sublist_filter|].
    intros i e He. apply list_elem_of_lookup_2, list_elem_of_filter in He as [<- _]. done. }
  pose proof (NoDup_submseteq _ (seqZ 1 MAX_DELIVERY_ATTEMPTS) Hd') as Hs.
  rewrite <-(length_fmap (fun e => ms_attempt_count e.1)). etrans; [apply inj_le, submseteq_length, Hs|by rewrite length_seqZ].
  intros n (e & -> & [_ He]%list_elem_of_filter)%list_elem_of_fmap. apply elem_of_seqZ. specialize (Hr _ He). lia.
Qed.

(** ** Theorems *)

(** C4: over any history of any number of drives and any other users of the store, every
    delivery attempt of a message is handed to the driver at most once, so that a message
    is handed over at most [MAX_DELIVERY_ATTEMPTS] times; and it is handed over only
    after the attempt was stored as pending. *)
Theorem handed_over_at_most_once y : delivery_reachable y ->
  NoDup (handed_attempts (dy_world y)) /\
  (forall id, Z.of_nat (length (filter (fun e => ms_message_id e.1 = id) (dw_handed (dy_world y)))) <= MAX_DELIVERY_ATTEMPTS) /\
  forall m l, (m, l) ∈ dw_handed (dy_world y) ->
    (exists l', ms_state m = MsAcceptancePending l' /\ dl_attempt_id l' = dl_attempt_id l) /\
    exists r, db_messages (dw_db (dy_world y)) !! ms_message_id m = Some r /\ rtc delivers m (mg_snapshot r).
Proof.
  intros [_ _ (tok & [_ _ Hh Ho] & _)]%delivery_reachable_ok. split_and!; [done| |].
  - intros id. apply attempts_counted; [done|]. intros [m l] Hin. by destruct (Hh _ _ Hin) as (_ & ? & _).
  - intros m l Hin. by destruct (Hh _ _ Hin) as (? & _ & ?).
Qed.


#[local] Ltac drive_bounded :=
  unfold drive_once, drive_locked, reconcile, settle, settle_unknown, settle_query, uncertain, deliver, query_acceptance,
    transition, try_bind, check_permit, static_reason; bounded_auto.

(** C25: a drive ends after at most 20 calls whatever it is answered, at most four of them
    to the store, two to the driver, and one that hands the message over. *)
Theorem drive_ends lp epoch session_id destination instance_id launch :
  let drive := drive_once lp epoch session_id destination instance_id launch in
  (forall p k, nsteps (own_step del_answers) k drive p -> (k <= 20)%nat) /\
  bounded (fun c => match c with CallLease _ | CallTransition _ => 1%nat | _ => 0%nat end) 4 drive /\
  bounded (fun c => match c with CallDeliver _ _ _ | CallQuery _ _ _ => 1%nat | _ => 0%nat end) 2 drive /\
  bounded hands 1 drive.
Proof.
  cbv zeta. split_and!; [intros p k; apply bounded_ends|..]; drive_bounded.
Qed.
End delivery.

(** ** A concrete drive *)

(** Host 50 delivers the first message of the scenario; the driver accepts it.  Request
    identities count the ledger. *)
Definition demo_loop : DeliveryLoop := MkLoop (MkDuration 1000000000) (MkDuration 1000000000) (MkDuration 100000000).
Definition demo_drive : Drive := drive_once demo_loop scene_epoch demo_session (MkId 12) (MkId 51) (MkId 41).
Abbreviation demo_answers :=
  (@del_answers UtcLib UtcArith demo_sha scene_json demo_text 60000 LimitProfile_default).
Abbreviation demo_dstep :=
  (@delivery_step_of UtcLib UtcArith demo_sha scene_json braces_json demo_text 60000 LimitProfile_default).
Definition demo_store {C A} `{!MutableRequest C} (c : C) (m : Tx A) (w : DWorld) : option (result StoreError A * DWorld) :=
  match db_ledger (dw_db w) !! rc_request_id (mr_context c) with
  | None => let out := run m (dw_db w) in Some (out.2, with_db w out.1)
  | Some _ => None
  end.
Definition demo_respond (c : DelCall) (w : DWorld) : option (DelAnswer c * DWorld) :=
  match c as c return option (DelAnswer c * DWorld) with
  | LockStripe _ | UnlockStripe _ => Some (tt, w)
  | CheckPermit => Some (if dw_open w then Ok tt else Err AdmissionClosed, w)
  | NewContext _ _ => Some (demo_context (1000 + Z.of_nat (size (db_ledger (dw_db w)))) 50, w)
  | NewAttempt _ => Some (MkId 71, w)
  | CallLease c =>
      @demo_store _ _ (@LeaseNextMessage_request demo_sha) c
        (@lease_next_message UtcLib UtcArith demo_sha scene_json demo_text 60000 (demo_at 100) c) w
  | CallTransition c =>
      @demo_store _ _ (@TransitionMessageDelivery_request demo_sha) c
        (@transition_message_delivery UtcLib UtcArith demo_sha scene_json demo_text 60000 LimitProfile_default (demo_at 100) c) w
  | CallDeliver m l _ => Some (Some (Ok (ObAccepted (repeat 9 32))), MkDWorld (dw_db w) (dw_open w) ((m, l) :: dw_handed w))
  | CallQuery _ _ _ => Some (None, w)
  end.
Lemma demo_store_answers {C A} `{!MutableRequest C} (c : C) (h : Timestamp -> Tx A) w r w' :
  demo_store c (h (demo_at 100)) w = Some (r, w') -> @store_answers UtcLib C A _ c h w r w'.
Proof.
  unfold demo_store. destruct (_ !! _) eqn:E; [done|]. intros [= <- <-]. left. exists (demo_at 100).
  split; [by apply demo_at_wf|]. split; [done|]. split; [by left|done].
Qed.
Lemma demo_respond_answers c w r w' : demo_respond c w = Some (r, w') -> demo_answers c w r w'.
Proof.
  destruct c as [| | | | |c|c| |]; cbn [demo_respond del_answers]; try (by intros [= <- <-]).
  - apply (demo_store_answers c (fun now => @lease_next_message UtcLib UtcArith demo_sha scene_json demo_text 60000 now c)).
  - apply (demo_store_answers c (fun now =>
      @transition_message_delivery UtcLib UtcArith demo_sha scene_json demo_text 60000 LimitProfile_default now c)).
Qed.
Fixpoint demo_run (n : nat) (p : Drive) (w : DWorld) : option (Drive * DWorld) :=
  match n, p with
  | O, _ => Some (p, w)
  | S n, Do c k => match demo_respond c w with Some (r, w') => demo_run n (k r) w' | None => None end
  | S _, Return _ => None
  end.
Lemma demo_run_steps n p w p' w' : demo_run n p w = Some (p', w') -> rtc demo_dstep (MkDSystem w [p]) (MkDSystem w' [p']).
Proof.
  revert p w. induction n as [|n IH]; intros p w; cbn; [intros [= <- <-]; apply rtc_refl|].
  destruct p as [|c k]; [done|]. destruct (demo_respond c w) as [[r w1]|] eqn:E; [|done]. intros H. eapply rtc_l; [|by apply IH].
  apply (de_call _ _ _ [_] 0%nat (Do c k)); [done|]. exists r. split; [by apply demo_respond_answers|done].
Qed.

Definition demo_dworld : DWorld := MkDWorld (scene_db 12) true [].
Definition demo_dreachable := @delivery_reachable UtcLib UtcArith demo_sha scene_json braces_json demo_text 60000 LimitProfile_default.
Definition demo_result (o : option (Drive * DWorld)) : option (result Fault DeliveryStep * list (MessageId * Z)) :=
  match o with Some (Return r, w) => Some (r, handed_attempts w) | _ => None end.
Lemma demo_result_Some o r h : demo_result o = Some (r, h) -> exists w, o = Some (Return r, w) /\ handed_attempts w = h.
Proof. destruct o as [[[r'|] w]|]; try done. intros [= <- <-]. by exists w. Qed.
Lemma demo_run_result : demo_result (demo_run 15 demo_drive demo_dworld) = Some (Ok (StepAccepted (MkId 61)), [(MkId 61, 1)]).
Proof. vm_compute. reflexivity. Qed.
Lemma demo_begins : demo_dstep (MkDSystem demo_dworld []) (MkDSystem demo_dworld [demo_drive]).
Proof. apply (de_begin _ _ demo_dworld []). done. Qed.
Lemma demo_driven : exists w, demo_dreachable (MkDSystem w [Return (Ok (StepAccepted (MkId 61)))]) /\
  handed_attempts w = [(MkId 61, 1)].
Proof.
  destruct (demo_result_Some _ _ _ demo_run_result) as (w & E & Hh). exists w. split; [|exact Hh].
  exists (scene_db 12), true. split; [apply scene_reach|]. eapply rtc_l; [exact demo_begins|exact (demo_run_steps _ _ _ _ _ E)].
Qed.

(** ** Witnesses *)

Lemma handed_over_at_most_once_witness : exists w, handed_attempts w = [(MkId 61, 1)] /\ NoDup (handed_attempts w).
Proof.
  destruct demo_driven as (w & Hr & Hh). exists w. split; [exact Hh|].
  exact (proj1 (@handed_over_at_most_once UtcLib UtcArith demo_sha scene_json braces_json demo_text UtcLaws UtcArithLaws 60000
    LimitProfile_default _ Hr)).
Defined.

