(* ===== verification/SqliteCapacity.v ===== *)
(** * SqliteCapacity: the capacity transactions

    [impl CapacityStore for SqliteStore] of crates/navigator-store-sqlite/src/store.rs,
    with the transactions that run when a database is opened
    ([reconcile_abandoned_subscriptions], [configure_capacity_limits]), the helper that
    the publication of an artifact calls ([consume_capacity_reservation]), and the
    checks of the capacity tables at start-up in
    crates/navigator-store-sqlite/src/database.rs.

    The tables of migrations 0019 and 0020 stand beside [Db], which holds the two usage
    tables.  A capacity handler commits or rolls back and records nothing in the
    ledger, so that its transaction is a state and error monad.  A violated constraint
    or a NULL where a value is expected is [Unavailable], as [map_sqlx] has it. *)
From S2P Require Import Prelude Scalars Session Capacity Approval StoreApi StoreWire Json Template SqliteDb SqliteMailbox.

(** ** Commands and answers *)

Record ReserveCapacity := MkReserveCapacity {
  rc_reservation_id : RequestId;
  rc_session_id : SessionId;
  rc_campaign_id : ParticipantId;
  rc_resource : CapacityResource;
  rc_amount : Z;
}.
Record CapacityReservation := MkCapacityReservation {
  cv_reservation_id : RequestId;
  cv_session_id : SessionId;
  cv_campaign_id : ParticipantId;
  cv_resource : CapacityResource;
  cv_amount : Z;
  cv_released : bool;
}.
Record ReserveSubscriptionLease := MkReserveSubscriptionLease {
  rs_reservation_id : RequestId;
  rs_session_id : SessionId;
  rs_campaign_id : ParticipantId;
  rs_owner_host_id : HostId;
  rs_owner_epoch : FencingEpoch;
  rs_expires_at : Timestamp;
}.
Record SubscriptionLease := MkSubscriptionLease {
  sl_reservation_id : RequestId;
  sl_session_id : SessionId;
  sl_campaign_id : ParticipantId;
  sl_owner_host_id : HostId;
  sl_owner_epoch : FencingEpoch;
  sl_expires_at : Timestamp;
}.
Record ReserveGlobalCapacity := MkReserveGlobalCapacity {
  rg_reservation_id : RequestId;
  rg_resource : CapacityResource;
  rg_amount : Z;
}.
Record GlobalCapacityReservation := MkGlobalCapacityReservation {
  gv_reservation_id : RequestId;
  gv_resource : CapacityResource;
  gv_amount : Z;
  gv_released : bool;
}.
Record CapacityMetric := MkCapacityMetric {
  cm_resource : CapacityResource;
  cm_session_used : Z;
  cm_session_limit : Z;
  cm_global_used : Z;
  cm_global_limit : Z;
}.

(** ** Tables *)

Record ReservationCols := MkReservationCols {
  rv_session_id : SessionId;
  rv_campaign_id : ParticipantId;
  rv_resource : CapacityResource;
  rv_amount : Z;
  rv_released : Z;
  rv_created_at : Timestamp;
  rv_released_at : option Timestamp;
}.
Record GlobalReservationCols := MkGlobalReservationCols {
  gr_resource : CapacityResource;
  gr_amount : Z;
  gr_released : Z;
  gr_created_at : Timestamp;
  gr_released_at : option Timestamp;
}.
Record SubscriptionCols := MkSubscriptionCols {
  su_session_id : SessionId;
  su_campaign_id : ParticipantId;
  su_owner_host_id : HostId;
  su_owner_epoch : Z;
  su_expires_at : Timestamp;
}.
Record LimitCols := MkLimitCols { lc_per_session : Z; lc_global_limit : Z; lc_configured : Z }.

Record Capacities := MkCapacities {
  cy_db : Db;
  cy_reservations : gmap RequestId ReservationCols;
  cy_globals : gmap RequestId GlobalReservationCols;
  cy_leases : gmap RequestId SubscriptionCols;
  cy_limits : gmap CapacityResource LimitCols;
}.

Definition set_usage (d : Db) (su : gmap (SessionId * CapacityResource) Z) (gu : gmap CapacityResource Z) : Db :=
  MkDb
    (db_sessions d) (db_manifests d) (db_templates d) (db_events d) (db_event_limits d)
    (db_ledger d) (db_approval_requests d) (db_recovery_requests d) (db_messages d) (db_counters d)
    (db_operations d) (db_participants d) (db_policies d) (db_launches d) (db_artifacts d)
    su gu (db_grants d) (db_effects d) (db_effect_mutations d) (db_registrations d)
    (db_connections d) (db_tools d) (db_tool_mutations d) (db_template_policies d).
Definition set_event_limits (d : Db) (v : option (Z * Z)) : Db :=
  MkDb
    (db_sessions d) (db_manifests d) (db_templates d) (db_events d) v
    (db_ledger d) (db_approval_requests d) (db_recovery_requests d) (db_messages d) (db_counters d)
    (db_operations d) (db_participants d) (db_policies d) (db_launches d) (db_artifacts d)
    (db_session_usage d) (db_global_usage d) (db_grants d) (db_effects d) (db_effect_mutations d)
    (db_registrations d) (db_connections d) (db_tools d) (db_tool_mutations d) (db_template_policies d).

Definition cy_session_usage (s : Capacities) := db_session_usage (cy_db s).
Definition cy_global_usage (s : Capacities) := db_global_usage (cy_db s).
Definition with_db (s : Capacities) (d : Db) : Capacities :=
  MkCapacities d (cy_reservations s) (cy_globals s) (cy_leases s) (cy_limits s).
Definition with_session_usage (s : Capacities) u : Capacities := with_db s (set_usage (cy_db s) u (cy_global_usage s)).
Definition with_global_usage (s : Capacities) u : Capacities := with_db s (set_usage (cy_db s) (cy_session_usage s) u).
Definition with_reservations (s : Capacities) v : Capacities :=
  MkCapacities (cy_db s) v (cy_globals s) (cy_leases s) (cy_limits s).
Definition with_globals (s : Capacities) v : Capacities :=
  MkCapacities (cy_db s) (cy_reservations s) v (cy_leases s) (cy_limits s).
Definition with_leases (s : Capacities) v : Capacities :=
  MkCapacities (cy_db s) (cy_reservations s) (cy_globals s) v (cy_limits s).

(** ** Transactions *)

Definition CTx (A : Type) := Capacities -> result StoreError (A * Capacities).
#[global] Instance ctx_ret : MRet CTx := fun A a s => Ok (a, s).
#[global] Instance ctx_bind : MBind CTx := fun A B f m s =>
  match m s with Ok (a, s') => f a s' | Err e => Err e end.
Definition clift {A} (r : result StoreError A) : CTx A := fun s =>
  match r with Ok a => Ok (a, s) | Err e => Err e end.
Definition cfail {A} (e : StoreError) : CTx A := fun _ => Err e.
Definition cget : CTx Capacities := fun s => Ok (s, s).
Definition cput (s : Capacities) : CTx unit := fun _ => Ok (tt, s).
(** The tables and the answer after the transaction ends. *)
Definition crun {A} (m : CTx A) (s : Capacities) : Capacities * result StoreError A :=
  match m s with Ok (a, s') => (s', Ok a) | Err e => (s, Err e) end.

(** ** Statements *)

(** Unreleased amounts that a query sums. *)
Definition reserved (p : ReservationCols -> bool) (rows : gmap RequestId ReservationCols) : Z :=
  sum_rows (fun r => p r && (rv_released r =? 0)) rv_amount (table_rows rows).
Definition globally_reserved (res : CapacityResource) (rows : gmap RequestId GlobalReservationCols) : Z :=
  sum_rows (fun r => eqb (gr_resource r) res && (gr_released r =? 0)) gr_amount (table_rows rows).
Definition of_session (sid : SessionId) (res : CapacityResource) (r : ReservationCols) : bool :=
  eqb (rv_session_id r) sid && eqb (rv_resource r) res.
Definition of_resource (res : CapacityResource) (r : ReservationCols) : bool := eqb (rv_resource r) res.

Definition session_used (s : Capacities) (sid : SessionId) (res : CapacityResource) : Z :=
  default 0 (cy_session_usage s !! (sid, res)).
Definition global_used (s : Capacities) (res : CapacityResource) : Z := default 0 (cy_global_usage s !! res).

(** [INSERT INTO capacity_reservations]: the primary key, the amount and the two
    foreign keys are checked. *)
Definition insert_reservation (id : RequestId) (r : ReservationCols) : CTx unit :=
  s ← cget;
  if is_some (cy_reservations s !! id) || (rv_amount r <=? 0)
     || is_none (db_sessions (cy_db s) !! rv_session_id r) || is_none (db_participants (cy_db s) !! rv_campaign_id r)
  then cfail Unavailable
  else cput (with_reservations s (<[id := r]> (cy_reservations s))).
Definition insert_global_reservation (id : RequestId) (r : GlobalReservationCols) : CTx unit :=
  s ← cget;
  if is_some (cy_globals s !! id) || (gr_amount r <=? 0) then cfail Unavailable
  else cput (with_globals s (<[id := r]> (cy_globals s))).
Definition insert_lease (id : RequestId) (l : SubscriptionCols) : CTx unit :=
  s ← cget;
  if is_some (cy_leases s !! id) || (su_owner_epoch l <=? 0) || is_none (cy_reservations s !! id)
     || is_none (db_sessions (cy_db s) !! su_session_id l) || is_none (db_participants (cy_db s) !! su_campaign_id l)
  then cfail Unavailable
  else cput (with_leases s (<[id := l]> (cy_leases s))).

(** [INSERT .. ON CONFLICT DO UPDATE SET used=..]: the counter must not be negative. *)
Definition write_session_used (sid : SessionId) (res : CapacityResource) (used : Z) : CTx unit :=
  s ← cget;
  if (used <? 0) || is_none (db_sessions (cy_db s) !! sid) then cfail Unavailable
  else cput (with_session_usage s (<[(sid, res) := used]> (cy_session_usage s))).
Definition write_global_used (res : CapacityResource) (used : Z) : CTx unit :=
  s ← cget;
  if used <? 0 then cfail Unavailable
  else cput (with_global_usage s (<[res := used]> (cy_global_usage s))).

(** [UPDATE .. SET used=used-? WHERE .. AND used>=?]: whether a row was changed. *)
Definition take_session_used (sid : SessionId) (res : CapacityResource) (amount : Z) : CTx bool :=
  s ← cget;
  match cy_session_usage s !! (sid, res) with
  | Some used =>
      if amount <=? used
      then _ ← cput (with_session_usage s (<[(sid, res) := used - amount]> (cy_session_usage s))); mret true
      else mret false
  | None => mret false
  end.
Definition take_global_used (res : CapacityResource) (amount : Z) : CTx bool :=
  s ← cget;
  match cy_global_usage s !! res with
  | Some used =>
      if amount <=? used
      then _ ← cput (with_global_usage s (<[res := used - amount]> (cy_global_usage s))); mret true
      else mret false
  | None => mret false
  end.
(** [UPDATE .. SET released=1 .. WHERE reservation_id=? AND released=0]. *)
Definition mark_released (id : RequestId) (now : Timestamp) : CTx bool :=
  s ← cget;
  match cy_reservations s !! id with
  | Some r =>
      if rv_released r =? 0
      then _ ← cput (with_reservations s (<[id := MkReservationCols (rv_session_id r) (rv_campaign_id r)
             (rv_resource r) (rv_amount r) 1 (rv_created_at r) (Some now)]> (cy_reservations s))); mret true
      else mret false
  | None => mret false
  end.
Definition mark_global_released (id : RequestId) (now : Timestamp) : CTx bool :=
  s ← cget;
  match cy_globals s !! id with
  | Some r =>
      if gr_released r =? 0
      then _ ← cput (with_globals s (<[id := MkGlobalReservationCols (gr_resource r) (gr_amount r) 1
             (gr_created_at r) (Some now)]> (cy_globals s))); mret true
      else mret false
  | None => mret false
  end.

(** [DELETE FROM capacity_reservations]: the leases that refer to a deleted row are
    deleted with it ([ON DELETE CASCADE]). *)
Definition delete_reservations (p : RequestId -> ReservationCols -> bool) : CTx unit :=
  s ← cget;
  let kept := filter (fun e => p e.1 e.2 = false) (cy_reservations s) in
  cput (MkCapacities (cy_db s) kept (cy_globals s)
          (filter (fun e => is_Some (kept !! e.1)) (cy_leases s)) (cy_limits s)).
(** [DELETE FROM capacity_.._usage WHERE .. AND used=0]. *)
Definition drop_zero {K} `{Countable K} (k : K) (m : gmap K Z) : gmap K Z :=
  if bool_decide (m !! k = Some 0) then delete k m else m.
Definition drop_idle_session (sid : SessionId) (res : CapacityResource) : CTx unit :=
  s ← cget;
  cput (with_session_usage s (drop_zero (sid, res) (cy_session_usage s))).
Definition drop_idle_global (res : CapacityResource) : CTx unit :=
  s ← cget;
  cput (with_global_usage s (drop_zero res (cy_global_usage s))).

(** [i64::try_from(value).map_err(..)]. *)
Definition i64_or (e : StoreError) (value : Z) : result StoreError Z :=
  if value <=? i64_max then Ok value else Err e.
(** [checked_add] with the error of a limit. *)
Definition add_or (e : StoreError) (a b : Z) : result StoreError Z := ok_or e (checked_add_u64 a b).

(** ** Subscriptions *)

Definition subscription_lease (c : ReserveSubscriptionLease) : SubscriptionLease :=
  MkSubscriptionLease (rs_reservation_id c) (rs_session_id c) (rs_campaign_id c) (rs_owner_host_id c)
    (rs_owner_epoch c) (rs_expires_at c).

(** Whether the participant [campaign_id] is one of the session. *)
Definition campaign_of (s : Capacities) (sid : SessionId) (campaign_id : ParticipantId) : bool :=
  match db_participants (cy_db s) !! campaign_id with Some p => eqb (pc_session_id p) sid | None => false end.

Definition validate_subscription_owner (c : ReserveSubscriptionLease) : CTx unit :=
  s ← cget;
  match db_sessions (cy_db s) !! rs_session_id c with
  | Some row =>
      if negb (sc_closed row =? 0) then cfail (SessionNotFound (rs_session_id c)) else
      match sc_owner_host_id row, sc_owner_epoch row, sc_owner_expires_at row with
      | Some host, Some epoch, Some owner_expiry =>
          current ← clift (to_u64 epoch);
          if negb (host =? as_uuid (rs_owner_host_id c)) || negb (current =? FencingEpoch_get (rs_owner_epoch c))
             || Timestamp_leb (rs_expires_at c) (sc_time_floor row)
             || Timestamp_ltb owner_expiry (rs_expires_at c)
          then cfail (StaleOwnership (rs_session_id c) (rs_owner_epoch c)
                 (match FencingEpoch_new current with Ok e => Some e | Err _ => None end))
          else if campaign_of s (rs_session_id c) (rs_campaign_id c) then mret tt
          else cfail (ParticipantNotFound (rs_campaign_id c))
      | _, _, _ => cfail Unavailable
      end
  | None => cfail (SessionNotFound (rs_session_id c))
  end.

(** The condition of both reclaiming statements: the session has no owner, or another
    one, or its time has passed the lease. *)
Definition abandoned (row : SessionCols) (l : SubscriptionCols) : bool :=
  match sc_owner_host_id row with
  | None => true
  | Some host => negb (as_uuid (su_owner_host_id l) =? host)
      || match sc_owner_epoch row with Some epoch => negb (su_owner_epoch l =? epoch) | None => false end
      || Timestamp_leb (su_expires_at l) (sc_time_floor row)
  end.
Definition lease_abandoned (s : Capacities) (l : SubscriptionCols) : bool :=
  match db_sessions (cy_db s) !! su_session_id l with Some row => abandoned row l | None => false end.

Definition increment_capacity_counter (sid : SessionId) (res : CapacityResource) (amount : Z) : CTx unit :=
  s ← cget;
  _ ← write_session_used sid res (session_used s sid res + amount);
  write_global_used res (global_used s res + amount).

(** [UPDATE .. SET used=? WHERE ..]: nothing happens where there is no row. *)
Definition overwrite_session_used (sid : SessionId) (res : CapacityResource) (used : Z) : CTx unit :=
  s ← cget;
  match cy_session_usage s !! (sid, res) with
  | Some _ => write_session_used sid res used
  | None => mret tt
  end.
Definition overwrite_global_used (res : CapacityResource) (used : Z) : CTx unit :=
  s ← cget;
  match cy_global_usage s !! res with Some _ => write_global_used res used | None => mret tt end.

Definition reclaim_stale_subscription_leases (sid : SessionId) : CTx unit :=
  s ← cget;
  _ ← delete_reservations (fun id _ =>
        match cy_leases s !! id with
        | Some l => eqb (su_session_id l) sid && lease_abandoned s l
        | None => false
        end);
  s ← cget;
  let used := reserved (of_session sid Subscriptions) (cy_reservations s) in
  _ ← (if used =? 0
       then cput (with_session_usage s (delete (sid, Subscriptions) (cy_session_usage s)))
       else overwrite_session_used sid Subscriptions used);
  s ← cget;
  let used := reserved (of_resource Subscriptions) (cy_reservations s) in
  if used =? 0
  then cput (with_global_usage s (delete Subscriptions (cy_global_usage s)))
  else overwrite_global_used Subscriptions used.

Definition reserve_subscription_lease (now : Timestamp) (c : ReserveSubscriptionLease) : CTx SubscriptionLease :=
  _ ← validate_subscription_owner c;
  _ ← reclaim_stale_subscription_leases (rs_session_id c);
  s ← cget;
  match cy_leases s !! rs_reservation_id c with
  | Some l =>
      if eqb (su_session_id l) (rs_session_id c) && eqb (su_campaign_id l) (rs_campaign_id c)
         && eqb (su_owner_host_id l) (rs_owner_host_id c)
         && eqb (su_owner_epoch l) (FencingEpoch_get (rs_owner_epoch c)) && eqb (su_expires_at l) (rs_expires_at c)
      then mret (subscription_lease c)
      else cfail (RequestConflict (rs_reservation_id c))
  | None =>
      match cy_limits s !! Subscriptions with
      | None => cfail Unavailable
      | Some limit =>
          if lc_per_session limit <=? session_used s (rs_session_id c) Subscriptions
          then cfail (CapacityExceeded (SessionLimit Subscriptions))
          else if lc_global_limit limit <=? global_used s Subscriptions
          then cfail (CapacityExceeded (GlobalLimit Subscriptions))
          else
            _ ← insert_reservation (rs_reservation_id c)
                  (MkReservationCols (rs_session_id c) (rs_campaign_id c) Subscriptions 1 0 now None);
            epoch ← clift (to_i64 (FencingEpoch_get (rs_owner_epoch c)));
            _ ← insert_lease (rs_reservation_id c)
                  (MkSubscriptionCols (rs_session_id c) (rs_campaign_id c) (rs_owner_host_id c) epoch (rs_expires_at c));
            _ ← increment_capacity_counter (rs_session_id c) Subscriptions 1;
            mret (subscription_lease c)
      end
  end.

Definition renew_subscription_lease (c : ReserveSubscriptionLease) : CTx SubscriptionLease :=
  _ ← validate_subscription_owner c;
  epoch ← clift (to_i64 (FencingEpoch_get (rs_owner_epoch c)));
  s ← cget;
  match cy_leases s !! rs_reservation_id c with
  | Some l =>
      if eqb (su_session_id l) (rs_session_id c) && eqb (su_campaign_id l) (rs_campaign_id c)
         && eqb (su_owner_host_id l) (rs_owner_host_id c) && eqb (su_owner_epoch l) epoch
         && Timestamp_leb (su_expires_at l) (rs_expires_at c)
      then
        _ ← cput (with_leases s (<[rs_reservation_id c := MkSubscriptionCols (su_session_id l) (su_campaign_id l)
              (su_owner_host_id l) (su_owner_epoch l) (rs_expires_at c)]> (cy_leases s)));
        mret (subscription_lease c)
      else cfail (RequestConflict (rs_reservation_id c))
  | None => cfail (RequestConflict (rs_reservation_id c))
  end.

(** When a database is opened: the leases of every session. *)
Definition reconcile_abandoned_subscriptions : CTx unit :=
  s ← cget;
  _ ← delete_reservations (fun id _ =>
        match cy_leases s !! id with Some l => lease_abandoned s l | None => false end);
  s ← cget;
  let recount (k : SessionId * CapacityResource) (used : Z) : Z :=
    if eqb k.2 Subscriptions then reserved (of_session k.1 Subscriptions) (cy_reservations s) else used in
  let counted := map_imap (fun k used => Some (recount k used)) (cy_session_usage s) in
  _ ← cput (with_session_usage s (filter (fun e => ~ (e.1.2 = Subscriptions /\ e.2 = 0)) counted));
  _ ← overwrite_global_used Subscriptions (reserved (of_resource Subscriptions) (cy_reservations s));
  drop_idle_global Subscriptions.

(** ** Reservations *)

Section handlers.
Context {JS : Json} {UT : UuidText}.
Variable limit_profile : LimitProfile.

(** A profile without the resource would panic, which drops the transaction. *)
Definition profile_limit (res : CapacityResource) : CTx ResourceLimit :=
  clift (ok_or Unavailable (LimitProfile_get limit_profile res)).

Definition reserve_global_capacity (now : Timestamp) (c : ReserveGlobalCapacity) : CTx GlobalCapacityReservation :=
  if rg_amount c =? 0 then cfail Invalid else
  s ← cget;
  match cy_globals s !! rg_reservation_id c with
  | Some r =>
      if neqb (gr_resource r) (rg_resource c) then cfail (RequestConflict (rg_reservation_id c)) else
      amount ← clift (to_u64 (gr_amount r));
      if negb (amount =? rg_amount c) then cfail (RequestConflict (rg_reservation_id c)) else
      mret (MkGlobalCapacityReservation (rg_reservation_id c) (rg_resource c) (rg_amount c) (negb (gr_released r =? 0)))
  | None =>
      used ← clift (to_u64 (global_used s (rg_resource c)));
      after ← clift (add_or (CapacityExceeded (GlobalLimit (rg_resource c))) used (rg_amount c));
      limit ← profile_limit (rg_resource c);
      if global limit <? after then cfail (CapacityExceeded (GlobalLimit (rg_resource c))) else
      amount ← clift (i64_or Invalid (rg_amount c));
      _ ← insert_global_reservation (rg_reservation_id c) (MkGlobalReservationCols (rg_resource c) amount 0 now None);
      after ← clift (i64_or Corrupt after);
      _ ← write_global_used (rg_resource c) after;
      mret (MkGlobalCapacityReservation (rg_reservation_id c) (rg_resource c) (rg_amount c) false)
  end.

Definition release_global_capacity (now : Timestamp) (id : RequestId) : CTx GlobalCapacityReservation :=
  s ← cget;
  r ← clift (ok_or Invalid (cy_globals s !! id));
  _ ← (if gr_released r =? 0
       then marked ← mark_global_released id now;
            if negb marked then cfail Corrupt else
            taken ← take_global_used (gr_resource r) (gr_amount r);
            if negb taken then cfail Corrupt else mret tt
       else mret tt);
  _ ← (if eqb (gr_resource r) PendingRequests
       then s ← cget;
            _ ← cput (with_globals s (filter (fun e => ~ (e.1 = id /\ gr_released e.2 = 1)) (cy_globals s)));
            drop_idle_global (gr_resource r)
       else mret tt);
  amount ← clift (to_u64 (gr_amount r));
  mret (MkGlobalCapacityReservation id (gr_resource r) amount true).

Definition reserve_capacity (now : Timestamp) (c : ReserveCapacity) : CTx CapacityReservation :=
  if eqb (rc_resource c) Subscriptions then cfail Invalid else
  if rc_amount c =? 0 then cfail Invalid else
  s ← cget;
  match cy_reservations s !! rc_reservation_id c with
  | Some r =>
      if eqb (rv_session_id r) (rc_session_id c) && eqb (rv_campaign_id r) (rc_campaign_id c)
         && eqb (rv_resource r) (rc_resource c) && eqb (rv_amount r) (rc_amount c)
      then mret (MkCapacityReservation (rc_reservation_id c) (rc_session_id c) (rc_campaign_id c) (rc_resource c)
             (rc_amount c) (negb (rv_released r =? 0)))
      else cfail (RequestConflict (rc_reservation_id c))
  | None =>
      if negb (campaign_of s (rc_session_id c) (rc_campaign_id c))
      then cfail (ParticipantNotFound (rc_campaign_id c)) else
      let derived := derived_capacity_usage (cy_db s) (rc_session_id c) (rc_resource c) in
      derived_session ← clift (to_u64 derived.1);
      derived_global ← clift (to_u64 derived.2);
      used ← clift (to_u64 (session_used s (rc_session_id c) (rc_resource c)));
      used ← clift (add_or (CapacityExceeded (SessionLimit (rc_resource c))) derived_session used);
      session_after ← clift (add_or (CapacityExceeded (SessionLimit (rc_resource c))) used (rc_amount c));
      used ← clift (to_u64 (global_used s (rc_resource c)));
      used ← clift (add_or (CapacityExceeded (GlobalLimit (rc_resource c))) derived_global used);
      global_after ← clift (add_or (CapacityExceeded (GlobalLimit (rc_resource c))) used (rc_amount c));
      limit ← profile_limit (rc_resource c);
      if per_session limit <? session_after then cfail (CapacityExceeded (SessionLimit (rc_resource c))) else
      if global limit <? global_after then cfail (CapacityExceeded (GlobalLimit (rc_resource c))) else
      amount ← clift (i64_or Invalid (rc_amount c));
      _ ← insert_reservation (rc_reservation_id c)
            (MkReservationCols (rc_session_id c) (rc_campaign_id c) (rc_resource c) amount 0 now None);
      used ← clift (i64_or Corrupt (session_after - derived_session));
      _ ← write_session_used (rc_session_id c) (rc_resource c) used;
      used ← clift (i64_or Corrupt (global_after - derived_global));
      _ ← write_global_used (rc_resource c) used;
      mret (MkCapacityReservation (rc_reservation_id c) (rc_session_id c) (rc_campaign_id c) (rc_resource c)
        (rc_amount c) false)
  end.

Definition release_capacity (now : Timestamp) (id : RequestId) : CTx CapacityReservation :=
  s ← cget;
  r ← clift (ok_or Invalid (cy_reservations s !! id));
  amount ← clift (to_u64 (rv_amount r));
  _ ← (if rv_released r =? 0
       then marked ← mark_released id now;
            if negb marked then cfail Corrupt else
            amount ← clift (i64_or Corrupt amount);
            taken ← take_session_used (rv_session_id r) (rv_resource r) amount;
            if negb taken then cfail Corrupt else
            taken ← take_global_used (rv_resource r) amount;
            if negb taken then cfail Corrupt else mret tt
       else mret tt);
  _ ← (if eqb (rv_resource r) Subscriptions
       then _ ← delete_reservations (fun i row => eqb i id && (rv_released row =? 1));
            _ ← drop_idle_session (rv_session_id r) (rv_resource r);
            drop_idle_global (rv_resource r)
       else mret tt);
  mret (MkCapacityReservation id (rv_session_id r) (rv_campaign_id r) (rv_resource r) amount true).

Definition capacity_metrics (sid : SessionId) : CTx (list CapacityMetric) :=
  s ← cget;
  if is_none (db_sessions (cy_db s) !! sid) then cfail (SessionNotFound sid) else
  clift (collect (fun res =>
    let derived := derived_capacity_usage (cy_db s) sid res in
    derived_session ← to_u64 derived.1;
    derived_global ← to_u64 derived.2;
    limit ← ok_or Unavailable (LimitProfile_get limit_profile res);
    reserved ← to_u64 (session_used s sid res);
    session ← add_or Corrupt derived_session reserved;
    reserved ← to_u64 (global_used s res);
    in_all ← add_or Corrupt derived_global reserved;
    Ok (MkCapacityMetric res session (per_session limit) in_all (global limit))) CapacityResource_ALL).

(** Inside the publication of an artifact. *)
Definition consume_capacity_reservation (id : RequestId) (sid : SessionId) (campaign : ParticipantId)
    (res : CapacityResource) (amount : Z) (now : Timestamp) : CTx unit :=
  s ← cget;
  r ← clift (ok_or Invalid (cy_reservations s !! id));
  if neqb (rv_session_id r) sid || neqb (rv_campaign_id r) campaign || neqb (rv_resource r) res
  then cfail Invalid else
  stored ← clift (to_u64 (rv_amount r));
  if negb (stored =? amount) || negb (rv_released r =? 0) then cfail Invalid else
  amount ← clift (i64_or Corrupt amount);
  marked ← mark_released id now;
  if negb marked then cfail Corrupt else
  taken ← take_session_used sid res amount;
  if negb taken then cfail Corrupt else
  taken ← take_global_used res amount;
  if negb taken then cfail Corrupt else mret tt.

(** ** Limits *)

Definition write_limit (res : CapacityResource) (l : LimitCols) : CTx unit :=
  s ← cget;
  if (lc_per_session l <=? 0) || (lc_global_limit l <? lc_per_session l) then cfail Unavailable else
  let s := MkCapacities (cy_db s) (cy_reservations s) (cy_globals s) (cy_leases s) (<[res := l]> (cy_limits s)) in
  cput (if eqb res RetainedEvents
        then with_db s (set_event_limits (cy_db s) (Some (lc_per_session l, lc_global_limit l))) else s).
Definition configure_capacity_limit (res : CapacityResource) : CTx unit :=
  s ← cget;
  stored ← clift (ok_or Corrupt (cy_limits s !! res));
  limit ← profile_limit res;
  requested_session ← clift (i64_or Invalid (per_session limit));
  requested_global ← clift (i64_or Invalid (global limit));
  if lc_configured stored =? 0 then write_limit res (MkLimitCols requested_session requested_global 1)
  else if negb (lc_configured stored =? 1) || negb (lc_per_session stored =? requested_session)
          || negb (lc_global_limit stored =? requested_global)
  then cfail Invalid else mret tt.
Fixpoint each {A} (f : A -> CTx unit) (l : list A) : CTx unit :=
  match l with [] => mret tt | x :: l => _ ← f x; each f l end.
Definition configure_capacity_limits : CTx unit := each configure_capacity_limit CapacityResource_ALL.
End handlers.

(** ** The checks at start-up *)

Definition none {A} (p : A -> bool) (l : list A) : bool := negb (existsb p l).
Definition some_row {K A} `{Countable K} (p : A -> bool) (m : gmap K A) : bool := existsb p (table_rows m).

Definition invalid_reservation (s : Capacities) (r : ReservationCols) : bool :=
  match db_participants (cy_db s) !! rv_campaign_id r with
  | Some p => neqb (pc_session_id p) (rv_session_id r) || (rv_amount r <=? 0)
      || negb (eqb (rv_released r =? 0) (is_none (rv_released_at r)))
  | None => false
  end.
Definition mismatched_session (s : Capacities) (u : (SessionId * CapacityResource) * Z) : bool :=
  negb (u.2 =? reserved (of_session u.1.1 u.1.2) (cy_reservations s))
  || (u.2 =? 0) && negb (some_row (of_session u.1.1 u.1.2) (cy_reservations s)).
Definition mismatched_global (s : Capacities) (u : CapacityResource * Z) : bool :=
  negb (u.2 =? reserved (of_resource u.1) (cy_reservations s) + globally_reserved u.1 (cy_globals s))
  || (u.2 =? 0) && negb (some_row (of_resource u.1) (cy_reservations s))
     && negb (some_row (fun r => eqb (gr_resource r) u.1) (cy_globals s)).
Definition missing_session_counter (s : Capacities) (r : ReservationCols) : bool :=
  (rv_released r =? 0) && is_none (cy_session_usage s !! (rv_session_id r, rv_resource r)).
Definition missing_global_counter (s : Capacities) : bool :=
  some_row (fun r => (rv_released r =? 0) && is_none (cy_global_usage s !! rv_resource r)) (cy_reservations s)
  || some_row (fun r => (gr_released r =? 0) && is_none (cy_global_usage s !! gr_resource r)) (cy_globals s).
Definition invalid_limit (l : LimitCols) : bool :=
  (lc_per_session l <=? 0) || (lc_global_limit l <? lc_per_session l)
  || negb ((lc_configured l =? 0) || (lc_configured l =? 1)).
Definition invalid_subscription_lease (s : Capacities) (e : RequestId * SubscriptionCols) : bool :=
  let l := e.2 in
  match cy_reservations s !! e.1, db_participants (cy_db s) !! su_campaign_id l with
  | Some r, Some p =>
      neqb (rv_resource r) Subscriptions || negb (rv_amount r =? 1) || negb (rv_released r =? 0)
      || neqb (rv_session_id r) (su_session_id l) || neqb (rv_campaign_id r) (su_campaign_id l)
      || neqb (pc_session_id p) (su_session_id l) || (su_owner_epoch l <=? 0)
  | _, _ => false
  end.
Definition missing_subscription_lease (s : Capacities) (e : RequestId * ReservationCols) : bool :=
  eqb (rv_resource e.2) Subscriptions && (rv_released e.2 =? 0) && is_none (cy_leases s !! e.1).
Definition limit_within_ceiling (e : CapacityResource * LimitCols) : bool :=
  let ceiling := hard_ceiling e.1 in
  (0 <=? lc_per_session e.2) && (lc_per_session e.2 <=? per_session ceiling)
  && (0 <=? lc_global_limit e.2) && (lc_global_limit e.2 <=? global ceiling).

(** The end of [validate_capacity_schema]: what it requires of the rows. *)
Definition capacity_rows_valid (s : Capacities) : bool :=
  none (invalid_reservation s) (table_rows (cy_reservations s))
  && none (mismatched_session s) (map_to_list (cy_session_usage s))
  && none (mismatched_global s) (map_to_list (cy_global_usage s))
  && none (missing_session_counter s) (table_rows (cy_reservations s))
  && negb (missing_global_counter s)
  && none invalid_limit (table_rows (cy_limits s))
  && none (invalid_subscription_lease s) (map_to_list (cy_leases s))
  && none (missing_subscription_lease s) (map_to_list (cy_reservations s))
  && (llen (map_to_list (cy_limits s)) =? 11)
  && forallb limit_within_ceiling (map_to_list (cy_limits s)).
