(* ===== verification/CapacityLedger.v ===== *)
(** * CapacityLedger: what the capacity transactions keep

    The invariant of the capacity tables ([tables_ok]) as a property of the tables
    themselves, and the changes the handlers make to them as lemmas on tables: a row is
    added, released or deleted, and the counters follow. *)
From S2P Require Import Prelude Scalars Session Capacity Approval StoreApi StoreWire Json Template SqliteDb SqliteMailbox Tables SqliteCapacity.

(** ** Sums over a part of a table *)

Section sums.
Context {K A : Type} `{Countable K} (p : A -> bool) (f : A -> Z).
Lemma sum_rows_delete (m : gmap K A) k v : m !! k = Some v ->
  sum_rows p f (table_rows (delete k m)) = sum_rows p f (table_rows m) - weight p f v.
Proof.
  intros Hk. rewrite <-(insert_delete_id m k v Hk) at 2. rewrite sum_rows_insert by apply lookup_delete_eq. lia.
Qed.
Lemma sum_rows_union (m m' : gmap K A) : m ##ₘ m' ->
  sum_rows p f (table_rows (m ∪ m')) = sum_rows p f (table_rows m) + sum_rows p f (table_rows m').
Proof.
  induction m as [|k x m Hk IH] using map_ind; intros Hd; [by rewrite map_empty_union|].
  apply map_disjoint_insert_l in Hd as [Hk' Hd]. rewrite <-insert_union_l, !sum_rows_insert, IH; [lia|done..|].
  by apply lookup_union_None.
Qed.
Lemma sum_rows_split (m m' : gmap K A) : m' ⊆ m ->
  sum_rows p f (table_rows m) = sum_rows p f (table_rows m') + sum_rows p f (table_rows (m ∖ m')).
Proof.
  intros Hs. rewrite <-(map_difference_union m' m) at 1 by done. apply sum_rows_union. apply map_disjoint_spec. intros i x y Hx [_ Hy]%lookup_difference_Some. congruence.
Qed.
Lemma sum_rows_at_least (m : gmap K A) : (forall k v, m !! k = Some v -> p v = true -> 0 <= f v) ->
  0 <= sum_rows p f (table_rows m).
Proof.
  intros Hf. assert (Hd : Forall (fun v => p v = true -> 0 <= f v) (table_rows m)).
  { apply Forall_forall. intros v [k Hk]%table_rows_elem. eauto. }
  induction Hd as [|v l Hv _ IH]; [done|]. rewrite sum_rows_cons. unfold weight. destruct (p v); [specialize (Hv eq_refl)|]; lia.
Qed.
Lemma sum_rows_ge (m : gmap K A) k v : (forall k v, m !! k = Some v -> p v = true -> 0 <= f v) ->
  m !! k = Some v -> p v = true -> f v <= sum_rows p f (table_rows m).
Proof.
  intros Hf Hk Hp. rewrite <-(insert_delete_id m k v Hk), sum_rows_insert by apply lookup_delete_eq.
  unfold weight. rewrite Hp. enough (0 <= sum_rows p f (table_rows (delete k m))) by lia.
  apply sum_rows_at_least. intros i w Hi. apply lookup_delete_Some in Hi as [_ Hi]. eauto.
Qed.
Lemma sum_rows_zero (m : gmap K A) : (forall k v, m !! k = Some v -> p v = false) -> sum_rows p f (table_rows m) = 0.
Proof.
  intros Hn. assert (Hf : Forall (fun v => p v = false) (table_rows m)).
  { apply Forall_forall. intros v [k Hk]%table_rows_elem. eauto. }
  induction Hf as [|v l Hv _ IH]; [done|]. rewrite sum_rows_cons, IH. unfold weight. by rewrite Hv.
Qed.
Lemma sum_rows_sub (m m' : gmap K A) : m' ⊆ m -> (forall k v, m !! k = Some v -> m' !! k = None -> p v = false) ->
  sum_rows p f (table_rows m') = sum_rows p f (table_rows m).
Proof.
  intros Hs Hp. rewrite (sum_rows_split m m') by done. rewrite (sum_rows_zero (m ∖ m')); [lia|].
  intros k v [? ?]%lookup_difference_Some. eauto.
Qed.
Lemma sum_rows_sub_le (m m' : gmap K A) : m' ⊆ m -> (forall k v, m !! k = Some v -> p v = true -> 0 <= f v) ->
  sum_rows p f (table_rows m') <= sum_rows p f (table_rows m).
Proof.
  intros Hs Hp. rewrite (sum_rows_split m m') by done. enough (0 <= sum_rows p f (table_rows (m ∖ m'))) by lia.
  apply sum_rows_at_least. intros k v [? ?]%lookup_difference_Some. eauto.
Qed.
Lemma sum_rows_some (m : gmap K A) : sum_rows p f (table_rows m) <> 0 -> exists k v, m !! k = Some v /\ p v = true.
Proof.
  intros Hs. enough (exists v, v ∈ table_rows m /\ p v = true) as (v & [k Hk]%table_rows_elem & Hp) by eauto.
  induction (table_rows m) as [|v l IH]; [done|]. rewrite sum_rows_cons in Hs. unfold weight in Hs.
  destruct (p v) eqn:E; [exists v; split; [apply list_elem_of_here|done]|].
  destruct IH as (w & Hw & Hp); [lia|]. exists w. split; [by apply list_elem_of_further|done].
Qed.
End sums.

(** ** The invariant *)

Definition is_unreleased (r : ReservationCols) : Prop := rv_released r = 0 /\ rv_released_at r = None.
Definition is_released (r : ReservationCols) : Prop := rv_released r = 1 /\ is_Some (rv_released_at r).
Definition greleased (r : GlobalReservationCols) : Prop := gr_released r = 0 \/ gr_released r = 1.

(** A counter is the sum it stands for, within its limit, and has rows behind it. *)
Definition counter_ok (counter : option Z) (sum limit : Z) (rows : Prop) : Prop :=
  default 0 counter = sum /\ sum <= limit /\ (is_Some counter -> rows).

Abbreviation reservations := (gmap RequestId ReservationCols) (only parsing).
Abbreviation global_reservations := (gmap RequestId GlobalReservationCols) (only parsing).

Section invariant.
Context (profile : LimitProfile).

Definition limit_of (res : CapacityResource) : ResourceLimit := default (MkLimit 0 0) (LimitProfile_get profile res).

(** Every row is of a participant of its session; [parts] gives a participant's session. *)
Definition rows_ok (parts : ParticipantId -> option SessionId) (rs : reservations) : Prop :=
  forall id r, rs !! id = Some r -> parts (rv_campaign_id r) = Some (rv_session_id r) /\ 0 < rv_amount r /\
    (is_unreleased r \/ is_released r) /\ (rv_resource r = Subscriptions -> is_unreleased r).
Definition globals_ok (gs : global_reservations) : Prop :=
  forall id r, gs !! id = Some r -> 0 < gr_amount r /\ greleased r /\ gr_resource r <> Subscriptions.
Definition has_reservation (p : ReservationCols -> bool) (rs : reservations) : Prop :=
  exists id r, rs !! id = Some r /\ p r = true.
Definition has_global (res : CapacityResource) (gs : global_reservations) : Prop :=
  exists id r, gs !! id = Some r /\ gr_resource r = res.
Record counters_ok (su : gmap (SessionId * CapacityResource) Z) (gu : gmap CapacityResource Z)
    (rs : reservations) (gs : global_reservations) : Prop := {
  co_session : forall sid res, counter_ok (su !! (sid, res)) (reserved (of_session sid res) rs)
    (per_session (limit_of res)) (has_reservation (of_session sid res) rs);
  co_global : forall res, counter_ok (gu !! res) (reserved (of_resource res) rs + globally_reserved res gs)
    (global (limit_of res)) (has_reservation (of_resource res) rs \/ has_global res gs);
}.
(** A lease and its reservation belong together. *)
Definition lease_of (r : ReservationCols) (l : SubscriptionCols) : Prop :=
  rv_resource r = Subscriptions /\ rv_amount r = 1 /\ rv_session_id r = su_session_id l /\
  rv_campaign_id r = su_campaign_id l /\ 0 < su_owner_epoch l.
Definition leases_ok (rs : reservations) (ls : gmap RequestId SubscriptionCols) : Prop :=
  (forall id l, ls !! id = Some l -> exists r, rs !! id = Some r /\ lease_of r l) /\
  (forall id r, rs !! id = Some r -> rv_resource r = Subscriptions -> is_Some (ls !! id)).
Definition limits_ok (ls : gmap CapacityResource LimitCols) : Prop :=
  forall res, ls !! res = Some (MkLimitCols (per_session (limit_of res)) (global (limit_of res)) 1).

Record tables_ok parts su gu rs gs ls lim : Prop := {
  to_rows : rows_ok parts rs;
  to_globals : globals_ok gs;
  to_counters : counters_ok su gu rs gs;
  to_leases : leases_ok rs ls;
  to_limits : limits_ok lim;
}.
Definition session_of (d : Db) (p : ParticipantId) : option SessionId := pc_session_id <$> db_participants d !! p.
Definition cap_ok (s : Capacities) : Prop :=
  tables_ok (session_of (cy_db s)) (cy_session_usage s) (cy_global_usage s) (cy_reservations s) (cy_globals s)
    (cy_leases s) (cy_limits s).

(** ** Changes of the counters *)

Lemma of_session_resource sid res r : of_session sid res r = true -> of_resource res r = true.
Proof. unfold of_session. by intros [_ ?]%andb_prop. Qed.
Lemma of_session_refl r : of_session (rv_session_id r) (rv_resource r) r = true.
Proof. unfold of_session, eqb. by rewrite !bool_decide_eq_true_2. Qed.
Lemma of_resource_refl r : of_resource (rv_resource r) r = true.
Proof. unfold of_resource, eqb. by rewrite bool_decide_eq_true_2. Qed.
Lemma of_session_true sid res r : of_session sid res r = true <-> rv_session_id r = sid /\ rv_resource r = res.
Proof. unfold of_session, eqb. rewrite andb_true_iff, !bool_decide_eq_true. done. Qed.
Lemma of_resource_true res r : of_resource res r = true <-> rv_resource r = res.
Proof. unfold of_resource, eqb. by rewrite bool_decide_eq_true. Qed.

(** What one more unreleased row adds to a sum. *)
Definition share (p : ReservationCols -> bool) (r : ReservationCols) : Z := if p r then rv_amount r else 0.
Lemma reserved_add p rs id r : rs !! id = None -> rv_released r = 0 ->
  reserved p (<[id := r]> rs) = share p r + reserved p rs.
Proof.
  intros Hn Hr. unfold reserved, share. rewrite sum_rows_insert by done. unfold weight. rewrite Hr. cbn.
  by rewrite andb_true_r.
Qed.
Lemma reserved_release p rs id r r' : rs !! id = Some r -> rv_released r = 0 -> rv_released r' = 1 ->
  reserved p (<[id := r']> rs) = reserved p rs - share p r.
Proof.
  intros Hn Hr Hr'. unfold reserved, share. rewrite (sum_rows_replace _ _ _ _ r) by done. unfold weight. rewrite Hr, Hr'.
  cbn. rewrite andb_true_r, andb_false_r. lia.
Qed.
Lemma reserved_nonneg parts p rs : rows_ok parts rs -> 0 <= reserved p rs.
Proof. intros Hr. apply sum_rows_at_least. intros id r Hid _. apply Hr in Hid. lia. Qed.
Lemma reserved_ge parts p rs id r : rows_ok parts rs -> rs !! id = Some r -> rv_released r = 0 -> p r = true ->
  rv_amount r <= reserved p rs.
Proof.
  intros Hr Hid Hu Hp. unfold reserved. apply (sum_rows_ge _ _ rs id r); [|done|by rewrite Hp, Hu].
  intros i v Hi _. apply Hr in Hi. lia.
Qed.
Lemma globally_nonneg res gs : globals_ok gs -> 0 <= globally_reserved res gs.
Proof. intros Hg. apply sum_rows_at_least. intros id r Hid _. apply Hg in Hid. lia. Qed.
Lemma globally_ge gs id r : globals_ok gs -> gs !! id = Some r -> gr_released r = 0 ->
  gr_amount r <= globally_reserved (gr_resource r) gs.
Proof.
  intros Hg Hid Hu. unfold globally_reserved, eqb. apply (sum_rows_ge _ _ gs id r); [|done|by rewrite bool_decide_eq_true_2, Hu].
  intros i v Hi _. apply Hg in Hi. lia.
Qed.
Lemma no_global_subscriptions gs : globals_ok gs -> globally_reserved Subscriptions gs = 0.
Proof.
  intros Hg. apply sum_rows_zero. intros id r Hid. apply Hg in Hid as (_ & _ & Hne). unfold eqb. by rewrite bool_decide_eq_false_2.
Qed.
Lemma reserved_has p rs : (forall id r, rs !! id = Some r -> p r && (rv_released r =? 0) = false) -> reserved p rs = 0.
Proof. intros Hn. unfold reserved. apply sum_rows_zero. exact Hn. Qed.
Lemma reserved_some p rs : reserved p rs <> 0 -> has_reservation p rs.
Proof. intros (id & r & Hr & [Hp _]%andb_prop)%sum_rows_some. by exists id, r. Qed.
Lemma globally_some res gs : globally_reserved res gs <> 0 -> has_global res gs.
Proof.
  intros (id & r & Hr & [Hp%bool_decide_eq_true _]%andb_prop)%sum_rows_some. by exists id, r.
Qed.
Lemma has_insert p rs id r : has_reservation p rs -> (forall r0, rs !! id = Some r0 -> p r0 = true -> p r = true) ->
  has_reservation p (<[id := r]> rs).
Proof.
  intros (i & r0 & Hi & Hp) Hr. destruct (decide (i = id)) as [->|Hne].
  - exists id, r. rewrite lookup_insert_eq. eauto.
  - exists i, r0. by rewrite lookup_insert_ne.
Qed.
Lemma has_here p rs id r : p r = true -> has_reservation p (<[id := r]> rs).
Proof. intros Hp. exists id, r. by rewrite lookup_insert_eq. Qed.

Lemma share_session sid res r : share (of_session sid res) r =
  if decide ((rv_session_id r, rv_resource r) = (sid, res)) then rv_amount r else 0.
Proof.
  unfold share. case_decide as E; [injection E as E1 E2; subst; by rewrite of_session_refl|].
  destruct (of_session sid res r) eqn:Eo; [|done]. apply of_session_true in Eo as [<- <-]. done.
Qed.
Lemma share_resource res r : share (of_resource res) r = if decide (rv_resource r = res) then rv_amount r else 0.
Proof. unfold share, of_resource, eqb. case_bool_decide; by case_decide. Qed.

Lemma counters_add su gu rs gs id r : counters_ok su gu rs gs -> rs !! id = None -> rv_released r = 0 ->
  default 0 (su !! (rv_session_id r, rv_resource r)) + rv_amount r <= per_session (limit_of (rv_resource r)) ->
  default 0 (gu !! rv_resource r) + rv_amount r <= global (limit_of (rv_resource r)) ->
  counters_ok (<[(rv_session_id r, rv_resource r) := default 0 (su !! (rv_session_id r, rv_resource r)) + rv_amount r]> su)
    (<[rv_resource r := default 0 (gu !! rv_resource r) + rv_amount r]> gu) (<[id := r]> rs) gs.
Proof.
  intros [Hs Hg] Hn Hr Hls Hlg. split.
  - intros sid res. destruct (Hs sid res) as (Hv & Hl & Hrow). rewrite reserved_add, share_session by done.
    case_decide as E.
    + injection E as E1 E2; subst sid res. rewrite lookup_insert_eq. split_and!; [cbn; lia|lia|].
      intros _. apply has_here, of_session_refl.
    + rewrite lookup_insert_ne by done. split_and!; [lia|lia|]. intros Hx. apply has_insert; [auto|congruence].
  - intros res. destruct (Hg res) as (Hv & Hl & Hrow). rewrite reserved_add, share_resource by done.
    case_decide as E.
    + subst res. rewrite lookup_insert_eq. split_and!; [cbn; lia|lia|].
      intros _. left. apply has_here, of_resource_refl.
    + rewrite lookup_insert_ne by done. split_and!; [lia|lia|].
      intros Hx. destruct (Hrow Hx) as [Hh|Hh]; [left|by right]. apply has_insert; [done|congruence].
Qed.
Lemma counters_release parts su gu rs gs id r r' : counters_ok su gu rs gs -> rows_ok parts rs -> rs !! id = Some r ->
  rv_released r = 0 -> rv_released r' = 1 -> rv_session_id r' = rv_session_id r -> rv_resource r' = rv_resource r ->
  counters_ok (<[(rv_session_id r, rv_resource r) := default 0 (su !! (rv_session_id r, rv_resource r)) - rv_amount r]> su)
    (<[rv_resource r := default 0 (gu !! rv_resource r) - rv_amount r]> gu) (<[id := r']> rs) gs.
Proof.
  intros [Hs Hg] Hrows Hn Hr Hr' Es Er. pose proof (Hrows _ _ Hn) as (_ & Hpos & _). split.
  - intros sid res. destruct (Hs sid res) as (Hv & Hl & Hrow). rewrite (reserved_release _ _ _ r) by done. rewrite share_session.
    case_decide as E.
    + injection E as E1 E2; subst sid res. rewrite lookup_insert_eq. split_and!; [cbn; lia|lia|].
      intros _. apply has_here. apply of_session_true. by rewrite Es, Er.
    + rewrite lookup_insert_ne by done. split_and!; [lia|lia|]. intros Hx. apply has_insert; [auto|].
      intros r0 H0 Ho%of_session_true. apply of_session_true. rewrite Es, Er. congruence.
  - intros res. destruct (Hg res) as (Hv & Hl & Hrow). rewrite (reserved_release _ _ _ r) by done. rewrite share_resource.
    case_decide as E.
    + subst res. rewrite lookup_insert_eq. split_and!; [cbn; lia|lia|].
      intros _. left. apply has_here. apply of_resource_true. by rewrite Er.
    + rewrite lookup_insert_ne by done. split_and!; [lia|lia|].
      intros Hx. destruct (Hrow Hx) as [Hh|Hh]; [left|by right]. apply has_insert; [done|].
      intros r0 H0 Ho%of_resource_true. apply of_resource_true. congruence.
Qed.

Definition gshare (res : CapacityResource) (r : GlobalReservationCols) : Z := if decide (gr_resource r = res) then gr_amount r else 0.
Lemma globally_add res gs id r : gs !! id = None -> gr_released r = 0 ->
  globally_reserved res (<[id := r]> gs) = gshare res r + globally_reserved res gs.
Proof.
  intros Hn Hr. unfold globally_reserved, gshare, eqb. rewrite sum_rows_insert by done. unfold weight. rewrite Hr. cbn.
  rewrite andb_true_r. case_bool_decide; by case_decide.
Qed.
Lemma globally_release res gs id r r' : gs !! id = Some r -> gr_released r = 0 -> gr_released r' = 1 ->
  globally_reserved res (<[id := r']> gs) = globally_reserved res gs - gshare res r.
Proof.
  intros Hn Hr Hr'. unfold globally_reserved, gshare, eqb. rewrite (sum_rows_replace _ _ _ _ r) by done. unfold weight.
  rewrite Hr, Hr'. cbn. rewrite andb_true_r, andb_false_r. case_bool_decide; case_decide; try done; lia.
Qed.
Lemma has_global_insert res gs id r : has_global res gs ->
  (forall r0, gs !! id = Some r0 -> gr_resource r0 = res -> gr_resource r = res) -> has_global res (<[id := r]> gs).
Proof.
  intros (i & r0 & Hi & Hp) Hr. destruct (decide (i = id)) as [->|Hne].
  - exists id, r. rewrite lookup_insert_eq. eauto.
  - exists i, r0. by rewrite lookup_insert_ne.
Qed.

(** Another set of global reservations with another global counter. *)
Lemma counters_global su gu gu' rs gs gs' res : counters_ok su gu rs gs ->
  (forall res', res' <> res -> gu' !! res' = gu !! res' /\ globally_reserved res' gs' = globally_reserved res' gs /\
    (has_global res' gs -> has_global res' gs')) ->
  counter_ok (gu' !! res) (reserved (of_resource res) rs + globally_reserved res gs') (global (limit_of res))
    (has_reservation (of_resource res) rs \/ has_global res gs') -> counters_ok su gu' rs gs'.
Proof.
  intros [Hs Hg] Hne Heq. split; [done|]. intros res'. destruct (decide (res' = res)) as [->|Hn]; [done|].
  destruct (Hne res' Hn) as (-> & -> & Hh). destruct (Hg res') as (? & ? & Hrow). split_and!; [done..|]. naive_solver.
Qed.
Lemma counters_gadd su gu rs gs id r : counters_ok su gu rs gs -> gs !! id = None -> gr_released r = 0 ->
  default 0 (gu !! gr_resource r) + gr_amount r <= global (limit_of (gr_resource r)) ->
  counters_ok su (<[gr_resource r := default 0 (gu !! gr_resource r) + gr_amount r]> gu) rs (<[id := r]> gs).
Proof.
  intros Hc Hn Hr Hl. eapply (counters_global _ _ _ _ _ _ (gr_resource r)); [exact Hc|..].
  - intros res' Hne. rewrite lookup_insert_ne, globally_add by done. unfold gshare. rewrite decide_False by done. split_and!; [done|lia|].
    intros Hh. apply has_global_insert; [done|congruence].
  - destruct (co_global _ _ _ _ Hc (gr_resource r)) as (Hv & _ & _).
    rewrite lookup_insert_eq, globally_add by done. unfold gshare. rewrite decide_True by done.
    split_and!; [cbn; lia|lia|]. intros _. right. exists id, r. by rewrite lookup_insert_eq.
Qed.
Lemma counters_grelease su gu rs gs id r r' : counters_ok su gu rs gs -> globals_ok gs -> gs !! id = Some r ->
  gr_released r = 0 -> gr_released r' = 1 -> gr_resource r' = gr_resource r ->
  counters_ok su (<[gr_resource r := default 0 (gu !! gr_resource r) - gr_amount r]> gu) rs (<[id := r']> gs).
Proof.
  intros Hc Hok Hn Hr Hr' Er. pose proof (Hok _ _ Hn) as (Hpos & _). eapply (counters_global _ _ _ _ _ _ (gr_resource r)); [exact Hc|..].
  - intros res' Hne. rewrite lookup_insert_ne, (globally_release _ _ _ r) by done. unfold gshare.
    rewrite decide_False by done. split_and!; [done|lia|].
    intros Hh. apply has_global_insert; [done|congruence].
  - destruct (co_global _ _ _ _ Hc (gr_resource r)) as (Hv & Hl & _).
    rewrite lookup_insert_eq, (globally_release _ _ _ r) by done. unfold gshare. rewrite decide_True by done.
    split_and!; [cbn; lia|lia|]. intros _. right. exists id, r'. by rewrite lookup_insert_eq.
Qed.
(** A counter of zero is dropped with the released rows behind it. *)
Lemma drop_zero_eq {K} `{Countable K} (k : K) (m : gmap K Z) u : default 0 (m !! k) = u ->
  default 0 (drop_zero k m !! k) = u /\ (is_Some (drop_zero k m !! k) -> u <> 0).
Proof.
  intros <-. unfold drop_zero. case_bool_decide as E.
  - rewrite lookup_delete_eq, E. split; [done|by intros []].
  - split; [done|]. intros [v Hv]. rewrite Hv in *. cbn in *. congruence.
Qed.
Lemma drop_zero_ne {K} `{Countable K} (k k' : K) (m : gmap K Z) : k' <> k -> drop_zero k m !! k' = m !! k'.
Proof. intros Hn. unfold drop_zero. case_bool_decide; [by rewrite lookup_delete_ne|done]. Qed.
Lemma counters_gdrop su gu rs gs gs' res : counters_ok su gu rs gs -> gs' ⊆ gs ->
  (forall id r, gs !! id = Some r -> gs' !! id = None -> gr_released r = 1 /\ gr_resource r = res) ->
  counters_ok su (drop_zero res gu) rs gs'.
Proof.
  intros Hc Hsub Hr. assert (Hsum : forall res', globally_reserved res' gs' = globally_reserved res' gs).
  { intros res'. apply sum_rows_sub; [done|]. intros k v Hk Hn. destruct (Hr k v Hk Hn) as [-> _]. cbn. by rewrite andb_false_r. }
  eapply (counters_global _ _ _ _ _ _ res); [exact Hc|..].
  - intros res' Hne. rewrite drop_zero_ne by done. split_and!; [done|apply Hsum|].
    intros (id & r & Hid & Hres). exists id, r. split; [|done]. destruct (gs' !! id) as [r0|] eqn:E.
    + eapply lookup_weaken in E; [|exact Hsub]. congruence.
    + by destruct (Hr id r Hid E) as [_ ?]; subst.
  - destruct (co_global _ _ _ _ Hc res) as (Hv & Hl & _). apply drop_zero_eq in Hv as [Hv Hz]. rewrite <-(Hsum res) in *.
    split_and!; [done|done|]. intros Hx%Hz. destruct (decide (reserved (of_resource res) rs = 0)) as [E|E].
    + right. apply globally_some. lia.
    + left. by apply reserved_some.
Qed.

(** *** Subscriptions *)

(** The counters of subscriptions exist exactly while there are some. *)
Definition positive (n : Z) : option Z := if n =? 0 then None else Some n.
Lemma positive_ok n limit (rows : Prop) : n <= limit -> (n <> 0 -> rows) -> counter_ok (positive n) n limit rows.
Proof.
  intros Hl Hr. unfold positive. destruct (Z.eqb_spec n 0) as [->|Hn]; split_and!; try done; auto.
Qed.
Lemma counter_positive o n limit (rows : Prop) : counter_ok o n limit rows -> (rows -> 0 < n) -> o = positive n.
Proof.
  intros (<- & _ & Hr) Hp. unfold positive. destruct o as [v|]; cbn in *; [|done].
  specialize (Hp (Hr ltac:(eauto))). by destruct (Z.eqb_spec v 0); [lia|].
Qed.
Lemma subscribed_pos parts p rs : rows_ok parts rs -> (forall r, p r = true -> rv_resource r = Subscriptions) ->
  has_reservation p rs -> 0 < reserved p rs.
Proof.
  intros Hr Hp (id & r & Hid & Ht). destruct (Hr _ _ Hid) as (_ & Ha & _ & Hu). destruct Hu as [Hu _]; [auto|].
  pose proof (reserved_ge _ _ _ _ _ Hr Hid Hu Ht). lia.
Qed.
Lemma session_subscriptions parts su gu rs gs sid : counters_ok su gu rs gs -> rows_ok parts rs ->
  su !! (sid, Subscriptions) = positive (reserved (of_session sid Subscriptions) rs).
Proof.
  intros Hc Hr. eapply counter_positive; [apply (co_session _ _ _ _ Hc)|]. intros Hh. eapply subscribed_pos; [done| |done].
  by intros r [_ ?]%of_session_true.
Qed.
Lemma all_subscriptions parts su gu rs gs : counters_ok su gu rs gs -> rows_ok parts rs -> globals_ok gs ->
  gu !! Subscriptions = positive (reserved (of_resource Subscriptions) rs).
Proof.
  intros Hc Hr Hg. pose proof (co_global _ _ _ _ Hc Subscriptions) as H. rewrite no_global_subscriptions, Z.add_0_r in H by done.
  eapply counter_positive; [exact H|]. intros [Hh|(id & r & Hid & Hs)].
  - eapply subscribed_pos; [done| |done]. by intros r ?%of_resource_true.
  - by apply Hg in Hid as (_ & _ & ?).
Qed.
Lemma reserved_kept rs rs' p : rs' ⊆ rs ->
  (forall id r, rs !! id = Some r -> rs' !! id = None -> rv_resource r = Subscriptions) ->
  (forall r, p r = true -> rv_resource r <> Subscriptions) -> reserved p rs' = reserved p rs.
Proof.
  intros Hs Hd Hp. apply sum_rows_sub; [done|]. intros k v Hk Hn. specialize (Hd k v Hk Hn). destruct (p v) eqn:E; [|done]. by apply Hp in E.
Qed.
Lemma has_kept rs rs' p : rs' ⊆ rs ->
  (forall id r, rs !! id = Some r -> rs' !! id = None -> rv_resource r = Subscriptions) ->
  (forall r, p r = true -> rv_resource r <> Subscriptions) -> has_reservation p rs -> has_reservation p rs'.
Proof.
  intros Hs Hd Hp (id & r & Hid & Ht). exists id, r. split; [|done]. destruct (rs' !! id) as [r'|] eqn:E.
  - eapply lookup_weaken in E; [|exact Hs]. congruence.
  - by destruct (Hp r Ht (Hd _ _ Hid E)).
Qed.
Lemma counters_unsubscribed parts su su' gu gu' rs rs' gs : counters_ok su gu rs gs -> rows_ok parts rs -> globals_ok gs ->
  rs' ⊆ rs -> (forall id r, rs !! id = Some r -> rs' !! id = None -> rv_resource r = Subscriptions) ->
  (forall sid res, res <> Subscriptions -> su' !! (sid, res) = su !! (sid, res)) ->
  (forall sid, su' !! (sid, Subscriptions) = positive (reserved (of_session sid Subscriptions) rs')) ->
  (forall res, res <> Subscriptions -> gu' !! res = gu !! res) ->
  gu' !! Subscriptions = positive (reserved (of_resource Subscriptions) rs') -> counters_ok su' gu' rs' gs.
Proof.
  intros [Hs Hg] Hrows Hgs Hsub Hdel Hsu Hsu' Hgu Hgu'.
  assert (Hle : forall p, reserved p rs' <= reserved p rs).
  { intros p. apply sum_rows_sub_le; [done|]. intros k v Hk _. apply Hrows in Hk. lia. }
  split.
  - intros sid res. destruct (Hs sid res) as (Hv & Hl & Hrow). destruct (decide (res = Subscriptions)) as [->|Hne].
    + rewrite Hsu'. apply positive_ok; [specialize (Hle (of_session sid Subscriptions)); lia|]. apply reserved_some.
    + rewrite Hsu by done. assert (Hp : forall r, of_session sid res r = true -> rv_resource r <> Subscriptions)
        by (intros r [_ ->]%of_session_true; done).
      rewrite (reserved_kept rs) by done. split_and!; [done..|]. intros Hx. eapply has_kept; eauto.
  - intros res. destruct (Hg res) as (Hv & Hl & Hrow). destruct (decide (res = Subscriptions)) as [->|Hne].
    + rewrite Hgu', no_global_subscriptions, Z.add_0_r by done. rewrite no_global_subscriptions in Hl by done.
      apply positive_ok; [specialize (Hle (of_resource Subscriptions)); lia|]. intros Hn. left. by apply reserved_some.
    + rewrite Hgu by done. assert (Hp : forall r, of_resource res r = true -> rv_resource r <> Subscriptions)
        by (intros r ->%of_resource_true; done).
      rewrite (reserved_kept rs) by done. split_and!; [done..|]. intros Hx. destruct (Hrow Hx); [left; eapply has_kept; eauto|by right].
Qed.

Lemma drop_zero_positive {K} `{Countable K} (k : K) (m : gmap K Z) n : drop_zero k (<[k := n]> m) !! k = positive n.
Proof.
  unfold drop_zero, positive. rewrite lookup_insert_eq. destruct (Z.eqb_spec n 0) as [->|Hn].
  - rewrite bool_decide_eq_true_2 by done. apply lookup_delete_eq.
  - rewrite bool_decide_eq_false_2 by congruence. apply lookup_insert_eq.
Qed.
Lemma reserved_delete p rs id r : rs !! id = Some r -> rv_released r = 0 -> reserved p (delete id rs) = reserved p rs - share p r.
Proof.
  intros Hid Hr. unfold reserved. rewrite (sum_rows_delete _ _ _ _ r) by done. unfold weight, share. rewrite Hr. cbn. by rewrite andb_true_r.
Qed.
Lemma rows_kept parts rs rs' : rows_ok parts rs -> rs' ⊆ rs -> rows_ok parts rs'.
Proof. intros Hr Hs id r Hid. apply (Hr id). by eapply lookup_weaken. Qed.
Lemma leases_cascade rs rs' ls : leases_ok rs ls -> rs' ⊆ rs -> leases_ok rs' (filter (fun e => is_Some (rs' !! e.1)) ls).
Proof.
  intros [Hl Hr] Hs. split.
  - intros id l [Hid [r Hr']]%map_lookup_filter_Some. cbn in Hr'. destruct (Hl _ _ Hid) as (r0 & H0 & Hof).
    exists r. split; [done|]. eapply lookup_weaken in Hr'; [|exact Hs]. congruence.
  - intros id r Hid Hsub. eapply lookup_weaken in Hid as H0; [|exact Hs]. destruct (Hr _ _ H0 Hsub) as [l Hl'].
    exists l. apply map_lookup_filter_Some. split; [done|]. cbn. eauto.
Qed.
Lemma tables_unsubscribed parts su su' gu gu' rs rs' gs ls lim : tables_ok parts su gu rs gs ls lim ->
  rs' ⊆ rs -> (forall id r, rs !! id = Some r -> rs' !! id = None -> rv_resource r = Subscriptions) ->
  (forall sid res, res <> Subscriptions -> su' !! (sid, res) = su !! (sid, res)) ->
  (forall sid, su' !! (sid, Subscriptions) = positive (reserved (of_session sid Subscriptions) rs')) ->
  (forall res, res <> Subscriptions -> gu' !! res = gu !! res) ->
  gu' !! Subscriptions = positive (reserved (of_resource Subscriptions) rs') ->
  tables_ok parts su' gu' rs' gs (filter (fun e => is_Some (rs' !! e.1)) ls) lim.
Proof.
  intros [Hr Hg Hc Hl Hm] Hs Hd Hsu Hsu' Hgu Hgu'. split; [by eapply rows_kept|done| |by eapply leases_cascade|done].
  by eapply (counters_unsubscribed parts su su' gu gu').
Qed.
Lemma rows_insert parts rs id r : rows_ok parts rs -> parts (rv_campaign_id r) = Some (rv_session_id r) -> 0 < rv_amount r ->
  (is_unreleased r \/ is_released r) -> (rv_resource r = Subscriptions -> is_unreleased r) -> rows_ok parts (<[id := r]> rs).
Proof.
  intros Hr ? ? ? ? i r' Hi. destruct (decide (i = id)) as [->|Hne].
  - rewrite lookup_insert_eq in Hi. injection Hi as <-. done.
  - rewrite lookup_insert_ne in Hi by done. by apply (Hr i).
Qed.
Lemma globals_insert gs id r : globals_ok gs -> 0 < gr_amount r -> greleased r -> gr_resource r <> Subscriptions ->
  globals_ok (<[id := r]> gs).
Proof.
  intros Hg ? ? ? i r' Hi. destruct (decide (i = id)) as [->|Hne].
  - rewrite lookup_insert_eq in Hi. injection Hi as <-. done.
  - rewrite lookup_insert_ne in Hi by done. by apply (Hg i).
Qed.
(** A row that is not of subscriptions does not concern the leases. *)
Lemma leases_insert_other rs ls id r : leases_ok rs ls -> rv_resource r <> Subscriptions ->
  (forall r0, rs !! id = Some r0 -> rv_resource r0 <> Subscriptions) -> leases_ok (<[id := r]> rs) ls.
Proof.
  intros [Hl Hr] Hn H0. split.
  - intros i l Hi. destruct (Hl _ _ Hi) as (r1 & H1 & Hof). exists r1. split; [|done].
    rewrite lookup_insert_ne; [done|]. intros ->. apply H0 in H1. by destruct Hof.
  - intros i r1 Hi Hs. destruct (decide (i = id)) as [->|Hne].
    + rewrite lookup_insert_eq in Hi. congruence.
    + rewrite lookup_insert_ne in Hi by done. by eapply Hr.
Qed.
Lemma leases_insert rs ls id r l : leases_ok rs ls -> lease_of r l -> leases_ok (<[id := r]> rs) (<[id := l]> ls).
Proof.
  intros [Hl Hr] Hof. split.
  - intros i l' Hi. destruct (decide (i = id)) as [->|Hne].
    + rewrite lookup_insert_eq in Hi. rewrite lookup_insert_eq. injection Hi as <-. eauto.
    + rewrite lookup_insert_ne in Hi by done. rewrite lookup_insert_ne by done. eauto.
  - intros i r' Hi Hs. destruct (decide (i = id)) as [->|Hne].
    + rewrite lookup_insert_eq. eauto.
    + rewrite lookup_insert_ne in Hi by done. rewrite lookup_insert_ne by done. eauto.
Qed.
End invariant.
