(* ===== verification/CapacityCalls.v ===== *)
(** * CapacityCalls: the contract of each capacity transaction

    Each handler of SqliteCapacity.v keeps the invariant of CapacityLedger.v, touches
    only the tables of capacity, keeps every live subscription lease but the one it
    releases, and never answers that its rows are corrupt ([cwp], a weakest
    precondition in which that answer is excluded). *)
From S2P Require Import Prelude Scalars Session Capacity Approval StoreApi StoreWire Json Template SqliteDb SqliteMailbox Tables SqliteCapacity CapacityLedger.

(** ** Transactions that do not find their rows corrupt *)

Definition cwp {A} (m : CTx A) (Q : A -> Capacities -> Prop) (s : Capacities) : Prop :=
  match m s with Ok (a, s') => Q a s' | Err e => e <> Corrupt end.

Section wp.
Context {A B : Type}.
Implicit Types (m : CTx A) (s : Capacities).
Lemma cwp_bind (m : CTx B) (f : B -> CTx A) Q s : cwp m (fun b s' => cwp (f b) Q s') s -> cwp (m ≫= f) Q s.
Proof. unfold cwp, mbind, ctx_bind. by destruct (m s) as [[b s']|e]. Qed.
Lemma cwp_mono m (Q Q' : A -> Capacities -> Prop) s : cwp m Q s -> (forall a s', Q a s' -> Q' a s') -> cwp m Q' s.
Proof. unfold cwp. destruct (m s) as [[a s']|e]; auto. Qed.
Lemma cwp_ret (a : A) (Q : A -> Capacities -> Prop) s : Q a s -> cwp (mret a) Q s.
Proof. done. Qed.
Lemma cwp_fail e (Q : A -> Capacities -> Prop) s : e <> Corrupt -> cwp (cfail e) Q s.
Proof. done. Qed.
Lemma cwp_lift (r : result StoreError A) (Q : A -> Capacities -> Prop) s :
  (forall a, r = Ok a -> Q a s) -> (forall e, r = Err e -> e <> Corrupt) -> cwp (clift r) Q s.
Proof. unfold cwp, clift. destruct r; eauto. Qed.
End wp.
Lemma cwp_get (Q : Capacities -> Capacities -> Prop) s : Q s s -> cwp cget Q s.
Proof. done. Qed.
Lemma cwp_put s' (Q : unit -> Capacities -> Prop) s : Q tt s' -> cwp (cput s') Q s.
Proof. done. Qed.

Lemma u64_ok v (Q : Z -> Capacities -> Prop) s : 0 <= v -> Q v s -> cwp (clift (to_u64 v)) Q s.
Proof. intros Hv HQ. apply cwp_lift; unfold to_u64; destruct (Z.leb_spec 0 v); try lia; [by intros ? [= <-]|done]. Qed.
Lemma i64_ok e v (Q : Z -> Capacities -> Prop) s : v <= i64_max \/ e <> Corrupt -> (v <= i64_max -> Q v s) ->
  cwp (clift (i64_or e v)) Q s.
Proof.
  intros Hv HQ. apply cwp_lift; unfold i64_or; destruct (Z.leb_spec v i64_max); try done.
  - intros ? [= <-]. auto.
  - intros ? [= <-]. destruct Hv; [lia|done].
Qed.
Lemma found_ok {B} e (o : option B) (Q : B -> Capacities -> Prop) s : e <> Corrupt -> (forall b, o = Some b -> Q b s) ->
  cwp (clift (ok_or e o)) Q s.
Proof. intros He HQ. apply cwp_lift; destruct o; try done; [intros ? [= <-]; auto|by intros ? [= <-]]. Qed.
Lemma add_ok e a b (Q : Z -> Capacities -> Prop) s : e <> Corrupt -> Q (a + b) s -> cwp (clift (add_or e a b)) Q s.
Proof.
  intros He HQ. unfold add_or. apply found_ok; [done|]. intros v. unfold checked_add_u64. case_match; [by intros [= <-]|done].
Qed.

(** *** Statements *)

Lemma cwp_insert_reservation id r (Q : unit -> Capacities -> Prop) s :
  (cy_reservations s !! id = None -> 0 < rv_amount r -> Q tt (with_reservations s (<[id := r]> (cy_reservations s)))) ->
  cwp (insert_reservation id r) Q s.
Proof.
  intros HQ. apply cwp_bind, cwp_get. case_match eqn:E; [by apply cwp_fail|].
  rewrite !orb_false_iff in E. destruct E as [[[Hn Ha] _] _]. apply cwp_put, HQ; [|lia]. by destruct (cy_reservations s !! id).
Qed.
Lemma cwp_insert_global id r (Q : unit -> Capacities -> Prop) s :
  (cy_globals s !! id = None -> 0 < gr_amount r -> Q tt (with_globals s (<[id := r]> (cy_globals s)))) ->
  cwp (insert_global_reservation id r) Q s.
Proof.
  intros HQ. apply cwp_bind, cwp_get. case_match eqn:E; [by apply cwp_fail|].
  rewrite !orb_false_iff in E. destruct E as [Hn Ha]. apply cwp_put, HQ; [|lia]. by destruct (cy_globals s !! id).
Qed.
Lemma cwp_insert_lease id l (Q : unit -> Capacities -> Prop) s :
  (cy_leases s !! id = None -> 0 < su_owner_epoch l -> Q tt (with_leases s (<[id := l]> (cy_leases s)))) ->
  cwp (insert_lease id l) Q s.
Proof.
  intros HQ. apply cwp_bind, cwp_get. case_match eqn:E; [by apply cwp_fail|].
  rewrite !orb_false_iff in E. destruct E as [[[[Hn Ha] _] _] _]. apply cwp_put, HQ; [|lia]. by destruct (cy_leases s !! id).
Qed.
Lemma cwp_write_session sid res used (Q : unit -> Capacities -> Prop) s :
  Q tt (with_session_usage s (<[(sid, res) := used]> (cy_session_usage s))) -> cwp (write_session_used sid res used) Q s.
Proof. intros HQ. apply cwp_bind, cwp_get. case_match; [by apply cwp_fail|by apply cwp_put]. Qed.
Lemma cwp_write_global res used (Q : unit -> Capacities -> Prop) s :
  Q tt (with_global_usage s (<[res := used]> (cy_global_usage s))) -> cwp (write_global_used res used) Q s.
Proof. intros HQ. apply cwp_bind, cwp_get. case_match; [by apply cwp_fail|by apply cwp_put]. Qed.
Lemma cwp_take_session sid res amount (Q : bool -> Capacities -> Prop) s : 0 < amount <= session_used s sid res ->
  Q true (with_session_usage s (<[(sid, res) := session_used s sid res - amount]> (cy_session_usage s))) ->
  cwp (take_session_used sid res amount) Q s.
Proof.
  unfold session_used. intros Ha HQ. apply cwp_bind, cwp_get.
  destruct (cy_session_usage s !! (sid, res)) as [u|]; cbn in *; [|lia]. by rewrite (proj2 (Z.leb_le amount u)) by lia.
Qed.
Lemma cwp_take_global res amount (Q : bool -> Capacities -> Prop) s : 0 < amount <= global_used s res ->
  Q true (with_global_usage s (<[res := global_used s res - amount]> (cy_global_usage s))) ->
  cwp (take_global_used res amount) Q s.
Proof.
  unfold global_used. intros Ha HQ. apply cwp_bind, cwp_get.
  destruct (cy_global_usage s !! res) as [u|]; cbn in *; [|lia]. by rewrite (proj2 (Z.leb_le amount u)) by lia.
Qed.
Definition released_row (r : ReservationCols) (now : Timestamp) : ReservationCols :=
  MkReservationCols (rv_session_id r) (rv_campaign_id r) (rv_resource r) (rv_amount r) 1 (rv_created_at r) (Some now).
Lemma cwp_mark id now r (Q : bool -> Capacities -> Prop) s : cy_reservations s !! id = Some r -> rv_released r = 0 ->
  Q true (with_reservations s (<[id := released_row r now]> (cy_reservations s))) -> cwp (mark_released id now) Q s.
Proof. intros Hid Hr HQ. apply cwp_bind, cwp_get. by rewrite Hid, Hr. Qed.
Definition released_global (r : GlobalReservationCols) (now : Timestamp) : GlobalReservationCols :=
  MkGlobalReservationCols (gr_resource r) (gr_amount r) 1 (gr_created_at r) (Some now).
Lemma cwp_mark_global id now r (Q : bool -> Capacities -> Prop) s : cy_globals s !! id = Some r -> gr_released r = 0 ->
  Q true (with_globals s (<[id := released_global r now]> (cy_globals s))) -> cwp (mark_global_released id now) Q s.
Proof. intros Hid Hr HQ. apply cwp_bind, cwp_get. by rewrite Hid, Hr. Qed.

(** Equality tests of the code. *)
Lemma eqb_spec {A} `{EqDecision A} (x y : A) : reflect (x = y) (eqb x y).
Proof. apply bool_decide_reflect. Qed.
Tactic Notation "case_eqb" "as" ident(H) :=
  match goal with |- context [if eqb ?x ?y then _ else _] => destruct (eqb_spec x y) as [H|H] end.

(** ** Contracts *)

(** Everything but the tables of capacity. *)
Definition other_tables (d : Db) : Db := set_usage (set_event_limits d None) ∅ ∅.
Definition cap_frame (s s' : Capacities) : Prop := other_tables (cy_db s') = other_tables (cy_db s).
Lemma frame_participants s s' : cap_frame s s' -> db_participants (cy_db s') = db_participants (cy_db s).
Proof. intros H. exact (f_equal db_participants H). Qed.
Lemma frame_sessions s s' : cap_frame s s' -> db_sessions (cy_db s') = db_sessions (cy_db s).
Proof. intros H. exact (f_equal db_sessions H). Qed.

(** A lease of the same holder that lasts as long at least. *)
Definition same_holder (l l' : SubscriptionCols) : Prop :=
  su_session_id l' = su_session_id l /\ su_campaign_id l' = su_campaign_id l /\
  su_owner_host_id l' = su_owner_host_id l /\ su_owner_epoch l' = su_owner_epoch l /\
  Timestamp_le (su_expires_at l) (su_expires_at l').
#[export] Instance same_holder_preorder : PreOrder same_holder.
Proof.
  split; [intros l; split_and!; by try right|]. intros l1 l2 l3 (? & ? & ? & ? & ?) (? & ? & ? & ? & ?).
  split_and!; try congruence. by eapply Timestamp_le_trans.
Qed.
Definition leases_kept (gone : RequestId -> Prop) (s s' : Capacities) : Prop :=
  forall id l, cy_leases s !! id = Some l -> lease_abandoned s l = false -> ~ gone id ->
    exists l', cy_leases s' !! id = Some l' /\ same_holder l l'.
Lemma same_leases_kept gone s s' : cy_leases s' = cy_leases s -> leases_kept gone s s'.
Proof. intros E id l Hl _ _. rewrite E. by exists l. Qed.

Lemma abandoned_mono row l l' : same_holder l l' -> abandoned row l = false -> abandoned row l' = false.
Proof.
  intros (_ & _ & Eh & Ee & Ht). unfold abandoned. rewrite Eh, Ee. destruct (sc_owner_host_id row); [|done].
  rewrite !orb_false_iff. intros [? Hf]. split; [done|].
  unfold Timestamp_leb in *. rewrite negb_false_iff in *. apply Timestamp_ltb_lt in Hf. apply Timestamp_ltb_lt.
  by eapply Timestamp_lt_le_trans.
Qed.
Lemma lease_abandoned_mono s s' l l' : cap_frame s s' -> same_holder l l' -> lease_abandoned s l = false ->
  lease_abandoned s' l' = false.
Proof.
  intros Hf Hh. unfold lease_abandoned. rewrite (frame_sessions _ _ Hf). destruct Hh as [E Hh]. rewrite E.
  destruct (db_sessions (cy_db s) !! su_session_id l); [|done]. by apply abandoned_mono.
Qed.

Section contracts.
Context (profile : LimitProfile).
Context (Hprofile : forall res, exists l, LimitProfile_get profile res = Some l /\ within res l).
Abbreviation cap_ok := (cap_ok profile).
(** What a session already uses of a resource without reserving it. *)
Context (derived : SessionId -> CapacityResource -> Z).

Lemma profile_get res : LimitProfile_get profile res = Some (limit_of profile res) /\ within res (limit_of profile res).
Proof. unfold limit_of. destruct (Hprofile res) as (l & -> & Hl). done. Qed.
Lemma limit_small res : per_session (limit_of profile res) <= i64_max /\ global (limit_of profile res) <= i64_max.
Proof.
  destruct (profile_get res) as [_ [[_ H1] [_ H2]]].
  assert (per_session (hard_ceiling res) <= i64_max /\ global (hard_ceiling res) <= i64_max)
    by (destruct res; split; vm_compute; discriminate). lia.
Qed.

Record contract (gone : RequestId -> Prop) (s s' : Capacities) : Prop := {
  ct_ok : cap_ok s';
  ct_frame : cap_frame s s';
  ct_leases : leases_kept gone s s';
  (** A session gets more only while it has room for it. *)
  ct_used : forall sid res, res <> Subscriptions ->
    session_used s' sid res <= Z.max (session_used s sid res) (per_session (limit_of profile res) - derived sid res);
}.
Lemma contract_trans gone s1 s2 s3 : contract gone s1 s2 -> contract gone s2 s3 -> contract gone s1 s3.
Proof.
  intros [_ F1 L1 U1] [O2 F2 L2 U2]. split; [done|by etrans| |intros sid res Hr; specialize (U1 sid res Hr); specialize (U2 sid res Hr); lia].
  intros id l Hl Ha Hg.
  destruct (L1 id l Hl Ha Hg) as (l2 & H2 & Hh2).
  destruct (L2 id l2 H2) as (l3 & H3 & Hh3); [by eapply lease_abandoned_mono|done|]. exists l3. split; [done|by etrans].
Qed.
Lemma contract_weaken (gone gone' : RequestId -> Prop) s s' : contract gone s s' -> (forall id, gone id -> gone' id) -> contract gone' s s'.
Proof. intros [O F L U] Hg. split; [done..| |done]. intros id l Hl Ha Hn. apply (L id l Hl Ha). auto. Qed.
Lemma contract_refl gone s : cap_ok s -> contract gone s s.
Proof. intros Hs. split; [done|done|by apply same_leases_kept|]. intros sid res _. lia. Qed.

(** Two reservations of a row's counters: what may be taken is there. *)
Lemma taken_session s id r : cap_ok s -> cy_reservations s !! id = Some r -> rv_released r = 0 ->
  0 < rv_amount r <= session_used s (rv_session_id r) (rv_resource r).
Proof.
  intros Hs Hid Hr. destruct (to_rows _ _ _ _ _ _ _ _ Hs _ _ Hid) as (_ & Hp & _). split; [done|].
  destruct (co_session _ _ _ _ _ (to_counters _ _ _ _ _ _ _ _ Hs) (rv_session_id r) (rv_resource r)) as (Hv & _).
  unfold session_used. rewrite Hv. eapply reserved_ge; [apply (to_rows _ _ _ _ _ _ _ _ Hs)|done..|apply of_session_refl].
Qed.
Lemma taken_global s id r : cap_ok s -> cy_reservations s !! id = Some r -> rv_released r = 0 ->
  0 < rv_amount r <= global_used s (rv_resource r).
Proof.
  intros Hs Hid Hr. destruct (to_rows _ _ _ _ _ _ _ _ Hs _ _ Hid) as (_ & Hp & _). split; [done|].
  destruct (co_global _ _ _ _ _ (to_counters _ _ _ _ _ _ _ _ Hs) (rv_resource r)) as (Hv & _).
  unfold global_used. rewrite Hv. pose proof (globally_nonneg (rv_resource r) _ (to_globals _ _ _ _ _ _ _ _ Hs)).
  enough (rv_amount r <= reserved (of_resource (rv_resource r)) (cy_reservations s)) by lia.
  eapply reserved_ge; [apply (to_rows _ _ _ _ _ _ _ _ Hs)|done..|apply of_resource_refl].
Qed.
Lemma amount_small s id r : cap_ok s -> cy_reservations s !! id = Some r -> rv_released r = 0 -> rv_amount r <= i64_max.
Proof.
  intros Hs Hid Hr. pose proof (taken_session _ _ _ Hs Hid Hr).
  destruct (co_session _ _ _ _ _ (to_counters _ _ _ _ _ _ _ _ Hs) (rv_session_id r) (rv_resource r)) as (Hv & Hl & _).
  unfold session_used in *. pose proof (limit_small (rv_resource r)). lia.
Qed.

(** A counter that does not grow. *)
Lemma used_insert_le sid res k v s s' : v <= default 0 (cy_session_usage s !! k) ->
  cy_session_usage s' = <[k := v]> (cy_session_usage s) ->
  session_used s' sid res <= Z.max (session_used s sid res) (per_session (limit_of profile res) - derived sid res).
Proof.
  intros Hv E. unfold session_used. rewrite E. destruct (decide ((sid, res) = k)) as [<-|Hne].
  - rewrite lookup_insert_eq. cbn. lia.
  - rewrite lookup_insert_ne by done. lia.
Qed.
Lemma used_same s s' : (forall sid res, res <> Subscriptions -> cy_session_usage s' !! (sid, res) = cy_session_usage s !! (sid, res)) ->
  forall sid res, res <> Subscriptions ->
    session_used s' sid res <= Z.max (session_used s sid res) (per_session (limit_of profile res) - derived sid res).
Proof. intros E sid res Hr. unfold session_used. rewrite E by done. lia. Qed.

(** The common part of a release and of a publication: the row is marked and its amount
    is taken from both counters. *)
Definition released_tables (s : Capacities) (id : RequestId) (r : ReservationCols) (now : Timestamp) : Capacities :=
  let s := with_reservations s (<[id := released_row r now]> (cy_reservations s)) in
  let s := with_session_usage s (<[(rv_session_id r, rv_resource r) :=
    session_used s (rv_session_id r) (rv_resource r) - rv_amount r]> (cy_session_usage s)) in
  with_global_usage s (<[rv_resource r := global_used s (rv_resource r) - rv_amount r]> (cy_global_usage s)).
Lemma released_ok s id r now : cap_ok s -> cy_reservations s !! id = Some r -> rv_released r = 0 ->
  rv_resource r <> Subscriptions -> contract (fun _ => False) s (released_tables s id r now).
Proof.
  intros [Hr Hg Hc Hl Hm] Hid Hu Hne. destruct (Hr _ _ Hid) as (Hp & Ha & _). split; [|done|by apply same_leases_kept|].
  2: { intros sid res _. apply (used_insert_le _ _ (rv_session_id r, rv_resource r) (session_used s (rv_session_id r) (rv_resource r) - rv_amount r)); [|done].
       unfold session_used. lia. }
  split; cbn.
  - apply rows_insert; cbn; try done. right. split; cbn; eauto.
  - done.
  - by eapply (counters_release _ _ _ _ _ _ _ r).
  - apply leases_insert_other; cbn; [done|done|congruence].
  - done.
Qed.

(** *** Subscriptions end *)

(** Every subscription row has its amount of one. *)
Lemma subscription_row s id r : cap_ok s -> cy_reservations s !! id = Some r -> rv_resource r = Subscriptions ->
  rv_released r = 0 /\ rv_amount r = 1.
Proof.
  intros [Hr _ _ [Hl Hx] _] Hid Hs. destruct (Hr _ _ Hid) as (_ & _ & _ & Hu). destruct (Hu Hs) as [? _]. split; [done|].
  destruct (Hx _ _ Hid Hs) as [l Hid']. destruct (Hl _ _ Hid') as (r' & Hr' & _ & Ha & _). congruence.
Qed.
Lemma filter_marked id r now (rs : gmap RequestId ReservationCols) : rs !! id = Some r ->
  filter (fun e => eqb e.1 id && (rv_released e.2 =? 1) = false) (<[id := released_row r now]> rs) = delete id rs.
Proof.
  intros Hid. apply map_eq. intros i. apply option_eq. intros x. rewrite map_lookup_filter_Some. unfold eqb. cbn.
  destruct (decide (i = id)) as [->|Hne].
  - rewrite lookup_delete_eq, lookup_insert_eq, bool_decide_eq_true_2 by done. cbn. split; [|done]. intros [[= <-] ?]. done.
  - rewrite lookup_delete_ne, lookup_insert_ne, bool_decide_eq_false_2 by done. cbn. naive_solver.
Qed.
Definition unsubscribed (s : Capacities) (id : RequestId) (r : ReservationCols) : Capacities :=
  let rows := delete id (cy_reservations s) in
  let k := (rv_session_id r, Subscriptions) in
  MkCapacities
    (set_usage (cy_db s) (drop_zero k (<[k := session_used s (rv_session_id r) Subscriptions - 1]> (cy_session_usage s)))
      (drop_zero Subscriptions (<[Subscriptions := global_used s Subscriptions - 1]> (cy_global_usage s))))
    rows (cy_globals s) (filter (fun e => is_Some (rows !! e.1)) (cy_leases s)) (cy_limits s).
Lemma unsubscribed_ok s id r : cap_ok s -> cy_reservations s !! id = Some r -> rv_resource r = Subscriptions ->
  contract (eq id) s (unsubscribed s id r).
Proof.
  intros Hs Hid Hr. pose proof Hs as [Hrows Hg Hc Hl Hm]. destruct (subscription_row _ _ _ Hs Hid Hr) as [Hu Ha].
  split; [|done| |apply used_same; intros sid res Hne; cbn; by rewrite drop_zero_ne, lookup_insert_ne by congruence].
  - unfold CapacityLedger.cap_ok. cbn. eapply tables_unsubscribed; [exact Hs|apply delete_subseteq|..].
    + intros i r' Hi Hn. destruct (decide (i = id)) as [->|Hne]; [congruence|]. rewrite lookup_delete_ne in Hn; congruence.
    + intros sid res Hne. rewrite drop_zero_ne, lookup_insert_ne by congruence. done.
    + intros sid. rewrite (reserved_delete _ _ _ r), share_session by done.
      destruct (decide (sid = rv_session_id r)) as [->|Hne].
      * rewrite drop_zero_positive, decide_True by congruence. unfold session_used.
        destruct (co_session _ _ _ _ _ Hc (rv_session_id r) Subscriptions) as (Hv & _). by rewrite Hv, Ha.
      * rewrite drop_zero_ne, lookup_insert_ne, decide_False by congruence. rewrite Z.sub_0_r.
        by eapply session_subscriptions.
    + intros res Hne. rewrite drop_zero_ne, lookup_insert_ne by congruence. done.
    + rewrite drop_zero_positive, (reserved_delete _ _ _ r), share_resource, decide_True by done.
      destruct (co_global _ _ _ _ _ Hc Subscriptions) as (Hv & _). rewrite no_global_subscriptions, Z.add_0_r in Hv by done.
      unfold global_used. by rewrite Hv, Ha.
  - intros i l Hi _ Hne. exists l. split; [|done]. cbn. apply map_lookup_filter_Some. split; [done|]. cbn.
    rewrite lookup_delete_ne by done. destruct (proj1 Hl _ _ Hi) as (r' & -> & _). eauto.
Qed.

Lemma release_contract now id s : cap_ok s -> cwp (release_capacity now id) (fun _ => contract (eq id) s) s.
Proof.
  intros Hs. apply cwp_bind, cwp_get, cwp_bind, found_ok; [done|]. intros r Hid.
  destruct (to_rows _ _ _ _ _ _ _ _ Hs _ _ Hid) as (_ & Hp & Hst & Hsub).
  apply cwp_bind, u64_ok; [lia|]. apply cwp_bind. destruct (Z.eqb_spec (rv_released r) 0) as [Hu|Hu].
  - apply cwp_bind. eapply cwp_mark; [done..|]. apply cwp_bind, i64_ok; [left; by eapply amount_small|]. intros _.
    apply cwp_bind, cwp_take_session; [exact (taken_session _ _ _ Hs Hid Hu)|].
    apply cwp_bind, cwp_take_global; [exact (taken_global _ _ _ Hs Hid Hu)|]. apply cwp_ret, cwp_bind.
    case_eqb as Hr; [|apply cwp_ret, cwp_ret; by eapply contract_weaken; [apply released_ok|]].
    pose proof (unsubscribed_ok _ _ _ Hs Hid Hr) as Hc. destruct (subscription_row _ _ _ Hs Hid Hr) as [_ Ha].
    apply cwp_bind. unfold delete_reservations. apply cwp_bind, cwp_get, cwp_put. cbn [cy_reservations with_global_usage with_session_usage with_db with_reservations].
    apply cwp_bind, cwp_bind, cwp_get, cwp_put, cwp_bind, cwp_get, cwp_put, cwp_ret. rewrite filter_marked by done.
    rewrite Hr, Ha. exact Hc.
  - apply cwp_ret, cwp_bind. case_eqb as Hr; [by destruct (Hsub Hr)|]. apply cwp_ret, cwp_ret. by apply contract_refl.
Qed.

(** *** Reservations *)

Lemma consume_contract id sid campaign res amount now s : cap_ok s -> res <> Subscriptions ->
  cwp (consume_capacity_reservation id sid campaign res amount now) (fun _ => contract (fun _ => False) s) s.
Proof.
  intros Hs Hne. apply cwp_bind, cwp_get, cwp_bind, found_ok; [done|]. intros r Hid.
  destruct (to_rows _ _ _ _ _ _ _ _ Hs _ _ Hid) as (_ & Hp & _). unfold neqb.
  case_match eqn:E; [by apply cwp_fail|]. rewrite !orb_false_iff, !negb_false_iff in E. destruct E as [[E1 E2] E3].
  apply bool_decide_eq_true in E1, E2, E3. subst sid campaign res. apply cwp_bind, u64_ok; [lia|].
  case_match eqn:E; [by apply cwp_fail|]. rewrite orb_false_iff, !negb_false_iff in E. destruct E as [E1%Z.eqb_eq Hu%Z.eqb_eq]. subst amount.
  apply cwp_bind, i64_ok; [left; by eapply amount_small|]. intros _. apply cwp_bind. eapply cwp_mark; [done..|].
  apply cwp_bind, cwp_take_session; [exact (taken_session _ _ _ Hs Hid Hu)|].
  apply cwp_bind, cwp_take_global; [exact (taken_global _ _ _ Hs Hid Hu)|]. apply cwp_ret. by apply released_ok.
Qed.

Lemma counters_used s : cap_ok s -> (forall sid res, 0 <= session_used s sid res <= per_session (limit_of profile res)) /\
  (forall res, 0 <= global_used s res <= global (limit_of profile res)).
Proof.
  intros [Hr Hg [Hs Hgl] _ _]. split.
  - intros sid res. destruct (Hs sid res) as (Hv & Hl & _). unfold session_used. rewrite Hv. split; [by eapply reserved_nonneg|done].
  - intros res. destruct (Hgl res) as (Hv & Hl & _). unfold global_used. rewrite Hv. split; [|done].
    pose proof (reserved_nonneg _ (of_resource res) _ Hr). pose proof (globally_nonneg res _ Hg). lia.
Qed.
Lemma campaign_session s sid campaign : campaign_of s sid campaign = true -> session_of (cy_db s) campaign = Some sid.
Proof.
  unfold campaign_of, session_of. destruct (db_participants _ !! _) as [p|]; [|done]. intros <-%bool_decide_eq_true. done.
Qed.

(** Amounts of a request are [u64] values. *)
Definition u64 (v : Z) : Prop := 0 <= v <= u64_max.
Section reserve.
Context {JS : Json} {UT : UuidText}.
(** The [size] column of an artifact is not negative. *)
Definition artifacts_sized (d : Db) : Prop := forall id a, db_artifacts d !! id = Some a -> 0 <= af_size a.
Lemma derived_nonneg d sid res : artifacts_sized d ->
  0 <= (derived_capacity_usage d sid res).1 /\ 0 <= (derived_capacity_usage d sid res).2.
Proof.
  intros Ha. assert (Hc : forall A (p : A -> bool) l, 0 <= count_rows p l) by (intros; apply llen_nonneg).
  destruct res; cbn; split; try lia; try apply Hc; apply sum_rows_at_least; intros; eauto using llen_nonneg.
Qed.
Lemma reserve_contract now c s : cap_ok s -> artifacts_sized (cy_db s) -> u64 (rc_amount c) ->
  derived (rc_session_id c) (rc_resource c) = (derived_capacity_usage (cy_db s) (rc_session_id c) (rc_resource c)).1 ->
  cwp (reserve_capacity profile now c) (fun _ => contract (fun _ => False) s) s.
Proof.
  intros Hs Hd [Hu _] Hder. pose proof (counters_used _ Hs) as [Hus Hug]. unfold reserve_capacity. case_eqb as Hne; [by apply cwp_fail|].
  destruct (Z.eqb_spec (rc_amount c) 0) as [|Hz]; [by apply cwp_fail|]. apply cwp_bind, cwp_get.
  case_match eqn:Hid; [case_match; [apply cwp_ret; by apply contract_refl|by apply cwp_fail]|].
  case_match eqn:Hp; [by apply cwp_fail|]. apply negb_false_iff, campaign_session in Hp.
  destruct (derived_nonneg (cy_db s) (rc_session_id c) (rc_resource c) Hd) as [H1 H2].
  destruct (derived_capacity_usage (cy_db s) (rc_session_id c) (rc_resource c)) as [ds dg]. cbn [fst snd] in *.
  apply cwp_bind, u64_ok; [done|]. apply cwp_bind, u64_ok; [done|].
  apply cwp_bind, u64_ok; [apply Hus|]. apply cwp_bind, add_ok; [done|]. apply cwp_bind, add_ok; [done|].
  apply cwp_bind, u64_ok; [apply Hug|]. apply cwp_bind, add_ok; [done|]. apply cwp_bind, add_ok; [done|].
  apply cwp_bind, found_ok; [done|]. intros l Hl. rewrite (proj1 (profile_get _)) in Hl. injection Hl as <-.
  pose proof (limit_small (rc_resource c)) as [Hls Hlg].
  case_match eqn:E1; [by apply cwp_fail|]. case_match eqn:E2; [by apply cwp_fail|]. apply Z.ltb_ge in E1, E2.
  apply cwp_bind, i64_ok; [by right|]. intros _. apply cwp_bind, cwp_insert_reservation. intros Hn Hpos. cbn in Hpos.
  apply cwp_bind, i64_ok; [left; lia|]. intros _. apply cwp_bind, cwp_write_session.
  apply cwp_bind, i64_ok; [left; lia|]. intros _. apply cwp_bind, cwp_write_global, cwp_ret.
  split; [|done|by apply same_leases_kept|].
  2: { intros sid res _. set (used := ds + _ + _ - ds).
       change (default 0 (<[(rc_session_id c, rc_resource c) := used]> (cy_session_usage s) !! (sid, res)) <=
         Z.max (session_used s sid res) (per_session (limit_of profile res) - derived sid res)).
       destruct (decide ((sid, res) = (rc_session_id c, rc_resource c))) as [E|Hk].
       - injection E as -> ->. rewrite lookup_insert_eq, Hder. cbn [default from_option id]. unfold id, used. lia.
       - rewrite lookup_insert_ne by done. unfold session_used. lia. }
  pose proof Hs as [Hr Hg Hc Hle Hm]. split; cbn.
  - apply rows_insert; cbn; try done. by left.
  - done.
  - replace (ds + session_used s (rc_session_id c) (rc_resource c) + rc_amount c - ds)
      with (session_used s (rc_session_id c) (rc_resource c) + rc_amount c) by lia.
    replace (dg + global_used s (rc_resource c) + rc_amount c - dg) with (global_used s (rc_resource c) + rc_amount c) by lia.
    apply (counters_add _ _ _ _ _ _ (MkReservationCols (rc_session_id c) (rc_campaign_id c) (rc_resource c) (rc_amount c) 0 now None));
      cbn [rv_session_id rv_resource rv_amount rv_released]; [done..| |]; unfold session_used, global_used in *; lia.
  - apply leases_insert_other; cbn; [done|done|congruence].
  - done.
Qed.
End reserve.

Lemma reserve_global_contract now c s : cap_ok s -> rg_resource c <> Subscriptions -> u64 (rg_amount c) ->
  cwp (reserve_global_capacity profile now c) (fun _ => contract (fun _ => False) s) s.
Proof.
  intros Hs Hne [Hu _]. pose proof (counters_used _ Hs) as [_ Hug]. unfold reserve_global_capacity.
  destruct (Z.eqb_spec (rg_amount c) 0) as [|Hz]; [by apply cwp_fail|]. apply cwp_bind, cwp_get.
  pose proof Hs as [Hr Hg Hc Hle Hm]. case_match eqn:Hid.
  { case_match; [by apply cwp_fail|]. apply cwp_bind, u64_ok; [apply Hg in Hid; lia|].
    case_match; [by apply cwp_fail|]. apply cwp_ret. by apply contract_refl. }
  apply cwp_bind, u64_ok; [apply Hug|]. apply cwp_bind, add_ok; [done|].
  apply cwp_bind, found_ok; [done|]. intros l Hl. rewrite (proj1 (profile_get _)) in Hl. injection Hl as <-.
  pose proof (limit_small (rg_resource c)) as [Hls Hlg]. case_match eqn:E1; [by apply cwp_fail|]. apply Z.ltb_ge in E1.
  apply cwp_bind, i64_ok; [by right|]. intros _. apply cwp_bind, cwp_insert_global. intros Hn Hpos. cbn in Hpos.
  apply cwp_bind, i64_ok; [left; lia|]. intros _. apply cwp_bind, cwp_write_global, cwp_ret.
  split; [|done|by apply same_leases_kept|by apply used_same]. split; cbn; try done.
  - apply globals_insert; cbn; try done. by left.
  - apply (counters_gadd _ _ _ _ _ _ (MkGlobalReservationCols (rg_resource c) (rg_amount c) 0 now None)); cbn [gr_resource gr_amount gr_released]; [done..|].
    unfold global_used in *. lia.
Qed.
Lemma release_global_contract now id s : cap_ok s ->
  cwp (release_global_capacity now id) (fun _ => contract (fun _ => False) s) s.
Proof.
  intros Hs. pose proof Hs as [Hr Hg Hc Hle Hm]. apply cwp_bind, cwp_get, cwp_bind, found_ok; [done|]. intros r Hid.
  destruct (Hg _ _ Hid) as (Hpos & Hst & Hne). apply cwp_bind.
  apply (cwp_mono _ (fun _ s' => contract (fun _ => False) s s' /\ exists r', cy_globals s' !! id = Some r' /\ gr_released r' = 1 /\
    gr_resource r' = gr_resource r)).
  - destruct (Z.eqb_spec (gr_released r) 0) as [Hu|Hu].
    + apply cwp_bind. eapply cwp_mark_global; [done..|]. destruct (co_global _ _ _ _ _ Hc (gr_resource r)) as (Hv & _).
      pose proof (globally_ge _ _ _ Hg Hid Hu). pose proof (reserved_nonneg _ (of_resource (gr_resource r)) _ Hr).
      apply cwp_bind, cwp_take_global; [change (0 < gr_amount r <= global_used s (gr_resource r)); unfold global_used; lia|]. apply cwp_ret. split.
      * split; [|done|by apply same_leases_kept|by apply used_same]. split; cbn; try done; [|by eapply (counters_grelease _ _ _ _ _ _ r)].
        apply globals_insert; cbn; try done. by right.
      * exists (released_global r now). cbn. by rewrite lookup_insert_eq.
    + apply cwp_ret. split; [by apply contract_refl|]. exists r. destruct Hst; done.
  - intros _ s' [Hc1 (r' & Hid' & Hr' & Er)]. apply cwp_bind.
    apply (cwp_mono _ (fun _ => contract (fun _ => False) s)); [|by intros _ s2 H2; apply cwp_bind, u64_ok; [lia|]; apply cwp_ret].
    case_eqb as Hp; [|by apply cwp_ret]. apply (cwp_mono _ (fun _ => contract (fun _ => False) s')); [|intros ? s2; by apply contract_trans].
    apply cwp_bind, cwp_get, cwp_bind, cwp_put, cwp_bind, cwp_get, cwp_put.
    destruct (ct_ok _ _ _ Hc1) as [Hr1 Hg1 Hc2 Hle1 Hm1]. split; [|done|by apply same_leases_kept|by apply used_same]. split; cbn; try done.
    + intros i x [Hi _]%map_lookup_filter_Some. by apply (Hg1 i).
    + eapply counters_gdrop; [exact Hc2|apply map_filter_subseteq|]. intros i x Hi Hn. rewrite map_lookup_filter_None in Hn.
      destruct Hn as [Hn|Hn]; [congruence|]. specialize (Hn _ Hi). cbn in Hn.
      destruct (decide (i = id)) as [->|]; [|by destruct Hn; intros [? _]]. rewrite Hid' in Hi. injection Hi as <-. done.
Qed.

(** *** Subscriptions *)

(** Rows of subscriptions are deleted and their counters are counted again. *)
Definition only_subscriptions (s : Capacities) (p : RequestId -> ReservationCols -> bool) : Prop :=
  forall id r, cy_reservations s !! id = Some r -> p id r = true -> exists l, cy_leases s !! id = Some l /\
    lease_abandoned s l = true.
Definition without (s : Capacities) (p : RequestId -> ReservationCols -> bool) : Capacities :=
  let kept := filter (fun e => p e.1 e.2 = false) (cy_reservations s) in
  MkCapacities (cy_db s) kept (cy_globals s) (filter (fun e => is_Some (kept !! e.1)) (cy_leases s)) (cy_limits s).
Lemma without_gone s p id r : cap_ok s -> only_subscriptions s p -> cy_reservations s !! id = Some r ->
  cy_reservations (without s p) !! id = None -> rv_resource r = Subscriptions /\ p id r = true.
Proof.
  intros [_ _ _ [Hl _] _] Hp Hid Hn. cbn in Hn. apply map_lookup_filter_None in Hn as [Hn|Hn]; [congruence|].
  specialize (Hn _ Hid). cbn in Hn. apply not_false_iff_true in Hn. split; [|done].
  destruct (Hp _ _ Hid Hn) as (l & Hl' & _). destruct (Hl _ _ Hl') as (r' & Hr' & ? & _). congruence.
Qed.
Lemma without_le s p q : cap_ok s -> reserved q (cy_reservations (without s p)) <= reserved q (cy_reservations s).
Proof.
  intros [Hr _ _ _ _]. apply sum_rows_sub_le; [apply map_filter_subseteq|]. intros k v Hk _. apply Hr in Hk. lia.
Qed.
Lemma without_contract s p su' gu' : cap_ok s -> only_subscriptions s p ->
  let s1 := without s p in
  (forall sid res, res <> Subscriptions -> su' !! (sid, res) = cy_session_usage s !! (sid, res)) ->
  (forall sid, su' !! (sid, Subscriptions) = positive (reserved (of_session sid Subscriptions) (cy_reservations s1))) ->
  (forall res, res <> Subscriptions -> gu' !! res = cy_global_usage s !! res) ->
  gu' !! Subscriptions = positive (reserved (of_resource Subscriptions) (cy_reservations s1)) ->
  contract (fun _ => False) s (with_global_usage (with_session_usage s1 su') gu').
Proof.
  intros Hs Hp s1 H1 H2 H3 H4. split; [|done| |by apply used_same].
  - unfold CapacityLedger.cap_ok. cbn. eapply (tables_unsubscribed _ _ (cy_session_usage s) _ (cy_global_usage s)); [exact Hs|apply map_filter_subseteq| |done..].
    intros id r Hid Hn. by destruct (without_gone s p id r Hs Hp Hid Hn).
  - intros id l Hl Ha _. exists l. split; [|done]. cbn. apply map_lookup_filter_Some. split; [done|]. cbn.
    destruct Hs as [_ _ _ [Hx _] _]. destruct (Hx _ _ Hl) as (r & Hr & _). exists r. apply map_lookup_filter_Some. split; [done|].
    apply not_true_iff_false. intros Ht. destruct (Hp _ _ Hr Ht) as (l' & Hl' & Ha'). congruence.
Qed.

Lemma overwrite_session_ok sid used s (Q : unit -> Capacities -> Prop) :
  (used <> 0 -> is_Some (cy_session_usage s !! (sid, Subscriptions))) ->
  (forall su', su' !! (sid, Subscriptions) = positive used ->
    (forall k, k <> (sid, Subscriptions) -> su' !! k = cy_session_usage s !! k) -> Q tt (with_session_usage s su')) ->
  cwp (if used =? 0 then cput (with_session_usage s (delete (sid, Subscriptions) (cy_session_usage s)))
       else overwrite_session_used sid Subscriptions used) Q s.
Proof.
  intros Hu HQ. destruct (Z.eqb_spec used 0) as [->|Hn].
  - apply cwp_put, HQ; [apply lookup_delete_eq|]. intros k Hk. by apply lookup_delete_ne.
  - apply cwp_bind, cwp_get. destruct (Hu Hn) as [v ->]. apply cwp_write_session, HQ.
    + rewrite lookup_insert_eq. unfold positive. by destruct (Z.eqb_spec used 0).
    + intros k Hk. by apply lookup_insert_ne.
Qed.
Lemma overwrite_global_ok used s (Q : unit -> Capacities -> Prop) :
  (used <> 0 -> is_Some (cy_global_usage s !! Subscriptions)) ->
  (forall gu', gu' !! Subscriptions = positive used ->
    (forall k, k <> Subscriptions -> gu' !! k = cy_global_usage s !! k) -> Q tt (with_global_usage s gu')) ->
  cwp (if used =? 0 then cput (with_global_usage s (delete Subscriptions (cy_global_usage s)))
       else overwrite_global_used Subscriptions used) Q s.
Proof.
  intros Hu HQ. destruct (Z.eqb_spec used 0) as [->|Hn].
  - apply cwp_put, HQ; [apply lookup_delete_eq|]. intros k Hk. by apply lookup_delete_ne.
  - apply cwp_bind, cwp_get. destruct (Hu Hn) as [v ->]. apply cwp_write_global, HQ.
    + rewrite lookup_insert_eq. unfold positive. by destruct (Z.eqb_spec used 0).
    + intros k Hk. by apply lookup_insert_ne.
Qed.
Lemma positive_some n n' : 0 <= n' <= n -> n' <> 0 -> is_Some (positive n).
Proof. intros. unfold positive. destruct (Z.eqb_spec n 0); [lia|eauto]. Qed.
Lemma without_nonneg s p q : cap_ok s -> 0 <= reserved q (cy_reservations (without s p)).
Proof. intros [Hr _ _ _ _]. eapply reserved_nonneg, rows_kept; [exact Hr|apply map_filter_subseteq]. Qed.

Lemma reclaim_contract sid s : cap_ok s ->
  cwp (reclaim_stale_subscription_leases sid) (fun _ => contract (fun _ => False) s) s.
Proof.
  intros Hs. pose proof Hs as [Hr Hg Hc [Hl _] _]. apply cwp_bind, cwp_get, cwp_bind, cwp_bind, cwp_get, cwp_put.
  set (p := fun (id : RequestId) (_ : ReservationCols) => match cy_leases s !! id with
    | Some l => eqb (su_session_id l) sid && lease_abandoned s l | None => false end).
  change (MkCapacities _ _ _ _ _) with (without s p).
  assert (Hp : only_subscriptions s p).
  { intros id r _. unfold p. destruct (cy_leases s !! id) as [l|]; [|done]. intros [_ ?]%andb_prop. eauto. }
  apply cwp_bind, cwp_get, cwp_bind, overwrite_session_ok.
  { change (cy_session_usage (without s p)) with (cy_session_usage s). rewrite (session_subscriptions _ _ _ _ _ _ _ Hc Hr).
    apply positive_some. eauto using without_nonneg, without_le. }
  intros su' H1 H2. apply cwp_bind, cwp_get, overwrite_global_ok.
  { change (cy_global_usage (with_session_usage (without s p) su')) with (cy_global_usage s). rewrite (all_subscriptions _ _ _ _ _ _ Hc Hr Hg).
    apply positive_some. split; [by apply without_nonneg|by apply without_le]. }
  intros gu' H3 H4. apply (without_contract s p); [done|done|..].
  - intros sid' res Hne. apply H2. congruence.
  - intros sid'. destruct (decide (sid' = sid)) as [->|Hne]; [done|]. rewrite H2 by congruence.
    change (cy_session_usage (without s p)) with (cy_session_usage s). rewrite (session_subscriptions _ _ _ _ _ _ _ Hc Hr). f_equal.
    symmetry. apply sum_rows_sub; [apply map_filter_subseteq|]. intros id r Hid Hn.
    destruct (without_gone s p id r Hs Hp Hid Hn) as [_ Ht]. unfold p in Ht. destruct (cy_leases s !! id) as [l|] eqn:El; [|done].
    apply andb_prop in Ht as [Es%bool_decide_eq_true _]. destruct (Hl _ _ El) as (r' & Hr' & _ & _ & E & _).
    destruct (of_session sid' Subscriptions r) eqn:Eo; [|done]. apply of_session_true in Eo as [? _]. congruence.
  - intros res Hne. by apply H4.
  - done.
Qed.
Lemma reconcile_contract s : cap_ok s -> cwp reconcile_abandoned_subscriptions (fun _ => contract (fun _ => False) s) s.
Proof.
  intros Hs. pose proof Hs as [Hr Hg Hc [Hl _] _]. apply cwp_bind, cwp_get, cwp_bind, cwp_bind, cwp_get, cwp_put.
  set (p := fun (id : RequestId) (_ : ReservationCols) => match cy_leases s !! id with
    | Some l => lease_abandoned s l | None => false end).
  change (MkCapacities _ _ _ _ _) with (without s p).
  assert (Hp : only_subscriptions s p).
  { intros id r _. unfold p. destruct (cy_leases s !! id) as [l|]; [|done]. eauto. }
  apply cwp_bind, cwp_get, cwp_bind, cwp_put. set (su' := filter _ _). set (n := reserved (of_resource _) _).
  assert (Hfinal : forall gu', gu' !! Subscriptions = positive n -> (forall k, k <> Subscriptions -> gu' !! k = cy_global_usage s !! k) ->
    contract (fun _ => False) s (with_global_usage (with_session_usage (without s p) su') gu')).
  { intros gu' H3 H4. apply (without_contract s p); [done|done| | |done|done].
    - intros sid res Hne. apply option_eq. intros v. unfold su'. rewrite map_lookup_filter_Some, map_lookup_imap. cbn.
      change (cy_session_usage (without s p)) with (cy_session_usage s). destruct (cy_session_usage s !! (sid, res)); cbn; [|naive_solver].
      destruct (eqb_spec res Subscriptions); naive_solver.
    - intros sid. apply option_eq. intros v. unfold su'. rewrite map_lookup_filter_Some, map_lookup_imap. cbn [fst snd].
      change (cy_session_usage (without s p)) with (cy_session_usage s). rewrite (session_subscriptions _ _ _ _ _ _ _ Hc Hr).
      pose proof (without_le s p (of_session sid Subscriptions) Hs). pose proof (without_nonneg s p (of_session sid Subscriptions) Hs).
      set (m := reserved (of_session sid Subscriptions) (cy_reservations (without s p))) in *.
      unfold positive. destruct (Z.eqb_spec (reserved (of_session sid Subscriptions) (cy_reservations s)) 0) as [E|E].
      + assert (m = 0) as -> by lia. split; [by intros [? _]|done].
      + change (Some m = Some v /\ ~ (Subscriptions = Subscriptions /\ v = 0) <-> (if m =? 0 then None else Some m) = Some v).
        destruct (Z.eqb_spec m 0) as [E'|E'].
        * split; [|done]. rewrite E'. intros [[= <-] Hn]. by destruct Hn.
        * split; [by intros [? _]|]. intros [= <-]. split; [done|]. by intros [_ ?]. }
  apply cwp_bind, cwp_bind, cwp_get. change (cy_global_usage (with_session_usage (without s p) su')) with (cy_global_usage s).
  pose proof (without_le s p (of_resource Subscriptions) Hs). pose proof (without_nonneg s p (of_resource Subscriptions) Hs).
  destruct (cy_global_usage s !! Subscriptions) as [u|] eqn:Eu.
  - apply cwp_write_global. apply cwp_bind, cwp_get, cwp_put. apply Hfinal; [apply drop_zero_positive|].
    intros k Hk. rewrite drop_zero_ne by done. by apply (lookup_insert_ne (cy_global_usage s)).
  - apply cwp_ret, cwp_bind, cwp_get, cwp_put. apply Hfinal; [|intros k Hk; by rewrite drop_zero_ne].
    unfold drop_zero. change (cy_global_usage (with_session_usage (without s p) su')) with (cy_global_usage s).
    rewrite bool_decide_eq_false_2 by congruence. rewrite Eu. rewrite (all_subscriptions _ _ _ _ _ _ Hc Hr Hg) in Eu.
    unfold positive in *. destruct (Z.eqb_spec (reserved (of_resource Subscriptions) (cy_reservations s)) 0) as [E|]; [|done].
    assert (n = 0) as -> by (unfold n; lia). done.
Qed.

(** The epochs of owners are positive and fit their column. *)
Definition owners_ok (d : Db) : Prop := forall sid row host epoch, db_sessions d !! sid = Some row ->
  sc_owner_host_id row = Some host -> sc_owner_epoch row = Some epoch -> 0 < epoch <= i64_max.
(** The command is of the session's owner, and its lease ends within the owner's. *)
Definition lease_valid (c : ReserveSubscriptionLease) (s : Capacities) : Prop :=
  exists row expiry, db_sessions (cy_db s) !! rs_session_id c = Some row /\ sc_closed row = 0 /\
    sc_owner_host_id row = Some (as_uuid (rs_owner_host_id c)) /\
    sc_owner_epoch row = Some (FencingEpoch_get (rs_owner_epoch c)) /\ sc_owner_expires_at row = Some expiry /\
    Timestamp_lt (sc_time_floor row) (rs_expires_at c) /\ Timestamp_le (rs_expires_at c) expiry.
Lemma validate_ok c (Q : unit -> Capacities -> Prop) s : owners_ok (cy_db s) ->
  (lease_valid c s -> session_of (cy_db s) (rs_campaign_id c) = Some (rs_session_id c) -> Q tt s) ->
  cwp (validate_subscription_owner c) Q s.
Proof.
  intros Ho HQ. apply cwp_bind, cwp_get. destruct (db_sessions (cy_db s) !! rs_session_id c) as [row|] eqn:Er; [|by apply cwp_fail].
  destruct (Z.eqb_spec (sc_closed row) 0) as [Hc|]; [|by apply cwp_fail]. cbn [negb].
  destruct (sc_owner_host_id row) as [h|] eqn:Eh; [|by apply cwp_fail].
  destruct (sc_owner_epoch row) as [e|] eqn:Ee; [|by apply cwp_fail].
  destruct (sc_owner_expires_at row) as [x|] eqn:Ex; [|by apply cwp_fail].
  apply cwp_bind, u64_ok; [pose proof (Ho _ _ _ _ Er Eh Ee); lia|]. case_match eqn:Eb; [by apply cwp_fail|].
  rewrite !orb_false_iff, !negb_false_iff, !Z.eqb_eq in Eb. destruct Eb as [[[-> ->] Hf] Hx].
  case_match eqn:Ec; [|by apply cwp_fail]. apply cwp_ret, HQ; [|by apply campaign_session].
  exists row, x. split_and!; try done.
  - by apply Timestamp_leb_gt.
  - by apply Timestamp_ltb_ge.
Qed.
Lemma subscribe_contract now c s : cap_ok s -> owners_ok (cy_db s) ->
  cwp (reserve_subscription_lease now c) (fun _ => contract (fun _ => False) s) s.
Proof.
  intros Hs Ho. apply cwp_bind, validate_ok; [done|]. intros (row & x & Hrow & _ & Hh & He & _) Hpart.
  apply cwp_bind. apply (cwp_mono _ (fun _ => contract (fun _ => False) s)); [by apply reclaim_contract|]. intros [] s1 Hc1. apply cwp_bind, cwp_get.
  pose proof (ct_ok _ _ _ Hc1) as Hs1. pose proof Hs1 as [Hr Hg Hc Hl Hm]. case_match eqn:El.
  { case_match; [by apply cwp_ret|by apply cwp_fail]. }
  rewrite (Hm Subscriptions). cbn [lc_per_session lc_global_limit].
  case_match eqn:E1; [by apply cwp_fail|]. case_match eqn:E2; [by apply cwp_fail|]. apply Z.leb_gt in E1, E2.
  apply cwp_bind, cwp_insert_reservation. intros Hn _. apply cwp_bind, cwp_lift; unfold to_i64; pose proof (Ho _ _ _ _ Hrow Hh He);
    destruct (Z.leb_spec (FencingEpoch_get (rs_owner_epoch c)) i64_max); try lia; [|done]. intros epoch [= <-].
  apply cwp_bind, cwp_insert_lease. intros Hn' _. apply cwp_bind, cwp_bind, cwp_get, cwp_bind, cwp_write_session, cwp_write_global, cwp_ret.
  eapply contract_trans; [exact Hc1|]. split; [|done| |apply used_same; intros sid res Hne; cbn; by rewrite lookup_insert_ne by congruence].
  - split; cbn.
    + apply rows_insert; cbn; try done; [|by left]. change (session_of (cy_db s1) (rs_campaign_id c) = Some (rs_session_id c)). unfold session_of. rewrite (frame_participants _ _ (ct_frame _ _ _ Hc1)). done.
    + done.
    + apply (counters_add _ _ _ _ _ _ (MkReservationCols (rs_session_id c) (rs_campaign_id c) Subscriptions 1 0 now None));
        cbn [rv_session_id rv_resource rv_amount rv_released]; [done..| |].
      * change (session_used s1 (rs_session_id c) Subscriptions + 1 <= per_session (limit_of profile Subscriptions)). lia.
      * change (global_used s1 Subscriptions + 1 <= global (limit_of profile Subscriptions)). lia.
    + apply leases_insert; [done|]. split_and!; cbn; try done. lia.
    + done.
  - intros id l Hid _ _. exists l. split; [|done]. cbn. rewrite lookup_insert_ne; [done|]. intros <-.
    cbn in Hn'. congruence.
Qed.
Lemma renew_contract c s : cap_ok s -> owners_ok (cy_db s) ->
  cwp (renew_subscription_lease c) (fun _ => contract (fun _ => False) s) s.
Proof.
  intros Hs Ho. apply cwp_bind, validate_ok; [done|]. intros (row & x & Hrow & _ & Hh & He & _) Hpart.
  apply cwp_bind, cwp_lift; unfold to_i64; pose proof (Ho _ _ _ _ Hrow Hh He);
    destruct (Z.leb_spec (FencingEpoch_get (rs_owner_epoch c)) i64_max); try lia; [|done]. intros epoch [= <-].
  apply cwp_bind, cwp_get. destruct (cy_leases s !! rs_reservation_id c) as [l|] eqn:El; [|by apply cwp_fail].
  case_match eqn:E; [|by apply cwp_fail]. apply andb_prop in E as [_ Ht]. apply cwp_bind, cwp_put, cwp_ret.
  pose proof Hs as [Hr Hg Hc Hl Hm]. split; [|done| |by apply used_same].
  - split; try done. destruct Hl as [Hl1 Hl2]. split.
    + intros id l' Hid. cbn in Hid. destruct (decide (id = rs_reservation_id c)) as [->|Hne].
      * rewrite lookup_insert_eq in Hid. injection Hid as <-. destruct (Hl1 _ _ El) as (r & ? & ?). by exists r.
      * rewrite lookup_insert_ne in Hid by done. eauto.
    + intros id r Hid Hsub. cbn. destruct (decide (id = rs_reservation_id c)) as [->|Hne].
      * rewrite lookup_insert_eq. eauto.
      * rewrite lookup_insert_ne by done. eauto.
  - intros id l' Hid _ _. cbn. destruct (decide (id = rs_reservation_id c)) as [->|Hne].
    + rewrite lookup_insert_eq. rewrite El in Hid. injection Hid as <-. eexists. split; [done|]. split_and!; try done. cbn.
      by apply Timestamp_leb_le.
    + rewrite lookup_insert_ne by done. by exists l'.
Qed.

(** *** Limits *)

(** Opening with the profile that is configured changes nothing. *)
Lemma configure_contract s : cap_ok s -> cwp (configure_capacity_limits profile) (fun _ => contract (fun _ => False) s) s.
Proof.
  intros Hs. apply (cwp_mono _ (fun _ s' => s' = s)); [|intros _ s' ->; by apply contract_refl].
  unfold configure_capacity_limits. induction CapacityResource_ALL as [|res l IH]; [by apply cwp_ret|]. cbn [each].
  apply cwp_bind. apply (cwp_mono _ (fun _ s' => s' = s)); [|intros _ s' ->; exact IH]. clear l IH.
  apply cwp_bind, cwp_get, cwp_bind. rewrite (to_limits _ _ _ _ _ _ _ _ Hs res). cbn [ok_or]. apply cwp_lift; [|done]. intros _ [= <-].
  apply cwp_bind. unfold profile_limit. rewrite (proj1 (profile_get res)). apply cwp_lift; [|done]. intros _ [= <-].
  destruct (limit_small res). apply cwp_bind, i64_ok; [by left|]. intros _. apply cwp_bind, i64_ok; [by left|]. intros _.
  cbn [lc_configured lc_per_session lc_global_limit]. rewrite !Z.eqb_refl. by apply cwp_ret.
Qed.
End contracts.
