(* ===== verification/CapacityHistory.v ===== *)
(** * CapacityHistory: capacity over all histories of the store

    The capacity transactions of SqliteCapacity.v beside the kernel: a history opens a
    fresh database, then interleaves capacity calls with steps of the kernel that leave
    the usage tables alone, as every request of the kernel does.  From the contracts of
    CapacityCalls.v: the counters are the sums of what is reserved and within their
    limits, the checks at start-up keep accepting the rows, no call finds its rows
    corrupt, a live subscription lease ends only by its release, and the kernel sees
    nothing of it. *)
From S2P Require Import Prelude Scalars Session Authority Capacity Approval StoreApi StoreWire Json Template Message OperationApi.
From S2P Require Import SqliteDb SqliteSession SessionLedger Ownership SqliteMailbox Tables MailboxLedger Footprint JournalFootprint OperationLedger Participants Kernel.
From S2P Require Import SqliteCapacity CapacityLedger CapacityCalls Scenario.

(** ** Calls *)

Inductive CapacityCall :=
| CcSubscribe (c : ReserveSubscriptionLease)
| CcRenew (c : ReserveSubscriptionLease)
| CcReserveGlobal (c : ReserveGlobalCapacity)
| CcReleaseGlobal (id : RequestId)
| CcReserve (c : ReserveCapacity)
| CcRelease (id : RequestId)
(** Inside the publication of an artifact. *)
| CcConsume (id : RequestId) (sid : SessionId) (campaign : ParticipantId) (res : CapacityResource) (amount : Z)
(** The database is opened again. *)
| CcReconcile
| CcConfigure.

(** What the types and the callers of the commands guarantee: amounts are [u64], and
    neither global reservations nor publications are for subscriptions. *)
Definition call_wf (q : CapacityCall) : Prop :=
  match q with
  | CcReserveGlobal c => rg_resource c <> Subscriptions /\ u64 (rg_amount c)
  | CcReserve c => u64 (rc_amount c)
  | CcConsume _ _ _ res _ => res <> Subscriptions
  | _ => True
  end.
(** The lease that a call gives up. *)
Definition gives_up (q : CapacityCall) (id : RequestId) : Prop :=
  match q with CcRelease i => i = id | _ => False end.

(** The rows of migration 0019. *)
Definition seed_limits : gmap CapacityResource LimitCols :=
  list_to_map (map (fun e => (e.1, MkLimitCols e.2.1 e.2.2 0))
    [(Participants, (1024, 16384)); (ActiveOperations, (256, 4096)); (QueuedOperations, (4096, 65536));
     (Messages, (65536, 1048576)); (MessageBytes, (268435456, 4294967296)); (Artifacts, (4096, 65536));
     (ArtifactBytes, (4294967296, 68719476736)); (PendingRequests, (4096, 65536)); (Subscriptions, (32, 512));
     (Retries, (4096, 65536)); (RetainedEvents, (262144, 4194304))]).

Section history.
Context {TL : TimeLib} {TA : TimeArith} {SH : Sha256} {JS : Json} {JR : JsonRaw} {UT : UuidText}.
Context {TLaws : TimeLaws} {TALaws : TimeArithLaws}.
Variable max_lease_millis : Z.
Variable profile : LimitProfile.

Definition capacity_call (now : Timestamp) (q : CapacityCall) : CTx unit :=
  match q with
  | CcSubscribe c => _ ← reserve_subscription_lease now c; mret tt
  | CcRenew c => _ ← renew_subscription_lease c; mret tt
  | CcReserveGlobal c => _ ← reserve_global_capacity profile now c; mret tt
  | CcReleaseGlobal id => _ ← release_global_capacity now id; mret tt
  | CcReserve c => _ ← reserve_capacity profile now c; mret tt
  | CcRelease id => _ ← release_capacity now id; mret tt
  | CcConsume id sid campaign res amount => consume_capacity_reservation id sid campaign res amount now
  | CcReconcile => reconcile_abandoned_subscriptions
  | CcConfigure => configure_capacity_limits profile
  end.

Abbreviation kernel_step := (kernel_step max_lease_millis profile).

(** The usage tables and the artifacts, which the kernel's requests do not write. *)
Definition capacity_same (d d' : Db) : Prop :=
  db_session_usage d' = db_session_usage d /\ db_global_usage d' = db_global_usage d /\
  db_artifacts d' = db_artifacts d /\ db_event_limits d' = db_event_limits d.

Inductive cap_step : Capacities -> option CapacityCall -> Capacities -> Prop :=
| cs_call now q s : call_wf q -> cap_step s (Some q) (crun (capacity_call now q) s).1
| cs_kernel d' s : kernel_step (cy_db s) d' -> db_session_usage d' = db_session_usage (cy_db s) ->
    db_global_usage d' = db_global_usage (cy_db s) -> artifacts_sized d' -> cap_step s None (with_db s d').

(** A database that was created and never used. *)
Definition fresh (s : Capacities) : Prop :=
  all_rows cols_wf (cy_db s) /\ pristine (cy_db s) /\ artifacts_sized (cy_db s) /\
  cy_session_usage s = ∅ /\ cy_global_usage s = ∅ /\ cy_reservations s = ∅ /\ cy_globals s = ∅ /\ cy_leases s = ∅ /\
  cy_limits s = seed_limits.
Definition cap_steps (s s' : Capacities) : Prop := rtc (fun s s' => exists q, cap_step s q s') s s'.
(** The states after the database was opened for the first time. *)
Definition cap_reachable (s : Capacities) : Prop := exists s0 s1, fresh s0 /\
  configure_capacity_limits profile s0 = Ok (tt, s1) /\ cap_steps s1 s.

(** Every request of the kernel is such a step. *)
#[export] Instance capacity_same_preorder : PreOrder capacity_same.
Proof. split; [done|]. intros d1 d2 d3 (? & ? & ? & ?) (? & ? & ? & ?). split_and!; congruence. Qed.
Lemma request_keeps_capacity now q d : capacity_same d (serve max_lease_millis profile now q d).
Proof.
  unfold serve. eapply run_wp; [apply (handler_within max_lease_millis profile capacity_same)|..]; try done;
    try (by split_and!); try by destruct q.
Qed.

Context (Hprofile : forall res, exists l, LimitProfile_get profile res = Some l /\ Capacity.within res l).

(** ** The invariant *)

Lemma cwp_done {A} (m : CTx A) (P : Capacities -> Prop) s : cwp m (fun _ => P) s -> cwp (_ ← m; mret tt) (fun _ => P) s.
Proof. intros Hm. apply cwp_bind. by eapply cwp_mono; [exact Hm|]. Qed.
(** What a session uses of a resource without reserving it. *)
Definition derived_of (d : Db) (sid : SessionId) (res : CapacityResource) : Z := (derived_capacity_usage d sid res).1.
Lemma call_contract now q s : cap_ok profile s -> owners_ok (cy_db s) -> artifacts_sized (cy_db s) -> call_wf q ->
  cwp (capacity_call now q) (fun _ => contract profile (derived_of (cy_db s)) (gives_up q) s) s.
Proof.
  intros Hs Ho Ha Hq. destruct q; cbn [capacity_call gives_up].
  - apply cwp_done. by apply subscribe_contract.
  - apply cwp_done. by apply renew_contract.
  - apply cwp_done. destruct Hq. by apply reserve_global_contract.
  - apply cwp_done. by apply release_global_contract.
  - apply cwp_done. by apply reserve_contract.
  - apply cwp_done. by apply (cwp_mono _ (fun _ => contract profile (derived_of (cy_db s)) (eq id) s)); [apply release_contract|].
  - by apply consume_contract.
  - by apply reconcile_contract.
  - by apply configure_contract.
Qed.

(** What holds in every state: the capacity tables are in order, and the rest of the
    database is one the kernel reaches. *)
Record history_ok (s : Capacities) : Prop := {
  ho_ok : cap_ok profile s;
  ho_kernel : reachable max_lease_millis profile (cy_db s);
  ho_artifacts : artifacts_sized (cy_db s);
}.
Lemma reachable_owners d : reachable max_lease_millis profile d -> owners_ok d.
Proof.
  intros Hd sid row h e Hrow Hh He. pose proof (reachable_rows max_lease_millis profile d Hd sid row Hrow) as Hw.
  pose proof (cw_high_water _ _ Hw). pose proof (cw_owner _ _ Hw) as Hx. unfold owner_wf in Hx. rewrite Hh in Hx.
  destruct Hx as (_ & He' & Hp & _). rewrite He in He'. injection He' as ->. lia.
Qed.
Lemma crun_contract now q s : history_ok s -> call_wf q -> (crun (capacity_call now q) s).2 <> Err Corrupt /\
  contract profile (derived_of (cy_db s)) (gives_up q) s (crun (capacity_call now q) s).1.
Proof.
  intros [Hs Hk Ha] Hq. pose proof (call_contract now q s Hs (reachable_owners _ Hk) Ha Hq) as Hc. unfold cwp, crun in *.
  destruct (capacity_call now q s) as [[[] s']|e]; [done|]. split; [cbn; congruence|by apply contract_refl].
Qed.
Lemma frame_core s s' : cap_frame s s' -> core_same (cy_db s) (cy_db s') /\ db_artifacts (cy_db s') = db_artifacts (cy_db s).
Proof.
  intros H. unfold core_same. split_and!.
  all: [> exact (f_equal db_messages H) | exact (f_equal db_counters H) | exact (f_equal db_sessions H)
    | exact (f_equal db_operations H) | exact (f_equal db_participants H) | exact (f_equal db_templates H)
    | exact (f_equal db_launches H) | exact (f_equal db_effects H) | exact (f_equal db_effect_mutations H)
    | exact (f_equal db_registrations H) | exact (f_equal db_connections H) | exact (f_equal db_tools H)
    | exact (f_equal db_tool_mutations H) | exact (f_equal db_artifacts H)].
Qed.
Lemma contract_history derived gone s s' : history_ok s -> contract profile derived gone s s' -> history_ok s'.
Proof.
  intros [_ Hk Ha] [Ho Hf _ _]. destruct (frame_core _ _ Hf) as [Hc Ea]. split; [done| |].
  - eapply reachable_steps; [exact Hk|]. apply rtc_once. by apply ks_other.
  - intros id a. rewrite Ea. apply Ha.
Qed.
(** A participant keeps its session. *)
Lemma kernel_sessions d d' p sid : reachable max_lease_millis profile d -> kernel_step d d' ->
  session_of d p = Some sid -> session_of d' p = Some sid.
Proof.
  intros Hd Hst. destruct (kernel_step_ok max_lease_millis profile _ _ (reachable_ok max_lease_millis profile _ Hd) Hst) as [Hc _].
  unfold session_of. destruct (db_participants d !! p) as [c|] eqn:E; [|done].
  by rewrite (forest_grows _ _ _ _ (kc_forest _ _ Hc) E).
Qed.
Lemma step_history s q s' : history_ok s -> cap_step s q s' -> history_ok s'.
Proof.
  intros Hh. destruct 1 as [now q s Hq|d' s Hst Hsu Hgu Ha].
  - eapply contract_history; [exact Hh|]. by apply crun_contract.
  - destruct Hh as [[Hr Hg Hc Hl Hm] Hk _]. split; [|eapply reachable_steps; [exact Hk|by apply rtc_once]|done].
    split; try done.
    + intros id r Hid. destruct (Hr _ _ Hid) as (Hp & Hrest). split; [|done]. by eapply kernel_sessions.
    + unfold cy_session_usage, cy_global_usage. cbn. rewrite Hsu, Hgu. done.
Qed.

(** ** The first opening *)

Definition set_limits (s : Capacities) (lim : gmap CapacityResource LimitCols) : Capacities :=
  MkCapacities (cy_db s) (cy_reservations s) (cy_globals s) (cy_leases s) lim.
Definition configured_row (res : CapacityResource) : LimitCols :=
  MkLimitCols (per_session (limit_of profile res)) (global (limit_of profile res)) 1.
(** Only limits change, and those of [l] are configured. *)
Definition configures (l : list CapacityResource) (s s' : Capacities) : Prop :=
  (exists ev, cy_db s' = set_event_limits (cy_db s) ev) /\ cy_reservations s' = cy_reservations s /\
  cy_globals s' = cy_globals s /\ cy_leases s' = cy_leases s /\
  forall res, cy_limits s' !! res = if bool_decide (res ∈ l) then Some (configured_row res) else cy_limits s !! res.
Lemma configure_one res row s : cy_limits s !! res = Some row -> lc_configured row = 0 ->
  cwp (configure_capacity_limit profile res) (fun _ => configures [res] s) s.
Proof.
  intros Hrow Hc. apply cwp_bind, cwp_get, cwp_bind. rewrite Hrow. apply cwp_lift; [|done]. intros _ [= <-].
  destruct (profile_get profile Hprofile res) as [Hg [[Hp _] [Hpg _]]]. destruct (limit_small profile Hprofile res).
  apply cwp_bind. unfold profile_limit. rewrite Hg. apply cwp_lift; [|done]. intros _ [= <-].
  apply cwp_bind, i64_ok; [by left|]. intros _. apply cwp_bind, i64_ok; [by left|]. intros _. rewrite Hc. cbn [Z.eqb].
  apply cwp_bind, cwp_get. cbn [lc_per_session lc_global_limit].
  rewrite (proj2 (Z.leb_gt _ _)), (proj2 (Z.ltb_ge _ _)) by done. cbn [orb]. apply cwp_put. unfold configures.
  assert (Hl : forall r, <[res := configured_row res]> (cy_limits s) !! r =
    if bool_decide (r ∈ [res]) then Some (configured_row r) else cy_limits s !! r).
  { intros r. destruct (decide (r = res)) as [->|Hne].
    - by rewrite lookup_insert_eq, bool_decide_eq_true_2 by set_solver.
    - by rewrite lookup_insert_ne, bool_decide_eq_false_2 by set_solver. }
  destruct (eqb res RetainedEvents); cbn; split_and!; try done; [by eexists|].
  exists (db_event_limits (cy_db s)). by destruct (cy_db s).
Qed.
Lemma configure_all l s : NoDup l -> (forall res, res ∈ l -> exists row, cy_limits s !! res = Some row /\ lc_configured row = 0) ->
  cwp (each (configure_capacity_limit profile) l) (fun _ => configures l s) s.
Proof.
  revert s. induction l as [|res l IH]; intros s Hn Hl.
  - apply cwp_ret. split_and!; try done. exists (db_event_limits (cy_db s)). by destruct (cy_db s).
  - apply NoDup_cons in Hn as [Hres Hn]. destruct (Hl res) as (row & Hrow & Hc); [apply list_elem_of_here|]. cbn [each]. apply cwp_bind.
    apply (cwp_mono _ (fun _ => configures [res] s)); [by eapply configure_one|]. intros [] s1 ((ev1 & E1) & R1 & G1 & L1 & M1).
    apply (cwp_mono _ (fun _ => configures l s1)).
    + apply IH; [done|]. intros r Hr. rewrite M1. rewrite bool_decide_eq_false_2 by set_solver. apply Hl. by apply list_elem_of_further.
    + intros _ s2 ((ev2 & E2) & R2 & G2 & L2 & M2). split_and!; try congruence.
      * exists ev2. rewrite E2, E1. done.
      * intros r. rewrite M2, M1. repeat case_bool_decide; set_solver.
Qed.
Lemma resources_nodup : NoDup CapacityResource_ALL.
Proof. apply (bool_decide_unpack _). by vm_compute. Qed.
Lemma resources_all res : res ∈ CapacityResource_ALL.
Proof. apply (bool_decide_unpack _). by destruct res; vm_compute. Qed.
Lemma seeded res : exists row, seed_limits !! res = Some row /\ lc_configured row = 0.
Proof. destruct res; vm_compute; eauto. Qed.
Lemma opened_ok s0 s1 : fresh s0 -> configure_capacity_limits profile s0 = Ok (tt, s1) -> history_ok s1.
Proof.
  intros (Hw & Hp & Ha & Hsu & Hgu & Hr & Hg & Hl & Hm) Hopen.
  assert (Hc : configures CapacityResource_ALL s0 s1).
  { pose proof (configure_all CapacityResource_ALL s0 resources_nodup) as Hx. unfold cwp in Hx.
    unfold configure_capacity_limits in Hopen. rewrite Hopen in Hx. apply Hx. intros res _. rewrite Hm. apply seeded. }
  destruct Hc as ((ev & Ed) & Er & Eg & El & Em). split.
  - split.
    + intros id r. rewrite Er, Hr, lookup_empty. done.
    + intros id r. rewrite Eg, Hg, lookup_empty. done.
    + assert (cy_session_usage s1 = ∅) as -> by (unfold cy_session_usage; rewrite Ed; exact Hsu).
      assert (cy_global_usage s1 = ∅) as -> by (unfold cy_global_usage; rewrite Ed; exact Hgu). rewrite Er, Eg, Hr, Hg.
      assert (Hlim : forall res, 0 <= per_session (limit_of profile res) /\ 0 <= global (limit_of profile res))
        by (intros res; destruct (profile_get profile Hprofile res) as [_ [? ?]]; lia).
      split; intros; rewrite lookup_empty; (split_and!; [done|apply Hlim|by intros []]).
    + rewrite Er, Hr, El, Hl. split; intros *; rewrite lookup_empty; done.
    + intros res. rewrite Em, bool_decide_eq_true_2 by apply resources_all. done.
  - exists (cy_db s1). rewrite Ed. split_and!; [exact Hw|exact Hp|apply rtc_refl].
  - rewrite Ed. exact Ha.
Qed.
Lemma reachable_history s : cap_reachable s -> history_ok s.
Proof.
  intros (s0 & s1 & Hf & Ho & Hst). pose proof (opened_ok _ _ Hf Ho) as H1. clear Ho Hf. induction Hst as [s|s1 s2 s3 [q Hq] _ IH]; [done|].
  apply IH. by eapply step_history.
Qed.

(** ** The checks at start-up *)

Lemma none_intro {A} (p : A -> bool) l : (forall x, x ∈ l -> p x = false) -> none p l = true.
Proof.
  intros Hp. unfold none. apply negb_true_iff, not_true_iff_false. intros (x & Hx & Ht)%existsb_exists.
  apply list_elem_of_In in Hx. rewrite (Hp x Hx) in Ht. done.
Qed.
Lemma has_some_row p rs : has_reservation p rs -> some_row p rs = true.
Proof. intros (id & r & Hid & Hp). apply existsb_exists. exists r. split; [|done]. apply list_elem_of_In, table_rows_elem. eauto. Qed.
Lemma counted_session s r id : cap_ok profile s -> cy_reservations s !! id = Some r -> rv_released r = 0 ->
  is_Some (cy_session_usage s !! (rv_session_id r, rv_resource r)) /\ is_Some (cy_global_usage s !! rv_resource r).
Proof.
  intros Hs Hid Hr. pose proof (taken_session profile s id r Hs Hid Hr). pose proof (taken_global profile s id r Hs Hid Hr).
  unfold session_used, global_used in *. destruct (cy_session_usage s !! _), (cy_global_usage s !! _); cbn in *; eauto; lia.
Qed.
Lemma some_row_false {K A} `{Countable K} (p : A -> bool) (m : gmap K A) : (forall k v, m !! k = Some v -> p v = false) -> some_row p m = false.
Proof. intros Hp. by apply existsb_rows. Qed.

Lemma valid_reservations s : cap_ok profile s -> none (invalid_reservation s) (table_rows (cy_reservations s)) = true.
Proof.
  intros Hs. pose proof Hs as [Hr Hg [Hcs Hcg] [Hl Hx] Hm].
  apply none_intro. intros r [id Hid]%table_rows_elem. destruct (Hr _ _ Hid) as (Hp & Ha & Hst & _).
  unfold invalid_reservation, session_of in *. destruct (db_participants (cy_db s) !! rv_campaign_id r) as [p|]; [|done]. injection Hp as ->.
  unfold neqb, eqb. rewrite bool_decide_eq_true_2, (proj2 (Z.leb_gt _ _)) by done.
  destruct Hst as [[-> ->]|[-> [t ->]]]; done.
Qed.
Lemma valid_session_counters s : cap_ok profile s -> none (mismatched_session s) (map_to_list (cy_session_usage s)) = true.
Proof.
  intros Hs. pose proof Hs as [Hr Hg [Hcs Hcg] [Hl Hx] Hm].
  apply none_intro. intros [[sid res] u] Hu%elem_of_map_to_list. destruct (Hcs sid res) as (Hv & _ & Hrow). rewrite Hu in Hv, Hrow.
  unfold mismatched_session. cbn [fst snd]. cbn in Hv. rewrite Hv, Z.eqb_refl, has_some_row by eauto. apply andb_false_r.
Qed.
Lemma valid_global_counters s : cap_ok profile s -> none (mismatched_global s) (map_to_list (cy_global_usage s)) = true.
Proof.
  intros Hs. pose proof Hs as [Hr Hg [Hcs Hcg] [Hl Hx] Hm].
  apply none_intro. intros [res u] Hu%elem_of_map_to_list. destruct (Hcg res) as (Hv & _ & Hrow). rewrite Hu in Hv, Hrow.
  unfold mismatched_global. cbn [fst snd]. cbn in Hv. rewrite Hv, Z.eqb_refl. cbn [negb orb].
  destruct Hrow as [Hrow|(id & r & Hid & Hres)]; [eauto| |].
  - rewrite has_some_row by done. by rewrite andb_false_r.
  - assert (some_row (fun r => eqb (gr_resource r) res) (cy_globals s) = true) as ->; [|apply andb_false_r].
    apply existsb_exists. exists r. split; [apply list_elem_of_In, table_rows_elem; eauto|by apply bool_decide_eq_true].
Qed.
Lemma present_session_counters s : cap_ok profile s -> none (missing_session_counter s) (table_rows (cy_reservations s)) = true.
Proof.
  intros Hs. pose proof Hs as [Hr Hg [Hcs Hcg] [Hl Hx] Hm].
  apply none_intro. intros r [id Hid]%table_rows_elem. unfold missing_session_counter.
  destruct (Z.eqb_spec (rv_released r) 0) as [Hu|]; [|done]. by destruct (counted_session s r id Hs Hid Hu) as [[v ->] _].
Qed.
Lemma present_global_counters s : cap_ok profile s -> negb (missing_global_counter s) = true.
Proof.
  intros Hs. pose proof Hs as [Hr Hg [Hcs Hcg] [Hl Hx] Hm].
  apply negb_true_iff, orb_false_iff. split; apply some_row_false; intros id r Hid.
  - destruct (Z.eqb_spec (rv_released r) 0) as [Hu|]; [|done]. by destruct (counted_session s r id Hs Hid Hu) as [_ [v ->]].
  - destruct (Z.eqb_spec (gr_released r) 0) as [Hu|]; [|done]. destruct (Hcg (gr_resource r)) as (Hv & _).
    pose proof (globally_ge _ _ _ Hg Hid Hu). pose proof (reserved_nonneg _ (of_resource (gr_resource r)) _ Hr). apply Hg in Hid as [Hpos _].
    destruct (cy_global_usage s !! gr_resource r); cbn in Hv; [done|lia].
Qed.
Lemma valid_limits s : cap_ok profile s -> none invalid_limit (table_rows (cy_limits s)) = true.
Proof.
  intros Hs. pose proof Hs as [Hr Hg [Hcs Hcg] [Hl Hx] Hm].
  apply none_intro. intros l [res Hres]%table_rows_elem. rewrite Hm in Hres. injection Hres as <-.
  destruct (profile_get profile Hprofile res) as [_ [[? _] [? _]]]. unfold invalid_limit. cbn [lc_per_session lc_global_limit lc_configured].
  by rewrite (proj2 (Z.leb_gt _ _)), (proj2 (Z.ltb_ge _ _)) by done.
Qed.
Lemma valid_leases s : cap_ok profile s -> none (invalid_subscription_lease s) (map_to_list (cy_leases s)) = true.
Proof.
  intros Hs. pose proof Hs as [Hr Hg [Hcs Hcg] [Hl Hx] Hm].
  apply none_intro. intros [id l] Hid%elem_of_map_to_list. unfold invalid_subscription_lease. cbn [fst snd].
  destruct (Hl _ _ Hid) as (r & Hid' & Hres & Ha & Hs1 & Hs2 & He). rewrite Hid'. destruct (Hr _ _ Hid') as (Hp & _ & _ & Hu).
  destruct (Hu Hres) as [-> _]. unfold session_of in Hp. rewrite <-Hs2. destruct (db_participants _ !! _) as [p|]; [|done].
  injection Hp as ->. unfold neqb, eqb. rewrite Hres, Ha, Hs1, !bool_decide_eq_true_2, (proj2 (Z.leb_gt _ _)) by done. done.
Qed.
Lemma present_leases s : cap_ok profile s -> none (missing_subscription_lease s) (map_to_list (cy_reservations s)) = true.
Proof.
  intros Hs. pose proof Hs as [Hr Hg [Hcs Hcg] [Hl Hx] Hm].
  apply none_intro. intros [id r] Hid%elem_of_map_to_list. unfold missing_subscription_lease, eqb. cbn [fst snd].
  case_bool_decide as E; [|done]. destruct (Hx _ _ Hid E) as [l ->]. by rewrite andb_false_r.
Qed.
Lemma all_limits s : cap_ok profile s -> (llen (map_to_list (cy_limits s)) =? 11) = true.
Proof.
  intros Hs. pose proof Hs as [Hr Hg [Hcs Hcg] [Hl Hx] Hm].
  apply Z.eqb_eq. unfold llen. assert (cy_limits s = list_to_map (map (fun res => (res, configured_row res)) CapacityResource_ALL)) as ->;
    [|by vm_compute]. apply map_eq. intros res. rewrite Hm. symmetry. apply elem_of_list_to_map_1.
  - rewrite <-list_fmap_compose. rewrite list_fmap_id. apply resources_nodup.
  - apply list_elem_of_fmap. exists res. split; [done|apply resources_all].
Qed.
Lemma limits_within s : cap_ok profile s -> forallb limit_within_ceiling (map_to_list (cy_limits s)) = true.
Proof.
  intros Hs. pose proof Hs as [Hr Hg [Hcs Hcg] [Hl Hx] Hm].
  apply forallb_forall. intros [res l] Hin%list_elem_of_In%elem_of_map_to_list. rewrite Hm in Hin. injection Hin as <-.
  destruct (profile_get profile Hprofile res) as [_ [[? ?] [? ?]]]. unfold limit_within_ceiling. cbn [fst snd lc_per_session lc_global_limit].
  rewrite !andb_true_iff, !Z.leb_le. lia.
Qed.
Lemma history_rows_valid s : history_ok s -> capacity_rows_valid s = true.
Proof.
  intros [Hs _ _]. unfold capacity_rows_valid. rewrite !andb_true_iff.
  split_and!; auto using valid_reservations, valid_session_counters, valid_global_counters, present_session_counters,
    present_global_counters, valid_limits, valid_leases, present_leases, all_limits, limits_within.
Qed.

(** ** Theorems *)




(** The holder of the lease owns the session, and the session's time has not reached the
    end of the lease. *)
Definition lease_live (s : Capacities) (l : SubscriptionCols) : Prop :=
  exists row, db_sessions (cy_db s) !! su_session_id l = Some row /\
    sc_owner_host_id row = Some (as_uuid (su_owner_host_id l)) /\ sc_owner_epoch row = Some (su_owner_epoch l) /\
    Timestamp_lt (sc_time_floor row) (su_expires_at l).
Lemma live_not_abandoned s l : lease_live s l -> lease_abandoned s l = false.
Proof.
  intros (row & Hrow & Hh & He & Ht). unfold lease_abandoned, abandoned. rewrite Hrow, Hh, He, !Z.eqb_refl. cbn.
  by apply Timestamp_leb_gt.
Qed.
(** C14: a subscription lease whose owner still owns the session and whose time has not
    come is kept by every step, for the same holder and at least as long, unless the step
    releases it: neither another store that opens the database nor another subscriber
    reclaims it. *)
Theorem live_lease_kept s q s' id l : cap_reachable s -> cap_step s q s' -> cy_leases s !! id = Some l ->
  lease_live s l -> q <> Some (CcRelease id) ->
  exists l', cy_leases s' !! id = Some l' /\ same_holder l l'.
Proof.
  intros Hs%reachable_history Hst Hl Ha%live_not_abandoned Hq. destruct Hst as [now q s Hw|d' s _ _ _ _]; [|by exists l].
  destruct (crun_contract now q s Hs Hw) as [_ [_ _ Hk _]]. apply (Hk id l Hl Ha). destruct q; cbn; try (by intros []). by intros ->.
Qed.

(** the kernel with capacity refines the kernel: every capacity transaction is a step
    of the kernel that touches nothing but the tables of capacity, and every state of the
    combined system is one the kernel reaches. *)
Theorem capacity_refines_kernel s q s' : cap_reachable s -> cap_step s q s' ->
  reachable max_lease_millis profile (cy_db s) /\ kernel_step (cy_db s) (cy_db s') /\
  (q <> None -> other_tables (cy_db s') = other_tables (cy_db s)).
Proof.
  intros Hs%reachable_history Hst. split; [apply Hs|]. destruct Hst as [now q s Hw|d' s Hk _ _ _]; [|done].
  destruct (crun_contract now q s Hs Hw) as [_ [_ Hf _ _]]. split; [|done]. apply ks_other. by apply frame_core.
Qed.

(** *** A global reservation of subscriptions *)

Lemma reserve_global_effect now c s : cap_ok profile s -> cy_globals s !! rg_reservation_id c = None -> u64 (rg_amount c) ->
  cwp (reserve_global_capacity profile now c) (fun _ s1 => 0 < rg_amount c /\
    s1 = with_global_usage (with_globals s (<[rg_reservation_id c := MkGlobalReservationCols (rg_resource c) (rg_amount c) 0 now None]>
      (cy_globals s))) (<[rg_resource c := global_used s (rg_resource c) + rg_amount c]> (cy_global_usage s))) s.
Proof.
  intros Hs Hid [Hu _]. pose proof (counters_used profile s Hs) as [_ Hug]. unfold reserve_global_capacity.
  destruct (Z.eqb_spec (rg_amount c) 0) as [|Hz]; [by apply cwp_fail|]. apply cwp_bind, cwp_get. rewrite Hid.
  apply cwp_bind, u64_ok; [apply Hug|]. apply cwp_bind, add_ok; [done|]. apply cwp_bind, found_ok; [done|]. intros l Hl.
  rewrite (proj1 (profile_get profile Hprofile _)) in Hl. injection Hl as <-. pose proof (limit_small profile Hprofile (rg_resource c)) as [_ Hlg].
  case_match eqn:E; [by apply cwp_fail|]. apply Z.ltb_ge in E. apply cwp_bind, i64_ok; [by right|]. intros _.
  apply cwp_bind, cwp_insert_global. intros _ _. apply cwp_bind, i64_ok; [left; lia|]. intros _.
  apply cwp_bind, cwp_write_global, cwp_ret. split; [lia|done].
Qed.
Lemma reconcile_effect s u : cy_global_usage s !! Subscriptions = Some u ->
  cwp reconcile_abandoned_subscriptions (fun _ s2 => cy_globals s2 = cy_globals s /\
    cy_global_usage s2 !! Subscriptions = positive (reserved (of_resource Subscriptions) (cy_reservations s2))) s.
Proof.
  intros Hu. apply cwp_bind, cwp_get, cwp_bind, cwp_bind, cwp_get, cwp_put, cwp_bind, cwp_get, cwp_bind, cwp_put.
  apply cwp_bind, cwp_bind, cwp_get. 
  match goal with |- cwp (match cy_global_usage ?x !! _ with _ => _ end) _ _ => change (cy_global_usage x) with (cy_global_usage s) end.
  rewrite Hu. apply cwp_write_global, cwp_bind, cwp_get, cwp_put. split; [done|]. apply drop_zero_positive.
Qed.
(** a global reservation of subscriptions, which the store accepts, is forgotten when
    the database is opened: the counter is set to the leases alone, and the rows are then
    rejected by the checks of the next start-up. *)
Theorem global_subscription_breaks_startup now c s r s1 s2 : cap_reachable s -> rg_resource c = Subscriptions -> u64 (rg_amount c) ->
  cy_globals s !! rg_reservation_id c = None -> reserve_global_capacity profile now c s = Ok (r, s1) ->
  reconcile_abandoned_subscriptions s1 = Ok (tt, s2) -> capacity_rows_valid s2 = false.
Proof.
  intros [Hs _ _]%reachable_history Hres Hu Hid H1 H2. pose proof (reserve_global_effect now c s Hs Hid Hu) as He1. unfold cwp in He1.
  rewrite H1 in He1. destruct He1 as [Hpos ->]. rewrite Hres in *.
  match type of H2 with _ ?s1 = _ => pose proof (reconcile_effect s1 _ (lookup_insert_eq (cy_global_usage s) Subscriptions _)) as He2 end.
  unfold cwp in He2. rewrite H2 in He2. destruct He2 as [Hg Hgu]. cbn in Hg. set (row := MkGlobalReservationCols _ _ _ _ _) in *.
  apply not_true_iff_false. intros Hv. unfold capacity_rows_valid in Hv. rewrite !andb_true_iff in Hv.
  destruct Hv as [[[[[[[[[_ _] Hmis] _] Hmiss] _] _] _] _] _]. unfold positive in Hgu.
  destruct (Z.eqb_spec (reserved (of_resource Subscriptions) (cy_reservations s2)) 0) as [E|E].
  - apply negb_true_iff, orb_false_iff in Hmiss as [_ Hmiss]. unfold some_row in Hmiss. rewrite existsb_rows in Hmiss.
    specialize (Hmiss (rg_reservation_id c) row). rewrite Hg, lookup_insert_eq in Hmiss. specialize (Hmiss eq_refl). cbn in Hmiss.
    by rewrite Hgu in Hmiss.
  - apply negb_true_iff in Hmis. apply elem_of_map_to_list in Hgu. apply (existsb_false _ _ _ Hmis) in Hgu as Hx.
    unfold mismatched_global in Hx. cbn [fst snd] in Hx. apply orb_false_iff in Hx as [Hx _]. apply negb_false_iff, Z.eqb_eq in Hx.
    rewrite Hg, globally_add, no_global_subscriptions in Hx by (done || apply (to_globals _ _ _ _ _ _ _ _ Hs)).
    unfold gshare, row in Hx. cbn [gr_resource gr_amount] in Hx. rewrite decide_True in Hx by done. lia.
Qed.
End history.

(** ** A concrete history *)

Lemma default_profile res : exists l, LimitProfile_get LimitProfile_default res = Some l /\ Capacity.within res l.
Proof.
  exists (default_limit res). split; [apply default_lookup|]. unfold Capacity.within. destruct res; vm_compute; split_and!; try done; lia.
Qed.
Definition cap_fresh : Capacities := MkCapacities demo_db ∅ ∅ ∅ seed_limits.
(** The state a transaction leaves, or the one it found. *)
Definition after {A} (m : CTx A) (s : Capacities) : Capacities := (crun m s).1.
Definition cap_opened : Capacities := after (configure_capacity_limits LimitProfile_default) cap_fresh.
Definition cap_scene_call := @capacity_call scene_json demo_text LimitProfile_default (demo_at 100).
(** Host 50 owns a session with a root participant; then an artifact slot is reserved,
    three pending requests are reserved globally, and a subscription is leased. *)
Definition cap_kernel (n : nat) : Capacities := with_db cap_opened (fold_left scene_do (take n scene) (cy_db cap_opened)).
Definition cap_calls : list CapacityCall :=
  [CcReserve (MkReserveCapacity (MkId 80) demo_session (MkId 11) Artifacts 2);
   CcReserveGlobal (MkReserveGlobalCapacity (MkId 81) PendingRequests 3);
   CcSubscribe (MkReserveSubscriptionLease (MkId 82) demo_session (MkId 11) (MkId 50) scene_epoch (demo_at 120))].
Definition cap_scene (n : nat) : Capacities :=
  fold_left (fun s q => after (cap_scene_call q) s) (take n cap_calls) (cap_kernel 4).


Lemma after_ok (m : CTx unit) s : is_ok (m s) = true -> m s = Ok (tt, after m s).
Proof. unfold after, crun. by destruct (m s) as [[[] s']|e]. Qed.
Lemma scene_do_step d e : @Timestamp_wf UtcLib e.1 /\ match e.2 with Session c => command_wf c | Ask q => @request_wf UtcLib q end ->
  scene_step d (scene_do d e).
Proof.
  destruct e as [now [c|q]]; intros [Hn Hq]; [|by apply ks_request]. eapply ks_session. by apply step_call.
Qed.
Definition cap_scene_step := @cap_step UtcLib UtcArith demo_sha scene_json braces_json demo_text 60000 LimitProfile_default.
Definition cap_scene_reachable := @cap_reachable UtcLib UtcArith demo_sha scene_json braces_json demo_text 60000 LimitProfile_default.
(** Nothing was ever used before the calls. *)
Definition unused (d : Db) : Prop := db_session_usage d = ∅ /\ db_global_usage d = ∅ /\ db_artifacts d = ∅.
Lemma cap_kernel_next n e : scene !! n = Some e -> unused (cy_db (cap_kernel n)) -> unused (cy_db (cap_kernel (S n))) ->
  cap_scene_step (cap_kernel n) None (cap_kernel (S n)).
Proof.
  intros He (U1 & U2 & _) (V1 & V2 & V3).
  assert (E : cy_db (cap_kernel (S n)) = scene_do (cy_db (cap_kernel n)) e).
  { unfold cap_kernel. cbn [cy_db with_db]. by rewrite (take_S_r _ _ _ He), fold_left_app. }
  apply (cs_kernel 60000 LimitProfile_default (cy_db (cap_kernel (S n))) (cap_kernel n)).
  - rewrite E. apply scene_do_step. pose proof scene_wf as Hw. rewrite Forall_lookup in Hw. exact (Hw _ _ He).
  - congruence.
  - congruence.
  - intros id a. rewrite V3. by rewrite lookup_empty.
Qed.
Lemma cap_unused n : (n <= 6)%nat -> unused (cy_db (cap_kernel n)).
Proof. intros Hn. do 7 (destruct n as [|n]; [vm_compute; done|]). lia. Qed.
Lemma cap_kernel_steps n : (n <= 4)%nat -> rtc (fun s s' => exists q, cap_scene_step s q s') (cap_kernel 0) (cap_kernel n).
Proof.
  induction n as [|n IH]; intros Hn; [apply rtc_refl|]. eapply rtc_r; [apply IH; lia|]. exists None.
  destruct (scene !! n) as [e|] eqn:E.
  - eapply cap_kernel_next; [exact E|apply cap_unused; lia|apply cap_unused; lia].
  - apply lookup_ge_None in E. cbn in E. lia.
Qed.
Lemma cap_calls_wf : Forall call_wf cap_calls.
Proof. repeat (apply Forall_cons; split; [vm_compute; repeat split; discriminate|]). done. Qed.
Lemma cap_scene_next n q : cap_calls !! n = Some q -> cap_scene_step (cap_scene n) (Some q) (cap_scene (S n)).
Proof.
  intros Hq. unfold cap_scene. rewrite (take_S_r _ _ _ Hq), fold_left_app. cbn [fold_left].
  apply (cs_call 60000 LimitProfile_default (demo_at 100) q). pose proof cap_calls_wf as Hw. rewrite Forall_lookup in Hw. exact (Hw _ _ Hq).
Qed.
Lemma cap_scene_steps n : (n <= 3)%nat -> rtc (fun s s' => exists q, cap_scene_step s q s') (cap_kernel 0) (cap_scene n).
Proof.
  induction n as [|n IH]; intros Hn; [by apply cap_kernel_steps|]. eapply rtc_r; [apply IH; lia|].
  destruct (cap_calls !! n) as [q|] eqn:E; [exists (Some q); by apply cap_scene_next|]. apply lookup_ge_None in E. cbn in E. lia.
Qed.
Lemma cap_scene_fresh : @fresh UtcLib cap_fresh.
Proof.
  split; [apply demo_rows|]. split; [done|]. split; [|done].
  intros id a. assert (db_artifacts (cy_db cap_fresh) = ∅) as -> by done. by rewrite lookup_empty.
Qed.
Lemma cap_scene_reach n : (n <= 3)%nat -> cap_scene_reachable (cap_scene n).
Proof.
  intros Hn. exists cap_fresh, cap_opened. split; [apply cap_scene_fresh|]. split; [by apply after_ok|].
  assert (cap_opened = cap_kernel 0) as -> by (unfold cap_kernel; by destruct cap_opened). by apply cap_scene_steps.
Qed.

(** ** The theorems at this history *)

Lemma live_lease_kept_witness : exists l l', cy_leases (cap_scene 3) !! MkId 82 = Some l /\
  cy_leases (after (cap_scene_call CcReconcile) (cap_scene 3)) !! MkId 82 = Some l' /\ same_holder l l'.
Proof.
  destruct (cy_leases (cap_scene 3) !! MkId 82) as [l|] eqn:E; [|by vm_compute in E]. exists l.
  assert (Ha : lease_live (cap_scene 3) l).
  { vm_compute in E. injection E as <-. eexists. split; [vm_compute; reflexivity|]. split; [reflexivity|]. split; [reflexivity|].
    left. vm_compute. reflexivity. }
  destruct (@live_lease_kept UtcLib UtcArith demo_sha scene_json braces_json demo_text UtcLaws UtcArithLaws 60000 LimitProfile_default
    default_profile (cap_scene 3) (Some CcReconcile) (after (cap_scene_call CcReconcile) (cap_scene 3)) (MkId 82) l (cap_scene_reach 3 (le_n 3))
    (cs_call 60000 LimitProfile_default (demo_at 100) CcReconcile (cap_scene 3) I) E Ha ltac:(discriminate)) as (l' & H1 & H2).
  exists l'. exact (conj eq_refl (conj H1 H2)).
Defined.
Lemma capacity_refines_kernel_witness : @kernel_step UtcLib UtcArith demo_sha scene_json braces_json demo_text 60000 LimitProfile_default
    (cy_db (cap_scene 2)) (cy_db (cap_scene 3)) /\ global_used (cap_scene 2) Subscriptions = 0 /\ global_used (cap_scene 3) Subscriptions = 1.
Proof.
  split; [|split; vm_compute; reflexivity].
  exact (proj1 (proj2 (@capacity_refines_kernel UtcLib UtcArith demo_sha scene_json braces_json demo_text UtcLaws UtcArithLaws 60000
    LimitProfile_default default_profile (cap_scene 2) _ (cap_scene 3) (cap_scene_reach 2 (le_S 2 2 (le_n 2))) (cap_scene_next 2 _ eq_refl)))).
Defined.
Definition cap_global : ReserveGlobalCapacity := MkReserveGlobalCapacity (MkId 83) Subscriptions 2.
Definition cap_reserved : Capacities := after (reserve_global_capacity LimitProfile_default (demo_at 100) cap_global) (cap_scene 3).
Lemma cap_reserves : exists r, reserve_global_capacity LimitProfile_default (demo_at 100) cap_global (cap_scene 3) = Ok (r, cap_reserved).
Proof.
  assert (E : is_ok (reserve_global_capacity LimitProfile_default (demo_at 100) cap_global (cap_scene 3)) = true) by (vm_compute; reflexivity).
  unfold cap_reserved, after, crun. destruct (reserve_global_capacity _ _ _ _) as [[r s']|e]; [by exists r|done].
Qed.
(** The reservation can then not be released either. *)
Lemma global_subscription_breaks_startup_witness : capacity_rows_valid (after reconcile_abandoned_subscriptions cap_reserved) = false /\
  (crun (release_global_capacity (demo_at 100) (MkId 83)) (after reconcile_abandoned_subscriptions cap_reserved)).2 = Err Corrupt.
Proof.
  split; [|vm_compute; reflexivity]. destruct cap_reserves as [r Hr].
  apply (@global_subscription_breaks_startup UtcLib UtcArith demo_sha scene_json braces_json demo_text UtcLaws UtcArithLaws 60000
    LimitProfile_default default_profile (demo_at 100) cap_global (cap_scene 3) r cap_reserved); [exact (cap_scene_reach 3 (le_n 3))|reflexivity| | |exact Hr|].
  - split; vm_compute; discriminate.
  - vm_compute; reflexivity.
  - apply after_ok. vm_compute; reflexivity.
Defined.
