(* ===== verification/SqliteArtifact.v ===== *)
(** * SqliteArtifact: the artifact transactions

    The commands of crates/navigator-store-api/src/artifact.rs with their digests, and
    [impl ArtifactStore for SqliteStore] of crates/navigator-store-sqlite/src/store.rs.
    A publication turns capacity reservations into an artifact, so that it runs over the
    tables [Capacities]; the other handlers are transactions over [Db].  The clock is read
    more than once within a handler; each reading is an argument. *)
From S2P Require Import Prelude Scalars Session Authority Capacity Artifact Approval StoreApi StoreWire Json Template Message OperationApi.
From S2P Require Import SqliteDb SqliteSession SqliteMailbox SqliteOperation SqliteCapacity.

(** ** Commands *)

Record PublishArtifact := MkPublishArtifact {
  pb_context : RequestContext;
  pb_session_id : SessionId;
  pb_owner : HostId;
  pb_epoch : FencingEpoch;
  pb_artifact_id : ArtifactId;
  pb_creator_participant_id : ParticipantId;
  pb_creator_operation_id : OperationId;
  pb_media_type : BoundedText MAX_MEDIA_TYPE_BYTES;
  pb_size : Z;
  pb_digest : ArtifactDigest;
  pb_locator : string;
  pb_retention_until : Timestamp;
  pb_artifact_reservation_id : RequestId;
  pb_byte_reservation_id : option RequestId;
}.
Definition publish_artifact_input (c : PublishArtifact) : bytes :=
  ci_identity (as_uuid (pb_session_id c)) ++ ci_identity (as_uuid (pb_artifact_id c)) ++
  ci_identity (as_uuid (pb_creator_participant_id c)) ++ ci_identity (as_uuid (pb_creator_operation_id c)) ++
  ci_identity (as_uuid (pb_owner c)) ++ ci_u64 (FencingEpoch_get (pb_epoch c)) ++
  ci_bytes (bytes_of_string (as_str (pb_media_type c))) ++ ci_u64 (pb_size c) ++
  ci_fixed (artifact_digest_bytes (pb_digest c)) ++ ci_bytes (bytes_of_string (pb_locator c)) ++
  ci_fixed (be_bytes 8 (unix_seconds (pb_retention_until c) mod 2 ^ 64)) ++ ci_u64 (nanoseconds (pb_retention_until c)) ++
  ci_identity (as_uuid (pb_artifact_reservation_id c)) ++
  ci_u64 (if is_some (pb_byte_reservation_id c) then 1 else 0) ++
  match pb_byte_reservation_id c with Some id => ci_identity (as_uuid id) | None => [] end.
#[global] Instance PublishArtifact_request `{!Sha256} : MutableRequest PublishArtifact := {|
  mr_context := pb_context;
  mr_action _ := ActPublishArtifact;
  mr_digest c := ci_finish (publish_artifact_input c) ActPublishArtifact;
|}.

Record DeleteArtifact := MkDeleteArtifact {
  da_context : RequestContext;
  da_session_id : SessionId;
  da_owner : HostId;
  da_epoch : FencingEpoch;
  da_artifact_id : ArtifactId;
}.
Definition delete_artifact_input (c : DeleteArtifact) : bytes :=
  ci_identity (as_uuid (da_session_id c)) ++ ci_identity (as_uuid (da_artifact_id c)) ++
  ci_identity (as_uuid (da_owner c)) ++ ci_u64 (FencingEpoch_get (da_epoch c)).
#[global] Instance DeleteArtifact_request `{!Sha256} : MutableRequest DeleteArtifact := {|
  mr_context := da_context;
  mr_action _ := ActDeleteArtifact;
  mr_digest c := ci_finish (delete_artifact_input c) ActDeleteArtifact;
|}.

Record EraseArtifact := MkEraseArtifact {
  ea_context : RequestContext;
  ea_session_id : SessionId;
  ea_owner : HostId;
  ea_epoch : FencingEpoch;
  ea_artifact_id : ArtifactId;
}.
Definition erase_artifact_input (c : EraseArtifact) : bytes :=
  ci_identity (as_uuid (ea_session_id c)) ++ ci_identity (as_uuid (ea_artifact_id c)) ++
  ci_identity (as_uuid (ea_owner c)) ++ ci_u64 (FencingEpoch_get (ea_epoch c)).
#[global] Instance EraseArtifact_request `{!Sha256} : MutableRequest EraseArtifact := {|
  mr_context := ea_context;
  mr_action _ := ActEraseArtifact;
  mr_digest c := ci_finish (erase_artifact_input c) ActEraseArtifact;
|}.

Record ArtifactAccess := MkArtifactAccess {
  aa_session_id : SessionId;
  aa_owner : HostId;
  aa_epoch : FencingEpoch;
  aa_artifact_id : ArtifactId;
}.

(** ** Rows *)

Definition artifact_state_name (s : ArtifactState) : string :=
  match s with
  | Available => "available"
  | LogicallyDeleted => "logically_deleted"
  | PhysicallyErased => "physically_erased"
  end.
Definition parse_artifact_state (s : string) : result StoreError ArtifactState :=
  if String.eqb s "available" then Ok Available
  else if String.eqb s "logically_deleted" then Ok LogicallyDeleted
  else if String.eqb s "physically_erased" then Ok PhysicallyErased
  else Err Corrupt.

Section rows.
Context {TL : TimeLib}.
Definition decode_artifact (id : ArtifactId) (c : ArtifactCols) : result StoreError ArtifactSnapshot :=
  state ← parse_artifact_state (af_state c);
  if negb (llen (af_digest c) =? 32) then Err Corrupt else
  participant ← ok_or Corrupt (af_creator_participant_id c);
  operation ← ok_or Corrupt (af_creator_operation_id c);
  media_type ← corrupt (BoundedText_new (af_media_type c));
  size ← to_u64 (af_size c);
  revision ← to_u64 (af_revision c);
  revision ← corrupt (Revision_new revision);
  retention_until ← decode_ts (af_retention_until c);
  created_at ← decode_ts (af_created_at c);
  deleted_at ← match af_deleted_at c with None => Ok None | Some t => Some <$> decode_ts t end;
  let a := MkArtifactSnapshot id (af_session_id c) participant operation media_type size (MkArtifactDigest (af_digest c))
    (af_locator c) state revision retention_until created_at deleted_at in
  if structurally_valid a then Ok a else Err Corrupt.

Definition load_artifact_in (id : ArtifactId) : Tx (option ArtifactSnapshot) :=
  d ← get;
  match db_artifacts d !! id with
  | Some c => a ← lift (decode_artifact id c); mret (Some a)
  | None => mret None
  end.
End rows.

Definition artifact_row (a : ArtifactSnapshot) (size : Z) : ArtifactCols :=
  MkArtifactCols (as_session_id a) (Some (as_creator_participant_id a)) (Some (as_creator_operation_id a))
    (as_str (as_media_type a)) size (artifact_digest_bytes (as_digest a)) (as_locator a) "available" 1
    (as_retention_until a) (as_created_at a) None.
(** [INSERT INTO artifacts]: the primary key, the foreign keys and the unique locator. *)
Definition insert_artifact (a : ArtifactSnapshot) : Tx unit :=
  size ← lift (to_i64 (as_size a));
  d ← get;
  if is_some (db_artifacts d !! as_artifact_id a) || is_none (db_sessions d !! as_session_id a)
     || is_none (db_participants d !! as_creator_participant_id a)
     || is_none (db_operations d !! as_creator_operation_id a)
     || existsb (fun r => String.eqb (af_locator r) (as_locator a)) (table_rows (db_artifacts d))
  then abort Unavailable
  else put (set_artifacts d (<[as_artifact_id a := artifact_row a size]> (db_artifacts d))).
(** [UPDATE artifacts .. WHERE artifact_id=? AND revision=?]. *)
Definition update_artifact (id : ArtifactId) (expected : Z) (f : ArtifactCols -> ArtifactCols) : Tx unit :=
  d ← get;
  match db_artifacts d !! id with
  | Some c => if af_revision c =? expected then put (set_artifacts d (<[id := f c]> (db_artifacts d))) else mret tt
  | None => mret tt
  end.
Definition cols_deleted (revision : Z) (now : Timestamp) (c : ArtifactCols) : ArtifactCols :=
  MkArtifactCols (af_session_id c) (af_creator_participant_id c) (af_creator_operation_id c) (af_media_type c) (af_size c)
    (af_digest c) (af_locator c) "logically_deleted" revision (af_retention_until c) (af_created_at c) (Some now).
Definition cols_erased (revision : Z) (c : ArtifactCols) : ArtifactCols :=
  MkArtifactCols (af_session_id c) (af_creator_participant_id c) (af_creator_operation_id c) (af_media_type c) (af_size c)
    (af_digest c) (af_locator c) "physically_erased" revision (af_retention_until c) (af_created_at c) (af_deleted_at c).

(** ** Handlers *)

(** A part of a transaction that touches only [Db] and records no failure. *)
Definition in_db {A} (m : Tx A) : CTx A := fun s =>
  match m (cy_db s) with
  | Next a d => Ok (a, with_db s d)
  | Abort e | Finished _ e => Err e
  end.

Section store.
Context {TL : TimeLib} {TA : TimeArith} {SH : Sha256} {JS : Json} {JR : JsonRaw} {UT : UuidText}.
Variable limit_profile : LimitProfile.

Definition replay_json_artifact {C} `{!MutableRequest C} (c : C) : Tx (option ArtifactSnapshot) :=
  stored ← replay_bytes c;
  match stored with
  | None => mret None
  | Some (LrArtifact a) => mret (Some a)
  | Some _ => abort Corrupt
  end.

Definition authorize_artifact (session_id : SessionId) (owner : HostId) (epoch : FencingEpoch) (observed : Timestamp) : Tx unit :=
  row ← require_open_session session_id ActPublishArtifact;
  now ← advance_time_floor session_id (sr_time_floor row) observed;
  lift (require_owner row owner epoch now).

(** [format!("{}/{}.blob", session_id, artifact_id)]. *)
Definition artifact_locator (session_id : SessionId) (id : ArtifactId) : string :=
  (uuid_text (as_uuid session_id) ++ "/" ++ uuid_text (as_uuid id) ++ ".blob")%string.

(** The checks of a publication, up to the snapshot. *)
Definition check_publication (observed now : Timestamp) (c : PublishArtifact) : Tx ArtifactSnapshot :=
  _ ← authorize_artifact (pb_session_id c) (pb_owner c) (pb_epoch c) observed;
  creator ← load_participant_in (pb_creator_participant_id c);
  creator ← lift (ok_or (ParticipantNotFound (pb_creator_participant_id c)) creator);
  operation ← load_operation_in (pb_creator_operation_id c);
  operation ← lift (ok_or (OperationNotFound (pb_creator_operation_id c)) operation);
  if neqb (ps_session_id creator) (pb_session_id c) || neqb (on_session_id operation) (pb_session_id c)
     || neqb (on_participant_id operation) (pb_creator_participant_id c)
  then abort Invalid else
  if negb (String.eqb (pb_locator c) (artifact_locator (pb_session_id c) (pb_artifact_id c))) || (MAX_ARTIFACT_BYTES <? pb_size c)
  then abort Invalid else
  let a := MkArtifactSnapshot (pb_artifact_id c) (pb_session_id c) (pb_creator_participant_id c) (pb_creator_operation_id c)
    (pb_media_type c) (pb_size c) (pb_digest c) (pb_locator c) Available Revision_initial (pb_retention_until c) now None in
  if structurally_valid a then mret a else abort Invalid.

Definition publish_artifact (observed now : Timestamp) (c : PublishArtifact) : CTx (Mutation ArtifactSnapshot) :=
  replayed ← in_db (replay_json_artifact c);
  match replayed with
  | Some a => mret (Replayed a)
  | None =>
  a ← in_db (check_publication observed now c);
  _ ← consume_capacity_reservation (pb_artifact_reservation_id c) (pb_session_id c) (pb_creator_participant_id c) Artifacts 1 now;
  _ ← (match pb_byte_reservation_id c with
       | None => if pb_size c =? 0 then mret tt else cfail Invalid
       | Some id =>
           if pb_size c =? 0 then cfail Invalid
           else consume_capacity_reservation id (pb_session_id c) (pb_creator_participant_id c) ArtifactBytes (pb_size c) now
       end);
  in_db (
    _ ← ensure_derived_capacity limit_profile (pb_session_id c) Artifacts 1;
    _ ← ensure_derived_capacity limit_profile (pb_session_id c) ArtifactBytes (pb_size c);
    _ ← insert_artifact a;
    _ ← append_event (rc_request_id (pb_context c)) (pb_session_id c) (as_revision a) "artifact.published" now;
    _ ← record_bytes (pb_session_id c) c SeApplied (LrArtifact a);
    mret (Applied a))
  end.

Definition load_artifact (observed : Timestamp) (c : ArtifactAccess) : Tx ArtifactSnapshot :=
  _ ← authorize_artifact (aa_session_id c) (aa_owner c) (aa_epoch c) observed;
  found ← load_artifact_in (aa_artifact_id c);
  match found with
  | Some a =>
      if eqb (as_session_id a) (aa_session_id c) && bool_decide (as_state a = Available) then mret a
      else abort (ArtifactNotFound (aa_artifact_id c))
  | None => abort (ArtifactNotFound (aa_artifact_id c))
  end.

(** [transition_artifact] with [erased = false], its only use. *)
Definition logically_delete_artifact (observed now : Timestamp) (c : DeleteArtifact) : Tx (Mutation ArtifactSnapshot) :=
  replayed ← replay_json_artifact c;
  match replayed with
  | Some a => mret (Replayed a)
  | None =>
  _ ← authorize_artifact (da_session_id c) (da_owner c) (da_epoch c) observed;
  found ← load_artifact_in (da_artifact_id c);
  a ← lift (ok_or (ArtifactNotFound (da_artifact_id c)) found);
  if neqb (as_session_id a) (da_session_id c) then abort Invalid else
  if negb (bool_decide (as_state a = Available)) then abort Invalid else
  revision ← lift (ok_or Corrupt (Revision_next (as_revision a)));
  let a := MkArtifactSnapshot (as_artifact_id a) (as_session_id a) (as_creator_participant_id a) (as_creator_operation_id a)
    (as_media_type a) (as_size a) (as_digest a) (as_locator a) LogicallyDeleted revision (as_retention_until a)
    (as_created_at a) (Some now) in
  stored ← lift (to_i64 (Revision_get revision));
  expected ← lift (to_i64 (Revision_get revision - 1));
  _ ← update_artifact (as_artifact_id a) expected (cols_deleted stored now);
  _ ← append_event (rc_request_id (da_context c)) (da_session_id c) revision "artifact.logically_deleted" now;
  _ ← record_bytes (da_session_id c) c SeApplied (LrArtifact a);
  mret (Applied a)
  end.

(** [ORDER BY retention_seconds,retention_nanos,artifact_id]. *)
Definition retention_leb (x y : ArtifactId * ArtifactCols) : bool :=
  Timestamp_ltb (af_retention_until x.2) (af_retention_until y.2)
  || bool_decide (af_retention_until x.2 = af_retention_until y.2) && (as_uuid x.1 <=? as_uuid y.1).
Definition retention_le (x y : ArtifactId * ArtifactCols) : Prop := retention_leb x y = true.
#[global] Instance retention_le_dec x y : Decision (retention_le x y) := decide (retention_leb x y = true).
Definition retention_eligible_artifacts (now : Timestamp) (limit : Z) : Tx (list ArtifactSnapshot) :=
  if (limit =? 0) || (1024 <? limit) then abort Invalid else
  d ← get;
  let rows := filter (fun e => String.eqb (af_state e.2) "logically_deleted" && Timestamp_leb (af_retention_until e.2) now = true)
    (map_to_list (db_artifacts d)) in
  lift (collect (fun e => decode_artifact e.1 e.2) (take (Z.to_nat limit) (merge_sort retention_le rows))).

Definition erasable (checked : Timestamp) (session_id : SessionId) (a : ArtifactSnapshot) : bool :=
  eqb (as_session_id a) session_id && bool_decide (as_state a = LogicallyDeleted)
  && negb (Timestamp_ltb checked (as_retention_until a)).

Definition authorize_physical_erasure (observed checked : Timestamp) (c : EraseArtifact) : Tx ArtifactSnapshot :=
  replayed ← replay_json_artifact c;
  match replayed with
  | Some a => if bool_decide (as_state a = PhysicallyErased) then mret a else abort Corrupt
  | None =>
  _ ← authorize_artifact (ea_session_id c) (ea_owner c) (ea_epoch c) observed;
  found ← load_artifact_in (ea_artifact_id c);
  a ← lift (ok_or (ArtifactNotFound (ea_artifact_id c)) found);
  if erasable checked (ea_session_id c) a then mret a else abort Invalid
  end.

(** [transition_erased]. *)
Definition record_physical_erasure (observed checked now : Timestamp) (c : EraseArtifact) : Tx (Mutation ArtifactSnapshot) :=
  replayed ← replay_json_artifact c;
  match replayed with
  | Some a => mret (Replayed a)
  | None =>
  _ ← authorize_artifact (ea_session_id c) (ea_owner c) (ea_epoch c) observed;
  found ← load_artifact_in (ea_artifact_id c);
  a ← lift (ok_or (ArtifactNotFound (ea_artifact_id c)) found);
  if negb (erasable checked (ea_session_id c) a) then abort Invalid else
  revision ← lift (ok_or Corrupt (Revision_next (as_revision a)));
  let a := MkArtifactSnapshot (as_artifact_id a) (as_session_id a) (as_creator_participant_id a) (as_creator_operation_id a)
    (as_media_type a) (as_size a) (as_digest a) (as_locator a) PhysicallyErased revision (as_retention_until a)
    (as_created_at a) (as_deleted_at a) in
  stored ← lift (to_i64 (Revision_get revision));
  expected ← lift (to_i64 (Revision_get revision - 1));
  _ ← update_artifact (as_artifact_id a) expected (cols_erased stored);
  _ ← append_event (rc_request_id (ea_context c)) (ea_session_id c) revision "artifact.physically_erased" now;
  _ ← record_bytes (ea_session_id c) c SeApplied (LrArtifact a);
  mret (Applied a)
  end.
End store.
