(* ===== verification/ArtifactLedger.v ===== *)
(** * ArtifactLedger: what the artifact transactions do

    The rows of artifacts as the snapshots they hold, and the contract of each handler of
    SqliteArtifact.v: who may call it, which row it adds or moves, and that it touches
    nothing else but the session's clock floor, the event log and the ledger. *)
From S2P Require Import Prelude Scalars Session Authority Capacity Artifact Approval StoreApi StoreWire Json Template Message OperationApi.
From S2P Require Import SqliteDb SqliteSession SessionLedger Ownership SqliteMailbox Tables SqliteOperation SqliteLaunch MailboxLedger Footprint OperationLedger Participants Kernel.
From S2P Require Import SqliteCapacity CapacityLedger CapacityCalls SqliteArtifact.

(** ** Rows *)

Definition artifact_cols (a : ArtifactSnapshot) : ArtifactCols :=
  MkArtifactCols (as_session_id a) (Some (as_creator_participant_id a)) (Some (as_creator_operation_id a))
    (as_str (as_media_type a)) (as_size a) (artifact_digest_bytes (as_digest a)) (as_locator a)
    (artifact_state_name (as_state a)) (Revision_get (as_revision a)) (as_retention_until a) (as_created_at a) (as_deleted_at a).
Definition deleted_artifact (a : ArtifactSnapshot) (now : Timestamp) : ArtifactSnapshot :=
  MkArtifactSnapshot (as_artifact_id a) (as_session_id a) (as_creator_participant_id a) (as_creator_operation_id a)
    (as_media_type a) (as_size a) (as_digest a) (as_locator a) LogicallyDeleted (MkRevision (Revision_get (as_revision a) + 1))
    (as_retention_until a) (as_created_at a) (Some now).
Definition erased_artifact (a : ArtifactSnapshot) : ArtifactSnapshot :=
  MkArtifactSnapshot (as_artifact_id a) (as_session_id a) (as_creator_participant_id a) (as_creator_operation_id a)
    (as_media_type a) (as_size a) (as_digest a) (as_locator a) PhysicallyErased (MkRevision (Revision_get (as_revision a) + 1))
    (as_retention_until a) (as_created_at a) (as_deleted_at a).

Lemma parse_artifact_state_name s : parse_artifact_state (artifact_state_name s) = Ok s.
Proof. by destruct s. Qed.

Section rows.
Context {TL : TimeLib} {TLaws : TimeLaws}.
Record artifact_wf (a : ArtifactSnapshot) : Prop := {
  aw_media : BoundedText_new (as_str (as_media_type a)) = Ok (as_media_type a);
  aw_size : 0 <= as_size a;
  aw_digest : llen (artifact_digest_bytes (as_digest a)) = 32;
  aw_revision : 0 < Revision_get (as_revision a);
  aw_retention : Timestamp_wf (as_retention_until a);
  aw_created : Timestamp_wf (as_created_at a);
  aw_deleted : forall t, as_deleted_at a = Some t -> Timestamp_wf t;
  aw_valid : structurally_valid a = true;
}.
Lemma decode_cols a : artifact_wf a -> decode_artifact (as_artifact_id a) (artifact_cols a) = Ok a.
Proof.
  intros [Hm Hs Hd Hr Ht1 Ht2 Ht3 Hv]. unfold decode_artifact, artifact_cols. cbn -[llen to_u64].
  rewrite parse_artifact_state_name, bind_of_Ok, Hd, Z.eqb_refl. cbn [negb ok_or]. unfold corrupt. rewrite Hm. cbn [map_err]. rewrite bind_of_Ok.
  unfold to_u64. rewrite !(proj2 (Z.leb_le _ _)) by lia. rewrite !bind_of_Ok. unfold Revision_new.
  rewrite (proj2 (Z.eqb_neq _ _)) by lia. cbn [map_err]. rewrite bind_of_Ok, !decode_ts_wf, !bind_of_Ok by done.
  destruct a as [id sid p o m sz [dg] loc st [rev] ret cr del]; cbn -[structurally_valid] in *.
  destruct del as [t|]; cbn -[structurally_valid]; [rewrite decode_ts_wf by (by apply Ht3)|]; cbn -[structurally_valid]; by rewrite Hv.
Qed.
Lemma structurally_deleted a now : structurally_valid a = true -> structurally_valid (deleted_artifact a now) = true.
Proof. unfold structurally_valid. cbn. rewrite !andb_true_iff. tauto. Qed.
Lemma structurally_erased a : structurally_valid a = true -> as_state a = LogicallyDeleted -> structurally_valid (erased_artifact a) = true.
Proof. unfold structurally_valid. cbn. rewrite !andb_true_iff. intros [? Hd] E. rewrite E in Hd. by split. Qed.
Lemma wf_deleted a now : artifact_wf a -> Timestamp_wf now -> artifact_wf (deleted_artifact a now).
Proof.
  intros [Hm Hs Hd Hr Ht1 Ht2 Ht3 Hv] Hn. split; cbn; try done; [lia|by intros t [= <-]|by apply structurally_deleted].
Qed.
Lemma wf_erased a : artifact_wf a -> as_state a = LogicallyDeleted -> artifact_wf (erased_artifact a).
Proof. intros [Hm Hs Hd Hr Ht1 Ht2 Ht3 Hv] Hn. split; cbn; try done; [lia|by apply structurally_erased]. Qed.
End rows.

(** ** Contracts *)

Section contracts.
Context {TL : TimeLib} {TA : TimeArith} {SH : Sha256} {JS : Json} {JR : JsonRaw} {UT : UuidText}.
Context {TLaws : TimeLaws} {TALaws : TimeArithLaws}.
Variable max_lease_millis : Z.
Variable profile : LimitProfile.
Abbreviation kernel_step := (kernel_step max_lease_millis profile).

(** Every row holds a well-formed artifact at the place its identity says. *)
Record artifact_ok (id : ArtifactId) (c : ArtifactCols) (a : ArtifactSnapshot) : Prop := {
  ao_cols : c = artifact_cols a;
  ao_id : as_artifact_id a = id;
  ao_wf : artifact_wf a;
  ao_locator : as_locator a = artifact_locator (as_session_id a) id;
}.
Definition artifacts_ok (d : Db) : Prop := forall id c, db_artifacts d !! id = Some c -> exists a, artifact_ok id c a.
Lemma artifact_decodes id c a : artifact_ok id c a -> decode_artifact id c = Ok a.
Proof. intros [-> <- Hw _]. by apply decode_cols. Qed.

(** The host owns the open session with this epoch, at the store's time of the call. *)
Definition owner_at (d : Db) (sid : SessionId) (owner : HostId) (epoch : FencingEpoch) (observed : Timestamp) : Prop :=
  exists c row l, db_sessions d !! sid = Some c /\ decode_session sid c = Ok row /\ ss_status (sr_snapshot row) <> Closed /\
    sr_owner row = Some l /\ ol_owner l = owner /\ ol_epoch l = epoch /\
    Timestamp_lt (Timestamp_max (sr_time_floor row) observed) (ol_expires_at l).
(** The clock floor of a session was advanced, as the kernel does it. *)
Definition floor_moved (d d' : Db) : Prop := kernel_step d d' /\ exists ss, d' = set_sessions d ss.

Lemma open_any_action sid a a' d row d' : require_open_session sid a d = Next row d' -> require_open_session sid a' d = Next row d'.
Proof.
  unfold require_open_session, mbind, tx_bind. destruct (load_session_in sid d) as [o d1| |]; [|done..].
  destruct (lift _ d1) as [r d2| |]; [|done..]. by case_bool_decide.
Qed.
Lemma authorize_artifact_ok sid owner epoch observed d : Timestamp_wf observed ->
  wp (authorize_artifact sid owner epoch observed) (fun _ d' => owner_at d sid owner epoch observed /\ floor_moved d d') (fun _ => False) d.
Proof.
  intros Hn. unfold authorize_artifact. apply wp_bind, wp_quiet; [apply quiet_require_open_session|]. intros row d1 Hopen.
  pose proof (require_open_session_Next _ _ _ _ _ Hopen) as (-> & c & Hc & Hrow & Hst).
  apply wp_bind, wp_quiet; [apply quiet_advance|]. intros t d2 Hadv. pose proof (advance_time_floor_Next _ _ _ _ _ _ Hadv) as [-> ->].
  apply wp_lift. intros [] (l & Hl & He & Ho & Ht)%require_owner_Ok. split; [by exists c, row, l|]. split.
  - assert (E : run (seal_expiry sid owner epoch observed) d = (advance sid (Timestamp_max (sr_time_floor row) observed) d,
      Ok (require_owner row owner epoch (Timestamp_max (sr_time_floor row) observed)))).
    { unfold run, seal_expiry, mbind, tx_bind. rewrite (open_any_action _ _ ActPrepareLaunch _ _ _ Hopen), Hadv. done. }
    pose proof (ks_seal max_lease_millis profile sid owner epoch observed d Hn) as Hk. by rewrite E in Hk.
  - unfold advance. rewrite Hc. by eexists.
Qed.

(** After authorization: the artifacts, the event log and the ledger. *)
Definition artifact_write (d d' : Db) (arts : gmap ArtifactId ArtifactCols) : Prop :=
  exists d1 ev lg, floor_moved d d1 /\ d' = set_ledger (set_events (set_artifacts d1 arts) ev) lg.
Lemma write_steps d d' arts : artifact_write d d' arts -> rtc kernel_step d d' /\ db_artifacts d' = arts /\
  db_session_usage d' = db_session_usage d /\ db_global_usage d' = db_global_usage d.
Proof.
  intros (d1 & ev & lg & [Hk [ss ->]] & ->). split; [|done]. eapply rtc_l; [exact Hk|]. apply rtc_once. by apply ks_other.
Qed.
Lemma append_record {C} `{!MutableRequest C} rid sid rev ty now (c : C) v (x : Mutation ArtifactSnapshot) d (Q : Mutation ArtifactSnapshot -> Db -> Prop) :
  (forall ev lg, Q x (set_ledger (set_events d ev) lg)) ->
  wp (_ ← append_event rid sid rev ty now; _ ← record_bytes sid c SeApplied v; mret x) Q (fun _ => False) d.
Proof.
  intros HQ. apply wp_bind, wp_quiet; [apply quiet_append|]. intros [] d1 [_ ->]%append_event_data_Next.
  apply wp_bind, wp_quiet; [apply quiet_insert_ledger|]. intros [] d2 [_ ->]%insert_ledger_Next. apply wp_ret, HQ.
Qed.
Lemma replay_artifact_quiet {C} `{!MutableRequest C} (c : C) d : wp (replay_json_artifact c) (fun _ d' => d' = d) (fun _ => False) d.
Proof.
  apply wp_bind, wp_quiet; [apply quiet_replay_bytes|].
  intros r d1 [-> _]%replay_bytes_Next. destruct r as [[]|]; try apply wp_abort; by apply wp_ret.
Qed.
Lemma replay_artifact_ok {C A} `{!MutableRequest C} (c : C) (k : option ArtifactSnapshot -> Tx A) (Q : A -> Db -> Prop) d :
  (forall o, wp (k o) Q (fun _ => False) d) -> wp (replay_json_artifact c ≫= k) Q (fun _ => False) d.
Proof.
  intros Hk. apply wp_bind. eapply wp_mono; [apply replay_artifact_quiet| |done]. by intros o d1 ->.
Qed.
Lemma load_artifact_ok {A} id (k : option ArtifactSnapshot -> Tx A) (Q : A -> Db -> Prop) d : artifacts_ok d ->
  (forall c a, db_artifacts d !! id = Some c -> artifact_ok id c a -> wp (k (Some a)) Q (fun _ => False) d) ->
  wp (k None) Q (fun _ => False) d -> wp (load_artifact_in id ≫= k) Q (fun _ => False) d.
Proof.
  intros Hok Hs Hn. apply wp_bind. unfold load_artifact_in. apply wp_bind, wp_get. destruct (db_artifacts d !! id) as [c|] eqn:E.
  - destruct (Hok _ _ E) as [a Ha]. apply wp_bind, wp_lift. rewrite (artifact_decodes _ _ _ Ha). intros _ [= <-]. apply wp_ret. by eapply Hs.
  - by apply wp_ret.
Qed.
Lemma moved_artifacts d d1 : floor_moved d d1 -> db_artifacts d1 = db_artifacts d.
Proof. by intros [_ [ss ->]]. Qed.
Lemma update_artifact_ok {A} id expected f (k : Tx A) (Q : A -> Db -> Prop) c d : db_artifacts d !! id = Some c -> af_revision c = expected ->
  wp k Q (fun _ => False) (set_artifacts d (<[id := f c]> (db_artifacts d))) ->
  wp (_ ← update_artifact id expected f; k) Q (fun _ => False) d.
Proof. intros Hc He Hk. apply wp_bind. unfold update_artifact. apply wp_bind, wp_get. rewrite Hc, He, Z.eqb_refl. by apply wp_put. Qed.

(** *** Reads *)

Lemma load_contract observed c d : artifacts_ok d -> Timestamp_wf observed ->
  wp (load_artifact observed c) (fun _ d' => floor_moved d d') (fun _ => False) d.
Proof.
  intros Hok Hn. apply wp_bind. eapply wp_mono; [by apply authorize_artifact_ok| |done]. intros [] d1 [_ Hm].
  apply load_artifact_ok; [unfold artifacts_ok; by rewrite (moved_artifacts _ _ Hm)| |apply wp_abort].
  intros row a _ _. case_match; [by apply wp_ret|apply wp_abort].
Qed.
Lemma authorize_erasure_contract observed checked c d : artifacts_ok d -> Timestamp_wf observed ->
  wp (authorize_physical_erasure observed checked c) (fun _ d' => d' = d \/ floor_moved d d') (fun _ => False) d.
Proof.
  intros Hok Hn. apply replay_artifact_ok. intros [a|]; [case_bool_decide; [apply wp_ret; by left|apply wp_abort]|].
  apply wp_bind. eapply wp_mono; [by apply authorize_artifact_ok| |done]. intros [] d1 [_ Hm].
  apply load_artifact_ok; [unfold artifacts_ok; by rewrite (moved_artifacts _ _ Hm)| |apply wp_bind, wp_lift; done].
  intros row a _ _. apply wp_bind, wp_lift. intros _ [= <-]. case_match; [apply wp_ret; by right|apply wp_abort].
Qed.

(** *** Deletion and erasure *)

Definition deletes (observed now : Timestamp) (c : DeleteArtifact) (d d' : Db) : Prop :=
  exists row a, db_artifacts d !! da_artifact_id c = Some row /\ artifact_ok (da_artifact_id c) row a /\
    as_session_id a = da_session_id c /\ as_state a = Available /\
    owner_at d (da_session_id c) (da_owner c) (da_epoch c) observed /\
    artifact_write d d' (<[da_artifact_id c := artifact_cols (deleted_artifact a now)]> (db_artifacts d)).
Definition erases (observed checked : Timestamp) (c : EraseArtifact) (d d' : Db) : Prop :=
  exists row a, db_artifacts d !! ea_artifact_id c = Some row /\ artifact_ok (ea_artifact_id c) row a /\
    as_session_id a = ea_session_id c /\ as_state a = LogicallyDeleted /\ Timestamp_le (as_retention_until a) checked /\
    owner_at d (ea_session_id c) (ea_owner c) (ea_epoch c) observed /\
    artifact_write d d' (<[ea_artifact_id c := artifact_cols (erased_artifact a)]> (db_artifacts d)).

Lemma delete_contract observed now c d : artifacts_ok d -> Timestamp_wf observed ->
  wp (logically_delete_artifact observed now c) (fun m d' => match m with Applied _ => deletes observed now c d d' | _ => d' = d end)
    (fun _ => False) d.
Proof.
  intros Hok Hn. apply replay_artifact_ok. intros [a|]; [by apply wp_ret|].
  apply wp_bind. eapply wp_mono; [by apply authorize_artifact_ok| |done]. intros [] d1 [Ho Hm].
  apply load_artifact_ok; [unfold artifacts_ok; by rewrite (moved_artifacts _ _ Hm)| |by apply wp_bind, wp_lift].
  intros row a Hrow Ha. apply wp_bind, wp_lift. intros _ [= <-]. unfold neqb. case_match eqn:Es; [apply wp_abort|].
  apply negb_false_iff, bool_decide_eq_true in Es. case_bool_decide as Est; [|apply wp_abort].
  apply wp_bind, wp_lift. intros [rev] [Hrev _]%ok_or_Ok%Revision_next_Some. cbn in Hrev. subst rev.
  apply wp_bind, wp_lift. intros stored Hst. apply wp_bind, wp_lift. intros expected Hex. unfold to_i64 in *. inv_result.
  cbn [Revision_get as_artifact_id] in *. rewrite (ao_id _ _ _ Ha).
  eapply update_artifact_ok; [exact Hrow|rewrite (ao_cols _ _ _ Ha); cbn; lia|]. apply append_record. intros ev lg.
  rewrite (moved_artifacts _ _ Hm) in Hrow. exists row, a. split_and!; try done. exists d1, ev, lg. split; [done|].
  rewrite (ao_cols _ _ _ Ha). rewrite (moved_artifacts _ _ Hm). done.
Qed.
Lemma erase_contract observed checked now c d : artifacts_ok d -> Timestamp_wf observed ->
  wp (record_physical_erasure observed checked now c)
    (fun m d' => match m with Applied _ => erases observed checked c d d' | _ => d' = d end) (fun _ => False) d.
Proof.
  intros Hok Hn. apply replay_artifact_ok. intros [a|]; [by apply wp_ret|].
  apply wp_bind. eapply wp_mono; [by apply authorize_artifact_ok| |done]. intros [] d1 [Ho Hm].
  apply load_artifact_ok; [unfold artifacts_ok; by rewrite (moved_artifacts _ _ Hm)| |by apply wp_bind, wp_lift].
  intros row a Hrow Ha. apply wp_bind, wp_lift. intros _ [= <-]. case_match eqn:Es; [apply wp_abort|].
  unfold erasable in Es. rewrite negb_false_iff, !andb_true_iff, negb_true_iff in Es.
  destruct Es as [[Es%bool_decide_eq_true Est%bool_decide_eq_true] Ht%Timestamp_ltb_ge].
  apply wp_bind, wp_lift. intros [rev] [Hrev _]%ok_or_Ok%Revision_next_Some. cbn in Hrev. subst rev.
  apply wp_bind, wp_lift. intros stored Hst. apply wp_bind, wp_lift. intros expected Hex. unfold to_i64 in *. inv_result.
  cbn [Revision_get as_artifact_id] in *. rewrite (ao_id _ _ _ Ha).
  eapply update_artifact_ok; [exact Hrow|rewrite (ao_cols _ _ _ Ha); cbn; lia|]. apply append_record. intros ev lg.
  rewrite (moved_artifacts _ _ Hm) in Hrow. exists row, a. split_and!; try done. exists d1, ev, lg. split; [done|].
  rewrite (ao_cols _ _ _ Ha). rewrite (moved_artifacts _ _ Hm). done.
Qed.

(** *** Publication *)

(** What a capacity transaction does when it succeeds. *)
Definition cok {A} (m : CTx A) (Q : A -> Capacities -> Prop) (s : Capacities) : Prop := forall a s', m s = Ok (a, s') -> Q a s'.
Lemma cok_bind {A B} (m : CTx B) (f : B -> CTx A) Q s : cok m (fun b s' => cok (f b) Q s') s -> cok (m ≫= f) Q s.
Proof. unfold cok, mbind, ctx_bind. intros H a s'. destruct (m s) as [[b s1]|e] eqn:E; [|done]. by apply (H _ _ eq_refl). Qed.
Lemma cok_ret {A} (a : A) (Q : A -> Capacities -> Prop) s : Q a s -> cok (mret a) Q s.
Proof. by intros HQ a' s' [= <- <-]. Qed.
Lemma cok_fail {A} e (Q : A -> Capacities -> Prop) s : cok (cfail e) Q s.
Proof. done. Qed.
Lemma cok_db {A} (m : Tx A) (Q : A -> Capacities -> Prop) (F : Db -> Prop) s : wp m (fun a d' => Q a (with_db s d')) F (cy_db s) -> cok (in_db m) Q s.
Proof. unfold wp, cok, in_db. destruct (m (cy_db s)) as [a d'| |]; [|done..]. by intros HQ a' s' [= <- <-]. Qed.

(** The capacity check: there is room in the session for the amount. *)
Lemma ensure_ok {A} sid res n (k : Tx A) (Q : A -> Db -> Prop) (F : Db -> Prop) d :
  ((exists l, LimitProfile_get profile res = Some l /\
     (derived_capacity_usage d sid res).1 + default 0 (db_session_usage d !! (sid, res)) + n <= per_session l) -> wp k Q F d) ->
  wp (_ ← ensure_derived_capacity profile sid res n; k) Q F d.
Proof.
  intros Hk. apply wp_bind. unfold ensure_derived_capacity. apply wp_bind, wp_get. cbv zeta.
  apply wp_bind, wp_lift. intros ds Hds. apply wp_bind, wp_lift. intros dg Hdg. apply wp_bind, wp_lift. intros rs Hrs.
  apply wp_bind, wp_lift. intros rg Hrg. apply wp_bind, wp_lift. intros l Hl%ok_or_Ok. unfold to_u64 in *. inv_result.
  case_match eqn:Eroom; [apply wp_abort|]. case_match; [apply wp_abort|]. apply wp_ret, Hk. exists l. split; [done|].
  unfold is_none_or, checked_add_u64 in Eroom. repeat (case_match; cbn in *; try done). simplify_eq. by apply Z.ltb_ge in Eroom.
Qed.

Definition published (c : PublishArtifact) (now : Timestamp) : ArtifactSnapshot :=
  MkArtifactSnapshot (pb_artifact_id c) (pb_session_id c) (pb_creator_participant_id c) (pb_creator_operation_id c)
    (pb_media_type c) (pb_size c) (pb_digest c) (pb_locator c) Available Revision_initial (pb_retention_until c) now None.
(** What the types of the command guarantee. *)
Definition publish_wf (c : PublishArtifact) : Prop :=
  BoundedText_new (as_str (pb_media_type c)) = Ok (pb_media_type c) /\ u64 (pb_size c) /\
  llen (artifact_digest_bytes (pb_digest c)) = 32 /\ Timestamp_wf (pb_retention_until c).

Lemma check_publication_ok observed now c d : Timestamp_wf observed ->
  wp (check_publication observed now c) (fun a d' => a = published c now /\ floor_moved d d' /\
    owner_at d (pb_session_id c) (pb_owner c) (pb_epoch c) observed /\ structurally_valid a = true /\
    pb_locator c = artifact_locator (pb_session_id c) (pb_artifact_id c)) (fun _ => True) d.
Proof.
  intros Hn. apply wp_bind. eapply wp_mono; [by apply authorize_artifact_ok| |done]. intros [] d1 [Ho Hm].
  apply wp_bind, wp_read; [within_auto|done|]. intros p _. apply wp_bind, wp_lift. intros creator _.
  apply wp_bind, wp_read; [within_auto|done|]. intros o _. apply wp_bind, wp_lift. intros operation _.
  case_match; [apply wp_abort|]. case_match eqn:El; [apply wp_abort|]. cbv zeta. fold (published c now).
  case_match eqn:Ev; [|apply wp_abort]. apply wp_ret. split_and!; try done.
  apply orb_false_iff in El as [El _]. apply negb_false_iff in El. by apply String.eqb_eq in El.
Qed.

(** A publication: the clock floor moves, the reservations are consumed, there is room in
    the session, and the row is added. *)
Record publishes (observed now : Timestamp) (c : PublishArtifact) (s s1 s2 s3 s' : Capacities) : Prop := {
  pb_moved : exists d1, floor_moved (cy_db s) d1 /\ s1 = with_db s d1;
  pb_owned : owner_at (cy_db s) (pb_session_id c) (pb_owner c) (pb_epoch c) observed;
  pb_slot : consume_capacity_reservation (pb_artifact_reservation_id c) (pb_session_id c) (pb_creator_participant_id c)
    Artifacts 1 now s1 = Ok (tt, s2);
  pb_bytes : match pb_byte_reservation_id c with
    | None => pb_size c = 0 /\ s3 = s2
    | Some id => consume_capacity_reservation id (pb_session_id c) (pb_creator_participant_id c) ArtifactBytes (pb_size c) now s2 = Ok (tt, s3)
    end;
  pb_room : forall res n, (res, n) = (Artifacts, 1) \/ (res, n) = (ArtifactBytes, pb_size c) ->
    exists l, LimitProfile_get profile res = Some l /\
      (derived_capacity_usage (cy_db s3) (pb_session_id c) res).1 + session_used s3 (pb_session_id c) res + n <= per_session l;
  pb_new : db_artifacts (cy_db s3) !! pb_artifact_id c = None;
  pb_valid : structurally_valid (published c now) = true /\ pb_locator c = artifact_locator (pb_session_id c) (pb_artifact_id c);
  pb_written : exists ev lg, s' = with_db s3 (set_ledger (set_events (set_artifacts (cy_db s3)
    (<[pb_artifact_id c := artifact_cols (published c now)]> (db_artifacts (cy_db s3)))) ev) lg);
}.
Lemma publish_contract observed now c s : Timestamp_wf observed ->
  cok (publish_artifact profile observed now c) (fun m s' => match m with
    | Applied _ => exists s1 s2 s3, publishes observed now c s s1 s2 s3 s' | _ => s' = s end) s.
Proof.
  intros Hn. apply cok_bind. eapply cok_db, wp_mono; [apply replay_artifact_quiet| |done]. intros [a|] d0 ->; [by apply cok_ret; destruct s|].
  assert (with_db s (cy_db s) = s) as -> by by destruct s.
  apply cok_bind. eapply cok_db, wp_mono; [by apply check_publication_ok| |done]. intros a d1 (-> & Hm & Ho & Hv & Hloc).
  apply cok_bind. intros [] s2 Hs2. apply cok_bind.
  enough (Hrest : forall s3, match pb_byte_reservation_id c with
    | None => pb_size c = 0 /\ s3 = s2
    | Some id => consume_capacity_reservation id (pb_session_id c) (pb_creator_participant_id c) ArtifactBytes (pb_size c) now s2 = Ok (tt, s3)
    end -> cok (in_db (_ ← ensure_derived_capacity profile (pb_session_id c) Artifacts 1;
      _ ← ensure_derived_capacity profile (pb_session_id c) ArtifactBytes (pb_size c);
      _ ← insert_artifact (published c now);
      _ ← append_event (rc_request_id (pb_context c)) (pb_session_id c) (as_revision (published c now)) "artifact.published" now;
      _ ← record_bytes (pb_session_id c) c SeApplied (LrArtifact (published c now));
      mret (Applied (published c now))))
      (fun m s' => match m with Applied _ => exists s1 s2 s3, publishes observed now c s s1 s2 s3 s' | _ => s' = s end) s3).
  { destruct (pb_byte_reservation_id c) as [id|]; destruct (Z.eqb_spec (pb_size c) 0) as [Hz|Hz]; try apply cok_fail.
    - intros [] s3 Hs3. by apply Hrest.
    - apply cok_ret. by apply Hrest. }
  intros s3 Hs3. eapply (cok_db _ _ (fun _ => False)). apply ensure_ok. intros R1. apply ensure_ok. intros R2.
  apply wp_bind. unfold insert_artifact. apply wp_bind, wp_lift. intros size Hsz. unfold to_i64 in Hsz. inv_result.
  apply wp_bind, wp_get. 
  match goal with |- wp (if ?b then _ else _) _ _ _ => destruct b eqn:Eins end; [apply wp_abort|]. rewrite !orb_false_iff in Eins. destruct Eins as [[[[Hnew _] _] _] _].
  apply wp_put, append_record. intros ev lg. exists (with_db s d1), s2, s3. split; try done.
  - by exists d1.
  - intros res n [[= -> ->]|[= -> ->]]; done.
  - cbn in Hnew. by destruct (db_artifacts (cy_db s3) !! pb_artifact_id c).
  - by exists ev, lg.
Qed.
End contracts.
