(* ===== verification/ArtifactHistory.v ===== *)
(** * ArtifactHistory: artifacts over all histories of the store

    The artifact transactions of SqliteArtifact.v beside capacity and the kernel.  From
    the contracts of ArtifactLedger.v: an artifact keeps its content and place and only
    moves from available to deleted to erased, each time by the owner of its session and
    erased only after its retention; and what a session has published and reserved
    together never exceeds its limits. *)
From S2P Require Import Prelude Scalars Session Authority Capacity Artifact Approval StoreApi StoreWire Json Template Message OperationApi.
From S2P Require Import SqliteDb SqliteSession SessionLedger Ownership SqliteMailbox Tables SqliteOperation SqliteLaunch MailboxLedger Footprint OperationLedger Participants Kernel.
From S2P Require Import SqliteCapacity CapacityLedger CapacityCalls CapacityHistory SqliteArtifact ArtifactLedger Scenario.

Inductive ArtifactLabel :=
| AlCapacity (q : CapacityCall)
| AlKernel
| AlPublish (observed now : Timestamp) (c : PublishArtifact)
| AlRead
| AlDelete (observed now : Timestamp) (c : DeleteArtifact)
| AlErase (observed checked now : Timestamp) (c : EraseArtifact).

(** ** The life of an artifact *)

Definition rank (s : ArtifactState) : Z := match s with Available => 0 | LogicallyDeleted => 1 | PhysicallyErased => 2 end.
(** The same artifact later: only its state and revision have moved, one revision for
    each state, and its time of deletion is set once. *)
Record later_artifact (a a' : ArtifactSnapshot) : Prop := {
  la_content : as_artifact_id a' = as_artifact_id a /\ as_session_id a' = as_session_id a /\
    as_creator_participant_id a' = as_creator_participant_id a /\ as_creator_operation_id a' = as_creator_operation_id a /\
    as_media_type a' = as_media_type a /\ as_size a' = as_size a /\ as_digest a' = as_digest a /\
    as_locator a' = as_locator a /\ as_retention_until a' = as_retention_until a /\ as_created_at a' = as_created_at a;
  la_rank : rank (as_state a) <= rank (as_state a');
  la_rev : Revision_get (as_revision a') = Revision_get (as_revision a) + (rank (as_state a') - rank (as_state a));
  la_deletion : forall t, as_deleted_at a = Some t -> as_deleted_at a' = Some t;
}.
#[export] Instance later_artifact_preorder : PreOrder later_artifact.
Proof.
  split.
  - intros a. split; [done|lia|lia|done].
  - intros a1 a2 a3 [C1 R1 V1 D1] [C2 R2 V2 D2]. split; [naive_solver congruence|lia|lia|auto].
Qed.

(** What the artifacts of a session use. *)
Definition in_use (sid : SessionId) (r : ArtifactCols) : bool :=
  in_session sid (af_session_id r) && negb (String.eqb (af_state r) "erased").
Definition artifact_usage (arts : gmap ArtifactId ArtifactCols) (sid : SessionId) (res : CapacityResource) : Z :=
  match res with
  | Artifacts => count_rows (in_use sid) (table_rows arts)
  | ArtifactBytes => sum_rows (in_use sid) af_size (table_rows arts)
  | _ => 0
  end.
Lemma usage_insert arts id a sid res n : arts !! id = None ->
  (res, n) = (Artifacts, 1) \/ (res, n) = (ArtifactBytes, as_size a) ->
  artifact_usage (<[id := artifact_cols a]> arts) sid res = artifact_usage arts sid res + if decide (as_session_id a = sid) then n else 0.
Proof.
  intros Hid Hres. assert (Hw : forall (f : ArtifactCols -> Z), weight (in_use sid) f (artifact_cols a) =
    if decide (as_session_id a = sid) then f (artifact_cols a) else 0).
  { intros f. unfold weight, in_use, in_session. cbn. case_bool_decide; case_decide; try done. by destruct (as_state a). }
  destruct Hres as [[= -> ->]|[= -> ->]]; cbn.
  - rewrite count_rows_insert, Hw by done. case_decide; lia.
  - rewrite sum_rows_insert, Hw by done. cbn. case_decide; lia.
Qed.
Lemma usage_replace arts id a a' sid res : arts !! id = Some (artifact_cols a) -> as_session_id a' = as_session_id a -> as_size a' = as_size a ->
  artifact_usage (<[id := artifact_cols a']> arts) sid res = artifact_usage arts sid res.
Proof.
  intros Hid Hs Hz. assert (Hw : forall (f : ArtifactCols -> Z), f (artifact_cols a') = f (artifact_cols a) ->
    weight (in_use sid) f (artifact_cols a') = weight (in_use sid) f (artifact_cols a)).
  { intros f Hf. unfold weight, in_use. cbn. rewrite Hs, Hf. by destruct (as_state a), (as_state a'). }
  destruct res; try done; cbn; rewrite ?count_sum; rewrite (sum_rows_replace _ _ _ _ (artifact_cols a)) by done;
    rewrite Hw by done; lia.
Qed.

Section history.
Context {TL : TimeLib} {TA : TimeArith} {SH : Sha256} {JS : Json} {JR : JsonRaw} {UT : UuidText}.
Context {TLaws : TimeLaws} {TALaws : TimeArithLaws}.
Variable max_lease_millis : Z.
Variable profile : LimitProfile.
Abbreviation kernel_step := (kernel_step max_lease_millis profile).

Inductive artifact_step : Capacities -> ArtifactLabel -> Capacities -> Prop :=
| at_capacity q s s' : cap_step max_lease_millis profile s (Some q) s' -> artifact_step s (AlCapacity q) s'
| at_kernel d' s : kernel_step (cy_db s) d' -> capacity_same (cy_db s) d' -> artifact_step s AlKernel (with_db s d')
| at_publish observed now c s : Timestamp_wf observed -> Timestamp_wf now -> publish_wf c ->
    artifact_step s (AlPublish observed now c) (crun (publish_artifact profile observed now c) s).1
| at_load observed c s : Timestamp_wf observed -> artifact_step s AlRead (with_db s (run (load_artifact observed c) (cy_db s)).1)
| at_authorize observed checked c s : Timestamp_wf observed ->
    artifact_step s AlRead (with_db s (run (authorize_physical_erasure observed checked c) (cy_db s)).1)
| at_delete observed now c s : Timestamp_wf observed -> Timestamp_wf now ->
    artifact_step s (AlDelete observed now c) (with_db s (run (logically_delete_artifact observed now c) (cy_db s)).1)
| at_erase observed checked now c s : Timestamp_wf observed ->
    artifact_step s (AlErase observed checked now c) (with_db s (run (record_physical_erasure observed checked now c) (cy_db s)).1).
Definition artifact_steps (s s' : Capacities) : Prop := rtc (fun s s' => exists l, artifact_step s l s') s s'.
(** The states of a store that was created empty. *)
Definition artifact_reachable (s : Capacities) : Prop := exists s0 s1, fresh s0 /\ db_artifacts (cy_db s0) = ∅ /\
  configure_capacity_limits profile s0 = Ok (tt, s1) /\ artifact_steps s1 s.

Context (Hprofile : forall res, exists l, LimitProfile_get profile res = Some l /\ Capacity.within res l).
Abbreviation history_ok := (history_ok max_lease_millis profile).

Definition quota_ok (s : Capacities) : Prop := forall sid res, res = Artifacts \/ res = ArtifactBytes ->
  artifact_usage (db_artifacts (cy_db s)) sid res + session_used s sid res <= per_session (limit_of profile res).
Lemma derived_usage d sid res : res = Artifacts \/ res = ArtifactBytes -> derived_of d sid res = artifact_usage (db_artifacts d) sid res.
Proof. intros [-> | ->]; done. Qed.

Record artifacts_inv (s : Capacities) : Prop := {
  ai_history : history_ok s;
  ai_rows : artifacts_ok (cy_db s);
  ai_quota : quota_ok s;
}.
Lemma rows_sized d : artifacts_ok d -> artifacts_sized d.
Proof. intros Hok id c Hc. destruct (Hok _ _ Hc) as [a [-> _ Hw _]]. apply Hw. Qed.

(** A change of the database by steps of the kernel. *)
Lemma db_history s d' : history_ok s -> rtc kernel_step (cy_db s) d' -> db_session_usage d' = db_session_usage (cy_db s) ->
  db_global_usage d' = db_global_usage (cy_db s) -> artifacts_sized d' -> history_ok (with_db s d').
Proof.
  intros [[Hr Hg Hc Hl Hm] Hk _] Hst Hsu Hgu Ha. split; [|by eapply reachable_steps|done]. split; try done.
  - intros id r Hid. destruct (Hr _ _ Hid) as (Hp & Hrest). split; [|done].
    cbn. clear -Hk Hst Hp TLaws TALaws. revert Hp. induction Hst as [|d1 d2 d3 H12 _ IH]; [done|]. intros Hp. apply IH.
    + eapply reachable_steps; [exact Hk|by apply rtc_once].
    + by eapply kernel_sessions.
  - unfold cy_session_usage, cy_global_usage. cbn. rewrite Hsu, Hgu. done.
Qed.

(** ** One step *)

(** Rows that were there are there still, as the same artifacts later. *)
Definition artifacts_move (d d' : Db) : Prop := forall id c a, db_artifacts d !! id = Some c -> artifact_ok id c a ->
  exists c' a', db_artifacts d' !! id = Some c' /\ artifact_ok id c' a' /\ later_artifact a a'.
Lemma same_artifacts_move d d' : db_artifacts d' = db_artifacts d -> artifacts_move d d'.
Proof. intros E id c a Hc Ha. rewrite E. exists c, a. split_and!; done. Qed.
Definition good_step (s s' : Capacities) : Prop := artifacts_inv s' /\ artifacts_move (cy_db s) (cy_db s').

Lemma quota_contract gone s s' : quota_ok s -> contract profile (derived_of (cy_db s)) gone s s' ->
  db_artifacts (cy_db s') = db_artifacts (cy_db s) -> quota_ok s'.
Proof.
  intros Hq Hc E sid res Hres. rewrite E. assert (Hne : res <> Subscriptions) by (destruct Hres as [-> | ->]; done).
  pose proof (ct_used _ _ _ _ _ Hc sid res Hne) as Hu. rewrite derived_usage in Hu by done. specialize (Hq sid res Hres). lia.
Qed.
Lemma contract_good gone s s' : artifacts_inv s -> contract profile (derived_of (cy_db s)) gone s s' -> good_step s s'.
Proof.
  intros [Hh Hr Hq] Hc. destruct (frame_core _ _ (ct_frame _ _ _ _ _ Hc)) as [_ E]. split; [|by apply same_artifacts_move].
  split; [by eapply contract_history|unfold artifacts_ok; by rewrite E|by eapply quota_contract].
Qed.
Lemma db_good s d' : artifacts_inv s -> rtc kernel_step (cy_db s) d' -> db_session_usage d' = db_session_usage (cy_db s) ->
  db_global_usage d' = db_global_usage (cy_db s) -> artifacts_ok d' -> artifacts_move (cy_db s) d' ->
  (forall sid res, artifact_usage (db_artifacts d') sid res = artifact_usage (db_artifacts (cy_db s)) sid res) -> good_step s (with_db s d').
Proof.
  intros [Hh Hr Hq] Hst Hsu Hgu Hok Hm Hu. split; [|done]. split; [|done|].
  - apply db_history; try done. by apply rows_sized.
  - intros sid res Hres. cbn. rewrite Hu. unfold session_used, cy_session_usage. cbn. rewrite Hsu. by apply Hq.
Qed.
Lemma floor_good s d' : artifacts_inv s -> floor_moved max_lease_millis profile (cy_db s) d' -> good_step s (with_db s d').
Proof.
  intros Hi [Hk [ss ->]]. apply db_good; try done; [by apply rtc_once|by apply (ai_rows s)|by apply same_artifacts_move].
Qed.
(** A row becomes a later one. *)
Lemma moved_good s d' id row a a' : artifacts_inv s -> db_artifacts (cy_db s) !! id = Some row -> artifact_ok id row a ->
  artifact_wf a' -> later_artifact a a' ->
  artifact_write max_lease_millis profile (cy_db s) d' (<[id := artifact_cols a']> (db_artifacts (cy_db s))) -> good_step s (with_db s d').
Proof.
  intros Hi Hrow Ha Hw' Hl Hwr. destruct (write_steps _ _ _ _ _ Hwr) as (Hst & E & Hsu & Hgu). pose proof (la_content _ _ Hl) as Hc.
  assert (Ha' : artifact_ok id (artifact_cols a') a').
  { destruct Ha as [_ Hid _ Hloc]. split; [done| |done|]; destruct Hc as (? & ? & _ & _ & _ & _ & _ & ? & _); congruence. }
  apply db_good; try done.
  - intros i c Hi'. rewrite E in Hi'. destruct (decide (i = id)) as [->|Hne].
    + rewrite lookup_insert_eq in Hi'. injection Hi' as <-. by exists a'.
    + rewrite lookup_insert_ne in Hi' by done. by apply (ai_rows s Hi).
  - intros i c b Hi' Hb. rewrite E. destruct (decide (i = id)) as [->|Hne].
    + rewrite lookup_insert_eq. exists (artifact_cols a'), a'. split_and!; try done.
      assert (b = a) as ->; [|done]. rewrite Hi' in Hrow. injection Hrow as ->. apply artifact_decodes in Hb, Ha. congruence.
    + rewrite lookup_insert_ne by done. exists c, b. split_and!; done.
  - intros sid res. rewrite E. rewrite (ao_cols _ _ _ Ha) in Hrow. apply (usage_replace _ _ a); [done|apply Hc|apply Hc].
Qed.
Lemma later_deleted a now : as_state a = Available -> structurally_valid a = true -> later_artifact a (deleted_artifact a now).
Proof.
  intros E Hv. split; cbn; [done|rewrite E; cbn; lia|rewrite E; cbn; lia|]. intros t Ht. unfold structurally_valid in Hv. rewrite E, Ht in Hv.
  by rewrite andb_false_r in Hv.
Qed.
Lemma later_erased a : as_state a = LogicallyDeleted -> later_artifact a (erased_artifact a).
Proof. intros E. split; cbn; [done|rewrite E; cbn; lia|rewrite E; cbn; lia|done]. Qed.

Lemma run_post {A} (m : Tx A) (Q : A -> Db -> Prop) d : wp m Q (fun _ => False) d ->
  (run m d).1 = d \/ exists a, Q a (run m d).1.
Proof. unfold wp, run. destruct (m d); [right; eauto|by left|done]. Qed.
Lemma refl_good s : artifacts_inv s -> good_step s (with_db s (cy_db s)).
Proof. intros Hi. assert (with_db s (cy_db s) = s) as -> by by destruct s. split; [done|by apply same_artifacts_move]. Qed.
Lemma good_trans s1 s2 s3 : good_step s1 s2 -> good_step s2 s3 -> good_step s1 s3.
Proof.
  intros [_ M1] [I2 M2]. split; [done|]. intros id c a Hc Ha. destruct (M1 _ _ _ Hc Ha) as (c2 & a2 & Hc2 & Ha2 & L2).
  destruct (M2 _ _ _ Hc2 Ha2) as (c3 & a3 & Hc3 & Ha3 & L3). exists c3, a3. split_and!; try done. by etrans.
Qed.
Lemma consume_good id sid campaign res amount now s s' : artifacts_inv s -> res <> Subscriptions ->
  consume_capacity_reservation id sid campaign res amount now s = Ok (tt, s') -> good_step s s'.
Proof.
  intros Hi Hne Hs'. pose proof (consume_contract profile Hprofile (derived_of (cy_db s)) id sid campaign res amount now s
    (ho_ok _ _ _ (ai_history _ Hi)) Hne) as Hc. unfold cwp in Hc. rewrite Hs' in Hc. by eapply contract_good.
Qed.
Lemma consume_rows id sid campaign res amount now s s' : artifacts_inv s -> res <> Subscriptions ->
  consume_capacity_reservation id sid campaign res amount now s = Ok (tt, s') -> db_artifacts (cy_db s') = db_artifacts (cy_db s).
Proof.
  intros Hi Hne Hs'. pose proof (consume_contract profile Hprofile (derived_of (cy_db s)) id sid campaign res amount now s
    (ho_ok _ _ _ (ai_history _ Hi)) Hne) as Hc. unfold cwp in Hc. rewrite Hs' in Hc. apply (frame_core _ _ (ct_frame _ _ _ _ _ Hc)).
Qed.
Lemma published_good observed now c s s1 s2 s3 s' : artifacts_inv s -> Timestamp_wf now -> publish_wf c ->
  publishes max_lease_millis profile observed now c s s1 s2 s3 s' -> good_step s s'.
Proof.
  intros Hi Hn (Hmt & Hsz & Hdg & Hrt) [(d1 & Hm & ->) _ Hslot Hbytes Hroom Hnew (Hv & Hloc) (ev & lg & ->)].
  pose proof (floor_good s d1 Hi Hm) as G1. assert (G2 : good_step (with_db s d1) s2) by (by eapply consume_good; [apply G1| |exact Hslot]).
  assert (G3 : good_step s2 s3).
  { destruct (pb_byte_reservation_id c) as [id|]; [by eapply consume_good; [apply G2| |exact Hbytes]|].
    destruct Hbytes as [_ ->]. split; [apply G2|by apply same_artifacts_move]. }
  eapply good_trans; [exact G1|]. eapply good_trans; [exact G2|]. eapply good_trans; [exact G3|].
  destruct (proj1 G3) as [Hh Hr Hq]. set (a := published c now) in *.
  assert (Hok : artifact_ok (pb_artifact_id c) (artifact_cols a) a).
  { split; [done|done| |done]. split; try done; [by destruct Hsz]. }
  assert (Hrows : artifacts_ok (set_ledger (set_events (set_artifacts (cy_db s3)
    (<[pb_artifact_id c := artifact_cols a]> (db_artifacts (cy_db s3)))) ev) lg)).
  { intros i r Hi'. cbn in Hi'. destruct (decide (i = pb_artifact_id c)) as [->|Hne].
    - rewrite lookup_insert_eq in Hi'. injection Hi' as <-. by exists a.
    - rewrite lookup_insert_ne in Hi' by done. by apply Hr. }
  split; [split|].
  - apply db_history; try done; [|by apply rows_sized]. apply rtc_once. by apply ks_other.
  - done.
  - intros sid res Hres. set (n := if decide (res = Artifacts) then 1 else pb_size c).
    assert (Hn' : (res, n) = (Artifacts, 1) \/ (res, n) = (ArtifactBytes, pb_size c)) by (destruct Hres as [-> | ->]; [by left|by right]).
    change (artifact_usage (<[pb_artifact_id c := artifact_cols a]> (db_artifacts (cy_db s3))) sid res + session_used s3 sid res
      <= per_session (limit_of profile res)).
    rewrite (usage_insert _ _ _ _ _ n) by done. change (as_session_id a) with (pb_session_id c). case_decide as E.
    + subst sid. destruct (Hroom res n Hn') as (l & Hl & Hle). unfold limit_of. rewrite Hl. cbn.
      change (derived_capacity_usage (cy_db s3) (pb_session_id c) res).1 with (derived_of (cy_db s3) (pb_session_id c) res) in Hle.
      rewrite derived_usage in Hle by done. lia.
    + specialize (Hq sid res Hres). lia.
  - intros i r b Hi' Hb. exists r, b. cbn. rewrite lookup_insert_ne by congruence. split_and!; done.
Qed.

Lemma artifact_step_good s l s' : artifacts_inv s -> artifact_step s l s' -> good_step s s'.
Proof.
  intros Hi. destruct 1 as [q s s' Hq|d' s Hk (Hsu & Hgu & Ha & _)|observed now c s Ho Hn Hw|observed c s Ho|observed checked c s Ho
    |observed now c s Ho Hn|observed checked now c s Ho].
  - inversion Hq as [now q' ? Hw|]; subst. eapply contract_good; [done|]. by apply (crun_contract max_lease_millis profile Hprofile now q s (ai_history _ Hi)).
  - apply db_good; try done; [by apply rtc_once|unfold artifacts_ok; rewrite Ha; apply (ai_rows _ Hi)|by apply same_artifacts_move|].
    intros. by rewrite Ha.
  - pose proof (publish_contract max_lease_millis profile observed now c s Ho) as Hc. unfold cok, crun in *.
    destruct (publish_artifact profile observed now c s) as [[m s']|e]; [|split; [done|by apply same_artifacts_move]]. cbn.
    specialize (Hc _ _ eq_refl). destruct m; [|split; subst; [done|by apply same_artifacts_move]..].
    destruct Hc as (s1 & s2 & s3 & Hp). by eapply published_good.
  - destruct (run_post _ _ _ (load_contract max_lease_millis profile observed c _ (ai_rows _ Hi) Ho)) as [->|[a Hm]];
      [by apply refl_good|by apply floor_good].
  - destruct (run_post _ _ _ (authorize_erasure_contract max_lease_millis profile observed checked c _ (ai_rows _ Hi) Ho)) as [->|[a [->|Hm]]];
      [by apply refl_good..|by apply floor_good].
  - destruct (run_post _ _ _ (delete_contract max_lease_millis profile observed now c _ (ai_rows _ Hi) Ho)) as [->|[m Hm]]; [by apply refl_good|].
    destruct m; [|rewrite Hm; by apply refl_good..]. destruct Hm as (row & a & Hrow & Ha & _ & Hst & _ & Hwr).
    eapply moved_good; [done|exact Hrow|exact Ha|apply wf_deleted; [apply Ha|done]|apply later_deleted; [done|apply Ha]|exact Hwr].
  - destruct (run_post _ _ _ (erase_contract max_lease_millis profile observed checked now c _ (ai_rows _ Hi) Ho)) as [->|[m Hm]]; [by apply refl_good|].
    destruct m; [|rewrite Hm; by apply refl_good..]. destruct Hm as (row & a & Hrow & Ha & _ & Hst & _ & _ & Hwr).
    eapply moved_good; [done|exact Hrow|exact Ha|apply wf_erased; [apply Ha|done]|by apply later_erased|exact Hwr].
Qed.
Lemma steps_good s s' : artifact_steps s s' -> artifacts_inv s -> good_step s s'.
Proof.
  induction 1 as [s|s1 s2 s3 [l Hl] _ IH]; intros Hi; [split; [done|by apply same_artifacts_move]|].
  pose proof (artifact_step_good _ _ _ Hi Hl) as G. eapply good_trans; [exact G|]. apply IH, G.
Qed.
Lemma artifact_reachable_inv s : artifact_reachable s -> artifacts_inv s.
Proof.
  intros (s0 & s1 & Hf & Ha & Hopen & Hst). eapply steps_good; [exact Hst|].
  assert (E : db_artifacts (cy_db s1) = ∅).
  { pose proof (configure_all profile Hprofile CapacityResource_ALL s0 resources_nodup) as Hx. unfold cwp in Hx.
    unfold configure_capacity_limits in Hopen. rewrite Hopen in Hx. destruct Hx as [[ev ->] _]; [|done].
    intros res _. destruct Hf as (_ & _ & _ & _ & _ & _ & _ & _ & ->). apply seeded. }
  pose proof (opened_ok max_lease_millis profile Hprofile _ _ Hf Hopen) as Hh. split; [done|..].
  - intros id c. by rewrite E, lookup_empty.
  - intros sid res Hres. rewrite E. destruct (counters_used profile s1 (ho_ok _ _ _ Hh)) as [Hu _]. specialize (Hu sid res).
    destruct Hres as [-> | ->]; change (artifact_usage ∅ sid _) with 0; lia.
Qed.

(** A publication adds a row and leaves the others. *)
Lemma publish_keeps_rows observed now q s id c c' : artifacts_inv s -> Timestamp_wf observed -> db_artifacts (cy_db s) !! id = Some c ->
  db_artifacts (cy_db (crun (publish_artifact profile observed now q) s).1) !! id = Some c' -> c' <> c -> False.
Proof.
  intros Hi Ho Hc Hc' Hne. pose proof (publish_contract max_lease_millis profile observed now q s Ho) as Hp. unfold cok, crun in *.
  destruct (publish_artifact profile observed now q s) as [[m s']|e]; cbn in Hc'; [|congruence]. specialize (Hp _ _ eq_refl).
  destruct m; [|subst; congruence..]. destruct Hp as (s1 & s2 & s3 & [(d1 & Hm & ->) _ Hslot Hbytes _ Hnew _ (ev & lg & ->)]).
  pose proof (floor_good s d1 Hi Hm) as G1.
  assert (G2 : good_step (with_db s d1) s2 /\ db_artifacts (cy_db s2) = db_artifacts (cy_db s)).
  { split; [by eapply consume_good; [apply G1| |exact Hslot]|]. 
    etrans; [by eapply consume_rows; [apply G1| |exact Hslot]|]. by apply moved_artifacts in Hm. }
  assert (E : db_artifacts (cy_db s3) = db_artifacts (cy_db s)).
  { rewrite <-(proj2 G2). destruct (pb_byte_reservation_id q); [|by destruct Hbytes as [_ ->]].
    by eapply consume_rows; [apply G2| |exact Hbytes]. }
  cbn in Hc'. rewrite E in *. rewrite lookup_insert_ne in Hc' by congruence. congruence.
Qed.

(** ** Theorems *)

(** C19: over every history an artifact that was published can be read, at the place its
    session and identity say; its content never changes, and it only moves from available
    to deleted to erased, with one revision for each move and a time of deletion that is
    set once. *)
Theorem artifact_history s s' id c : artifact_reachable s -> artifact_steps s s' -> db_artifacts (cy_db s) !! id = Some c ->
  exists c' a a', db_artifacts (cy_db s') !! id = Some c' /\ decode_artifact id c = Ok a /\ decode_artifact id c' = Ok a' /\
    as_locator a = artifact_locator (as_session_id a) id /\ later_artifact a a'.
Proof.
  intros Hi%artifact_reachable_inv Hst Hc. destruct (steps_good _ _ Hst Hi) as [_ Hm]. destruct (ai_rows _ Hi _ _ Hc) as [a Ha].
  destruct (Hm _ _ _ Hc Ha) as (c' & a' & Hc' & Ha' & Hl). exists c', a, a'. split_and!; try done; [by apply artifact_decodes..|apply Ha].
Qed.

(** C18: an artifact changes only by the owner of its session, who holds the lease at that
    time: it is deleted while it is available, and it is recorded as erased only after it
    was deleted and its retention has passed. *)
Theorem artifact_change_authorized s l s' id c c' : artifact_reachable s -> artifact_step s l s' ->
  db_artifacts (cy_db s) !! id = Some c -> db_artifacts (cy_db s') !! id = Some c' -> c' <> c ->
  exists a, decode_artifact id c = Ok a /\
    ((exists observed now q, l = AlDelete observed now q /\ da_artifact_id q = id /\ as_state a = Available /\
        owner_at (cy_db s) (as_session_id a) (da_owner q) (da_epoch q) observed) \/
     (exists observed checked now q, l = AlErase observed checked now q /\ ea_artifact_id q = id /\ as_state a = LogicallyDeleted /\
        Timestamp_le (as_retention_until a) checked /\
        owner_at (cy_db s) (as_session_id a) (ea_owner q) (ea_epoch q) observed)).
Proof.
  intros Hi%artifact_reachable_inv Hst Hc Hc' Hne. destruct (ai_rows _ Hi _ _ Hc) as [a Ha].
  exists a. split; [by apply artifact_decodes|].
  destruct Hst as [q s s' Hq|d' s Hk (_ & _ & E & _)|observed now q s Ho Hn Hw|observed q s Ho|observed checked q s Ho
    |observed now q s Ho Hn|observed checked now q s Ho].
  - exfalso. inversion Hq as [now q' ? Hw|]; subst. destruct (crun_contract max_lease_millis profile Hprofile now q s (ai_history _ Hi) Hw) as [_ Hct].
    destruct (frame_core _ _ (ct_frame _ _ _ _ _ Hct)) as [_ E]. congruence.
  - exfalso. cbn in Hc'. congruence.
  - exfalso. exact (publish_keeps_rows observed now q s id c c' Hi Ho Hc Hc' Hne).
  - exfalso. destruct (run_post _ _ _ (load_contract max_lease_millis profile observed q _ (ai_rows _ Hi) Ho)) as [E|[x Hm]]; cbn in Hc';
      [congruence|rewrite (moved_artifacts _ _ _ _ Hm) in Hc'; congruence].
  - exfalso. destruct (run_post _ _ _ (authorize_erasure_contract max_lease_millis profile observed checked q _ (ai_rows _ Hi) Ho)) as [E|[x [E|Hm]]];
      cbn in Hc'; [congruence..|rewrite (moved_artifacts _ _ _ _ Hm) in Hc'; congruence].
  - left. destruct (run_post _ _ _ (delete_contract max_lease_millis profile observed now q _ (ai_rows _ Hi) Ho)) as [E|[m Hm]];
      cbn in Hc'; [congruence|]. destruct m; try congruence. destruct Hm as (row & b & Hrow & Hb & Hs & Hav & Hown & Hwr).
    destruct (write_steps _ _ _ _ _ Hwr) as (_ & E & _). rewrite E in Hc'. destruct (decide (da_artifact_id q = id)) as [<-|Hd].
    + assert (b = a) as -> by (rewrite Hc in Hrow; injection Hrow as ->; apply artifact_decodes in Ha, Hb; congruence).
      exists observed, now, q. rewrite Hs. done.
    + rewrite lookup_insert_ne in Hc' by done. congruence.
  - right. destruct (run_post _ _ _ (erase_contract max_lease_millis profile observed checked now q _ (ai_rows _ Hi) Ho)) as [E|[m Hm]];
      cbn in Hc'; [congruence|]. destruct m; try congruence. destruct Hm as (row & b & Hrow & Hb & Hs & Hav & Hret & Hown & Hwr).
    destruct (write_steps _ _ _ _ _ Hwr) as (_ & E & _). rewrite E in Hc'. destruct (decide (ea_artifact_id q = id)) as [<-|Hd].
    + assert (b = a) as -> by (rewrite Hc in Hrow; injection Hrow as ->; apply artifact_decodes in Ha, Hb; congruence).
      exists observed, checked, now, q. rewrite Hs. done.
    + rewrite lookup_insert_ne in Hc' by done. congruence.
Qed.

(** C20: what a session has published and what it has reserved stay together within its
    limits of artifacts and of bytes, over every history: a publication takes the place of
    the reservations it consumes. *)
Theorem artifact_quota s sid res : artifact_reachable s -> res = Artifacts \/ res = ArtifactBytes ->
  (derived_capacity_usage (cy_db s) sid res).1 + session_used s sid res <= per_session (limit_of profile res).
Proof.
  intros Hi%artifact_reachable_inv Hres. change (derived_of (cy_db s) sid res + session_used s sid res <= per_session (limit_of profile res)).
  rewrite derived_usage by done. by apply (ai_quota _ Hi).
Qed.
(** the usage of a session leaves out the state erased, which no row of the table
    has: recording that an artifact was physically erased frees none of the artifacts and
    bytes of its session. *)
Theorem erased_still_counts s observed checked now q s' sid res : artifact_reachable s ->
  artifact_step s (AlErase observed checked now q) s' -> res = Artifacts \/ res = ArtifactBytes ->
  (derived_capacity_usage (cy_db s') sid res).1 = (derived_capacity_usage (cy_db s) sid res).1.
Proof.
  intros Hi%artifact_reachable_inv Hst Hres. change (derived_of (cy_db s') sid res = derived_of (cy_db s) sid res).
  rewrite !derived_usage by done. inversion Hst as [| | | | | |? ? ? ? ? Ho]; subst.
  destruct (run_post _ _ _ (erase_contract max_lease_millis profile observed checked now q _ (ai_rows _ Hi) Ho)) as [E|[m Hm]];
    cbn; [by rewrite E|]. destruct m; [|by rewrite Hm..]. destruct Hm as (row & a & Hrow & Ha & _ & _ & _ & _ & Hwr).
  destruct (write_steps _ _ _ _ _ Hwr) as (_ & E & _). rewrite E, (ao_cols _ _ _ Ha) in *. by apply (usage_replace _ _ a).
Qed.
End history.

(** ** A concrete history *)

(** The operation of participant 12 has started; a slot and three bytes are reserved for
    it, an artifact of three bytes is published, deleted, and erased after its retention. *)
Definition art_publish : PublishArtifact :=
  MkPublishArtifact (demo_context 90 50) demo_session (MkId 50) scene_epoch (MkId 95) (MkId 12) (MkId 31)
    (MkBoundedText "text/plain") 3 (MkArtifactDigest (repeat 9 32)) "id/id.blob" (demo_at 101) (MkId 80) (Some (MkId 84)).
Definition art_delete : DeleteArtifact := MkDeleteArtifact (demo_context 91 50) demo_session (MkId 50) scene_epoch (MkId 95).
Definition art_erase : EraseArtifact := MkEraseArtifact (demo_context 92 50) demo_session (MkId 50) scene_epoch (MkId 95).
Definition art_labels : list ArtifactLabel :=
  [AlCapacity (CcReserve (MkReserveCapacity (MkId 80) demo_session (MkId 12) Artifacts 1));
   AlCapacity (CcReserve (MkReserveCapacity (MkId 84) demo_session (MkId 12) ArtifactBytes 3));
   AlPublish (demo_at 100) (demo_at 100) art_publish;
   AlDelete (demo_at 102) (demo_at 102) art_delete;
   AlErase (demo_at 103) (demo_at 103) (demo_at 103) art_erase].
Definition art_do (s : Capacities) (l : ArtifactLabel) : Capacities :=
  match l with
  | AlCapacity q => after (cap_scene_call q) s
  | AlPublish observed now c => after (@publish_artifact UtcLib demo_sha scene_json demo_text LimitProfile_default observed now c) s
  | AlDelete observed now c => with_db s (run (@logically_delete_artifact UtcLib demo_sha observed now c) (cy_db s)).1
  | AlErase observed checked now c => with_db s (run (@record_physical_erasure UtcLib demo_sha observed checked now c) (cy_db s)).1
  | _ => s
  end.
Definition art_scene (n : nat) : Capacities := fold_left art_do (take n art_labels) (cap_kernel 6).
Definition art_view (s : Capacities) := (fun c => (af_state c, af_revision c, af_size c)) <$> db_artifacts (cy_db s) !! MkId 95.

Definition art_step := @artifact_step UtcLib UtcArith demo_sha scene_json braces_json demo_text 60000 LimitProfile_default.
Definition art_steps := @artifact_steps UtcLib UtcArith demo_sha scene_json braces_json demo_text 60000 LimitProfile_default.
Definition art_reachable := @artifact_reachable UtcLib UtcArith demo_sha scene_json braces_json demo_text 60000 LimitProfile_default.

Lemma art_limits n : (n <= 6)%nat -> db_event_limits (cy_db (cap_kernel n)) = db_event_limits (cy_db (cap_kernel 0)).
Proof. intros Hn. do 7 (destruct n as [|n]; [vm_compute; reflexivity|]). lia. Qed.
Lemma art_kernel_next n : (n < 6)%nat -> art_step (cap_kernel n) AlKernel (cap_kernel (S n)).
Proof.
  intros Hn. destruct (scene !! n) as [e|] eqn:He; [|apply lookup_ge_None in He; cbn in He; lia].
  destruct (cap_unused n) as (U1 & U2 & U3); [lia|]. destruct (cap_unused (S n)) as (V1 & V2 & V3); [lia|].
  assert (E : cy_db (cap_kernel (S n)) = scene_do (cy_db (cap_kernel n)) e).
  { unfold cap_kernel. cbn [cy_db with_db]. by rewrite (take_S_r _ _ _ He), fold_left_app. }
  apply (at_kernel 60000 LimitProfile_default (cy_db (cap_kernel (S n))) (cap_kernel n)).
  - rewrite E. apply scene_do_step. pose proof scene_wf as Hw. rewrite Forall_lookup in Hw. exact (Hw _ _ He).
  - pose proof (art_limits n ltac:(lia)) as L1. pose proof (art_limits (S n) ltac:(lia)) as L2.
    unfold capacity_same. split_and!; congruence.
Qed.
Lemma art_kernel_steps n : (n <= 6)%nat -> art_steps (cap_kernel 0) (cap_kernel n).
Proof.
  induction n as [|n IH]; intros Hn; [apply rtc_refl|]. eapply rtc_r; [apply IH; lia|]. exists AlKernel. by apply art_kernel_next.
Qed.
Definition art_label_wf (l : ArtifactLabel) : Prop :=
  match l with
  | AlCapacity q => call_wf q
  | AlPublish observed now c => @Timestamp_wf UtcLib observed /\ @Timestamp_wf UtcLib now /\ @publish_wf UtcLib c
  | AlDelete observed now _ => @Timestamp_wf UtcLib observed /\ @Timestamp_wf UtcLib now
  | AlErase observed _ _ _ => @Timestamp_wf UtcLib observed
  | _ => False
  end.
Lemma art_labels_wf : Forall art_label_wf art_labels.
Proof.
  repeat (apply Forall_cons; split); [..|done]; cbn -[Timestamp_wf publish_wf call_wf].
  - vm_compute; repeat split; discriminate.
  - vm_compute; repeat split; discriminate.
  - split; [by apply demo_at_wf|]. split; [by apply demo_at_wf|]. split; [reflexivity|]. split; [vm_compute; split; congruence|].
    split; [reflexivity|]. by apply demo_at_wf.
  - split; by apply demo_at_wf.
  - by apply demo_at_wf.
Qed.
Lemma art_next n l : art_labels !! n = Some l -> art_step (art_scene n) l (art_scene (S n)).
Proof.
  intros Hl. unfold art_scene. rewrite (take_S_r _ _ _ Hl), fold_left_app. cbn [fold_left].
  pose proof art_labels_wf as Hw. rewrite Forall_lookup in Hw. specialize (Hw _ _ Hl). clear Hl.
  destruct l as [q| |observed now c| |observed now c|observed checked now c]; cbn in Hw; try done.
  - apply at_capacity. by apply (cs_call 60000 LimitProfile_default (demo_at 100) q).
  - apply (at_publish 60000 LimitProfile_default); apply Hw.
  - apply (at_delete 60000 LimitProfile_default); apply Hw.
  - by apply (at_erase 60000 LimitProfile_default).
Qed.
Lemma art_later n m : (n <= m <= 5)%nat -> art_steps (art_scene n) (art_scene m).
Proof.
  induction m as [|m IH]; intros Hm; [assert (n = 0%nat) as -> by lia; apply rtc_refl|].
  destruct (decide (n = S m)) as [->|Hne]; [apply rtc_refl|]. eapply rtc_r; [apply IH; lia|].
  destruct (art_labels !! m) as [l|] eqn:E; [exists l; by apply art_next|]. apply lookup_ge_None in E. cbn in E. lia.
Qed.
Lemma art_reach n : (n <= 5)%nat -> art_reachable (art_scene n).
Proof.
  intros Hn. exists cap_fresh, cap_opened. split; [apply cap_scene_fresh|]. split; [reflexivity|]. split; [by apply after_ok|].
  assert (cap_opened = cap_kernel 0) as -> by (unfold cap_kernel; by destruct cap_opened).
  unfold artifact_steps. etrans; [apply (art_kernel_steps 6); lia|]. apply (art_later 0 n). lia.
Qed.

(** ** The theorems at this history *)

Lemma artifact_history_witness : exists c c' a a', db_artifacts (cy_db (art_scene 3)) !! MkId 95 = Some c /\
  db_artifacts (cy_db (art_scene 5)) !! MkId 95 = Some c' /\
  @decode_artifact UtcLib (MkId 95) c = Ok a /\ @decode_artifact UtcLib (MkId 95) c' = Ok a' /\
  later_artifact a a' /\ af_state c = "available" /\ af_state c' = "physically_erased".
Proof.
  destruct (db_artifacts (cy_db (art_scene 3)) !! MkId 95) as [c|] eqn:E; [|by vm_compute in E]. exists c.
  destruct (@artifact_history UtcLib UtcArith demo_sha scene_json braces_json demo_text UtcLaws UtcArithLaws 60000 LimitProfile_default
    default_profile (art_scene 3) (art_scene 5) (MkId 95) c (art_reach 3 ltac:(lia)) (art_later 3 5 ltac:(lia)) E)
    as (c' & a & a' & H1 & H2 & H3 & _ & H4).
  exists c', a, a'. refine (conj eq_refl (conj H1 (conj H2 (conj H3 (conj H4 (conj _ _)))))).
  - vm_compute in E. injection E as <-. reflexivity.
  - vm_compute in H1. injection H1 as <-. reflexivity.
Defined.
Lemma artifact_change_authorized_witness : exists a, as_state a = LogicallyDeleted /\ Timestamp_le (as_retention_until a) (demo_at 103) /\
  @owner_at UtcLib (cy_db (art_scene 4)) (as_session_id a) (MkId 50) scene_epoch (demo_at 103).
Proof.
  destruct (db_artifacts (cy_db (art_scene 4)) !! MkId 95) as [c|] eqn:E; [|by vm_compute in E].
  destruct (db_artifacts (cy_db (art_scene 5)) !! MkId 95) as [c'|] eqn:E'; [|by vm_compute in E'].
  assert (Hne : c' <> c) by (vm_compute in E, E'; injection E as <-; injection E' as <-; discriminate).
  destruct (@artifact_change_authorized UtcLib UtcArith demo_sha scene_json braces_json demo_text UtcLaws UtcArithLaws 60000
    LimitProfile_default default_profile (art_scene 4) _ (art_scene 5) (MkId 95) c c' (art_reach 4 ltac:(lia)) (art_next 4 _ eq_refl) E E' Hne)
    as (a & _ & [(o & n & q & H & _)|(o & k & n & q & H & _ & H1 & H2 & H3)]); [discriminate H|].
  injection H as <- <- <- <-. exists a. exact (conj H1 (conj H2 H3)).
Defined.
Lemma artifact_quota_witness : artifact_usage (db_artifacts (cy_db (art_scene 3))) demo_session ArtifactBytes = 3 /\
  session_used (art_scene 2) demo_session ArtifactBytes = 3 /\
  (@derived_capacity_usage scene_json demo_text (cy_db (art_scene 3)) demo_session ArtifactBytes).1 + session_used (art_scene 3) demo_session ArtifactBytes
    <= 4294967296.
Proof.
  split; [vm_compute; reflexivity|]. split; [vm_compute; reflexivity|].
  exact (@artifact_quota UtcLib UtcArith demo_sha scene_json braces_json demo_text UtcLaws UtcArithLaws 60000 LimitProfile_default
    default_profile (art_scene 3) demo_session ArtifactBytes (art_reach 3 ltac:(lia)) (or_intror eq_refl)).
Defined.
Lemma erased_still_counts_witness : (af_state <$> db_artifacts (cy_db (art_scene 5)) !! MkId 95) = Some "physically_erased" /\
  (@derived_capacity_usage scene_json demo_text (cy_db (art_scene 5)) demo_session ArtifactBytes).1 = (@derived_capacity_usage scene_json demo_text (cy_db (art_scene 4)) demo_session ArtifactBytes).1 /\
  (@derived_capacity_usage scene_json demo_text (cy_db (art_scene 5)) demo_session ArtifactBytes).1 = 3.
Proof.
  split; [vm_compute; reflexivity|]. split; [|vm_compute; reflexivity].
  exact (@erased_still_counts UtcLib UtcArith demo_sha scene_json braces_json demo_text UtcLaws UtcArithLaws 60000 LimitProfile_default
    default_profile (art_scene 4) _ _ _ _ (art_scene 5) demo_session ArtifactBytes (art_reach 4 ltac:(lia)) (art_next 4 _ eq_refl) (or_intror eq_refl)).
Defined.
