(* ===== verification/ArtifactRetention.v ===== *)
(** * ArtifactRetention: the retention sweep

    [retention_eligible_artifacts] of crates/navigator-store-sqlite/src/store.rs selects
    the deleted artifacts whose retention has passed, the oldest first and at most
    [limit] of them.  Over every history the selection succeeds and is exact. *)
From S2P Require Import Prelude Scalars Session Authority Capacity Artifact Approval StoreApi StoreWire Json Template Message OperationApi.
From S2P Require Import SqliteDb SqliteSession SessionLedger Ownership SqliteMailbox Tables SqliteOperation SqliteLaunch MailboxLedger Footprint OperationLedger Participants Kernel Scenario.
From S2P Require Import SqliteCapacity CapacityLedger CapacityCalls CapacityHistory SqliteArtifact ArtifactLedger ArtifactHistory.

(** ** The order of the selection *)

Lemma retention_le_iff x y : retention_le x y <-> Timestamp_lt (af_retention_until x.2) (af_retention_until y.2) \/
  af_retention_until x.2 = af_retention_until y.2 /\ as_uuid x.1 <= as_uuid y.1.
Proof.
  unfold retention_le, retention_leb. by rewrite orb_true_iff, andb_true_iff, bool_decide_eq_true, Timestamp_ltb_lt, Z.leb_le.
Qed.
Lemma retention_le_time x y : retention_le x y -> Timestamp_le (af_retention_until x.2) (af_retention_until y.2).
Proof. rewrite retention_le_iff. intros [H|[-> _]]; [by left|apply Timestamp_le_refl]. Qed.
#[export] Instance retention_le_total : Total retention_le.
Proof.
  intros x y. rewrite !retention_le_iff. destruct (Timestamp_ltb (af_retention_until x.2) (af_retention_until y.2)) eqn:E.
  - apply Timestamp_ltb_lt in E. tauto.
  - apply Timestamp_ltb_ge in E as [E|E]; [tauto|]. destruct (Z.le_ge_cases (as_uuid x.1) (as_uuid y.1)); [left|right]; right; done.
Qed.
#[export] Instance retention_le_trans : Transitive retention_le.
Proof.
  intros x y z. rewrite !retention_le_iff. intros [H1|[E1 H1]] [H2|[E2 H2]].
  - left. eapply Timestamp_lt_le_trans; [exact H1|by left].
  - left. by rewrite <-E2.
  - left. by rewrite E1.
  - right. split; [congruence|lia].
Qed.

(** ** Decoding in order *)

Section decoding.
Context {A B E : Type} (f : A -> result E B).
Lemma collect_total l : Forall (fun x => exists y, f x = Ok y) l -> exists ys, collect f l = Ok ys.
Proof.
  induction 1 as [|x l [y Hy] _ [ys IH]]; [by exists []|]. exists (y :: ys). cbn. by rewrite Hy, IH.
Qed.
Lemma collect_sorted (R : relation A) (R' : relation B) l ys : collect f l = Ok ys -> StronglySorted R l ->
  (forall x x' y y', x ∈ l -> x' ∈ l -> R x x' -> f x = Ok y -> f x' = Ok y' -> R' y y') -> StronglySorted R' ys.
Proof.
  intros H%collect_Ok Hs HR. induction H as [|x y l ys Hxy Hl IH]; [constructor|].
  apply StronglySorted_inv in Hs as [Hs Hx]. constructor.
  - apply IH; [done|]. intros x1 x2 y1 y2 H1 H2. apply HR; by right.
  - apply Forall_forall. intros y' [i Hi]%list_elem_of_lookup_1. destruct (Forall2_lookup_r _ _ _ _ _ Hl Hi) as (x' & Hx' & Hd).
    apply list_elem_of_lookup_2 in Hx'. rewrite Forall_forall in Hx. apply (HR x x'); auto; [left|by right].
Qed.
End decoding.

Section sweep.
Context {TL : TimeLib} {TA : TimeArith} {SH : Sha256} {JS : Json} {JR : JsonRaw} {UT : UuidText}.
Context {TLaws : TimeLaws} {TALaws : TimeArithLaws}.
Variable max_lease_millis : Z.
Variable profile : LimitProfile.
Context (Hprofile : forall res, exists l, LimitProfile_get profile res = Some l /\ Capacity.within res l).

(** The rows of the query before [LIMIT]. *)
Definition due_rows (now : Timestamp) (d : Db) : list (ArtifactId * ArtifactCols) :=
  merge_sort retention_le (filter (fun e => String.eqb (af_state e.2) "logically_deleted" && Timestamp_leb (af_retention_until e.2) now = true)
    (map_to_list (db_artifacts d))).
Lemma due_rows_sorted now d : StronglySorted retention_le (due_rows now d).
Proof. apply StronglySorted_merge_sort; apply _. Qed.
Lemma due_rows_take n now d : StronglySorted retention_le (take n (due_rows now d)).
Proof. pose proof (due_rows_sorted now d) as Hs. rewrite <-(take_drop n (due_rows now d)) in Hs. by apply StronglySorted_app_1_l in Hs. Qed.
Lemma due_rows_elem now d id c a : artifact_ok id c a ->
  (id, c) ∈ due_rows now d <-> db_artifacts d !! id = Some c /\ as_state a = LogicallyDeleted /\ Timestamp_le (as_retention_until a) now.
Proof.
  intros Ha. unfold due_rows. rewrite merge_sort_Permutation, list_elem_of_filter, elem_of_map_to_list. cbn.
  rewrite andb_true_iff, Timestamp_leb_le, String.eqb_eq, (ao_cols _ _ _ Ha). cbn.
  destruct (as_state a); cbn; intuition congruence.
Qed.
Lemma due_rows_ids now d : NoDup (due_rows now d).*1.
Proof. unfold due_rows. rewrite merge_sort_Permutation. apply NoDup_keys_filter, NoDup_fst_map_to_list. Qed.
Lemma due_row now d e : artifacts_ok d -> e ∈ due_rows now d -> exists a, artifact_ok e.1 e.2 a.
Proof.
  intros Hok He. destruct e as [id c]. unfold due_rows in He.
  rewrite merge_sort_Permutation, list_elem_of_filter, elem_of_map_to_list in He. destruct He as [_ He]. apply (Hok id c He).
Qed.

(** What is decoded from the rows. *)
Lemma batch_elem now d n batch a : artifacts_ok d -> collect (fun e => decode_artifact e.1 e.2) (take n (due_rows now d)) = Ok batch ->
  a ∈ batch <-> exists c, (as_artifact_id a, c) ∈ take n (due_rows now d) /\ artifact_ok (as_artifact_id a) c a.
Proof.
  intros Hok Hb%collect_Ok. assert (Hrow : forall e b, e ∈ take n (due_rows now d) -> decode_artifact e.1 e.2 = Ok b -> artifact_ok e.1 e.2 b).
  { intros e b He Hd. destruct (due_row now d e Hok) as [b' Hb']; [by apply (subseteq_take n)|].
    pose proof (artifact_decodes _ _ _ Hb') as Hd'. congruence. }
  split.
  - intros [i Hi]%list_elem_of_lookup_1. destruct (Forall2_lookup_r _ _ _ _ _ Hb Hi) as ([id c] & He & Hd).
    apply list_elem_of_lookup_2 in He. pose proof (Hrow _ _ He Hd) as Ha. exists c. rewrite (ao_id _ _ _ Ha). done.
  - intros (c & [i Hi]%list_elem_of_lookup_1 & Ha). destruct (Forall2_lookup_l _ _ _ _ _ Hb Hi) as (b & Hbi & Hd). cbn [fst snd] in Hd.
    rewrite (artifact_decodes _ _ _ Ha) in Hd. injection Hd as <-. by eapply list_elem_of_lookup_2.
Qed.
Lemma batch_ids now d n batch : artifacts_ok d -> collect (fun e => decode_artifact e.1 e.2) (take n (due_rows now d)) = Ok batch ->
  as_artifact_id <$> batch = (take n (due_rows now d)).*1.
Proof.
  intros Hok Hb%collect_Ok. assert (Hin : forall e, e ∈ take n (due_rows now d) -> e ∈ due_rows now d) by apply subseteq_take.
  induction Hb as [|e a l batch Hd _ IH]; [done|]. cbn. f_equal.
  - destruct (due_row now d e Hok) as [b Hb]; [apply Hin; left|]. rewrite (artifact_decodes _ _ _ Hb) in Hd. injection Hd as <-. apply Hb.
  - apply IH. intros e' He'. apply Hin. by right.
Qed.

(** C21: over every history the retention sweep succeeds without changing the store.  It
    returns at most [limit] artifacts, each once and the oldest retention first, each of
    them deleted with its retention passed; and an artifact that is due is left out only
    when the batch is full of artifacts that are due no later. *)
Theorem retention_batch_exact s now limit : artifact_reachable max_lease_millis profile s -> 1 <= limit <= 1024 ->
  exists batch, run (retention_eligible_artifacts now limit) (cy_db s) = (cy_db s, Ok batch) /\ llen batch <= limit /\
    NoDup (as_artifact_id <$> batch) /\
    StronglySorted (fun a b => Timestamp_le (as_retention_until a) (as_retention_until b)) batch /\
    (forall a, a ∈ batch -> (exists c, db_artifacts (cy_db s) !! as_artifact_id a = Some c /\ decode_artifact (as_artifact_id a) c = Ok a) /\
      as_state a = LogicallyDeleted /\ Timestamp_le (as_retention_until a) now) /\
    (forall id c a, db_artifacts (cy_db s) !! id = Some c -> decode_artifact id c = Ok a -> as_state a = LogicallyDeleted ->
      Timestamp_le (as_retention_until a) now ->
      a ∈ batch \/ llen batch = limit /\ Forall (fun b => Timestamp_le (as_retention_until b) (as_retention_until a)) batch).
Proof.
  intros Hi%(artifact_reachable_inv _ _ Hprofile) Hlim. pose proof (ai_rows _ _ _ Hi) as Hok. set (d := cy_db s) in *.
  set (n := Z.to_nat limit).
  destruct (collect_total (fun e => decode_artifact e.1 e.2) (take n (due_rows now d))) as [batch Hb].
  { apply Forall_forall. intros e He. destruct (due_row now d e Hok) as [a Ha]; [by apply (subseteq_take n)|]. exists a. by apply artifact_decodes. }
  assert (Hlen : llen batch <= limit).
  { unfold llen. rewrite (collect_length _ _ _ Hb), length_take. lia. }
  exists batch. split_and!; [|done|..].
  - assert (Hrun : retention_eligible_artifacts now limit d = lift (collect (fun e => decode_artifact e.1 e.2) (take n (due_rows now d))) d).
    { unfold retention_eligible_artifacts. replace ((limit =? 0) || (1024 <? limit)) with false by lia. reflexivity. }
    unfold run. by rewrite Hrun, Hb.
  - rewrite (batch_ids _ _ _ _ Hok Hb), <-firstn_map. eapply sublist_NoDup; [apply due_rows_ids|apply sublist_take].
  - eapply (collect_sorted _ retention_le); [exact Hb|apply due_rows_take|].
    intros [i x] [j x'] y y' Hx%subseteq_take Hx'%subseteq_take H%retention_le_time Hd Hd'. cbn [fst snd] in *.
    destruct (due_row _ _ _ Hok Hx) as [a Ha], (due_row _ _ _ Hok Hx') as [a' Ha']. cbn [fst snd] in *.
    rewrite (artifact_decodes _ _ _ Ha) in Hd. rewrite (artifact_decodes _ _ _ Ha') in Hd'. injection Hd as <-. injection Hd' as <-.
    by rewrite (ao_cols _ _ _ Ha), (ao_cols _ _ _ Ha') in H.
  - intros a (c & Hc & Ha)%(batch_elem _ _ _ _ _ Hok Hb). apply subseteq_take in Hc. rewrite (due_rows_elem _ _ _ _ _ Ha) in Hc.
    destruct Hc as (Hc & Hrest). split; [|done]. exists c. split; [done|by apply artifact_decodes].
  - intros id c a Hc Hd Hst Hret. destruct (Hok _ _ Hc) as [a' Ha]. rewrite (artifact_decodes _ _ _ Ha) in Hd. injection Hd as ->.
    assert (Hin : (id, c) ∈ due_rows now d) by (by apply (due_rows_elem _ _ _ _ _ Ha)). pose proof (ao_id _ _ _ Ha) as <-.
    rewrite <-(take_drop n (due_rows now d)), elem_of_app in Hin. destruct Hin as [Hin|Hin].
    + left. apply (batch_elem _ _ _ _ _ Hok Hb). by exists c.
    + right. split.
      * unfold llen. rewrite (collect_length _ _ _ Hb), length_take_le; [lia|].
        destruct (Nat.le_gt_cases n (length (due_rows now d))) as [|Hgt]; [done|]. rewrite drop_ge in Hin by lia. by apply not_elem_of_nil in Hin.
      * apply Forall_forall. intros b (cb & Hcb & Hab)%(batch_elem _ _ _ _ _ Hok Hb).
        pose proof (due_rows_sorted now d) as Hs. rewrite <-(take_drop n (due_rows now d)) in Hs.
        pose proof (retention_le_time _ _ (StronglySorted_app_1_elem_of _ _ _ _ _ Hs Hcb Hin)) as Ht. cbn in Ht.
        by rewrite (ao_cols _ _ _ Hab), (ao_cols _ _ _ Ha) in Ht.
Qed.
End sweep.

(** ** The theorem at a concrete history *)

(** The deleted artifact is due at second 101. *)
Lemma retention_batch_exact_witness : exists a, run (@retention_eligible_artifacts UtcLib (demo_at 101) 10) (cy_db (art_scene 4)) =
  (cy_db (art_scene 4), Ok [a]) /\ as_artifact_id a = MkId 95 /\ as_state a = LogicallyDeleted.
Proof.
  destruct (@retention_batch_exact UtcLib UtcArith demo_sha scene_json braces_json demo_text UtcLaws UtcArithLaws 60000 LimitProfile_default
    default_profile (art_scene 4) (demo_at 101) 10 (art_reach 4 ltac:(lia)) ltac:(lia)) as (batch & H & _).
  assert (Hb : exists a, batch = [a] /\ as_artifact_id a = MkId 95 /\ as_state a = LogicallyDeleted).
  { apply (f_equal snd) in H. vm_compute in H. injection H as <-. eexists. split; [reflexivity|]. split; reflexivity. }
  destruct Hb as (a & -> & Ha). exists a. exact (conj H Ha).
Defined.
