(* ===== verification/SqliteAuthority.v ===== *)
(** * SqliteAuthority: the authority transactions

    [impl AuthorityStore for SqliteStore] of crates/navigator-store-sqlite/src/store.rs:
    policies of templates and participants, grants, checked effects, and the creation of
    a child participant with its policy, its first operation and the message that carries
    its input. *)
From S2P Require Import Prelude Scalars Session Authority Operation Capacity Artifact Json Tool StoreApi StoreWire Approval Template Message.
From S2P Require Import OperationApi ToolApi EffectApi AuthorityApi SqliteDb SqliteSession SqliteMailbox SqliteOperation SqliteTool.

Section store.
Context {TL : TimeLib} {TA : TimeArith} {SH : Sha256} {JS : Json} {UT : UuidText}.

(** [replay_json] at the type of the answer. *)
Definition replay_as {C A} `{!MutableRequest C} (answer : LedgerResult -> option A) (c : C) : Tx (option A) :=
  stored ← replay_bytes c;
  match stored with
  | None => mret None
  | Some r => a ← lift (ok_or Corrupt (answer r)); mret (Some a)
  end.
Definition as_template_policy (r : LedgerResult) := match r with LrTemplatePolicy p => Some p | _ => None end.
Definition as_policy (r : LedgerResult) := match r with LrPolicy p => Some p | _ => None end.
Definition as_grant (r : LedgerResult) := match r with LrGrant g => Some g | _ => None end.
Definition as_effect_outcome (r : LedgerResult) := match r with LrAuthority o => Some o | _ => None end.
Definition as_child_outcome (r : LedgerResult) := match r with LrAuthorizedChild o => Some o | _ => None end.

Definition load_authority_template_policy_in (template_id : TemplateId) : Tx (option AuthorityTemplatePolicy) :=
  d ← get; mret (db_template_policies d !! template_id).
(** The inserts, with their primary and foreign keys. *)
Definition insert_template_policy (p : AuthorityTemplatePolicy) : Tx unit :=
  d ← get;
  if is_some (db_template_policies d !! ytp_template_id p) || is_none (db_templates d !! ytp_template_id p)
  then abort Unavailable
  else put (set_template_policies d (<[ytp_template_id p := p]> (db_template_policies d))).
Definition insert_policy (session_id : SessionId) (p : AuthorityPolicySnapshot) : Tx unit :=
  d ← get;
  if is_some (db_policies d !! py_participant_id p) || is_none (db_participants d !! py_participant_id p)
     || is_none (db_sessions d !! session_id)
  then abort Unavailable
  else put (set_policies d (<[py_participant_id p := p]> (db_policies d))).
Definition insert_grant (session_id : SessionId) (g : GrantSnapshot) : Tx unit :=
  d ← get;
  if is_some (db_grants d !! g_id (gs_grant g)) || is_none (db_sessions d !! session_id)
     || is_none (db_participants d !! g_subject (gs_grant g))
  then abort Unavailable
  else put (set_grants d (<[g_id (gs_grant g) := g]> (db_grants d))).

(** ** Policies *)

Definition register_authority_template_policy (observed_at : Timestamp) (c : RegisterAuthorityTemplatePolicy) :
    Tx (Mutation AuthorityTemplatePolicy) :=
  let fail {A} (e : StoreError) : Tx A := finish_failure (rtp_session_id c) c e in
  let policy := rtp_policy c in
  replayed ← replay_as as_template_policy c;
  match replayed with
  | Some value =>
      current ← load_authority_template_policy_in (ytp_template_id value);
      if neqb current (Some value) then abort Corrupt else mret (Replayed value)
  | None =>
  authorized ← authorize_launch (rtp_session_id c) (rtp_context c) (rtp_epoch c) ActRegisterAuthorityTemplatePolicy observed_at;
  match authorized with
  | Err error => fail error
  | Ok _ =>
  let parents := Z.of_nat (size (ytp_allowed_parent_templates policy)) in
  rejected ← (if (parents =? 0) || (256 <? parents) then mret true
              else t ← load_template_in (ytp_template_id policy); mret (is_none t));
  if (rejected : bool) then fail Invalid else
  existing ← load_authority_template_policy_in (ytp_template_id policy);
  match existing with
  | Some existing =>
      if neqb existing policy then fail Invalid
      else _ ← record_bytes (rtp_session_id c) c SeUnchanged (LrTemplatePolicy existing);
           mret (Unchanged existing)
  | None =>
  _ ← insert_template_policy policy;
  _ ← record_bytes (rtp_session_id c) c SeApplied (LrTemplatePolicy policy);
  mret (Applied policy)
  end end end.

(** Each rule of the subject is within all the ceilings. *)
Definition policy_within (p : AuthorityPolicySnapshot) (participant : ParticipantId) (session : SessionId) (now : Timestamp) : bool :=
  forallb (fun requested => is_ok (authorize_effect (policy_ceilings p) participant session requested None now))
    (elements (ap_active (py_subject p)))
  && forallb (fun requested => is_ok (authorize_child_creation (policy_ceilings p) requested)) (elements (ap_delegable (py_subject p))).

Definition put_authority_policy (observed_at : Timestamp) (c : PutAuthorityPolicy) : Tx (Mutation AuthorityPolicySnapshot) :=
  let fail {A} (e : StoreError) : Tx A := finish_failure (pp_session_id c) c e in
  let policy := pp_policy c in
  replayed ← replay_as as_policy c;
  match replayed with
  | Some value => mret (Replayed value)
  | None =>
  authorized ← authorize_launch (pp_session_id c) (pp_context c) (pp_epoch c) ActPutAuthorityPolicy observed_at;
  match authorized with
  | Err error => fail error
  | Ok _ =>
  if neqb (py_session_id policy) (pp_session_id c) then fail Invalid else
  participant ← load_participant_in (py_participant_id policy);
  if is_none_or participant (fun v => neqb (ps_session_id v) (pp_session_id c)) then fail Invalid else
  if negb (policy_within policy (py_participant_id policy) (pp_session_id c) observed_at) then fail Invalid else
  existing ← load_authority_policy_in (py_participant_id policy);
  match existing with
  | Some value =>
      if neqb value policy then fail Invalid
      else _ ← record_bytes (pp_session_id c) c SeUnchanged (LrPolicy value);
           mret (Unchanged value)
  | None =>
  _ ← insert_policy (pp_session_id c) policy;
  _ ← append_authority_event (pp_session_id c) c "authority.policy_applied" (py_participant_id policy) observed_at;
  _ ← record_bytes (pp_session_id c) c SeApplied (LrPolicy policy);
  mret (Applied policy)
  end end end.

(** ** Grants *)

Definition issue_grant (observed_at : Timestamp) (c : IssueGrant) : Tx (Mutation GrantSnapshot) :=
  let fail {A} (e : StoreError) : Tx A := finish_failure (ig_session_id c) c e in
  let grant := ig_grant c in
  replayed ← replay_as as_grant c;
  match replayed with
  | Some value => mret (Replayed value)
  | None =>
  authorized ← authorize_launch (ig_session_id c) (ig_context c) (ig_epoch c) ActIssueGrant observed_at;
  match authorized with
  | Err error => fail error
  | Ok _ =>
  if neqb (g_session_id grant) (ig_session_id c) || g_revoked grant || negb (Grant_is_active grant observed_at)
  then fail Invalid else
  loaded ← load_authority_policy_in (g_subject grant);
  policy ← lift (ok_or Invalid loaded);
  if negb (is_ok (authorize_effect (policy_ceilings policy) (g_subject grant) (ig_session_id c) (g_authority grant) None observed_at))
  then fail Invalid else
  let snapshot := MkGrantSnapshot grant (ig_single_use c) None in
  existing ← load_grant_in (g_id grant);
  if is_some existing then fail Invalid else
  _ ← insert_grant (ig_session_id c) snapshot;
  _ ← append_authority_event (ig_session_id c) c "authority.grant_issued" (g_subject grant) observed_at;
  _ ← record_bytes (ig_session_id c) c SeApplied (LrGrant snapshot);
  mret (Applied snapshot)
  end end.

Definition revoked (g : GrantSnapshot) : GrantSnapshot :=
  let v := gs_grant g in
  MkGrantSnapshot (MkGrant (g_id v) (g_session_id v) (g_subject v) (g_authority v) (g_expires_at v) true)
    (gs_single_use g) (gs_consumed_at g).
Definition revoke_grant (observed_at : Timestamp) (c : RevokeGrant) : Tx (Mutation GrantSnapshot) :=
  let fail {A} (e : StoreError) : Tx A := finish_failure (rv_session_id c) c e in
  replayed ← replay_as as_grant c;
  match replayed with
  | Some value => mret (Replayed value)
  | None =>
  authorized ← authorize_launch (rv_session_id c) (rv_context c) (rv_epoch c) ActRevokeGrant observed_at;
  match authorized with
  | Err error => fail error
  | Ok _ =>
  loaded ← load_grant_in (rv_grant_id c);
  snapshot ← lift (ok_or Invalid loaded);
  if neqb (g_session_id (gs_grant snapshot)) (rv_session_id c) then fail Invalid else
  let snapshot := revoked snapshot in
  _ ← update_grant_in snapshot;
  _ ← append_authority_event (rv_session_id c) c "authority.grant_revoked" (g_subject (gs_grant snapshot)) observed_at;
  _ ← record_bytes (rv_session_id c) c SeApplied (LrGrant snapshot);
  mret (Applied snapshot)
  end end.

(** ** Checking an effect *)

Definition load_named_grant (id : option GrantId) : Tx (option GrantSnapshot) :=
  match id with Some id => load_grant_in id | None => mret None end.
(** A single-use grant is consumed with the decision it allows. *)
Definition consume_single (grant : option GrantSnapshot) (now : Timestamp) : Tx unit :=
  match grant with
  | Some g => if gs_single_use g then update_grant_in (consumed g now) else mret tt
  | None => mret tt
  end.

Definition check_authority_effect (observed_at : Timestamp) (c : CheckAuthorityEffect) : Tx (Mutation AuthorityEffectOutcome) :=
  let fail {A} (e : StoreError) : Tx A := finish_failure (ck_session_id c) c e in
  replayed ← replay_as as_effect_outcome c;
  match replayed with
  | Some value => mret (Replayed value)
  | None =>
  authorized ← authorize_launch (ck_session_id c) (ck_context c) (ck_epoch c) ActCheckAuthorityEffect observed_at;
  match authorized with
  | Err error => fail error
  | Ok _ =>
  now ← session_time (ck_session_id c);
  policy ← load_authority_policy_in (ck_participant_id c);
  grant ← load_named_grant (ck_grant_id c);
  let decision := authorized_by policy (ck_participant_id c) (ck_session_id c) (ck_requested c) grant now in
  outcome ← (match decision with
             | Some decision =>
                 if unconsumed grant
                 then _ ← consume_single grant now; mret (EffectAllowed (AuthorityDecisionWire_from decision))
                 else mret EffectDenied
             | None => mret EffectDenied
             end);
  let event := match outcome with EffectAllowed _ => "authority.allowed" | EffectDenied => "authority.denied" end in
  _ ← append_authority_event (ck_session_id c) c event (ck_participant_id c) now;
  _ ← record_bytes (ck_session_id c) c SeApplied (LrAuthority outcome);
  mret (Applied outcome)
  end end.

(** ** Authorized children *)

(** A replayed child must still be stored as it was answered; its operation may have
    moved on. *)
Definition child_message_matches (message : option MessageSnapshot) (p : ParticipantSnapshot) (o : OperationSnapshot) : bool :=
  match message with
  | Some m => eqb (ms_session_id m) (ps_session_id p) && eqb (ms_source m) (ps_participant_id p)
      && eqb (ms_destination m) (ps_participant_id p) && eqb (mc_operation_id (ms_correlation m)) (Some (on_operation_id o))
      && match operation_input (on_operation_id o) (on_input_digest o) with Ok envelope => eqb (ms_envelope m) envelope | Err _ => false end
  | None => false
  end.
Definition child_operation_matches (current : option OperationSnapshot) (o : OperationSnapshot) : bool :=
  match current with
  | Some v => eqb (on_session_id v) (on_session_id o) && eqb (on_operation_id v) (on_operation_id o)
      && eqb (on_participant_id v) (on_participant_id o) && eqb (on_start_request_id v) (on_start_request_id o)
      && eqb (on_input_message_id v) (on_input_message_id o) && eqb (on_input_digest v) (on_input_digest o)
      && eqb (on_created_at v) (on_created_at o)
  | None => false
  end.
Definition validate_child_replay (value : AuthorizedChildOutcome) : Tx unit :=
  match value with
  | ChildDenied => mret tt
  | ChildAllowed p policy o _ =>
      message ← load_message_in (on_input_message_id o);
      current ← load_operation_in (on_operation_id o);
      stored ← load_participant_in (ps_participant_id p);
      changed ← (if neqb stored (Some p) then mret true
                 else stored ← load_authority_policy_in (ps_participant_id p);
                      mret (neqb stored (Some policy) || negb (child_operation_matches current o)
                            || negb (child_message_matches message p o)));
      if (changed : bool) then abort Corrupt else mret tt
  end.

(** The policy of a child: the session of its parent, what its parent may delegate, and
    the trusted policy of its template. *)
Definition child_policy (c : CreateAuthorizedChild) (trusted : AuthorityTemplatePolicy) (parent : AuthorityPolicySnapshot) :
    AuthorityPolicySnapshot :=
  MkPolicy (ac_session_id c) (ac_participant_id c) (py_session parent) (py_subject parent) (ytp_template trusted)
    (ytp_relationship trusted) (ytp_subject trusted).
Definition both {A B} (a : option A) (b : option B) : option (A * B) :=
  match a, b with Some a, Some b => Some (a, b) | _, _ => None end.
Definition some_and {A} (o : option A) (f : A -> bool) : bool := match o with Some a => f a | None => false end.

Section input.
Context {JR : JsonRaw}.
(** The input the registered template accepts, when it is the one of the command. *)
Definition child_input (template : option TemplateRecord) (c : CreateAuthorizedChild) : option ValidatedTaskInput :=
  match template with
  | Some registered =>
      match Template_try_from registered with
      | Ok trusted =>
          match Template.validate_input trusted (TaskInput_as_bytes (ac_input c)) with
          | Ok value => if eqb value (ac_input c) then Some value else None
          | Err _ => None
          end
      | Err _ => None
      end
  | None => None
  end.

(** The conditions on the child beside the decision. *)
Definition child_valid (c : CreateAuthorizedChild) (parent : option ParticipantSnapshot) (template : option TemplateRecord)
    (template_policy : option AuthorityTemplatePolicy) (parent_policy : option AuthorityPolicySnapshot) (now : Timestamp) : Tx bool :=
  d ← get;
  let rows := table_rows (db_participants d) in
  let direct := count_rows (is_child_of (ac_session_id c) (ac_parent_participant_id c)) rows in
  let total := count_rows (fun r => eqb (pc_session_id r) (ac_session_id c)) rows in
  template_allowed ← (match template with Some t => session_allows_template (ac_session_id c) t | None => mret false end);
  if some_and (both template_policy parent_policy)
       (fun e => policy_within (child_policy c e.1 e.2) (ac_participant_id c) (ac_session_id c) now)
     && neqb (ac_participant_id c) (ac_parent_participant_id c)
     && some_and parent (fun p => eqb (ps_session_id p) (ac_session_id c) && (ps_depth p <? MAX_PARTICIPANT_DEPTH))
     && some_and (both parent template_policy) (fun e => bool_decide (ps_template_id e.1 ∈ ytp_allowed_parent_templates e.2))
     && some_and template (fun t => eqb (tr_compatibility t) (ac_expected_compatibility c))
     && template_allowed
  then
    existing ← load_participant_in (ac_participant_id c);
    mret (is_none existing && is_some (child_input template c)
          && negb (is_some (db_operations d !! ac_operation_id c)) && negb (is_some (db_messages d !! ac_input_message_id c))
          && (direct <? MAX_DIRECT_CHILDREN) && (total <? MAX_SESSION_PARTICIPANTS))
  else mret false.

(** The event of the new participant. *)
Definition child_event_payload (p : ParticipantSnapshot) : bytes :=
  to_vec (VObject
    [("depth", json_u64 (ps_depth p)); ("lifecycle", VString "registered");
     ("parent_participant_id", json_option json_id (ps_parent_participant_id p));
     ("participant_id", json_id (ps_participant_id p)); ("revision", json_u64 (Revision_get (ps_revision p)));
     ("schema_version", json_u64 1); ("template_id", json_id (ps_template_id p))]%string).
(** [INSERT INTO mailbox_counters], which has no row of the destination yet. *)
Definition insert_counter (destination : ParticipantId) (counter : CounterCols) : Tx unit :=
  d ← get;
  if is_some (db_counters d !! destination) then abort Unavailable else upsert_counter destination counter.

(** What is stored for an allowed child. *)
Definition commit_child (c : CreateAuthorizedChild) (parent : ParticipantSnapshot) (policy : AuthorityPolicySnapshot)
    (input : ValidatedTaskInput) (grant : option GrantSnapshot) (decision : AuthorityDecision) (now : Timestamp) :
    Tx (Mutation AuthorizedChildOutcome) :=
  let request_id := rc_request_id (ac_context c) in
  depth ← lift (if ps_depth parent + 1 <=? u32_max then Ok (ps_depth parent + 1) else Err Corrupt);
  let p := MkParticipant (ac_session_id c) (ac_participant_id c) (Some (ac_parent_participant_id c)) depth (ac_template_id c)
    (ac_expected_compatibility c) Revision_initial in
  _ ← insert_participant p;
  _ ← insert_policy (ac_session_id c) policy;
  let digest := input_digest (TaskInput_as_bytes input) in
  let o := MkOperationSnapshot (ac_session_id c) (ac_operation_id c) (ac_participant_id c) request_id (ac_input_message_id c)
    None digest OpQueued Revision_initial None now now in
  _ ← insert_operation o (TaskInput_as_bytes input) now;
  envelope ← expect (operation_input (ac_operation_id c) digest);
  let message := MkMessage (ac_session_id c) (ac_input_message_id c) (ac_participant_id c) (ac_participant_id c) 1
    PrOrdinary (MkCorrelation (Some (ac_operation_id c)) None) envelope 0 MsQueued Revision_initial now now in
  let size := llen (envelope_as_bytes envelope) in
  _ ← lift (if size <=? i64_max then Ok tt else Err MessageOversize);
  _ ← insert_message message 1;
  _ ← insert_counter (ac_participant_id c) (MkCounter 2 size 1);
  _ ← append_event_data request_id (ac_session_id c) (on_revision o) "operation.queued" (operation_event_payload o) now;
  _ ← append_message_event request_id message now;
  _ ← consume_single grant now;
  _ ← append_event_data request_id (ac_session_id c) Revision_initial "participant.created" (child_event_payload p) now;
  _ ← append_authority_event (ac_session_id c) c "authority.allowed" (ac_parent_participant_id c) now;
  let outcome := ChildAllowed p policy o (AuthorityDecisionWire_from decision) in
  _ ← record_bytes (ac_session_id c) c SeApplied (LrAuthorizedChild outcome);
  mret (Applied outcome).

Definition create_authorized_child (observed_at : Timestamp) (c : CreateAuthorizedChild) : Tx (Mutation AuthorizedChildOutcome) :=
  let fail {A} (e : StoreError) : Tx A := finish_failure (ac_session_id c) c e in
  replayed ← replay_as as_child_outcome c;
  match replayed with
  | Some value => _ ← validate_child_replay value; mret (Replayed value)
  | None =>
  authorized ← authorize_launch (ac_session_id c) (ac_context c) (ac_epoch c) ActCreateAuthorizedChild observed_at;
  match authorized with
  | Err error => fail error
  | Ok _ =>
  now ← session_time (ac_session_id c);
  parent ← load_participant_in (ac_parent_participant_id c);
  cancelled ← participant_cancellation_requested (ac_parent_participant_id c);
  if (cancelled : bool) then fail Invalid else
  template ← load_template_in (ac_template_id c);
  template_policy ← load_authority_template_policy_in (ac_template_id c);
  parent_policy ← load_authority_policy_in (ac_parent_participant_id c);
  grant ← load_named_grant (ac_grant_id c);
  let decision := match authorized_by parent_policy (ac_parent_participant_id c) (ac_session_id c) (ac_requested c) grant now with
                  | Some decision => if unconsumed grant then Some decision else None
                  | None => None end in
  valid ← child_valid c parent template template_policy parent_policy now;
  match (if (valid : bool) then decision else None) with
  | None =>
      _ ← append_authority_event (ac_session_id c) c "authority.denied" (ac_parent_participant_id c) now;
      _ ← record_bytes (ac_session_id c) c SeApplied (LrAuthorizedChild ChildDenied);
      mret (Applied ChildDenied)
  | Some decision =>
  parent ← lift (ok_or Corrupt parent);
  policies ← lift (ok_or Corrupt (both template_policy parent_policy));
  input ← lift (ok_or Corrupt (child_input template c));
  commit_child c parent (child_policy c policies.1 policies.2) input grant decision now
  end end end.
End input.

(** ** Reads *)

Definition load_authority_policy (participant_id : ParticipantId) : Tx AuthorityPolicySnapshot :=
  loaded ← load_authority_policy_in participant_id; lift (ok_or Invalid loaded).
Definition load_grant (grant_id : GrantId) : Tx GrantSnapshot :=
  loaded ← load_grant_in grant_id; lift (ok_or Invalid loaded).
Definition load_authority_template_policy (template_id : TemplateId) : Tx AuthorityTemplatePolicy :=
  loaded ← load_authority_template_policy_in template_id; lift (ok_or Invalid loaded).
End store.
