(* ===== verification/AuthorityLedger.v ===== *)
(** * AuthorityLedger: what a transaction does to policies and grants

    The contracts of the authority handlers of SqliteAuthority.v, and of the handlers of
    the kernel that use a grant: a transaction inserts at most one policy, whose rules are
    within its ceilings, and writes at most one grant, which it issues within the policy
    of its subject, revokes or consumes. *)
From S2P Require Import Prelude Scalars Session Authority Operation RecoveryTable Capacity Artifact Json Tool StoreApi StoreWire Approval Template.
From S2P Require Import Message OperationApi ToolApi EffectApi AuthorityApi SqliteDb SqliteSession SessionLedger Ownership SqliteMailbox Tables.
From S2P Require Import SqliteOperation SqliteLaunch SqliteEffect SqliteTool SqliteResolve MailboxLedger Footprint JournalFootprint OperationLedger.
From S2P Require Import JournalLedger Kernel SqliteAuthority.

(** ** The meaning of policies and grants *)

(** All five ceilings cover the request. *)
Definition permits (p : AuthorityPolicySnapshot) (sid : SessionId) (req : ScopedCapability) : Prop :=
  covers (ap_active (py_session p)) sid req /\ covers (ap_delegable (py_parent p)) sid req /\
  covers (ap_active (py_template p)) sid req /\ covers (ap_active (py_relationship p)) sid req /\
  covers (ap_active (py_subject p)) sid req.
(** The rules of the subject are within the ceilings. *)
Record policy_coherent (p : AuthorityPolicySnapshot) : Prop := {
  pk_active : forall req, req ∈ ap_active (py_subject p) -> permits p (py_session_id p) req;
  pk_delegable : forall req, req ∈ ap_delegable (py_subject p) -> req ∈ ap_delegable (py_session p) /\ req ∈ ap_delegable (py_parent p) /\
    req ∈ ap_delegable (py_template p) /\ req ∈ ap_delegable (py_relationship p);
}.
(** The same grant later: it may have been revoked, and it is consumed once. *)
Record later_grant (g g' : GrantSnapshot) : Prop := {
  lg_same : g_id (gs_grant g') = g_id (gs_grant g) /\ g_session_id (gs_grant g') = g_session_id (gs_grant g) /\
    g_subject (gs_grant g') = g_subject (gs_grant g) /\ g_authority (gs_grant g') = g_authority (gs_grant g) /\
    g_expires_at (gs_grant g') = g_expires_at (gs_grant g) /\ gs_single_use g' = gs_single_use g;
  lg_revoked : g_revoked (gs_grant g) = true -> g_revoked (gs_grant g') = true;
  lg_consumed : forall t, gs_consumed_at g = Some t -> gs_consumed_at g' = Some t;
}.
#[export] Instance later_grant_preorder : PreOrder later_grant.
Proof.
  split; [intros g; by split|]. intros g1 g2 g3 [S1 R1 C1] [S2 R2 C2].
  split; [naive_solver congruence|auto..].
Qed.
Lemma later_revoked g : later_grant g (revoked g).
Proof. by split. Qed.
Lemma later_consumed g t : gs_consumed_at g = None -> later_grant g (consumed g t).
Proof. intros E. split; [done|done|]. intros ?. by rewrite E. Qed.

(** ** Changes of the tables *)

Definition same_authority (d d' : Db) : Prop :=
  db_policies d' = db_policies d /\ db_grants d' = db_grants d /\ db_template_policies d' = db_template_policies d.
#[export] Instance same_authority_preorder : PreOrder same_authority.
Proof. split; [done|]. intros d1 d2 d3 (? & ? & ?) (? & ? & ?). split_and!; congruence. Qed.

Definition with_policy (np : option AuthorityPolicySnapshot) (m : gmap ParticipantId AuthorityPolicySnapshot) :=
  match np with Some p => <[py_participant_id p := p]> m | None => m end.
Definition with_grant (ng : option GrantSnapshot) (m : gmap GrantId GrantSnapshot) :=
  match ng with Some g => <[g_id (gs_grant g) := g]> m | None => m end.
(** At most one policy and one grant are written. *)
Record writes (np : option AuthorityPolicySnapshot) (ng : option GrantSnapshot) (d d' : Db) : Prop := {
  wr_policies : db_policies d' = with_policy np (db_policies d);
  wr_grants : db_grants d' = with_grant ng (db_grants d);
  wr_templates : db_template_policies d ⊆ db_template_policies d';
}.
Lemma writes_same np ng d d1 d2 : writes np ng d d1 -> same_authority d1 d2 -> writes np ng d d2.
Proof. intros [P G T] (EP & EG & ET). by split; rewrite ?EP, ?EG, ?ET. Qed.
Lemma same_writes np ng d d1 d2 : same_authority d d1 -> writes np ng d1 d2 -> writes np ng d d2.
Proof. intros (EP & EG & ET) [P G T]. by split; rewrite <-?EP, <-?EG, <-?ET. Qed.
Lemma writes_none d d' : same_authority d d' -> writes None None d d'.
Proof. intros (EP & EG & ET). by split; rewrite ?EP, ?EG, ?ET. Qed.

(** An issued grant: new, and within the policy of its subject. *)
Definition issued (d : Db) (g : GrantSnapshot) : Prop :=
  db_grants d !! g_id (gs_grant g) = None /\ gs_consumed_at g = None /\ g_revoked (gs_grant g) = false /\
  exists p, db_policies d !! g_subject (gs_grant g) = Some p /\ permits p (g_session_id (gs_grant g)) (g_authority (gs_grant g)).
Definition moved_grant (d : Db) (g : GrantSnapshot) : Prop :=
  exists g0, db_grants d !! g_id (gs_grant g) = Some g0 /\ later_grant g0 g.
Definition new_policy (d : Db) (p : AuthorityPolicySnapshot) : Prop := db_policies d !! py_participant_id p = None /\ policy_coherent p.
Record allowed_writes (np : option AuthorityPolicySnapshot) (ng : option GrantSnapshot) (d : Db) : Prop := {
  aw_policy : forall p, np = Some p -> new_policy d p;
  aw_grant : forall g, ng = Some g -> issued d g \/ moved_grant d g;
}.
Lemma allowed_none d : allowed_writes None None d.
Proof. by split. Qed.

(** The rows: stored under their identities. *)
Record authority_rows (d : Db) : Prop := {
  ar_policies : forall id p, db_policies d !! id = Some p -> py_participant_id p = id /\ policy_coherent p;
  ar_grants : forall id g, db_grants d !! id = Some g -> g_id (gs_grant g) = id /\
    exists p, db_policies d !! g_subject (gs_grant g) = Some p /\ permits p (g_session_id (gs_grant g)) (g_authority (gs_grant g));
}.
(** Nothing is forgotten: policies never change and grants only move. *)
Record evolves (d d' : Db) : Prop := {
  ev_policies : db_policies d ⊆ db_policies d';
  ev_grants : forall id g, db_grants d !! id = Some g -> exists g', db_grants d' !! id = Some g' /\ later_grant g g';
  ev_templates : db_template_policies d ⊆ db_template_policies d';
}.
#[export] Instance evolves_preorder : PreOrder evolves.
Proof.
  split; [intros d; split; [done|intros id g Hg; by exists g|done]|]. intros d1 d2 d3 [P1 G1 T1] [P2 G2 T2].
  split; [by etrans| |by etrans]. intros id g Hg. destruct (G1 _ _ Hg) as (g2 & Hg2 & L2). destruct (G2 _ _ Hg2) as (g3 & Hg3 & L3).
  exists g3. split; [done|by etrans].
Qed.
Lemma writes_evolve np ng d d' : authority_rows d -> allowed_writes np ng d -> writes np ng d d' -> authority_rows d' /\ evolves d d'.
Proof.
  intros [Hp Hg] [Hnp Hng] [EP EG ET].
  assert (Hsub : db_policies d ⊆ db_policies d').
  { rewrite EP. destruct np as [p|]; [|done]. apply insert_subseteq. by apply Hnp. }
  assert (Hkeep : forall id p, db_policies d !! id = Some p -> db_policies d' !! id = Some p) by (intros id p H; by eapply lookup_weaken).
  split; split; try done.
  - intros id p. rewrite EP. destruct np as [q|]; [|apply Hp]. cbn. destruct (decide (py_participant_id q = id)) as [<-|Hne].
    + rewrite lookup_insert_eq. intros [= <-]. split; [done|]. by apply Hnp.
    + rewrite lookup_insert_ne by done. apply Hp.
  - assert (Hold : forall id g, db_grants d !! id = Some g -> g_id (gs_grant g) = id /\ exists p,
      db_policies d' !! g_subject (gs_grant g) = Some p /\ permits p (g_session_id (gs_grant g)) (g_authority (gs_grant g))).
    { intros id g H. destruct (Hg _ _ H) as (Hid & p & Hsp & Hpm). eauto. }
    intros id g. rewrite EG. destruct ng as [q|]; [|apply Hold]. cbn. destruct (decide (g_id (gs_grant q) = id)) as [<-|Hne].
    + rewrite lookup_insert_eq. intros [= <-]. split; [done|]. destruct (Hng q eq_refl) as [(_ & _ & _ & p & ? & ?)|(g0 & Hg0 & [L _ _])]; [eauto|].
      destruct (Hold _ _ Hg0) as (_ & p & H1 & H2). destruct L as (_ & -> & -> & -> & _). eauto.
    + rewrite lookup_insert_ne by done. apply Hold.
  - intros id g H. rewrite EG. destruct ng as [q|]; [|by exists g]. cbn. destruct (decide (g_id (gs_grant q) = id)) as [<-|Hne].
    + rewrite lookup_insert_eq. exists q. split; [done|]. destruct (Hng q eq_refl) as [(Hn & _)|(g0 & Hg0 & L)]; congruence.
    + rewrite lookup_insert_ne by done. by exists g.
Qed.

(** ** Contracts *)

Section contracts.
Context {TL : TimeLib} {TA : TimeArith} {SH : Sha256} {JS : Json} {JR : JsonRaw} {UT : UuidText}.
Context {TLaws : TimeLaws} {TALaws : TimeArithLaws}.

#[local] Hint Extern 1 (PreOrder same_authority) => apply _ : within.
Lemma authority_events : writes_events same_authority. Proof. done. Qed.
Lemma authority_ledger : writes_ledger same_authority. Proof. done. Qed.
Lemma authority_messages : writes_messages same_authority. Proof. done. Qed.
Lemma authority_counters : writes_counters same_authority. Proof. done. Qed.
Lemma authority_operations : writes_operations same_authority. Proof. done. Qed.
Lemma authority_participants : writes_participants same_authority. Proof. done. Qed.
Lemma authority_effects : writes_effects same_authority. Proof. done. Qed.
Lemma authority_tools : writes_tools same_authority. Proof. by repeat split. Qed.
Lemma authority_advances now : advances same_authority now. Proof. done. Qed.
#[local] Hint Resolve authority_events authority_ledger authority_messages authority_counters authority_operations
  authority_participants authority_effects authority_tools authority_advances : within.

Lemma within_replay_as {C A} `{!MutableRequest C} (answer : LedgerResult -> option A) (c : C) : within same_authority (replay_as answer c).
Proof. unfold replay_as. within_auto. Qed.
Lemma within_load_template_policy id : within same_authority (load_authority_template_policy_in id).
Proof. unfold load_authority_template_policy_in. within_auto. Qed.
Lemma within_authority_event {C} `{!MutableRequest C} sid (c : C) ty p now : within same_authority (append_authority_event sid c ty p now).
Proof. unfold append_authority_event. within_auto. Qed.
#[local] Hint Resolve within_replay_as within_load_template_policy : within.
#[local] Hint Extern 1 (within _ (append_authority_event _ _ _ _ _)) => apply within_authority_event : within.

(** A transaction that carried its writes out, or recorded a failure. *)
Definition changes (d d' : Db) : Prop := exists np ng, allowed_writes np ng d /\ writes np ng d d'.
Definition changes_with {A} (P : A -> option AuthorityPolicySnapshot -> option GrantSnapshot -> Prop) (d : Db) (a : A) (d' : Db) : Prop :=
  exists np ng, allowed_writes np ng d /\ writes np ng d d' /\ P a np ng.
(** Steps of a handler that leave policies and grants alone. *)
Lemma wp_wrote {A B} np ng (m : Tx B) (k : B -> Tx A) (Q : A -> Db -> Prop) d d1 : within same_authority m ->
  allowed_writes np ng d -> writes np ng d d1 -> (forall b d2, writes np ng d d2 -> wp (k b) Q (changes d) d2) ->
  wp (m ≫= k) Q (changes d) d1.
Proof.
  intros Hm Ha Hw Hk. apply (wp_within_then same_authority); [done|..].
  - intros d2 H2. exists np, ng. split; [done|by eapply writes_same].
  - intros b d2 H2. apply Hk. by eapply writes_same.
Qed.
Lemma wp_changed {A} (m : Tx A) (P : A -> option AuthorityPolicySnapshot -> option GrantSnapshot -> Prop) np ng d d1 : within same_authority m ->
  allowed_writes np ng d -> writes np ng d d1 -> (forall a, P a np ng) -> wp m (changes_with P d) (changes d) d1.
Proof.
  intros Hm Ha Hw HP. eapply wp_mono; [apply Hm|..].
  - intros a d2 H2. exists np, ng. split_and!; [done|by eapply writes_same|done].
  - intros d2 H2. exists np, ng. split; [done|by eapply writes_same].
Qed.
Lemma wp_fails {A C} `{!MutableRequest C} sid (c : C) e np ng (Q : A -> Db -> Prop) d d1 : allowed_writes np ng d -> writes np ng d d1 ->
  wp (finish_failure sid c e) Q (changes d) d1.
Proof. intros Ha Hw. apply wp_fail. intros v. exists np, ng. split; [done|]. by eapply writes_same. Qed.
Lemma writes_refl d : writes None None d d.
Proof. by apply writes_none. Qed.

Lemma wp_replay_as {C A B} `{!MutableRequest C} (answer : LedgerResult -> option A) (c : C) (k : option A -> Tx B) (Q : B -> Db -> Prop) F d :
  (forall o, wp (k o) Q F d) -> wp (replay_as answer c ≫= k) Q F d.
Proof.
  intros Hk. apply wp_bind. unfold replay_as. apply wp_bind, wp_quiet; [apply quiet_replay_bytes|].
  intros o d' H. apply replay_bytes_Next in H as [-> _]. destruct o; wp_auto; auto.
Qed.
(** The prologue: authorization, after which the caller is known to be the owner. *)
Lemma wp_owner {C A} `{!MutableRequest C} (c : C) sid ctx e act now d (Q : A -> Db -> Prop) (k : Tx A) :
  (forall d1, writes None None d d1 -> by_owner sid ctx e now d -> wp k Q (changes d) d1) ->
  wp (authorized ← authorize_launch sid ctx e act now;
      match authorized with Err error => finish_failure sid c error | Ok _ => k end) Q (changes d) d.
Proof.
  intros Hk. apply wp_auth.
  - intros s v. exists None, None. split; [apply allowed_none|by apply writes_none].
  - intros t s _ Ho. apply Hk; [by apply writes_none|done].
Qed.
(** Reading between the prologue and the writes. *)
Ltac au_reads :=
  repeat lazymatch goal with
  | |- wp (finish_failure _ _ _) _ _ _ => eapply wp_fails; [apply allowed_none|eassumption]
  | |- wp (abort _) _ _ _ => apply wp_abort
  | |- wp (let _ := _ in _) _ _ _ => cbv zeta
  | |- wp (lift _ ≫= _) _ _ _ => apply wp_bind, wp_lift; intros ? ?
  | |- wp (get ≫= _) _ _ _ => apply wp_bind, wp_get
  | Hw : writes None None ?d ?d1 |- wp (load_authority_policy_in _ ≫= _) _ _ ?d1 =>
      apply wp_bind, wp_load_policy; rewrite (wr_policies _ _ _ _ Hw); cbn [with_policy]
  | Hw : writes None None ?d ?d1 |- wp (load_grant_in _ ≫= _) _ _ ?d1 =>
      apply wp_bind, wp_load_grant; rewrite (wr_grants _ _ _ _ Hw); cbn [with_grant]
  | Hw : writes None None ?d ?d1 |- wp (?m ≫= _) _ _ ?d1 =>
      apply (wp_wrote None None); [solve [within_auto]|apply allowed_none|exact Hw|clear d1 Hw; intros ? d1 Hw]
  | |- wp (if ?b then _ else _) _ _ _ => destruct b eqn:?
  | |- wp (match ?x with _ => _ end) _ _ _ => destruct x eqn:?
  end.
(** The rest of a handler after its writes. *)
Ltac au_finish Ha :=
  repeat lazymatch goal with
  | |- wp (let _ := _ in _) _ _ _ => cbv zeta
  | Hw : writes ?np ?ng ?d ?d1 |- wp (_ ≫= _) _ _ ?d1 =>
      apply (wp_wrote np ng); [solve [within_auto]|apply Ha|exact Hw|clear d1 Hw; intros ? d1 Hw]
  end;
  lazymatch goal with Hw : writes ?np ?ng ?d ?d1 |- wp (mret _) _ _ ?d1 => apply wp_ret; exists np, ng; split; [apply Ha|split; [exact Hw|]] end.
(** Nothing was written. *)
Ltac au_same := au_finish allowed_none.

Lemma policy_within_iff p participant now : policy_within p participant (py_session_id p) now = true <-> policy_coherent p.
Proof.
  unfold policy_within. rewrite andb_true_iff, !forallb_forall. split.
  - intros [Ha Hd]. split; intros req Hreq%elem_of_elements%list_elem_of_In.
    + apply Ha in Hreq. destruct (authorize_effect _ _ _ _ _ _) eqn:E; [|done]. apply authorize_effect_Ok in E as [E _].
      unfold effect_allowed in E. cbn in E. unfold permits. tauto.
    + apply Hd in Hreq. destruct (authorize_child_creation _ _) eqn:E; [|done]. apply authorize_child_creation_Ok in E as [E _].
      cbn in E. tauto.
  - intros [Ha Hd]. split; intros req Hreq%list_elem_of_In%elem_of_elements.
    + specialize (Ha _ Hreq). unfold permits in Ha.
      assert (E : authorize_effect (policy_ceilings p) participant (py_session_id p) req None now = Ok (MkDecision req (effect_origins None))).
      { apply authorize_effect_Ok. split; [|done]. unfold effect_allowed. cbn. split_and!; try tauto. done. }
      by rewrite E.
    + specialize (Hd _ Hreq). assert (E : authorize_child_creation (policy_ceilings p) req = Ok (MkDecision req ceiling_origins)).
      { apply authorize_child_creation_Ok. split; [|done]. cbn. tauto. }
      by rewrite E.
Qed.

(** The statements that write. *)
Lemma wp_insert_policy {A} sid p (k : unit -> Tx A) (Q : A -> Db -> Prop) d d1 : writes None None d d1 ->
  (forall d2, db_policies d !! py_participant_id p = None -> writes (Some p) None d d2 -> wp (k tt) Q (changes d) d2) ->
  wp (insert_policy sid p ≫= k) Q (changes d) d1.
Proof.
  intros [EP EG ET] Hk. unfold insert_policy. wp_auto. case_if as E; wp_auto. apply orb_false_iff in E as [[E _]%orb_false_iff _].
  rewrite EP in E. cbn in E. apply Hk; [by destruct (db_policies d !! _)|]. split; cbn; [by rewrite EP|done|done].
Qed.
Lemma wp_insert_grant {A} sid g (k : unit -> Tx A) (Q : A -> Db -> Prop) d d1 : writes None None d d1 ->
  (forall d2, writes None (Some g) d d2 -> wp (k tt) Q (changes d) d2) -> wp (insert_grant sid g ≫= k) Q (changes d) d1.
Proof.
  intros [EP EG ET] Hk. unfold insert_grant. wp_auto. case_if as E; wp_auto. apply Hk. split; cbn; [done|by rewrite EG|done].
Qed.
Lemma wp_update_grant {A} g np (k : unit -> Tx A) (Q : A -> Db -> Prop) d d1 : writes np None d d1 ->
  (forall d2, writes np (Some g) d d2 -> wp (k tt) Q (changes d) d2) -> wp (update_grant_in g ≫= k) Q (changes d) d1.
Proof.
  intros [EP EG ET] Hk. unfold update_grant_in. wp_auto. case_if as E; wp_auto. apply Hk. split; cbn; [done|by rewrite EG|done].
Qed.
(** The owner's part of an answer. *)
Definition owned {A} (sid : SessionId) (ctx : RequestContext) (e : FencingEpoch) (now : Timestamp) (d : Db) (m : Mutation A) : Prop :=
  match m with Applied _ => by_owner sid ctx e now d | _ => True end.

(** *** Policies *)

Lemma register_template_contract now c d : wp (register_authority_template_policy now c)
  (changes_with (fun _ np ng => np = None /\ ng = None) d) (changes d) d.
Proof.
  unfold register_authority_template_policy. apply wp_replay_as. intros [v|].
  { eapply (wp_changed _ _ None None); [within_auto|apply allowed_none|apply writes_refl|done]. }
  apply wp_owner. intros d1 Hw _. au_reads. all: try by au_same.
  unfold insert_template_policy. wp_auto. case_if as E; wp_auto. apply orb_false_iff in E as [E _].
  eapply (wp_changed _ _ None None); [within_auto|apply allowed_none| |done]. destruct Hw as [EP EG ET]. split; cbn; [done|done|].
  etrans; [exact ET|]. apply insert_subseteq. by destruct (_ !! _).
Qed.
Lemma put_contract now c d : wp (put_authority_policy now c)
  (changes_with (fun m np ng => ng = None /\ owned (pp_session_id c) (pp_context c) (pp_epoch c) now d m) d) (changes d) d.
Proof.
  pose proof (writes_refl d) as Hw. unfold put_authority_policy. apply wp_replay_as. intros [v|]; [by au_same|clear Hw].
  apply wp_owner. intros d1 Hw Ho. au_reads; [by au_same|]. unfold neqb, eqb in *. bool_norm. 
  apply (wp_insert_policy _ _ _ _ d); [done|]. intros d2 Hnew Hw2.
  assert (Ha : allowed_writes (Some (pp_policy c)) None d).
  { split; [|done]. intros p [= <-]. split; [done|]. apply (policy_within_iff _ (py_participant_id (pp_policy c)) now). congruence. }
  clear Hw. by au_finish Ha.
Qed.
Lemma permits_effect p participant sid req grant now dec : authorize_effect (policy_ceilings p) participant sid req grant now = Ok dec ->
  permits p sid req /\ (forall g, grant = Some g -> grant_binds g participant sid req now).
Proof. intros [E _]%authorize_effect_Ok. unfold effect_allowed in E. cbn in E. unfold permits. tauto. Qed.
Lemma issue_contract now c d : wp (issue_grant now c)
  (changes_with (fun m np ng => np = None /\ owned (ig_session_id c) (ig_context c) (ig_epoch c) now d m) d) (changes d) d.
Proof.
  pose proof (writes_refl d) as Hw. unfold issue_grant. apply wp_replay_as. intros [v|]; [by au_same|clear Hw].
  apply wp_owner. intros d1 Hw Ho. au_reads. unfold neqb, eqb in *. bool_norm.
  assert (Ha : allowed_writes None (Some (MkGrantSnapshot (ig_grant c) (ig_single_use c) None)) d).
  { split; [done|]. intros g [= <-]. left. apply ok_or_Ok in H. destruct (authorize_effect _ _ _ _ _ _) as [dec|] eqn:E; [|done].
    apply permits_effect in E as [E _]. split_and!; cbn; [by destruct (db_grants d !! _)|done|done|]. exists a. split; [done|]. congruence. }
  apply (wp_insert_grant _ _ _ _ d); [done|]. intros d2 Hw2. clear Hw. by au_finish Ha.
Qed.
Lemma revoke_contract now c d : authority_rows d -> wp (revoke_grant now c)
  (changes_with (fun m np ng => np = None /\ owned (rv_session_id c) (rv_context c) (rv_epoch c) now d m /\
     match m with Applied _ => exists g, db_grants d !! rv_grant_id c = Some g /\ ng = Some (revoked g) | _ => ng = None end) d) (changes d) d.
Proof.
  intros Hr. pose proof (writes_refl d) as Hw. unfold revoke_grant. apply wp_replay_as. intros [v|]; [by au_same|clear Hw].
  apply wp_owner. intros d1 Hw Ho. au_reads. apply ok_or_Ok in H. pose proof (ar_grants _ Hr _ _ H) as [Hid _].
  assert (Ha : allowed_writes None (Some (revoked a)) d).
  { split; [done|]. intros g [= <-]. right. exists a. split; [cbn; congruence|apply later_revoked]. }
  apply (wp_update_grant _ None _ _ d); [done|]. intros d2 Hw2. clear Hw. au_finish Ha. eauto.
Qed.

(** *** Using a grant *)

(** The grant a request names, if it exists, is bound to it and was never consumed. *)
Definition named (d : Db) (gid : option GrantId) : option GrantSnapshot := gid ≫= fun id => db_grants d !! id.
Definition usable (g : GrantSnapshot) (participant : ParticipantId) (sid : SessionId) (req : ScopedCapability) : Prop :=
  gs_consumed_at g = None /\ g_revoked (gs_grant g) = false /\ g_subject (gs_grant g) = participant /\
  g_session_id (gs_grant g) = sid /\ g_authority (gs_grant g) = req.
Definition effect_granted (d : Db) (participant : ParticipantId) (sid : SessionId) (req : ScopedCapability) (gid : option GrantId)
    (ng : option GrantSnapshot) : Prop :=
  (exists p, db_policies d !! participant = Some p /\ permits p sid req) /\
  forall g, named d gid = Some g -> usable g participant sid req /\ (gs_single_use g = true -> exists t, ng = Some (consumed g t)).
Definition consumption (d : Db) (grant : option GrantSnapshot) (ng : option GrantSnapshot) : Prop :=
  (forall g, ng = Some g -> moved_grant d g) /\ (forall g, grant = Some g -> gs_single_use g = true -> exists t, ng = Some (consumed g t)).

Lemma wp_consume {A} gid now np (k : unit -> Tx A) (Q : A -> Db -> Prop) d d1 : authority_rows d -> writes np None d d1 ->
  unconsumed (named d gid) = true ->
  (forall ng d2, consumption d (named d gid) ng -> writes np ng d d2 -> wp (k tt) Q (changes d) d2) ->
  wp (consume_single (named d gid) now ≫= k) Q (changes d) d1.
Proof.
  intros Hr Hw Hu Hk. unfold consume_single. destruct (named d gid) as [g|] eqn:E.
  - destruct (gs_single_use g) eqn:Es.
    + apply (wp_update_grant _ np _ _ d); [done|]. intros d2. apply Hk. split; [|intros g' [= <-] _; eauto]. intros g' [= <-].
      destruct gid as [id|]; [|done]. cbn in E. destruct (ar_grants _ Hr _ _ E) as [Hid _]. exists g. split; [cbn; congruence|].
      apply later_consumed. unfold unconsumed, is_none_or, is_none in Hu. by destruct (gs_consumed_at g).
    + apply wp_bind, wp_ret, (Hk None); [|done]. split; [done|]. intros g' [= <-]. congruence.
  - by apply wp_bind, wp_ret, (Hk None).
Qed.
Lemma wp_named {A} gid (k : option GrantSnapshot -> Tx A) (Q : A -> Db -> Prop) F d d1 : writes None None d d1 -> wp (k (named d gid)) Q F d1 ->
  wp (load_named_grant gid ≫= k) Q F d1.
Proof.
  intros Hw Hk. apply wp_bind. destruct gid as [id|]; [|done]. unfold load_named_grant. apply wp_load_grant. by rewrite (wr_grants _ _ _ _ Hw).
Qed.
Lemma granted policy d participant sid req gid now dec ng : authorized_by policy participant sid req (named d gid) now = Some dec ->
  policy = db_policies d !! participant -> unconsumed (named d gid) = true -> consumption d (named d gid) ng ->
  effect_granted d participant sid req gid ng.
Proof.
  intros (p & -> & E)%authorized_Some Hp Hu [_ Hc]. apply permits_effect in E as [E Hg]. split; [eauto|]. intros g Hn.
  split; [|by apply Hc]. rewrite Hn in *. destruct (Hg _ eq_refl) as (? & ? & ? & ? & _).
  unfold unconsumed, is_none_or, is_none in Hu. split_and!; try done. by destruct (gs_consumed_at g).
Qed.
Lemma check_contract now c d : authority_rows d -> wp (check_authority_effect now c)
  (changes_with (fun m np ng => np = None /\ owned (ck_session_id c) (ck_context c) (ck_epoch c) now d m /\
     match m with
     | Applied (EffectAllowed _) => effect_granted d (ck_participant_id c) (ck_session_id c) (ck_requested c) (ck_grant_id c) ng
     | _ => ng = None end) d) (changes d) d.
Proof.
  intros Hr. pose proof (writes_refl d) as Hw. unfold check_authority_effect. apply wp_replay_as. intros [v|]; [by au_same|clear Hw].
  apply wp_owner. intros d1 Hw Ho. cbv zeta. apply (wp_wrote None None); [within_auto|apply allowed_none|exact Hw|].
  clear d1 Hw. intros t d1 Hw. apply wp_bind, wp_load_policy. rewrite (wr_policies _ _ _ _ Hw). cbn [with_policy].
  apply (wp_named _ _ _ _ d); [done|]. 
  destruct (authorized_by _ _ _ _ _ _) as [dec|] eqn:Hd; [|apply wp_bind, wp_ret; by au_same].
  destruct (unconsumed _) eqn:Hu; [|apply wp_bind, wp_ret; by au_same].
  apply wp_bind, (wp_consume _ _ None _ _ d); [done..|]. intros ng d2 Hc Hw2. apply wp_ret.
  assert (Ha : allowed_writes None ng d) by (split; [done|]; intros g Hg; right; by apply Hc). clear Hw.
  au_finish Ha. split_and!; [done..|]. by eapply granted.
Qed.

(** *** Authorized children *)

Lemma wp_child_valid {A} c parent template tp pp now (k : bool -> Tx A) (Q : A -> Db -> Prop) d d1 : writes None None d d1 ->
  (forall b d2, writes None None d d2 -> (b = true -> exists tp' pp', tp = Some tp' /\ pp = Some pp' /\ policy_coherent (child_policy c tp' pp')) ->
     wp (k b) Q (changes d) d2) -> wp (child_valid c parent template tp pp now ≫= k) Q (changes d) d1.
Proof.
  intros Hw Hk. apply wp_bind. unfold child_valid. apply wp_bind, wp_get. cbv zeta.
  apply (wp_wrote None None _ _ (fun b d2 => wp (k b) Q (changes d) d2) d d1); [within_auto|apply allowed_none|done|]. intros allowed d2 Hw2.
  match goal with |- wp (if ?b then _ else _) _ _ _ => destruct b eqn:E end; [|apply wp_ret, Hk; [done|discriminate]].
  do 5 (apply andb_true_iff in E as [E _]).
  apply (wp_wrote None None _ _ (fun b d2 => wp (k b) Q (changes d) d2) d d2); [within_auto|apply allowed_none|done|]. intros existing d3 Hw3.
  apply wp_ret, Hk; [done|]. intros _. destruct tp as [tp'|], pp as [pp'|]; cbn in E; try discriminate E. exists tp', pp'.
  split_and!; [done..|]. exact (proj1 (policy_within_iff (child_policy c tp' pp') _ now) E).
Qed.
Lemma within_insert_counter id counter : within same_authority (insert_counter id counter).
Proof. unfold insert_counter. within_auto. Qed.
#[local] Hint Resolve within_insert_counter : within.
Lemma commit_child_contract c parent p input gid dec now d d1 (P : Mutation AuthorizedChildOutcome -> option AuthorityPolicySnapshot -> option GrantSnapshot -> Prop) :
  authority_rows d -> writes None None d d1 -> policy_coherent p -> unconsumed (named d gid) = true ->
  (forall part o w ng, consumption d (named d gid) ng -> P (Applied (ChildAllowed part p o w)) (Some p) ng) ->
  wp (commit_child c parent p input (named d gid) dec now) (changes_with P d) (changes d) d1.
Proof.
  intros Hr Hw Hp Hu HP. unfold commit_child. cbv zeta. au_reads. apply (wp_insert_policy _ _ _ _ d); [done|].
  clear d1 Hw. intros d1 Hnew Hw. assert (Ha : allowed_writes (Some p) None d).
  { split; [|done]. intros q [= <-]. by split. }
  repeat lazymatch goal with
  | |- wp (consume_single _ _ ≫= _) _ _ _ => fail
  | Hw : writes ?np ?ng ?d ?d1 |- wp (_ ≫= _) _ _ ?d1 =>
      apply (wp_wrote np ng); [solve [within_auto]|apply Ha|exact Hw|clear d1 Hw; intros ? d1 Hw]
  end.
  apply (wp_consume _ _ (Some p) _ _ d); [done..|]. intros ng d2 Hc Hw2. clear Hw.
  assert (Ha' : allowed_writes (Some p) ng d) by (split; [apply Ha|intros g Hg; right; by apply Hc]).
  au_finish Ha'. by apply HP.
Qed.
Lemma child_contract now c d : authority_rows d -> wp (create_authorized_child now c)
  (changes_with (fun m np ng => owned (ac_session_id c) (ac_context c) (ac_epoch c) now d m /\
     match m with
     | Applied (ChildAllowed _ p _ _) => np = Some p /\ (exists tp pp, db_policies d !! ac_parent_participant_id c = Some pp /\ p = child_policy c tp pp) /\
         effect_granted d (ac_parent_participant_id c) (ac_session_id c) (ac_requested c) (ac_grant_id c) ng
     | _ => np = None /\ ng = None end) d) (changes d) d.
Proof.
  intros Hr. pose proof (writes_refl d) as Hw. unfold create_authorized_child. apply wp_replay_as. intros [v|].
  { apply (wp_wrote None None); [unfold validate_child_replay; within_auto|apply allowed_none|exact Hw|]. clear Hw. intros ? d1 Hw. by au_same. }
  clear Hw. apply wp_owner. intros d1 Hw Ho.
  do 3 (apply (wp_wrote None None); [within_auto|apply allowed_none|exact Hw|]; clear d1 Hw; intros ? d1 Hw).
  match goal with |- wp (if ?b then _ else _) _ _ _ => destruct b eqn:? end; [au_reads|].
  do 2 (apply (wp_wrote None None); [within_auto|apply allowed_none|exact Hw|]; clear d1 Hw; intros ? d1 Hw).
  apply wp_bind, wp_load_policy. rewrite (wr_policies _ _ _ _ Hw). cbn [with_policy]. apply (wp_named _ _ _ _ d); [done|]. cbv zeta.
  apply (wp_child_valid _ _ _ _ _ _ _ _ d); [done|]. clear d1 Hw. intros valid d1 Hw Hv.
  destruct valid; [|by au_same]. destruct (Hv eq_refl) as (tp & pp & -> & Hpp & Hco). rewrite Hpp.
  destruct (authorized_by _ _ _ _ _ _) as [dec|] eqn:Hd; [|by au_same]. destruct (unconsumed _) eqn:Hu; [|by au_same].
  apply wp_bind, wp_lift. intros parent Hparent. apply wp_bind, wp_lift. intros policies [= <-]. apply wp_bind, wp_lift. intros input Hin.
  apply (commit_child_contract _ _ _ _ _ _ _ d); [done..|]. intros part o w ng Hc. split_and!; [done|done|eauto|].
  by eapply granted.
Qed.

(** *** The kernel *)

Variable max_lease_millis : Z.
Variable profile : LimitProfile.
Lemma settled {A} np ng (m : Tx A) d d1 : within same_authority m -> allowed_writes np ng d -> writes np ng d d1 ->
  wp m (fun _ => changes d) (changes d) d1.
Proof. intros Hm Ha Hw. eapply wp_mono; [apply Hm|intros ? d2 H2|intros d2 H2]; exists np, ng; (split; [done|by eapply writes_same]). Qed.
#[local] Hint Resolve within_commit_entry within_settle_tool within_validate_resolution within_moved_dispatch within_load_tool within_recorded_tool : within.
Lemma from_start {A} (m : Tx A) (Q : A -> Db -> Prop) F d : (forall d1, writes None None d d1 -> wp m Q F d1) -> wp m Q F d.
Proof. intros H. apply H, writes_refl. Qed.
Ltac au_settle := eapply settled; [within_auto|apply allowed_none|eassumption].
Lemma consumption_allowed d grant ng : consumption d grant ng -> allowed_writes None ng d.
Proof. intros [H _]. split; [done|]. intros g Hg. right. by apply H. Qed.
Lemma resolve_changes now c d : authority_rows d -> wp (resolve_authorized_effect now c) (fun _ => changes d) (changes d) d.
Proof.
  intros Hr. apply from_start. intros d1 Hw. unfold resolve_authorized_effect. cbv zeta. au_reads. all: try au_settle.
  lazymatch goal with H : ok_or Invalid (db_grants d !! _) = Ok ?g |- wp ((if gs_single_use ?g then update_grant_in (consumed ?g ?t) else _) ≫= ?k) _ _ _ =>
    apply ok_or_Ok in H; change (wp (consume_single (Some g) t ≫= k) (fun _ => changes d) (changes d) d1); rename H into Hg end.
  rewrite <-Hg. apply (wp_consume (Some (ra_grant_id c)) _ None _ _ d); [done|done| |].
  - unfold named. cbn. rewrite Hg. cbn. match goal with H : match authorized_by _ _ _ _ _ _ with _ => _ end = Ok _ |- _ => revert H end.
    case_match; [|done]. by destruct (is_none _).
  - clear Hw. intros ng d2 Hc Hw. eapply settled; [within_auto|by eapply consumption_allowed|exact Hw].
Qed.
Lemma wp_bind_inv {A B} (m : Tx B) (f : B -> Tx A) (Q : A -> Db -> Prop) F d : wp (m ≫= f) Q F d -> wp m (fun b d1 => wp (f b) Q F d1) F d.
Proof. unfold wp, mbind, tx_bind. by destruct (m d). Qed.
Lemma wp_authorized_start {A} v t (k : unit -> Tx A) (Q : A -> Db -> Prop) d d1 : authority_rows d -> writes None None d d1 ->
  (forall ng d2, allowed_writes None ng d -> writes None ng d d2 -> wp (k tt) Q (changes d) d2) ->
  wp (authorize_tool_start v t ≫= k) Q (changes d) d1.
Proof.
  intros Hr Hw Hk. apply wp_bind. unfold authorize_tool_start. cbv zeta.
  match goal with |- wp (if ?b then _ else _) _ _ _ => destruct b; [done|] end.
  assert (Hstep : forall B (m : Tx B) (k' : B -> Tx unit) d', within same_authority m -> writes None None d d' ->
    (forall b d2, writes None None d d2 -> wp (k' b) (fun u d3 => wp (k u) Q (changes d) d3) (changes d) d2) ->
    wp (m ≫= k') (fun u d3 => wp (k u) Q (changes d) d3) (changes d) d').
  { intros B m k' d' Hm Hw' Hk'. by apply (wp_wrote None None); [|apply allowed_none|..]. }
  apply Hstep; [within_auto|done|]. clear d1 Hw. intros p d1 Hw. apply wp_bind, wp_lift. intros participant _.
  apply Hstep; [within_auto|done|]. clear d1 Hw. intros o d1 Hw. apply wp_bind, wp_lift. intros operation _.
  match goal with |- wp (if ?b then _ else _) _ _ _ => destruct b; [done|] end.
  change (load_grant_of (tv_invocation v)) with (load_named_grant (ti_authority_grant_id (tv_invocation v))).
  apply (wp_named _ _ _ _ d); [done|]. apply wp_bind, wp_load_policy.
  match goal with |- wp (if ?b then _ else _) _ _ _ => destruct b eqn:E; [done|] end.
  apply negb_false_iff, andb_true_iff in E as [_ Hu].
  assert (H := wp_consume (ti_authority_grant_id (tv_invocation v)) t None k Q d d1 Hr Hw Hu). unfold consume_single in H.
  apply wp_bind_inv, H. intros ng d2 Hc. apply Hk. by eapply consumption_allowed.
Qed.
Lemma tool_changes now c d : authority_rows d -> wp (transition_tool now c) (fun _ => changes d) (changes d) d.
Proof.
  intros Hr. apply from_start. intros d1 Hw. unfold transition_tool. cbv zeta. au_reads. all: try au_settle.
  assert (Hrest : forall ng d2, allowed_writes None ng d -> writes None ng d d2 -> wp (
          if is_cancel (tt_transition c) && eqb (td_cancellation (tv_definition a)) UnsupportedCancellation then abort Invalid
          else if negb (pending_phase (tv_phase a))
               then if neqb (requested_terminal (tt_transition c)) (tv_terminal a) then abort (RequestConflict (rc_request_id (tt_context c)))
                    else _ ← record_tool_mutation c a; mret a
               else move ← lift (tool_move a a0 (tt_transition c)); commit_tool_move c a a0 a1 move b4) (fun _ => changes d) (changes d) d2).
  { intros ng d2 Ha Hw2. eapply settled; [unfold commit_tool_move; within_auto|exact Ha|exact Hw2]. }
  destruct (is_start (tt_transition c)); [by apply (wp_authorized_start _ _ _ _ d)|].
  apply wp_bind, wp_ret, (Hrest None); [apply allowed_none|done].
Qed.
(** Every request of the kernel. *)
Lemma request_changes now q d : authority_rows d -> changes d (serve max_lease_millis profile now q d).
Proof.
  intros Hr. assert (Hrefl : changes d d) by (exists None, None; split; [apply allowed_none|apply writes_refl]).
  apply serve_wp; [|done].
  assert (Hsame : (match q with RqResolve _ | RqTool _ => False | _ => True end) ->
    wp (handler max_lease_millis profile now q) (fun _ => changes d) (changes d) d).
  { intros Hq. eapply settled; [|apply allowed_none|apply writes_refl].
    apply (handler_within max_lease_millis profile same_authority); try done; try (by destruct q); destruct q; done. }
  destruct q; try (by apply Hsame); cbn [handler]; (eapply wp_discard; [by first [apply resolve_changes|apply tool_changes]|done|done]).
Qed.
End contracts.
