(* ===== verification/AuthorityHistory.v ===== *)
(** * AuthorityHistory: authority over all histories of the store

    The authority transactions of SqliteAuthority.v beside the requests of the kernel.
    From the contracts of AuthorityLedger.v: every policy stays within its ceilings and
    every grant within the policy of its subject; a grant that was used up or revoked
    never allows anything again; and whatever a child that was created with authority is
    allowed to do, its parent was allowed to delegate. *)
From S2P Require Import Prelude Scalars Session Authority Operation RecoveryTable Capacity Artifact Json Tool StoreApi StoreWire Approval Template.
From S2P Require Import Message OperationApi ToolApi EffectApi AuthorityApi SqliteDb SqliteSession SessionLedger Ownership SqliteMailbox Tables.
From S2P Require Import SqliteOperation SqliteLaunch SqliteTool MailboxLedger Footprint OperationLedger Kernel SqliteAuthority AuthorityLedger Scenario.

Inductive AuthorityCall :=
| AuTemplate (c : RegisterAuthorityTemplatePolicy)
| AuPut (c : PutAuthorityPolicy)
| AuIssue (c : IssueGrant)
| AuRevoke (c : RevokeGrant)
| AuCheck (c : CheckAuthorityEffect)
| AuChild (c : CreateAuthorizedChild).

(** A grant that can not be used any more. *)
Definition spent (g : GrantSnapshot) : Prop := gs_consumed_at g <> None \/ g_revoked (gs_grant g) = true.
Lemma spent_later g g' : later_grant g g' -> spent g -> spent g'.
Proof.
  intros [_ R C] [H|H]; [left|right; auto]. destruct (gs_consumed_at g) as [t|]; [|done]. by rewrite (C t).
Qed.
Definition spent_in (id : GrantId) (d : Db) : Prop := exists g, db_grants d !! id = Some g /\ spent g.
Lemma spent_evolves id d d' : evolves d d' -> spent_in id d -> spent_in id d'.
Proof. intros [_ G _] (g & Hg & Hs). destruct (G _ _ Hg) as (g' & Hg' & L). exists g'. split; [done|by eapply spent_later]. Qed.

Section history.
Context {TL : TimeLib} {TA : TimeArith} {SH : Sha256} {JS : Json} {JR : JsonRaw} {UT : UuidText}.
Context {TLaws : TimeLaws} {TALaws : TimeArithLaws}.
Variable max_lease_millis : Z.
Variable profile : LimitProfile.

Definition authority_call (now : Timestamp) (q : AuthorityCall) : Tx unit :=
  match q with
  | AuTemplate c => discard (register_authority_template_policy now c)
  | AuPut c => discard (put_authority_policy now c)
  | AuIssue c => discard (issue_grant now c)
  | AuRevoke c => discard (revoke_grant now c)
  | AuCheck c => discard (check_authority_effect now c)
  | AuChild c => discard (create_authorized_child now c)
  end.
(** The other transactions of the store keep the policies and move at most one grant on. *)
Inductive auth_step : Db -> Db -> Prop :=
| au_call now q d : auth_step d (run (authority_call now q) d).1
| au_request now q d : auth_step d (serve max_lease_millis profile now q d)
| au_other ng d d' : (forall g, ng = Some g -> moved_grant d g) -> writes None ng d d' -> auth_step d d'.
Definition auth_steps : Db -> Db -> Prop := rtc auth_step.
(** The states of a store that was created without policies and grants. *)
Definition auth_reachable (d : Db) : Prop := exists d0, db_policies d0 = ∅ /\ db_grants d0 = ∅ /\ auth_steps d0 d.

Lemma call_changes now q d : authority_rows d -> changes d (run (authority_call now q) d).1.
Proof.
  intros Hr. apply run_wp with (Q := fun _ => changes d) (F := changes d); try done; [|by exists None, None; split; [apply allowed_none|apply writes_refl]].
  assert (Hdrop : forall A (m : Tx A) P, wp m (changes_with P d) (changes d) d -> wp (discard m) (fun _ => changes d) (changes d) d).
  { intros A m P Hm. eapply wp_discard; [exact Hm| |done]. intros a d' (np & ng & Ha & Hw & _). by exists np, ng. }
  destruct q; cbn [authority_call]; eapply Hdrop;
    [apply register_template_contract|apply put_contract|apply issue_contract|by apply revoke_contract|by apply check_contract|by apply child_contract].
Qed.
Lemma step_evolves d d' : auth_step d d' -> authority_rows d -> authority_rows d' /\ evolves d d'.
Proof.
  intros Hst Hr. assert (Hc : forall d', changes d d' -> authority_rows d' /\ evolves d d').
  { intros d1 (np & ng & Ha & Hw). by eapply writes_evolve. }
  destruct Hst as [now q d|now q d|ng d d' Hm Hw]; [by apply Hc, call_changes|by apply Hc, request_changes|].
  apply Hc. exists None, ng. split; [split; [done|]|done]. intros g Hg. right. by apply Hm.
Qed.
Lemma steps_evolve d d' : auth_steps d d' -> authority_rows d -> authority_rows d' /\ evolves d d'.
Proof.
  induction 1 as [d|d1 d2 d3 H12 _ IH]; intros Hr; [done|]. destruct (step_evolves _ _ H12 Hr) as [Hr2 E2].
  destruct (IH Hr2) as [Hr3 E3]. split; [done|by etrans].
Qed.
Lemma auth_reachable_rows d : auth_reachable d -> authority_rows d.
Proof.
  intros (d0 & Hp & Hg & Hst). eapply steps_evolve; [exact Hst|]. split; intros id x; rewrite ?Hp, ?Hg, lookup_empty; done.
Qed.
Lemma auth_reachable_steps d d' : auth_reachable d -> auth_steps d d' -> auth_reachable d'.
Proof. intros (d0 & Hp & Hg & H0) H. exists d0. split_and!; [done..|]. unfold auth_steps in *. by etrans. Qed.

(** The answers. *)
Lemma answered {A} (m : Tx A) P a d d' : wp m (changes_with P d) (changes d) d -> run m d = (d', Ok a) ->
  exists np ng, allowed_writes np ng d /\ writes np ng d d' /\ P a np ng.
Proof. unfold wp, run. destruct (m d) as [x dx|e|dx e]; [|done..]. by intros H [= <- <-]. Qed.
Lemma run_call now q d : auth_step d (run (authority_call now q) d).1.
Proof. apply au_call. Qed.
Lemma discarded_run {A} (m : Tx A) d d' a : run m d = (d', Ok a) -> (run (discard m) d).1 = d'.
Proof. unfold run, discard, mbind, tx_bind. destruct (m d); [|done..]. cbn. by intros [= <- _]. Qed.
Lemma check_step now c d d' a : run (check_authority_effect now c) d = (d', Ok a) -> auth_step d d'.
Proof. intros H. rewrite <-(discarded_run _ _ _ _ H). apply (au_call now (AuCheck c)). Qed.
Lemma child_step now c d d' a : run (create_authorized_child now c) d = (d', Ok a) -> auth_step d d'.
Proof. intros H. rewrite <-(discarded_run _ _ _ _ H). apply (au_call now (AuChild c)). Qed.
Lemma revoke_step now c d d' a : run (revoke_grant now c) d = (d', Ok a) -> auth_step d d'.
Proof. intros H. rewrite <-(discarded_run _ _ _ _ H). apply (au_call now (AuRevoke c)). Qed.

(** The call used the grant up, or revoked it. *)
Inductive spends (id : GrantId) (d d' : Db) : Prop :=
| sp_check now c w g : ck_grant_id c = Some id -> db_grants d !! id = Some g -> gs_single_use g = true ->
    run (check_authority_effect now c) d = (d', Ok (Applied (EffectAllowed w))) -> spends id d d'
| sp_child now c p y o w g : ac_grant_id c = Some id -> db_grants d !! id = Some g -> gs_single_use g = true ->
    run (create_authorized_child now c) d = (d', Ok (Applied (ChildAllowed p y o w))) -> spends id d d'
| sp_revoke now c g : rv_grant_id c = id -> run (revoke_grant now c) d = (d', Ok (Applied g)) -> spends id d d'.
Lemma granted_spends d d' participant sid req id ng np g : authority_rows d -> effect_granted d participant sid req (Some id) ng ->
  writes np ng d d' -> db_grants d !! id = Some g -> gs_single_use g = true -> spent_in id d'.
Proof.
  intros Hr [_ Hg] Hw Hid Hs. destruct (Hg g Hid) as [_ Hc]. destruct (Hc Hs) as [t ->].
  destruct (ar_grants _ Hr _ _ Hid) as [<- _]. exists (consumed g t). rewrite (wr_grants _ _ _ _ Hw). cbn. rewrite lookup_insert_eq.
  split; [done|by left].
Qed.
Lemma spends_spent id d d' : authority_rows d -> spends id d d' -> spent_in id d' /\ auth_step d d'.
Proof.
  intros Hr. destruct 1 as [now c w g Hid Hg Hs Hrun|now c p y o w g Hid Hg Hs Hrun|now c g Hid Hrun].
  - split; [|by eapply check_step]. destruct (answered _ _ _ _ _ (check_contract now c d Hr) Hrun) as (np & ng & _ & Hw & _ & _ & He).
    rewrite Hid in He. by eapply granted_spends.
  - split; [|by eapply child_step]. destruct (answered _ _ _ _ _ (child_contract now c d Hr) Hrun) as (np & ng & _ & Hw & _ & _ & _ & He).
    rewrite Hid in He. by eapply granted_spends.
  - split; [|by eapply revoke_step]. destruct (answered _ _ _ _ _ (revoke_contract now c d Hr) Hrun) as (np & ng & _ & Hw & _ & _ & g0 & Hg0 & ->).
    subst id. destruct (ar_grants _ Hr _ _ Hg0) as [Hk _]. exists (revoked g0). rewrite (wr_grants _ _ _ _ Hw). cbn. rewrite Hk, lookup_insert_eq.
    split; [done|by right].
Qed.
Lemma spent_refused d id participant sid req ng : spent_in id d -> effect_granted d participant sid req (Some id) ng -> False.
Proof. intros (g & Hg & Hs) [_ H]. destruct (H g Hg) as [(Hc & Hv & _) _]. destruct Hs as [Hs|Hs]; congruence. Qed.

(** ** Theorems *)

(** C17: over every history the rules of every stored policy are covered by the ceilings
    of the session, the parent, the template and the relationship, and every stored grant
    is for an authority that the policy of its subject covers: a grant never gives more
    than the policy does. *)
Theorem grants_within_policies d : auth_reachable d ->
  (forall id p, db_policies d !! id = Some p -> py_participant_id p = id /\ policy_coherent p) /\
  (forall id g, db_grants d !! id = Some g -> g_id (gs_grant g) = id /\ exists p, db_policies d !! g_subject (gs_grant g) = Some p /\
     permits p (g_session_id (gs_grant g)) (g_authority (gs_grant g))).
Proof. intros [Hp Hg]%auth_reachable_rows. by split. Qed.

(** a check answers Allowed only to the owner of the session, for a request that all
    five ceilings of the participant's policy cover; and a grant it names, if it exists,
    is for this participant, session and request, not revoked and never used up. *)
Theorem allowed_effect_authorized now c d d' w : auth_reachable d ->
  run (check_authority_effect now c) d = (d', Ok (Applied (EffectAllowed w))) ->
  by_owner (ck_session_id c) (ck_context c) (ck_epoch c) now d /\
  (exists p, db_policies d !! ck_participant_id c = Some p /\ permits p (ck_session_id c) (ck_requested c)) /\
  (forall id g, ck_grant_id c = Some id -> db_grants d !! id = Some g ->
     usable g (ck_participant_id c) (ck_session_id c) (ck_requested c)).
Proof.
  intros Hr%auth_reachable_rows Hrun. destruct (answered _ _ _ _ _ (check_contract now c d Hr) Hrun) as (np & ng & _ & _ & _ & Ho & Hp & Hg).
  split_and!; [done..|]. intros id g Hid Hg'. apply Hg. unfold named. by rewrite Hid.
Qed.


(** C16: authority only narrows on the way to a child: whatever a child that was created
    with authority is ever allowed to do, at any later time and by any check, its parent's
    policy at its creation could delegate. *)
Theorem child_within_parent now c d d1 p y o w : auth_reachable d ->
  run (create_authorized_child now c) d = (d1, Ok (Applied (ChildAllowed p y o w))) ->
  exists pp, db_policies d !! ac_parent_participant_id c = Some pp /\
    forall d2, auth_steps d1 d2 -> forall now' c' d3 w', ck_participant_id c' = ac_participant_id c ->
      run (check_authority_effect now' c') d2 = (d3, Ok (Applied (EffectAllowed w'))) ->
      covers (ap_delegable (py_subject pp)) (ck_session_id c') (ck_requested c').
Proof.
  intros Hr%auth_reachable_rows Hrun. destruct (answered _ _ _ _ _ (child_contract now c d Hr) Hrun)
    as (np & ng & _ & Hw & _ & -> & (tp & pp & Hpp & Hy) & _).
  exists pp. split; [done|]. intros d2 Hst now' c' d3 w' Hid Hrun'.
  destruct (step_evolves _ _ (child_step _ _ _ _ _ Hrun) Hr) as [Hr1 _]. destruct (steps_evolve _ _ Hst Hr1) as [Hr2 [He _ _]].
  destruct (answered _ _ _ _ _ (check_contract now' c' d2 Hr2) Hrun') as (np' & ng' & _ & _ & _ & _ & (q & Hq & Hpm) & _).
  assert (Hy2 : db_policies d2 !! ac_participant_id c = Some y).
  { eapply lookup_weaken; [|exact He]. rewrite (wr_policies _ _ _ _ Hw), Hy. cbn. apply lookup_insert_eq. }
  rewrite Hid, Hy2 in Hq. injection Hq as <-. rewrite Hy in Hpm. apply Hpm.
Qed.
End history.

(** ** A concrete history *)

(** In the world of Scenario.v the root participant 11 gets a policy and a single-use
    grant, with which it creates the child 13; the child is then allowed an effect. *)
Definition au_rule : ScopedCapability := MkScoped (MkCapability "agent.work") (ScopeSession demo_session).
Definition au_profile : AuthorityProfile := MkProfile {[au_rule]} {[au_rule]}.
Definition au_template : RegisterAuthorityTemplatePolicy :=
  MkRegisterTemplatePolicy (demo_context 90 50) demo_session scene_epoch (MkTemplatePolicy (MkId 21) {[MkId 21]} au_profile au_profile au_profile).
Definition au_put : PutAuthorityPolicy :=
  MkPutPolicy (demo_context 91 50) demo_session scene_epoch
    (MkPolicy demo_session (MkId 11) au_profile au_profile au_profile au_profile au_profile).
Definition au_issue : IssueGrant :=
  MkIssueGrant (demo_context 92 50) demo_session scene_epoch (MkGrant (MkId 95) demo_session (MkId 11) au_rule (demo_at 1000) false) true.
Definition au_child : CreateAuthorizedChild :=
  MkCreateAuthorized (demo_context 93 50) demo_session scene_epoch (MkId 11) (MkId 13) (MkId 21) (tr_compatibility scene_record) au_rule
    (Some (MkId 95)) (MkId 33) (MkId 64) scene_input.
Definition au_check (n p : Z) (g : option GrantId) : CheckAuthorityEffect :=
  MkCheckEffect (demo_context n 50) demo_session scene_epoch (MkId p) au_rule g.
Definition au_calls : list AuthorityCall := [AuTemplate au_template; AuPut au_put; AuIssue au_issue; AuChild au_child].
Definition au_do := @authority_call UtcLib demo_sha scene_json braces_json demo_text (demo_at 100).
Definition au_db (n : nat) : Db := fold_left (fun d q => (run (au_do q) d).1) (take n au_calls) (scene_db 4).
Definition run_check := @check_authority_effect UtcLib demo_sha scene_json demo_text (demo_at 101).
Definition run_child := @create_authorized_child UtcLib demo_sha scene_json demo_text braces_json (demo_at 100).
Definition allowed_answer (r : Db * result StoreError (Mutation AuthorityEffectOutcome)) : bool :=
  match r.2 with Ok (Applied (EffectAllowed _)) => true | _ => false end.
Lemma allowed_answer_true r : allowed_answer r = true -> exists d w, r = (d, Ok (Applied (EffectAllowed w))).
Proof. destruct r as [d [[[w|]| |]|]]; try done. eauto. Qed.
Definition child_answer (r : Db * result StoreError (Mutation AuthorizedChildOutcome)) : bool :=
  match r.2 with Ok (Applied (ChildAllowed _ _ _ _)) => true | _ => false end.
Lemma child_answer_true r : child_answer r = true -> exists p y o w, r = (r.1, Ok (Applied (ChildAllowed p y o w))).
Proof. destruct r as [d [[[p y o w|]| |]|]]; try done. eauto. Qed.

Definition au_reachable := @auth_reachable UtcLib UtcArith demo_sha scene_json braces_json demo_text 60000 LimitProfile_default.
Lemma au_reach n : au_reachable (au_db n).
Proof.
  exists (scene_db 4). split; [vm_compute; reflexivity|]. split; [vm_compute; reflexivity|]. unfold au_db. generalize (scene_db 4).
  generalize (take n au_calls). intros l. induction l as [|q l IH]; intros d; [apply rtc_refl|]. cbn [fold_left]. eapply rtc_l; [|apply IH].
  apply au_call.
Qed.
(** The child is created with the grant. *)
Lemma created_by c d : child_answer (run (run_child c) d) = true ->
  exists p y o w, run (run_child c) d = ((run (au_do (AuChild c)) d).1, Ok (Applied (ChildAllowed p y o w))).
Proof.
  intros (p & y & o & w & E)%child_answer_true. exists p, y, o, w.
  change (au_do (AuChild c)) with (discard (run_child c)). by rewrite (discarded_run _ _ _ _ E).
Qed.
Lemma au_next n q : au_calls !! n = Some q -> au_db (S n) = (run (au_do q) (au_db n)).1.
Proof. intros Hq. unfold au_db. by rewrite (take_S_r _ _ _ Hq), fold_left_app. Qed.
Lemma au_created : exists p y o w, run (run_child au_child) (au_db 3) = (au_db 4, Ok (Applied (ChildAllowed p y o w))).
Proof.
  rewrite (au_next 3 (AuChild au_child) eq_refl). apply created_by. vm_compute. reflexivity.
Qed.

(** ** The theorems at this history *)

Lemma grants_within_policies_witness : exists g p, db_grants (au_db 3) !! MkId 95 = Some g /\ db_policies (au_db 3) !! MkId 11 = Some p /\
  permits p demo_session au_rule.
Proof.
  destruct (@grants_within_policies UtcLib UtcArith demo_sha scene_json braces_json demo_text 60000 LimitProfile_default
    (au_db 3) (au_reach 3)) as [_ H].
  destruct (db_grants (au_db 3) !! MkId 95) as [g|] eqn:E; [|by vm_compute in E]. destruct (H _ _ E) as (_ & p & Hp & Hpm).
  exists g, p. vm_compute in E. injection E as <-. exact (conj eq_refl (conj Hp Hpm)).
Defined.
Lemma allowed_effect_authorized_witness : exists p, db_policies (au_db 4) !! MkId 13 = Some p /\ permits p demo_session au_rule.
Proof.
  assert (H : allowed_answer (run (run_check (au_check 94 13 None)) (au_db 4)) = true) by (vm_compute; reflexivity).
  destruct (allowed_answer_true _ H) as (d & w & E).
  destruct (@allowed_effect_authorized UtcLib UtcArith demo_sha scene_json braces_json demo_text 60000 LimitProfile_default
    _ _ _ _ _ (au_reach 4) E) as (_ & Hp & _). exact Hp.
Defined.
Lemma child_within_parent_witness : exists pp, db_policies (au_db 3) !! MkId 11 = Some pp /\ covers (ap_delegable (py_subject pp)) demo_session au_rule.
Proof.
  destruct au_created as (p & y & o & w & E).
  destruct (@child_within_parent UtcLib UtcArith demo_sha scene_json braces_json demo_text 60000 LimitProfile_default
    _ _ _ _ _ _ _ _ (au_reach 3) E) as (pp & Hpp & H).
  assert (Ha : allowed_answer (run (run_check (au_check 94 13 None)) (au_db 4)) = true) by (vm_compute; reflexivity).
  destruct (allowed_answer_true _ Ha) as (d & w' & E').
  exists pp. exact (conj Hpp (H (au_db 4) (rtc_refl _ _) (demo_at 101) (au_check 94 13 None) d w' eq_refl E')).
Defined.

(** ** Limits *)

(** A profile under which a session has one participant. *)
Definition tight_profile : result LimitProfileError LimitProfile :=
  LimitProfile_new [(Participants, MkLimit 1 1)].
(** The session's only place is taken: creating a child is refused, creating one with
    authority is not. *)
Example authorized_child_ignores_limits : exists profile, tight_profile = Ok profile /\
  (run (@create_child_participant UtcLib demo_sha scene_json demo_text profile (demo_at 100)
    (MkCreateChild (demo_context 4 50) demo_session scene_epoch (MkId 12) (MkId 11) (MkId 21) (tr_compatibility scene_record))) (au_db 3)).2
    = Err (CapacityExceeded (SessionLimit Participants)) /\
  child_answer (run (run_child au_child) (au_db 3)) = true.
Proof.
  destruct tight_profile as [profile|] eqn:E; [|discriminate E]. exists profile. split; [reflexivity|].
  split; [|vm_compute; reflexivity]. vm_compute in E. injection E as <-. vm_compute. reflexivity.
Qed.
